(* ===== verification/_CoqProject ===== *)
-Q . S2P
Prelude.v
Text.v
Errors.v
Effects.v
Names.v
Rbac.v
Keys.v
Schema.v
Partition.v
Bytes.v
Space.v
Floats.v
Router.v
Merge.v
Replica.v
Failover.v
Delivery.v
RefCount.v
SortOrder.v
Mapping.v
DocParse.v
DocResp.v
Filters.v
Query.v
Limits.v
Placement.v
Store.v
Net.v
Databases.v
Accounts.v
Cache.v
Indexes.v
SpaceUpdate.v
SpaceLife.v
Members.v
Configs.v
Paths.v
Auth.v
Sweep.v
Backup.v
Restore.v
Api.v
Shards.v
DistLock.v
Durability.v
RaftStore.v
DocServer.v
Node.v
Snapshot.v
Engine.v
Gamma.v
Dispatch.v
