(* ===== verification/Prelude.v ===== *)
(** * Vearch: a verification development of the control plane and the router

    Vearch is a distributed vector database.  A cluster has three kinds of
    processes.  The master (internal/master) keeps databases, spaces, users,
    roles and aliases in etcd, creates spaces and places their partitions on
    servers.  Routers (internal/router, internal/client) accept document
    operations over HTTP, split them by partition, send the parts to partition
    servers and merge the replies.  Partition servers (internal/ps) replicate
    each partition with raft and store it in a C++ engine.  The shared data
    model is internal/entity.  This development models the program's own logic
    between those interfaces, in Go's terms: machine integers wrap, maps are
    ranged over in an unspecified order, slices panic out of range, nil pointers
    panic, calls fail.

    ** Files and the code they model

    - Prelude.v: this header; integers of fixed width ([wrap_u], [wrap_s]), the
      type [outcome] of what a call returning [(A, error)] can do (a value, an
      error, a panic) with its notations, loops with early return ([ofold]),
      indexing, and the shared lemmas on lists and sorting.
    - Text.v: Go strings as bytes, [[]rune(s)] with UTF-8 decoding, prefixes, case folding.
    - Errors.v: internal/proto/vearchpb/vearch_err.go, the error type and its codes.
    - Effects.v: calls that change a state and may fail, in sequence.
    - Names.v: the validators of names (entity/db.go, alias.go, space.go, user.go).
    - Rbac.v: entity/user.go, roles, request classification, permissions, users.
    - Keys.v: entity/meta.go, the keys of the metadata store.
    - Schema.v: entity/space.go, decoding and checking of fields and indexes.
    - Partition.v: entity/partition.go, partitions and range rules.
    - Bytes.v: internal/pkg/cbbytes/bytes.go, encodings of field values.
    - Space.v: entity/space.go and services/space_service.go, the layout of
      slots and the lookup of the partition of a document.
    - Floats.v: IEEE floats (binary64, binary32) as the code compares and
      encodes them; the contract of [sort.Slice] (class [SortSlice]).
    - Router.v: internal/client/client.go, how a request is split by partition
      ([scatter]) and the replies put back in place ([gather]).
    - Merge.v: internal/client/client.go, merging, sorting and paging of search replies.
    - Replica.v: internal/client/client.go, the choice of the replica to ask.
    - Failover.v: client.go: how one goroutine of a request gets an answer from
      the replicas of its partition.
    - Delivery.v: client.go and internal/pkg/number/number.go: one goroutine of an
      upsert, which normalizes vectors and delivers the documents of a partition.
    - RefCount.v: internal/ps/backup/ref_count_manager.go, reference counts of
      backed-up files, with the manager's lock.
    - SortOrder.v: internal/ps/engine/sortorder, sort values, sort orders, their parsing.
    - Mapping.v: internal/ps/engine/mapping, the partition servers' reading of a schema.
    - DocParse.v: internal/router/document/doc_parse.go, documents from JSON values.
    - DocResp.v: internal/router/document/doc_resp.go, the JSON of replies from
      the stored fields and results.
    - Filters.v: internal/router/document/doc_query.go, the range and term
      filters of the conditions of a request.
    - Query.v: the rest of doc_query.go: vectors, fields, sort, ranker and pages of
      search and query requests.
    - Limits.v: entity/config.go and doc_http.go, request and memory limits.
    - Placement.v: services/space_service.go and entity/server.go, the servers
      a partition is placed on.
    - Store.v: internal/master/store/etcdstore.go and client/master.go: the store
      as a map of keys, calls that may fail before or after they take effect, a
      monad [M] of such calls and a program logic ([triple]) for it.
    - Net.v: client/ps.go and ps_admin_service.go, [Execute] with its retries; the
      monad [N] of store calls and requests to partition servers with a log of
      what was sent, and its logic ([ntriple]).
    - Databases.v: services/db_service.go over that store.
    - Accounts.v: services/alias_service.go, role_service.go, user_service.go.
    - Cache.v: client/master_cache.go, the caches of routers and servers, their
      loading, their watch events and the lookups through them.
    - Indexes.v, SpaceUpdate.v, SpaceLife.v: services/space_service.go: adding and
      removing indexes; updates of configuration and fields; creation, deletion,
      growth and range rules, with the frame logic [keeps]; the registration of
      partitions (services/partition_service.go).
    - Members.v: services/member_service.go and server_service.go, membership
      changes, replica changes, failed servers, resource limits.
    - Configs.v: services/config_service.go, the settings of spaces, routers and
      servers, and the registration of a server.
    - Paths.v: path.Join and path.Clean, prefixes, suffixes and segments of the
      names of objects and files.
    - Auth.v: pkg/netutil/auth.go, entity/errors/errors_http.go,
      entity/response/response.go and the authentication of the master
      (cluster_api.go) and of the router (doc_http.go).
    - Sweep.v: internal/master/schedule_job.go, the clean task.
    - Backup.v: services/backup_service.go, versions, tasks and the monitor of
      backups as a step relation of its periodic jobs and of requests; progress.
    - Restore.v: the same file's restore of a schema, with the mapping of the new
      partitions to the directories of the old, and the deletion of versions.
    - Api.v: internal/master/cluster_api.go, the routes, the handlers on a record
      of services ([Services], met by the modelled ones in [master_services]),
      authentication and deadline around them.
    - Shards.v: internal/ps/backup/ps_backup_service.go, backup, restore and
      deletion of one partition on its server, the tasks and their status.
    - DistLock.v: internal/master/store/distlock.go, as a step relation over any
      number of interleaving clients.
    - Durability.v: internal/ps/storage/raftstore and engine/gammacb/writer.go, how a
      partition applies the raft log, saves its engine, truncates the log and
      recovers, as a step relation of its goroutines and of crashes.
    - RaftStore.v: the same store's admission of reads and writes, its membership
      and the status of its replicas; Module [CommitLock], the lock of [Writer.Commit].
    - DocServer.v: internal/ps/handler_document.go with the writer and reader of the
      engine: one document request on a partition server, down to the calls of the engine.
    - Node.v: internal/ps/server.go, partition_service.go, handler_admin.go, psutil/meta.go
      and raftstore/server.go: the partitions of a server, their creation,
      recovery, deletion and members, and the resolver of node addresses.
    - Snapshot.v: engine/gammacb/snapshot.go and raftstore/store_raft_snapshot.go:
      how a replica is brought up to date with the files of the leader.
    - Engine.v: engine/gammacb/gamma.go: closing and loading an engine while calls
      use it, as a step relation.
    - Gamma.v: engine/gammacb/gamma.go, util.go and raft_state_machine.go: the table
      of a space, and the raft commands that change the space and its indexes; the spaces of engine and
      store are objects of a heap, since they may be shared.
    - Dispatch.v: client.go, document/doc_service.go and doc_http.go: operations on all
      partitions of a space (flush, merge, rebuild, delete by query) from the
      HTTP request to the reply.

    Components meet through classes: [SortSlice] (a sort, used by Merge and
    Placement), [StrictWeak] and [TotalCmp] (orders), [Codec] (JSON at one type,
    used by the services), [ReplaySafe] and [PartsSafe] (the engine, used by Durability),
    [DecodeConfig] (JSON into a preset value, used by Configs), [RaftServer] (the raft
    library, used by Node), [GammaAPI] (the C++ engine and its indexes, used by Gamma).  Clients are proved against the class, and an
    instance shows each class can be met.

    ** What the theorems show

    - Routing: slots partition the hash space and the binary search finds the
      owner of every hash; new, grown and re-ruled spaces are laid out that way;
      every document of a request is sent exactly once, to its owner, and every
      position of the answer is filled; range rules send a document to its
      range; searches reach the partitions they name.
    - Results: the merged answer of a search is the requested page of the best
      items of all partitions, in any order of arrival; sort orders are total
      preorders under stated bounds, and are not outside them.
    - Input: accepted schemas, indexes, rules, names and documents satisfy the
      documented rules; encodings round-trip; where an input makes the code
      panic or wrap around, the theorem says which input.
    - Queries: the filters built for a request mean what its conditions say;
      accepted searches name known fields and partitions and have vectors of the
      right dimension; the parameters of indexes are checked exactly as stated; the two decoders of a schema agree on what both accept.
    - Placement: the chosen servers are live, distinct, in distinct zones and
      least loaded, and the choice fails only if no such choice exists.
    - Metadata: keys never collide and scans find what they should; ids are not
      reused; databases, aliases, roles and users stay consistent on every
      pattern of failed and half-failed calls, each operation refining an
      operation on a finite map; updates of users obey the password rules.
    - Spaces: creation is all or nothing but for used-up ids and registered
      partitions; deletion removes the keys of the space and no others; growth
      keeps the old partitions and routes over all; dropping a range drops its
      partitions only; updates of configuration and indexes are stored after
      every leader accepted them, and a failed one is not stored.
    - Members and settings: a membership change is stored only after the leader
      accepted it; adding replicas is balanced; a changed setting reaches the
      limiters of the routers and the servers that restart.
    - Caches: a client's cache agrees with the store once it has seen every
      change, except for changes between scan and watch; newer versions are not
      replaced by older ones; requests follow redirects to the leader.
    - Replies: what is stored for a document is what a reply shows of it, but
      for booleans, which make the reply panic.
    - Backups: a version found completed was completed by every partition; a
      restored space routes every document to the data of its old partition; a
      partition restored from a full backup has the files that were backed up;
      every accepted task ends and is reported so, unless a deletion has locked the reference counts.
    - Access: a request is let in exactly with the name and the password of a user
      whose role allows it, on the master and on the router; clients
      without an account change nothing but partition records and one setting;
      an account can make itself root.
    - Cleaning: the clean task removes exactly what belongs to nothing, if no
      read fails; a failed read costs a live partition.
    - Durability: whatever is saved when, whatever parts of the engine reach the disk before,
      and however often a partition crashes, replaying the rest of the log recovers the state after all committed commands, as long
      as the number in the file does not go back, which two overlapping saves
      can bring about.
    - Documents end to end: an upsert that the reply shows as successful was stored
      by the partition it belongs to, whatever failed on the way or elsewhere; a deletion returns exactly
      what the partitions that answered report; a flush without failures was made by every leader; a search
      finds a live replica if there is one.
    - Partitions of a server: a partition that a server holds is served, also after errors
      and restarts, and its creation is all or nothing; two requests at a time, or
      the removal of a member, can break this in the ways the theorems name.
    - Replication: a follower that receives a snapshot has the files of the
      leader's backup; the raft log of schema and index changes keeps the engine,
      the store and the file in agreement; new fields are always refused.
    - Closing: reads, writes and searches never use an engine that was freed; calls
      that are not counted can.
    - Admission: writes reach raft only on the leader and within the resource
      limits, and are never dropped silently.
    - Concurrency: the distributed lock excludes, and [Lock] may all the same
      report success without it; overlapping commits lock the engine for good;
      removing a backup reference deadlocks.

    ** Bounds and fuel

    Loops that are not structural take fuel.  [slot_search] takes the length of
    the list of partitions, which its interval can only shrink below
    ([PartitionId_owner] shows it always returns); [decode_runes] takes the number
    of bytes, each step using at least one ([decode_runes_fuel]); [insert_pos] the
    number of ranges ([AddRanges_sorted]); [bitlen_loop] four turns, enough for 64
    bits ([BitLen_correct]).  [Execute] makes at most [adaptRetry] = 3 attempts, the search for a leader in
    [find_leader] at most 10, as the code does; the polls for new partitions give up after a
    number of rounds [patience], an argument, where the code waits for a time.  A call of the object store is tried [maxRetries] + 1 = 4 times, a closing engine polled 61
    times ([accepted_tasks_end]); the batches of a deletion take the number of objects as fuel
    ([batches_spec]).  The messages of a snapshot take [send_bound], one more than the bytes of each
    file ([snapshot_roundtrip]); the attempts of a search at most one per replica, as in the
    code ([search_fails_over]).  All other loops are structural or folds.  Integers keep the width of the source where it
    matters: slots and hashes are uint32, page arithmetic int32, ids int64,
    replica counts uint8.

    ** What is a parameter

    Third-party code is an argument with the documented behaviour as hypothesis:
    [murmur3] (a hash below [2^32]), JSON ([Codec], round trip for valid UTF-8),
    [cast.ToInt64E] (reads back a decimal id), [sort.Slice], [uuid], the Unicode
    table above Latin-1, the liveness probe, the S3 client (listings, objects and
    failures of calls), the engine of a partition, the answers of the
    partition servers, the raft library, the file system's failures.  Orders of map
    iteration are arguments, universally quantified in the theorems.  Error
    messages are kept as format strings.

    ** What is not modelled

    The C++ engine behind its cgo calls and the flatbuffers that encode messages
    for it, generated protobuf code, gin and gRPC themselves, raft itself, process configuration, logging and
    metrics: these are libraries, I/O or generated.  Goroutines that send to several servers are modelled in any order
    ([sched], [arrive]), without overlapping in time except where a step relation is used; a lock of the master is a call that
    may fail, its exclusion being shown in DistLock.v.  Of the API of the master the
    handlers that read statistics, health and etcd members, of its backup
    service the superseded BackupSpace, of the partition server the statistics, the heartbeat and kill jobs and the superseded
    BackupHandler, of the router the handlers that only join the modelled parsing,
    routing and rendering (upsert, query, get, search) and its RPC interface, and the normalization of the
    vectors of a search. *)

From stdpp Require Export base gmap strings list fin_maps sorting pretty.
From Stdlib Require Export ZArith Lia Ascii.

#[global] Set Default Goal Selector "!".

(** ** Machine integers

    Go integers are [Z] kept in range by the functions below, which is the
    wrap-around the language defines for conversions and arithmetic. *)

Definition wrap_u (w z : Z) : Z := z mod 2 ^ w.
Definition wrap_s (w z : Z) : Z := (z + 2 ^ (w - 1)) mod 2 ^ w - 2 ^ (w - 1).

Definition u8 : Z -> Z := wrap_u 8.
Definition u32 : Z -> Z := wrap_u 32.
Definition u64 : Z -> Z := wrap_u 64.
Definition i32 : Z -> Z := wrap_s 32.
Definition i64 : Z -> Z := wrap_s 64.

Definition MaxUint32 : Z := 4294967295.

Definition in_u (w z : Z) : Prop := (0 <= z < 2 ^ w)%Z.
Definition in_s (w z : Z) : Prop := (- 2 ^ (w - 1) <= z < 2 ^ (w - 1))%Z.

Lemma wrap_u_id w z : in_u w z -> wrap_u w z = z.
Proof. apply Z.mod_small. Qed.

Lemma wrap_u_range w z : (0 <= w)%Z -> in_u w (wrap_u w z).
Proof. intros. apply Z.mod_pos_bound. apply Z.pow_pos_nonneg; lia. Qed.

Lemma pow2_half w : (0 < w)%Z -> (2 ^ w = 2 * 2 ^ (w - 1))%Z.
Proof.
  intros. replace w with (Z.succ (w - 1)) at 1 by lia.
  apply Z.pow_succ_r. lia.
Qed.

Lemma wrap_s_id w z : (0 < w)%Z -> in_s w z -> wrap_s w z = z.
Proof.
  unfold in_s, wrap_s. intros Hw Hz. pose proof (pow2_half w Hw).
  rewrite Z.mod_small; lia.
Qed.

Lemma wrap_s_range w z : (0 < w)%Z -> in_s w (wrap_s w z).
Proof.
  unfold in_s, wrap_s. intros Hw. pose proof (pow2_half w Hw).
  assert (0 < 2 ^ w)%Z by (apply Z.pow_pos_nonneg; lia).
  pose proof (Z.mod_pos_bound (z + 2 ^ (w - 1)) (2 ^ w)). lia.
Qed.

(** Signed and unsigned readings of the same bits. *)
Lemma wrap_u_wrap_s w z : (0 < w)%Z -> wrap_u w (wrap_s w z) = wrap_u w z.
Proof.
  unfold wrap_u, wrap_s. intros Hw.
  assert (2 ^ w <> 0)%Z by (apply Z.pow_nonzero; lia).
  rewrite Zminus_mod_idemp_l. f_equal. lia.
Qed.

Lemma wrap_s_wrap_u w z : (0 < w)%Z -> wrap_s w (wrap_u w z) = wrap_s w z.
Proof.
  unfold wrap_u, wrap_s. intros Hw. f_equal.
  by rewrite Z.add_mod_idemp_l by (apply Z.pow_nonzero; lia).
Qed.

(** ** Failures

    [outcome A] is what a Go call that returns [(A, error)] can do: return a
    value, return an error, or panic. *)

Inductive panic : Set :=
| NilDeref       (** nil pointer dereference *)
| IndexRange     (** index or slice bound out of range *)
| DivZero        (** integer division by zero *)
| MakeSlice      (** [make] with a negative length or capacity *)
| Thrown         (** [errutil.ThrowError] *)
| Uncomparable.  (** comparing interface values that hold maps or slices *)

Inductive outcome (E A : Type) : Type :=
| Ret (a : A)
| Fail (e : E)
| Panic (p : panic).
Arguments Ret {E A} a.
Arguments Fail {E A} e.
Arguments Panic {E A} p.

Definition obind {E A B} (m : outcome E A) (k : A -> outcome E B) : outcome E B :=
  match m with
  | Ret a => k a
  | Fail e => Fail e
  | Panic p => Panic p
  end.

Declare Scope go_scope.
Delimit Scope go_scope with go.

Notation "'let!' x ':=' m 'in' k" := (obind m (fun x => k))
  (at level 200, x pattern, m at level 100, k at level 200) : go_scope.
Notation "'check!' m 'in' k" := (obind m (fun _ => k))
  (at level 200, m at level 100, k at level 200) : go_scope.
Open Scope go_scope.

(** [for _, x := range xs { ... }] whose body may return early with an error:
    the loop state is threaded through. *)
Fixpoint ofold {E A B} (f : B -> A -> outcome E B) (b : B) (xs : list A) : outcome E B :=
  match xs with
  | [] => Ret b
  | x :: xs' => let! b' := f b x in ofold f b' xs'
  end.

Definition is_ret {E A} (m : outcome E A) : bool :=
  match m with Ret _ => true | _ => false end.

Lemma obind_ret_inv {E A B} (m : outcome E A) (k : A -> outcome E B) b :
  obind m k = Ret b -> exists a, m = Ret a /\ k a = Ret b.
Proof. destruct m; simpl; intros; [eauto|discriminate..]. Qed.

Lemma obind_panic {E A B} (m : outcome E A) (k : A -> outcome E B) p :
  obind m k = Panic p <-> m = Panic p \/ exists a, m = Ret a /\ k a = Panic p.
Proof. destruct m; simpl; naive_solver. Qed.

Lemma ofold_app {E A B} (f : B -> A -> outcome E B) b xs ys :
  ofold f b (xs ++ ys) = let! b' := ofold f b xs in ofold f b' ys.
Proof. revert b. induction xs as [|x xs IH]; intros b; simpl; [done|]. destruct (f b x); simpl; auto. Qed.

Lemma ofold_ext {E A B} (f g : B -> A -> outcome E B) b xs :
  (forall b x, f b x = g b x) -> ofold f b xs = ofold g b xs.
Proof. intros Hfg. revert b. induction xs as [|x xs IH]; intros b; simpl; [done|]. rewrite Hfg. by destruct (g b x); simpl. Qed.

Lemma ofold_ext_in {E A B} (f g : B -> A -> outcome E B) b xs :
  (forall b x, x ∈ xs -> f b x = g b x) -> ofold f b xs = ofold g b xs.
Proof.
  intros Hfg. induction xs as [|x xs IH] in b, Hfg |- *; simpl; [done|]. rewrite Hfg by (by left).
  destruct (g b x); simpl; [|done..]. apply IH. intros b' y Hy. apply Hfg. by right.
Qed.

(** A loop invariant for [ofold]: it relates the elements already seen to the
    state. *)
Lemma ofold_inv {E A B} (f : B -> A -> outcome E B) (I : list A -> B -> Prop) b xs b' :
  I [] b ->
  (forall done x acc acc', I done acc -> f acc x = Ret acc' -> I (done ++ [x]) acc') ->
  ofold f b xs = Ret b' -> I xs b'.
Proof.
  intros H0 Hstep. induction xs as [|x xs IH] using rev_ind in b' |- *; simpl; intros H.
  - by simplify_eq.
  - rewrite ofold_app in H. apply obind_ret_inv in H as (b1 & H1 & H2). simpl in H2.
    apply obind_ret_inv in H2 as (b2 & H2 & [= <-]). eauto.
Qed.

(** The loop succeeds when every step taken from an invariant state does. *)
Lemma ofold_total {E A B} (f : B -> A -> outcome E B) (I : list A -> B -> Prop) b xs :
  I [] b ->
  (forall done x acc, I done acc -> x ∈ xs -> exists acc', f acc x = Ret acc' /\ I (done ++ [x]) acc') ->
  exists b', ofold f b xs = Ret b' /\ I xs b'.
Proof.
  intros H0 Hstep.
  cut (forall pre b, I pre b -> exists b', ofold f b xs = Ret b' /\ I (pre ++ xs) b').
  { intros H. destruct (H [] b H0) as (b' & ? & ?). eauto. }
  clear b H0. induction xs as [|x xs IH]; intros pre b HI; simpl.
  - exists b. by rewrite app_nil_r.
  - destruct (Hstep pre x b HI) as (b1 & -> & H1); [set_solver|]. simpl.
    destruct (IH ltac:(intros; apply Hstep; set_solver) (pre ++ [x]) b1 H1) as (b' & -> & H2).
    exists b'. by rewrite <- app_assoc in H2.
Qed.

(** A loop that appends one result per element. *)
Lemma ofold_snoc_total {E A B} (f : A -> outcome E B) (R : nat -> B -> Prop) xs :
  (forall i x, xs !! i = Some x -> exists y, f x = Ret y /\ R i y) ->
  exists ys, ofold (fun acc x => let! y := f x in Ret (acc ++ [y])) [] xs = Ret ys /\
    length ys = length xs /\ forall i y, ys !! i = Some y -> R i y.
Proof.
  induction xs as [|x xs IH] using rev_ind; intros Hf; [by exists []|].
  destruct IH as (ys & Hys & Hlen & HR).
  { intros i y Hy. apply Hf. by apply lookup_app_l_Some. }
  destruct (Hf (length xs) x) as (y & Hy & HRy); [by apply list_lookup_middle|].
  exists (ys ++ [y]). rewrite ofold_app, Hys. simpl. rewrite Hy. simpl. split; [done|].
  rewrite !length_app, Hlen. split; [done|]. intros i z [Hz|[Hi Hz]]%lookup_app_Some; [by apply HR|].
  apply list_lookup_singleton_Some in Hz as [Hi0 <-]. by replace i with (length xs) by lia.
Qed.

(** ** Automation *)

Create HintDb vearch.
#[export] Hint Resolve wrap_u_range wrap_s_range : vearch.

(** Inverts a successful run of a chain of [let!]. *)
Ltac inv_ret :=
  repeat match goal with
  | H : obind _ _ = Ret _ |- _ =>
      let a := fresh "a" in let H1 := fresh "Hm" in
      apply obind_ret_inv in H as (a & H1 & H)
  | H : Ret _ = Ret _ |- _ => injection H as H
  | H : Fail _ = Ret _ |- _ => discriminate H
  | H : Panic _ = Ret _ |- _ => discriminate H
  end.

(** Splits the conditionals and matches of a hypothesis, dropping the branches
    that cannot return. *)
Ltac split_ret H :=
  repeat (case_match; simpl in H; try discriminate H).

(** ** Generic lists and booleans *)

(** [slice[k]] with Go's bound check. *)
Definition index_at {E A} (l : list A) (k : Z) : outcome E A :=
  if (k <? 0)%Z then Panic IndexRange
  else match l !! Z.to_nat k with Some x => Ret x | None => Panic IndexRange end.

Lemma index_at_lookup {E A} (l : list A) k x :
  (0 <= k)%Z -> l !! Z.to_nat k = Some x -> index_at (E := E) l k = Ret x.
Proof. intros Hk Hx. unfold index_at. destruct (Z.ltb_spec k 0); [lia|]. by rewrite Hx. Qed.

Definition string_eqb (s t : string) : bool := bool_decide (s = t).
Infix "=?s" := string_eqb (at level 70, no associativity) : go_scope.

Lemma string_eqb_eq s t : (s =?s t) = true <-> s = t.
Proof. apply bool_decide_eq_true. Qed.
Lemma string_eqb_neq s t : (s =?s t) = false <-> s <> t.
Proof. apply bool_decide_eq_false. Qed.

(** [slices.Contains] and the hand-written loops that do the same. *)
Fixpoint contains (l : list string) (x : string) : bool :=
  match l with
  | [] => false
  | s :: l' => if s =?s x then true else contains l' x
  end.

Lemma contains_true l x : contains l x = true <-> x ∈ l.
Proof.
  induction l as [|s l IH]; simpl.
  - split; [done|]. by intros ?%not_elem_of_nil.
  - rewrite elem_of_cons. destruct (s =?s x) eqn:Hs.
    + apply string_eqb_eq in Hs as ->. naive_solver.
    + apply string_eqb_neq in Hs. rewrite IH. naive_solver.
Qed.

Lemma contains_false l x : contains l x = false <-> x ∉ l.
Proof. rewrite <- contains_true. destruct (contains l x); naive_solver. Qed.

(** The set of names a duplicate check has seen so far. *)
Lemma fresh_cons (x : string) (seen : gset string) (l : list string) :
  Forall (fun n => n ∉ {[x]} ∪ seen) l <-> x ∉ l /\ Forall (fun n => n ∉ seen) l.
Proof.
  rewrite !Forall_forall. setoid_rewrite not_elem_of_union. setoid_rewrite not_elem_of_singleton.
  split.
  - intros H. split; [|firstorder]. intros Hx. by destruct (H x Hx).
  - intros [Hx H] n Hn. split; [|auto]. by intros ->.
Qed.

Lemma fresh_empty (l : list string) : Forall (fun n => n ∉ (∅ : gset string)) l.
Proof. apply Forall_forall. intros n _. apply not_elem_of_empty. Qed.
#[export] Hint Resolve fresh_empty : vearch.

Lemma list_filter_none {A} (P : A -> Prop) `{!forall x, Decision (P x)} (l : list A) :
  Forall (fun x => ~ P x) l -> filter P l = [].
Proof. induction 1 as [|x l Hx _ IH]; [done|]. by rewrite filter_cons, decide_False. Qed.

Lemma list_filter_all {A} (P : A -> Prop) `{!forall x, Decision (P x)} (l : list A) :
  Forall P l -> filter P l = l.
Proof. induction 1 as [|x l Hx _ IH]; [done|]. rewrite filter_cons, decide_True by done. by rewrite IH. Qed.

(** ** Sorted lists by position *)

Lemma ssorted_lookup {A} (R : relation A) (l : list A) i j x y :
  StronglySorted R l -> l !! i = Some x -> l !! j = Some y -> (i < j)%nat -> R x y.
Proof.
  intros Hs Hi Hj Hlt. rewrite <- (take_drop_middle l i x Hi) in Hs.
  apply StronglySorted_app in Hs as (_ & _ & Hs). inversion Hs as [|? ? _ Hall]; subst.
  rewrite Forall_forall in Hall. apply Hall. apply list_elem_of_lookup. exists (j - S i)%nat.
  rewrite lookup_drop. by replace (S i + (j - S i))%nat with j by lia.
Qed.

(** Inserting at a position that separates the smaller from the larger. *)
Lemma ssorted_insert {A} (R : relation A) (l : list A) k x :
  StronglySorted R l ->
  (forall i y, l !! i = Some y -> (i < k)%nat -> R y x) ->
  (forall i y, l !! i = Some y -> (k <= i)%nat -> R x y) ->
  StronglySorted R (take k l ++ x :: drop k l).
Proof.
  intros Hs Hlo Hhi. pose proof Hs as Hs'. rewrite <- (take_drop k l) in Hs'.
  apply StronglySorted_app in Hs' as (Hcross & H1 & H2).
  apply StronglySorted_app. split; [|split; [done|]].
  - intros a b Ha [->|Hb]%elem_of_cons; [|auto].
    apply list_elem_of_lookup in Ha as [i Hi]. apply lookup_take_Some in Hi as [Hi Hlt]. eauto.
  - constructor; [done|]. apply Forall_forall. intros y Hy.
    apply list_elem_of_lookup in Hy as [i Hi]. rewrite lookup_drop in Hi.
    apply (Hhi (k + i)%nat); [done|lia].
Qed.
