(* ===== verification/Text.v ===== *)
(** * Go strings: runes, prefixes and case folding

    What the sources use of packages [strings] and [unicode].  A Go string is a
    sequence of bytes ([string] of the Standard Library); [runes] is the
    conversion [[]rune(s)], including the replacement of invalid UTF-8 by
    U+FFFD one byte at a time. *)

From S2P Require Import Prelude.
Open Scope Z_scope.

Definition byte_val (a : ascii) : Z := Z.of_N (N_of_ascii a).

Fixpoint bytes_of (s : string) : list Z :=
  match s with
  | EmptyString => []
  | String a s' => byte_val a :: bytes_of s'
  end.

(** [string(bs)] *)
Definition byte_of (z : Z) : ascii := ascii_of_N (Z.to_N (z mod 256)).
Fixpoint of_bytes (bs : list Z) : string := match bs with [] => "" | b :: bs' => String (byte_of b) (of_bytes bs') end.

Lemma of_bytes_of s : of_bytes (bytes_of s) = s.
Proof.
  induction s as [|a s IH]; [done|]. cbn. rewrite IH. unfold byte_of, byte_val. f_equal.
  pose proof (N_ascii_bounded a). rewrite Z.mod_small by lia. by rewrite N2Z.id, ascii_N_embedding.
Qed.

Definition RuneError : Z := 65533.

Definition cont (b : Z) : bool := (128 <=? b) && (b <=? 191).

(** One decoding step: the rune and the number of bytes it takes. *)
Definition decode_rune (bs : list Z) : Z * nat :=
  match bs with
  | [] => (RuneError, 0%nat)
  | b0 :: rest =>
    if b0 <? 128 then (b0, 1%nat)
    else if (194 <=? b0) && (b0 <=? 223) then
      match rest with
      | b1 :: _ => if cont b1 then ((b0 - 192) * 64 + (b1 - 128), 2%nat) else (RuneError, 1%nat)
      | _ => (RuneError, 1%nat)
      end
    else if (224 <=? b0) && (b0 <=? 239) then
      match rest with
      | b1 :: b2 :: _ =>
        let lo := if b0 =? 224 then 160 else 128 in
        let hi := if b0 =? 237 then 159 else 191 in
        if (lo <=? b1) && (b1 <=? hi) && cont b2
        then ((b0 - 224) * 4096 + (b1 - 128) * 64 + (b2 - 128), 3%nat)
        else (RuneError, 1%nat)
      | _ => (RuneError, 1%nat)
      end
    else if (240 <=? b0) && (b0 <=? 244) then
      match rest with
      | b1 :: b2 :: b3 :: _ =>
        let lo := if b0 =? 240 then 144 else 128 in
        let hi := if b0 =? 244 then 143 else 191 in
        if (lo <=? b1) && (b1 <=? hi) && cont b2 && cont b3
        then ((b0 - 240) * 262144 + (b1 - 128) * 4096 + (b2 - 128) * 64 + (b3 - 128), 4%nat)
        else (RuneError, 1%nat)
      | _ => (RuneError, 1%nat)
      end
    else (RuneError, 1%nat)
  end.

Fixpoint decode_runes (fuel : nat) (bs : list Z) : list Z :=
  match fuel, bs with
  | _, [] => []
  | O, _ => []
  | S fuel', _ => let '(r, n) := decode_rune bs in r :: decode_runes fuel' (drop n bs)
  end.

(** [[]rune(s)]: every step takes at least one byte, so the length is enough
    fuel ([decode_runes_fuel]). *)
Definition runes (s : string) : list Z := let bs := bytes_of s in decode_runes (length bs) bs.

Lemma decode_rune_pos b bs : (1 <= (decode_rune (b :: bs)).2)%nat.
Proof. unfold decode_rune. repeat case_match; simpl; lia. Qed.

Lemma decode_runes_fuel k bs : (length bs <= k)%nat -> decode_runes k bs = decode_runes (length bs) bs.
Proof.
  remember (length bs) as n eqn:Hn. assert (length bs <= n)%nat as Hle by lia. clear Hn.
  revert k bs Hle. induction n as [n IH] using lt_wf_ind. intros k bs Hle Hk.
  destruct bs as [|b bs]; [by destruct k, n|]. simpl in Hle.
  destruct k as [|k]; [lia|]. destruct n as [|n]; [lia|]. cbn [decode_runes].
  pose proof (decode_rune_pos b bs). destruct (decode_rune (b :: bs)) as [r m]. simpl in *. f_equal.
  assert (length (drop m (b :: bs)) <= n)%nat by (rewrite length_drop; simpl; lia).
  rewrite (IH n); [|lia..]. done.
Qed.

Lemma decode_runes_ascii b bs :
  b < 128 -> decode_runes (S (length bs)) (b :: bs) = b :: decode_runes (length bs) bs.
Proof. intros H. simpl. apply Z.ltb_lt in H. by rewrite H. Qed.

(** An ASCII byte of the string is one of its runes: no multi-byte sequence
    swallows it. *)
Lemma cont_high b : cont b = true -> 128 <= b.
Proof. unfold cont. intros [?%Z.leb_le _]%andb_prop. done. Qed.

Lemma decode_rune_tail b bs i x :
  (S i < (decode_rune (b :: bs)).2)%nat -> bs !! i = Some x -> 128 <= x.
Proof.
  unfold decode_rune. destruct (b <? 128); [simpl; lia|].
  destruct ((194 <=? b) && (b <=? 223)); [|destruct ((224 <=? b) && (b <=? 239));
    [|destruct ((240 <=? b) && (b <=? 244)); [|simpl; lia]]].
  - destruct bs as [|b1 bs]; [simpl; lia|]. destruct (cont b1) eqn:C1; [|simpl; lia].
    apply cont_high in C1. destruct i; simpl; [|lia]. by intros _ [= <-].
  - destruct bs as [|b1 [|b2 bs]]; [simpl; lia..|]. cbv zeta.
    match goal with |- context [if ?c then (_, 3%nat) else _] => destruct c eqn:C end; [|simpl; lia].
    apply andb_prop in C as [[C1%Z.leb_le _]%andb_prop C2%cont_high].
    assert (128 <= b1) by (destruct (b =? 224); lia).
    destruct i as [|[|i]]; simpl; [by intros _ [= <-]..|lia].
  - destruct bs as [|b1 [|b2 [|b3 bs]]]; [simpl; lia..|]. cbv zeta.
    match goal with |- context [if ?c then (_, 4%nat) else _] => destruct c eqn:C end; [|simpl; lia].
    apply andb_prop in C as [[[C1%Z.leb_le _]%andb_prop C2%cont_high]%andb_prop C3%cont_high].
    assert (128 <= b1) by (destruct (b =? 240); lia).
    destruct i as [|[|[|i]]]; simpl; [by intros _ [= <-]..|lia].
Qed.

Lemma decode_rune_skips b bs i x :
  (i < (decode_rune (b :: bs)).2)%nat -> (b :: bs) !! i = Some x -> x < 128 -> (decode_rune (b :: bs)).1 = x.
Proof.
  destruct i as [|i]; simpl lookup; intros Hi Hl Hx.
  - injection Hl as ->. unfold decode_rune. apply Z.ltb_lt in Hx. by rewrite Hx.
  - pose proof (decode_rune_tail _ _ _ _ Hi Hl). lia.
Qed.

Lemma decode_runes_complete n bs x :
  (length bs <= n)%nat -> x ∈ bs -> x < 128 -> x ∈ decode_runes n bs.
Proof.
  revert bs. induction n as [|n IH]; intros [|b bs] Hn Hin Hx; simpl in Hn; try lia;
    try (by apply not_elem_of_nil in Hin).
  cbn [decode_runes]. pose proof (decode_rune_pos b bs) as Hp.
  apply list_elem_of_lookup in Hin as [i Hi].
  destruct (decide (i < (decode_rune (b :: bs)).2)%nat) as [Hlt|Hge].
  - rewrite <- (decode_rune_skips _ _ _ _ Hlt Hi Hx).
    destruct (decode_rune (b :: bs)); simpl. by left.
  - destruct (decode_rune (b :: bs)) as [r m]; simpl in *. right. apply IH; [rewrite length_drop; simpl; lia| |done].
    apply list_elem_of_lookup. exists (i - m)%nat. rewrite lookup_drop.
    by replace (m + (i - m))%nat with i by lia.
Qed.

(** Every ASCII byte of a string shows up among its runes. *)
Lemma runes_complete s x : x ∈ bytes_of s -> x < 128 -> x ∈ runes s.
Proof. apply decode_runes_complete. done. Qed.

Lemma runes_nil s : runes s = [] <-> s = ""%string.
Proof.
  unfold runes. destruct s as [|a s]; simpl; [done|].
  split; [|done]. case_match; simpl; done.
Qed.

(** ** [strings] *)

Definition HasPrefix (s p : string) : bool := String.prefix p s.

(** [strings.Contains] *)
Fixpoint Contains (s sub : string) : bool :=
  String.prefix sub s ||
  match s with
  | EmptyString => false
  | String _ s' => Contains s' sub
  end.

Definition fold_ascii (a : ascii) : ascii :=
  let n := N_of_ascii a in
  if ((65 <=? n)%N && (n <=? 90)%N) then ascii_of_N (n + 32) else a.

Fixpoint fold_string (s : string) : string :=
  match s with
  | EmptyString => EmptyString
  | String a s' => String (fold_ascii a) (fold_string s')
  end.

(** [strings.EqualFold(s, t)] for a [t] of ASCII letters none of which has a
    simple case folding outside ASCII (only [k] and [s] have one): the sources
    only ask it for ["root"]. *)
Definition EqualFold (s t : string) : bool := fold_string s =?s fold_string t.

(** ** [unicode.IsNumber]

    Latin-1 is decided by the property table of the package; the rest of
    category N is the generated Unicode table, a parameter. *)
Definition IsNumberLatin1 (r : Z) : bool :=
  ((48 <=? r) && (r <=? 57)) || (r =? 178) || (r =? 179) || (r =? 185) || ((188 <=? r) && (r <=? 190)).

Definition IsNumber (wide : Z -> bool) (r : Z) : bool :=
  if r <=? 255 then IsNumberLatin1 r else wide r.
