(* ===== verification/Errors.v ===== *)
(** * Errors of the vearch services (internal/proto/vearchpb/vearch_err.go)

    [error] is Go's error interface as the modelled code uses it: a
    [VearchErr] pointer carrying a code and a message, or any other error, of which
    only [Error()] can be asked.  Formatted messages are kept as the format
    string of the source, unexpanded. *)

From S2P Require Import Prelude.
From S2P Require Import Text.

(** ** ErrorEnum (errors.pb.go): every code, in the order of its number. *)
Inductive ErrorEnum : Set :=
| SUCCESS | INTERNAL_ERROR | UNKNOWN_ERROR | AUTHENTICATION_FAILED | RECOVER | TIMEOUT | PARAM_ERROR
| CONFIG_ERROR | CANCELED | MASTER_PS_NOT_ENOUGH_SELECT | ROUTER_NO_PS_CLIENT | ROUTER_CALL_PS_RPC_ERR
| ROUTER_MEMORY_EXCEEDED | PARTITION_EXIST | PARTITION_NOT_EXIST | PARTITION_NOT_LEADER
| PARTITION_NO_LEADER | PARTITION_IS_INVALID | PARTITION_IS_CLOSED | PARTITION_RESOURCE_EXHAUSTED
| PARTITION_SERVER_NOT_EXIST | PARTITION_SERVER_ERROR | PARTITION_SERVER_MEMORYEXCEED | USER_NOT_EXIST
| USER_EXIST | ROLE_NOT_EXIST | ROLE_EXIST | DB_NOT_EXIST | DB_EXIST | DB_NOT_EMPTY | SPACE_EXIST
| SPACE_NOT_EXIST | ALIAS_NOT_EXIST | ALIAS_EXIST | DOCUMENT_NOT_EXIST | PRIMARY_KEY_IS_INVALID
| FILTER_OPERATOR_TYPE_ERR | FILTER_CONDITION_OPERATOR_TYPE_ERR | UPSERT_INVALID_PARAMS
| DELETE_BY_QUERY_SERACH_ERR | DELETE_BY_QUERY_SEARCH_ID_IS_0
| DELETE_INVALID_PARAMS_SHOULD_NOT_HAVE_VECTOR_FIELD
| DELETE_INVALID_PARAMS_BOTH_DOCUMENT_IDS_AND_VECTOR
| DELETE_INVALID_PARAMS_LENGTH_OF_DOCUMENT_IDS_BEYOND_500
| DELETE_INVALID_PARAMS_SHOULD_HAVE_ONE_OF_DOCUMENT_IDS_OR_FILTER | QUERY_ENGINE_ERR
| QUERY_INVALID_PARAMS_LENGTH_OF_DOCUMENT_IDS_BEYOND_500
| QUERY_INVALID_PARAMS_SHOULD_HAVE_ONE_OF_DOCUMENT_IDS_OR_FILTER
| QUERY_INVALID_PARAMS_SHOULD_NOT_HAVE_VECTOR_FIELD
| QUERY_INVALID_PARAMS_BOTH_DOCUMENT_IDS_AND_FILTER | QUERY_RESPONSE_PARSE_ERR
| SEARCH_INVALID_PARAMS_SHOULD_HAVE_VECTOR_FIELD | SEARCH_ENGINE_ERR | SEARCH_RESPONSE_PARSE_ERR
| FORCE_MERGE_BUILD_INDEX_ERR | FLUSH_ERR | SERVICE_UNAVAILABLE | RPC_PARAM_ERROR
| METHOD_NOT_IMPLEMENT | CREATE_RPCCLIENT_FAILED | CALL_RPCCLIENT_FAILED.

#[export] Instance ErrorEnum_eq_dec : EqDecision ErrorEnum.
Proof. solve_decision. Defined.

(** [ErrorEnum_name] *)
Definition ErrorEnum_name (c : ErrorEnum) : string :=
  match c with
  | SUCCESS => "SUCCESS"
  | INTERNAL_ERROR => "INTERNAL_ERROR"
  | UNKNOWN_ERROR => "UNKNOWN_ERROR"
  | AUTHENTICATION_FAILED => "AUTHENTICATION_FAILED"
  | RECOVER => "RECOVER"
  | TIMEOUT => "TIMEOUT"
  | PARAM_ERROR => "PARAM_ERROR"
  | CONFIG_ERROR => "CONFIG_ERROR"
  | CANCELED => "CANCELED"
  | MASTER_PS_NOT_ENOUGH_SELECT => "MASTER_PS_NOT_ENOUGH_SELECT"
  | ROUTER_NO_PS_CLIENT => "ROUTER_NO_PS_CLIENT"
  | ROUTER_CALL_PS_RPC_ERR => "ROUTER_CALL_PS_RPC_ERR"
  | ROUTER_MEMORY_EXCEEDED => "ROUTER_MEMORY_EXCEEDED"
  | PARTITION_EXIST => "PARTITION_EXIST"
  | PARTITION_NOT_EXIST => "PARTITION_NOT_EXIST"
  | PARTITION_NOT_LEADER => "PARTITION_NOT_LEADER"
  | PARTITION_NO_LEADER => "PARTITION_NO_LEADER"
  | PARTITION_IS_INVALID => "PARTITION_IS_INVALID"
  | PARTITION_IS_CLOSED => "PARTITION_IS_CLOSED"
  | PARTITION_RESOURCE_EXHAUSTED => "PARTITION_RESOURCE_EXHAUSTED"
  | PARTITION_SERVER_NOT_EXIST => "PARTITION_SERVER_NOT_EXIST"
  | PARTITION_SERVER_ERROR => "PARTITION_SERVER_ERROR"
  | PARTITION_SERVER_MEMORYEXCEED => "PARTITION_SERVER_MEMORYEXCEED"
  | USER_NOT_EXIST => "USER_NOT_EXIST"
  | USER_EXIST => "USER_EXIST"
  | ROLE_NOT_EXIST => "ROLE_NOT_EXIST"
  | ROLE_EXIST => "ROLE_EXIST"
  | DB_NOT_EXIST => "DB_NOT_EXIST"
  | DB_EXIST => "DB_EXIST"
  | DB_NOT_EMPTY => "DB_NOT_EMPTY"
  | SPACE_EXIST => "SPACE_EXIST"
  | SPACE_NOT_EXIST => "SPACE_NOT_EXIST"
  | ALIAS_NOT_EXIST => "ALIAS_NOT_EXIST"
  | ALIAS_EXIST => "ALIAS_EXIST"
  | DOCUMENT_NOT_EXIST => "DOCUMENT_NOT_EXIST"
  | PRIMARY_KEY_IS_INVALID => "PRIMARY_KEY_IS_INVALID"
  | FILTER_OPERATOR_TYPE_ERR => "FILTER_OPERATOR_TYPE_ERR"
  | FILTER_CONDITION_OPERATOR_TYPE_ERR => "FILTER_CONDITION_OPERATOR_TYPE_ERR"
  | UPSERT_INVALID_PARAMS => "UPSERT_INVALID_PARAMS"
  | DELETE_BY_QUERY_SERACH_ERR => "DELETE_BY_QUERY_SERACH_ERR"
  | DELETE_BY_QUERY_SEARCH_ID_IS_0 => "DELETE_BY_QUERY_SEARCH_ID_IS_0"
  | DELETE_INVALID_PARAMS_SHOULD_NOT_HAVE_VECTOR_FIELD => "DELETE_INVALID_PARAMS_SHOULD_NOT_HAVE_VECTOR_FIELD"
  | DELETE_INVALID_PARAMS_BOTH_DOCUMENT_IDS_AND_VECTOR => "DELETE_INVALID_PARAMS_BOTH_DOCUMENT_IDS_AND_VECTOR"
  | DELETE_INVALID_PARAMS_LENGTH_OF_DOCUMENT_IDS_BEYOND_500 => "DELETE_INVALID_PARAMS_LENGTH_OF_DOCUMENT_IDS_BEYOND_500"
  | DELETE_INVALID_PARAMS_SHOULD_HAVE_ONE_OF_DOCUMENT_IDS_OR_FILTER => "DELETE_INVALID_PARAMS_SHOULD_HAVE_ONE_OF_DOCUMENT_IDS_OR_FILTER"
  | QUERY_ENGINE_ERR => "QUERY_ENGINE_ERR"
  | QUERY_INVALID_PARAMS_LENGTH_OF_DOCUMENT_IDS_BEYOND_500 => "QUERY_INVALID_PARAMS_LENGTH_OF_DOCUMENT_IDS_BEYOND_500"
  | QUERY_INVALID_PARAMS_SHOULD_HAVE_ONE_OF_DOCUMENT_IDS_OR_FILTER => "QUERY_INVALID_PARAMS_SHOULD_HAVE_ONE_OF_DOCUMENT_IDS_OR_FILTER"
  | QUERY_INVALID_PARAMS_SHOULD_NOT_HAVE_VECTOR_FIELD => "QUERY_INVALID_PARAMS_SHOULD_NOT_HAVE_VECTOR_FIELD"
  | QUERY_INVALID_PARAMS_BOTH_DOCUMENT_IDS_AND_FILTER => "QUERY_INVALID_PARAMS_BOTH_DOCUMENT_IDS_AND_FILTER"
  | QUERY_RESPONSE_PARSE_ERR => "QUERY_RESPONSE_PARSE_ERR"
  | SEARCH_INVALID_PARAMS_SHOULD_HAVE_VECTOR_FIELD => "SEARCH_INVALID_PARAMS_SHOULD_HAVE_VECTOR_FIELD"
  | SEARCH_ENGINE_ERR => "SEARCH_ENGINE_ERR"
  | SEARCH_RESPONSE_PARSE_ERR => "SEARCH_RESPONSE_PARSE_ERR"
  | FORCE_MERGE_BUILD_INDEX_ERR => "FORCE_MERGE_BUILD_INDEX_ERR"
  | FLUSH_ERR => "FLUSH_ERR"
  | SERVICE_UNAVAILABLE => "SERVICE_UNAVAILABLE"
  | RPC_PARAM_ERROR => "RPC_PARAM_ERROR"
  | METHOD_NOT_IMPLEMENT => "METHOD_NOT_IMPLEMENT"
  | CREATE_RPCCLIENT_FAILED => "CREATE_RPCCLIENT_FAILED"
  | CALL_RPCCLIENT_FAILED => "CALL_RPCCLIENT_FAILED"
  end%string.

(** [strings.ToLower] of an ASCII name. *)
Definition ErrMsg (code : ErrorEnum) : string := fold_string (ErrorEnum_name code).

Inductive error : Set :=
| VearchErr (code : ErrorEnum) (msg : string)
| OtherErr (msg : string).

#[export] Instance error_eq_dec : EqDecision error.
Proof. solve_decision. Defined.

(** [VearchErr.Error] and [Error] of other errors. *)
Definition Error (e : error) : string :=
  match e with
  | VearchErr c m => if m =?s "" then ErrorEnum_name c else m
  | OtherErr m => m
  end.

Definition NewError (code : ErrorEnum) (err : option error) : error :=
  match err with
  | None => VearchErr code (ErrMsg code)
  | Some (VearchErr c m) => VearchErr c m
  | Some (OtherErr m) =>
      if String.prefix (ErrMsg code) m then VearchErr code m
      else VearchErr code (ErrMsg code +:+ ":" +:+ m)
  end.

Definition NewErrorInfo (code : ErrorEnum) (msg : string) : error := VearchErr code msg.

(** [Wrap] with a message; [nil] stays [nil].  [errors.Wrap] prefixes ["s: "]. *)
Definition Wrap (err : option error) (s : string) : option error :=
  match err with
  | None => None
  | Some (VearchErr c m) => Some (VearchErr c (s +:+ ":" +:+ m))
  | Some (OtherErr m) => Some (NewError SUCCESS (Some (OtherErr (s +:+ ": " +:+ m))))
  end.

(** [vErr.GetError().Code] *)
Definition code_of (e : error) : option ErrorEnum :=
  match e with VearchErr c _ => Some c | OtherErr _ => None end.

(** [NewError(code, fmt.Errorf(msg))], the form nearly every guard uses. *)
Notation verr code msg := (NewError code (Some (OtherErr msg))).

Notation go A := (outcome error A).

(** A guard: [if b { return err }]. *)
Definition guard_err (b : bool) (e : error) : go unit := if b then Fail e else Ret tt.

Lemma guard_err_ret b e x : guard_err b e = Ret x -> b = false.
Proof. by destruct b. Qed.

Lemma guard_err_no_panic b e p : guard_err b e <> Panic p.
Proof. by destruct b. Qed.

Lemma NewError_code c e : is_Some (code_of (NewError c e)).
Proof. destruct e as [[c0 m|m]|]; simpl; eauto. destruct (String.prefix (ErrMsg c) m); simpl; eauto. Qed.

(** Wrapping never changes the code an error already carries. *)
Lemma NewError_keeps c c' e : NewError c (Some (NewError c' e)) = NewError c' e.
Proof. destruct e as [[c0 m|m]|]; simpl; try done. by destruct (String.prefix (ErrMsg c') m). Qed.

Lemma NewError_fresh_code c m : code_of (verr c m) = Some c.
Proof. simpl. by destruct (String.prefix (ErrMsg c) m). Qed.
