(* ===== verification/Effects.v ===== *)
(** * Calls that change a state

    A call of a component with a state of type [S]: the new state, and what the call does ([go]).  The notations bind such calls in sequence; a failing call ends the sequence, with
    the changes made so far. *)

From S2P Require Import Prelude.
From S2P Require Import Errors.

Definition SE (S A : Type) : Type := S -> S * go A.

Section Effects.
Context {S : Type}.

Definition sret {A} (r : go A) : SE S A := fun s => (s, r).
Definition sbind {A B} (m : SE S A) (k : A -> SE S B) : SE S B := fun s =>
  match m s with (s', Ret a) => k a s' | (s', Fail e) => (s', Fail e) | (s', Panic x) => (s', Panic x) end.
Definition sstep (f : S -> S) : SE S unit := fun s => (f s, Ret tt).
Definition sread {A} (f : S -> A) : SE S A := fun s => (s, Ret (f s)).
(** An error that is only logged. *)
Definition slogged {A} (m : SE S A) : SE S unit := fun s => match m s with (s', Panic x) => (s', Panic x) | (s', _) => (s', Ret tt) end.
Fixpoint sfor {A} (f : A -> SE S unit) (xs : list A) : SE S unit :=
  match xs with [] => sret (Ret tt) | x :: xs' => sbind (f x) (fun _ => sfor f xs') end.

(** ** Runs that succeed, and runs that keep a relation *)

Lemma sbind_ret {A B} (m : SE S A) (k : A -> SE S B) (s s' : S) (b : B) : sbind m k s = (s', Ret b) -> exists s1 a, m s = (s1, Ret a) /\ k a s1 = (s', Ret b).
Proof. unfold sbind. destruct (m s) as [s1 [a|e|x]]; [eauto | done..]. Qed.

Lemma sbind_run {A B} (m : SE S A) (k : A -> SE S B) (s s1 : S) (a : A) : m s = (s1, Ret a) -> sbind m k s = k a s1.
Proof. unfold sbind. by intros ->. Qed.
Lemma sbind_fail {A B} (m : SE S A) (k : A -> SE S B) (s s1 : S) (e : error) : m s = (s1, Fail e) -> sbind m k s = (s1, Fail e).
Proof. unfold sbind. by intros ->. Qed.

(** Every run of [m] relates its states by [R]. *)
Definition moves {A} (R : S -> S -> Prop) (m : SE S A) : Prop := forall s, R s (m s).1.
Section Moves.
Context (R : S -> S -> Prop) `{!PreOrder R}.

Lemma moves_ret {A} (r : go A) : moves R (sret r).
Proof. intros s. cbn. reflexivity. Qed.
Lemma moves_read {A} (f : S -> A) : moves R (sread f).
Proof. intros s. cbn. reflexivity. Qed.
Lemma moves_bind {A B} (m : SE S A) (k : A -> SE S B) : moves R m -> (forall a, moves R (k a)) -> moves R (sbind m k).
Proof.
  intros Hm Hk s. unfold sbind. specialize (Hm s). destruct (m s) as [s1 [a|e|x]]; cbn in *; [|done..].
  transitivity s1; [done | apply Hk].
Qed.
Lemma moves_logged {A} (m : SE S A) : moves R m -> moves R (slogged m).
Proof. intros Hm s. unfold slogged. specialize (Hm s). destruct (m s) as [s1 []]; done. Qed.
Lemma moves_for {A} (f : A -> SE S unit) (xs : list A) : (forall x, moves R (f x)) -> moves R (sfor f xs).
Proof. intros Hf. induction xs as [|x xs IH]; cbn [sfor]; [apply moves_ret | apply moves_bind; auto]. Qed.
End Moves.
End Effects.

Notation "'se!' x <- m 'in' k" := (sbind m (fun x => k)) (at level 200, x pattern, m at level 100, k at level 200).
Notation "'se_!' m 'in' k" := (sbind m (fun _ => k)) (at level 200, m at level 100, k at level 200).
