(* ===== verification/Names.v ===== *)
(** * Names of databases, spaces, aliases, users and roles

    The four name validators of internal/entity (db.go, alias.go, space.go and
    [ValidateName] of user.go), each translated on its own, with the proof that
    they accept the same names and that an accepted name can stand as one
    segment of a metadata key.  [wide] is the part of [unicode.IsNumber] above
    Latin-1 (the generated Unicode table). *)

From S2P Require Import Prelude.
From S2P Require Import Text.
From S2P Require Import Errors.
Open Scope Z_scope.

(** The characters of the [switch] every validator repeats. *)
Definition forbidden : list Z :=
  [9; 10; 11; 12; 13; 32; 133; 160; 92; 43; 45; 33; 42; 47; 40; 41; 58; 94;
   91; 93; 34; 123; 125; 126; 37; 38; 39; 60; 62; 63].

Definition rune_forbidden (r : Z) : bool := existsb (Z.eqb r) forbidden.

Lemma rune_forbidden_true r : rune_forbidden r = true <-> r ∈ forbidden.
Proof.
  unfold rune_forbidden. rewrite existsb_exists. split.
  - intros (x & Hx & ->%Z.eqb_eq). by apply list_elem_of_In.
  - intros Hx. exists r. split; [by apply list_elem_of_In|apply Z.eqb_refl].
Qed.

(** The loop [for _, r := range rs { switch r { case ...: return err } }]. *)
Fixpoint check_runes (err : error) (rs : list Z) : go unit :=
  match rs with
  | [] => Ret tt
  | r :: rs' => if rune_forbidden r then Fail err else check_runes err rs'
  end.

Lemma check_runes_spec err rs :
  check_runes err rs = if existsb rune_forbidden rs then Fail err else Ret tt.
Proof. induction rs as [|r rs IH]; simpl; [done|]. by destruct (rune_forbidden r). Qed.

Section Validators.
Context (wide : Z -> bool).

(** ** internal/entity/db.go *)
Record DB : Set := { DB_Id : Z; DB_Name : string; DB_Ps : list string }.

Definition DB_Validate (db : DB) : go unit :=
  let rs := runes (DB_Name db) in
  match rs with
  | [] => Fail (verr PARAM_ERROR "db name can not set empty string")
  | r0 :: _ =>
    if IsNumber wide r0 then Fail (verr PARAM_ERROR "db name : %s can not start with num")
    else if r0 =? 95 then Fail (verr PARAM_ERROR "db name : %s can not start with _")
    else
      check! check_runes (verr PARAM_ERROR "character '%c' can not in db name[%s]") rs in
      if 0 <? DB_Id db then Fail (verr PARAM_ERROR "can not set db id when creating db")
      else Ret tt
  end.

(** ** internal/entity/alias.go *)
Record Alias : Set := { Alias_Name : string; Alias_DbName : string; Alias_SpaceName : string }.

Definition Alias_Validate (alias : Alias) : go unit :=
  let rs := runes (Alias_Name alias) in
  match rs with
  | [] => Fail (verr PARAM_ERROR "alias name can not be empty string")
  | r0 :: _ =>
    if IsNumber wide r0 then Fail (verr PARAM_ERROR "alias name : %s can not start with num")
    else if r0 =? 95 then Fail (verr PARAM_ERROR "alias name : %s can not start with _")
    else check_runes (verr PARAM_ERROR "character '%c' can not in alias name[%s]") rs
  end.

(** ** [Space.Validate] of internal/entity/space.go, on the space's name *)
Definition Space_Validate (space_name : string) : go unit :=
  let rs := runes space_name in
  match rs with
  | [] => Fail (verr PARAM_ERROR "space name can not set empty string")
  | r0 :: _ =>
    if IsNumber wide r0 then Fail (verr PARAM_ERROR "space name : %s can not start with num")
    else if r0 =? 95 then Fail (verr PARAM_ERROR "space name : %s can not start with _")
    else check_runes (verr PARAM_ERROR "character '%c' can not in space name[%s]") rs
  end.

(** ** [ValidateName] of internal/entity/user.go *)
Inductive NameType : Set := RoleNameType | UserNameType.

Definition ValidateName (name : string) (name_type : NameType) (check_root : bool) : go unit :=
  let rs := runes name in
  match rs with
  | [] => Fail (verr PARAM_ERROR "%s name can not be empty string")
  | r0 :: _ =>
    if IsNumber wide r0 then Fail (verr PARAM_ERROR "%s name : %s can not start with num")
    else if r0 =? 95 then Fail (verr PARAM_ERROR "%s name : %s can not start with _")
    else
      check! check_runes (verr PARAM_ERROR "character '%c' can not in %s name[%s]") rs in
      if check_root then
        if EqualFold name "root" then Fail (verr PARAM_ERROR "%s name can't be root") else Ret tt
      else Ret tt
  end.

(** ** What the validators have in common *)

(** The specification: a non-empty name, no leading number or underscore, no
    forbidden character. *)
Definition valid_name (s : string) : bool :=
  match runes s with
  | [] => false
  | r0 :: _ => negb (IsNumber wide r0) && negb (r0 =? 95) && negb (existsb rune_forbidden (runes s))
  end.

Ltac validator :=
  unfold valid_name; destruct (runes _) as [|r0 rs]; [done|];
  destruct (IsNumber wide r0); [done|]; destruct (r0 =? 95); [done|];
  rewrite ?check_runes_spec; destruct (existsb rune_forbidden (r0 :: rs)); [done|]; simpl.

Lemma DB_Validate_spec db :
  is_ret (DB_Validate db) = valid_name (DB_Name db) && (DB_Id db <=? 0).
Proof.
  unfold DB_Validate. validator.
  destruct (Z.ltb_spec 0 (DB_Id db)), (Z.leb_spec (DB_Id db) 0); try lia; done.
Qed.

Lemma Alias_Validate_spec a : is_ret (Alias_Validate a) = valid_name (Alias_Name a).
Proof. unfold Alias_Validate. by validator. Qed.

Lemma Space_Validate_spec s : is_ret (Space_Validate s) = valid_name s.
Proof. unfold Space_Validate. by validator. Qed.

Lemma ValidateName_spec s t cr :
  is_ret (ValidateName s t cr) = valid_name s && negb (cr && EqualFold s "root").
Proof. unfold ValidateName. validator. destruct cr; simpl; [|done]. by destruct (EqualFold s "root"). Qed.

(** A valid name is a key segment: not empty and free of ['/']. *)
Lemma valid_name_segment s :
  valid_name s = true -> s <> ""%string /\ 47 ∉ bytes_of s.
Proof.
  unfold valid_name. intros Hv. split.
  - intros ->. done.
  - intros Hin. apply runes_complete in Hin; [|lia].
    destruct (runes s) as [|r0 rs]; [done|].
    apply andb_prop in Hv as [_ Hf%negb_true_iff].
    enough (existsb rune_forbidden (r0 :: rs) = true) by congruence.
    apply existsb_exists. exists 47. split; [by apply list_elem_of_In|done].
Qed.

(** The five entry points agree on every name: a string is a database name
    iff it is a space name iff it is an alias name iff it is a user or role
    name. *)
Theorem validators_agree (s : string) (ps : list string) (id : Z) (d p : string) (t : NameType) :
  id <= 0 ->
  is_ret (DB_Validate {| DB_Id := id; DB_Name := s; DB_Ps := ps |}) = is_ret (Space_Validate s) /\
  is_ret (Alias_Validate {| Alias_Name := s; Alias_DbName := d; Alias_SpaceName := p |}) = is_ret (Space_Validate s) /\
  is_ret (ValidateName s t false) = is_ret (Space_Validate s) /\
  is_ret (ValidateName s t true) = is_ret (Space_Validate s) && negb (EqualFold s "root").
Proof.
  intros Hid. rewrite DB_Validate_spec, Alias_Validate_spec, Space_Validate_spec, !ValidateName_spec.
  simpl. apply Z.leb_le in Hid. rewrite Hid, !andb_true_r. done.
Qed.
End Validators.

Lemma validators_agree_witness :
  (0 <= 0) /\ is_ret (DB_Validate (fun _ => false) {| DB_Id := 0; DB_Name := "ts_db"; DB_Ps := [] |}) = true.
Proof.
  split; [done|].
  destruct (validators_agree (fun _ => false) "ts_db" [] 0 "" "" UserNameType ltac:(done)) as [-> _].
  vm_compute. reflexivity.
Defined.
