(* ===== verification/Rbac.v ===== *)
(** * Roles, privileges and users (internal/entity/user.go)

    [ParseResources] classifies a request, [HasPermissionForResources] decides
    whether a role may make it, [Role.Validate] and [User.Validate] check what
    the master stores.  Role maps are [gmap]s; where the code ranges over one,
    the order is an argument. *)

From S2P Require Import Prelude.
From S2P Require Import Text.
From S2P Require Import Errors.
From S2P Require Import Names.
Open Scope Z_scope.

(** [Privilege], [Resource] and [OperatorType] are string types: a decoded role
    may hold any string, so they stay strings. *)
Abbreviation Privilege := string (only parsing).
Abbreviation Resource := string (only parsing).
Abbreviation OperatorType := string (only parsing).

Definition None_ : Privilege := "None".
Definition WriteOnly : Privilege := "WriteOnly".
Definition ReadOnly : Privilege := "ReadOnly".
Definition WriteRead : Privilege := "WriteRead".

Definition PriviMap : list Privilege := [None_; WriteOnly; ReadOnly; WriteRead].

Definition ResourceAll : Resource := "ResourceAll".
Definition ResourceCluster : Resource := "ResourceCluster".
Definition ResourceServer : Resource := "ResourceServer".
Definition ResourcePartition : Resource := "ResourcePartition".
Definition ResourceDB : Resource := "ResourceDB".
Definition ResourceSpace : Resource := "ResourceSpace".
Definition ResourceDocument : Resource := "ResourceDocument".
Definition ResourceIndex : Resource := "ResourceIndex".
Definition ResourceAlias : Resource := "ResourceAlias".
Definition ResourceUser : Resource := "ResourceUser".
Definition ResourceRole : Resource := "ResourceRole".
Definition ResourceConfig : Resource := "ResourceConfig".
Definition ResourceCache : Resource := "ResourceCache".

Definition ResourceMap : list Resource :=
  [ResourceAll; ResourceCluster; ResourceServer; ResourcePartition; ResourceDB;
   ResourceSpace; ResourceDocument; ResourceIndex; ResourceAlias; ResourceUser;
   ResourceRole; ResourceConfig; ResourceCache].

Definition Grant : OperatorType := "Grant".
Definition Revoke : OperatorType := "Revoke".

Record Role : Type := {
  Role_Name : string;
  Role_Operator : OperatorType;
  Role_Privileges : gmap string string
}.

(** ** The built-in roles *)

Definition RootPrivilege : gmap string string := {[ ResourceAll := WriteRead ]}.

Definition ClusterPrivilege : gmap string string := list_to_map
  [(ResourceCluster, WriteRead); (ResourceServer, WriteRead); (ResourcePartition, WriteRead);
   (ResourceDB, WriteRead); (ResourceSpace, WriteRead); (ResourceDocument, WriteRead);
   (ResourceIndex, WriteRead); (ResourceAlias, WriteRead); (ResourceConfig, WriteRead);
   (ResourceUser, WriteRead); (ResourceRole, WriteRead)].

Definition SpaceAdminPrivilege : gmap string string := list_to_map
  [(ResourceSpace, WriteRead); (ResourceDocument, WriteRead); (ResourceIndex, WriteRead);
   (ResourceAlias, ReadOnly)].

Definition ReadDBSpaceEditDocumentPrivilege : gmap string string := list_to_map
  [(ResourceCluster, ReadOnly); (ResourceDB, ReadOnly); (ResourceSpace, ReadOnly);
   (ResourceDocument, WriteRead); (ResourceIndex, WriteRead); (ResourceAlias, ReadOnly)].

Definition ReadSpaceEditDocumentPrivilege : gmap string string := list_to_map
  [(ResourceSpace, ReadOnly); (ResourceDocument, WriteRead); (ResourceIndex, WriteRead);
   (ResourceAlias, ReadOnly)].

Definition DocumentAdminPrivilege : gmap string string := list_to_map
  [(ResourceDocument, WriteRead); (ResourceIndex, WriteRead)].

Definition mkRole (n : string) (p : gmap string string) : Role :=
  {| Role_Name := n; Role_Operator := ""; Role_Privileges := p |}.

Definition RootRole := mkRole "root" RootPrivilege.
Definition ClusterAdminRole := mkRole "defaultClusterAdmin" ClusterPrivilege.
Definition SpaceAdminRole := mkRole "defaultSpaceAdmin" SpaceAdminPrivilege.
Definition DocumentAdminRole := mkRole "defaultDocumentAdmin" DocumentAdminPrivilege.
Definition ReadDBSpaceEditDocumentRole :=
  mkRole "defaultReadDBSpaceEditDocument" ReadDBSpaceEditDocumentPrivilege.
Definition ReadSpaceEditDocumentRole :=
  mkRole "defaultReadSpaceEditDocument" ReadSpaceEditDocumentPrivilege.

Definition RoleMap : list (string * Role) :=
  [("root", RootRole); ("defaultClusterAdmin", ClusterAdminRole);
   ("defaultSpaceAdmin", SpaceAdminRole); ("defaultDocumentAdmin", DocumentAdminRole);
   ("defaultReadDBSpaceEditDocument", ReadDBSpaceEditDocumentRole);
   ("defaultReadSpaceEditDocument", ReadSpaceEditDocumentRole)]%string.

Definition RoleMap_lookup (n : string) : option Role :=
  snd <$> List.find (fun p => p.1 =?s n) RoleMap.

Definition RootName : string := "root".

(** ** Requests *)

Definition ParseResources (endpoint method : string) : Resource * Privilege :=
  let privilege := if method =?s "GET" then ReadOnly else WriteOnly in
  if HasPrefix endpoint "/cluster" then (ResourceCluster, privilege)
  else if HasPrefix endpoint "/servers" then (ResourceServer, privilege)
  else if HasPrefix endpoint "/partitions" then (ResourcePartition, privilege)
  else if HasPrefix endpoint "/dbs" then
    (if Contains endpoint "/spaces" then ResourceSpace else ResourceDB, privilege)
  else if HasPrefix endpoint "/backup" then (ResourceSpace, privilege)
  else if HasPrefix endpoint "/document" then
    (ResourceDocument,
     if Contains endpoint "query" || Contains endpoint "search" then ReadOnly else WriteOnly)
  else if HasPrefix endpoint "/index" then (ResourceIndex, privilege)
  else if HasPrefix endpoint "/alias" then (ResourceAlias, privilege)
  else if HasPrefix endpoint "/config" then (ResourceConfig, privilege)
  else if HasPrefix endpoint "/users" then (ResourceUser, privilege)
  else if HasPrefix endpoint "/roles" then (ResourceRole, privilege)
  else if HasPrefix endpoint "/cache" then (ResourceCache, privilege)
  else (ResourceAll, privilege).

Definition HasPermissionForResources (role : Role) (endpoint method : string) : go unit :=
  if Role_Name role =?s RootName then Ret tt
  else
    let '(resource, privilege) := ParseResources endpoint method in
    match Role_Privileges role !! resource with
    | Some value =>
        if (privilege =?s value) || (value =?s WriteRead) then Ret tt
        else Ret tt   (* the branch falls through to the final [return nil] *)
    | None => Fail (verr AUTHENTICATION_FAILED "role:%s don't have privilege for resource: %s")
    end.

(** ** Validation *)

(** The body of the loop of [Role.Validate]. *)
Definition check_privilege (entry : string * string) : go unit :=
  let '(resource, privilege) := entry in
  if contains ResourceMap resource then
    if contains PriviMap privilege then Ret tt
    else Fail (verr PARAM_ERROR "role privilege: %s, should be %v")
  else Fail (verr PARAM_ERROR "role resource: %s, should be %v").

(** [order] is the order in which the map is ranged over. *)
Definition Role_Validate (wide : Z -> bool) (order : list (string * string)) (role : Role) : go unit :=
  check! ValidateName wide (Role_Name role) RoleNameType true in
  if negb (Role_Operator role =?s "") && negb (Role_Operator role =?s Grant)
     && negb (Role_Operator role =?s Revoke)
  then Fail (verr PARAM_ERROR "role privilege operator type : %s, should be %s or %s")
  else ofold (fun _ e => check_privilege e) tt order.

Record User : Set := {
  User_Name : string;
  Password : option string;
  OldPassword : option string;
  RoleName : option string
}.

Record UserRole : Type := {
  UserRole_Name : string;
  UserRole_Password : option string;
  UserRole_Role : Role
}.

Definition User_Validate (wide : Z -> bool) (user : User) (check_root : bool) : go unit :=
  check! ValidateName wide (User_Name user) UserNameType check_root in
  if match Password user with Some p => p =?s "" | None => false end
  then Fail (verr PARAM_ERROR "user password is empty")
  else if check_root && match RoleName user with Some r => EqualFold r RootName | None => false end
  then Fail (verr PARAM_ERROR "user role name can't be root")
  else Ret tt.

(** [PrivilegeType] bit masks. *)
Definition HasPrivi (userPrivi checkPrivi : Z) : bool := Z.land userPrivi checkPrivi =? checkPrivi.
Definition LackPrivi (userPrivi checkPrivi : Z) : Z := Z.ldiff checkPrivi userPrivi.

(** ** Properties *)

Lemma ParseResources_known endpoint method :
  (ParseResources endpoint method).1 ∈ ResourceMap /\
  ((ParseResources endpoint method).2 = ReadOnly \/ (ParseResources endpoint method).2 = WriteOnly).
Proof.
  unfold ParseResources.
  split; repeat case_match; simpl; auto; by apply (bool_decide_unpack _); vm_compute.
Qed.

(** The resource of a request is a matter of its path alone. *)
Lemma ParseResources_resource endpoint m1 m2 :
  (ParseResources endpoint m1).1 = (ParseResources endpoint m2).1.
Proof. unfold ParseResources. by repeat (case_match; simpl). Qed.

Lemma HasPermission_spec (role : Role) (endpoint method : string) :
  HasPermissionForResources role endpoint method =
    (if bool_decide (Role_Name role = RootName \/
        is_Some (Role_Privileges role !! (ParseResources endpoint method).1))
     then Ret tt
     else Fail (verr AUTHENTICATION_FAILED "role:%s don't have privilege for resource: %s")).
Proof.
  unfold HasPermissionForResources.
  destruct (Role_Name role =?s RootName) eqn:Hr.
  - apply string_eqb_eq in Hr. rewrite bool_decide_eq_true_2; auto.
  - apply string_eqb_neq in Hr.
    destruct (ParseResources endpoint method) as [res pr]; simpl.
    destruct (Role_Privileges role !! res) as [v|] eqn:Hv.
    + rewrite bool_decide_eq_true_2; [|right; eauto]. by destruct (_ || _).
    + rewrite bool_decide_eq_false_2; [done|]. intros [?|[? ?]]; congruence.
Qed.

(** A privilege decision is exactly: the role is root, or it has an entry, of
    whatever privilege, for the request's resource; every refusal is an
    authentication failure.  Consequently the HTTP method never matters, nor
    which privilege the entry grants: the comparison the code makes with the
    entry has no effect. *)
Theorem HasPermission_decision (role : Role) (endpoint method : string) :
  (HasPermissionForResources role endpoint method = Ret tt <->
     Role_Name role = RootName \/ is_Some (Role_Privileges role !! (ParseResources endpoint method).1)) /\
  (forall e, HasPermissionForResources role endpoint method = Fail e -> code_of e = Some AUTHENTICATION_FAILED) /\
  (forall method', HasPermissionForResources role endpoint method' = HasPermissionForResources role endpoint method).
Proof.
  split; [|split].
  - rewrite HasPermission_spec. case_bool_decide; naive_solver.
  - intros e. rewrite HasPermission_spec. case_bool_decide; [done|].
    by intros [= <-].
  - intros m'. by rewrite !HasPermission_spec, (ParseResources_resource endpoint m' method).
Qed.

(** A role limited to reading spaces is let through when it deletes one. *)
Theorem readonly_role_may_delete_space :
  Role_Privileges ReadSpaceEditDocumentRole !! ResourceSpace = Some ReadOnly /\
  ParseResources "/dbs/db1/spaces/s1" "DELETE" = (ResourceSpace, WriteOnly) /\
  HasPermissionForResources ReadSpaceEditDocumentRole "/dbs/db1/spaces/s1" "DELETE" = Ret tt.
Proof. by vm_compute. Qed.

Definition role_entry_ok (e : string * Role) : bool :=
  bool_decide (Role_Name e.2 = e.1) &&
  forallb (fun '(r, p) => contains ResourceMap r && contains PriviMap p)
          (map_to_list (Role_Privileges e.2)) &&
  (bool_decide (e.1 = RootName) || bool_decide (Role_Privileges e.2 !! ResourceAll = None)).

Lemma RoleMap_checked : forallb role_entry_ok RoleMap = true.
Proof. by vm_compute. Qed.

(** Every built-in role is listed under its own name, names only known
    resources and privileges, and, root apart, is refused every endpoint that
    no known prefix classifies. *)
Theorem builtin_roles_well_formed (n : string) (role : Role) :
  RoleMap_lookup n = Some role ->
  Role_Name role = n /\
  (forall res p, Role_Privileges role !! res = Some p -> res ∈ ResourceMap /\ p ∈ PriviMap) /\
  (n <> RootName -> forall endpoint method,
     (ParseResources endpoint method).1 = ResourceAll ->
     is_ret (HasPermissionForResources role endpoint method) = false).
Proof.
  intros Hl.
  assert ((n, role) ∈ RoleMap) as Hin.
  { unfold RoleMap_lookup in Hl. destruct (List.find _ RoleMap) as [[n' r]|] eqn:Hf; [|done].
    simpl in Hl. injection Hl as ->. apply find_some in Hf as [Hf Hn].
    simpl in Hn. apply string_eqb_eq in Hn as ->. by apply list_elem_of_In. }
  pose proof (proj1 (forallb_forall _ _) RoleMap_checked (n, role) (proj1 (list_elem_of_In _ _) Hin)) as Hb.
  apply andb_prop in Hb as [[Hn%bool_decide_eq_true Hp]%andb_prop Hr]. cbn [fst snd] in *.
  split; [done|]. split.
  - intros res p Hres. rewrite forallb_forall in Hp.
    specialize (Hp (res, p)). rewrite <- list_elem_of_In, elem_of_map_to_list in Hp.
    apply andb_prop in Hp as [?%contains_true ?%contains_true]; auto.
  - intros Hne e m He. rewrite HasPermission_spec, He.
    apply orb_prop in Hr as [Hr%bool_decide_eq_true|Hr%bool_decide_eq_true]; [done|].
    rewrite bool_decide_eq_false_2; [done|]. rewrite Hn, Hr. by intros [?|[? ?]].
Qed.

Lemma builtin_roles_well_formed_witness :
  RoleMap_lookup "defaultSpaceAdmin" = Some SpaceAdminRole /\
  is_ret (HasPermissionForResources SpaceAdminRole "/metrics" "GET") = false.
Proof.
  split; [by vm_compute|].
  apply (builtin_roles_well_formed "defaultSpaceAdmin" SpaceAdminRole ltac:(by vm_compute));
    by vm_compute.
Defined.

Lemma check_privilege_spec r p :
  check_privilege (r, p) = Ret tt <-> r ∈ ResourceMap /\ p ∈ PriviMap.
Proof.
  rewrite <- !contains_true. unfold check_privilege.
  destruct (contains ResourceMap r), (contains PriviMap p); naive_solver.
Qed.

Lemma Role_Operator_spec o :
  o ∈ [""%string; Grant; Revoke] <->
  negb (o =?s "") && negb (o =?s Grant) && negb (o =?s Revoke) = false.
Proof.
  rewrite <- contains_true. simpl. unfold string_eqb.
  rewrite (bool_decide_ext (""%string = o) (o = ""%string)), (bool_decide_ext (Grant = o) (o = Grant)),
    (bool_decide_ext (Revoke = o) (o = Revoke)) by naive_solver.
  by repeat case_bool_decide.
Qed.

(** [Role.Validate] accepts a role, whatever order its privilege map is ranged
    in, exactly when its name is valid and not root, its operator is empty,
    Grant or Revoke, and it names only known resources and privileges. *)
Theorem Role_Validate_spec (wide : Z -> bool) (role : Role) (order : list (string * string)) :
  order ≡ₚ map_to_list (Role_Privileges role) ->
  Role_Validate wide order role = Ret tt <->
  valid_name wide (Role_Name role) = true /\ EqualFold (Role_Name role) "root" = false /\
  Role_Operator role ∈ [""%string; Grant; Revoke] /\
  map_Forall (fun res p => res ∈ ResourceMap /\ p ∈ PriviMap) (Role_Privileges role).
Proof.
  intros Hperm. unfold Role_Validate.
  pose proof (ValidateName_spec wide (Role_Name role) RoleNameType true) as Hv.
  assert (ofold (fun _ e => check_privilege e) tt order = Ret tt <->
          map_Forall (fun res p => res ∈ ResourceMap /\ p ∈ PriviMap) (Role_Privileges role)) as Hloop.
  { rewrite map_Forall_to_list, <- Hperm. clear Hperm. induction order as [|[r p] order IH]; simpl.
    - split; [constructor|done].
    - rewrite Forall_cons, <- IH. pose proof (check_privilege_spec r p) as Hc. unfold check_privilege in Hc.
      cbn [curry uncurry fst snd]. rewrite <- Hc. destruct (if contains ResourceMap r then _ else _) as [[]|?|?]; simpl; naive_solver. }
  set (lp := ofold _ tt order) in *. clearbody lp.
  destruct (ValidateName wide (Role_Name role) RoleNameType true) as [[]|?|?]; simpl in Hv |- *.
  - symmetry in Hv. apply andb_prop in Hv as [Hv He]. apply negb_true_iff in He. simpl in He.
    rewrite Hv, He, Role_Operator_spec, <- Hloop.
    destruct (negb _ && negb _ && negb _); naive_solver.
  - split; [done|]. intros (H1 & H2 & _). by rewrite H1, H2 in Hv.
  - split; [done|]. intros (H1 & H2 & _). by rewrite H1, H2 in Hv.
Qed.

Lemma Role_Validate_spec_witness :
  let role := {| Role_Name := "writer"; Role_Operator := Grant; Role_Privileges := DocumentAdminPrivilege |} in
  Role_Validate (fun _ => false) (map_to_list (Role_Privileges role)) role = Ret tt.
Proof.
  intros role. apply (Role_Validate_spec (fun _ => false) role); [done|].
  split; [by vm_compute|]. split; [by vm_compute|]. split.
  - by apply (bool_decide_unpack _); vm_compute.
  - by apply (bool_decide_unpack _); vm_compute.
Defined.

(** The two privilege-mask helpers are two sides of one test: nothing is lacking
    iff the user has it all, and what is lacking is disjoint from what the user
    has and completes it. *)
Theorem privi_masks (userPrivi checkPrivi : Z) :
  (HasPrivi userPrivi checkPrivi = true <-> LackPrivi userPrivi checkPrivi = 0) /\
  Z.land (LackPrivi userPrivi checkPrivi) userPrivi = 0 /\
  HasPrivi (Z.lor userPrivi (LackPrivi userPrivi checkPrivi)) checkPrivi = true.
Proof.
  unfold HasPrivi, LackPrivi. rewrite !Z.eqb_eq.
  split; [|split].
  - split; intros H.
    + apply Z.bits_inj_0. intros i. rewrite Z.ldiff_spec.
      pose proof (f_equal (fun z => Z.testbit z i) H) as Hi. simpl in Hi. rewrite Z.land_spec in Hi.
      destruct (Z.testbit userPrivi i), (Z.testbit checkPrivi i); done.
    + apply Z.bits_inj. intros i. pose proof (f_equal (fun z => Z.testbit z i) H) as Hi.
      simpl in Hi. rewrite Z.ldiff_spec, Z.bits_0 in Hi. rewrite Z.land_spec.
      destruct (Z.testbit userPrivi i), (Z.testbit checkPrivi i); done.
  - apply Z.bits_inj_0. intros i. rewrite Z.land_spec, Z.ldiff_spec.
    destruct (Z.testbit userPrivi i), (Z.testbit checkPrivi i); done.
  - apply Z.bits_inj. intros i. rewrite Z.land_spec, Z.lor_spec, Z.ldiff_spec.
    destruct (Z.testbit userPrivi i), (Z.testbit checkPrivi i); done.
Qed.
