(* ===== verification/Keys.v ===== *)
(** * Metadata keys (internal/entity/meta.go)

    Every object the master keeps lives under a key built from a prefix, all
    prefixes being package variables that [SetPrefixAndSequence] rewrites once
    with the cluster id.  The variables are a record, the key builders
    functions of it.  ["%d"] prints an integer in decimal ([pretty]). *)

From S2P Require Import Prelude.
From S2P Require Import Text.
From S2P Require Import Names.
Open Scope Z_scope.
#[local] Arguments String.append : simpl nomatch.

Record Prefixes : Set := {
  NodeIdSequence : string; SpaceIdSequence : string;
  DBIdSequence : string; PartitionIdSequence : string;
  PrefixUser : string; PrefixLock : string; PrefixLockCluster : string;
  PrefixServer : string; PrefixSpace : string; PrefixSpaceConfig : string;
  PrefixPartition : string; PrefixDataBase : string; PrefixDataBaseBody : string;
  PrefixFailServer : string; PrefixRouter : string; PrefixAlias : string;
  PrefixRole : string; PrefixMasterMember : string;
  PrefixEtcdClusterID : string
}.

(** The initial values of the package variables. *)
Definition initial_prefixes : Prefixes := {|
  NodeIdSequence := "/id/node"; SpaceIdSequence := "/id/space";
  DBIdSequence := "/id/db"; PartitionIdSequence := "/id/partition";
  PrefixUser := "/user/"; PrefixLock := "/lock/"; PrefixLockCluster := "/lock/cluster";
  PrefixServer := "/server/"; PrefixSpace := "/space/"; PrefixSpaceConfig := "/space_config/";
  PrefixPartition := "/partition/"; PrefixDataBase := "/db/"; PrefixDataBaseBody := "/db/body/";
  PrefixFailServer := "/fail/server/"; PrefixRouter := "/router/"; PrefixAlias := "/alias/";
  PrefixRole := "/role/"; PrefixMasterMember := "/member/";
  PrefixEtcdClusterID := "/vearch/default/" |}.

Definition Prefix : string := "/".
(** The sequence names are not rewritten by [SetPrefixAndSequence]. *)
Definition PrefixNodeId : string := "/id/node".
Definition PrefixSpaceId : string := "/id/space".
Definition PrefixDBId : string := "/id/db".
Definition PrefixPartitionId : string := "/id/partition".

Definition SetPrefixAndSequence (cluster_id : string) (st : Prefixes) : Prefixes :=
  let c := if HasPrefix cluster_id Prefix then cluster_id else (Prefix +:+ cluster_id) in
  {| NodeIdSequence := c +:+ PrefixNodeId;
     SpaceIdSequence := c +:+ PrefixSpaceId;
     DBIdSequence := c +:+ PrefixDBId;
     PartitionIdSequence := c +:+ PrefixPartitionId;
     PrefixUser := c +:+ PrefixUser st;
     PrefixLock := c +:+ PrefixLock st;
     PrefixLockCluster := c +:+ PrefixLockCluster st;
     PrefixServer := c +:+ PrefixServer st;
     PrefixSpace := c +:+ PrefixSpace st;
     PrefixSpaceConfig := c +:+ PrefixSpaceConfig st;
     PrefixPartition := c +:+ PrefixPartition st;
     PrefixDataBase := c +:+ PrefixDataBase st;
     PrefixDataBaseBody := c +:+ PrefixDataBaseBody st;
     PrefixFailServer := c +:+ PrefixFailServer st;
     PrefixRouter := c +:+ PrefixRouter st;
     PrefixAlias := c +:+ PrefixAlias st;
     PrefixRole := c +:+ PrefixRole st;
     PrefixMasterMember := c +:+ PrefixMasterMember st;
     PrefixEtcdClusterID := c |}.

Section Keys.
Context (st : Prefixes).

Definition LockSpaceKey (db space : string) : string := PrefixLock st +:+ "/" +:+ db +:+ "/" +:+ space.
Definition LockDBKey (db : string) : string := PrefixLock st +:+ "/" +:+ db.
Definition ServerKey (name : Z) : string := PrefixServer st +:+ pretty name.
Definition SpaceKey (dbID spaceId : Z) : string := PrefixSpace st +:+ pretty dbID +:+ "/" +:+ pretty spaceId.
Definition SpaceConfigKey (dbID spaceId : Z) : string :=
  PrefixSpaceConfig st +:+ pretty dbID +:+ "/" +:+ pretty spaceId.
Definition PartitionKey (partitionID : Z) : string := PrefixPartition st +:+ pretty partitionID.
Definition DBKeyId (id : Z) : string := PrefixDataBase st +:+ "id/" +:+ pretty id.
Definition DBKeyName (name : string) : string := PrefixDataBase st +:+ "name/" +:+ name.
Definition DBKeyBody (id : Z) : string := PrefixDataBase st +:+ "body/" +:+ pretty id.
Definition UserKey (username : string) : string := PrefixUser st +:+ username.
Definition LockUserKey (username : string) : string := PrefixLock st +:+ username.
Definition RoleKey (rolename : string) : string := PrefixRole st +:+ rolename.
Definition LockRoleKey (rolename : string) : string := PrefixLock st +:+ rolename.
Definition FailServerKey (nodeID : Z) : string := PrefixFailServer st +:+ pretty nodeID.
Definition RouterKey (key value : string) : string := PrefixRouter st +:+ key +:+ "/" +:+ value.
Definition RouterConfigKey (key : string) : string := PrefixRouter st +:+ key.
Definition AliasKey (aliasName : string) : string := PrefixAlias st +:+ aliasName.
Definition MasterMemberKey (ID : Z) : string := PrefixMasterMember st +:+ pretty ID.
Definition LockAliasKey (aliasName : string) : string := PrefixLock st +:+ aliasName.
End Keys.

(** ** Decimal integers and segments hold no ['/'] *)

Lemma bytes_of_app s t : bytes_of (s +:+ t) = bytes_of s ++ bytes_of t.
Proof. induction s; simpl; f_equal; auto. Qed.

Lemma bytes_of_inj s t : bytes_of s = bytes_of t -> s = t.
Proof.
  revert t. induction s as [|a s IH]; intros [|b t]; simpl; intros H; simplify_eq; [done|].
  f_equal; [|auto]. unfold byte_val in *. assert (N_of_ascii a = N_of_ascii b) as E by lia.
  by rewrite <- (ascii_N_embedding a), <- (ascii_N_embedding b), E.
Qed.

Lemma pretty_N_char_digit x : byte_val (pretty_N_char x) <> 47.
Proof. unfold pretty_N_char. repeat case_match; vm_compute; done. Qed.

Lemma pretty_N_go_no_slash x s : 47 ∉ bytes_of s -> 47 ∉ bytes_of (pretty_N_go x s).
Proof.
  revert s. induction (N.lt_wf_0 x) as [x _ IH]; intros s Hs.
  destruct (decide (x = 0)%N) as [->|Hx]; [by rewrite pretty_N_go_0|].
  rewrite pretty_N_go_step by lia. apply IH; [by apply N.div_lt; lia|].
  cbn [bytes_of]. apply not_elem_of_cons. split; [|done].
  intros E. by apply (pretty_N_char_digit (x `mod` 10)).
Qed.

Lemma pretty_N_no_slash (n : N) : 47 ∉ bytes_of (pretty n).
Proof.
  unfold pretty, pretty_N. case_decide.
  - by apply (bool_decide_unpack _); vm_compute.
  - apply pretty_N_go_no_slash, not_elem_of_nil.
Qed.

Lemma pretty_Z_no_slash (z : Z) : 47 ∉ bytes_of (pretty z).
Proof.
  unfold pretty, pretty_Z. destruct z.
  - by apply (bool_decide_unpack _); vm_compute.
  - apply pretty_N_no_slash.
  - unfold String.append; cbn [bytes_of]. rewrite not_elem_of_cons. split; [done|apply pretty_N_no_slash].
Qed.

(** The first ['/'] splits a string in one way. *)
Lemma split_slash a b x y :
  47 ∉ bytes_of a -> 47 ∉ bytes_of b -> a +:+ "/" +:+ x = b +:+ "/" +:+ y -> a = b /\ x = y.
Proof.
  revert b. induction a as [|c a IH]; intros [|d b] Ha Hb; simpl in *; intros H.
  - by simplify_eq.
  - simplify_eq. destruct Hb. by left.
  - simplify_eq. destruct Ha. by left.
  - simplify_eq. rewrite not_elem_of_cons in Ha, Hb. destruct (IH b); naive_solver.
Qed.

Lemma no_slash_app a x y : 47 ∉ bytes_of a -> a <> x +:+ "/" +:+ y.
Proof.
  intros Ha ->. apply Ha. rewrite !bytes_of_app. rewrite !elem_of_app. right. left. by left.
Qed.

(** ** The key space *)

(** The objects of the metadata store and their keys. *)
Inductive object : Set :=
| OServer (id : Z) | OSpace (db sp : Z) | OSpaceConfig (db sp : Z) | OPartition (id : Z)
| ODBId (id : Z) | ODBName (n : string) | ODBBody (id : Z)
| OUser (n : string) | ORole (n : string) | OAlias (n : string)
| OFailServer (id : Z) | ORouter (k v : string) | ORouterConfig (k : string) | OMember (id : Z)
| OSeqNode | OSeqSpace | OSeqDB | OSeqPartition.

Definition key_of (st : Prefixes) (o : object) : string :=
  match o with
  | OServer i => ServerKey st i | OSpace d s => SpaceKey st d s
  | OSpaceConfig d s => SpaceConfigKey st d s | OPartition i => PartitionKey st i
  | ODBId i => DBKeyId st i | ODBName n => DBKeyName st n | ODBBody i => DBKeyBody st i
  | OUser n => UserKey st n | ORole n => RoleKey st n | OAlias n => AliasKey st n
  | OFailServer i => FailServerKey st i | ORouter k v => RouterKey st k v
  | ORouterConfig k => RouterConfigKey st k | OMember i => MasterMemberKey st i
  | OSeqNode => NodeIdSequence st | OSeqSpace => SpaceIdSequence st
  | OSeqDB => DBIdSequence st | OSeqPartition => PartitionIdSequence st
  end.

(** Router keys are the only ones whose first segment must be free of ['/'];
    database, user, role and alias names may be anything. *)
Definition object_ok (o : object) : Prop :=
  match o with
  | ORouter k _ => 47 ∉ bytes_of k
  | ORouterConfig k => 47 ∉ bytes_of k
  | _ => True
  end.

Definition cluster_prefix (cluster_id : string) : string :=
  if HasPrefix cluster_id Prefix then cluster_id else (Prefix +:+ cluster_id).

Lemma string_app_nil s : s +:+ "" = s.
Proof. induction s as [|a s IH]; simpl; [done|]. by rewrite IH. Qed.

Lemma app_assoc_string (a b c : string) : (a +:+ b) +:+ c = a +:+ (b +:+ c).
Proof. induction a as [|x a IH]; simpl; [done|]. by rewrite IH. Qed.

Lemma app_inj_string (a b c : string) : a +:+ b = a +:+ c -> b = c.
Proof. induction a; simpl; intros; simplify_eq; auto. Qed.

Lemma prefix_app_string (a b c : string) : String.prefix (a +:+ b) (a +:+ c) = String.prefix b c.
Proof. induction a as [|x a IH]; simpl; [done|]. destruct (ascii_dec x x); done. Qed.

Ltac unfold_keys :=
  unfold key_of, ServerKey, SpaceKey, SpaceConfigKey, PartitionKey, DBKeyId, DBKeyName,
    DBKeyBody, UserKey, RoleKey, AliasKey, FailServerKey, RouterKey, RouterConfigKey, MasterMemberKey.

Lemma prefix_empty s : String.prefix "" s = true.
Proof. by destruct s. Qed.

(** A cluster only prepends its prefix to the keys of the initial store. *)
Lemma key_of_cluster cid o :
  key_of (SetPrefixAndSequence cid initial_prefixes) o = cluster_prefix cid +:+ key_of initial_prefixes o.
Proof.
  unfold cluster_prefix, SetPrefixAndSequence.
  generalize (if HasPrefix cid Prefix then cid else Prefix +:+ cid). intros c.
  destruct o; unfold_keys; try done; apply app_assoc_string.
Qed.

Lemma key_of_initial_inj o1 o2 :
  object_ok o1 -> object_ok o2 -> key_of initial_prefixes o1 = key_of initial_prefixes o2 -> o1 = o2.
Proof.
  pose proof pretty_Z_no_slash as Hz.
  destruct o1, o2; unfold_keys; simpl; intros H1 H2 H; try discriminate H; try reflexivity;
    repeat match goal with H : String _ _ = String _ _ |- _ => injection H as H end;
    try (apply (inj pretty) in H; rewrite H; reflexivity); try (rewrite H; reflexivity).
  - apply split_slash in H as [?%(inj pretty) ?%(inj pretty)]; [by subst|auto..].
  - apply split_slash in H as [?%(inj pretty) ?%(inj pretty)]; [by subst|auto..].
  - apply split_slash in H as [? ?]; [by subst|auto..].
  - symmetry in H. by apply no_slash_app in H.
  - by apply no_slash_app in H.
Qed.

(** Within a cluster two different objects never share a key. *)
Theorem keys_injective (cluster_id : string) (o1 o2 : object) :
  let st := SetPrefixAndSequence cluster_id initial_prefixes in
  object_ok o1 -> object_ok o2 -> key_of st o1 = key_of st o2 -> o1 = o2.
Proof.
  intros st H1 H2. unfold st. rewrite !key_of_cluster. intros H%app_inj_string.
  by apply key_of_initial_inj.
Qed.

Lemma keys_injective_witness :
  object_ok (ORouter "r" "v") /\ object_ok (ORouterConfig "r") /\
  key_of (SetPrefixAndSequence "c1" initial_prefixes) (ORouter "r" "v") <>
  key_of (SetPrefixAndSequence "c1" initial_prefixes) (ORouterConfig "r").
Proof.
  assert (object_ok (ORouter "r" "v")) by (by apply (bool_decide_unpack _); vm_compute).
  assert (object_ok (ORouterConfig "r")) by (by apply (bool_decide_unpack _); vm_compute).
  split; [done|]. split; [done|]. intros E.
  by pose proof (keys_injective "c1" (ORouter "r" "v") (ORouterConfig "r") ltac:(done) ltac:(done) E).
Defined.

(** What each prefix scan of the master finds. *)
Definition scans (st : Prefixes) : list (string * (object -> bool)) :=
  [ (PrefixServer st, fun o => match o with OServer _ => true | _ => false end);
    (PrefixSpace st, fun o => match o with OSpace _ _ => true | _ => false end);
    (PrefixPartition st, fun o => match o with OPartition _ => true | _ => false end);
    (PrefixDataBaseBody st, fun o => match o with ODBBody _ => true | _ => false end);
    (PrefixUser st, fun o => match o with OUser _ => true | _ => false end);
    (PrefixRole st, fun o => match o with ORole _ => true | _ => false end);
    (PrefixAlias st, fun o => match o with OAlias _ => true | _ => false end);
    (PrefixFailServer st, fun o => match o with OFailServer _ => true | _ => false end);
    (PrefixRouter st, fun o => match o with ORouter _ _ | ORouterConfig _ => true | _ => false end);
    (PrefixMasterMember st, fun o => match o with OMember _ => true | _ => false end) ].

(** A prefix scan returns the objects of its kind and nothing else: servers are
    not mixed with failed servers, spaces with space configurations, database
    bodies with database names or ids. *)
Theorem scans_exact (cluster_id : string) (o : object) :
  let st := SetPrefixAndSequence cluster_id initial_prefixes in
  Forall (fun '(p, sel) => HasPrefix (key_of st o) p = sel o) (scans st).
Proof.
  intros st. unfold scans. repeat apply Forall_cons_2; try apply Forall_nil_2;
    unfold HasPrefix, st; rewrite key_of_cluster; simpl;
    change (if HasPrefix cluster_id Prefix then _ else _) with (cluster_prefix cluster_id);
    rewrite prefix_app_string; destruct o; unfold_keys; simpl; rewrite ?prefix_empty; reflexivity.
Qed.
