(* ===== verification/Schema.v ===== *)
(** * Space schemas: fields, properties and indexes (internal/entity/space.go)

    Decoding a schema ([UnmarshalPropertyJSON], [Index.UnmarshalJSON]),
    validating its index definitions ([ValidateIndexes]) and folding the inline
    index of every field into the index list ([MergeFieldIndexes]).  The JSON
    decoder is an argument: what is modelled is what the code does with the
    decoded structs.  A pointer that may be nil is an [option]. *)

From S2P Require Import Prelude.
From S2P Require Import Errors.
Open Scope Z_scope.

(** ** Data *)

Definition IdField : string := "_id".
Definition ScoreField : string := "_score".
Definition AutoIndexNamePrefix : string := "__idx__".

Definition MakeAutoIndexName (fieldName indexType : string) : string :=
  AutoIndexNamePrefix +:+ fieldName +:+ "_" +:+ indexType.

(** internal/entity/constant.go *)
Definition ScalarIndexType : string := "SCALAR".
Definition InvertedIndexType : string := "INVERTED".
Definition InvertedListIndexType : string := "INVERTED_LIST".
Definition BitmapIndexType : string := "BITMAP".
Definition CompositeIndexType : string := "COMPOSITE".

(** [vearchpb.FieldType] and [vearchpb.FieldOption] *)
Inductive FieldType : Set :=
| FT_INT | FT_LONG | FT_FLOAT | FT_DOUBLE | FT_STRING | FT_VECTOR | FT_BOOL | FT_DATE | FT_STRINGARRAY.
#[export] Instance FieldType_eq_dec : EqDecision FieldType.
Proof. solve_decision. Defined.

Inductive FieldOption : Set :=
| FO_Null | FO_Index | FO_Scalar | FO_Inverted | FO_InvertedList | FO_Bitmap | FO_Composite.
#[export] Instance FieldOption_eq_dec : EqDecision FieldOption.
Proof. solve_decision. Defined.

(** [Params] is a raw JSON message: the empty string when absent. *)
Record Index : Set := {
  Index_Name : string;
  Index_Type : string;
  FieldName : string;
  FieldNames : list string;
  Params : string
}.
#[export] Instance Index_eq_dec : EqDecision Index.
Proof. solve_decision. Defined.

Record IndexParams : Set := {
  Nlinks : Z; EfSearch : Z; EfConstruction : Z; MetricType : string;
  Ncentroids : Z; Nprobe : Z; Nsubvector : Z; TrainingThreshold : Z
}.

Definition MinNlinks : Z := 8.
Definition MaxNlinks : Z := 96.
Definition MinEfConstruction : Z := 16.
Definition MaxEfConstruction : Z := 1024.
Definition MinNcentroids : Z := 1.
Definition MaxNcentroids : Z := 262144.
Definition MinTrainingThreshold : Z := 256.
Definition DefaultMinPointsPerCentroid : Z := 39.

Record SpaceProperties : Set := {
  SP_FieldType : FieldType;
  SP_Type : string;
  SP_Index : option Index;
  SP_Format : option string;
  SP_Dimension : Z;
  SP_StoreType : option string;
  SP_StoreParam : string;
  SP_Option : FieldOption
}.

(** The struct [Field] that a schema entry decodes to. *)
Record Field : Set := {
  F_Name : string;
  F_Type : string;
  F_Dimension : Z;
  F_StoreType : option string;
  F_Format : option string;
  F_Index : option Index;
  F_StoreParam : option Z   (** [cache_size] *)
}.

Definition IsScalarIndexType (indexType : string) : bool :=
  contains [ScalarIndexType; InvertedIndexType; BitmapIndexType; CompositeIndexType] indexType.

(** ** [Index.UnmarshalJSON] *)

Definition indexTypeMap : list string :=
  ["IVFPQ"; "IVFFLAT"; "BINARYIVF"; "FLAT"; "HNSW"; "GPU_IVFPQ"; "GPU_IVFFLAT"; "SSG";
   "IVFPQ_RELAYOUT"; "SCANN"; "SCALAR"; "IVFRABITQ"; "DISKANN_STATIC"; "INVERTED"; "BITMAP";
   "COMPOSITE"]%string.

Definition ivfTypes : list string :=
  ["BINARYIVF"; "IVFFLAT"; "IVFPQ"; "GPU_IVFPQ"; "GPU_IVFFLAT"; "IVFRABITQ"]%string.

Definition check_index_params (typ : string) (p : IndexParams) : go unit :=
  check! guard_err (negb (MetricType p =?s "") && negb (MetricType p =?s "InnerProduct")
                    && negb (MetricType p =?s "L2"))
           (verr PARAM_ERROR "index params metric_type not support: %s, should be L2 or InnerProduct") in
  if typ =?s "HNSW" then
    check! guard_err (negb (Nlinks p =? 0) && ((Nlinks p <? MinNlinks) || (MaxNlinks <? Nlinks p)))
             (verr PARAM_ERROR "index params nlinks:%d should in [%d, %d]") in
    guard_err (negb (EfConstruction p =? 0) &&
               ((EfConstruction p <? MinEfConstruction) || (MaxEfConstruction <? EfConstruction p)))
             (verr PARAM_ERROR "index params efConstruction:%d should in [%d, %d]")
  else if typ =?s "FLAT" then Ret tt
  else if contains ivfTypes typ then
    check! guard_err (negb (Ncentroids p =? 0) &&
                      ((Ncentroids p <? MinNcentroids) || (MaxNcentroids <? Ncentroids p)))
             (verr PARAM_ERROR "index params ncentroids:%d should in [%d, %d]") in
    check! (if negb (TrainingThreshold p =? 0) then
              check! guard_err (TrainingThreshold p <? Ncentroids p)
                       (verr PARAM_ERROR " training_threshold:[%d] should more than ncentroids:[%d]") in
              guard_err (TrainingThreshold p <? MinTrainingThreshold)
                       (verr PARAM_ERROR " training_threshold:[%d] should more than [%d]")
            else
              guard_err (negb (Ncentroids p =? 0) &&
                         (i64 (Ncentroids p * DefaultMinPointsPerCentroid) <? MinTrainingThreshold))
                       (verr PARAM_ERROR " training_threshold:[%d] should more than [%d]")) in
    guard_err (negb (Nprobe p =? 0) && (Ncentroids p <? Nprobe p))
             (verr PARAM_ERROR " nprobe:[%d] should less than ncentroids:[%d]")
  else Ret tt.

Section Decoding.
(** The JSON decoder at the types the code decodes. *)
Context (unmarshal_index : string -> go Index).
Context (unmarshal_params : string -> go IndexParams).
Context (unmarshal_fields : string -> go (list Field)).

Definition Index_UnmarshalJSON (bs : string) : go Index :=
  if bs =?s "" then Fail (verr PARAM_ERROR "space vector field index should not be empty")
  else
    match unmarshal_index bs with
    | Fail _ => Fail (verr PARAM_ERROR "space Index json.Unmarshal err:%v")
    | Panic p => Panic p
    | Ret tempIndex =>
      check! guard_err (Index_Type tempIndex =?s "") (verr PARAM_ERROR "index type is null") in
      check! guard_err (negb (contains indexTypeMap (Index_Type tempIndex)))
               (verr PARAM_ERROR "index type not support: %s") in
      check! (if negb (Params tempIndex =?s "") then
                match unmarshal_params (Params tempIndex) with
                | Fail _ => Fail (verr PARAM_ERROR "index params:%s json.Unmarshal err :[%s]")
                | Panic p => Panic p
                | Ret p => check_index_params (Index_Type tempIndex) p
                end
              else Ret tt) in
      Ret {| Index_Name := Index_Name tempIndex; Index_Type := Index_Type tempIndex;
             FieldName := FieldName tempIndex; FieldNames := FieldNames tempIndex;
             Params := Params tempIndex |}
    end.

(** ** [UnmarshalPropertyJSON] *)

(** The [switch sp.Type] for the non-vector types. *)
Definition scalar_field_type (typ : string) : option FieldType :=
  if contains ["text"; "keyword"; "string"]%string typ then Some FT_STRING
  else if typ =?s "date" then Some FT_DATE
  else if contains ["integer"; "short"; "byte"]%string typ then Some FT_INT
  else if typ =?s "long" then Some FT_LONG
  else if typ =?s "float" then Some FT_FLOAT
  else if typ =?s "double" then Some FT_DOUBLE
  else if contains ["boolean"; "bool"]%string typ then Some FT_BOOL
  else if contains ["stringArray"; "StringArray"; "string_array"]%string typ then Some FT_STRINGARRAY
  else None.

(** [case "vector"]: the checks on dimension, store type and format.  The
    message of a bad store type dereferences [sp.StoreType], which has not
    been assigned yet. *)
Definition check_vector (field : Field) : go unit :=
  check! guard_err (F_Dimension field =? 0) (verr PARAM_ERROR "dimension can not be zero by field : [%s] ") in
  check! match F_StoreType field with
         | Some s =>
           if negb (s =?s "") && negb (s =?s "RocksDB") && negb (s =?s "MemoryOnly")
           then Panic NilDeref else Ret tt
         | None => Ret tt
         end in
  match F_Format field with
  | Some f => guard_err (negb (contains ["normalization"; "normal"; "no"]%string f))
                (verr PARAM_ERROR "unknow vector process method:[%s]")
  | None => Ret tt
  end.

(** The index option of a field, with the check that its kind fits. *)
Definition index_option (isVector : bool) (index : option Index) : go FieldOption :=
  match index with
  | None => Ret FO_Null
  | Some ix =>
    if isVector then
      if IsScalarIndexType (Index_Type ix)
      then Fail (verr PARAM_ERROR "field [%s] is a vector field, scalar index type [%s] is not allowed")
      else Ret FO_Index
    else
      if negb (IsScalarIndexType (Index_Type ix))
      then Fail (verr PARAM_ERROR "field [%s] is a scalar field, index type [%s] is not allowed")
      else Ret (if Index_Type ix =?s ScalarIndexType then FO_Scalar
                else if Index_Type ix =?s InvertedIndexType then FO_Inverted
                else if Index_Type ix =?s InvertedListIndexType then FO_InvertedList
                else if Index_Type ix =?s BitmapIndexType then FO_Bitmap
                else if Index_Type ix =?s CompositeIndexType then FO_Composite
                else FO_Scalar)
  end.

Record prop_state : Type := {
  ps_pro : gmap string SpaceProperties;
  ps_names : gset string;
  ps_indexNames : gset string
}.

(** The body of the loop over the fields. *)
Definition property_step (st : prop_state) (field : Field) : go prop_state :=
  check! guard_err (F_Name field =?s "") (verr PARAM_ERROR "field name can not be empty") in
  check! guard_err (F_Name field =?s IdField) (verr PARAM_ERROR "field name can not be %s") in
  check! guard_err (F_Name field =?s ScoreField) (verr PARAM_ERROR "field name can not be %s") in
  check! guard_err (bool_decide (F_Name field ∈ ps_names st)) (verr PARAM_ERROR "field name can not be duplicate") in
  let! indexNames := match F_Index field with
    | Some ix => if bool_decide (Index_Name ix ∈ ps_indexNames st)
                 then Fail (verr PARAM_ERROR "index name can not be duplicate")
                 else Ret ({[Index_Name ix]} ∪ ps_indexNames st)
    | None => Ret (ps_indexNames st)
    end in
  let isVector := F_Type field =?s "vector" in
  let! ft := (if isVector then check! check_vector field in Ret FT_VECTOR
              else match scalar_field_type (F_Type field) with
                   | Some ft => Ret ft
                   | None => Fail (verr PARAM_ERROR "space invalid field type: %s")
                   end) in
  let! opt := index_option isVector (F_Index field) in
  let sp := {| SP_FieldType := ft; SP_Type := F_Type field; SP_Index := F_Index field;
               SP_Format := if isVector then F_Format field else None;
               SP_Dimension := if isVector then F_Dimension field else 0;
               SP_StoreType := if isVector then F_StoreType field else None;
               SP_StoreParam := "";
               SP_Option := opt |} in
  check! guard_err (bool_decide (is_Some (SP_Format sp)) &&
                    negb (bool_decide (ft = FT_DATE) || bool_decide (ft = FT_VECTOR)))
           (verr PARAM_ERROR "type:[%d] can not set format") in
  Ret {| ps_pro := <[F_Name field := sp]> (ps_pro st);
         ps_names := {[F_Name field]} ∪ ps_names st;
         ps_indexNames := indexNames |}.

Definition init_prop_state : prop_state := {| ps_pro := ∅; ps_names := ∅; ps_indexNames := ∅ |}.

Definition UnmarshalPropertyJSON (propertity : string) : go (gmap string SpaceProperties) :=
  let! fields := unmarshal_fields propertity in
  let! st := ofold property_step init_prop_state fields in
  Ret (ps_pro st).
End Decoding.

(** ** [ValidateIndexes] *)

(** The loop over [idx.FieldNames] of a composite index. *)
Definition composite_step (props : gmap string SpaceProperties) (seen : gset string) (name : string)
    : go (gset string) :=
  match props !! name with
  | None => Fail (verr PARAM_ERROR "indexes[%d] name[%s] type[COMPOSITE]: field[%s] not found in fields")
  | Some prop =>
    check! guard_err (bool_decide (SP_FieldType prop = FT_VECTOR))
             (verr PARAM_ERROR "indexes[%d] name[%s] type[COMPOSITE]: field[%s] is a vector field, composite index only supports scalar fields") in
    check! guard_err (bool_decide (name ∈ seen))
             (verr PARAM_ERROR "indexes[%d] name[%s] type[COMPOSITE]: duplicate field[%s] in field_names") in
    Ret ({[name]} ∪ seen)
  end.

Definition validate_index (props : gmap string SpaceProperties) (idx : Index) : go unit :=
  check! guard_err (negb (FieldName idx =?s "") && (0 <? length (FieldNames idx))%nat)
           (verr PARAM_ERROR "indexes[%d] name[%s]: field_name and field_names cannot both be set") in
  if Index_Type idx =?s CompositeIndexType then
    check! guard_err (length (FieldNames idx) <? 2)%nat
             (verr PARAM_ERROR "indexes[%d] name[%s] type[COMPOSITE]: requires at least 2 fields, got %d") in
    check! ofold (composite_step props) ∅ (FieldNames idx) in Ret tt
  else
    check! guard_err (FieldName idx =?s "")
             (verr PARAM_ERROR "indexes[%d] name[%s] type[%s]: requires field_name to be set") in
    match props !! FieldName idx with
    | None => Fail (verr PARAM_ERROR "indexes[%d] name[%s] type[%s]: field[%s] not found in fields")
    | Some prop =>
      if IsScalarIndexType (Index_Type idx) then
        guard_err (bool_decide (SP_FieldType prop = FT_VECTOR))
          (verr PARAM_ERROR "indexes[%d] name[%s] type[%s]: field[%s] is a vector field, scalar index types are not allowed")
      else
        guard_err (negb (bool_decide (SP_FieldType prop = FT_VECTOR)))
          (verr PARAM_ERROR "indexes[%d] name[%s] type[%s]: field[%s] is a scalar field, use scalar index types instead")
    end.

(** The body of the loop over the index list; a nil element is dereferenced. *)
Definition validate_step (props : gmap string SpaceProperties) (indexNames : gset string) (idx : option Index)
    : go (gset string) :=
  match idx with
  | None => Panic NilDeref
  | Some ix =>
    check! guard_err (Index_Name ix =?s "") (verr PARAM_ERROR "indexes[%d]: name cannot be empty") in
    check! guard_err (bool_decide (Index_Name ix ∈ indexNames)) (verr PARAM_ERROR "index name can not be duplicate") in
    check! validate_index props ix in
    Ret ({[Index_Name ix]} ∪ indexNames)
  end.

Definition ValidateIndexes (indexes : list (option Index)) (props : gmap string SpaceProperties) : go unit :=
  check! ofold (validate_step props) ∅ indexes in Ret tt.

(** ** [MergeFieldIndexes] *)

(** The inner loop that looks for another single-field index of the field. *)
Fixpoint field_index_taken (fieldName : string) (indexes : list (option Index)) : bool :=
  match indexes with
  | [] => false
  | None :: rest => field_index_taken fieldName rest
  | Some idx :: rest =>
      if (fieldName =?s FieldName idx) && negb (Index_Type idx =?s CompositeIndexType) then true
      else field_index_taken fieldName rest
  end.

Definition inline_index (fieldName : string) (ix : Index) : Index :=
  {| Index_Name := if Index_Name ix =?s "" then MakeAutoIndexName fieldName (Index_Type ix) else Index_Name ix;
     Index_Type := Index_Type ix; FieldName := fieldName; FieldNames := []; Params := Params ix |}.

(** The body of the loop over the properties. *)
Definition merge_step (indexes : list (option Index)) (entry : string * SpaceProperties)
    : go (list (option Index)) :=
  let '(fieldName, field) := entry in
  match SP_Index field with
  | None => Ret indexes
  | Some ix =>
    if Index_Type ix =?s CompositeIndexType
    then Fail (verr PARAM_ERROR "field[%s] index type[COMPOSITE] can not set in fields")
    else if field_index_taken fieldName indexes
    then Fail (verr PARAM_ERROR "field[%s] index duplicated")
    else Ret (indexes ++ [Some (inline_index fieldName ix)])
  end.

(** [order]: the order in which the property map is ranged over. *)
Definition MergeFieldIndexes (order : list (string * SpaceProperties)) (props : gmap string SpaceProperties)
    (indexes : list (option Index)) : go (list (option Index)) :=
  let! indexes' := ofold merge_step indexes order in
  check! ValidateIndexes indexes' props in Ret indexes'.

(** [Space.GetFieldIndexType] on the space's index list and properties; the
    second loop finds the map's entry for the field. *)
Fixpoint find_index_type (indexes : list Index) (fieldName : string) : option string :=
  match indexes with
  | [] => None
  | idx :: rest => if FieldName idx =?s fieldName then Some (Index_Type idx) else find_index_type rest fieldName
  end.

Definition GetFieldIndexType (indexes : list Index) (props : gmap string SpaceProperties) (fieldName : string) : string :=
  match find_index_type indexes fieldName with
  | Some t => t
  | None =>
    match props !! fieldName with
    | Some pro => match SP_Index pro with Some ix => Index_Type ix | None => "" end
    | None => ""
    end
  end.

(** ** Properties of decoded schemas *)

Lemma IsScalarIndexType_list ty :
  IsScalarIndexType ty = true <-> ty ∈ [ScalarIndexType; InvertedIndexType; BitmapIndexType; CompositeIndexType].
Proof. apply contains_true. Qed.

(** What a decoded property guarantees. *)
Definition prop_ok (name : string) (sp : SpaceProperties) : Prop :=
  name <> ""%string /\ name <> IdField /\ name <> ScoreField /\
  (SP_FieldType sp = FT_VECTOR <-> SP_Type sp = "vector"%string) /\
  (SP_FieldType sp = FT_VECTOR -> SP_Dimension sp <> 0) /\
  (SP_FieldType sp <> FT_VECTOR -> SP_Dimension sp = 0 /\ SP_Format sp = None /\ SP_StoreType sp = None) /\
  (SP_Option sp = FO_Null <-> SP_Index sp = None) /\
  (SP_Option sp = FO_Index <-> SP_FieldType sp = FT_VECTOR /\ is_Some (SP_Index sp)) /\
  SP_Option sp <> FO_InvertedList /\
  (forall ix, SP_Index sp = Some ix -> SP_FieldType sp = FT_VECTOR <-> IsScalarIndexType (Index_Type ix) = false).

Lemma scalar_field_type_not_vector ty ft :
  scalar_field_type ty = Some ft -> ft <> FT_VECTOR /\ ty <> "vector"%string.
Proof.
  intros H. split.
  - intros ->. unfold scalar_field_type in H. by repeat case_match.
  - intros ->. vm_compute in H. done.
Qed.

(** The option assigned to a field's index, by the field's kind. *)
Lemma index_option_spec isVector index opt :
  index_option isVector index = Ret opt ->
  (opt = FO_Null <-> index = None) /\
  (opt = FO_Index <-> isVector = true /\ is_Some index) /\
  opt <> FO_InvertedList /\
  (forall ix, index = Some ix -> isVector = true <-> IsScalarIndexType (Index_Type ix) = false).
Proof.
  unfold index_option. destruct index as [ix|]; [|intros [= <-]].
  2: { split; [done|]. split; [|done]. split; [done|]. by intros [_ [? ?]]. }
  destruct isVector.
  - destruct (IsScalarIndexType (Index_Type ix)) eqn:E; intros H; inv_ret. subst.
    split_and!; try done; naive_solver.
  - destruct (IsScalarIndexType (Index_Type ix)) eqn:E; simpl; intros H; inv_ret.
    apply IsScalarIndexType_list in E.
    set_unfold in E. destruct E as [E|[E|[E|[E|[]]]]]; rewrite E in H; vm_compute in H; subst opt;
      (split; [done|]; split; [naive_solver|]; split; [done|]; intros ? [= <-]; rewrite E; by vm_compute).
Qed.

(** One step of the loop, on success. *)
Lemma property_step_spec st field st' :
  property_step st field = Ret st' ->
  exists sp, prop_ok (F_Name field) sp /\ F_Name field ∉ ps_names st /\
    SP_Index sp = F_Index field /\ SP_Type sp = F_Type field /\
    ps_pro st' = <[F_Name field := sp]> (ps_pro st) /\
    ps_names st' = {[F_Name field]} ∪ ps_names st /\
    (forall ix, F_Index field = Some ix -> Index_Name ix ∉ ps_indexNames st /\
       ps_indexNames st' = {[Index_Name ix]} ∪ ps_indexNames st) /\
    (F_Index field = None -> ps_indexNames st' = ps_indexNames st).
Proof.
  unfold property_step. intros H. inv_ret.
  repeat match goal with
  | H : guard_err _ _ = Ret _ |- _ => apply guard_err_ret in H
  | H : (_ =?s _) = false |- _ => apply string_eqb_neq in H
  end.
  apply bool_decide_eq_false in Hm2.
  match goal with H : index_option _ _ = Ret _ |- _ => apply index_option_spec in H as (Ho1 & Ho2 & Ho3 & Ho4) end.
  subst st'. eexists {| SP_FieldType := a4; SP_Type := F_Type field; SP_Index := F_Index field;
    SP_Format := if F_Type field =?s "vector" then F_Format field else None;
    SP_Dimension := if F_Type field =?s "vector" then F_Dimension field else 0;
    SP_StoreType := if F_Type field =?s "vector" then F_StoreType field else None;
    SP_StoreParam := ""; SP_Option := a5 |}.
  simpl. split; [|split; [done|]]; [|split_and!; try reflexivity].
  - assert ((a4 = FT_VECTOR <-> F_Type field = "vector"%string) /\
            (F_Type field =?s "vector") = bool_decide (a4 = FT_VECTOR) /\
            (a4 = FT_VECTOR -> F_Dimension field <> 0)) as (Hv & Hvb & Hd).
    { destruct (F_Type field =?s "vector") eqn:E.
      - apply string_eqb_eq in E. inv_ret. subst. split_and!; try done.
        intros _. match goal with H : check_vector _ = Ret _ |- _ => unfold check_vector in H; inv_ret end.
        repeat match goal with H : guard_err _ _ = Ret _ |- _ => apply guard_err_ret in H end.
        by apply Z.eqb_neq.
      - apply string_eqb_neq in E. destruct (scalar_field_type (F_Type field)) eqn:Es; inv_ret. subst.
        apply scalar_field_type_not_vector in Es as [? ?].
        rewrite bool_decide_eq_false_2 by done. split_and!; naive_solver. }
    rewrite Hvb in Ho2, Ho4. unfold prop_ok. simpl. rewrite Hvb.
    do 4 (split; [done|]). split; [|split; [|split; [done|split; [|split; [done|]]]]].
    + intros. rewrite bool_decide_eq_true_2 by done. auto.
    + intros. by rewrite bool_decide_eq_false_2.
    + rewrite Ho2, bool_decide_eq_true. done.
    + intros ix Hix. rewrite <- (Ho4 ix Hix), bool_decide_eq_true. done.
  - intros ix Hix. rewrite Hix in *.
    destruct (bool_decide (Index_Name ix ∈ ps_indexNames st)) eqn:E; inv_ret; [].
    apply bool_decide_eq_false in E. by subst.
  - intros Hix. rewrite Hix in *. inv_ret. by subst.
Qed.

Section SchemaProps.
Context (unmarshal_fields : string -> go (list Field)).

(** The loop invariant. *)
Definition prop_inv (fields : list Field) (st : prop_state) : Prop :=
  ps_names st = list_to_set (F_Name <$> fields) /\
  ps_indexNames st = list_to_set (Index_Name <$> omap F_Index fields) /\
  map_Forall prop_ok (ps_pro st) /\ NoDup (F_Name <$> fields) /\
  dom (ps_pro st) = list_to_set (F_Name <$> fields) /\
  NoDup (Index_Name <$> omap F_Index fields) /\
  (forall f, f ∈ fields -> exists sp, ps_pro st !! F_Name f = Some sp /\ SP_Index sp = F_Index f /\ SP_Type sp = F_Type f).

Lemma property_loop fields st :
  ofold property_step init_prop_state fields = Ret st ->
  map_Forall prop_ok (ps_pro st) /\
  NoDup (F_Name <$> fields) /\ dom (ps_pro st) = list_to_set (F_Name <$> fields) /\
  NoDup (Index_Name <$> omap F_Index fields) /\
  (forall f, f ∈ fields -> exists sp, ps_pro st !! F_Name f = Some sp /\ SP_Index sp = F_Index f /\ SP_Type sp = F_Type f).
Proof.
  intros H.
  assert (prop_inv fields st) as Hinv; [|unfold prop_inv in Hinv; naive_solver].
  revert H. apply ofold_inv.
  { unfold prop_inv. simpl. split_and!; try done; [constructor..|]. by intros f ?%not_elem_of_nil. }
  clear. unfold prop_inv. intros fields f st st' (Hn & Hi & Hp & Hnd & Hdom & Hnd2 & Hall) Hs.
  apply property_step_spec in Hs as (sp & Hok & Hfresh & Hsp1 & Hsp2 & Hpro & Hnames & Hix & Hnix).
  assert (F_Name f ∉ F_Name <$> fields) as Hf by set_solver.
  rewrite omap_app, !fmap_app, !list_to_set_app_L, Hnames, Hpro, Hn. simpl.
  split; [set_solver|]. split; [|split; [|split; [|split; [|split]]]].
  - destruct (F_Index f) as [ix|] eqn:E; simpl.
    + destruct (Hix ix eq_refl) as [_ ->]. rewrite Hi. set_solver.
    + rewrite (Hnix eq_refl), Hi. set_solver.
  - apply map_Forall_insert_2; done.
  - apply NoDup_app. split_and!; [done|set_solver|apply NoDup_singleton].
  - rewrite dom_insert_L, Hdom. set_solver.
  - destruct (F_Index f) as [ix|] eqn:E; simpl; [|by rewrite app_nil_r].
    destruct (Hix ix eq_refl) as [Hni _]. rewrite Hi in Hni.
    apply NoDup_app. split_and!; [done|set_solver|apply NoDup_singleton].
  - intros g [Hg| ->%list_elem_of_singleton]%elem_of_app.
    + destruct (Hall g Hg) as (sg & Hsg & ? & ?). exists sg. split; [|done].
      rewrite lookup_insert_ne; [done|]. intros E. apply Hf. rewrite E. by apply list_elem_of_fmap_2.
    + exists sp. by rewrite lookup_insert_eq.
Qed.

(** A schema that decodes is well formed: the properties are exactly the
    fields, whose names are distinct, non-empty and not reserved; vectors and
    only vectors have a dimension, which is not zero; scalar fields have
    scalar indexes and vector fields vector indexes; index names are
    distinct; and no field ever gets the INVERTED_LIST option.  (C32) *)
Theorem UnmarshalPropertyJSON_sound (bs : string) (fields : list Field) (props : gmap string SpaceProperties) :
  unmarshal_fields bs = Ret fields ->
  UnmarshalPropertyJSON unmarshal_fields bs = Ret props ->
  map_Forall prop_ok props /\
  NoDup (F_Name <$> fields) /\ dom props = list_to_set (F_Name <$> fields) /\
  NoDup (Index_Name <$> omap F_Index fields) /\
  (forall f, f ∈ fields -> exists sp, props !! F_Name f = Some sp /\ SP_Index sp = F_Index f /\ SP_Type sp = F_Type f).
Proof.
  unfold UnmarshalPropertyJSON. intros Hf H. rewrite Hf in H. inv_ret. subst.
  by apply property_loop.
Qed.
End SchemaProps.

Definition sample_fields : list Field :=
  [ {| F_Name := "price"; F_Type := "float"; F_Dimension := 0; F_StoreType := None; F_Format := None;
       F_Index := Some {| Index_Name := "ip"; Index_Type := "SCALAR"; FieldName := ""; FieldNames := []; Params := "" |};
       F_StoreParam := None |};
    {| F_Name := "emb"; F_Type := "vector"; F_Dimension := 4; F_StoreType := Some "MemoryOnly"%string; F_Format := None;
       F_Index := Some {| Index_Name := "iv"; Index_Type := "HNSW"; FieldName := ""; FieldNames := []; Params := "" |};
       F_StoreParam := None |} ].

Lemma UnmarshalPropertyJSON_sound_witness :
  exists props, UnmarshalPropertyJSON (fun _ => Ret sample_fields) "..." = Ret props /\ map_Forall prop_ok props.
Proof.
  eexists. split; [vm_compute; reflexivity|].
  eapply (UnmarshalPropertyJSON_sound (fun _ => Ret sample_fields) "..." sample_fields); vm_compute; reflexivity.
Defined.

Lemma store_type_bad s :
  negb (s =?s "") && negb (s =?s "RocksDB") && negb (s =?s "MemoryOnly") = true <->
  s ∉ [""%string; "RocksDB"%string; "MemoryOnly"%string].
Proof.
  rewrite !andb_true_iff, !negb_true_iff, !string_eqb_neq, !not_elem_of_cons.
  pose proof (not_elem_of_nil s). naive_solver.
Qed.

Lemma check_vector_panic field p :
  check_vector field = Panic p <->
  p = NilDeref /\ F_Dimension field <> 0 /\
  exists s, F_StoreType field = Some s /\ s ∉ [""%string; "RocksDB"%string; "MemoryOnly"%string].
Proof.
  unfold check_vector, guard_err. setoid_rewrite <- store_type_bad.
  destruct (Z.eqb_spec (F_Dimension field) 0) as [E0|E0]; simpl; [split; [done|by intros (_ & ? & _)]|].
  destruct (F_StoreType field) as [s|]; [destruct (negb (s =?s "") && _ && _) eqn:E|]; simpl.
  - split; [intros [= <-]; eauto|by intros (-> & _)].
  - split; [|intros (_ & _ & s' & [= <-] & Hs); congruence].
    intros H; by repeat case_match.
  - split; [|by intros (_ & _ & s' & ? & Hs)].
    intros H; by repeat case_match.
Qed.

Lemma index_option_no_panic b ix p : index_option b ix <> Panic p.
Proof. unfold index_option. by repeat case_match. Qed.

(** The loop body reports every bad field as an error except one: a vector
    field whose store type is unknown crashes on the nil [sp.StoreType] while
    its error message is being built, and this is the only crash. *)
Theorem property_step_panic (st : prop_state) (field : Field) (p : panic) :
  property_step st field = Panic p <->
  p = NilDeref /\
  F_Name field ∉ [""%string; IdField; ScoreField] /\ F_Name field ∉ ps_names st /\
  (forall ix, F_Index field = Some ix -> Index_Name ix ∉ ps_indexNames st) /\
  F_Type field = "vector"%string /\ F_Dimension field <> 0 /\
  exists s, F_StoreType field = Some s /\ s ∉ [""%string; "RocksDB"%string; "MemoryOnly"%string].
Proof.
  split.
  - intros H. unfold property_step in H.
    do 4 (apply obind_panic in H as [H|(? & ?%guard_err_ret & H)]; [by apply guard_err_no_panic in H|]).
    apply obind_panic in H as [H|(names & Hix & H)]; [by repeat case_match|].
    apply obind_panic in H as [H|(ft & Hft & H)].
    + destruct (F_Type field =?s "vector") eqn:Et; [|by case_match].
      apply obind_panic in H as [H|(? & ? & H)]; [|done].
      apply check_vector_panic in H as (-> & Hd & Hs).
      apply string_eqb_eq in Et. rewrite !string_eqb_neq, bool_decide_eq_false in *.
      rewrite !not_elem_of_cons. pose proof (not_elem_of_nil (F_Name field)).
      split_and!; try done. intros ix Hi. rewrite Hi in Hix. case_bool_decide; done.
    + apply obind_panic in H as [H|(? & ? & H)]; [by apply index_option_no_panic in H|].
      apply obind_panic in H as [H|(? & ? & H)]; [by apply guard_err_no_panic in H|done].
  - intros (-> & Hn & Hnd & Hix & Ht & Hd & Hs).
    rewrite !not_elem_of_cons, <- !string_eqb_neq in Hn. destruct Hn as (E1 & E2 & E3 & _).
    unfold property_step. rewrite E1, E2, E3, bool_decide_eq_false_2 by done. simpl.
    rewrite (proj2 (check_vector_panic field NilDeref)), Ht by done. simpl.
    destruct (F_Index field) as [ix|]; [|done].
    rewrite bool_decide_eq_false_2 by auto. done.
Qed.

Lemma property_step_panic_witness :
  property_step init_prop_state
    {| F_Name := "emb"; F_Type := "vector"; F_Dimension := 8; F_StoreType := Some "Mmap"%string;
       F_Format := None; F_Index := None; F_StoreParam := None |} = Panic NilDeref.
Proof.
  apply property_step_panic. simpl.
  split; [done|]. split; [by apply (bool_decide_unpack _); vm_compute|].
  split; [set_solver|]. do 3 (split; [done|]). eexists. split; [done|].
  by apply (bool_decide_unpack _); vm_compute.
Defined.

(** ** Index definitions *)

(** The rules of an index definition, as the comment of [ValidateIndexes]
    lists them, with the compatibility of index and field kinds. *)
Definition index_ok (props : gmap string SpaceProperties) (idx : Index) : Prop :=
  if decide (Index_Type idx = CompositeIndexType) then
    FieldName idx = ""%string /\ (2 <= length (FieldNames idx))%nat /\ NoDup (FieldNames idx) /\
    Forall (fun n => exists p, props !! n = Some p /\ SP_FieldType p <> FT_VECTOR) (FieldNames idx)
  else
    FieldName idx <> ""%string /\ FieldNames idx = [] /\
    exists p, props !! FieldName idx = Some p /\
      (SP_FieldType p = FT_VECTOR <-> IsScalarIndexType (Index_Type idx) = false).

Lemma composite_step_ret props seen name seen' :
  composite_step props seen name = Ret seen' <->
  (exists p, props !! name = Some p /\ SP_FieldType p <> FT_VECTOR) /\ name ∉ seen /\ seen' = {[name]} ∪ seen.
Proof.
  unfold composite_step. destruct (props !! name) as [p|] eqn:Hp; [|naive_solver].
  unfold guard_err. case_bool_decide as H1; simpl; [naive_solver|].
  case_bool_decide as H2; simpl; naive_solver.
Qed.

Lemma composite_loop props seen names :
  (exists seen', ofold (composite_step props) seen names = Ret seen') <->
  NoDup names /\ Forall (fun n => exists p, props !! n = Some p /\ SP_FieldType p <> FT_VECTOR) names /\
  Forall (fun n => n ∉ seen) names.
Proof.
  revert seen. induction names as [|n names IH]; intros seen; simpl.
  - split; [intros _; repeat constructor|eauto].
  - rewrite NoDup_cons, !Forall_cons. split.
    + intros [seen' H]. inv_ret. apply composite_step_ret in Hm as (Hp & Hn & ->).
      destruct (proj1 (IH ({[n]} ∪ seen))) as (H1 & H2 & [H3 H4]%fresh_cons); [eauto|]. done.
    + intros ((Hn & Hnd) & (Hp & Hps) & Hs & Hss).
      rewrite (proj2 (composite_step_ret props seen n ({[n]} ∪ seen))) by done. simpl.
      apply IH. by rewrite fresh_cons.
Qed.

Lemma validate_index_ret props idx : validate_index props idx = Ret tt <-> index_ok props idx.
Proof.
  unfold validate_index, index_ok, guard_err.
  destruct (FieldName idx =?s "") eqn:Hf; simpl.
  - apply string_eqb_eq in Hf. case_decide as Ht.
    + rewrite (proj2 (string_eqb_eq _ _) Ht).
      destruct (Nat.ltb_spec (length (FieldNames idx)) 2); simpl; [split; [done|]; intros (_ & ? & _); lia|].
      pose proof (composite_loop props ∅ (FieldNames idx)) as Hl.
      destruct (ofold _ ∅ (FieldNames idx)) as [seen|e|p]; simpl; split; try done.
      * intros _. destruct (proj1 Hl) as (? & ? & _); eauto.
      * intros (_ & _ & H1 & H2). destruct (proj2 Hl) as [? ?]; [|done].
        split_and!; try done. apply fresh_empty.
      * intros (_ & _ & H1 & H2). destruct (proj2 Hl) as [? ?]; [|done].
        split_and!; try done. apply fresh_empty.
    + rewrite (proj2 (string_eqb_neq _ _) Ht). simpl. split; [done|]. by intros [? _].
  - apply string_eqb_neq in Hf. destruct (FieldNames idx) as [|n ns] eqn:Hns; simpl.
    + case_decide as Ht.
      * rewrite (proj2 (string_eqb_eq _ _) Ht). simpl. split; [done|]. by intros [? _].
      * rewrite (proj2 (string_eqb_neq _ _) Ht).
        destruct (props !! FieldName idx) as [p|]; [|split; [done|naive_solver]].
        destruct (IsScalarIndexType (Index_Type idx)); case_bool_decide; simpl; naive_solver.
    + split; [done|]. case_decide; naive_solver.
Qed.

(** The specification of an accepted list. *)
Definition indexes_ok (indexes : list (option Index)) (props : gmap string SpaceProperties) : Prop :=
  Forall (fun o => exists ix, o = Some ix /\ Index_Name ix <> ""%string /\ index_ok props ix) indexes /\
  NoDup (Index_Name <$> omap id indexes).

Lemma validate_loop props names indexes :
  (exists n', ofold (validate_step props) names indexes = Ret n') <->
  indexes_ok indexes props /\ Forall (fun n => n ∉ names) (Index_Name <$> omap id indexes).
Proof.
  unfold indexes_ok. revert names. induction indexes as [|o indexes IH]; intros names; simpl.
  - split; [intros _; repeat constructor|eauto].
  - rewrite Forall_cons. destruct o as [ix|]; simpl; [|split; [by intros []|naive_solver]].
    rewrite NoDup_cons, Forall_cons.
    pose proof (validate_index_ret props ix) as Hix. unfold guard_err.
    destruct (Index_Name ix =?s "") eqn:Hn; simpl.
    { apply string_eqb_eq in Hn. split; [by intros []|]. intros [[[(? & [= <-] & ? & _) _] _] _]. done. }
    apply string_eqb_neq in Hn. case_bool_decide as Hd; simpl; [split; [by intros []|naive_solver]|].
    destruct (validate_index props ix) as [[]|e|p]; simpl.
    2-3: split; [by intros []|]; intros [[[(? & [= <-] & _ & Hok) _] _] _]; by apply Hix in Hok.
    rewrite IH, fresh_cons. split.
    + intros ((H1 & H2) & H3 & H4). split_and!; try done. naive_solver.
    + intros (((_ & H1) & Hnd1 & Hnd2) & Hnm & Hnms). done.
Qed.

Lemma ValidateIndexes_ret indexes props : ValidateIndexes indexes props = Ret tt <-> indexes_ok indexes props.
Proof.
  unfold ValidateIndexes. pose proof (validate_loop props ∅ indexes) as Hl.
  assert (Forall (fun n => n ∉ (∅ : gset string)) (Index_Name <$> omap id indexes)) by apply fresh_empty.
  destruct (ofold _ ∅ indexes); simpl; split; try done.
  - intros _. apply Hl. eauto.
  - intros. destruct (proj2 Hl) as [? ?]; done.
  - intros. destruct (proj2 Hl) as [? ?]; done.
Qed.

(** [ValidateIndexes] accepts exactly the lists of distinctly named, present
    index definitions that satisfy the documented rules. *)
Theorem ValidateIndexes_exact (indexes : list (option Index)) (props : gmap string SpaceProperties) :
  ValidateIndexes indexes props = Ret tt <->
  (exists l, indexes = Some <$> l /\ NoDup (Index_Name <$> l) /\
     Forall (fun ix => Index_Name ix <> ""%string /\ index_ok props ix) l).
Proof.
  rewrite ValidateIndexes_ret. unfold indexes_ok. split.
  - intros [Hf Hnd]. exists (omap id indexes).
    assert (indexes = Some <$> omap id indexes /\
            Forall (fun ix => Index_Name ix <> ""%string /\ index_ok props ix) (omap id indexes)) as [H1 H2];
      [|split_and!; done].
    clear Hnd. induction Hf as [|o l (ix & -> & H1 & H2) Hf IH]; simpl; [done|].
    destruct IH as [IH1 IH2]. split; [by f_equal|]. by constructor.
  - intros (l & -> & Hnd & Hf).
    assert (omap id (Some <$> l) = l) as ->
      by (clear; induction l as [|x l IH]; [done|]; cbn; f_equal; exact IH).
    split; [|done]. rewrite Forall_fmap. eapply Forall_impl; [done|]. naive_solver.
Qed.

(** ** Merging inline indexes *)

(** The inline indexes of the properties, in the order of the loop. *)
Definition inline_of (entry : string * SpaceProperties) : option Index :=
  inline_index entry.1 <$> SP_Index entry.2.
Definition inline_indexes (order : list (string * SpaceProperties)) : list Index := omap inline_of order.

Lemma inline_indexes_snoc l f sp :
  inline_indexes (l ++ [(f, sp)]) =
  inline_indexes l ++ match SP_Index sp with Some ix => [inline_index f ix] | None => [] end.
Proof. unfold inline_indexes. rewrite omap_app. f_equal. cbn. unfold inline_of. cbn. by destruct (SP_Index sp). Qed.

Lemma field_index_taken_app f l1 l2 :
  field_index_taken f (l1 ++ l2) = field_index_taken f l1 || field_index_taken f l2.
Proof.
  induction l1 as [|[idx|] l1 IH]; simpl; [done| |done].
  destruct (_ && _); simpl; done.
Qed.

Lemma field_index_taken_other g l :
  g ∉ (fst <$> l) -> field_index_taken g (Some <$> inline_indexes l) = false.
Proof.
  induction l as [|[h sp] l IH]; simpl; [done|].
  rewrite not_elem_of_cons. intros [Hh Hl].
  unfold inline_indexes, inline_of in *. simpl in *. destruct (SP_Index sp); simpl; [|auto].
  rewrite (proj2 (string_eqb_neq g h) Hh). simpl. auto.
Qed.

(** What the loop requires of an entry against the given index list. *)
Definition mergeable (indexes : list (option Index)) (entry : string * SpaceProperties) : bool :=
  match SP_Index entry.2 with
  | Some ix => negb (Index_Type ix =?s CompositeIndexType) && negb (field_index_taken entry.1 indexes)
  | None => true
  end.

(** One step, when the list holds the given indexes and the inline indexes of
    other fields. *)
Lemma merge_step_spec indexes order f sp :
  f ∉ fst <$> order ->
  merge_step (indexes ++ (Some <$> inline_indexes order)) (f, sp) =
  if mergeable indexes (f, sp) then Ret (indexes ++ (Some <$> inline_indexes (order ++ [(f, sp)])))
  else Fail (match SP_Index sp with
             | Some ix => if Index_Type ix =?s CompositeIndexType
                 then verr PARAM_ERROR "field[%s] index type[COMPOSITE] can not set in fields"
                 else verr PARAM_ERROR "field[%s] index duplicated"
             | None => verr PARAM_ERROR "field[%s] index duplicated"
             end).
Proof.
  intros Hf. rewrite inline_indexes_snoc, fmap_app. unfold merge_step, mergeable. simpl.
  destruct (SP_Index sp) as [ix|]; simpl; [|by rewrite app_nil_r].
  destruct (Index_Type ix =?s CompositeIndexType); simpl; [done|].
  rewrite field_index_taken_app, (field_index_taken_other f order), orb_false_r by done.
  destruct (field_index_taken f indexes); simpl; [done|]. by rewrite app_assoc.
Qed.

Lemma merge_loop order indexes :
  NoDup (fst <$> order) ->
  forall indexes', ofold merge_step indexes order = Ret indexes' <->
    Forall (fun e => mergeable indexes e = true) order /\ indexes' = indexes ++ (Some <$> inline_indexes order).
Proof.
  intros Hnd. induction order as [|[f sp] order IH] using rev_ind.
  { intros. simpl. rewrite app_nil_r. split; [intros [= ->]; done|]. by intros [_ ->]. }
  rewrite fmap_app in Hnd. apply NoDup_app in Hnd as (Hnd & Hdis & _).
  assert (f ∉ fst <$> order) as Hf by (intros ?; apply (Hdis f); [done|by left]).
  specialize (IH Hnd). intros indexes'. rewrite ofold_app, Forall_app, Forall_singleton. split.
  - intros H. apply obind_ret_inv in H as (x & [Hall ->]%IH & H). cbn [ofold] in H.
    rewrite merge_step_spec in H by done. destruct (mergeable indexes (f, sp)); [|done].
    by injection H as <-.
  - intros ([Hall Hlast] & ->). rewrite (proj2 (IH _) (conj Hall eq_refl)). cbn [obind ofold].
    by rewrite merge_step_spec, Hlast.
Qed.

Lemma indexes_ok_perm l1 l2 props : l1 ≡ₚ l2 -> indexes_ok l1 props -> indexes_ok l2 props.
Proof.
  unfold indexes_ok. intros Hp [H1 H2]. split; [by rewrite <- Hp|].
  by rewrite <- Hp.
Qed.

(** Go ranges over the property map in an unspecified order.  The merge does
    not depend on it: for any two orders it succeeds in both or in neither, the
    two results are permutations of each other, and a success appends to the
    given list exactly one single-field index per inline index, every name
    distinct. *)
Theorem MergeFieldIndexes_order (props : gmap string SpaceProperties) (indexes : list (option Index))
    (o1 o2 : list (string * SpaceProperties)) (r1 : list (option Index)) :
  o1 ≡ₚ map_to_list props -> o2 ≡ₚ map_to_list props ->
  MergeFieldIndexes o1 props indexes = Ret r1 ->
  exists r2, MergeFieldIndexes o2 props indexes = Ret r2 /\ r1 ≡ₚ r2 /\
    r2 = indexes ++ (Some <$> inline_indexes o2) /\ indexes_ok r2 props.
Proof.
  intros Ho1 Ho2. unfold MergeFieldIndexes.
  assert (NoDup (fst <$> o1)) by (rewrite Ho1; apply NoDup_fst_map_to_list).
  assert (NoDup (fst <$> o2)) by (rewrite Ho2; apply NoDup_fst_map_to_list).
  intros H'. apply obind_ret_inv in H' as (x & Hm & H').
  apply obind_ret_inv in H' as ([] & Hv & [= <-]).
  apply merge_loop in Hm as [Hall ->]; [|done].
  assert (indexes ++ (Some <$> inline_indexes o1) ≡ₚ indexes ++ (Some <$> inline_indexes o2)) as Hp.
  { f_equiv. apply Permutation_map. unfold inline_indexes. by rewrite Ho1, Ho2. }
  apply ValidateIndexes_ret in Hv. apply (indexes_ok_perm _ _ _ Hp) in Hv as Hv2.
  assert (Forall (fun e => mergeable indexes e = true) o2) by (by rewrite Ho2, <- Ho1).
  exists (indexes ++ (Some <$> inline_indexes o2)).
  rewrite (proj2 (merge_loop o2 indexes ltac:(done) _) ltac:(done)). simpl.
  by rewrite (proj2 (ValidateIndexes_ret _ _) Hv2).
Qed.

Definition sample_props : gmap string SpaceProperties :=
  match UnmarshalPropertyJSON (fun _ => Ret sample_fields) "" with Ret p => p | _ => ∅ end.

Lemma MergeFieldIndexes_order_witness :
  exists r1 r2, MergeFieldIndexes (map_to_list sample_props) sample_props [] = Ret r1 /\
    MergeFieldIndexes (reverse (map_to_list sample_props)) sample_props [] = Ret r2 /\ r1 ≡ₚ r2.
Proof.
  assert (exists r1, MergeFieldIndexes (map_to_list sample_props) sample_props [] = Ret r1) as [r1 H1]
    by (eexists; vm_compute; reflexivity).
  destruct (MergeFieldIndexes_order sample_props [] (map_to_list sample_props)
    (reverse (map_to_list sample_props)) r1 (Permutation_refl _) (reverse_Permutation _) H1) as (r2 & H2 & Hp & _).
  exists r1, r2. exact (conj H1 (conj H2 Hp)).
Defined.

(** A list that reaches the merge with a nil element makes it crash, although
    the loop over the list skips nil elements. *)
Theorem MergeFieldIndexes_nil_panics (props : gmap string SpaceProperties) (order : list (string * SpaceProperties))
    (rest : list (option Index)) :
  order ≡ₚ map_to_list props -> Forall (fun e => mergeable rest e = true) order ->
  MergeFieldIndexes order props (None :: rest) = Panic NilDeref.
Proof.
  intros Ho Hall. unfold MergeFieldIndexes.
  assert (NoDup (fst <$> order)) as Hnd by (rewrite Ho; apply NoDup_fst_map_to_list).
  assert (Forall (fun e => mergeable (None :: rest) e = true) order) as Hall' by done.
  by rewrite (proj2 (merge_loop order (None :: rest) Hnd _) (conj Hall' eq_refl)).
Qed.

Lemma MergeFieldIndexes_nil_panics_witness :
  MergeFieldIndexes (map_to_list sample_props) sample_props [None] = Panic NilDeref.
Proof.
  apply (MergeFieldIndexes_nil_panics sample_props (map_to_list sample_props) []); [apply Permutation_refl|].
  by apply (bool_decide_unpack _); vm_compute.
Defined.

(** ** Index parameters *)

(** The bounds for the types of index that have some: HNSW graphs and inverted files.  Zero stands for the default. *)
Definition params_in_bounds (ty : string) (p : IndexParams) : Prop :=
  MetricType p ∈ [""%string; "InnerProduct"%string; "L2"%string] /\
  (ty = "HNSW"%string ->
     (Nlinks p = 0 \/ 8 <= Nlinks p <= 96) /\ (EfConstruction p = 0 \/ 16 <= EfConstruction p <= 1024)) /\
  (ty ∈ ivfTypes ->
     0 <= Ncentroids p <= 262144 /\ (Nprobe p = 0 \/ Nprobe p <= Ncentroids p) /\
     (TrainingThreshold p <> 0 -> 256 <= TrainingThreshold p /\ Ncentroids p <= TrainingThreshold p) /\
     (TrainingThreshold p = 0 -> Ncentroids p = 0 \/ 256 <= 39 * Ncentroids p)).

Lemma ivf_check p :
  (check! guard_err (negb (Ncentroids p =? 0) && ((Ncentroids p <? MinNcentroids) || (MaxNcentroids <? Ncentroids p)))
     (verr PARAM_ERROR "index params ncentroids:%d should in [%d, %d]") in
   check! (if negb (TrainingThreshold p =? 0) then
             check! guard_err (TrainingThreshold p <? Ncentroids p)
                      (verr PARAM_ERROR " training_threshold:[%d] should more than ncentroids:[%d]") in
             guard_err (TrainingThreshold p <? MinTrainingThreshold)
                      (verr PARAM_ERROR " training_threshold:[%d] should more than [%d]")
           else
             guard_err (negb (Ncentroids p =? 0) &&
                        (i64 (Ncentroids p * DefaultMinPointsPerCentroid) <? MinTrainingThreshold))
                      (verr PARAM_ERROR " training_threshold:[%d] should more than [%d]")) in
   guard_err (negb (Nprobe p =? 0) && (Ncentroids p <? Nprobe p))
     (verr PARAM_ERROR " nprobe:[%d] should less than ncentroids:[%d]")) = Ret tt <->
  0 <= Ncentroids p <= 262144 /\ (Nprobe p = 0 \/ Nprobe p <= Ncentroids p) /\
  (TrainingThreshold p <> 0 -> 256 <= TrainingThreshold p /\ Ncentroids p <= TrainingThreshold p) /\
  (TrainingThreshold p = 0 -> Ncentroids p = 0 \/ 256 <= 39 * Ncentroids p).
Proof.
  unfold MinNcentroids, MaxNcentroids, MinTrainingThreshold, DefaultMinPointsPerCentroid.
  destruct (negb (Ncentroids p =? 0) && _) eqn:E1; cbn [guard_err obind]; [split; [done|lia]|].
  assert (0 <= Ncentroids p <= 262144) as Hc by lia. unfold i64. rewrite wrap_s_id by (unfold in_s; lia).
  destruct (Z.eqb_spec (TrainingThreshold p) 0) as [E|E]; cbn [negb].
  - destruct (negb (Ncentroids p =? 0) && (Ncentroids p * 39 <? 256)) eqn:E2; cbn [guard_err obind]; [split; [done|lia]|].
    destruct (negb (Nprobe p =? 0) && _) eqn:E4; cbn [guard_err]; [split; [done|lia]|split; [lia|done]].
  - destruct (TrainingThreshold p <? Ncentroids p) eqn:E2; cbn [guard_err obind]; [split; [done|lia]|].
    destruct (TrainingThreshold p <? 256) eqn:E3; cbn [guard_err obind]; [split; [done|lia]|].
    destruct (negb (Nprobe p =? 0) && _) eqn:E4; cbn [guard_err]; [split; [done|lia]|split; [lia|done]].
Qed.

Lemma check_index_params_exact ty p : check_index_params ty p = Ret tt <-> params_in_bounds ty p.
Proof.
  unfold check_index_params, params_in_bounds. rewrite <- (contains_true [""; "InnerProduct"; "L2"]%string).
  replace (contains [""; "InnerProduct"; "L2"]%string (MetricType p)) with
    (negb (negb (MetricType p =?s "") && negb (MetricType p =?s "InnerProduct") && negb (MetricType p =?s "L2"))).
  2: { cbn [contains]. unfold string_eqb. repeat case_bool_decide; congruence || reflexivity. }
  destruct (negb (_ =?s "") && _ && _); cbn [guard_err obind negb]; [split; [done|by intros []]|].
  destruct (ty =?s "HNSW") eqn:E1; [|destruct (ty =?s "FLAT") eqn:E2; [|destruct (contains ivfTypes ty) eqn:E3]];
    rewrite ?string_eqb_eq, ?string_eqb_neq, ?contains_true, ?contains_false in *; subst.
  - unfold MinNlinks, MaxNlinks, MinEfConstruction, MaxEfConstruction.
    destruct (negb (Nlinks p =? 0) && _) eqn:E2; cbn [guard_err obind]; [split; [done|intros (_ & H & _); specialize (H eq_refl); lia]|].
    destruct (negb (EfConstruction p =? 0) && _) eqn:E3; cbn [guard_err]; [split; [done|intros (_ & H & _); specialize (H eq_refl); lia]|]. split; [|done]. intros _. split; [done|]. split; [intros _; lia|]. intros Hin. exfalso. revert Hin. apply (bool_decide_unpack _). by vm_compute.
  - split; [|done]. intros _. split; [done|]. split; [done|]. intros Hin. exfalso. revert Hin. apply (bool_decide_unpack _). by vm_compute.
  - rewrite ivf_check. split; [by intros H|intros (_ & _ & H); by apply H].
  - split; [|done]. by intros _.
Qed.


Definition hnsw_params : IndexParams :=
  {| Nlinks := 32; EfSearch := 64; EfConstruction := 160; MetricType := "L2"; Ncentroids := 0;
     Nprobe := 0; Nsubvector := 0; TrainingThreshold := 0 |}.
Definition hnsw_index : Index :=
  {| Index_Name := "iv"; Index_Type := "HNSW"; FieldName := "emb"; FieldNames := []; Params := "{nlinks:32}" |}.

