(* ===== verification/Partition.v ===== *)
(** * Partitions and range rules (internal/entity/partition.go)

    The partition record, the validation of a range rule and the ordered
    insertion of new ranges.  [cast.ToInt64E] and [cast.ToTimeE] (a third-party
    package) are parameters: the integer, respectively the Unix time in
    nanoseconds, that a string parses to. *)

From S2P Require Import Prelude.
From S2P Require Import Errors.
From S2P Require Import Schema.
Open Scope Z_scope.

Definition MaxPartitions : Z := 1024.
Definition MaxTotalPartitions : Z := 1024 * 16.

Inductive PartitionStatus : Set := PA_UNKNOW | PA_INVALID | PA_CLOSED | PA_READONLY | PA_READWRITE.
#[export] Instance PartitionStatus_eq_dec : EqDecision PartitionStatus.
Proof. solve_decision. Defined.

Definition ReplicasOK : Z := 1.
Definition ReplicasNotReady : Z := 2.

Record Partition : Type := {
  P_Id : Z;                  (** uint32 *)
  P_Name : string;
  P_SpaceId : Z;
  P_DBId : Z;
  P_Slot : Z;                (** uint32, lower limit of the slot range *)
  P_LeaderID : Z;
  P_Replicas : list Z;
  P_UpdateTime : Z;
  P_AddNum : Z;
  P_ResourceExhausted : bool;
  P_Path : string;
  P_status : PartitionStatus;
  P_ReStatusMap : gmap Z Z
}.

Record Range : Set := { R_Name : string; R_Value : string }.
#[export] Instance Range_eq_dec : EqDecision Range.
Proof. solve_decision. Defined.

(** [PartitionType] is a string type. *)
Definition RangePartition : string := "RANGE".

Record PartitionRule : Set := {
  PR_Type : string;
  PR_Field : string;
  PR_Partitions : Z;
  PR_Ranges : list Range
}.

Definition set_Partitions (n : Z) (r : PartitionRule) : PartitionRule :=
  {| PR_Type := PR_Type r; PR_Field := PR_Field r; PR_Partitions := n; PR_Ranges := PR_Ranges r |}.

Section Rules.
Context (ToInt64E : string -> option Z) (ToTimeE : string -> option Z).

Definition ToTimestamp (value : string) : go Z :=
  match ToInt64E value with
  | Some i => Ret (i64 (i * 1000000000))
  | None =>
    match ToTimeE value with
    | Some ns => Ret ns
    | None => Fail (verr PARAM_ERROR "date %s Unmarshal err %s")
    end
  end.

(** ** [PartitionRule.ValidateRange] *)

Record range_state : Type := { rs_before : Z; rs_names : gset string; rs_values : gset string }.

(** The body of the loop over the ranges. *)
Definition range_step (st : range_state) (r : Range) : go range_state :=
  check! guard_err (R_Name r =?s "") (verr PARAM_ERROR "space partition rule range name %s is empty, ranges %v") in
  check! guard_err (bool_decide (R_Name r ∈ rs_names st))
           (verr PARAM_ERROR "space partition rule range name %s has same one, ranges %v") in
  check! guard_err (bool_decide (R_Value r ∈ rs_values st))
           (verr PARAM_ERROR "space partition rule range value %s has same one, ranges %v") in
  if negb (R_Value r =?s "") then
    let! timeNum := ToTimestamp (R_Value r) in
    check! guard_err (timeNum <=? rs_before st)
             (verr PARAM_ERROR "range partition value needs to be increasing %v") in
    Ret {| rs_before := timeNum; rs_names := {[R_Name r]} ∪ rs_names st;
           rs_values := {[R_Value r]} ∪ rs_values st |}
  else Fail (verr PARAM_ERROR "range partition %s value is empty").

(** [pr] is the receiver, [sr] the rule of the space (the same object in
    every call), [PartitionNum] the space's; returns the rule as the method
    leaves it. *)
Definition ValidateRange (pr sr : PartitionRule) (PartitionNum : Z) : PartitionRule * go unit :=
  if negb (PR_Type pr =?s RangePartition)
  then (sr, Fail (verr PARAM_ERROR "now only support partition type of RANGE"))
  else
    let sr' := set_Partitions (Z.of_nat (length (PR_Ranges sr))) sr in
    (sr',
     check! guard_err (PR_Partitions sr' =? 0) (verr PARAM_ERROR "empty space partition rule of ranges") in
     check! guard_err (MaxPartitions <? PR_Partitions sr')
              (verr PARAM_ERROR "space partitions[%d] beyond MaxPartitions[%d]") in
     check! guard_err (MaxTotalPartitions <? i64 (PR_Partitions sr' * PartitionNum))
              (verr PARAM_ERROR "space total partitions[%d] beyond MaxTotalPartitions[%d]") in
     check! ofold range_step {| rs_before := -1; rs_names := ∅; rs_values := ∅ |} (PR_Ranges sr') in
     Ret tt).

(** [PartitionRule.Validate] *)
Definition PartitionRule_Validate (pr sr : PartitionRule) (PartitionNum : Z)
    (props : gmap string SpaceProperties) (check_field : bool) : PartitionRule * go unit :=
  if check_field then
    if PR_Field sr =?s "" then (sr, Fail (verr PARAM_ERROR "space partition rule field is empty"))
    else match props !! PR_Field sr with
         | None => (sr, Fail (verr PARAM_ERROR "%s not in space fields"))
         | Some value =>
           if negb (bool_decide (SP_FieldType value = FT_DATE))
           then (sr, Fail (verr PARAM_ERROR "currently only partition field with %s data type are supported"))
           else ValidateRange pr sr PartitionNum
         end
  else ValidateRange pr sr PartitionNum.

(** ** [insertIntoRanges] *)

(** The binary search: the loop runs while [left < right]; the interval
    shrinks in every turn, so its length is enough fuel. *)
Fixpoint insert_pos (fuel : nat) (arr : list Range) (ts left right : Z) : go Z :=
  if left <? right then
    match fuel with
    | O => Panic IndexRange   (* not reached: see [insert_pos_spec] *)
    | S fuel' =>
      let mid := (left + right) / 2 in
      let! r := index_at arr mid in
      let! midValue := ToTimestamp (R_Value r) in
      if midValue <? ts then insert_pos fuel' arr ts (mid + 1) right
      else insert_pos fuel' arr ts left mid
    end
  else Ret left.

(** [append] makes room for one element, [copy] shifts the tail. *)
Definition insert_at (arr : list Range) (left : Z) (r : Range) : list Range :=
  take (Z.to_nat left) arr ++ r :: drop (Z.to_nat left) arr.

Definition insertIntoRanges (arr : list Range) (r : Range) : go (list Range) :=
  let! ts := ToTimestamp (R_Value r) in
  let! lft := insert_pos (length arr) arr ts 0 (Z.of_nat (length arr)) in
  Ret (insert_at arr lft r).

Definition AddRanges (pr : PartitionRule) (ranges : list Range) : go (list Range) :=
  ofold insertIntoRanges (PR_Ranges pr) ranges.

(** ** [PartitionRule.RangeIsSame] *)
Definition same_own_step (st : gset string * gset string) (r : Range) : go (gset string * gset string) :=
  check! guard_err (bool_decide (R_Name r ∈ st.1))
           (verr PARAM_ERROR "space partition rule range name %s has same one, ranges %v") in
  check! guard_err (bool_decide (R_Value r ∈ st.2))
           (verr PARAM_ERROR "space partition rule range value %s has same one, ranges %v") in
  Ret ({[R_Name r]} ∪ st.1, {[R_Value r]} ∪ st.2).

Definition same_new_step (st : gset string * gset string) (r : Range) : go (gset string * gset string) :=
  check! guard_err (bool_decide (R_Name r ∈ st.1))
           (verr PARAM_ERROR "space partition rule range name %s has same one, space ranges %v, add ranges %v") in
  check! guard_err (bool_decide (R_Value r ∈ st.2))
           (verr PARAM_ERROR "space partition rule range value %s has same one, space ranges %v, add ranges %v") in
  Ret st.

(** The boolean it also returns is [true] exactly with an error. *)
Definition RangeIsSame (pr : PartitionRule) (ranges : list Range) : go unit :=
  let! st := ofold same_own_step (∅, ∅) (PR_Ranges pr) in
  check! ofold same_new_step st ranges in
  Ret tt.

(** ** Properties *)

(** Timestamps of a list of ranges, when they all parse. *)
Definition stamps (l : list Range) (ts : list Z) : Prop :=
  Forall2 (fun r t => ToTimestamp (R_Value r) = Ret t) l ts.

Lemma stamps_lookup l ts i r :
  stamps l ts -> l !! i = Some r -> exists t, ts !! i = Some t /\ ToTimestamp (R_Value r) = Ret t.
Proof. intros Hs Hi. destruct (Forall2_lookup_l _ _ _ _ _ Hs Hi) as (t & ? & ?). eauto. Qed.

(** The binary search finds the first position whose stamp is not below. *)
Lemma insert_pos_spec fuel arr tss ts left right :
  stamps arr tss -> StronglySorted Z.le tss ->
  0 <= left <= right -> right <= Z.of_nat (length arr) -> right - left <= Z.of_nat fuel ->
  (forall i t, tss !! i = Some t -> Z.of_nat i < left -> t < ts) ->
  (forall i t, tss !! i = Some t -> right <= Z.of_nat i -> ts <= t) ->
  exists p, insert_pos fuel arr ts left right = Ret p /\ 0 <= p <= Z.of_nat (length arr) /\
    (forall i t, tss !! i = Some t -> Z.of_nat i < p -> t < ts) /\
    (forall i t, tss !! i = Some t -> p <= Z.of_nat i -> ts <= t).
Proof.
  intros Hst Hso. revert left right. induction fuel as [|fuel IH]; intros left right Hlr Hr Hf Hlo Hhi; simpl.
  - destruct (Z.ltb_spec left right); [lia|]. exists left. split_and!; try done; try lia.
    intros i t Hi Hle. apply (Hhi i t Hi). lia.
  - destruct (Z.ltb_spec left right) as [Hlt|]; [|exists left; split_and!; try done; try lia;
      intros i t Hi Hle; apply (Hhi i t Hi); lia].
    pose proof (Z.div_mod (left + right) 2 ltac:(lia)) as Hdm.
    pose proof (Z.mod_pos_bound (left + right) 2 ltac:(lia)).
    set (mid := (left + right) / 2) in *. assert (left <= mid < right) as Hmid by lia. clearbody mid.
    unfold index_at. destruct (Z.ltb_spec mid 0); [lia|].
    destruct (lookup_lt_is_Some_2 arr (Z.to_nat mid)) as [r Hrm]; [lia|]. rewrite Hrm. cbn [obind].
    destruct (stamps_lookup _ _ _ _ Hst Hrm) as (t & Ht & ->). simpl.
    destruct (Z.ltb_spec t ts) as [Hlt'|Hge].
    + apply IH; [lia..| |done]. intros i t' Hi Hle.
      destruct (decide (i = Z.to_nat mid)) as [->|Hne]; [congruence|].
      assert (i < Z.to_nat mid)%nat as Hlti by lia.
      pose proof (ssorted_lookup Z.le tss i (Z.to_nat mid) t' t Hso Hi Ht Hlti). lia.
    + apply IH; [lia..|done|]. intros i t' Hi Hle.
      destruct (decide (i = Z.to_nat mid)) as [->|Hne]; [congruence|].
      assert (Z.to_nat mid < i)%nat as Hlti by lia.
      pose proof (ssorted_lookup Z.le tss (Z.to_nat mid) i t t' Hso Ht Hi Hlti). lia.
Qed.

Lemma insertIntoRanges_spec arr tss r ts :
  stamps arr tss -> StronglySorted Z.le tss -> ToTimestamp (R_Value r) = Ret ts ->
  exists arr' tss', insertIntoRanges arr r = Ret arr' /\ arr' ≡ₚ r :: arr /\
    stamps arr' tss' /\ StronglySorted Z.le tss'.
Proof.
  intros Hst Hso Hts. pose proof (Forall2_length _ _ _ Hst) as Hlen.
  destruct (insert_pos_spec (length arr) arr tss ts 0 (Z.of_nat (length arr)) Hst Hso)
    as (p & Hp & Hrange & Hlo & Hhi); [lia..| |].
  { intros i t Hi%lookup_lt_Some. lia. }
  exists (insert_at arr p r), (take (Z.to_nat p) tss ++ ts :: drop (Z.to_nat p) tss).
  unfold insertIntoRanges. rewrite Hts. cbn [obind]. rewrite Hp. split; [done|]. unfold insert_at.
  split; [|split].
  - by rewrite <- Permutation_middle, take_drop.
  - apply Forall2_app; [by apply Forall2_take|]. constructor; [done|by apply Forall2_drop].
  - apply ssorted_insert; [done|..]; intros i t Hi Hle; [specialize (Hlo i t Hi)|apply (Hhi i t Hi)]; lia.
Qed.

(** Adding ranges to a rule whose ranges are in increasing order of time
    always succeeds when the new values parse, and gives back the old and the
    new ranges, all of them, in increasing order. *)
Theorem AddRanges_sorted (pr : PartitionRule) (ranges : list Range) (ts tn : list Z) :
  stamps (PR_Ranges pr) ts -> StronglySorted Z.le ts -> stamps ranges tn ->
  exists out tout, AddRanges pr ranges = Ret out /\ out ≡ₚ PR_Ranges pr ++ ranges /\
    stamps out tout /\ StronglySorted Z.le tout.
Proof.
  unfold AddRanges. generalize (PR_Ranges pr) as arr. intros arr Hst Hso Hn.
  revert arr ts Hst Hso. induction Hn as [|r t ranges tn Hr Hn IH]; intros arr ts Hst Hso; simpl.
  - exists arr, ts. by rewrite app_nil_r.
  - destruct (insertIntoRanges_spec arr ts r t Hst Hso Hr) as (arr' & ts' & -> & Hp & Hst' & Hso'). simpl.
    destruct (IH arr' ts' Hst' Hso') as (out & tout & -> & Hp' & ? & ?).
    exists out, tout. split; [done|]. split; [|done].
    by rewrite Hp', Hp, <- Permutation_middle.
Qed.

(** ** Validation *)

Definition range_inv (done : list Range) (st : range_state) : Prop :=
  exists ts, stamps done ts /\ StronglySorted Z.lt ts /\ Forall (fun t => 0 <= t <= rs_before st) ts /\
    -1 <= rs_before st /\
    rs_names st = list_to_set (R_Name <$> done) /\ NoDup (R_Name <$> done) /\
    Forall (fun r => R_Name r <> ""%string /\ R_Value r <> ""%string) done.

Lemma range_step_inv done r st st' : range_inv done st -> range_step st r = Ret st' -> range_inv (done ++ [r]) st'.
Proof.
  intros (ts & Hst & Hso & Hle & Hb & Hn & Hnd & Hne) H. unfold range_step in H. inv_ret.
  apply guard_err_ret in Hm, Hm0, Hm1. apply string_eqb_neq in Hm. apply bool_decide_eq_false in Hm0.
  destruct (R_Value r =?s "") eqn:Hv; simpl in H; [done|]. apply string_eqb_neq in Hv. inv_ret.
  apply guard_err_ret in Hm3. apply Z.leb_gt in Hm3. subst st'. unfold range_inv. simpl.
  exists (ts ++ [a2]). rewrite Hn in Hm0. split; [|split; [|split; [|split; [|split; [|split]]]]].
  - apply Forall2_app; [done|]. by repeat constructor.
  - apply StronglySorted_app. split; [|split; [done|repeat constructor]].
    intros x y Hx ->%list_elem_of_singleton. rewrite Forall_forall in Hle. specialize (Hle x Hx). lia.
  - apply Forall_app. split; [eapply Forall_impl; [done|]; intros t Ht; simpl in Ht; lia|]. repeat constructor; lia.
  - lia.
  - rewrite fmap_app, list_to_set_app_L, Hn. set_solver.
  - rewrite fmap_app. apply NoDup_app. split; [done|]. split; [set_solver|apply NoDup_singleton].
  - apply Forall_app. split; [done|]. by repeat constructor.
Qed.

(** A rule that validates is a list of at least one and at most 1024 ranges,
    distinctly named, whose limits are strictly increasing times after the
    epoch, and the rule then counts its partitions correctly, within the total
    bound. *)
Theorem ValidateRange_sound (pr pr' : PartitionRule) (PartitionNum : Z) :
  0 <= PartitionNum < 2 ^ 31 ->
  ValidateRange pr pr PartitionNum = (pr', Ret tt) ->
  PR_Ranges pr' = PR_Ranges pr /\ PR_Partitions pr' = Z.of_nat (length (PR_Ranges pr)) /\
  1 <= PR_Partitions pr' <= 1024 /\ PR_Partitions pr' * PartitionNum <= 16384 /\
  NoDup (R_Name <$> PR_Ranges pr) /\ Forall (fun r => R_Name r <> ""%string) (PR_Ranges pr) /\
  exists ts, stamps (PR_Ranges pr) ts /\ StronglySorted Z.lt ts /\ Forall (fun t => 0 <= t) ts.
Proof.
  intros HP. unfold ValidateRange.
  destruct (PR_Type pr =?s RangePartition); simpl; [|done].
  intros [= <- H]. inv_ret. simpl in *. apply guard_err_ret in Hm, Hm0, Hm1.
  unfold MaxPartitions, MaxTotalPartitions, i64 in *.
  apply Z.eqb_neq in Hm. apply Z.ltb_ge in Hm0.
  assert (0 <= Z.of_nat (length (PR_Ranges pr)) * PartitionNum <= 1024 * 2 ^ 31) by nia.
  rewrite wrap_s_id in Hm1 by (unfold in_s; lia).
  apply Z.ltb_ge in Hm1.
  assert (range_inv (PR_Ranges pr) a2) as (ts & Hst & Hso & Hle & _ & _ & Hnd & Hne).
  { revert Hm2. apply ofold_inv; [|by intros; eapply range_step_inv].
    exists []. simpl. by repeat constructor. }
  do 2 (split; [done|]). split; [lia|]. split; [lia|]. split; [done|].
  split; [eapply Forall_impl; [done|naive_solver]|].
  exists ts. split_and!; try done. eapply Forall_impl; [done|]. intros t Ht. simpl in Ht. lia.
Qed.

(** ** Duplicate detection *)

Lemma same_own_loop l st :
  (exists n v, ofold same_own_step st l = Ret (n, v)) <->
  NoDup (R_Name <$> l) /\ NoDup (R_Value <$> l) /\
  Forall (fun n => n ∉ st.1) (R_Name <$> l) /\ Forall (fun v => v ∉ st.2) (R_Value <$> l).
Proof.
  revert st. induction l as [|r l IH]; intros [n v]; simpl.
  { split; [intros _; repeat constructor|eauto]. }
  rewrite !NoDup_cons, !Forall_cons. unfold same_own_step at 1, guard_err. simpl.
  case_bool_decide as Hn; simpl; [split; [by intros (? & ? & ?)|naive_solver]|].
  case_bool_decide as Hv; simpl; [split; [by intros (? & ? & ?)|naive_solver]|].
  rewrite IH. simpl. rewrite !fresh_cons. naive_solver.
Qed.

Lemma same_own_value l n v n' v' :
  ofold same_own_step (n, v) l = Ret (n', v') ->
  n' = n ∪ list_to_set (R_Name <$> l) /\ v' = v ∪ list_to_set (R_Value <$> l).
Proof.
  revert n v. induction l as [|r l IH]; intros n v; simpl.
  { intros [= <- <-]. set_solver. }
  intros H. inv_ret. unfold same_own_step, guard_err in Hm. simpl in Hm.
  do 2 (case_bool_decide; simpl in Hm; [done|]). injection Hm as <-.
  apply IH in H as [-> ->]. set_solver.
Qed.

Lemma same_new_loop l st st' :
  ofold same_new_step st l = Ret st' <->
  st' = st /\ Forall (fun r => R_Name r ∉ st.1 /\ R_Value r ∉ st.2) l.
Proof.
  induction l as [|r l IH]; simpl.
  { split; [intros [= <-]; done|by intros [-> _]]. }
  rewrite Forall_cons. unfold same_new_step at 1, guard_err.
  case_bool_decide as Hn; simpl; [split; [done|naive_solver]|].
  case_bool_decide as Hv; simpl; [split; [done|naive_solver]|].
  rewrite IH. naive_solver.
Qed.

Lemma RangeIsSame_ret pr ranges :
  RangeIsSame pr ranges = Ret tt <->
  NoDup (R_Name <$> PR_Ranges pr) /\ NoDup (R_Value <$> PR_Ranges pr) /\
  Forall (fun r => R_Name r ∉ R_Name <$> PR_Ranges pr /\ R_Value r ∉ R_Value <$> PR_Ranges pr) ranges.
Proof.
  unfold RangeIsSame. pose proof (same_own_loop (PR_Ranges pr) (∅, ∅)) as Hl. simpl in Hl. split.
  - intros H. apply obind_ret_inv in H as ([n v] & Hm & H). apply obind_ret_inv in H as (st' & Hn & _).
    destruct (proj1 Hl) as (? & ? & _); [eauto|]. split_and!; try done.
    apply same_own_value in Hm as [-> ->]. apply same_new_loop in Hn as [_ Hn].
    eapply Forall_impl; [done|]. simpl. set_solver.
  - intros (H1 & H2 & H3). destruct (proj2 Hl) as (n & v & Hr); [by auto with vearch|].
    rewrite Hr. simpl. apply same_own_value in Hr as [-> ->].
    match goal with |- context [ofold same_new_step ?st ranges] =>
      rewrite (proj2 (same_new_loop ranges st st)) end; [done|]. split; [done|].
    eapply Forall_impl; [done|]. simpl. set_solver.
Qed.

(** The check made before ranges are added compares the new ranges with the
    rule's and never with each other: a rule accepts two new ranges of the
    same name and value, after which it no longer validates. *)
Theorem RangeIsSame_misses_new_duplicates (pr : PartitionRule) (r : Range) (ts : list Z) (t : Z) :
  stamps (PR_Ranges pr) ts -> StronglySorted Z.le ts -> ToTimestamp (R_Value r) = Ret t ->
  NoDup (R_Name <$> PR_Ranges pr) -> NoDup (R_Value <$> PR_Ranges pr) ->
  R_Name r ∉ R_Name <$> PR_Ranges pr -> R_Value r ∉ R_Value <$> PR_Ranges pr ->
  RangeIsSame pr [r; r] = Ret tt /\
  exists out, AddRanges pr [r; r] = Ret out /\ ~ NoDup (R_Name <$> out).
Proof.
  intros Hst Hso Ht Hn Hv Hrn Hrv. split; [apply RangeIsSame_ret; by repeat constructor|].
  unfold AddRanges. simpl.
  destruct (insertIntoRanges_spec _ _ r t Hst Hso Ht) as (a1 & t1 & -> & Hp1 & Hst1 & Hso1). simpl.
  destruct (insertIntoRanges_spec a1 t1 r t Hst1 Hso1 Ht) as (a2 & t2 & -> & Hp2 & _). simpl.
  exists a2. split; [done|]. rewrite Hp2, Hp1. simpl. rewrite NoDup_cons. intros [H _]. apply H. by left.
Qed.
End Rules.

(** Concrete instances: values are decimal seconds. *)
Definition sample_int64 (s : string) : option Z :=
  match s with "10" => Some 10 | "20" => Some 20 | "30" => Some 30 | _ => None end%string.
Definition sample_rule : PartitionRule :=
  {| PR_Type := "RANGE"; PR_Field := "d"; PR_Partitions := 0;
     PR_Ranges := [{| R_Name := "p1"; R_Value := "10" |}; {| R_Name := "p3"; R_Value := "30" |}] |}.
Definition range_p2 : Range := {| R_Name := "p2"; R_Value := "20" |}.

Lemma sample_rule_stamps :
  stamps sample_int64 (fun _ => None) (PR_Ranges sample_rule) [10000000000; 30000000000].
Proof. by repeat constructor. Qed.

Lemma sample_stamps_sorted : StronglySorted Z.le [10000000000; 30000000000].
Proof. repeat constructor; lia. Qed.

Lemma AddRanges_sorted_witness :
  exists out, AddRanges sample_int64 (fun _ => None) sample_rule [range_p2] = Ret out /\
    out ≡ₚ PR_Ranges sample_rule ++ [range_p2].
Proof.
  destruct (AddRanges_sorted sample_int64 (fun _ => None) sample_rule [range_p2]
    [10000000000; 30000000000] [20000000000] sample_rule_stamps sample_stamps_sorted
    ltac:(by repeat constructor)) as (out & tout & H & Hp & _).
  exists out. done.
Defined.

Lemma ValidateRange_sound_witness :
  exists pr', ValidateRange sample_int64 (fun _ => None) sample_rule sample_rule 2 = (pr', Ret tt) /\ PR_Partitions pr' = 2.
Proof.
  eexists. split; [vm_compute; reflexivity|].
  apply (ValidateRange_sound sample_int64 (fun _ => None) sample_rule _ 2); [lia|vm_compute; reflexivity].
Defined.

Lemma RangeIsSame_misses_new_duplicates_witness :
  RangeIsSame sample_rule [range_p2; range_p2] = Ret tt.
Proof.
  apply (RangeIsSame_misses_new_duplicates sample_int64 (fun _ => None) sample_rule range_p2
    [10000000000; 30000000000] 20000000000 sample_rule_stamps sample_stamps_sorted);
    try reflexivity; by apply (bool_decide_unpack _); vm_compute.
Defined.
