(* ===== verification/Bytes.v ===== *)
(** * Byte codecs (internal/pkg/cbbytes/bytes.go)

    Little-endian encodings of the field values that travel from the router to
    the engine.  A byte is a [Z] in [0, 256); a float is its IEEE bit pattern,
    so [math.Float32frombits] and its inverse are the identity on patterns. *)

From S2P Require Import Prelude.
From S2P Require Import Errors.
Open Scope Z_scope.

(** [binary.LittleEndian.PutUintN] / [binary.Write] of one fixed-size value. *)
Fixpoint le_bytes (n : nat) (z : Z) : list Z :=
  match n with
  | O => []
  | S n' => z mod 256 :: le_bytes n' (z / 256)
  end.

Fixpoint le_val (bs : list Z) : Z :=
  match bs with
  | [] => 0
  | b :: bs' => b + 256 * le_val bs'
  end.

(** [binary.LittleEndian.UintN]: reads the first bytes, with a bound check. *)
Definition le_read (n : nat) (bs : list Z) : go Z :=
  if (length bs <? n)%nat then Panic IndexRange else Ret (le_val (take n bs)).

Definition UInt32ToByte (v : Z) : list Z := le_bytes 4 v.
Definition Int32ToByte (v : Z) : list Z := le_bytes 4 (u32 v).
Definition Int64ToByte (v : Z) : list Z := le_bytes 8 (u64 v).
Definition BoolToByte (b : bool) : list Z := if b then UInt32ToByte 1 else UInt32ToByte 0.

(** Bit patterns. *)
Definition Float32ToByte (bits : Z) : list Z := le_bytes 4 bits.
Definition Float64ToByte (bits : Z) : list Z := le_bytes 8 bits.
Definition Float64ToByteNew (bits : Z) : list Z := le_bytes 8 bits.

Definition ByteToUInt64 (bs : list Z) : go Z := le_read 8 bs.
Definition Bytes2Int (bs : list Z) : go Z := let! v := le_read 8 bs in Ret (i64 v).
Definition Bytes2Int32 (bs : list Z) : go Z := let! v := le_read 4 bs in Ret (i32 v).
Definition Bytes2Long (bs : list Z) : go Z := let! v := le_read 8 bs in Ret (i64 v).
Definition ByteToFloat32 (bs : list Z) : go Z := le_read 4 bs.
Definition ByteToFloat64New (bs : list Z) : go Z := le_read 8 bs.

(** [FloatArrayByte] writes the patterns one after the other. *)
Definition FloatArrayByte (fa : list Z) : list Z := mjoin (le_bytes 4 <$> fa).
Definition VectorToByte (vector : list Z) : list Z := FloatArrayByte vector.

(** [for i := 0; i < num; i++ { ... bytes[i*4:] ... }] *)
Fixpoint read_words (num : nat) (bs : list Z) : go (list Z) :=
  match num with
  | O => Ret []
  | S num' => let! w := le_read 4 bs in let! ws := read_words num' (drop 4 bs) in Ret (w :: ws)
  end.

Definition ByteToFloat32Array (bs : list Z) : go (list Z) :=
  if negb (Z.of_nat (length bs) mod 4 =? 0) then Fail (OtherErr "input bytes not a multiple of 4")
  else read_words (length bs / 4) bs.

Definition ByteToVectorForFloat32 (bs : list Z) : go (list Z) := ByteToFloat32Array bs.

Definition ByteToUInt8Array (bs : list Z) : go (list Z) :=
  if negb (Z.of_nat (length bs) mod 4 =? 0) then Fail (OtherErr "input bytes not a multiple of 4")
  else let! ws := read_words (length bs / 4) bs in Ret (u8 <$> ws).

Definition ArrayByteFloat (bs : list Z) : go (list Z) := read_words (length bs / 4) bs.

(** The overflow test compares a [uint8] with 255 and never fires. *)
Fixpoint UInt8ArrayToByteArray (vs : list Z) : go (list Z) :=
  match vs with
  | [] => Ret []
  | v :: vs' =>
    if 255 <? v then Fail (OtherErr "byte value overflows byte constant :%v")
    else let! rest := UInt8ArrayToByteArray vs' in Ret (v :: rest)
  end.
Definition VectorBinaryToByte (vector : list Z) : go (list Z) := UInt8ArrayToByteArray vector.

(** [for i := range featureLength { result[i] = int32(bs[i]) }] *)
Definition ByteToVectorBinary (bs : list Z) (dimension : Z) : go (list Z) :=
  let featureLength := Z.quot dimension 8 in
  if featureLength <? 0 then Panic MakeSlice
  else if (length bs <? Z.to_nat featureLength)%nat then Panic IndexRange
  else Ret (take (Z.to_nat featureLength) bs).

Definition CloneBytes (b : list Z) : list Z := b.

(** [BitLen]: the loop drops 16 bits at a time, at most four times for an
    [int64]. *)
Fixpoint bitlen_loop (fuel : nat) (x n : Z) : Z * Z :=
  match fuel with
  | O => (x, n)
  | S fuel' => if 32768 <=? x then bitlen_loop fuel' (Z.shiftr x 16) (n + 16) else (x, n)
  end.

Definition BitLen (x : Z) : Z :=
  let '(x, n) := bitlen_loop 4 x 0 in
  let '(x, n) := if 128 <=? x then (Z.shiftr x 8, n + 8) else (x, n) in
  let '(x, n) := if 8 <=? x then (Z.shiftr x 4, n + 4) else (x, n) in
  let '(x, n) := if 2 <=? x then (Z.shiftr x 2, n + 2) else (x, n) in
  if 1 <=? x then n + 1 else n.

(** ** Encoding and decoding *)

Definition is_byte (b : Z) : Prop := 0 <= b < 256.

Lemma length_le_bytes n z : length (le_bytes n z) = n.
Proof. revert z. induction n; intros; simpl; auto. Qed.

Lemma le_bytes_byte n z : Forall is_byte (le_bytes n z).
Proof. revert z. induction n; intros; simpl; constructor; auto. unfold is_byte. apply Z.mod_pos_bound. lia. Qed.

Lemma le_val_bytes n z : le_val (le_bytes n z) = z mod 256 ^ Z.of_nat n.
Proof.
  revert z. induction n as [|n IH]; intros z; [by rewrite Z.mod_1_r|].
  cbn [le_bytes le_val]. rewrite IH, Nat2Z.inj_succ, Z.pow_succ_r by lia.
  rewrite Z.rem_mul_r; [done|lia|apply Z.pow_pos_nonneg; lia].
Qed.

Lemma le_bytes_val bs : Forall is_byte bs -> le_bytes (length bs) (le_val bs) = bs.
Proof.
  induction 1 as [|b bs Hb _ IH]; [done|]. cbn [length le_val le_bytes]. unfold is_byte in Hb.
  rewrite (Z.mul_comm 256), Z_mod_plus_full, Z.div_add by lia.
  rewrite (Z.mod_small b 256), (Z.div_small b 256) by lia. f_equal. done.
Qed.

Lemma le_read_app n z rest :
  le_read n (le_bytes n z ++ rest) = Ret (z mod 256 ^ Z.of_nat n).
Proof.
  unfold le_read. rewrite length_app, length_le_bytes.
  destruct (Nat.ltb_spec (n + length rest) n); [lia|].
  by rewrite take_app_length', le_val_bytes by (by rewrite length_le_bytes).
Qed.

Lemma le_read_bytes n z : le_read n (le_bytes n z) = Ret (z mod 256 ^ Z.of_nat n).
Proof. rewrite <- (app_nil_r (le_bytes n z)). apply le_read_app. Qed.

Lemma Bytes2Int_Int64ToByte v : in_s 64 v -> Bytes2Int (Int64ToByte v) = Ret v.
Proof.
  intros Hv. unfold Bytes2Int, Int64ToByte. rewrite le_read_bytes. simpl obind.
  change (256 ^ Z.of_nat 8) with (2 ^ 64). rewrite Z.mod_small by (apply (wrap_u_range 64); lia).
  unfold u64, i64. by rewrite wrap_s_wrap_u, wrap_s_id.
Qed.

Lemma Bytes2Int32_Int32ToByte v : in_s 32 v -> Bytes2Int32 (Int32ToByte v) = Ret v.
Proof.
  intros Hv. unfold Bytes2Int32, Int32ToByte. rewrite le_read_bytes. simpl obind.
  change (256 ^ Z.of_nat 4) with (2 ^ 32). rewrite Z.mod_small by (apply (wrap_u_range 32); lia).
  unfold u32, i32. by rewrite wrap_s_wrap_u, wrap_s_id.
Qed.

(** What is written for an int64, an int32 or a date is what is read back. *)
Theorem int_codec_roundtrip (v : Z) :
  (in_s 64 v -> Bytes2Int (Int64ToByte v) = Ret v /\ Bytes2Long (Int64ToByte v) = Ret v) /\
  (in_s 32 v -> Bytes2Int32 (Int32ToByte v) = Ret v).
Proof.
  split; [|apply Bytes2Int32_Int32ToByte]. intros Hv. split; by apply Bytes2Int_Int64ToByte.
Qed.

Lemma int_codec_roundtrip_witness :
  in_s 64 (-5) /\ Bytes2Int (Int64ToByte (-5)) = Ret (-5).
Proof.
  assert (in_s 64 (-5)) as H by (unfold in_s; lia). split; [done|].
  apply (int_codec_roundtrip (-5)). done.
Defined.

Lemma FloatArrayByte_cons f fa : FloatArrayByte (f :: fa) = le_bytes 4 f ++ FloatArrayByte fa.
Proof. reflexivity. Qed.

Lemma length_FloatArrayByte fa : length (FloatArrayByte fa) = (4 * length fa)%nat.
Proof.
  induction fa as [|f fa IH]; [done|].
  rewrite FloatArrayByte_cons, length_app, length_le_bytes, IH. cbn [length]. lia.
Qed.

Lemma read_words_FloatArrayByte fa :
  Forall (in_u 32) fa -> read_words (length fa) (FloatArrayByte fa) = Ret fa.
Proof.
  induction 1 as [|f fa Hf _ IH]; [done|].
  rewrite FloatArrayByte_cons. cbn [length read_words].
  rewrite le_read_app. cbn [obind].
  rewrite drop_app_length' by (by rewrite length_le_bytes). rewrite IH. cbn [obind].
  change (256 ^ Z.of_nat 4) with (2 ^ 32). by rewrite Z.mod_small.
Qed.

Lemma ByteToVectorForFloat32_VectorToByte vector :
  Forall (in_u 32) vector -> ByteToVectorForFloat32 (VectorToByte vector) = Ret vector.
Proof.
  intros Hv. unfold VectorToByte, ByteToVectorForFloat32, ByteToFloat32Array.
  rewrite length_FloatArrayByte.
  replace (Z.of_nat (4 * length vector) mod 4) with 0 by (symmetry; apply Z.mod_divide; [lia|exists (Z.of_nat (length vector)); lia]).
  simpl negb. cbv iota. rewrite Nat.mul_comm, Nat.div_mul by lia. by apply read_words_FloatArrayByte.
Qed.

Lemma UInt8ArrayToByteArray_same l l' : UInt8ArrayToByteArray l = Ret l' -> l' = l.
Proof.
  induction l as [|v l IH] in l' |- *; simpl; intros H; [by injection H|].
  destruct (255 <? v); [done|]. inv_ret. subst. f_equal. auto.
Qed.

(** A float vector survives the trip to bytes and back, in four bytes per
    component. *)
Theorem vector_codec_roundtrip (vector : list Z) :
  Forall (in_u 32) vector ->
  length (VectorToByte vector) = (4 * length vector)%nat /\
  ByteToVectorForFloat32 (VectorToByte vector) = Ret vector.
Proof. intros Hv. split; [apply length_FloatArrayByte|by apply ByteToVectorForFloat32_VectorToByte]. Qed.

Lemma vector_codec_roundtrip_witness :
  ByteToVectorForFloat32 (VectorToByte [1065353216; 0; 3212836864]) = Ret [1065353216; 0; 3212836864].
Proof.
  apply (vector_codec_roundtrip [1065353216; 0; 3212836864]).
  repeat constructor; unfold in_u; lia.
Defined.

(** ** Bit length *)

Definition bit_length (x : Z) : Z := if x <=? 0 then 0 else Z.log2 x + 1.

Lemma bit_length_shift x k :
  1 <= k -> 2 ^ (k - 1) <= x -> bit_length x = k + bit_length (Z.shiftr x k).
Proof.
  intros Hk Hx. unfold bit_length.
  assert (0 < 2 ^ (k - 1)) by (apply Z.pow_pos_nonneg; lia).
  assert (k - 1 <= Z.log2 x) by (apply Z.log2_le_pow2; lia).
  destruct (Z.leb_spec x 0); [lia|].
  destruct (Z.leb_spec (Z.shiftr x k) 0) as [Hs|Hs].
  - rewrite Z.shiftr_div_pow2 in Hs by lia.
    assert (x < 2 ^ k) as Hlt.
    { destruct (Z.lt_ge_cases x (2 ^ k)) as [|Hge]; [done|].
      assert (1 <= x / 2 ^ k) by (apply Z.div_le_lower_bound; [apply Z.pow_pos_nonneg; lia|lia]). lia. }
    assert (Z.log2 x < k) by (apply Z.log2_lt_pow2; lia). lia.
  - rewrite Z.log2_shiftr by lia.
    assert (2 ^ k <= x) as Hge.
    { rewrite Z.shiftr_div_pow2 in Hs by lia. destruct (Z.lt_ge_cases x (2 ^ k)); [|done].
      rewrite Z.div_small in Hs; lia. }
    assert (k <= Z.log2 x) by (apply Z.log2_le_pow2; lia). lia.
Qed.

Lemma shiftr_bound x a b : 0 <= b <= a -> x < 2 ^ a -> Z.shiftr x b < 2 ^ (a - b).
Proof.
  intros Hb Hx. rewrite Z.shiftr_div_pow2 by lia.
  apply Z.div_lt_upper_bound; [apply Z.pow_pos_nonneg; lia|].
  rewrite <- Z.pow_add_r by lia. by replace (b + (a - b)) with a by lia.
Qed.

Lemma bitlen_loop_spec fuel x n :
  x < 2 ^ (16 * Z.of_nat fuel) ->
  let '(x', n') := bitlen_loop fuel x n in n' + bit_length x' = n + bit_length x /\ x' < 32768.
Proof.
  revert x n. induction fuel as [|fuel IH]; intros x n Hx; cbn [bitlen_loop].
  - simpl in Hx. split; lia.
  - destruct (Z.leb_spec 32768 x) as [Hge|Hlt]; [|done].
    specialize (IH (Z.shiftr x 16) (n + 16)).
    destruct (bitlen_loop fuel (Z.shiftr x 16) (n + 16)) as [x' n'].
    rewrite (bit_length_shift x 16) by (simpl; lia).
    destruct IH as [IH1 IH2]; [|split; [lia|done]].
    replace (16 * Z.of_nat fuel) with (16 * Z.of_nat (S fuel) - 16) by lia.
    apply shiftr_bound; lia.
Qed.

Lemma bitlen_cut k x n :
  1 <= k -> let '(x', n') := if 2 ^ (k - 1) <=? x then (Z.shiftr x k, n + k) else (x, n) in
  n' + bit_length x' = n + bit_length x /\ (x < 2 ^ (2 * k - 1) -> x' < 2 ^ (k - 1)).
Proof.
  intros Hk. destruct (Z.leb_spec (2 ^ (k - 1)) x).
  - rewrite (bit_length_shift x k) by lia. split; [lia|]. intros Hx.
    replace (k - 1) with (2 * k - 1 - k) by lia. apply shiftr_bound; lia.
  - done.
Qed.

(** [BitLen] is the position of the highest set bit of any [int64], zero for
    the others. *)
Theorem BitLen_correct (x : Z) :
  in_s 64 x -> BitLen x = (if x <=? 0 then 0 else Z.log2 x + 1).
Proof.
  intros [_ Hx]. change (BitLen x = bit_length x). unfold BitLen.
  pose proof (bitlen_loop_spec 4 x 0) as H0. destruct (bitlen_loop 4 x 0) as [x0 n0].
  destruct H0 as [E0 B0]; [simpl; lia|].
  pose proof (bitlen_cut 8 x0 n0 ltac:(lia)) as H1. change (2 ^ (8 - 1)) with 128 in H1.
  destruct (if 128 <=? x0 then _ else _) as [x1 n1]. destruct H1 as [E1 B1]. specialize (B1 ltac:(simpl; lia)).
  pose proof (bitlen_cut 4 x1 n1 ltac:(lia)) as H2. change (2 ^ (4 - 1)) with 8 in H2.
  destruct (if 8 <=? x1 then _ else _) as [x2 n2]. destruct H2 as [E2 B2]. specialize (B2 ltac:(simpl; lia)).
  pose proof (bitlen_cut 2 x2 n2 ltac:(lia)) as H3. change (2 ^ (2 - 1)) with 2 in H3.
  destruct (if 2 <=? x2 then _ else _) as [x3 n3]. destruct H3 as [E3 B3]. specialize (B3 ltac:(simpl; lia)).
  assert (bit_length x = n3 + bit_length x3) as -> by lia. unfold bit_length.
  destruct (Z.leb_spec 1 x3); destruct (Z.leb_spec x3 0); try lia.
  assert (x3 = 1) as -> by lia. simpl. lia.
Qed.

Lemma BitLen_correct_witness : in_s 64 1000000 /\ BitLen 1000000 = 20.
Proof.
  assert (in_s 64 1000000) as H by (unfold in_s; lia). split; [done|].
  rewrite (BitLen_correct 1000000 H). reflexivity.
Defined.
