(* ===== verification/Space.v ===== *)
(** * Spaces and their slots (internal/entity/space.go, space_service.go)

    A space splits the 32-bit hash range into slots, one per partition.  This
    file has the space record, the lookup of the partition that owns a hash
    ([PartitionId]), the lookup by range field, and the three places that lay
    slots out: [CreateSpace], [expandPartitions] and
    [updateSpacePartitonRule]. *)

From S2P Require Import Prelude.
From S2P Require Import Errors.
From S2P Require Import Schema.
From S2P Require Import Partition.
From S2P Require Import Bytes.
Open Scope Z_scope.

Record Space : Type := {
  S_Id : Z;
  S_Desc : string;
  S_Name : string;
  S_ResourceName : string;
  S_Version : Z;
  S_DBId : Z;
  S_Enabled : option bool;
  S_Partitions : list Partition;
  S_PartitionNum : Z;
  S_ReplicaNum : Z;                            (** uint8 *)
  S_Fields : string;                           (** JSON *)
  S_Indexes : list Index;
  S_PartitionRule : option PartitionRule;
  S_SpaceProperties : gmap string SpaceProperties;
  S_RefreshInterval : option Z;
  S_PartitionName : option string;
  S_PartitionOperatorType : option string;
  S_EnableIdCache : option bool;
  S_EnableRealtime : option bool
}.

Record SpaceConfig : Type := {
  C_Id : Z; C_DBId : Z; C_EngineCacheSize : option Z; C_Path : option string; C_SlowSearchTime : option Z;
  C_RefreshInterval : option Z; C_EnableIdCache : option bool
}.

(** Assignments to the fields the services change. *)
Definition put_S (name : string) (version : Z) (enabled : option bool) (ps : list Partition) (num : Z) (fields : string)
    (indexes : list Index) (rule : option PartitionRule) (props : gmap string SpaceProperties) (pname op : option string) (s : Space) : Space :=
  {| S_Id := S_Id s; S_Desc := S_Desc s; S_Name := name; S_ResourceName := S_ResourceName s; S_Version := version; S_DBId := S_DBId s;
     S_Enabled := enabled; S_Partitions := ps; S_PartitionNum := num; S_ReplicaNum := S_ReplicaNum s; S_Fields := fields;
     S_Indexes := indexes; S_PartitionRule := rule; S_SpaceProperties := props; S_RefreshInterval := S_RefreshInterval s;
     S_PartitionName := pname; S_PartitionOperatorType := op; S_EnableIdCache := S_EnableIdCache s; S_EnableRealtime := S_EnableRealtime s |}.

Definition set_S_Partitions (ps : list Partition) (s : Space) : Space :=
  put_S (S_Name s) (S_Version s) (S_Enabled s) ps (S_PartitionNum s) (S_Fields s) (S_Indexes s) (S_PartitionRule s)
    (S_SpaceProperties s) (S_PartitionName s) (S_PartitionOperatorType s) s.

Definition set_P_Slot (slot : Z) (p : Partition) : Partition :=
  {| P_Id := P_Id p; P_Name := P_Name p; P_SpaceId := P_SpaceId p; P_DBId := P_DBId p;
     P_Slot := slot; P_LeaderID := P_LeaderID p; P_Replicas := P_Replicas p;
     P_UpdateTime := P_UpdateTime p; P_AddNum := P_AddNum p;
     P_ResourceExhausted := P_ResourceExhausted p; P_Path := P_Path p;
     P_status := P_status p; P_ReStatusMap := P_ReStatusMap p |}.

(** [&entity.Partition{Id: ..., Name: ..., SpaceId: ..., DBId: ..., Slot: ...}] *)
Definition new_partition (id : Z) (name : string) (spaceId dbId slot : Z) : Partition :=
  {| P_Id := id; P_Name := name; P_SpaceId := spaceId; P_DBId := dbId; P_Slot := slot;
     P_LeaderID := 0; P_Replicas := []; P_UpdateTime := 0; P_AddNum := 0;
     P_ResourceExhausted := false; P_Path := ""; P_status := PA_UNKNOW; P_ReStatusMap := ∅ |}.

(** ** Lookups *)

Fixpoint find_partition (ps : list Partition) (id : Z) : option Partition :=
  match ps with
  | [] => None
  | p :: ps' => if P_Id p =? id then Some p else find_partition ps' id
  end.

Definition GetPartition (s : Space) (id : Z) : option Partition := find_partition (S_Partitions s) id.

(** The search loop of [PartitionId] and the access that follows it.  The
    interval shrinks in every turn, so the number of partitions is enough fuel
    ([slot_search_spec]). *)
Fixpoint slot_search (fuel : nat) (arr : list Partition) (slotID low high : Z) : go Z :=
  if low <=? high then
    match fuel with
    | O => Panic IndexRange
    | S fuel' =>
      let mid := Z.shiftr (low + high) 1 in
      let! p := index_at arr mid in
      let midVal := P_Slot p in
      if slotID <? midVal then slot_search fuel' arr slotID low (mid - 1)
      else if midVal <? slotID then slot_search fuel' arr slotID (mid + 1) high
      else let! q := index_at arr mid in Ret (P_Id q)
    end
  else let! p := index_at arr (low - 1) in Ret (P_Id p).

Definition PartitionId (s : Space) (slotID : Z) : go Z :=
  let arr := S_Partitions s in
  if (length arr =? 1)%nat then let! p := index_at arr 0 in Ret (P_Id p)
  else slot_search (length arr) arr slotID 0 (Z.of_nat (length arr) - 1).

Section ByRange.
Context (ToInt64E ToTimeE : string -> option Z).

(** The first range whose upper bound is above [ts]; [ToTimestamp]'s error is
    dropped by the code, which leaves its zero value. *)
Fixpoint range_of (ranges : list Range) (ts : Z) : go (option string) :=
  match ranges with
  | [] => Ret None
  | r :: ranges' =>
    let! value := match ToTimestamp ToInt64E ToTimeE (R_Value r) with Fail _ => Ret 0 | m => m end in
    if ts <? value then Ret (Some (R_Name r)) else range_of ranges' ts
  end.

Definition PartitionIdsByRangeField (s : Space) (value : list Z) : go (list Z) :=
  let arr := S_Partitions s in
  if (length arr =? 1)%nat then let! p := index_at arr 0 in Ret [P_Id p]
  else
    let! ts := Bytes2Int value in
    let! rule := match S_PartitionRule s with Some r => Ret r | None => Panic NilDeref end in
    let! found := range_of (PR_Ranges rule) ts in
    match found with
    | None => Fail (verr PARAM_ERROR "can't set partition for field value %s, space ranges %v")
    | Some partition_name => Ret (P_Id <$> filter (fun p => P_Name p = partition_name) arr)
    end.
End ByRange.

(** ** Slot layout *)

(** [int] division by a value that may be zero. *)
Definition go_div (a b : Z) : go Z := if b =? 0 then Panic DivZero else Ret (Z.quot a b).

(** The two creation loops of [CreateSpace].  [ids i] is what the [i]-th call
    of [NewIDGenerate] returns. *)
Definition create_partitions (s : Space) (ids : nat -> go Z) : go (list Partition) :=
  match S_PartitionRule s with
  | Some rule =>
    let num := i64 (S_PartitionNum s * PR_Partitions rule) in
    let! slotWidth := go_div MaxUint32 num in
    ofold (fun ps i =>
      let! id := ids i in
      let! r := index_at (PR_Ranges rule) (Z.quot (Z.of_nat i) (S_PartitionNum s)) in
      Ret (ps ++ [new_partition (u32 id) (R_Name r) (S_Id s) (S_DBId s) (u32 (i64 (Z.of_nat i * slotWidth)))]))
      [] (seq 0 (Z.to_nat num))
  | None =>
    let! slotWidth := go_div MaxUint32 (S_PartitionNum s) in
    ofold (fun ps i =>
      let! id := ids i in
      Ret (ps ++ [new_partition (u32 id) "" (S_Id s) (S_DBId s) (u32 (i64 (Z.of_nat i * slotWidth)))]))
      [] (seq 0 (Z.to_nat (S_PartitionNum s)))
  end.

(** [Partitions[i].Slot = slot] *)
Definition set_slot_at (ps : list Partition) (i : nat) (slot : Z) : go (list Partition) :=
  let! p := index_at ps (Z.of_nat i) in Ret (<[i := set_P_Slot slot p]> ps).

(** The slot loop of [expandPartitions], in [uint32] arithmetic;
    [space.PartitionNum] and [space.Partitions] are already updated there. *)
Definition reslot_expand (num : Z) (ps : list Partition) : go (list Partition) :=
  let! slotWidth := go_div MaxUint32 (u32 num) in
  ofold (fun ps i => set_slot_at ps i (u32 (u32 (Z.of_nat i) * slotWidth))) ps (seq 0 (Z.to_nat num)).

(** The slot loop at the end of [updateSpacePartitonRule], in [int]
    arithmetic. *)
Definition reslot_rule (num partitions : Z) (ps : list Partition) : go (list Partition) :=
  let total := i64 (num * partitions) in
  let! slotWidth := go_div MaxUint32 total in
  ofold (fun ps i => set_slot_at ps i (u32 (i64 (Z.of_nat i * slotWidth)))) ps (seq 0 (Z.to_nat total)).

(** ** The owner of a slot *)

(** The [i]-th partition owns the slots from its own up to the next one's. *)
Definition owns (ps : list Partition) (slotID : Z) (i : nat) : Prop :=
  (exists p, ps !! i = Some p /\ P_Slot p <= slotID) /\
  (forall q, ps !! S i = Some q -> slotID < P_Slot q).

Definition slots_ok (ps : list Partition) : Prop :=
  StronglySorted Z.lt (P_Slot <$> ps) /\ exists p, ps !! 0%nat = Some p /\ P_Slot p = 0.

Lemma slots_lt ps i j p q :
  StronglySorted Z.lt (P_Slot <$> ps) -> ps !! i = Some p -> ps !! j = Some q -> (i < j)%nat ->
  P_Slot p < P_Slot q.
Proof.
  intros Hs Hi Hj. apply (ssorted_lookup _ _ i j _ _ Hs); rewrite list_lookup_fmap; [by rewrite Hi|by rewrite Hj].
Qed.

Lemma owns_unique ps slotID i j :
  StronglySorted Z.lt (P_Slot <$> ps) -> owns ps slotID i -> owns ps slotID j -> i = j.
Proof.
  intros Hs.
  assert (forall a b, owns ps slotID a -> owns ps slotID b -> ~ (a < b)%nat) as Hcut.
  { intros a b [_ Ha] [(q & Hq & Hle) _] Hlt.
    destruct (lookup_lt_is_Some_2 ps (S a)) as [n Hn].
    { apply lookup_lt_Some in Hq. lia. }
    pose proof (Ha n Hn). destruct (decide (S a = b)) as [<-|]; [simplify_eq; lia|].
    pose proof (slots_lt ps (S a) b n q Hs Hn Hq ltac:(lia)). lia. }
  intros Hi Hj. pose proof (Hcut i j Hi Hj). pose proof (Hcut j i Hj Hi). lia.
Qed.

Lemma shiftr_mid low high : low <= high -> low <= Z.shiftr (low + high) 1 <= high.
Proof. intros H. rewrite Z.shiftr_div_pow2 by lia. change (2 ^ 1) with 2. split; [apply Z.div_le_lower_bound|apply Z.div_le_upper_bound]; lia. Qed.

(** The search, from an interval outside of which the answer is known. *)
Lemma slot_search_spec arr slotID : forall fuel low high,
  StronglySorted Z.lt (P_Slot <$> arr) ->
  0 <= low <= high + 1 -> high < Z.of_nat (length arr) -> high - low + 1 <= Z.of_nat fuel ->
  (exists p, arr !! 0%nat = Some p /\ P_Slot p <= slotID) ->
  (forall k p, arr !! k = Some p -> Z.of_nat k < low -> P_Slot p < slotID) ->
  (forall k p, arr !! k = Some p -> high < Z.of_nat k -> slotID < P_Slot p) ->
  exists i p, arr !! i = Some p /\ owns arr slotID i /\ slot_search fuel arr slotID low high = Ret (P_Id p).
Proof.
  induction fuel as [|fuel IH]; intros low high Hs Hlow Hhigh Hfuel (p0 & Hp0 & Hle0) Hbelow Habove;
    cbn [slot_search]; destruct (Z.leb_spec low high) as [Hlh|Hlh]; [lia| | |].
  2: { pose proof (shiftr_mid low high Hlh) as Hmid. set (mid := Z.shiftr (low + high) 1) in *. cbn zeta.
    destruct (lookup_lt_is_Some_2 arr (Z.to_nat mid)) as [pm Hpm]; [lia|].
    rewrite (index_at_lookup _ _ pm) by (done || lia). cbn [obind].
    destruct (Z.ltb_spec slotID (P_Slot pm)); [|destruct (Z.ltb_spec (P_Slot pm) slotID)].
    - apply IH; [done|lia|lia|lia|by eauto|done|]. intros k p Hk Hkm.
      destruct (decide (k = Z.to_nat mid)) as [->|]; [congruence|].
      pose proof (slots_lt arr _ k pm p Hs Hpm Hk ltac:(lia)). lia.
    - apply IH; [done|lia|lia|lia|by eauto| |done]. intros k p Hk Hkm.
      destruct (decide (k = Z.to_nat mid)) as [->|]; [congruence|].
      pose proof (slots_lt arr k _ p pm Hs Hk Hpm ltac:(lia)). lia.
    - exists (Z.to_nat mid), pm. split_and!; [done| |done]. split; [exists pm; split; [done|lia]|].
      intros q Hq. pose proof (slots_lt arr _ _ pm q Hs Hpm Hq ltac:(lia)). lia. }
  all: destruct (decide (low = 0)) as [->|Hnz];
    [pose proof (Habove 0%nat p0 Hp0 ltac:(lia)); lia|];
    destruct (lookup_lt_is_Some_2 arr (Z.to_nat (low - 1))) as [p Hp]; [lia|];
    rewrite (index_at_lookup _ _ p) by (done || lia); cbn [obind];
    exists (Z.to_nat (low - 1)), p; split_and!; [done| |done]; split;
    [exists p; split; [done|pose proof (Hbelow _ _ Hp); lia]
    |intros q Hq; apply (Habove _ _ Hq); lia].
Qed.

Lemma PartitionId_owns s slotID :
  slots_ok (S_Partitions s) -> 0 <= slotID ->
  exists i p, S_Partitions s !! i = Some p /\ owns (S_Partitions s) slotID i /\ PartitionId s slotID = Ret (P_Id p).
Proof.
  intros (Hs & p0 & Hp0 & Hz) Hslot. unfold PartitionId. set (arr := S_Partitions s) in *. clearbody arr.
  cbn zeta. destruct (Nat.eqb_spec (length arr) 1) as [Hone|Hmany].
  - rewrite (index_at_lookup _ _ p0) by (done || lia). exists 0%nat, p0.
    split_and!; [done| |done]. split; [exists p0; split; [done|lia]|].
    intros q Hq%lookup_lt_Some. lia.
  - apply slot_search_spec; [done|lia|lia|lia|exists p0; split; [done|lia]|lia|].
    intros k p Hk ?. apply lookup_lt_Some in Hk. lia.
Qed.

(** On a space whose slots start at zero and increase, [PartitionId] always
    returns, for every hash, the id of the one partition whose slot range
    contains the hash.  (C1) *)
Theorem PartitionId_owner (s : Space) (slotID : Z) :
  slots_ok (S_Partitions s) -> 0 <= slotID ->
  exists i p,
    S_Partitions s !! i = Some p /\ owns (S_Partitions s) slotID i /\
    (forall j, owns (S_Partitions s) slotID j -> j = i) /\
    PartitionId s slotID = Ret (P_Id p).
Proof.
  intros Hok Hslot. destruct (PartitionId_owns s slotID Hok Hslot) as (i & p & Hp & Ho & Heq).
  exists i, p. split_and!; [done..| |done]. intros j Hj. by apply (owns_unique _ _ _ _ (proj1 Hok) Hj Ho).
Qed.

Lemma PartitionId_owner_witness :
  let s := {| S_Id := 7; S_Desc := ""; S_Fields := ""; S_Name := "s"; S_ResourceName := "default"; S_Version := 0; S_DBId := 1;
              S_Enabled := None; S_Partitions := [new_partition 5 "" 7 1 0; new_partition 9 "" 7 1 100];
              S_PartitionNum := 2; S_ReplicaNum := 1; S_Indexes := []; S_PartitionRule := None;
              S_SpaceProperties := ∅; S_RefreshInterval := None; S_PartitionName := None;
              S_PartitionOperatorType := None; S_EnableIdCache := None; S_EnableRealtime := None |} in
  exists i p, S_Partitions s !! i = Some p /\ PartitionId s 150 = Ret (P_Id p).
Proof.
  intros s. destruct (PartitionId_owner s 150) as (i & p & Hp & _ & _ & Heq); [|lia|by exists i, p].
  split; [|by eexists]. repeat constructor.
Defined.

(** ** Slot layout *)

(** The slots as multiples of one width. *)
Definition laid_out (ps : list Partition) : Prop :=
  P_Slot <$> ps = (fun i => Z.of_nat i * (MaxUint32 / Z.of_nat (length ps))) <$> seq 0 (length ps).

Lemma laid_out_lookup ps i p :
  laid_out ps -> ps !! i = Some p -> P_Slot p = Z.of_nat i * (MaxUint32 / Z.of_nat (length ps)).
Proof.
  intros Hl Hp. pose proof (lookup_lt_Some _ _ _ Hp) as Hlt.
  assert ((P_Slot <$> ps) !! i = Some (P_Slot p)) as Hs by (by rewrite list_lookup_fmap, Hp).
  unfold laid_out in Hl. rewrite Hl, list_lookup_fmap, lookup_seq_lt in Hs by done.
  simpl in Hs. by injection Hs.
Qed.

Lemma width_pos n : 1 <= n <= MaxUint32 -> 1 <= MaxUint32 / n.
Proof. intros. apply Z.div_le_lower_bound; lia. Qed.

Lemma width_mul i n : 1 <= n -> 0 <= i < n -> 0 <= i * (MaxUint32 / n) <= MaxUint32.
Proof.
  intros Hn Hi. pose proof (Z.mul_div_le MaxUint32 n ltac:(lia)).
  pose proof (Z.div_pos MaxUint32 n ltac:(unfold MaxUint32; lia) ltac:(lia)). nia.
Qed.

Lemma slot_no_wrap i n : 1 <= n <= MaxUint32 -> 0 <= i < n ->
  u32 (i64 (i * (MaxUint32 / n))) = i * (MaxUint32 / n) /\
  u32 (u32 i * (MaxUint32 / n)) = i * (MaxUint32 / n).
Proof.
  intros Hn Hi. pose proof (width_mul i n ltac:(lia) Hi) as Hw. unfold MaxUint32 in *. unfold u32, i64.
  rewrite (wrap_s_id 64) by (unfold in_s; lia). rewrite (wrap_u_id 32 i) by (unfold in_u; lia).
  rewrite (wrap_u_id 32) by (unfold in_u; lia). done.
Qed.

Lemma ssorted_multiples w k n :
  1 <= w -> StronglySorted Z.lt ((fun i => Z.of_nat i * w) <$> seq k n).
Proof.
  intros Hw. induction n as [|n IH] in k |- *; simpl; constructor; [apply IH|].
  apply Forall_fmap, Forall_seq. intros j Hj. simpl. nia.
Qed.

Lemma laid_out_slots_ok ps :
  laid_out ps -> 1 <= Z.of_nat (length ps) <= MaxUint32 -> slots_ok ps.
Proof.
  intros Hl Hn. pose proof (width_pos _ Hn) as Hw. split.
  - unfold laid_out in Hl. rewrite Hl. by apply ssorted_multiples.
  - destruct (lookup_lt_is_Some_2 ps 0%nat ltac:(lia)) as [p Hp]. exists p. split; [done|].
    rewrite (laid_out_lookup ps 0 p) by done. lia.
Qed.

(** With this layout the search is a division. *)
Lemma laid_out_owner ps slotID i :
  laid_out ps -> 1 <= Z.of_nat (length ps) <= MaxUint32 -> 0 <= slotID -> owns ps slotID i ->
  Z.of_nat i = Z.min (slotID / (MaxUint32 / Z.of_nat (length ps))) (Z.of_nat (length ps) - 1).
Proof.
  intros Hl Hn Hs [(p & Hp & Hle) Hnext]. pose proof (width_pos _ Hn) as Hw.
  rewrite (laid_out_lookup ps i p Hl Hp) in Hle.
  pose proof (lookup_lt_Some _ _ _ Hp). set (w := MaxUint32 / Z.of_nat (length ps)) in *.
  destruct (decide (S i = length ps)) as [Hlast|Hmid].
  - assert (Z.of_nat i <= slotID / w) by (apply Z.div_le_lower_bound; lia). lia.
  - destruct (lookup_lt_is_Some_2 ps (S i) ltac:(lia)) as [q Hq].
    pose proof (Hnext q Hq) as Hlt. rewrite (laid_out_lookup ps (S i) q Hl Hq) in Hlt. fold w in Hlt.
    assert (slotID / w = Z.of_nat i) as ->; [|lia].
    symmetry. apply Z.div_unique with (slotID - Z.of_nat i * w); lia.
Qed.

Lemma go_div_ret a b w : go_div a b = Ret w -> 0 <= a -> 0 < b -> w = a / b /\ b <> 0.
Proof.
  unfold go_div. intros H Ha Hb. destruct (Z.eqb_spec b 0); [done|].
  injection H as <-. by rewrite Z.quot_div_nonneg by lia.
Qed.

(** Building the list partition by partition. *)
Lemma build_slots (step : list Partition -> nat -> go (list Partition)) (slot : nat -> Z) n ps :
  (forall acc i acc', step acc i = Ret acc' -> exists p, acc' = acc ++ [p] /\ P_Slot p = slot i) ->
  ofold step [] (seq 0 n) = Ret ps ->
  P_Slot <$> ps = slot <$> seq 0 n.
Proof.
  intros Hstep. apply (ofold_inv step (fun l acc => P_Slot <$> acc = slot <$> l)); [done|].
  intros l x acc acc' HI Hacc. destruct (Hstep _ _ _ Hacc) as (p & -> & Hp).
  by rewrite !fmap_app, HI; simpl; rewrite Hp.
Qed.

Lemma slots_of_width ps n :
  1 <= n <= MaxUint32 ->
  P_Slot <$> ps = (fun i => u32 (i64 (Z.of_nat i * (MaxUint32 / n)))) <$> seq 0 (Z.to_nat n) ->
  Z.of_nat (length ps) = n /\ laid_out ps.
Proof.
  intros Hn Hps. assert (Z.of_nat (length ps) = n) as Hlen.
  { apply (f_equal length) in Hps. rewrite !length_fmap, length_seq in Hps. lia. }
  split; [done|]. unfold laid_out. rewrite Hps, Hlen. replace (length ps) with (Z.to_nat n) by lia.
  apply list_fmap_ext. intros i x Hx. apply lookup_seq in Hx as [-> Hi].
  apply slot_no_wrap; lia.
Qed.

(** How many partitions [CreateSpace] makes. *)
Definition total_partitions (s : Space) : Z :=
  match S_PartitionRule s with
  | Some r => S_PartitionNum s * PR_Partitions r
  | None => S_PartitionNum s
  end.

(** What [PartitionRule.Validate] has established before the layout: the
    number of ranges is recorded. *)
Definition rule_counted (s : Space) : Prop :=
  match S_PartitionRule s with
  | Some r => PR_Partitions r = Z.of_nat (length (PR_Ranges r))
  | None => True
  end.

(** The name the [i]-th partition gets. *)
Definition partition_name_at (s : Space) (i : nat) : option string :=
  match S_PartitionRule s with
  | Some r => R_Name <$> PR_Ranges r !! Z.to_nat (Z.of_nat i / S_PartitionNum s)
  | None => Some ""
  end.

(** Both branches of [CreateSpace] are the same loop, up to the name. *)
Lemma create_partitions_loop s ids :
  1 <= S_PartitionNum s -> rule_counted s -> 1 <= total_partitions s <= MaxUint32 ->
  exists name_at,
    create_partitions s ids =
      ofold (fun ps i =>
        let! id := ids i in let! name := name_at i in
        Ret (ps ++ [new_partition (u32 id) name (S_Id s) (S_DBId s)
                      (u32 (i64 (Z.of_nat i * (MaxUint32 / total_partitions s))))]))
        [] (seq 0 (Z.to_nat (total_partitions s))) /\
    forall i, Z.of_nat i < total_partitions s ->
      exists name, partition_name_at s i = Some name /\ name_at i = Ret name.
Proof.
  intros Hnum Hrule Htot. unfold total_partitions, rule_counted, partition_name_at, create_partitions in *.
  destruct (S_PartitionRule s) as [r|].
  - exists (fun i => let! r := index_at (PR_Ranges r) (Z.quot (Z.of_nat i) (S_PartitionNum s)) in Ret (R_Name r)).
    assert (i64 (S_PartitionNum s * PR_Partitions r) = S_PartitionNum s * PR_Partitions r) as ->
      by (apply wrap_s_id; unfold in_s, MaxUint32 in *; lia).
    unfold go_div. destruct (Z.eqb_spec (S_PartitionNum s * PR_Partitions r) 0); [lia|]. cbn [obind].
    rewrite Z.quot_div_nonneg by (unfold MaxUint32; lia). split.
    + apply ofold_ext. intros ps i.
      destruct (ids i); cbn [obind]; [|done..]. by destruct (index_at _ _).
    + intros i Hi. rewrite Z.quot_div_nonneg by lia.
      assert (0 <= Z.of_nat i / S_PartitionNum s < PR_Partitions r) as Hlt.
      { split; [apply Z.div_pos; lia|apply Z.div_lt_upper_bound; lia]. }
      destruct (lookup_lt_is_Some_2 (PR_Ranges r) (Z.to_nat (Z.of_nat i / S_PartitionNum s))) as [x Hx]; [lia|].
      rewrite Hx, (index_at_lookup _ _ x) by (done || lia). by exists (R_Name x).
  - exists (fun _ => Ret ""%string). unfold go_div. destruct (Z.eqb_spec (S_PartitionNum s) 0); [lia|]. cbn [obind].
    rewrite Z.quot_div_nonneg by (unfold MaxUint32; lia). split; [done|eauto].
Qed.

(** What the [i]-th created partition is. *)
Definition created_as (s : Space) (ids : nat -> go Z) (i : nat) (p : Partition) : Prop :=
  P_Slot p = u32 (i64 (Z.of_nat i * (MaxUint32 / total_partitions s))) /\
  partition_name_at s i = Some (P_Name p) /\
  exists id, ids i = Ret id /\ P_Id p = u32 id.

Lemma create_partitions_total s ids :
  1 <= S_PartitionNum s -> rule_counted s -> 1 <= total_partitions s <= MaxUint32 ->
  (forall i, exists id, ids i = Ret id) ->
  exists ps, create_partitions s ids = Ret ps /\
    Forall2 (created_as s ids) (seq 0 (Z.to_nat (total_partitions s))) ps.
Proof.
  intros Hnum Hrule Htot Hids.
  destruct (create_partitions_loop s ids Hnum Hrule Htot) as (name_at & -> & Hname).
  apply (ofold_total _ (Forall2 (created_as s ids))); [constructor|].
  intros l i acc HI Hi%elem_of_seq. destruct (Hids i) as [id Hid].
  destruct (Hname i ltac:(lia)) as (name & Hn & Hn'). rewrite Hid, Hn'. cbn [obind].
  eexists. split; [reflexivity|]. apply Forall2_app; [done|].
  constructor; [|constructor]. split_and!; [done..|]. by exists id.
Qed.

Lemma created_laid_out s ids ps :
  1 <= total_partitions s <= MaxUint32 ->
  Forall2 (created_as s ids) (seq 0 (Z.to_nat (total_partitions s))) ps ->
  Z.of_nat (length ps) = total_partitions s /\ laid_out ps.
Proof.
  intros Htot Hf. apply slots_of_width; [done|].
  induction Hf as [|i p l ps (Hs & _) _ IH]; [done|]. cbn [fmap list_fmap]. rewrite Hs. f_equal. exact IH.
Qed.

(** A new space: [CreateSpace] builds one partition per bucket (and range),
    each with its fresh id and its range's name, and from then on every 32-bit
    hash [h] is routed to the partition at position [h / width], the last
    partition taking the remainder of the range. *)
Theorem created_space_routes (s : Space) (ids : nat -> go Z) :
  1 <= S_PartitionNum s -> rule_counted s -> 1 <= total_partitions s <= MaxUint32 ->
  (forall i, exists id, ids i = Ret id) ->
  exists ps, create_partitions s ids = Ret ps /\
    Z.of_nat (length ps) = total_partitions s /\
    (forall i p, ps !! i = Some p -> created_as s ids i p) /\
    forall h, in_u 32 h ->
      exists p, ps !! Z.to_nat (Z.min (h / (MaxUint32 / total_partitions s)) (total_partitions s - 1)) = Some p /\
                PartitionId (set_S_Partitions ps s) h = Ret (P_Id p).
Proof.
  intros Hnum Hrule Htot Hids.
  destruct (create_partitions_total s ids Hnum Hrule Htot Hids) as (ps & Hps & Hf).
  destruct (created_laid_out s ids ps Htot Hf) as [Hlen Hl]. exists ps. split_and!; [done..| |].
  - intros i p Hp. destruct (Forall2_lookup_r _ _ _ _ _ Hf Hp) as (j & [-> _]%lookup_seq & Hc). done.
  - intros h [Hh _]. rewrite <- Hlen in Htot |- *.
    destruct (PartitionId_owns (set_S_Partitions ps s) h) as (i & p & Hp & Ho & Heq);
      [by apply laid_out_slots_ok|done|]. cbn [set_S_Partitions S_Partitions] in Hp, Ho.
    exists p. rewrite <- (laid_out_owner ps h i Hl Htot Hh Ho), Nat2Z.id. done.
Qed.

(** A space of three buckets. *)
Definition demo_space (num : Z) (rule : option PartitionRule) (ps : list Partition) : Space :=
  {| S_Id := 7; S_Desc := ""; S_Name := "s"; S_ResourceName := "default"; S_Version := 0; S_DBId := 1;
     S_Enabled := None; S_Partitions := ps; S_PartitionNum := num; S_ReplicaNum := 1; S_Fields := "";
     S_Indexes := []; S_PartitionRule := rule; S_SpaceProperties := ∅; S_RefreshInterval := None; S_PartitionName := None;
     S_PartitionOperatorType := None; S_EnableIdCache := None; S_EnableRealtime := None |}.

Lemma created_space_routes_witness :
  exists ps, create_partitions (demo_space 3 None []) (fun i => Ret (Z.of_nat i + 10)) = Ret ps /\
             PartitionId (set_S_Partitions ps (demo_space 3 None [])) 4000000000 = Ret 12.
Proof.
  destruct (created_space_routes (demo_space 3 None []) (fun i => Ret (Z.of_nat i + 10)))
    as (ps & Hps & Hlen & Hc & Hr); [simpl; lia|done|unfold total_partitions, MaxUint32; simpl; lia|by eauto|].
  exists ps. split; [done|].
  destruct (Hr 4000000000) as (p & Hp & ->); [unfold in_u; lia|].
  apply Hc in Hp as (_ & _ & id & [= <-] & ->). reflexivity.
Defined.

(** ** Re-laying the slots *)

Lemma set_slot_at_ret ps i slot p :
  ps !! i = Some p -> set_slot_at ps i slot = Ret (<[i := set_P_Slot slot p]> ps).
Proof. intros Hp. unfold set_slot_at. by rewrite (index_at_lookup _ _ p) by (rewrite ?Nat2Z.id; done || lia). Qed.

(** Overwriting the slots of a prefix leaves everything else as it is. *)
Definition reslotted (slot : nat -> Z) (n : nat) (ps ps' : list Partition) : Prop :=
  length ps' = length ps /\
  forall i p, ps !! i = Some p ->
    ps' !! i = Some (if (i <? n)%nat then set_P_Slot (slot i) p else p).

Lemma set_P_Slot_twice a b p : set_P_Slot a (set_P_Slot b p) = set_P_Slot a p.
Proof. done. Qed.

Lemma reslot_loop slot n ps :
  (n <= length ps)%nat ->
  exists ps', ofold (fun ps i => set_slot_at ps i (slot i)) ps (seq 0 n) = Ret ps' /\ reslotted slot n ps ps'.
Proof.
  induction n as [|n IH]; intros Hn.
  - exists ps. split; [done|]. split; [done|]. intros i p Hp. exact Hp.
  - destruct IH as (ps1 & H1 & Hlen & Hlk); [lia|].
    rewrite seq_S, ofold_app, H1. cbn [obind ofold]. rewrite Nat.add_0_l.
    destruct (lookup_lt_is_Some_2 ps n ltac:(lia)) as [p Hp]. pose proof (Hlk n p Hp) as Hpn.
    rewrite Nat.ltb_irrefl in Hpn. rewrite (set_slot_at_ret ps1 n (slot n) p Hpn). cbn [obind].
    eexists. split; [reflexivity|]. split; [by rewrite length_insert|].
    intros i q Hq. destruct (decide (i = n)) as [->|Hne].
    + rewrite list_lookup_insert_eq by lia. simplify_eq.
      by destruct (Nat.ltb_spec n (S n)); [|lia].
    + rewrite list_lookup_insert_ne by done. rewrite (Hlk i q Hq).
      destruct (Nat.ltb_spec i n), (Nat.ltb_spec i (S n)); (done || lia).
Qed.

Lemma reslot_out_of_range slot n ps :
  (length ps < n)%nat -> ofold (fun ps i => set_slot_at ps i (slot i)) ps (seq 0 n) = Panic IndexRange.
Proof.
  intros Hn. destruct (reslot_loop slot (length ps) ps) as (ps' & H1 & Hlen & _); [lia|].
  replace n with (length ps + S (n - S (length ps)))%nat by lia.
  rewrite seq_app, ofold_app, H1. cbn [obind seq ofold]. unfold set_slot_at, index_at.
  destruct (Z.ltb_spec (Z.of_nat (0 + length ps)) 0); [lia|]. rewrite lookup_ge_None_2; [done|].
  rewrite Nat2Z.id. lia.
Qed.

Lemma reslotted_laid_out slot ps ps' :
  reslotted slot (length ps) ps ps' ->
  (forall i, (i < length ps)%nat -> slot i = Z.of_nat i * (MaxUint32 / Z.of_nat (length ps))) ->
  laid_out ps' /\ P_Id <$> ps' = P_Id <$> ps /\ P_Name <$> ps' = P_Name <$> ps.
Proof.
  intros [Hlen Hlk] Hslot. unfold laid_out. rewrite Hlen. split_and!; apply list_eq; intros i;
    rewrite !list_lookup_fmap; destruct (ps !! i) as [p|] eqn:Hp.
  all: try (apply lookup_ge_None_1 in Hp; rewrite (lookup_ge_None_2 ps') by lia).
  all: try (pose proof (lookup_lt_Some _ _ _ Hp) as Hi; rewrite (Hlk i p Hp);
            destruct (Nat.ltb_spec i (length ps)); [|lia]; try done).
  - rewrite lookup_seq_lt by done. simpl. by rewrite Hslot.
  - rewrite lookup_seq_ge by lia. done.
  - done.
  - done.
Qed.

(** Growing a space ([expandPartitions]) and changing its ranges
    ([updateSpacePartitonRule]) lay the slots out afresh, in [uint32] and in
    [int] arithmetic, to the same result: when the list holds exactly the
    counted partitions, the slots become multiples of one width and ids and
    names stay. *)
Theorem reslot_lays_out (ps : list Partition) (num partitions : Z) :
  1 <= Z.of_nat (length ps) <= MaxUint32 -> num * partitions = Z.of_nat (length ps) ->
  exists ps',
    reslot_expand (Z.of_nat (length ps)) ps = Ret ps' /\ reslot_rule num partitions ps = Ret ps' /\
    laid_out ps' /\ slots_ok ps' /\ P_Id <$> ps' = P_Id <$> ps /\ P_Name <$> ps' = P_Name <$> ps.
Proof.
  intros Hn Hprod. unfold reslot_expand, reslot_rule. rewrite Hprod.
  set (n := Z.of_nat (length ps)) in *.
  assert (u32 n = n) as -> by (apply wrap_u_id; unfold in_u, MaxUint32 in *; lia).
  assert (i64 n = n) as -> by (apply wrap_s_id; unfold in_s, MaxUint32 in *; lia).
  unfold go_div. destruct (Z.eqb_spec n 0); [lia|]. cbn [obind].
  rewrite Z.quot_div_nonneg by (unfold MaxUint32; lia).
  assert (Z.to_nat n = length ps) as -> by lia.
  destruct (reslot_loop (fun i => u32 (u32 (Z.of_nat i) * (MaxUint32 / n))) (length ps) ps) as (ps1 & H1 & Hr1); [lia|].
  destruct (reslot_loop (fun i => u32 (i64 (Z.of_nat i * (MaxUint32 / n)))) (length ps) ps) as (ps2 & H2 & Hr2); [lia|].
  assert (ps1 = ps2) as <-.
  { destruct Hr1 as [L1 R1], Hr2 as [L2 R2]. apply list_eq. intros i. destruct (ps !! i) as [p|] eqn:Hp.
    - rewrite (R1 i p Hp), (R2 i p Hp). destruct (Nat.ltb_spec i (length ps)); [|done].
      by destruct (slot_no_wrap (Z.of_nat i) n Hn ltac:(lia)) as [-> ->].
    - apply lookup_ge_None_1 in Hp. rewrite !lookup_ge_None_2; [done|lia..]. }
  destruct (reslotted_laid_out _ _ _ Hr1) as (Hl & Hids & Hnames).
  { intros i Hi. apply slot_no_wrap; lia. }
  exists ps1. split_and!; try done. apply laid_out_slots_ok; [done|]. by destruct Hr1 as [-> _].
Qed.

Lemma reslot_lays_out_witness :
  exists ps', reslot_rule 1 2 [new_partition 5 "a" 7 1 0; new_partition 9 "b" 7 1 0] = Ret ps' /\
              P_Slot <$> ps' = [0; 2147483647].
Proof.
  destruct (reslot_lays_out [new_partition 5 "a" 7 1 0; new_partition 9 "b" 7 1 0] 1 2)
    as (ps' & _ & H2 & Hl & _); [unfold MaxUint32; simpl; lia|simpl; lia|].
  exists ps'. split; [exact H2|]. vm_compute in H2. injection H2 as <-. reflexivity.
Defined.

(** The last step of [updateSpacePartitonRule] never returns an error: it
    divides by zero when the last range was dropped, and runs past the
    partitions when there are fewer of them than counted. *)
Theorem reslot_rule_panics (ps : list Partition) (num partitions : Z) :
  reslot_rule num 0 ps = Panic DivZero /\
  (Z.of_nat (length ps) < num * partitions < 2 ^ 63 -> reslot_rule num partitions ps = Panic IndexRange).
Proof.
  unfold reslot_rule. split.
  - rewrite Z.mul_0_r. reflexivity.
  - intros [Hlt Hmax]. assert (i64 (num * partitions) = num * partitions) as -> by (apply wrap_s_id; unfold in_s; lia).
    unfold go_div. destruct (Z.eqb_spec (num * partitions) 0); [lia|]. cbn [obind].
    apply (reslot_out_of_range (fun i => u32 (i64 (Z.of_nat i * Z.quot MaxUint32 (num * partitions))))). lia.
Qed.

Lemma reslot_rule_panics_witness : reslot_rule 2 1 [new_partition 5 "a" 7 1 0] = Panic IndexRange.
Proof. apply (reslot_rule_panics [new_partition 5 "a" 7 1 0] 2 1). simpl. lia. Defined.
