(* ===== verification/Floats.v ===== *)
(** * Go floats and sorting

    [float32]/[float64] values as IEEE data with the comparison the language
    defines (a NaN compares false with everything), and what [sort.Slice]
    promises. *)

From Stdlib Require Import SpecFloat.
From S2P Require Import Prelude.
Open Scope Z_scope.

Notation float := spec_float.
Definition fltb (x y : float) : bool := SFltb x y.
Definition feqb (x y : float) : bool := SFeqb x y.
Definition is_nan (x : float) : bool := match x with S754_nan => true | _ => false end.

(** [float32(x)] of a [float64]: round to nearest, ties to even. *)
Definition to_float32 (x : float) : float :=
  match x with
  | S754_finite s m e => binary_normalize 24 128 (if s then Z.neg m else Z.pos m) e s
  | _ => x
  end.

(** [math.Float32bits] and [math.Float64bits]: sign, exponent field (zero for a
    subnormal) and mantissa without its leading one. *)
Definition float_bits (mbits ebits bias : Z) (x : float) : Z :=
  let sign (s : bool) := if s then Z.shiftl 1 (mbits + ebits) else 0 in
  match x with
  | S754_zero s => sign s
  | S754_infinity s => sign s + Z.shiftl (2 ^ ebits - 1) mbits
  | S754_nan => Z.shiftl (2 ^ ebits - 1) mbits + Z.shiftl 1 (mbits - 1)
  | S754_finite s m e =>
    if Z.pos m <? 2 ^ mbits then sign s + Z.pos m
    else sign s + Z.shiftl (e + bias + mbits) mbits + (Z.pos m - 2 ^ mbits)
  end.

Definition Float32bits (x : float) : Z := u32 (float_bits 23 8 127 x).
Definition Float64bits (x : float) : Z := u64 (float_bits 52 11 1023 x).

(** A position on the line for every float but NaN; both zeros coincide. *)
Definition rank (x : float) : Z * Z * Z :=
  match x with
  | S754_infinity true => (-2, 0, 0)
  | S754_finite true m e => (-1, - e, Z.neg m)
  | S754_zero _ | S754_nan => (0, 0, 0)
  | S754_finite false m e => (1, e, Z.pos m)
  | S754_infinity false => (2, 0, 0)
  end.

Definition lex_lt (p q : Z * Z * Z) : Prop :=
  let '(a, b, c) := p in let '(a', b', c') := q in
  a < a' \/ a = a' /\ (b < b' \/ b = b' /\ c < c').

Lemma fltb_rank x y : is_nan x = false -> is_nan y = false -> fltb x y = true <-> lex_lt (rank x) (rank y).
Proof.
  intros Hx Hy. unfold fltb, SFltb, SFcompare, rank, lex_lt.
  destruct x as [?|[]| |[] mx ex], y as [?|[]| |[] my ey]; try discriminate;
    try (split; intros; (done || lia)).
  - change (Pos.compare_cont Eq mx my) with (mx ?= my)%positive.
    destruct (Z.compare_spec ex ey), (Pos.compare_spec mx my); simpl; split; intros; (done || lia).
  - change (Pos.compare_cont Eq mx my) with (mx ?= my)%positive.
    destruct (Z.compare_spec ex ey), (Pos.compare_spec mx my); simpl; split; intros; (done || lia).
Qed.

(** ** Strict weak orders *)

Class StrictWeak {A} (ok : A -> Prop) (lt : A -> A -> bool) : Prop := {
  sw_irrefl : forall x, ok x -> lt x x = false;
  sw_trans : forall x y z, ok x -> ok y -> ok z -> lt x y = true -> lt y z = true -> lt x z = true;
  sw_ntrans : forall x y z, ok x -> ok y -> ok z -> lt y x = false -> lt z y = false -> lt z x = false
}.

#[export] Instance fltb_sw : StrictWeak (fun x => is_nan x = false) fltb.
Proof.
  split.
  - intros x Hx. apply not_true_is_false. rewrite fltb_rank by done. unfold lex_lt. destruct (rank x) as [[? ?] ?]. lia.
  - intros x y z Hx Hy Hz. rewrite !fltb_rank by done. unfold lex_lt.
    destruct (rank x) as [[? ?] ?], (rank y) as [[? ?] ?], (rank z) as [[? ?] ?]. lia.
  - intros x y z Hx Hy Hz. rewrite <- !not_true_iff_false, !fltb_rank by done. unfold lex_lt.
    destruct (rank x) as [[? ?] ?], (rank y) as [[? ?] ?], (rank z) as [[? ?] ?]. lia.
Qed.

#[export] Instance sw_flip {A} ok (lt : A -> A -> bool) : StrictWeak ok lt -> StrictWeak ok (fun x y => lt y x).
Proof.
  intros Hsw. split.
  - apply sw_irrefl.
  - intros x y z Hx Hy Hz H1 H2. by apply (sw_trans z y x).
  - intros x y z Hx Hy Hz H1 H2. by apply (sw_ntrans z y x).
Qed.

#[export] Instance sw_proj {A B} (f : B -> A) ok (lt : A -> A -> bool) :
  StrictWeak ok lt -> StrictWeak (fun b => ok (f b)) (fun x y => lt (f x) (f y)).
Proof.
  intros Hsw. split.
  - intros x. apply sw_irrefl.
  - intros x y z. apply sw_trans.
  - intros x y z. apply sw_ntrans.
Qed.

Section Weak.
Context {A : Type} (ok : A -> Prop) (lt : A -> A -> bool) `{Hsw : !StrictWeak ok lt}.

(** Sorted: no later element is before an earlier one. *)
Definition nlt (x y : A) : Prop := lt y x = false.

Lemma sw_lt_nlt x y z : ok x -> ok y -> ok z -> nlt x y -> lt y z = true -> lt x z = true.
Proof.
  intros Hx Hy Hz H1 H2. destruct (lt x z) eqn:E; [done|].
  rewrite (sw_ntrans z x y) in H2; done.
Qed.

Lemma sw_asym x y : ok x -> ok y -> lt x y = true -> lt y x = false.
Proof.
  intros Hx Hy H. destruct (lt y x) eqn:E; [|done].
  rewrite <- (sw_irrefl x Hx). symmetry. by apply (sw_trans x y x).
Qed.
End Weak.

(** [sort.Slice(l, less)]: what the sorted slice is, without fixing the order of
    equal elements. *)
Class SortSlice (sort : forall A, (A -> A -> bool) -> list A -> list A) : Prop := {
  sort_perm : forall A (less : A -> A -> bool) l, sort A less l ≡ₚ l;
  sort_sorted : forall A (ok : A -> Prop) (less : A -> A -> bool) l,
    StrictWeak ok less -> Forall ok l -> StronglySorted (nlt less) (sort A less l)
}.

(** A sort that keeps these promises. *)
Fixpoint insert_sorted {A} (less : A -> A -> bool) (x : A) (l : list A) : list A :=
  match l with
  | [] => [x]
  | y :: l' => if less x y then x :: l else y :: insert_sorted less x l'
  end.

Definition insertion_sort (A : Type) (less : A -> A -> bool) (l : list A) : list A :=
  foldr (insert_sorted less) [] l.

Lemma insert_sorted_perm {A} (less : A -> A -> bool) x l : insert_sorted less x l ≡ₚ x :: l.
Proof.
  induction l as [|y l IH]; simpl; [done|]. destruct (less x y); [done|]. rewrite IH. apply perm_swap.
Qed.

Lemma insert_sorted_sorted {A} ok (less : A -> A -> bool) x l :
  StrictWeak ok less -> Forall ok (x :: l) ->
  StronglySorted (nlt less) l -> StronglySorted (nlt less) (insert_sorted less x l).
Proof.
  intros Hsw Hok Hs. inversion Hok as [|? ? Hx Hl]; subst. clear Hok.
  induction Hs as [|y l Hs IH Hy]; simpl; [repeat constructor|].
  inversion Hl as [|? ? Hoy Hol]; subst. destruct (less x y) eqn:E.
  - constructor; [by constructor|]. assert (nlt less x y) as Hxy by (by apply (sw_asym ok)).
    constructor; [done|]. rewrite Forall_forall in Hy, Hol |- *. intros z Hz.
    unfold nlt. apply (sw_ntrans x y z); [done|done|by apply Hol|exact Hxy|exact (Hy z Hz)].
  - constructor; [by apply IH|]. rewrite insert_sorted_perm. by constructor.
Qed.

#[export] Instance insertion_sort_slice : SortSlice insertion_sort.
Proof.
  split.
  - intros A less l. induction l as [|x l IH]; simpl; [done|]. by rewrite insert_sorted_perm, IH.
  - intros A ok less l Hsw Hok. induction Hok as [|x l Hx Hl IH]; simpl; [constructor|].
    apply (insert_sorted_sorted ok); [done| |done]. constructor; [done|].
    assert (foldr (insert_sorted less) [] l ≡ₚ l) as ->; [|done].
    clear. induction l as [|x l IH]; simpl; [done|]. by rewrite insert_sorted_perm, IH.
Qed.

(** 1.0 and -0.5 in both formats. *)
Lemma float_bits_examples :
  Float32bits (to_float32 (S754_finite false 4503599627370496 (-52))) = 1065353216 /\
  Float32bits (to_float32 (S754_finite true 4503599627370496 (-53))) = 3204448256 /\
  Float64bits (S754_finite false 4503599627370496 (-52)) = 4607182418800017408.
Proof. vm_compute. auto. Qed.

(** ** Positions of finite floats

    The bit pattern of a positive float grows with its value, so the pattern,
    with its sign applied, is a position on the line. *)

(** A pattern of [w] bits read as sign and magnitude. *)
Definition sign_mag (w bits : Z) : Z := if bits <? 2 ^ (w - 1) then bits else 2 ^ (w - 1) - bits.

(** A finite value of the format with [prec] bits and exponents up to [emax]. *)
Definition fin_ok (prec emax : Z) (x : float) : Prop :=
  match x with
  | S754_zero _ => True
  | S754_finite _ m e => bounded prec emax m e = true
  | _ => False
  end.

Definition fkey (mbits emn : Z) (x : float) : Z :=
  match x with
  | S754_finite s m e => let k := (e - emn) * 2 ^ mbits + Z.pos m in if s then - k else k
  | _ => 0
  end.

Lemma digits2_bounds m : 2 ^ (Z.pos (digits2_pos m) - 1) <= Z.pos m < 2 ^ Z.pos (digits2_pos m).
Proof.
  induction m as [m IH|m IH|]; cbn [digits2_pos]; [| |by vm_compute].
  all: assert (2 ^ Z.pos (digits2_pos m) = 2 * 2 ^ (Z.pos (digits2_pos m) - 1)) as Hd
    by (rewrite <- Z.pow_succ_r by lia; f_equal; lia).
  all: rewrite Pos2Z.inj_succ, Z.pow_succ_r by lia.
  all: replace (Z.succ (Z.pos (digits2_pos m)) - 1) with (Z.pos (digits2_pos m)) by lia; lia.
Qed.

Section Format.
Context (prec emax : Z) (Hprec : 1 < prec) (Hemax : prec < emax).
Notation emn := (3 - emax - prec).
Notation mbits := (prec - 1).

(** A canonical pair: the mantissa fills its bits unless the exponent is least. *)
Lemma bounded_inv m e :
  bounded prec emax m e = true ->
  emn <= e <= emax - prec /\ Z.pos m < 2 * 2 ^ mbits /\ (2 ^ mbits <= Z.pos m \/ e = emn).
Proof.
  unfold bounded, canonical_mantissa, fexp, emin. rewrite andb_true_iff, Z.leb_le.
  intros [Hc%Z.eqb_eq He]. pose proof (digits2_bounds m) as [Hlo Hhi].
  assert (2 * 2 ^ mbits = 2 ^ prec) as ->.
  { rewrite <- Z.pow_succ_r by lia. f_equal. lia. }
  split; [lia|]. split.
  - eapply Z.lt_le_trans; [exact Hhi|]. apply Z.pow_le_mono_r; lia.
  - destruct (decide (e = emn)) as [->|Hne]; [by right|left].
    eapply Z.le_trans; [|exact Hlo]. apply Z.pow_le_mono_r; lia.
Qed.

Lemma fkey_lex m e m' e' :
  bounded prec emax m e = true -> bounded prec emax m' e' = true -> e < e' ->
  (e - emn) * 2 ^ mbits + Z.pos m < (e' - emn) * 2 ^ mbits + Z.pos m'.
Proof.
  intros H%bounded_inv H'%bounded_inv Hlt. set (K := 2 ^ mbits) in *.
  assert (0 < K) by (apply Z.pow_pos_nonneg; lia).
  assert ((e' - emn) * K = (e - emn) * K + (e' - e) * K) as -> by ring.
  assert (K <= (e' - e) * K) by nia. lia.
Qed.

Lemma fkey_pos m e : bounded prec emax m e = true -> 0 < (e - emn) * 2 ^ mbits + Z.pos m.
Proof.
  intros H%bounded_inv. assert (0 < 2 ^ mbits) by (apply Z.pow_pos_nonneg; lia). nia.
Qed.

(** Go's comparisons of finite floats are comparisons of positions. *)
Lemma fkey_compare x y :
  fin_ok prec emax x -> fin_ok prec emax y -> SFcompare x y = Some (fkey mbits emn x ?= fkey mbits emn y).
Proof.
  intros Hx Hy.
  assert (forall m e m' e', bounded prec emax m e = true -> bounded prec emax m' e' = true ->
    ((e - emn) * 2 ^ mbits + Z.pos m ?= (e' - emn) * 2 ^ mbits + Z.pos m') =
    match e ?= e' with Eq => (m ?= m')%positive | c => c end) as Hcmp.
  { intros m e m' e' Hm Hm'. destruct (Z.compare_spec e e') as [->|Hlt|Hlt].
    - destruct (Pos.compare_spec m m') as [->| |];
        [apply Z.compare_refl|apply Z.compare_lt_iff; lia|apply Z.compare_gt_iff; lia].
    - apply Z.compare_lt_iff, fkey_lex; done.
    - apply Z.compare_gt_iff, fkey_lex; done. }
  destruct x as [sx|[]| |sx mx ex], y as [sy|[]| |sy my ey]; try done; simpl in Hx, Hy.
  - pose proof (fkey_pos _ _ Hy). unfold SFcompare, fkey.
    destruct sy; f_equal; symmetry; [apply Z.compare_gt_iff|apply Z.compare_lt_iff]; lia.
  - pose proof (fkey_pos _ _ Hx). unfold SFcompare, fkey.
    destruct sx; f_equal; symmetry; [apply Z.compare_lt_iff|apply Z.compare_gt_iff]; lia.
  - pose proof (fkey_pos _ _ Hx). pose proof (fkey_pos _ _ Hy). unfold SFcompare, fkey.
    change (Pos.compare_cont Eq mx my) with (mx ?= my)%positive. destruct sx, sy.
    + rewrite Z.compare_opp, Hcmp by done.
      rewrite (Z.compare_antisym ex ey), (Pos.compare_antisym mx my). by destruct (ex ?= ey).
    + f_equal. symmetry. apply Z.compare_lt_iff. lia.
    + f_equal. symmetry. apply Z.compare_gt_iff. lia.
    + rewrite Hcmp by done. by destruct (ex ?= ey).
Qed.
End Format.

(** Reading the bit pattern back gives the position. *)
Lemma float_bits_key mbits ebits bias x :
  1 <= mbits -> 2 <= ebits -> bias = 2 ^ (ebits - 1) - 1 -> mbits < bias ->
  fin_ok (mbits + 1) (bias + 1) x ->
  0 <= float_bits mbits ebits bias x < 2 ^ (mbits + ebits + 1) /\
  sign_mag (mbits + ebits + 1) (float_bits mbits ebits bias x) = fkey mbits (1 - bias - mbits) x.
Proof.
  intros Hmb Heb Hbias Hmbias Hok.
  assert (2 ^ (mbits + ebits + 1) = 2 * 2 ^ (mbits + ebits)) as Htop
    by (rewrite <- Z.pow_succ_r by lia; f_equal; lia).
  assert (0 < 2 ^ (mbits + ebits)) as Hpos by (apply Z.pow_pos_nonneg; lia).
  assert (2 ^ (mbits + ebits) = (2 * bias + 2) * 2 ^ mbits) as Hw.
  { rewrite Z.pow_add_r by lia. rewrite Hbias.
    assert (2 ^ ebits = 2 * 2 ^ (ebits - 1)) as -> by (rewrite <- Z.pow_succ_r by lia; f_equal; lia). ring. }
  unfold sign_mag. replace (mbits + ebits + 1 - 1) with (mbits + ebits) by lia.
  destruct x as [s|?| |s m e]; try done; unfold float_bits, fkey.
  - rewrite Z.shiftl_mul_pow2 by lia. destruct s; case_match; rewrite ?Z.ltb_lt, ?Z.ltb_ge in *; lia.
  - simpl in Hok. pose proof (fkey_pos (mbits + 1) (bias + 1) ltac:(lia) ltac:(lia) m e Hok) as Hp.
    apply bounded_inv in Hok as (He & Hm & Hcan); [|lia..].
    replace (mbits + 1 - 1) with mbits in * by lia.
    replace (3 - (bias + 1) - (mbits + 1)) with (1 - bias - mbits) in * by lia.
    rewrite !Z.shiftl_mul_pow2 by lia. set (K := 2 ^ mbits) in *.
    assert (0 < K) by (apply Z.pow_pos_nonneg; lia).
    assert ((e - (1 - bias - mbits)) * K + Z.pos m < (2 * bias + 2) * K) as Hlt.
    { assert ((e - (1 - bias - mbits)) * K <= (2 * bias - 1) * K) by (apply Z.mul_le_mono_nonneg_r; lia). lia. }
    assert (forall b, (if Z.pos m <? K then b + Z.pos m else b + (e + bias + mbits) * K + (Z.pos m - K)) =
              b + ((e - (1 - bias - mbits)) * K + Z.pos m)) as Hbits.
    { intros b. destruct (Z.ltb_spec (Z.pos m) K); [|ring]. destruct Hcan as [|Hcan]; [lia|].
      replace (e - (1 - bias - mbits)) with 0 by lia. ring. }
    rewrite Hbits. clear Hbits. set (k := (e - (1 - bias - mbits)) * K + Z.pos m) in *. clearbody k.
    destruct s; case_match; rewrite ?Z.ltb_lt, ?Z.ltb_ge in *; lia.
Qed.

Lemma Float32bits_key x :
  fin_ok 24 128 x -> 0 <= Float32bits x < 2 ^ 32 /\ sign_mag 32 (Float32bits x) = fkey 23 (-149) x.
Proof.
  intros Hok. destruct (float_bits_key 23 8 127 x) as [Hb Hk]; [lia..|done|].
  unfold Float32bits, u32. rewrite wrap_u_id by exact Hb. done.
Qed.

Lemma Float64bits_key x :
  fin_ok 53 1024 x -> 0 <= Float64bits x < 2 ^ 64 /\ sign_mag 64 (Float64bits x) = fkey 52 (-1074) x.
Proof.
  intros Hok. destruct (float_bits_key 52 11 1023 x) as [Hb Hk]; [lia..|done|].
  unfold Float64bits, u64. rewrite wrap_u_id by exact Hb. done.
Qed.
