(* ===== verification/Router.v ===== *)
(** * Router requests (internal/client/client.go)

    A [routerRequest] spreads the documents of a request over the partitions of
    a space, one message per partition, and puts the replies back in the order
    of the request.  [hash] stands for [murmur3.Sum32WithSeed(_, 0)] of the
    primary key, [uuid] for the [uuid.NewString] a request draws at most once,
    [gen] for the primary keys drawn for documents that have none. *)

From S2P Require Import Prelude.
From S2P Require Import Text.
From S2P Require Import Errors.
From S2P Require Import Schema.
From S2P Require Import Partition.
From S2P Require Import Space.
Open Scope Z_scope.

(** ** Messages *)

Record DocField : Type := { DF_Name : string; DF_Type : FieldType; DF_Value : list Z; DF_Option : FieldOption }.
Record Document : Type := { D_PKey : string; D_Fields : list DocField }.
Record Item : Type := { It_Doc : option Document; It_Err : option error }.

Record QueryRequest : Type := { Q_PartitionId : Z; Q_PartitionNames : list string }.
Record SearchRequest : Type := { SR_PartitionNames : list string }.
Record IndexRequest : Type := { IR_PartitionId : Z }.

Inductive payload : Type :=
| NoPayload
| QueryPayload (q : QueryRequest)
| SearchPayload (s : SearchRequest)
| IndexPayload (i : IndexRequest).

Record PartitionData : Type := {
  PD_PartitionID : Z;
  PD_MessageID : string;
  PD_Items : list (option Item);
  PD_Payload : payload;
  PD_Err : option error
}.

Definition set_PD_Items (its : list (option Item)) (d : PartitionData) : PartitionData :=
  {| PD_PartitionID := PD_PartitionID d; PD_MessageID := PD_MessageID d; PD_Items := its;
     PD_Payload := PD_Payload d; PD_Err := PD_Err d |}.

Definition MessageID : string := "message_id".
Definition IdField : string := "_id".

Record routerRequest : Type := {
  r_md : gmap string string;
  r_docs : list (option Document);
  r_space : Space;
  r_sendMap : gmap Z PartitionData;
  r_Err : option error
}.

Definition set_md (m : gmap string string) (r : routerRequest) : routerRequest :=
  {| r_md := m; r_docs := r_docs r; r_space := r_space r; r_sendMap := r_sendMap r; r_Err := r_Err r |}.
Definition set_docs (ds : list (option Document)) (r : routerRequest) : routerRequest :=
  {| r_md := r_md r; r_docs := ds; r_space := r_space r; r_sendMap := r_sendMap r; r_Err := r_Err r |}.
Definition set_sendMap (m : gmap Z PartitionData) (r : routerRequest) : routerRequest :=
  {| r_md := r_md r; r_docs := r_docs r; r_space := r_space r; r_sendMap := m; r_Err := r_Err r |}.
Definition set_Err (e : error) (r : routerRequest) : routerRequest :=
  {| r_md := r_md r; r_docs := r_docs r; r_space := r_space r; r_sendMap := r_sendMap r; r_Err := Some e |}.

Section Request.
Context (hash : string -> Z) (uuid : string) (gen : nat -> string).
Context (ToInt64E ToTimeE : string -> option Z).

(** ** Preparing the documents *)

Definition GetMsgID (r : routerRequest) : string * routerRequest :=
  match r_md r !! MessageID with
  | Some msgID => (msgID, r)
  | None => (uuid, set_md (<[MessageID := uuid]> (r_md r)) r)
  end.

(** The loop of [SetDocs]: the first error found. *)
Fixpoint first_unknown_field (props : gmap string SpaceProperties) (fs : list DocField) : option error :=
  match fs with
  | [] => None
  | f :: fs' =>
    match props !! DF_Name f with
    | None => Some (verr PARAM_ERROR "the field[%s] in doc not needed in space")
    | Some _ => first_unknown_field props fs'
    end
  end.

Fixpoint check_docs (props : gmap string SpaceProperties) (docs : list (option Document)) : option error :=
  match docs with
  | [] => None
  | None :: _ => Some (verr PARAM_ERROR "the doc is nil")
  | Some doc :: docs' =>
    match first_unknown_field props (D_Fields doc) with
    | Some e => Some e
    | None => check_docs props docs'
    end
  end.

Definition SetDocs (docs : list (option Document)) (r : routerRequest) : routerRequest :=
  match r_Err r with
  | Some _ => r
  | None =>
    let r := set_docs docs r in
    match check_docs (S_SpaceProperties (r_space r)) docs with
    | Some e => set_Err e r
    | None => r
    end
  end.

(** [generateUUID] of the [i]-th document: a given key is kept. *)
Definition generateUUID (i : nat) (key : string) : string := if key =?s "" then gen i else key.

Definition with_id (i : nat) (doc : Document) : Document :=
  let key := generateUUID i (D_PKey doc) in
  {| D_PKey := key;
     D_Fields := D_Fields doc ++ [{| DF_Name := IdField; DF_Type := FT_STRING; DF_Value := bytes_of key;
                                     DF_Option := FO_Null |}] |}.

Definition SetDocsField (r : routerRequest) : go routerRequest :=
  match r_Err r with
  | Some _ => Ret r
  | None =>
    let! docs := ofold (fun acc x =>
      match x with
      | None => Panic NilDeref
      | Some doc => Ret (acc ++ [Some (with_id (length acc) doc)])
      end) [] (r_docs r) in
    Ret (set_docs docs r)
  end.

(** [setDocs] *)
Definition setDocs (keys : list string) : go (list (option Document)) :=
  ofold (fun docs key =>
    if key =?s "" then Fail (OtherErr "key can not be null")
    else Ret (docs ++ [Some {| D_PKey := key; D_Fields := [] |}])) [] keys.

(** [r.docs, r.Err = setDocs(keys)]: on an error the documents are cleared. *)
Definition SetDocsByKey (keys : list string) (r : routerRequest) : routerRequest :=
  match r_Err r with
  | Some _ => r
  | None =>
    match setDocs keys with
    | Ret docs => set_docs docs r
    | Fail e => set_Err e (set_docs [] r)
    | Panic _ => r
    end
  end.

(** ** Spreading the documents *)

(** [if d, ok := dataMap[pid]; ok { d.Items = append(d.Items, item) } else { ... }] *)
Definition add_item (st : routerRequest * gmap Z PartitionData) (pid : Z) (doc : Document)
  : routerRequest * gmap Z PartitionData :=
  let '(r, dataMap) := st in
  let item := Some {| It_Doc := Some doc; It_Err := None |} in
  match dataMap !! pid with
  | Some d => (r, <[pid := set_PD_Items (PD_Items d ++ [item]) d]> dataMap)
  | None =>
    let '(msgID, r) := GetMsgID r in
    (r, <[pid := {| PD_PartitionID := pid; PD_MessageID := msgID; PD_Items := [item];
                    PD_Payload := NoPayload; PD_Err := None |}]> dataMap)
  end.

(** One turn of the loop over the documents; an error leaves the request as
    it is at that point. *)
Definition scatter_step (route : Document -> go Z) (st : routerRequest * gmap Z PartitionData)
    (doc : option Document) : outcome (error * routerRequest) (routerRequest * gmap Z PartitionData) :=
  match doc with
  | None => Panic NilDeref
  | Some doc =>
    match route doc with
    | Ret pid => Ret (add_item st pid doc)
    | Fail e => Fail (e, st.1)
    | Panic p => Panic p
    end
  end.

Definition scatter (route : Document -> go Z) (r : routerRequest) : go routerRequest :=
  match ofold (scatter_step route) (r, ∅) (r_docs r) with
  | Ret (r', dataMap) => Ret (set_sendMap dataMap r')
  | Fail (e, r') => Ret (set_Err e r')
  | Panic p => Panic p
  end.

Definition hash_route (s : Space) (doc : Document) : go Z := PartitionId s (hash (D_PKey doc)).

Definition PartitionDocs (r : routerRequest) : go routerRequest :=
  match r_Err r with Some _ => Ret r | None => scatter (hash_route (r_space r)) r end.

Definition PartitionDocsById (partitionId : Z) (r : routerRequest) : go routerRequest :=
  match r_Err r with Some _ => Ret r | None => scatter (fun _ => Ret partitionId) r end.

(** [pids[hash % uint32(len(pids))]] *)
Definition pick_by_hash (key : string) (pids : list Z) : go Z :=
  let n := u32 (Z.of_nat (length pids)) in
  if n =? 0 then Panic DivZero else index_at pids (hash key mod n).

Fixpoint route_by_rule (s : Space) (rule : PartitionRule) (key : string) (fields : list DocField) : go Z :=
  match fields with
  | [] => Fail (verr PARAM_ERROR "document must have partition rule field")
  | f :: fields' =>
    if DF_Name f =?s PR_Field rule then
      let! pids := PartitionIdsByRangeField ToInt64E ToTimeE s (DF_Value f) in
      if (length pids =? 1)%nat then index_at pids 0 else pick_by_hash key pids
    else route_by_rule s rule key fields'
  end.

Definition UpsertByPartitions (partitions : list Z) (r : routerRequest) : go routerRequest :=
  match r_Err r with
  | Some _ => Ret r
  | None =>
    match S_PartitionRule (r_space r) with
    | Some rule => scatter (fun doc => route_by_rule (r_space r) rule (D_PKey doc) (D_Fields doc)) r
    | None =>
      scatter (fun doc => if (length partitions =? 0)%nat then hash_route (r_space r) doc
                          else pick_by_hash (D_PKey doc) partitions) r
    end
  end.

(** ** Requests to every partition *)

(** One entry per partition that [keep]s, the first one of an id winning. *)
Definition broadcast_step (pl : payload) (keep : Partition -> bool)
    (st : routerRequest * gmap Z PartitionData) (p : Partition) : routerRequest * gmap Z PartitionData :=
  let '(r, m) := st in
  if keep p then
    match m !! P_Id p with
    | Some _ => (r, m)
    | None =>
      let '(msgID, r) := GetMsgID r in
      (r, <[P_Id p := {| PD_PartitionID := P_Id p; PD_MessageID := msgID; PD_Items := [];
                         PD_Payload := pl; PD_Err := None |}]> m)
    end
  else (r, m).

Definition broadcast (pl : payload) (keep : Partition -> bool) (r : routerRequest) : routerRequest :=
  let '(r', m) := fold_left (broadcast_step pl keep) (S_Partitions (r_space r)) (r, ∅) in set_sendMap m r'.

Definition send_one (pid : Z) (pl : payload) (r : routerRequest) : routerRequest :=
  let '(msgID, r) := GetMsgID r in
  set_sendMap {[pid := {| PD_PartitionID := pid; PD_MessageID := msgID; PD_Items := [];
                          PD_Payload := pl; PD_Err := None |}]} r.

(** [partition_names] empty means every partition. *)
Definition named (names : list string) (p : Partition) : bool :=
  if (length names =? 0)%nat then true else contains names (P_Name p).

Definition QueryByPartitions (q : QueryRequest) (r : routerRequest) : routerRequest :=
  match r_Err r with
  | Some _ => r
  | None => if negb (Q_PartitionId q =? 0) then send_one (u32 (Q_PartitionId q)) (QueryPayload q) r
            else broadcast (QueryPayload q) (named (Q_PartitionNames q)) r
  end.

Definition SearchByPartitions (s : SearchRequest) (r : routerRequest) : routerRequest :=
  match r_Err r with
  | Some _ => r
  | None => broadcast (SearchPayload s) (named (SR_PartitionNames s)) r
  end.

Definition CommonByPartitions (pid : Z) (r : routerRequest) : routerRequest :=
  match r_Err r with
  | Some _ => r
  | None => if negb (pid =? 0) then send_one pid NoPayload r else broadcast NoPayload (fun _ => true) r
  end.

Definition CommonSetByPartitions (args : IndexRequest) (r : routerRequest) : routerRequest :=
  match r_Err r with
  | Some _ => r
  | None => if negb (IR_PartitionId args =? 0) then send_one (IR_PartitionId args) (IndexPayload args) r
            else broadcast (IndexPayload args) (fun _ => true) r
  end.

(** ** Collecting the replies *)

(** [setPartitionErr]: the error of a partition becomes the error of each of
    its items; a nil item is dereferenced. *)
Definition setPartitionErr (d : PartitionData) : go PartitionData :=
  match PD_Err d with
  | None => Ret d
  | Some e =>
    if bool_decide (code_of e = Some SUCCESS) then Ret d
    else
      let! its := ofold (fun acc it =>
        match it with
        | None => Panic NilDeref
        | Some it => Ret (acc ++ [Some {| It_Doc := It_Doc it; It_Err := Some e |}])
        end) [] (PD_Items d) in
      Ret (set_PD_Items its d)
  end.

(** [docIndexMap]: the positions of a key in the request. *)
Definition doc_keys (docs : list (option Document)) : go (list string) :=
  ofold (fun ks x => match x with None => Panic NilDeref | Some d => Ret (ks ++ [D_PKey d]) end) [] docs.

Fixpoint positions (k : nat) (keys : list string) (key : string) : list nat :=
  match keys with
  | [] => []
  | x :: keys' => if x =?s key then k :: positions (S k) keys' key else positions (S k) keys' key
  end.

Definition place (keys : list string) (items : list (option Item)) (it : option Item) : list (option Item) :=
  match it with
  | Some item =>
    match It_Doc item with
    | Some doc => fold_left (fun items i => <[i := Some item]> items) (positions 0 keys (D_PKey doc)) items
    | None => items
    end
  | None => items
  end.

(** The tail of [Execute], for the replies in the order they arrived. *)
Definition gather (docs : list (option Document)) (resps : list PartitionData) : go (list (option Item)) :=
  let! keys := doc_keys docs in
  ofold (fun items resp =>
    let! d := setPartitionErr resp in Ret (fold_left (place keys) (PD_Items d) items))
    (replicate (length docs) None) resps.
End Request.

(** ** Every document is sent once, to its partition *)

Section Scatter.
Context (uuid : string).

Definition new_item (d : Document) : option Item := Some {| It_Doc := Some d; It_Err := None |}.

Definition routes_to (route : Document -> go Z) (pid : Z) (d : Document) : bool :=
  match route d with Ret p => p =? pid | _ => false end.

(** The message for [pid], if any: the documents routed there, in order. *)
Definition sent (msg : string) (route : Document -> go Z) (ds : list Document) (pid : Z) : option PartitionData :=
  match filter (fun d => routes_to route pid d = true) ds with
  | [] => None
  | l => Some {| PD_PartitionID := pid; PD_MessageID := msg; PD_Items := new_item <$> l;
                 PD_Payload := NoPayload; PD_Err := None |}
  end.

Lemma sent_snoc msg route ds d pid :
  sent msg route (ds ++ [d]) pid =
    if routes_to route pid d then
      Some match sent msg route ds pid with
           | Some x => set_PD_Items (PD_Items x ++ [new_item d]) x
           | None => {| PD_PartitionID := pid; PD_MessageID := msg; PD_Items := [new_item d];
                        PD_Payload := NoPayload; PD_Err := None |}
           end
    else sent msg route ds pid.
Proof.
  unfold sent. rewrite filter_app. cbn [filter list_filter].
  destruct (routes_to route pid d); cbn [decide decide_rel bool_eq_dec].
  - destruct (decide (true = true)); [|done].
    destruct (filter _ ds) as [|x l]; [done|]. cbn [app]. unfold set_PD_Items. cbn. by rewrite fmap_app.
  - destruct (decide (false = true)); [done|]. by rewrite app_nil_r.
Qed.

(** What the loop keeps of the request while it may store a message id. *)
Definition same_request (r r' : routerRequest) : Prop :=
  r_docs r' = r_docs r /\ r_space r' = r_space r /\ r_Err r' = r_Err r /\
  (GetMsgID uuid r').1 = (GetMsgID uuid r).1.

Lemma same_request_msg r : same_request r (GetMsgID uuid r).2.
Proof.
  unfold same_request, GetMsgID. destruct (r_md r !! MessageID) eqn:Hm; simpl; rewrite ?Hm; [done|].
  by rewrite lookup_insert_eq.
Qed.

Lemma same_request_trans r1 r2 r3 : same_request r1 r2 -> same_request r2 r3 -> same_request r1 r3.
Proof. unfold same_request. intros (-> & -> & -> & ->) (-> & -> & -> & ->). done. Qed.

(** The documents a map of messages holds. *)
Definition docs_sent (m : gmap Z PartitionData) : list Document :=
  map_to_list m ≫= (fun kd => omap (fun it => match it with Some i => It_Doc i | None => None end) (PD_Items kd.2)).

Lemma docs_sent_insert m pid x :
  m !! pid = None -> docs_sent (<[pid := x]> m) ≡ₚ
    omap (fun it => match it with Some i => It_Doc i | None => None end) (PD_Items x) ++ docs_sent m.
Proof. intros Hm. unfold docs_sent. rewrite (map_to_list_insert m pid x Hm). done. Qed.

Lemma add_item_docs st pid d : docs_sent (add_item uuid st pid d).2 ≡ₚ docs_sent st.2 ++ [d].
Proof.
  destruct st as [r m]. unfold add_item. destruct (m !! pid) as [x|] eqn:Hm; cbn [snd].
  - rewrite <- (insert_delete_id m pid x Hm) at 2. rewrite <- insert_delete_eq.
    rewrite !docs_sent_insert by apply lookup_delete_eq. cbn [set_PD_Items PD_Items].
    rewrite omap_app. cbn [omap list_omap It_Doc]. rewrite <- !app_assoc. apply Permutation_app_head.
    apply Permutation_app_comm.
  - destruct (GetMsgID uuid r) as [msg r']. cbn [snd]. rewrite docs_sent_insert by done.
    cbn. apply Permutation_cons_append.
Qed.

Definition scatter_inv (route : Document -> go Z) (r : routerRequest)
    (seen : list (option Document)) (st : routerRequest * gmap Z PartitionData) : Prop :=
  exists ds, seen = Some <$> ds /\ same_request r st.1 /\ docs_sent st.2 ≡ₚ ds /\
    forall pid, st.2 !! pid = sent (GetMsgID uuid r).1 route ds pid.

Lemma scatter_step_inv route r seen st d pid :
  scatter_inv route r seen st -> route d = Ret pid ->
  scatter_inv route r (seen ++ [Some d]) (add_item uuid st pid d).
Proof.
  intros (ds & -> & Hr & Hds & Hm) Hpid. exists (ds ++ [d]).
  split; [by rewrite fmap_app|]. split; [|split; [by rewrite add_item_docs, Hds|]].
  - destruct st as [r0 m]. unfold add_item. destruct (m !! pid); [done|].
    destruct (GetMsgID uuid r0) as [msg r1] eqn:Hmsg. cbn [fst].
    apply (same_request_trans _ r0); [done|]. pose proof (same_request_msg r0) as Hs. by rewrite Hmsg in Hs.
  - intros q. rewrite sent_snoc, <- Hm. unfold routes_to. rewrite Hpid.
    destruct st as [r0 m]. cbn [fst snd] in *. destruct Hr as (_ & _ & _ & Hmsg). rewrite <- Hmsg.
    unfold add_item. destruct (Z.eqb_spec pid q) as [->|Hne].
    + destruct (m !! q) as [x|] eqn:Hq; cbn [snd]; [by rewrite lookup_insert_eq|].
      destruct (GetMsgID uuid r0). cbn [fst snd]. by rewrite lookup_insert_eq.
    + destruct (m !! pid) as [x|] eqn:Hq; cbn [snd]; [by rewrite lookup_insert_ne|].
      destruct (GetMsgID uuid r0). cbn [fst snd]. by rewrite lookup_insert_ne.
Qed.

Lemma scatter_total route r ds :
  r_docs r = Some <$> ds -> (forall d, d ∈ ds -> exists pid, route d = Ret pid) ->
  exists r', scatter uuid route r = Ret r' /\ r_Err r' = r_Err r /\ r_docs r' = r_docs r /\
    docs_sent (r_sendMap r') ≡ₚ ds /\
    forall pid, r_sendMap r' !! pid = sent (GetMsgID uuid r).1 route ds pid.
Proof.
  intros Hdocs Hroute. unfold scatter.
  destruct (ofold_total (scatter_step uuid route) (scatter_inv route r) (r, ∅) (r_docs r))
    as ([r1 m] & Hrun & ds' & Hds' & (H1 & _ & H3 & _) & Hperm & Hm).
  - exists []. split_and!; done.
  - intros seen x st HI Hx. rewrite Hdocs in Hx. apply list_elem_of_fmap in Hx as (d & -> & Hd).
    destruct (Hroute d Hd) as [pid Hpid]. unfold scatter_step. rewrite Hpid. eexists. split; [reflexivity|].
    by apply scatter_step_inv.
  - rewrite Hdocs in Hds'. apply (inj (fmap Some)) in Hds' as <-. rewrite Hrun.
    eexists. split; [reflexivity|]. cbn [set_sendMap r_Err r_docs r_sendMap fst snd] in *. done.
Qed.
End Scatter.

(** Hashes are 32 bit. *)
Definition hash_u32 (hash : string -> Z) : Prop := forall k, in_u 32 (hash k).

Lemma hash_route_total hash s d :
  slots_ok (S_Partitions s) -> hash_u32 hash ->
  exists i p, S_Partitions s !! i = Some p /\ owns (S_Partitions s) (hash (D_PKey d)) i /\
              hash_route hash s d = Ret (P_Id p).
Proof. intros Hok Hh. apply PartitionId_owns; [done|]. apply Hh. Qed.

(** Reading and deleting by key: [PartitionDocs] sends every key once, to the
    partition whose slots hold its hash. *)
Theorem keys_routed_once (hash : string -> Z) (uuid : string) (r : routerRequest) (ds : list Document) :
  slots_ok (S_Partitions (r_space r)) -> hash_u32 hash -> r_Err r = None -> r_docs r = Some <$> ds ->
  exists r',
    PartitionDocs hash uuid r = Ret r' /\ r_Err r' = None /\ docs_sent (r_sendMap r') ≡ₚ ds /\
    (forall pid, r_sendMap r' !! pid = sent (GetMsgID uuid r).1 (hash_route hash (r_space r)) ds pid) /\
    (forall d pid, d ∈ ds -> hash_route hash (r_space r) d = Ret pid ->
       exists i p, S_Partitions (r_space r) !! i = Some p /\ P_Id p = pid /\
                   owns (S_Partitions (r_space r)) (hash (D_PKey d)) i).
Proof.
  intros Hok Hh Herr Hdocs.
  destruct (scatter_total uuid (hash_route hash (r_space r)) r ds Hdocs) as (r' & Hs & He & _ & Hp & Hm).
  { intros d _. destruct (hash_route_total hash (r_space r) d Hok Hh) as (i & p & _ & _ & ->). eauto. }
  exists r'. unfold PartitionDocs. rewrite Herr. split_and!; [done|by rewrite He|done|done|].
  intros d pid _ Hd. destruct (hash_route_total hash (r_space r) d Hok Hh) as (i & p & Hi & Ho & Hr).
  exists i, p. rewrite Hd in Hr. injection Hr as ->. done.
Qed.

Definition demo_parts : list Partition := [new_partition 5 "" 7 1 0; new_partition 9 "" 7 1 2147483647].
Definition demo_hash (k : string) : Z := if k =?s "a" then 3000000000 else 17.
Definition demo_doc (k : string) : Document := {| D_PKey := k; D_Fields := [] |}.
Definition demo_request (docs : list (option Document)) : routerRequest :=
  {| r_md := ∅; r_docs := docs; r_space := demo_space 2 None demo_parts; r_sendMap := ∅; r_Err := None |}.

Lemma demo_slots_ok : slots_ok demo_parts.
Proof. split; [repeat constructor|by eexists]. Qed.

Lemma demo_hash_u32 : hash_u32 demo_hash.
Proof. intros k. unfold demo_hash, in_u. destruct (k =?s "a"); lia. Qed.

Lemma keys_routed_once_witness :
  exists r', PartitionDocs demo_hash "m" (demo_request (Some <$> [demo_doc "a"; demo_doc "b"])) = Ret r' /\
    r_sendMap r' !! 9 = Some {| PD_PartitionID := 9; PD_MessageID := "m";
                                PD_Items := [new_item (demo_doc "a")];
                                PD_Payload := NoPayload; PD_Err := None |}.
Proof.
  destruct (keys_routed_once demo_hash "m" (demo_request (Some <$> [demo_doc "a"; demo_doc "b"]))
              [demo_doc "a"; demo_doc "b"]) as (r' & H1 & _ & _ & H2 & _);
    [exact demo_slots_ok|exact demo_hash_u32|reflexivity..|].
  exists r'. split; [exact H1|]. rewrite H2. reflexivity.
Defined.

(** ** Replies back in request order *)

Lemma elem_of_positions keys key k i :
  i ∈ positions k keys key <-> (k <= i)%nat /\ keys !! (i - k)%nat = Some key.
Proof.
  revert k. induction keys as [|x keys IH]; intros k; cbn [positions].
  - rewrite elem_of_nil. split; [done|]. intros [_ H]. by rewrite lookup_nil in H.
  - assert (i ∈ positions (S k) keys key <-> (k < i)%nat /\ (x :: keys) !! (i - k)%nat = Some key) as Hrest.
    { rewrite IH. split; intros [Hk H]; (split; [lia|]).
      - replace (i - k)%nat with (S (i - S k)) by lia. exact H.
      - replace (i - k)%nat with (S (i - S k)) in H by lia. exact H. }
    destruct (x =?s key) eqn:Hx; [apply string_eqb_eq in Hx as ->|apply string_eqb_neq in Hx].
    + rewrite elem_of_cons, Hrest. split.
      * intros [->|[? ?]]; [|by split; [lia|]]. split; [lia|]. by replace (k - k)%nat with 0%nat by lia.
      * intros [Hk H]. destruct (decide (i = k)); [by left|right]. split; [lia|done].
    + rewrite Hrest. split; intros [Hk H]; (split; [|done]); [lia|].
      destruct (decide (i = k)) as [->|]; [|lia]. rewrite Nat.sub_diag in H. simpl in H. congruence.
Qed.

Lemma fold_insert_lookup {A} (x : A) idx : forall l i,
  (fold_left (fun l j => <[j := x]> l) idx l) !! i =
    if decide (i ∈ idx /\ (i < length l)%nat) then Some x else l !! i.
Proof.
  induction idx as [|j idx IH]; intros l i; cbn [fold_left].
  - destruct (decide _) as [[H _]|]; [by apply elem_of_nil in H|done].
  - rewrite IH, length_insert. destruct (decide (i ∈ idx /\ (i < length l)%nat)) as [[Hi Hl]|Hn].
    + rewrite decide_True; [done|]. split; [by right|done].
    + destruct (decide (i = j)) as [->|Hne].
      * destruct (decide (j < length l)%nat) as [Hl|Hl].
        -- rewrite list_lookup_insert_eq by done. rewrite decide_True; [done|]. split; [by left|done].
        -- rewrite list_insert_ge by lia. rewrite decide_False; [done|]. intros [_ ?]. lia.
      * rewrite list_lookup_insert_ne by done. rewrite decide_False; [done|].
        intros [[->|?]%elem_of_cons ?]; [done|]. by apply Hn.
Qed.

(** The item that answers [key], if this is one. *)
Definition answers (key : string) (it : option Item) : bool :=
  match it with
  | Some item => match It_Doc item with Some doc => D_PKey doc =?s key | None => false end
  | None => false
  end.

Lemma place_lookup keys items it i key :
  length items = length keys -> keys !! i = Some key ->
  place keys items it !! i = if answers key it then Some it else items !! i.
Proof.
  intros Hlen Hkey. unfold place, answers. destruct it as [item|]; [|done].
  destruct (It_Doc item) as [doc|]; [|done]. rewrite fold_insert_lookup.
  pose proof (lookup_lt_Some _ _ _ Hkey).
  destruct (D_PKey doc =?s key) eqn:Hk; [apply string_eqb_eq in Hk|apply string_eqb_neq in Hk].
  - rewrite decide_True; [done|]. rewrite elem_of_positions, Nat.sub_0_r, Hk. split; [split; [lia|done]|lia].
  - rewrite decide_False; [done|]. rewrite elem_of_positions, Nat.sub_0_r. intros [[_ ?] _]. congruence.
Qed.

Lemma length_fold_insert {A} (x : A) idx : forall l, length (fold_left (fun l j => <[j := x]> l) idx l) = length l.
Proof. induction idx as [|j idx IH]; intros l; cbn [fold_left]; [done|]. by rewrite IH, length_insert. Qed.

Lemma length_place keys items it : length (place keys items it) = length items.
Proof.
  unfold place. destruct it as [item|]; [|done]. destruct (It_Doc item); [|done]. apply length_fold_insert.
Qed.

(** The last answer to [key] among the items that arrived. *)
Definition last_answer (key : string) (its : list (option Item)) : option Item :=
  fold_left (fun acc it => if answers key it then it else acc) its None.

Lemma fold_place_spec keys its : forall items,
  length items = length keys ->
  length (fold_left (place keys) its items) = length keys /\
  forall i key x, keys !! i = Some key -> items !! i = Some x ->
    fold_left (place keys) its items !! i =
      Some (fold_left (fun acc it => if answers key it then it else acc) its x).
Proof.
  induction its as [|it its IH]; intros items Hlen; cbn [fold_left]; [done|].
  destruct (IH (place keys items it)) as [H1 H2]; [by rewrite length_place|]. split; [done|].
  intros i key x Hkey Hx. apply H2; [done|]. rewrite (place_lookup keys items it i key) by done.
  by destruct (answers key it).
Qed.

Definition item_key (it : option Item) : option string :=
  match it with Some item => D_PKey <$> It_Doc item | None => None end.

Lemma answers_key key it : answers key it = true <-> item_key it = Some key.
Proof.
  unfold answers, item_key. destruct it as [item|]; [|done]. destruct (It_Doc item) as [doc|]; simpl; [|done].
  rewrite string_eqb_eq. split; [by intros ->|by intros [= ->]].
Qed.

Lemma last_answer_found key its : Some key ∈ item_key <$> its -> exists it, last_answer key its = Some it /\ item_key (Some it) = Some key.
Proof.
  unfold last_answer. generalize (@None Item). induction its as [|it its IH] using rev_ind; intros acc Hin.
  - by apply elem_of_nil in Hin.
  - rewrite fold_left_app. cbn [fold_left]. destruct (answers key it) eqn:Ha.
    + apply answers_key in Ha. destruct it as [it|]; [|done]. by exists it.
    + apply IH. rewrite fmap_app, elem_of_app in Hin. destruct Hin as [|Hin]; [done|].
      apply list_elem_of_singleton in Hin. symmetry in Hin. apply answers_key in Hin. congruence.
Qed.

(** Marking the items of a failed partition keeps their documents. *)
Lemma setPartitionErr_keys d :
  Forall is_Some (PD_Items d) ->
  exists d', setPartitionErr d = Ret d' /\ item_key <$> PD_Items d' = item_key <$> PD_Items d /\
    forall e, PD_Err d = Some e -> code_of e <> Some SUCCESS ->
      Forall (fun it => (it ≫= It_Err) = Some e) (PD_Items d').
Proof.
  intros Hsome. unfold setPartitionErr. destruct (PD_Err d) as [e|]; [|by exists d].
  destruct (bool_decide _) eqn:Hc; [apply bool_decide_eq_true in Hc|apply bool_decide_eq_false in Hc].
  { exists d. split_and!; [done..|]. intros e' [= <-]. done. }
  edestruct (ofold_total (E := error) (fun acc it => match it with
      | None => Panic NilDeref
      | Some it => Ret (acc ++ [Some {| It_Doc := It_Doc it; It_Err := Some e |}])
      end) (fun seen acc => item_key <$> acc = item_key <$> seen /\ Forall (fun it => (it ≫= It_Err) = Some e) acc)
      [] (PD_Items d)) as (its & -> & Hk & He); [by split; [|constructor]| |].
  - intros seen it acc [HI HF] Hin. rewrite Forall_forall in Hsome. destruct (Hsome it Hin) as [x ->].
    eexists. split; [reflexivity|]. rewrite !fmap_app, HI. split; [done|]. apply Forall_app. by repeat constructor.
  - cbn [obind]. eexists. split; [reflexivity|]. split; [exact Hk|]. intros e' [= <-] _. exact He.
Qed.

Lemma doc_keys_some ds : doc_keys (Some <$> ds) = Ret (D_PKey <$> ds).
Proof.
  unfold doc_keys. induction ds as [|d ds IH] using rev_ind; [done|].
  rewrite !fmap_app, ofold_app, IH. done.
Qed.

(** An item of one of the replies, as [setPartitionErr] leaves it. *)
Definition replied (resps : list PartitionData) (it : option Item) : Prop :=
  exists resp resp', resp ∈ resps /\ setPartitionErr resp = Ret resp' /\ it ∈ PD_Items resp'.

(** Collecting never fails on well-formed replies, and what ends up at a
    position is the last item that answers its key. *)
Lemma gather_spec ds resps :
  Forall (fun resp => Forall is_Some (PD_Items resp)) resps ->
  exists items its, gather (Some <$> ds) resps = Ret items /\ length items = length ds /\
    item_key <$> its = item_key <$> (resps ≫= PD_Items) /\ Forall (replied resps) its /\
    forall i d, ds !! i = Some d -> items !! i = Some (last_answer (D_PKey d) its).
Proof.
  intros Hok. unfold gather. rewrite doc_keys_some. cbn [obind]. rewrite length_fmap.
  edestruct (ofold_total (E := error) (fun items resp => let! d := setPartitionErr resp in Ret (fold_left (place (D_PKey <$> ds)) (PD_Items d) items))
    (fun seen items => length items = length ds /\ exists its, item_key <$> its = item_key <$> (seen ≫= PD_Items) /\ Forall (replied resps) its /\
       forall i d, ds !! i = Some d -> items !! i = Some (last_answer (D_PKey d) its)) (replicate (length ds) None) resps)
    as (items & Hrun & Hlen & its & H1 & H2 & H3).
  - rewrite length_replicate. split; [done|]. exists []. split; [done|]. split; [done|]. intros i d Hd.
    rewrite lookup_replicate_2; [done|]. by eapply lookup_lt_Some.
  - intros seen resp items (Hlen & its & Hk & Hrep & Hlk) Hin. rewrite Forall_forall in Hok.
    destruct (setPartitionErr_keys resp (Hok resp Hin)) as (d' & Hset & Hd' & _). rewrite Hset. cbn [obind].
    destruct (fold_place_spec (D_PKey <$> ds) (PD_Items d') items) as [Hl Hp]; [by rewrite length_fmap|].
    eexists. split; [reflexivity|]. rewrite Hl, length_fmap. split; [done|]. exists (its ++ PD_Items d').
    rewrite bind_app, !fmap_app, Hk, Hd'. cbn. rewrite app_nil_r. split; [done|]. split.
    { apply Forall_app_2; [done|]. apply Forall_forall. intros it Hit. by exists resp, d'. }
    intros i d Hd. erewrite Hp; [|by rewrite list_lookup_fmap, Hd|by apply Hlk].
    unfold last_answer. by rewrite fold_left_app.
  - by exists items, its.
Qed.

Lemma last_answer_in key its it : last_answer key its = Some it -> Some it ∈ its.
Proof.
  unfold last_answer. induction its as [|x its IH] using rev_ind; [done|]. rewrite fold_left_app. cbn [fold_left]. destruct (answers key x).
  - intros ->. apply elem_of_app. right. by left.
  - intros H. apply elem_of_app. left. by apply IH.
Qed.

Lemma docs_sent_message m d :
  d ∈ docs_sent m -> exists x, x ∈ snd <$> map_to_list m /\ Some (D_PKey d) ∈ item_key <$> PD_Items x.
Proof.
  unfold docs_sent. intros ([k x] & Hd & Hx)%list_elem_of_bind. exists x.
  split; [apply list_elem_of_fmap; by exists (k, x)|].
  apply list_elem_of_omap in Hd as ([it|] & Hit & Hdoc); [|done]. apply list_elem_of_fmap. exists (Some it).
  split; [|done]. simpl. by rewrite Hdoc.
Qed.

(** A reply has an item for every document of the message it replies to. *)
Definition reply_to (d resp : PartitionData) : Prop :=
  Forall is_Some (PD_Items resp) /\ forall key, Some key ∈ item_key <$> PD_Items d -> Some key ∈ item_key <$> PD_Items resp.

Lemma gathered (uuid : string) (route : Document -> go Z) (r r' : routerRequest) (ds : list Document)
    (messages resps : list PartitionData) :
  r_docs r = Some <$> ds -> (forall d, d ∈ ds -> exists pid, route d = Ret pid) ->
  scatter uuid route r = Ret r' ->
  snd <$> map_to_list (r_sendMap r') ≡ₚ messages -> Forall2 reply_to messages resps ->
  exists items, gather (r_docs r') resps = Ret items /\ length items = length ds /\
    forall i d, ds !! i = Some d ->
      exists it, items !! i = Some (Some it) /\ item_key (Some it) = Some (D_PKey d) /\ replied resps (Some it).
Proof.
  intros Hdocs Hroute Hrun Hmsgs Hreply.
  destruct (scatter_total uuid route r ds Hdocs Hroute) as (r1 & Hs & _ & Hd1 & Hp & _).
  rewrite Hs in Hrun. injection Hrun as <-. rewrite Hd1, Hdocs.
  destruct (gather_spec ds resps) as (items & its & -> & Hlen & Hkeys & Hrep & Hlk).
  { apply Forall_lookup. intros k resp Hk. by destruct (Forall2_lookup_r _ _ _ _ _ Hreply Hk) as (m & _ & ? & _). }
  exists items. split_and!; [done..|]. intros i d Hd. rewrite (Hlk i d Hd).
  destruct (last_answer_found (D_PKey d) its) as (it & Hl & Hit).
  2: { rewrite Hl. exists it. split; [done|]. split; [done|]. rewrite Forall_forall in Hrep. apply Hrep. by eapply last_answer_in. }
  assert (d ∈ docs_sent (r_sendMap r1)) as Hin by (rewrite Hp; by apply list_elem_of_lookup_2 in Hd).
  apply docs_sent_message in Hin as (m & Hm & Hdoc). rewrite Hmsgs in Hm.
  apply list_elem_of_lookup in Hm as [k Hk]. destruct (Forall2_lookup_l _ _ _ _ _ Hreply Hk) as (resp & Hresp & _ & Hall).
  rewrite Hkeys. apply list_elem_of_fmap in Hdoc as (x & Hx & Hxm).
  assert (Some (D_PKey d) ∈ item_key <$> PD_Items resp) as Hans by (apply Hall, list_elem_of_fmap; by exists x).
  apply list_elem_of_fmap in Hans as (y & Hy & Hyr). rewrite Hy. apply list_elem_of_fmap_2.
  apply list_elem_of_bind. exists resp. split; [done|]. by eapply list_elem_of_lookup_2.
Qed.

(** The whole trip: documents spread by [PartitionDocs], replies of the
    partitions (successful or failed) collected in any order of arrival; each
    position of the answer holds an item for the document of that position. *)
Theorem scatter_gather (hash : string -> Z) (uuid : string) (r r' : routerRequest) (ds : list Document)
    (messages resps : list PartitionData) :
  slots_ok (S_Partitions (r_space r)) -> hash_u32 hash -> r_Err r = None -> r_docs r = Some <$> ds ->
  PartitionDocs hash uuid r = Ret r' ->
  snd <$> map_to_list (r_sendMap r') ≡ₚ messages -> Forall2 reply_to messages resps ->
  exists items, gather (r_docs r') resps = Ret items /\ length items = length ds /\
    forall i d, ds !! i = Some d ->
      exists it, items !! i = Some (Some it) /\ item_key (Some it) = Some (D_PKey d).
Proof.
  intros Hok Hh Herr Hdocs Hrun Hmsgs Hreply. unfold PartitionDocs in Hrun. rewrite Herr in Hrun.
  destruct (gathered uuid (hash_route hash (r_space r)) r r' ds messages resps Hdocs) as (items & Hg & Hlen & Hall); [|done..|].
  { intros d _. destruct (hash_route_total hash (r_space r) d Hok Hh) as (i & p & _ & _ & ->). eauto. }
  exists items. split_and!; [done..|]. intros i d Hd. destruct (Hall i d Hd) as (it & ? & ? & _). by exists it.
Qed.

Definition demo_reply (pid : Z) (d : Document) : PartitionData :=
  {| PD_PartitionID := pid; PD_MessageID := "m"; PD_Items := [new_item d]; PD_Payload := NoPayload; PD_Err := None |}.

Lemma scatter_gather_witness :
  exists r' items, PartitionDocs demo_hash "m" (demo_request (Some <$> [demo_doc "a"; demo_doc "b"])) = Ret r' /\
    gather (r_docs r') [demo_reply 5 (demo_doc "b"); demo_reply 9 (demo_doc "a")] = Ret items /\ length items = 2%nat.
Proof.
  eexists. destruct (scatter_gather demo_hash "m" (demo_request (Some <$> [demo_doc "a"; demo_doc "b"]))
    {| r_md := {[MessageID := "m"]}; r_docs := Some <$> [demo_doc "a"; demo_doc "b"];
       r_space := demo_space 2 None demo_parts;
       r_sendMap := {[9 := demo_reply 9 (demo_doc "a"); 5 := demo_reply 5 (demo_doc "b")]}; r_Err := None |}
    [demo_doc "a"; demo_doc "b"]
    [demo_reply 5 (demo_doc "b"); demo_reply 9 (demo_doc "a")] [demo_reply 5 (demo_doc "b"); demo_reply 9 (demo_doc "a")])
    as (items & Hg & Hlen & _).
  - exact demo_slots_ok.
  - exact demo_hash_u32.
  - reflexivity.
  - reflexivity.
  - vm_compute. reflexivity.
  - vm_compute. solve [apply Permutation_refl|apply perm_swap].
  - constructor; [|constructor; [|constructor]]; (split; [by repeat constructor|intros key Hkey; exact Hkey]).
  - exists items. split; [vm_compute; reflexivity|]. split; [exact Hg|exact Hlen].
Defined.

(** ** Routing by range *)

Section RangeRouting.
Context (hash : string -> Z) (ToInt64E ToTimeE : string -> option Z).

Definition bounds_of (ranges : list Range) (bounds : list Z) : Prop :=
  Forall2 (fun r b => ToTimestamp ToInt64E ToTimeE (R_Value r) = Ret b) ranges bounds.

(** The [k]-th range holds the times from the previous bound up to its own. *)
Definition in_range (bounds : list Z) (ts : Z) (k : nat) : Prop :=
  (exists b, bounds !! k = Some b /\ ts < b) /\
  (forall j b, (j < k)%nat -> bounds !! j = Some b -> b <= ts).

Lemma range_of_spec ranges bounds ts :
  bounds_of ranges bounds ->
  (exists k r, ranges !! k = Some r /\ in_range bounds ts k /\ range_of ToInt64E ToTimeE ranges ts = Ret (Some (R_Name r))) \/
  (Forall (fun b => b <= ts) bounds /\ range_of ToInt64E ToTimeE ranges ts = Ret None).
Proof.
  induction 1 as [|r b ranges bounds Hb _ IH]; cbn [range_of]; [by right|].
  rewrite Hb. cbn [obind]. destruct (Z.ltb_spec ts b) as [Hlt|Hge].
  - left. exists 0%nat, r. split_and!; [done| |done]. split; [by exists b|]. lia.
  - destruct IH as [(k & r' & Hr & [(b' & Hb' & Hlt) Hprev] & Heq)|[Hall Heq]].
    + left. exists (S k), r'. split_and!; [done| |done]. split; [by exists b'|].
      intros [|j] x Hj Hx; simpl in Hx; [by simplify_eq|]. apply (Hprev j x); [lia|done].
    + right. split; [by constructor|done].
Qed.

Lemma pick_by_hash_spec key pids :
  pids <> [] -> Z.of_nat (length pids) <= MaxUint32 -> hash_u32 hash ->
  exists pid, pick_by_hash hash key pids = Ret pid /\ pids !! Z.to_nat (hash key mod Z.of_nat (length pids)) = Some pid.
Proof.
  intros Hne Hmax Hh. assert (0 < length pids)%nat by (destruct pids; simpl; [done|lia]).
  unfold pick_by_hash, u32. rewrite wrap_u_id by (unfold in_u, MaxUint32 in *; lia).
  destruct (Z.eqb_spec (Z.of_nat (length pids)) 0); [lia|].
  pose proof (Z.mod_pos_bound (hash key) (Z.of_nat (length pids)) ltac:(lia)).
  destruct (lookup_lt_is_Some_2 pids (Z.to_nat (hash key mod Z.of_nat (length pids)))) as [pid Hpid]; [lia|].
  exists pid. split; [|done]. apply index_at_lookup; [lia|done].
Qed.

Lemma route_by_rule_first s rule key pre f post :
  Forall (fun g => DF_Name g <> PR_Field rule) pre -> DF_Name f = PR_Field rule ->
  route_by_rule hash ToInt64E ToTimeE s rule key (pre ++ f :: post) =
    (let! pids := PartitionIdsByRangeField ToInt64E ToTimeE s (DF_Value f) in
     if (length pids =? 1)%nat then index_at pids 0 else pick_by_hash hash key pids).
Proof.
  intros Hpre Hf. induction Hpre as [|g pre Hg _ IH]; cbn [app route_by_rule].
  - by rewrite (proj2 (string_eqb_eq _ _) Hf).
  - by rewrite (proj2 (string_eqb_neq _ _) Hg).
Qed.

(** The ids of the partitions that carry a range's name. *)
Definition range_pids (s : Space) (name : string) : list Z := P_Id <$> filter (fun p => P_Name p = name) (S_Partitions s).

(** A document of a space with a range rule goes to a partition of the range
    whose interval holds the value of its rule field, chosen by the hash of
    its key; a value at or above every bound is refused; a range that lost
    its partitions makes the router divide by zero. *)
Theorem range_routing (s : Space) (rule : PartitionRule) (bounds : list Z) (key : string)
    (pre post : list DocField) (f : DocField) (ts : Z) :
  S_PartitionRule s = Some rule -> length (S_Partitions s) <> 1%nat ->
  Z.of_nat (length (S_Partitions s)) <= MaxUint32 -> hash_u32 hash ->
  bounds_of (PR_Ranges rule) bounds ->
  Forall (fun g => DF_Name g <> PR_Field rule) pre -> DF_Name f = PR_Field rule ->
  Bytes.Bytes2Int (DF_Value f) = Ret ts ->
  (exists k r, PR_Ranges rule !! k = Some r /\ in_range bounds ts k /\
     (range_pids s (R_Name r) <> [] ->
      exists pid, pid ∈ range_pids s (R_Name r) /\
        route_by_rule hash ToInt64E ToTimeE s rule key (pre ++ f :: post) = Ret pid) /\
     (range_pids s (R_Name r) = [] ->
      route_by_rule hash ToInt64E ToTimeE s rule key (pre ++ f :: post) = Panic DivZero)) \/
  (Forall (fun b => b <= ts) bounds /\
   exists e, route_by_rule hash ToInt64E ToTimeE s rule key (pre ++ f :: post) = Fail e /\ code_of e = Some PARAM_ERROR).
Proof.
  intros Hrule Hlen Hmax Hh Hb Hpre Hf Hts.
  rewrite !route_by_rule_first by done.
  unfold PartitionIdsByRangeField. cbn zeta. rewrite (proj2 (Nat.eqb_neq _ _) Hlen), Hts, Hrule. cbn [obind].
  destruct (range_of_spec (PR_Ranges rule) bounds ts Hb) as [(k & r & Hr & Hin & ->)|[Hall ->]]; cbn [obind].
  - left. exists k, r. split_and!; [done..| |]; fold (range_pids s (R_Name r)).
    + intros Hne. assert (Z.of_nat (length (range_pids s (R_Name r))) <= MaxUint32) as Hl.
      { unfold range_pids. rewrite length_fmap. pose proof (length_filter (fun p => P_Name p = R_Name r) (S_Partitions s)). lia. }
      destruct (pick_by_hash_spec key _ Hne Hl Hh) as (pid & Hp & Hlk).
      destruct (Nat.eqb_spec (length (range_pids s (R_Name r))) 1) as [H1|_].
      * destruct (range_pids s (R_Name r)) as [|x [|]]; simplify_eq/=. exists x. split; [by left|done].
      * exists pid. split; [by eapply list_elem_of_lookup_2|done].
    + by intros ->.
  - right. split; [done|]. eexists. split; [reflexivity|]. apply NewError_fresh_code.
Qed.
(** ** Every document goes to its place *)

(** The upper bound of a range; a bound that cannot be read counts as zero. *)
Definition range_bound (r : Range) : Z :=
  match ToTimestamp ToInt64E ToTimeE (R_Value r) with Ret b => b | _ => 0 end.

Lemma range_of_bound ranges ts name :
  range_of ToInt64E ToTimeE ranges ts = Ret (Some name) <->
  exists k r, ranges !! k = Some r /\ in_range (range_bound <$> ranges) ts k /\ R_Name r = name.
Proof.
  induction ranges as [|r ranges IH]; cbn [range_of fmap list_fmap].
  { split; [done|]. intros (k & r & Hr & _). by rewrite lookup_nil in Hr. }
  assert ((match ToTimestamp ToInt64E ToTimeE (R_Value r) with Fail _ => Ret 0 | m => m end) = Ret (E := error) (range_bound r)) as ->.
  { unfold range_bound, ToTimestamp. destruct (ToInt64E _); [done|]. by destruct (ToTimeE _). }
  cbn [obind]. destruct (Z.ltb_spec ts (range_bound r)) as [Hlt|Hge].
  - split.
    + intros [= <-]. exists 0%nat, r. split_and!; [done| |done]. split; [by eexists|]. lia.
    + intros ([|k] & r' & Hr & [_ Hprev] & <-); simpl in Hr; [by simplify_eq|].
      specialize (Hprev 0%nat (range_bound r) ltac:(lia) eq_refl). lia.
  - rewrite IH. split; intros (k & r' & Hr & [(b & Hb & Hlt) Hprev] & <-).
    + exists (S k), r'. split_and!; [done| |done]. split; [by exists b|].
      intros [|j] x Hj Hx; simpl in Hx; [by simplify_eq|]. apply (Hprev j x); [lia|done].
    + destruct k as [|k]; simpl in Hr, Hb; [simplify_eq; lia|]. exists k, r'. split_and!; [done| |done].
      split; [by exists b|]. intros j x Hj Hx. apply (Hprev (S j) x); [lia|done].
Qed.

(** The partition of a list a key is spread to. *)
Definition spread_to (key : string) (pids : list Z) (pid : Z) : Prop :=
  pids !! Z.to_nat (hash key mod Z.of_nat (length pids)) = Some pid.

Lemma pick_by_hash_iff key pids pid :
  Z.of_nat (length pids) <= MaxUint32 -> hash_u32 hash ->
  pick_by_hash hash key pids = Ret pid <-> spread_to key pids pid.
Proof.
  intros Hmax Hh. unfold spread_to. destruct (decide (pids = [])) as [->|Hne].
  { rewrite lookup_nil. done. }
  destruct (pick_by_hash_spec key pids Hne Hmax Hh) as (pid' & -> & ->). naive_solver.
Qed.

(** Where the rule of a space wants a document: the first field named by the
    rule decides; a space with a single partition takes every value, otherwise
    the value selects the range that holds it and the hash of the key one of
    the range's partitions. *)
Definition rule_place (s : Space) (rule : PartitionRule) (d : Document) (pid : Z) : Prop :=
  exists pre f post, D_Fields d = pre ++ f :: post /\
    Forall (fun g => DF_Name g <> PR_Field rule) pre /\ DF_Name f = PR_Field rule /\
    ((exists p, S_Partitions s = [p] /\ pid = P_Id p) \/
     (length (S_Partitions s) <> 1%nat /\ exists ts k r, Bytes.Bytes2Int (DF_Value f) = Ret ts /\
        PR_Ranges rule !! k = Some r /\ in_range (range_bound <$> PR_Ranges rule) ts k /\
        spread_to (D_PKey d) (range_pids s (R_Name r)) pid)).

(** Where a document belongs: by the rule of the space; without a rule, to one
    of the partitions the request names, or to the owner of its hash. *)
Definition proper_place (s : Space) (partitions : list Z) (d : Document) (pid : Z) : Prop :=
  match S_PartitionRule s with
  | Some rule => rule_place s rule d pid
  | None =>
    if (length partitions =? 0)%nat
    then exists i p, S_Partitions s !! i = Some p /\ P_Id p = pid /\ owns (S_Partitions s) (hash (D_PKey d)) i
    else spread_to (D_PKey d) partitions pid
  end.

Definition upsert_route (s : Space) (partitions : list Z) (doc : Document) : go Z :=
  match S_PartitionRule s with
  | Some rule => route_by_rule hash ToInt64E ToTimeE s rule (D_PKey doc) (D_Fields doc)
  | None => if (length partitions =? 0)%nat then hash_route hash s doc else pick_by_hash hash (D_PKey doc) partitions
  end.

Lemma UpsertByPartitions_scatter uuid partitions r :
  r_Err r = None ->
  UpsertByPartitions hash uuid ToInt64E ToTimeE partitions r = scatter uuid (upsert_route (r_space r) partitions) r.
Proof. intros Herr. unfold UpsertByPartitions, upsert_route. rewrite Herr. by destruct (S_PartitionRule (r_space r)). Qed.

Lemma PartitionIdsByRangeField_iff s rule value pids :
  S_PartitionRule s = Some rule ->
  PartitionIdsByRangeField ToInt64E ToTimeE s value = Ret pids <->
  (exists p, S_Partitions s = [p] /\ pids = [P_Id p]) \/
  (length (S_Partitions s) <> 1%nat /\ exists ts k r, Bytes.Bytes2Int value = Ret ts /\
     PR_Ranges rule !! k = Some r /\ in_range (range_bound <$> PR_Ranges rule) ts k /\ pids = range_pids s (R_Name r)).
Proof.
  intros Hrule. unfold PartitionIdsByRangeField. cbn zeta.
  destruct (Nat.eqb_spec (length (S_Partitions s)) 1) as [H1|Hn].
  - destruct (S_Partitions s) as [|p [|]]; [done| |done]. cbn. naive_solver.
  - rewrite Hrule. destruct (Bytes.Bytes2Int value) as [ts| |] eqn:Hts; cbn [obind].
    2,3: split; [done|]; intros [(q & Hq & _)|(_ & ts & k & r & ? & _)]; [by rewrite Hq in Hn|done].
    destruct (range_of ToInt64E ToTimeE (PR_Ranges rule) ts) as [[name|]| |] eqn:Hr; cbn [obind].
    + apply range_of_bound in Hr as Hr'. destruct Hr' as (k & r & Hk & Hin & Hname).
      split.
      * intros [= <-]. right. split; [done|]. exists ts, k, r. rewrite Hname. done.
      * intros [(q & Hq & _)|(_ & ts' & k' & r' & [= <-] & Hk' & Hin' & ->)]; [by rewrite Hq in Hn|].
        rewrite (proj2 (range_of_bound _ _ (R_Name r'))) in Hr by eauto. by injection Hr as <-.
    + split; [done|]. intros [(q & Hq & _)|(_ & ts' & k & r & [= <-] & Hk & Hin & _)]; [by rewrite Hq in Hn|].
      rewrite (proj2 (range_of_bound _ _ (R_Name r))) in Hr by eauto. done.
    + split; [done|]. intros [(q & Hq & _)|(_ & ts' & k & r & [= <-] & Hk & Hin & _)]; [by rewrite Hq in Hn|].
      rewrite (proj2 (range_of_bound _ _ (R_Name r))) in Hr by eauto. done.
    + split; [done|]. intros [(q & Hq & _)|(_ & ts' & k & r & [= <-] & Hk & Hin & _)]; [by rewrite Hq in Hn|].
      rewrite (proj2 (range_of_bound _ _ (R_Name r))) in Hr by eauto. done.
Qed.
Lemma first_field (name : string) (fs : list DocField) :
  Forall (fun g => DF_Name g <> name) fs \/
  exists pre f post, fs = pre ++ f :: post /\ Forall (fun g => DF_Name g <> name) pre /\ DF_Name f = name.
Proof.
  induction fs as [|g fs IH]; [by left|]. destruct (decide (DF_Name g = name)) as [Hg|Hg].
  - right. by exists [], g, fs.
  - destruct IH as [Hall|(pre & f & post & -> & Hpre & Hf)]; [by left; constructor|].
    right. exists (g :: pre), f, post. split_and!; [done|by constructor|done].
Qed.

Lemma first_field_unique (name : string) pre f post pre' f' post' :
  pre ++ f :: post = pre' ++ f' :: post' ->
  Forall (fun g => DF_Name g <> name) pre -> DF_Name f = name ->
  Forall (fun g => DF_Name g <> name) pre' -> DF_Name f' = name -> f = f'.
Proof.
  revert pre'. induction pre as [|g pre IH]; intros [|g' pre'] Heq Hpre Hf Hpre' Hf'; simplify_eq/=; [done|..].
  - by apply Forall_cons in Hpre' as [? _].
  - by apply Forall_cons in Hpre as [? _].
  - apply Forall_cons in Hpre as [_ ?]. apply Forall_cons in Hpre' as [_ ?]. by apply (IH pre').
Qed.

Lemma pick_in_range s name key pid :
  Z.of_nat (length (S_Partitions s)) <= MaxUint32 -> hash_u32 hash ->
  (if (length (range_pids s name) =? 1)%nat then index_at (range_pids s name) 0
   else pick_by_hash hash key (range_pids s name)) = Ret pid <-> spread_to key (range_pids s name) pid.
Proof.
  intros Hmax Hh. destruct (Nat.eqb_spec (length (range_pids s name)) 1) as [H1|_].
  - unfold spread_to. rewrite H1. change (Z.of_nat 1) with 1. rewrite Z.mod_1_r.
    destruct (range_pids s name) as [|x [|]]; [done| |done]. cbn. naive_solver.
  - apply pick_by_hash_iff; [|done]. unfold range_pids. rewrite length_fmap.
    pose proof (length_filter (fun p => P_Name p = name) (S_Partitions s)). lia.
Qed.

Lemma route_by_rule_iff s rule d pid :
  S_PartitionRule s = Some rule -> Z.of_nat (length (S_Partitions s)) <= MaxUint32 -> hash_u32 hash ->
  route_by_rule hash ToInt64E ToTimeE s rule (D_PKey d) (D_Fields d) = Ret pid <-> rule_place s rule d pid.
Proof.
  intros Hrule Hmax Hh. unfold rule_place.
  destruct (first_field (PR_Field rule) (D_Fields d)) as [Hall|(pre & f & post & Hd & Hpre & Hf)].
  - split.
    + intros H. exfalso. induction Hall as [|g fs Hg _ IH]; cbn [route_by_rule] in H; [done|].
      rewrite (proj2 (string_eqb_neq _ _) Hg) in H. by apply IH.
    + intros (pre & f & post & Hd & _ & Hf & _). rewrite Hd in Hall.
      apply Forall_app in Hall as [_ [? _]%Forall_cons]. done.
  - rewrite Hd, route_by_rule_first by done. split.
    + intros (pids & Hp & H)%obind_ret_inv. exists pre, f, post. split_and!; [done..|].
      apply (PartitionIdsByRangeField_iff s rule) in Hp; [|done].
      destruct Hp as [(p & Hp & ->)|(Hn & ts & k & r & Hts & Hk & Hin & ->)].
      * left. exists p. split; [done|]. by injection H as <-.
      * right. split; [done|]. exists ts, k, r. split_and!; [done..|]. by apply pick_in_range in H.
    + intros (pre' & f' & post' & Heq & Hpre' & Hf' & H).
      assert (f = f') as <- by (by eapply first_field_unique).
      destruct H as [(p & Hp & ->)|(Hn & ts & k & r & Hts & Hk & Hin & Hs)].
      * rewrite (proj2 (PartitionIdsByRangeField_iff s rule (DF_Value f) [P_Id p] Hrule)) by (left; eauto). done.
      * rewrite (proj2 (PartitionIdsByRangeField_iff s rule (DF_Value f) (range_pids s (R_Name r)) Hrule)).
        -- cbn [obind]. by apply pick_in_range.
        -- right. split; [done|]. by exists ts, k, r.
Qed.

(** What the routing needs of a space: a layout of slots when documents go by
    the hash alone, and counts that fit in 32 bits. *)
Definition routable (s : Space) (partitions : list Z) : Prop :=
  hash_u32 hash /\ Z.of_nat (length (S_Partitions s)) <= MaxUint32 /\ Z.of_nat (length partitions) <= MaxUint32 /\
  (S_PartitionRule s = None -> partitions = [] -> slots_ok (S_Partitions s)).

Lemma upsert_route_iff s partitions d pid :
  routable s partitions -> upsert_route s partitions d = Ret pid <-> proper_place s partitions d pid.
Proof.
  intros (Hh & Hmax & Hmaxp & Hslots). unfold upsert_route, proper_place.
  destruct (S_PartitionRule s) as [rule|] eqn:Hrule; [by apply route_by_rule_iff|].
  destruct partitions as [|q partitions]; cbn [length Nat.eqb]; [|by apply pick_by_hash_iff].
  specialize (Hslots eq_refl eq_refl).
  destruct (hash_route_total hash s d Hslots Hh) as (i & p & Hi & Ho & ->). split.
  - intros [= <-]. by exists i, p.
  - intros (j & p' & Hj & <- & Ho'). rewrite (owns_unique _ _ _ _ (proj1 Hslots) Ho' Ho) in Hj. congruence.
Qed.

(** What a partition is sent: the documents that belong there, in the order of
    the request, under the message id; nothing when there are none. *)
Definition message_for (msg : string) (place : Document -> Z) (ds : list Document) (pid : Z) : option PartitionData :=
  match filter (fun d => place d = pid) ds with
  | [] => None
  | l => Some {| PD_PartitionID := pid; PD_MessageID := msg; PD_Items := new_item <$> l;
                 PD_Payload := NoPayload; PD_Err := None |}
  end.

Lemma sent_message_for msg route ds pid :
  (forall d, d ∈ ds -> exists p, route d = Ret p) ->
  sent msg route ds pid = message_for msg (fun d => match route d with Ret p => p | _ => 0 end) ds pid.
Proof.
  intros Hall. unfold sent, message_for.
  assert (filter (fun d => routes_to route pid d = true) ds =
          filter (fun d => (match route d with Ret p => p | _ => 0 end) = pid) ds) as ->; [|done].
  induction ds as [|d ds IH]; [done|]. rewrite !filter_cons, IH by (intros x Hx; apply Hall; by right).
  destruct (Hall d) as [p Hp]; [by left|].
  assert (routes_to route pid d = true <-> (match route d with Ret p => p | _ => 0 end) = pid) as Hiff.
  { unfold routes_to. rewrite Hp. apply Z.eqb_eq. }
  by destruct (decide (routes_to route pid d = true)), (decide (_ = pid)); tauto.
Qed.

Lemma scatter_refused uuid route r ds d :
  r_docs r = Some <$> ds -> d ∈ ds -> (forall pid, route d <> Ret pid) ->
  (exists p, scatter uuid route r = Panic p) \/
  (exists r' e, scatter uuid route r = Ret r' /\ r_Err r' = Some e /\ r_sendMap r' = r_sendMap r).
Proof.
  intros Hdocs Hd Hno. unfold scatter. rewrite Hdocs. clear Hdocs.
  cut (forall m r1, r_sendMap r1 = r_sendMap r ->
    (exists p, ofold (scatter_step uuid route) (r1, m) (Some <$> ds) = Panic p) \/
    (exists e r2, ofold (scatter_step uuid route) (r1, m) (Some <$> ds) = Fail (e, r2) /\ r_sendMap r2 = r_sendMap r)).
  { intros Hcut. destruct (Hcut ∅ r eq_refl) as [(p & ->)|(e & r2 & -> & Hr2)]; [left; by exists p|].
    right. exists (set_Err e r2), e. done. }
  induction ds as [|x ds IH]; [by apply elem_of_nil in Hd|]. intros m r1 Hr1. cbn [fmap list_fmap ofold].
  unfold scatter_step at 1 3. destruct (route x) as [pid|e|p] eqn:Hx; cbn [obind].
  - apply elem_of_cons in Hd as [->|Hd]; [by destruct (Hno pid)|].
    destruct (add_item uuid (r1, m) pid x) as [r2 m2] eqn:Ha. apply IH; [done|].
    unfold add_item in Ha. destruct (m !! pid); [by simplify_eq|].
    unfold GetMsgID in Ha. by destruct (r_md r1 !! MessageID); simplify_eq.
  - right. by exists e, r1.
  - left. by exists p.
Qed.

(** A request that leaves the loop without an error has routed every document. *)
Lemma scatter_routes uuid route r r' ds :
  r_docs r = Some <$> ds -> scatter uuid route r = Ret r' -> r_Err r' = None ->
  forall d, d ∈ ds -> exists pid, route d = Ret pid.
Proof.
  intros Hdocs Hrun Herr d Hd. destruct (route d) as [pid|e|p] eqn:Hr; [by exists pid|exfalso..].
  all: destruct (scatter_refused uuid route r ds d Hdocs Hd) as [(q & Hq)|(r1 & e1 & H1 & H2 & _)]; [by rewrite Hr|congruence..].
Qed.

(** [UpsertByPartitions] on any space and any list of partitions: when every
    document has a place, each is sent exactly once, to the partition it
    belongs to, in the order of the request and under one message id; when
    some document has none (its rule field is missing, no range holds the
    value, or the range has no partition) nothing is sent: the request fails,
    or the router panics.  (C2) *)
Theorem documents_routed_once (uuid : string) (partitions : list Z) (r : routerRequest) (ds : list Document) :
  routable (r_space r) partitions -> r_Err r = None -> r_docs r = Some <$> ds ->
  ((forall d, d ∈ ds -> exists pid, proper_place (r_space r) partitions d pid) ->
   exists r' (place : Document -> Z),
     UpsertByPartitions hash uuid ToInt64E ToTimeE partitions r = Ret r' /\ r_Err r' = None /\
     docs_sent (r_sendMap r') ≡ₚ ds /\
     (forall d, d ∈ ds -> proper_place (r_space r) partitions d (place d) /\
        forall pid, proper_place (r_space r) partitions d pid -> pid = place d) /\
     (forall pid, r_sendMap r' !! pid = message_for (GetMsgID uuid r).1 place ds pid)) /\
  (forall d, d ∈ ds -> (forall pid, ~ proper_place (r_space r) partitions d pid) ->
   (exists p, UpsertByPartitions hash uuid ToInt64E ToTimeE partitions r = Panic p) \/
   (exists r' e, UpsertByPartitions hash uuid ToInt64E ToTimeE partitions r = Ret r' /\
      r_Err r' = Some e /\ r_sendMap r' = r_sendMap r)).
Proof.
  intros Hok Herr Hdocs. rewrite UpsertByPartitions_scatter by done. split.
  - intros Hall. set (route := upsert_route (r_space r) partitions).
    assert (forall d, d ∈ ds -> exists pid, route d = Ret pid) as Hroute.
    { intros d [pid Hpid]%Hall. exists pid. by apply upsert_route_iff. }
    destruct (scatter_total uuid route r ds Hdocs Hroute) as (r' & Hs & He & _ & Hp & Hm).
    exists r', (fun d => match route d with Ret p => p | _ => 0 end).
    split_and!; [done|by rewrite He|done| |].
    + intros d Hd. destruct (Hroute d Hd) as [pid Hpid]. rewrite Hpid. split; [by apply upsert_route_iff|].
      intros pid' Hp'. apply upsert_route_iff in Hp'; [|done]. fold route in Hp'. congruence.
    + intros pid. rewrite Hm. by apply sent_message_for.
  - intros d Hd Hno. apply (scatter_refused uuid _ r ds d Hdocs Hd). intros pid Hpid. apply (Hno pid).
    by apply upsert_route_iff.
Qed.
End RangeRouting.

Definition demo_rule : PartitionRule :=
  {| PR_Type := "RANGE"; PR_Field := "d"; PR_Partitions := 2;
     PR_Ranges := [{| R_Name := "p0"; R_Value := "10" |}; {| R_Name := "p1"; R_Value := "20" |}] |}.
Definition demo_int (v : string) : option Z := if v =?s "10" then Some 10 else if v =?s "20" then Some 20 else None.
Definition demo_rule_space : Space :=
  demo_space 1 (Some demo_rule) [new_partition 5 "p0" 7 1 0; new_partition 9 "p1" 7 1 2147483647].
Definition demo_field (ts : Z) : DocField :=
  {| DF_Name := "d"; DF_Type := FT_DATE; DF_Value := Bytes.Int64ToByte ts; DF_Option := FO_Null |}.

Lemma range_routing_witness :
  route_by_rule demo_hash demo_int (fun _ => None) demo_rule_space demo_rule "a" [demo_field 15000000000] = Ret 9.
Proof.
  destruct (range_routing demo_hash demo_int (fun _ => None) demo_rule_space demo_rule [10000000000; 20000000000]
    "a" [] [] (demo_field 15000000000) 15000000000) as [(k & r & Hr & [(b & Hb & Hlt) Hprev] & Hok & _)|[Hall _]].
  - reflexivity.
  - done.
  - unfold MaxUint32. simpl. lia.
  - exact demo_hash_u32.
  - by repeat constructor.
  - constructor.
  - reflexivity.
  - vm_compute. reflexivity.
  - destruct k as [|[|k]]; simpl in Hr, Hb; simplify_eq; [lia|].
    destruct Hok as (pid & Hin & Heq); [done|]. cbn [app] in Heq. rewrite Heq.
    apply list_elem_of_singleton in Hin. by rewrite Hin.
  - inversion Hall as [|? ? _ Hall2]; subst. inversion Hall2 as [|? ? Hcontra _]; subst. lia.
Defined.

Definition demo_row (k : string) (ts : Z) : Document := {| D_PKey := k; D_Fields := [demo_field ts] |}.
Definition demo_rule_request (ds : list Document) : routerRequest :=
  {| r_md := ∅; r_docs := Some <$> ds; r_space := demo_rule_space; r_sendMap := ∅; r_Err := None |}.

Lemma demo_routable : routable demo_hash demo_rule_space [].
Proof. split_and!; [exact demo_hash_u32|unfold MaxUint32; simpl; lia..|done]. Qed.

Lemma demo_row_place ts k pid r :
  0 <= ts < 2 ^ 40 -> PR_Ranges demo_rule !! k = Some r ->
  in_range [10000000000; 20000000000] ts k -> range_pids demo_rule_space (R_Name r) = [pid] ->
  forall key, proper_place demo_hash demo_int (fun _ => None) demo_rule_space [] (demo_row key ts) pid.
Proof.
  intros Hts Hk Hin Hpids key. exists [], (demo_field ts), []. split_and!; [done|constructor|done|]. right. split; [done|].
  exists ts, k, r. split_and!; [|done|exact Hin|].
  - apply Bytes.Bytes2Int_Int64ToByte. unfold in_s. lia.
  - unfold spread_to. rewrite Hpids. change (Z.of_nat (length [pid])) with 1. by rewrite Z.mod_1_r.
Qed.

Lemma documents_routed_once_witness :
  (exists r', UpsertByPartitions demo_hash "m" demo_int (fun _ => None) []
     (demo_rule_request [demo_row "a" 15000000000; demo_row "b" 5000000000]) = Ret r' /\
     docs_sent (r_sendMap r') ≡ₚ [demo_row "a" 15000000000; demo_row "b" 5000000000]) /\
  (exists r' e, UpsertByPartitions demo_hash "m" demo_int (fun _ => None) [] (demo_rule_request [demo_doc "a"]) = Ret r' /\
     r_Err r' = Some e /\ r_sendMap r' = ∅).
Proof.
  split.
  - destruct (proj1 (documents_routed_once demo_hash demo_int (fun _ => None) "m" []
      (demo_rule_request [demo_row "a" 15000000000; demo_row "b" 5000000000])
      [demo_row "a" 15000000000; demo_row "b" 5000000000] demo_routable eq_refl eq_refl)) as (r' & place & H1 & _ & H2 & _).
    + intros d [->|[->|[]%elem_of_nil]%elem_of_cons]%elem_of_cons.
      * exists 9. apply (demo_row_place 15000000000 1 9 {| R_Name := "p1"; R_Value := "20" |}); [lia|done| |done].
        split; [by eexists|]. intros [|j] b Hj Hb; [|lia]. simpl in Hb. simplify_eq. lia.
      * exists 5. apply (demo_row_place 5000000000 0 5 {| R_Name := "p0"; R_Value := "10" |}); [lia|done| |done].
        split; [by eexists|]. lia.
    + by exists r'.
  - destruct (proj2 (documents_routed_once demo_hash demo_int (fun _ => None) "m" [] (demo_rule_request [demo_doc "a"])
      [demo_doc "a"] demo_routable eq_refl eq_refl) (demo_doc "a") ltac:(by left)) as [(p & Hp)|(r' & e & H1 & H2 & H3)].
    + intros pid (pre & f & post & Hd & _). by destruct pre.
    + vm_compute in Hp. discriminate Hp.
    + by exists r', e.
Defined.

(** ** Requests to all partitions *)

Lemma broadcast_loop uuid pl keep ps : forall r m,
  let '(r', m') := fold_left (broadcast_step uuid pl keep) ps (r, m) in
  same_request uuid r r' /\
  forall pid, m' !! pid =
    match m !! pid with
    | Some d => Some d
    | None =>
      if bool_decide (pid ∈ P_Id <$> filter (fun p => keep p = true) ps)
      then Some {| PD_PartitionID := pid; PD_MessageID := (GetMsgID uuid r).1; PD_Items := [];
                   PD_Payload := pl; PD_Err := None |}
      else None
    end.
Proof.
  induction ps as [|p ps IH]; intros r m; cbn [fold_left].
  - split; [done|]. intros pid. by destruct (m !! pid).
  - set (st := broadcast_step uuid pl keep (r, m) p).
    assert (same_request uuid r st.1 /\ forall pid, st.2 !! pid =
      match m !! pid with Some d => Some d | None =>
        if keep p && (P_Id p =? pid) then Some {| PD_PartitionID := pid; PD_MessageID := (GetMsgID uuid r).1;
          PD_Items := []; PD_Payload := pl; PD_Err := None |} else None end) as [Hsame Hst].
    { subst st. unfold broadcast_step. destruct (keep p); cbn [andb].
      2: { split; [done|]. intros pid. simpl. by destruct (m !! pid). }
      destruct (m !! P_Id p) as [d|] eqn:Hm; cbn [fst snd].
      - split; [done|]. intros pid. destruct (m !! pid) eqn:Hpid; [done|].
        destruct (Z.eqb_spec (P_Id p) pid) as [<-|]; [congruence|done].
      - pose proof (same_request_msg uuid r) as Hs. destruct (GetMsgID uuid r) as [msg r1]. cbn [fst snd] in *.
        split; [done|]. intros pid. destruct (Z.eqb_spec (P_Id p) pid) as [<-|Hne].
        + by rewrite lookup_insert_eq, Hm.
        + rewrite lookup_insert_ne by done. by destruct (m !! pid). }
    destruct st as [r1 m1]. cbn [fst snd] in *. specialize (IH r1 m1).
    destruct (fold_left _ ps (r1, m1)) as [r' m']. destruct IH as [IHs IHm].
    split; [by eapply same_request_trans|]. intros pid. rewrite IHm, Hst.
    destruct (m !! pid); [done|]. destruct Hsame as (_ & _ & _ & Hmsg). rewrite Hmsg.
    rewrite filter_cons. destruct (keep p); cbn [andb].
    + rewrite decide_True by done. rewrite fmap_cons.
      destruct (Z.eqb_spec (P_Id p) pid) as [<-|Hne]; [by rewrite bool_decide_true by (by left)|].
      destruct (bool_decide_reflect (pid ∈ P_Id <$> filter (fun p => keep p = true) ps)) as [Hi|Hi];
        [by rewrite bool_decide_true by (by right)|].
      rewrite bool_decide_false; [done|]. intros [->|?]%elem_of_cons; done.
    + rewrite decide_False by done. done.
Qed.

Lemma elem_of_named (names : list string) pid (ps : list Partition) :
  pid ∈ P_Id <$> filter (fun p => named names p = true) ps <->
  exists p, p ∈ ps /\ P_Id p = pid /\ (names = [] \/ P_Name p ∈ names).
Proof.
  rewrite list_elem_of_fmap. setoid_rewrite list_elem_of_filter.
  assert (forall p, named names p = true <-> (names = [] \/ P_Name p ∈ names)) as Hn.
  { intros p. unfold named. destruct names as [|x names]; simpl length; cbn [Nat.eqb]; [naive_solver|].
    rewrite contains_true. naive_solver. }
  setoid_rewrite Hn. split; intros (p & H); exists p; naive_solver.
Qed.

(** A search reaches exactly the partitions it names (all of them when it names
    none), each once, with the request and one message id. *)
Theorem search_fan_out (uuid : string) (req : SearchRequest) (r : routerRequest) :
  r_Err r = None ->
  let r' := SearchByPartitions uuid req r in
  let reached pid := exists p, p ∈ S_Partitions (r_space r) /\ P_Id p = pid /\
                       (SR_PartitionNames req = [] \/ P_Name p ∈ SR_PartitionNames req) in
  r_Err r' = None /\
  forall pid,
    (reached pid -> r_sendMap r' !! pid =
       Some {| PD_PartitionID := pid; PD_MessageID := (GetMsgID uuid r).1; PD_Items := [];
               PD_Payload := SearchPayload req; PD_Err := None |}) /\
    (~ reached pid -> r_sendMap r' !! pid = None).
Proof.
  intros Herr r' reached. subst r' reached. cbv beta. unfold SearchByPartitions, broadcast. rewrite Herr.
  pose proof (broadcast_loop uuid (SearchPayload req) (named (SR_PartitionNames req)) (S_Partitions (r_space r)) r ∅) as Hb.
  destruct (fold_left _ _ _) as [r' m']. destruct Hb as [(_ & _ & He & _) Hm].
  cbn [set_sendMap r_Err r_sendMap]. split; [by rewrite He|]. intros pid.
  rewrite Hm, lookup_empty, <- elem_of_named. split; intros H.
  - by rewrite bool_decide_true.
  - by rewrite bool_decide_false.
Qed.

Lemma search_fan_out_witness :
  r_sendMap (SearchByPartitions "m" {| SR_PartitionNames := [] |} (demo_request [])) !! 3 = None.
Proof.
  apply (search_fan_out "m" {| SR_PartitionNames := [] |} (demo_request []) eq_refl).
  intros (p & Hp & Hid & _). cbn in Hp. unfold demo_parts in Hp.
  apply elem_of_cons in Hp as [->|Hp]; [done|]. apply list_elem_of_singleton in Hp as ->. done.
Defined.
