(* ===== verification/Merge.v ===== *)
(** * Merging the results of the partitions (internal/client/client.go)

    Each partition returns, per query of the request, a list of items sorted by
    score.  The router merges them two lists at a time, keeping the best
    [topN], and cuts the page asked for.  Everything is parametric in
    [sort.Slice], of which only the documented promise is used. *)

From Stdlib Require Import SpecFloat.
From S2P Require Import Prelude.
From S2P Require Import Errors.
From S2P Require Import Floats.
Open Scope Z_scope.

(** ** Data *)

Record ResultItem : Type := {
  RI_Score : float;
  RI_PKey : string;
  RI_Fields : list (string * string)
}.

Record SearchStatus : Type := { SS_Total : Z; SS_Failed : Z; SS_Successful : Z }.

Record SearchResult : Type := {
  SRes_TotalHits : Z;                       (** int32 *)
  SRes_MaxScore : float;
  SRes_MaxTook : Z;                         (** int64 *)
  SRes_MaxTookId : Z;
  SRes_Status : option SearchStatus;
  SRes_ResultItems : list ResultItem;
  SRes_Timeout : bool
}.

Definition set_ResultItems (its : list ResultItem) (sr : SearchResult) : SearchResult :=
  {| SRes_TotalHits := SRes_TotalHits sr; SRes_MaxScore := SRes_MaxScore sr; SRes_MaxTook := SRes_MaxTook sr;
     SRes_MaxTookId := SRes_MaxTookId sr; SRes_Status := SRes_Status sr; SRes_ResultItems := its;
     SRes_Timeout := SRes_Timeout sr |}.

(** ** Merging two results *)

(** [Merge]: the counters are [int32]; a nil status on either side is
    dereferenced. *)
Definition Merge (ss other : option SearchStatus) : go (option SearchStatus) :=
  match ss, other with
  | Some a, Some b => Ret (Some {| SS_Total := i32 (SS_Total a + SS_Total b);
                                   SS_Failed := i32 (SS_Failed a + SS_Failed b);
                                   SS_Successful := i32 (SS_Successful a + SS_Successful b) |})
  | _, _ => Panic NilDeref
  end.

(** What [AddMerge] and [AddMergeSort] do before they touch the items. *)
Definition merge_counters (sr other : SearchResult) : go SearchResult :=
  let! st := Merge (SRes_Status sr) (SRes_Status other) in
  Ret {| SRes_TotalHits := i32 (SRes_TotalHits sr + SRes_TotalHits other);
         SRes_MaxScore := if fltb (SRes_MaxScore sr) (SRes_MaxScore other) then SRes_MaxScore other else SRes_MaxScore sr;
         SRes_MaxTook := if SRes_MaxTook sr <? SRes_MaxTook other then SRes_MaxTook other else SRes_MaxTook sr;
         SRes_MaxTookId := if SRes_MaxTook sr <? SRes_MaxTook other then SRes_MaxTookId other else SRes_MaxTookId sr;
         SRes_Status := st;
         SRes_ResultItems := SRes_ResultItems sr;
         SRes_Timeout := SRes_Timeout sr && SRes_Timeout other |}.

Definition AddMerge (sr other : SearchResult) : go SearchResult :=
  let! sr' := merge_counters sr other in
  Ret (set_ResultItems (SRes_ResultItems sr ++ SRes_ResultItems other) sr').

(** [merged[:n]] *)
Definition slice_to (l : list ResultItem) (n : Z) : go (list ResultItem) :=
  if n <? 0 then Panic IndexRange else Ret (take (Z.to_nat n) l).

(** Which of two items the merge takes first. *)
Definition before (desc : bool) (x y : ResultItem) : bool :=
  if desc then fltb (RI_Score y) (RI_Score x) else fltb (RI_Score x) (RI_Score y).

(** The merging loop with its two tails. *)
Fixpoint merge_items (lt : ResultItem -> ResultItem -> bool) (arr1 : list ResultItem) : list ResultItem -> list ResultItem :=
  fix inner arr2 :=
    match arr1, arr2 with
    | [], _ => arr2
    | _, [] => arr1
    | x :: arr1', y :: arr2' => if lt x y then x :: merge_items lt arr1' arr2 else y :: inner arr2'
    end.

Definition mergeSortedArrays (arr1 arr2 : list ResultItem) (topN : Z) (desc : bool) : go (list ResultItem) :=
  let m := Z.of_nat (length arr1) in
  let n := Z.of_nat (length arr2) in
  if m =? 0 then (if (0 <? topN) && (topN <? n) then slice_to arr2 topN else Ret arr2)
  else if n =? 0 then (if (0 <? topN) && (topN <? m) then slice_to arr1 topN else Ret arr1)
  else
    let merged := merge_items (before desc) arr1 arr2 in
    if topN <? Z.of_nat (length merged) then slice_to merged topN else Ret merged.

Definition AddMergeSort (sr other : SearchResult) (topN : Z) (desc : bool) : go SearchResult :=
  let! sr' := merge_counters sr other in
  if (0 <? length (SRes_ResultItems sr))%nat || (0 <? length (SRes_ResultItems other))%nat then
    let! its := mergeSortedArrays (SRes_ResultItems sr) (SRes_ResultItems other) topN desc in
    Ret (set_ResultItems its sr')
  else Ret sr'.

(** [Compare]: the sign of the difference; NaN counts as equal. *)
Definition Compare (old new : float) : Z :=
  if fltb new old then 1 else if fltb old new then -1 else 0.

(** Element-wise merging of two lists of results: when [dest] is the longer
    one, the code merges the first source result into every position. *)
Fixpoint zip_results (f : SearchResult -> SearchResult -> go SearchResult)
    (dest src : list SearchResult) : go (list SearchResult) :=
  match dest, src with
  | d :: dest', s :: src' => let! d' := f d s in let! r := zip_results f dest' src' in Ret (d' :: r)
  | _, _ => Ret dest
  end.

Definition merge_results (f : SearchResult -> SearchResult -> go SearchResult)
    (dest src : list SearchResult) : go (list SearchResult) :=
  if (length dest <=? length src)%nat then zip_results f dest src
  else match src with
       | [] => Ret dest
       | s0 :: _ => zip_results f dest (replicate (length src) s0)
       end.

Definition AddMergeResultArr (dest src : list SearchResult) : go (list SearchResult) :=
  merge_results AddMerge dest src.

(** ** The merge of a search ([SearchFieldSortExecute], the goroutine that
    collects the partitions; without tracing) *)

Record SearchReply : Type := {
  Rep_Err : option error;                   (** [PartitionData.Err] *)
  Rep_Response : option (option error * list SearchResult)
    (** [SearchResponse]: the error of its head, and its results *)
}.

(** The local variables: [result] ([nil] when empty), whether
    [searchResponse] was set, [finalErr]. *)
Record merge_state : Type := {
  ms_result : list SearchResult;
  ms_response : option (list SearchResult);
  ms_finalErr : option error
}.

Definition search_step (topN : Z) (desc : bool) (st : merge_state) (r : SearchReply) : go merge_state :=
  match Rep_Err r with
  | Some e => Ret {| ms_result := ms_result st; ms_response := ms_response st; ms_finalErr := Some e |}
  | None =>
    match Rep_Response r with
    | Some (Some e, _) => Ret {| ms_result := ms_result st; ms_response := ms_response st; ms_finalErr := Some e |}
    | resp =>
      let results := match resp with Some (_, rs) => rs | None => [] end in
      let st' := match ms_result st with
                 | [] => {| ms_result := results; ms_response := snd <$> resp; ms_finalErr := ms_finalErr st |}
                 | _ => st
                 end in
      match ms_result st, results with
      | [], _ :: _ => Ret st'
      | _, _ =>
        match resp with
        | None => Panic NilDeref
        | Some (_, rs) =>
          let! result := merge_results (fun a b => AddMergeSort a b topN desc) (ms_result st') rs in
          Ret {| ms_result := result; ms_response := ms_response st'; ms_finalErr := ms_finalErr st' |}
        end
      end
    end
  end.

Definition init_merge : merge_state := {| ms_result := []; ms_response := None; ms_finalErr := None |}.

(** [items[start:end]] *)
Definition slice_range (l : list ResultItem) (lo hi : Z) : go (list ResultItem) :=
  if (lo <? 0) || (hi <? lo) || (Z.of_nat (length l) <? hi) then Panic IndexRange
  else Ret (take (Z.to_nat (hi - lo)) (drop (Z.to_nat lo) l)).

(** The page, in [int32] arithmetic; [limit] is [TopN] of a search and [Limit]
    of a query. *)
Definition page (PageSize PageNum limit : Z) (items : list ResultItem) : go (list ResultItem) :=
  match items with
  | [] => Ret []
  | _ =>
    let len := Z.of_nat (length items) in
    if (0 <? PageSize) && (1 <=? PageNum) then
      let start := i32 (PageSize * i32 (PageNum - 1)) in
      let stop := i32 (start + PageSize) in
      if len <=? start then Ret []
      else
        let stop := if len <? stop then i32 len else stop in
        slice_range items start stop
    else if 0 <? limit then
      if limit <? len then slice_to items limit else Ret items
    else Ret items
  end.

Section SearchMerge.
Context (sort : forall A, (A -> A -> bool) -> list A -> list A).

Definition finish_result (desc : bool) (PageSize PageNum topN : Z) (sr : SearchResult) : go SearchResult :=
  let! its := page PageSize PageNum topN (sort _ (before desc) (SRes_ResultItems sr)) in
  Ret (set_ResultItems its sr).

Definition search_merge (desc : bool) (PageSize PageNum topN : Z) (replies : list SearchReply)
  : go (list SearchResult * option error) :=
  let! st := ofold (search_step topN desc) init_merge replies in
  let! result := ofold (fun acc sr => let! sr' := finish_result desc PageSize PageNum topN sr in Ret (acc ++ [sr']))
                   [] (ms_result st) in
  Ret (result, match ms_response st with None => ms_finalErr st | Some _ => None end).
End SearchMerge.

(** ** Top-N *)

Definition scored (x : ResultItem) : Prop := is_nan (RI_Score x) = false.

#[export] Instance before_sw desc : StrictWeak scored (before desc).
Proof.
  unfold before, scored. destruct desc.
  - exact (sw_flip _ _ (sw_proj RI_Score _ _ fltb_sw)).
  - exact (sw_proj RI_Score _ _ fltb_sw).
Qed.

Notation sorted_items desc := (StronglySorted (nlt (before desc))).

Section TopN.
Context (lt : ResultItem -> ResultItem -> bool) `{Hsw : !StrictWeak scored lt}.

Lemma merge_items_perm a : forall b, merge_items lt a b ≡ₚ a ++ b.
Proof.
  induction a as [|x a IHa]; intros b; [by destruct b|].
  induction b as [|y b IHb]; cbn [merge_items]; [by rewrite app_nil_r|].
  destruct (lt x y); [by rewrite IHa|]. rewrite <- Permutation_middle. constructor. exact IHb.
Qed.

Lemma merge_items_sorted a : forall b,
  Forall scored a -> Forall scored b -> StronglySorted (nlt lt) a -> StronglySorted (nlt lt) b ->
  StronglySorted (nlt lt) (merge_items lt a b).
Proof.
  induction a as [|x a IHa]; intros b Ha Hb Hsa Hsb; [by destruct b|].
  induction b as [|y b IHb]; [done|]. cbn [merge_items].
  inversion Ha as [|? ? Hx Ha']; inversion Hb as [|? ? Hy Hb']; inversion Hsa as [|? ? Hsa' Hax];
    inversion Hsb as [|? ? Hsb' Hby]; subst.
  destruct (lt x y) eqn:E.
  - constructor; [by apply IHa|]. rewrite merge_items_perm. apply Forall_app. split; [done|].
    assert (nlt lt x y) as Hxy by (by apply (sw_asym scored)).
    constructor; [done|]. rewrite Forall_forall in Hby, Hb' |- *. intros z Hz.
    apply (sw_ntrans x y z); [done|done|by apply Hb'|exact Hxy|exact (Hby z Hz)].
  - constructor; [by apply IHb|]. change (Forall (nlt lt y) (merge_items lt (x :: a) b)).
    rewrite merge_items_perm. apply Forall_app. split; [|done]. constructor; [done|].
    rewrite Forall_forall in Hax, Ha' |- *. intros z Hz.
    apply (sw_ntrans y x z); [done|done|by apply Ha'|exact E|exact (Hax z Hz)].
Qed.

(** [res] holds the [n] first of [all] in sorted order. *)
Definition top (n : nat) (all res : list ResultItem) : Prop :=
  StronglySorted (nlt lt) res /\ length res = Nat.min n (length all) /\
  exists rest, all ≡ₚ res ++ rest /\ forall x y, x ∈ res -> y ∈ rest -> nlt lt x y.

Lemma top_take n l : Forall scored l -> StronglySorted (nlt lt) l -> top n l (take n l).
Proof.
  intros Hok Hs. rewrite <- (take_drop n l) in Hs. apply StronglySorted_app in Hs as (Hcross & H1 & H2).
  split_and!; [done|by rewrite length_take|]. exists (drop n l). rewrite take_drop. split; [done|].
  intros x y. apply Hcross.
Qed.

Lemma top_perm n all all' res : all ≡ₚ all' -> top n all res -> top n all' res.
Proof. intros Hp (H1 & H2 & rest & H3 & H4). split_and!; [done|by rewrite <- Hp|]. exists rest. by rewrite <- Hp. Qed.

(** In a sorted list, fewer than [k + 1] elements precede the [k]-th. *)
Lemma count_before l k x :
  StronglySorted (nlt lt) l -> l !! k = Some x -> scored x ->
  (length (filter (fun z => lt z x = true) l) <= k)%nat.
Proof.
  intros Hs Hk Hx. rewrite <- (take_drop k l), filter_app, length_app.
  assert (filter (fun z => lt z x = true) (drop k l) = []) as ->.
  { apply list_filter_none, Forall_forall. intros z Hz Hlt.
    apply list_elem_of_lookup in Hz as [j Hj]. rewrite lookup_drop in Hj.
    destruct j as [|j]; [rewrite Nat.add_0_r in Hj; simplify_eq; by rewrite (sw_irrefl (lt := lt)) in Hlt|].
    pose proof (ssorted_lookup _ _ k (k + S j) x z Hs Hk Hj ltac:(lia)) as Hn. unfold nlt in Hn. congruence. }
  simpl. pose proof (length_filter (fun z => lt z x = true) (take k l)) as Hf. rewrite length_take in Hf. lia.
Qed.

(** Merging one more sorted list into the best [n] so far gives the best [n]
    of everything. *)
Lemma top_merge n all cur b :
  Forall scored all -> Forall scored b -> top n all cur -> StronglySorted (nlt lt) b ->
  top n (all ++ b) (take n (merge_items lt cur b)).
Proof.
  intros Hall Hb (Hcs & Hclen & rest & Hrest & Hcr) Hbs.
  assert (Forall scored cur /\ Forall scored rest) as [Hcur Hrok] by (by rewrite Hrest, Forall_app in Hall).
  pose proof (merge_items_sorted cur b Hcur Hb Hcs Hbs) as Hms. pose proof (merge_items_perm cur b) as Hmp.
  set (m := merge_items lt cur b) in *.
  assert (Forall scored m) as Hm by (rewrite Hmp; by apply Forall_app).
  destruct (top_take n m Hm Hms) as (Ht1 & Ht2 & _).
  assert (length all = (length cur + length rest)%nat) as Hlen by (by rewrite Hrest, length_app).
  assert (length m = (length cur + length b)%nat) as Hmlen by (by rewrite Hmp, length_app).
  split_and!; [done|rewrite Ht2, length_app; lia|].
  exists (drop n m ++ rest). split.
  { rewrite Hrest, app_assoc, take_drop, Hmp, <- !app_assoc. apply Permutation_app_head, Permutation_app_comm. }
  intros x y Hx [Hy|Hy]%elem_of_app.
  { rewrite <- (take_drop n m) in Hms. apply StronglySorted_app in Hms as (Hcross & _ & _). by apply Hcross. }
  unfold nlt. destruct (lt y x) eqn:E; [exfalso|done].
  apply list_elem_of_lookup in Hx as [k Hk]. apply lookup_take_Some in Hk as [Hk Hkn].
  assert (scored x) as Hsx by (eapply Forall_lookup_1; eauto).
  assert (scored y) as Hsy by (rewrite Forall_forall in Hrok; auto).
  pose proof (count_before m k x Hms Hk Hsx) as Hcount. rewrite Hmp, filter_app, length_app in Hcount.
  assert (filter (fun z => lt z x = true) cur = cur) as Hfull.
  { apply list_filter_all. apply Forall_forall. intros c Hc.
    rewrite Forall_forall in Hcur. apply (sw_lt_nlt scored lt c y x); auto. }
  rewrite Hfull in Hcount. assert (rest <> []) by (intros ->; by apply elem_of_nil in Hy).
  assert (0 < length rest)%nat by (destruct rest; simpl; [done|lia]). lia.
Qed.
End TopN.

Lemma mergeSortedArrays_take a b topN desc :
  1 <= topN ->
  mergeSortedArrays a b topN desc = Ret (take (Z.to_nat topN) (merge_items (before desc) a b)).
Proof.
  intros Hn. unfold mergeSortedArrays, slice_to. cbn zeta.
  destruct (Z.ltb_spec topN 0); [lia|]. destruct (Z.ltb_spec 0 topN); [|lia]. cbn [andb].
  assert (forall l : list ResultItem, (if topN <? Z.of_nat (length l) then Ret (take (Z.to_nat topN) l) else Ret l)
          = (Ret (take (Z.to_nat topN) l) : go _)) as Hcut.
  { intros l. destruct (Z.ltb_spec topN (Z.of_nat (length l))); [done|]. rewrite take_ge by lia. done. }
  destruct a as [|x a]; [by destruct b; rewrite Hcut|].
  destruct (Z.eqb_spec (Z.of_nat (length (x :: a))) 0); [simpl in *; lia|].
  destruct b as [|y b]; [apply (Hcut (x :: a))|].
  destruct (Z.eqb_spec (Z.of_nat (length (y :: b))) 0); [simpl in *; lia|]. apply Hcut.
Qed.

(** Merging two sorted lists of scores keeps, in order, the best [topN] of
    their items: nothing that is cut comes before anything that is kept. *)
Theorem mergeSortedArrays_topN (arr1 arr2 : list ResultItem) (topN : Z) (desc : bool) :
  1 <= topN -> Forall scored arr1 -> Forall scored arr2 ->
  sorted_items desc arr1 -> sorted_items desc arr2 ->
  exists res, mergeSortedArrays arr1 arr2 topN desc = Ret res /\
              top (before desc) (Z.to_nat topN) (arr1 ++ arr2) res.
Proof.
  intros Hn H1 H2 Hs1 Hs2. rewrite mergeSortedArrays_take by done. eexists. split; [reflexivity|].
  apply (top_perm _ _ _ _ _ (merge_items_perm (before desc) arr1 arr2)). apply top_take.
  - rewrite merge_items_perm. by apply Forall_app.
  - apply (merge_items_sorted (before desc)); done.
Qed.

(** The scores 1, 2 and 3 (as the floats [m * 2^0]). *)
Definition demo_item (m : positive) : ResultItem :=
  {| RI_Score := S754_finite false m 0; RI_PKey := ""; RI_Fields := [] |}.

Lemma mergeSortedArrays_topN_witness :
  exists res, mergeSortedArrays [demo_item 1; demo_item 3] [demo_item 2] 2 false = Ret res /\
    res = [demo_item 1; demo_item 2].
Proof.
  destruct (mergeSortedArrays_topN [demo_item 1; demo_item 3] [demo_item 2] 2 false) as (res & Hres & _);
    [lia|by repeat constructor..|].
  exists res. split; [exact Hres|]. vm_compute in Hres. injection Hres as <-. reflexivity.
Defined.

(** The limit of zero, which elsewhere means no limit, is not guarded in the
    merge: two non-empty lists merge to nothing, while one list alone is
    returned whole; a negative limit panics. *)
Theorem mergeSortedArrays_no_limit (arr1 arr2 : list ResultItem) (topN : Z) (desc : bool) :
  topN <= 0 ->
  mergeSortedArrays [] arr2 topN desc = Ret arr2 /\
  mergeSortedArrays arr1 [] topN desc = Ret arr1 /\
  (arr1 <> [] -> arr2 <> [] ->
   mergeSortedArrays arr1 arr2 topN desc = if topN =? 0 then Ret [] else Panic IndexRange).
Proof.
  intros Hn. unfold mergeSortedArrays, slice_to. cbn zeta.
  destruct (Z.ltb_spec 0 topN); [lia|]. cbn [andb]. split; [done|]. split.
  - destruct (Z.eqb_spec (Z.of_nat (length arr1)) 0) as [H0|]; [|done].
    by rewrite (nil_length_inv arr1) by lia.
  - intros H1 H2. assert (length arr1 <> 0)%nat by (by intros ?%nil_length_inv).
    assert (length arr2 <> 0)%nat by (by intros ?%nil_length_inv).
    destruct (Z.eqb_spec (Z.of_nat (length arr1)) 0); [lia|].
    destruct (Z.eqb_spec (Z.of_nat (length arr2)) 0); [lia|].
    rewrite merge_items_perm, length_app. destruct (Z.ltb_spec topN (Z.of_nat (length arr1 + length arr2))); [|lia].
    destruct (Z.ltb_spec topN 0), (Z.eqb_spec topN 0); try lia; [done|]. by subst.
Qed.

Lemma mergeSortedArrays_no_limit_witness : mergeSortedArrays [demo_item 1] [demo_item 2] 0 false = Ret [].
Proof. apply (mergeSortedArrays_no_limit [demo_item 1] [demo_item 2] 0 false); done. Defined.

(** ** The whole merge *)

Lemma zip_results_total f dest : forall src (R : nat -> SearchResult -> Prop),
  length dest = length src ->
  (forall i d s, dest !! i = Some d -> src !! i = Some s -> exists d', f d s = Ret d' /\ R i d') ->
  exists r, zip_results f dest src = Ret r /\ length r = length dest /\ forall i d', r !! i = Some d' -> R i d'.
Proof.
  induction dest as [|d dest IH]; intros [|s src] R Hlen Hf; simplify_eq/=; [by exists []|].
  destruct (Hf 0%nat d s) as (d' & Hd & HR); [done..|]. rewrite Hd. cbn [obind].
  destruct (IH src (fun i => R (S i)) Hlen) as (r & Hr & Hl & Hall).
  { intros i x y Hx Hy. by apply (Hf (S i) x y). }
  rewrite Hr. cbn [obind]. exists (d' :: r). split_and!; [done|simpl; by rewrite Hl|].
  intros [|i] x Hx; simpl in Hx; [by simplify_eq|by apply Hall].
Qed.

(** What a partition that answers sends: one result per query, sorted, at most
    [topN] items each. *)
Definition good_result (topN : nat) (desc : bool) (sr : SearchResult) : Prop :=
  is_Some (SRes_Status sr) /\ Forall scored (SRes_ResultItems sr) /\
  sorted_items desc (SRes_ResultItems sr) /\ (length (SRes_ResultItems sr) <= topN)%nat.

Definition good_reply (q topN : nat) (desc : bool) (r : SearchReply) : Prop :=
  Rep_Err r = None /\ exists rs, Rep_Response r = Some (None, rs) /\ length rs = q /\ Forall (good_result topN desc) rs.

(** The items of the [i]-th query that the replies carry. *)
Definition reply_items (i : nat) (r : SearchReply) : list ResultItem :=
  match Rep_Response r with
  | Some (_, rs) => match rs !! i with Some sr => SRes_ResultItems sr | None => [] end
  | None => []
  end.

Definition merged_so_far (q topN : nat) (desc : bool) (seen : list SearchReply) (st : merge_state) : Prop :=
  Forall (good_reply q topN desc) seen /\
  (seen = [] -> st = init_merge) /\
  (seen <> [] -> length (ms_result st) = q /\ is_Some (ms_response st) /\
     forall i sr, ms_result st !! i = Some sr ->
       is_Some (SRes_Status sr) /\ top (before desc) topN (seen ≫= reply_items i) (SRes_ResultItems sr)).

Lemma AddMergeSort_top topN desc sr other all :
  1 <= topN -> is_Some (SRes_Status sr) -> good_result (Z.to_nat topN) desc other ->
  Forall scored all -> top (before desc) (Z.to_nat topN) all (SRes_ResultItems sr) ->
  exists sr', AddMergeSort sr other topN desc = Ret sr' /\ is_Some (SRes_Status sr') /\
    top (before desc) (Z.to_nat topN) (all ++ SRes_ResultItems other) (SRes_ResultItems sr').
Proof.
  intros Hn [st Hst] ([st' Hst'] & Hok & Hs & _) Hall Htop. unfold AddMergeSort, merge_counters.
  rewrite Hst, Hst'. cbn [Merge obind].
  pose proof (top_merge (before desc) _ _ _ _ Hall Hok Htop Hs) as Hres.
  destruct (_ || _) eqn:Hne.
  - rewrite mergeSortedArrays_take by done. cbn [obind]. eexists. split; [reflexivity|]. split; [by eexists|done].
  - apply orb_false_iff in Hne as [H1%Nat.ltb_ge H2%Nat.ltb_ge]. eexists. split; [reflexivity|]. split; [by eexists|].
    cbn [SRes_ResultItems]. assert (SRes_ResultItems sr = []) as E1 by (apply nil_length_inv; lia).
    assert (SRes_ResultItems other = []) as E2 by (apply nil_length_inv; lia).
    rewrite E1, E2 in *. cbn [merge_items] in Hres. by rewrite take_nil in Hres.
Qed.

Lemma reply_items_single i r rs sr :
  Rep_Response r = Some (None, rs) -> rs !! i = Some sr -> [r] ≫= reply_items i = SRes_ResultItems sr.
Proof. intros Hrs Hi. rewrite bind_cons. unfold reply_items at 1. rewrite Hrs, Hi. apply app_nil_r. Qed.

Lemma top_first n desc r i sr q :
  good_reply q n desc r -> (exists rs, Rep_Response r = Some (None, rs) /\ rs !! i = Some sr) ->
  is_Some (SRes_Status sr) /\ top (before desc) n ([r] ≫= reply_items i) (SRes_ResultItems sr).
Proof.
  intros (_ & rs & Hrs & _ & Hgood) (rs' & Hrs' & Hi). rewrite Hrs in Hrs'. injection Hrs' as <-.
  destruct (Forall_lookup_1 _ _ _ _ Hgood Hi) as (Hst & Hok & Hs & Hlen). split; [done|].
  rewrite (reply_items_single i r rs sr) by done.
  rewrite <- (take_ge (SRes_ResultItems sr) n) at 2 by done. by apply top_take.
Qed.

Lemma scored_items q topN desc seen i :
  Forall (good_reply q topN desc) seen -> Forall scored (seen ≫= reply_items i).
Proof.
  intros Hall. apply Forall_bind. eapply Forall_impl; [exact Hall|].
  intros r (_ & rs & Hrs & _ & Hgood). unfold compose, reply_items. rewrite Hrs.
  destruct (rs !! i) eqn:Hi; [|constructor]. by destruct (Forall_lookup_1 _ _ _ _ Hgood Hi) as (_ & ? & _).
Qed.

Lemma search_step_merged q topN desc seen r st :
  (1 <= q)%nat -> 1 <= topN ->
  merged_so_far q (Z.to_nat topN) desc seen st -> good_reply q (Z.to_nat topN) desc r ->
  exists st', search_step topN desc st r = Ret st' /\ merged_so_far q (Z.to_nat topN) desc (seen ++ [r]) st'.
Proof.
  intros Hq Hn (Hall & Hfirst & Hnext) Hr. pose proof Hr as (Herr & rs & Hrs & Hlen & Hgood).
  assert (Forall (good_reply q (Z.to_nat topN) desc) (seen ++ [r])) as Hall'
    by (apply Forall_app; split; [done|by apply Forall_singleton]).
  assert (seen ++ [r] <> []) as Hne by (by destruct seen). unfold search_step. rewrite Herr, Hrs.
  destruct (decide (seen = [])) as [->|Hseen].
  - rewrite (Hfirst eq_refl). cbn [ms_result init_merge]. destruct rs as [|sr0 rs]; [simpl in Hlen; lia|].
    eexists. split; [reflexivity|]. split; [done|]. split; [done|]. intros _. cbn [ms_result ms_response].
    split; [done|]. split; [by eexists|]. intros i sr Hi. apply (top_first _ _ _ _ _ q Hr). by exists (sr0 :: rs).
  - destruct (Hnext Hseen) as (Hl & Hresp & Htop). destruct (ms_result st) as [|d dest] eqn:Hms; [simpl in Hl; lia|].
    unfold merge_results. rewrite Hms. destruct (Nat.leb_spec (length (d :: dest)) (length rs)); [|lia].
    destruct (zip_results_total (fun a b => AddMergeSort a b topN desc) (d :: dest) rs
      (fun i sr => is_Some (SRes_Status sr) /\ top (before desc) (Z.to_nat topN) ((seen ++ [r]) ≫= reply_items i) (SRes_ResultItems sr)))
      as (res & -> & Hrl & Hres); [lia| |].
    + intros i a b Ha Hb. destruct (Htop i a Ha) as [Hsta Hta]. rewrite bind_app.
      rewrite (reply_items_single i r rs b) by done.
      apply AddMergeSort_top; [done|done|by eapply Forall_lookup_1|by eapply scored_items|done].
    + cbn [obind]. eexists. split; [reflexivity|]. split; [done|]. split; [done|]. intros _.
      cbn [ms_result ms_response]. split; [lia|]. by split.
Qed.

Lemma page_total PageSize PageNum limit items :
  0 <= PageSize -> 0 <= PageNum -> PageSize * PageNum < 2 ^ 31 -> Z.of_nat (length items) < 2 ^ 31 ->
  page PageSize PageNum limit items =
    Ret (if (0 <? PageSize) && (1 <=? PageNum)
         then take (Z.to_nat PageSize) (drop (Z.to_nat (PageSize * (PageNum - 1))) items)
         else if 0 <? limit then take (Z.to_nat limit) items else items).
Proof.
  intros Hps Hpn Hprod Hlen. unfold page. destruct items as [|x items0]; [by rewrite drop_nil, !take_nil; repeat case_match|].
  set (items := x :: items0) in *. cbn zeta.
  destruct (Z.ltb_spec 0 PageSize), (Z.leb_spec 1 PageNum); cbn [andb].
  2,3,4: destruct (Z.ltb_spec 0 limit); [|done]; destruct (Z.ltb_spec limit (Z.of_nat (length items)));
    [unfold slice_to; destruct (Z.ltb_spec limit 0); [lia|done]|by rewrite take_ge by lia].
  assert (0 <= PageSize * (PageNum - 1) /\ PageNum < 2 ^ 31) as [Hnn HpnM] by nia.
  assert (i32 (PageNum - 1) = PageNum - 1) as -> by (apply wrap_s_id; unfold in_s; lia).
  assert (i32 (PageSize * (PageNum - 1)) = PageSize * (PageNum - 1)) as -> by (apply wrap_s_id; unfold in_s; lia).
  set (start := PageSize * (PageNum - 1)) in *. assert (start + PageSize = PageSize * PageNum) as Hstop by lia.
  assert (i32 (start + PageSize) = start + PageSize) as -> by (apply wrap_s_id; unfold in_s; lia).
  assert (i32 (Z.of_nat (length items)) = Z.of_nat (length items)) as -> by (apply wrap_s_id; unfold in_s; lia).
  destruct (Z.leb_spec (Z.of_nat (length items)) start); [by rewrite drop_ge, take_nil by lia|].
  unfold slice_range. destruct (Z.ltb_spec (Z.of_nat (length items)) (start + PageSize)).
  - destruct (Z.ltb_spec start 0), (Z.ltb_spec (Z.of_nat (length items)) start), (Z.ltb_spec (Z.of_nat (length items)) (Z.of_nat (length items))); try lia.
    cbn [orb]. rewrite !take_ge; [done|rewrite length_drop; lia..].
  - destruct (Z.ltb_spec start 0), (Z.ltb_spec (start + PageSize) start), (Z.ltb_spec (Z.of_nat (length items)) (start + PageSize)); try lia.
    cbn [orb]. do 3 f_equal. lia.
Qed.

Lemma top_sort sort `{!SortSlice sort} n desc all res :
  Forall scored all -> top (before desc) n all res -> top (before desc) n all (sort _ (before desc) res).
Proof.
  intros Hall (Hs & Hlen & rest & Hr & Hx). rewrite Hr, Forall_app in Hall. destruct Hall as [Hres _].
  pose proof (sort_perm ResultItem (before desc) res) as Hp. split_and!.
  - apply (sort_sorted (sort := sort) ResultItem scored); [apply _|done].
  - by rewrite Hp.
  - exists rest. rewrite Hp. split; [done|]. intros x y Hx'. rewrite Hp in Hx'. by apply Hx.
Qed.

(** A search over any number of partitions that all answer: for every query the
    router returns the page asked for, cut out of the best [topN] of everything
    the partitions returned for that query, whatever the order in which the
    answers arrive and however [sort.Slice] orders equal scores.  (C3) *)
Theorem search_merge_correct (sort : forall A, (A -> A -> bool) -> list A -> list A) (desc : bool)
    (PageSize PageNum topN : Z) (q : nat) (replies : list SearchReply) :
  SortSlice sort -> (1 <= q)%nat -> 1 <= topN < 2 ^ 31 ->
  0 <= PageSize -> 0 <= PageNum -> PageSize * PageNum < 2 ^ 31 ->
  replies <> [] -> Forall (good_reply q (Z.to_nat topN) desc) replies ->
  exists results, search_merge sort desc PageSize PageNum topN replies = Ret (results, None) /\
    length results = q /\
    forall i sr, results !! i = Some sr ->
      exists best, top (before desc) (Z.to_nat topN) (replies ≫= reply_items i) best /\
        SRes_ResultItems sr =
          if (0 <? PageSize) && (1 <=? PageNum)
          then take (Z.to_nat PageSize) (drop (Z.to_nat (PageSize * (PageNum - 1))) best) else best.
Proof.
  intros Hsort Hq Hn Hps Hpn Hprod Hne Hgood. unfold search_merge.
  destruct (ofold_total (search_step topN desc) (merged_so_far q (Z.to_nat topN) desc) init_merge replies)
    as (st & -> & Hall & _ & Hst).
  - split; [constructor|]. by split.
  - intros seen r st HI Hin. apply search_step_merged; [done|lia|done|]. rewrite Forall_forall in Hgood. by apply Hgood.
  - cbn [obind]. destruct (Hst Hne) as (Hlen & [resp Hresp] & Htop). rewrite Hresp.
    destruct (ofold_snoc_total (finish_result sort desc PageSize PageNum topN)
      (fun i sr' => exists best, top (before desc) (Z.to_nat topN) (replies ≫= reply_items i) best /\
        SRes_ResultItems sr' = if (0 <? PageSize) && (1 <=? PageNum)
          then take (Z.to_nat PageSize) (drop (Z.to_nat (PageSize * (PageNum - 1))) best) else best) (ms_result st))
      as (results & -> & Hrl & Hres).
    + intros i sr Hi. destruct (Htop i sr Hi) as [_ Ht].
      pose proof (top_sort sort _ desc _ _ (scored_items q _ desc _ i Hall) Ht) as Hs.
      pose proof Hs as (_ & Hl & _). unfold finish_result. rewrite page_total by (done || lia). cbn [obind].
      eexists. split; [reflexivity|]. eexists. split; [exact Hs|]. cbn [set_ResultItems SRes_ResultItems].
      destruct ((0 <? PageSize) && (1 <=? PageNum)); [done|]. destruct (Z.ltb_spec 0 topN); [|lia].
      apply take_ge. lia.
    + cbn [obind]. exists results. split; [done|]. split; [lia|done].
Qed.

Definition demo_result (its : list ResultItem) : SearchResult :=
  {| SRes_TotalHits := Z.of_nat (length its); SRes_MaxScore := S754_zero false; SRes_MaxTook := 0; SRes_MaxTookId := 0;
     SRes_Status := Some {| SS_Total := 1; SS_Failed := 0; SS_Successful := 1 |};
     SRes_ResultItems := its; SRes_Timeout := false |}.
Definition demo_search_reply (its : list ResultItem) : SearchReply :=
  {| Rep_Err := None; Rep_Response := Some (None, [demo_result its]) |}.

Lemma demo_good its :
  Forall scored its -> sorted_items false its -> (length its <= 2)%nat -> good_reply 1 2 false (demo_search_reply its).
Proof.
  intros. split; [done|]. exists [demo_result its]. split; [done|]. split; [done|]. apply Forall_singleton.
  split; [by eexists|]. done.
Qed.

Lemma search_merge_correct_witness :
  exists results, search_merge insertion_sort false 0 0 2
    [demo_search_reply [demo_item 2; demo_item 5]; demo_search_reply [demo_item 1]; demo_search_reply [demo_item 3]]
    = Ret (results, None) /\ SRes_ResultItems <$> results = [[demo_item 1; demo_item 2]].
Proof.
  destruct (search_merge_correct insertion_sort false 0 0 2 1
    [demo_search_reply [demo_item 2; demo_item 5]; demo_search_reply [demo_item 1]; demo_search_reply [demo_item 3]])
    as (results & Hrun & _ & _); [apply _|lia|lia|lia|lia|lia|done| |].
  - do 3 (constructor; [apply demo_good; [by repeat constructor|by repeat constructor|simpl; lia]|]). constructor.
  - exists results. split; [exact Hrun|]. vm_compute in Hrun. injection Hrun as <-. reflexivity.
Defined.

(** The page arithmetic is [int32] and unchecked: page 49 of 50,000,000 items
    and the like wrap to a negative start, and the slice expression panics. *)
Theorem page_overflow_panics (PageSize PageNum limit : Z) (items : list ResultItem) :
  items <> [] -> 0 < PageSize -> 1 <= PageNum -> i32 (PageSize * i32 (PageNum - 1)) < 0 ->
  page PageSize PageNum limit items = Panic IndexRange.
Proof.
  intros Hne Hps Hpn Hneg. unfold page. destruct items as [|x items0]; [done|]. set (items := x :: items0) in *. cbn zeta.
  destruct (Z.ltb_spec 0 PageSize), (Z.leb_spec 1 PageNum); try lia. cbn [andb].
  destruct (Z.leb_spec (Z.of_nat (length items)) (i32 (PageSize * i32 (PageNum - 1)))); [lia|].
  unfold slice_range. destruct (Z.ltb_spec (i32 (PageSize * i32 (PageNum - 1))) 0); [done|lia].
Qed.

Lemma page_overflow_panics_witness : page 50000000 49 10 [demo_item 1] = Panic IndexRange.
Proof. apply page_overflow_panics; [done|lia|lia|vm_compute; reflexivity]. Defined.
