(* ===== verification/Replica.v ===== *)
(** * Choosing a replica (internal/client/client.go, pkg/atomic)

    [RoundRobin] keeps a counter per key; [GetNodeIdsByClientType] filters the
    replicas of a partition by the client's wish and picks one.  The server
    cache, the fault list, the number of requests in flight and the two
    configuration values are arguments. *)

From S2P Require Import Prelude.
From S2P Require Import Partition.
Open Scope Z_scope.

(** ** RoundRobin *)

(** [counterMap]: [LoadOrStore] of a fresh counter at 1, [Incr] on a loaded
    one; [uint64].  [v[ix]] with [ix < len v]. *)
Definition Next (m : gmap Z Z) (k : Z) (v : list Z) : gmap Z Z * Z :=
  match v with
  | [] => (m, 0)
  | v0 :: _ =>
    match m !! k with
    | Some c =>
      let newValue := u64 (c + 1) in
      let ix := u64 (newValue - 1) mod Z.of_nat (length v) in
      (<[k := newValue]> m, default 0 (v !! Z.to_nat ix))
    | None => (<[k := 1]> m, v0)
    end
  end.

(** A run of calls for one key on an unchanged slice. *)
Fixpoint next_run (n : nat) (m : gmap Z Z) (k : Z) (v : list Z) : gmap Z Z * list Z :=
  match n with
  | O => (m, [])
  | S n' => let '(m1, x) := Next m k v in let '(m2, xs) := next_run n' m1 k v in (m2, x :: xs)
  end.

(** ** GetNodeIdsByClientType *)

Definition Leader : string := "leader".
Definition NotLeader : string := "not_leader".
Definition LeastConnection : string := "least_connection".
Definition Random : string := "random".
Definition NearestConnection : string := "nearest_connection".

Record ServerInfo : Set := { Srv_ID : Z; Srv_HostZone : string }.

Record replica_env : Type := {
  env_server : Z -> option ServerInfo;       (** [servers.Get(nodeID)] *)
  env_faulty : Z -> bool;                    (** [TestFaulty] *)
  env_concurrent : Z -> Z;                   (** [GetConcurrent] of the node's client *)
  env_RaftConsistent : bool;
  env_HostZone : string                      (** the router's own zone *)
}.

Section Choice.
Context (env : replica_env) (p : Partition).

(** The filter every branch but [Leader] starts with. *)
Definition usable (nodeID : Z) : bool :=
  match env_server env nodeID with
  | None => false
  | Some _ =>
    if env_faulty env nodeID then false
    else if env_RaftConsistent env then bool_decide (P_ReStatusMap p !! nodeID = Some ReplicasOK) else true
  end.

Definition randIDs : list Z := filter (fun n => usable n = true) (P_Replicas p).

Definition noLeaderIDs : list Z := filter (fun n => (usable n && negb (n =? P_LeaderID p)) = true) (P_Replicas p).

(** [most], [least] and [leastId] over the usable replicas. *)
Definition least_step (st : Z * Z * Z) (nodeID : Z) : Z * Z * Z :=
  let '(most, least, leastId) := st in
  let concurrent := env_concurrent env nodeID in
  let least := if least <? concurrent then concurrent else least in
  if concurrent <? most then (concurrent, least, nodeID) else (most, least, leastId).

Definition least_loop : Z * Z * Z := fold_left least_step randIDs (4294967295, -1, 0).

Definition OTHER : string := "others".

(** [nearestId]: the ids of the usable replicas, in the router's zone and in
    others. *)
Definition zone_step (nearestId : gmap string (list Z)) (nodeID : Z) : gmap string (list Z) :=
  match env_server env nodeID with
  | None => nearestId
  | Some server =>
    let key := if Srv_HostZone server =?s env_HostZone env then env_HostZone env else OTHER in
    <[key := default [] (nearestId !! key) ++ [Srv_ID server]]> nearestId
  end.

Definition zone_ids (key : string) : list Z := default [] (fold_left zone_step randIDs ∅ !! key).

Definition GetNodeIdsByClientType (clientType : string) (m : gmap Z Z) : gmap Z Z * Z :=
  if clientType =?s Leader then (m, P_LeaderID p)
  else if clientType =?s NotLeader then Next m (P_Id p) noLeaderIDs
  else if (clientType =?s Random) || (clientType =?s "") then Next m (P_Id p) randIDs
  else if clientType =?s LeastConnection then
    let '(_, least, leastId) := least_loop in
    if 10 <? least then (m, leastId) else Next m (P_Id p) randIDs
  else if clientType =?s NearestConnection then
    if (0 <? length (zone_ids (env_HostZone env)))%nat then Next m (P_Id p) (zone_ids (env_HostZone env))
    else Next m (P_Id p) (zone_ids OTHER)
  else Next m (P_Id p) randIDs.
End Choice.

(** ** Round robin *)

Lemma Next_in m k v : v <> [] -> (Next m k v).2 ∈ v.
Proof.
  intros Hne. unfold Next. destruct v as [|v0 v]; [done|]. destruct (m !! k) as [c|]; cbn [snd]; [|by left].
  set (l := v0 :: v). assert (0 < Z.of_nat (length l)) by (simpl; lia).
  pose proof (Z.mod_pos_bound (u64 (u64 (c + 1) - 1)) (Z.of_nat (length l)) ltac:(lia)).
  destruct (lookup_lt_is_Some_2 l (Z.to_nat (u64 (u64 (c + 1) - 1) mod Z.of_nat (length l)))) as [x Hx]; [lia|].
  rewrite Hx. simpl. by eapply list_elem_of_lookup_2.
Qed.

Lemma next_run_from n : forall m k v c,
  v <> [] -> m !! k = Some c -> 0 <= c -> c + Z.of_nat n < 2 ^ 64 ->
  (next_run n m k v).2 = (fun i => default 0 (v !! Z.to_nat ((c + Z.of_nat i) mod Z.of_nat (length v)))) <$> seq 0 n.
Proof.
  induction n as [|n IH]; intros m k v c Hne Hm Hc Hmax; [done|].
  cbn [next_run]. unfold Next at 1. destruct v as [|v0 v]; [done|]. rewrite Hm. set (l := v0 :: v) in *.
  assert (u64 (c + 1) = c + 1) as -> by (apply wrap_u_id; unfold in_u; lia).
  replace (c + 1 - 1) with c by lia. assert (u64 c = c) as -> by (apply wrap_u_id; unfold in_u; lia).
  specialize (IH (<[k := c + 1]> m) k l (c + 1)). destruct (next_run n _ k l) as [m2 xs]. cbn [snd] in *.
  rewrite IH by (rewrite ?lookup_insert_eq; done || lia). cbn [seq fmap list_fmap]. f_equal; [by rewrite Z.add_0_r|].
  rewrite <- fmap_S_seq, <- list_fmap_compose. apply list_fmap_ext. intros _ i _. unfold compose.
  by replace (c + 1 + Z.of_nat i) with (c + Z.of_nat (S i)) by lia.
Qed.

(** Round robin: consecutive requests for a partition whose set of usable
    replicas does not change visit the replicas in turn, beginning with the
    first, so every window of [length v] calls uses each once. *)
Theorem Next_cycles (m : gmap Z Z) (k : Z) (v : list Z) (n : nat) :
  v <> [] -> m !! k = None -> Z.of_nat n < 2 ^ 64 ->
  (next_run n m k v).2 = (fun i => default 0 (v !! (i mod length v)%nat)) <$> seq 0 n.
Proof.
  intros Hne Hm Hn. destruct n as [|n]; [done|]. destruct v as [|v0 v]; [done|]. set (l := v0 :: v) in *.
  assert (next_run (S n) m k l = let '(m2, xs) := next_run n (<[k := 1]> m) k l in (m2, v0 :: xs)) as ->
    by (cbn [next_run]; unfold Next at 1, l; by rewrite Hm).
  pose proof (next_run_from n (<[k := 1]> m) k l 1) as Hrun. destruct (next_run n _ k l) as [m2 xs]. cbn [snd] in *.
  rewrite Hrun by (rewrite ?lookup_insert_eq; done || lia). cbn [seq fmap list_fmap].
  assert (length l <> 0)%nat by done. f_equal; [by rewrite Nat.mod_0_l by done|].
  rewrite <- fmap_S_seq, <- list_fmap_compose. apply list_fmap_ext. intros _ i _. unfold compose.
  replace (1 + Z.of_nat i) with (Z.of_nat (S i)) by lia. rewrite <- Nat2Z.inj_mod, Nat2Z.id. done.
Qed.

Lemma Next_cycles_witness : (next_run 5 ∅ 1 [11; 12; 13]).2 = [11; 12; 13; 11; 12].
Proof. apply (Next_cycles ∅ 1 [11; 12; 13] 5); [done|done|lia]. Defined.

(** ** The chosen replica *)

Section Sound.
Context (env : replica_env) (p : Partition).

Lemma elem_of_randIDs n : n ∈ randIDs env p <-> n ∈ P_Replicas p /\ usable env p n = true.
Proof. unfold randIDs. rewrite list_elem_of_filter. tauto. Qed.

Lemma elem_of_noLeaderIDs n : n ∈ noLeaderIDs env p <-> n ∈ P_Replicas p /\ usable env p n = true /\ n <> P_LeaderID p.
Proof. unfold noLeaderIDs. rewrite list_elem_of_filter, andb_true_iff, negb_true_iff, Z.eqb_neq. tauto. Qed.

Lemma Next_choice m ids : (Next m (P_Id p) ids).2 ∈ ids \/ ids = [] /\ (Next m (P_Id p) ids).2 = 0.
Proof. destruct ids as [|x ids]; [by right|left]. by apply Next_in. Qed.

Lemma least_loop_in ids st :
  (fold_left (least_step env) ids st).2 = st.2 \/ (fold_left (least_step env) ids st).2 ∈ ids.
Proof.
  revert st. induction ids as [|n ids IH]; intros [[most least] lid]; [by left|]. cbn [fold_left].
  destruct (IH (least_step env (most, least, lid) n)) as [->|Hin]; [|right; by right].
  unfold least_step. destruct (env_concurrent env n <? most); cbn [snd]; [right; by left|by left].
Qed.

(** The zone lists only hold ids of usable replicas, and all of them. *)
Definition zone_sound (nearestId : gmap string (list Z)) (ids : list Z) : Prop :=
  forall key l, nearestId !! key = Some l -> forall x, x ∈ l -> x ∈ ids.

Lemma zone_fold_sound ids : forall seen m,
  (forall n s, env_server env n = Some s -> Srv_ID s = n) ->
  zone_sound m seen -> zone_sound (fold_left (zone_step env) ids m) (seen ++ ids).
Proof.
  induction ids as [|n ids IH]; intros seen m Hid Hm; cbn [fold_left]; [by rewrite app_nil_r|].
  replace (seen ++ n :: ids) with ((seen ++ [n]) ++ ids) by (by rewrite <- app_assoc).
  apply IH; [done|]. intros key l Hl x Hx. apply elem_of_app. unfold zone_step in Hl.
  destruct (env_server env n) as [s|] eqn:Hs; [|left; by eapply Hm].
  apply lookup_insert_Some in Hl as [[<- <-]|[_ Hl]]; [|left; by eapply Hm].
  apply elem_of_app in Hx as [Hx|Hx]; [|right; apply list_elem_of_singleton in Hx as ->; rewrite (Hid n s Hs); by left].
  left. destruct (m !! _) as [l|] eqn:Hl; [by eapply Hm|by apply elem_of_nil in Hx].
Qed.

Lemma zone_ids_sound key x :
  (forall n s, env_server env n = Some s -> Srv_ID s = n) -> x ∈ zone_ids env p key -> x ∈ randIDs env p.
Proof.
  intros Hid Hx. unfold zone_ids in Hx. destruct (_ !! key) as [l|] eqn:Hl; [|by apply elem_of_nil in Hx].
  assert (zone_sound (fold_left (zone_step env) (randIDs env p) ∅) ([] ++ randIDs env p)) as H;
    [apply zone_fold_sound; [done|]|by apply (H key l)].
  intros k l' Hl'. by rewrite lookup_empty in Hl'.
Qed.

(** Whatever the client asks for (the leader apart), the node chosen is a
    replica of the partition that is registered, not marked faulty, caught up
    when consistency is asked for, and not the leader when the client said
    so; 0 is the only other answer. *)
Theorem replica_choice_sound (clientType : string) (m : gmap Z Z) :
  (forall n s, env_server env n = Some s -> Srv_ID s = n) -> clientType <> Leader ->
  let n := (GetNodeIdsByClientType env p clientType m).2 in
  n = 0 \/
  n ∈ P_Replicas p /\ is_Some (env_server env n) /\ env_faulty env n = false /\
  (env_RaftConsistent env = true -> P_ReStatusMap p !! n = Some ReplicasOK) /\
  (clientType = NotLeader -> n <> P_LeaderID p).
Proof.
  intros Hid HnL. cbv zeta. set (n := (GetNodeIdsByClientType env p clientType m).2).
  assert (n = 0 \/ n ∈ randIDs env p /\ (clientType = NotLeader -> n <> P_LeaderID p)) as [->|[Hin Hnl]]; [|by left|].
  - subst n. unfold GetNodeIdsByClientType. rewrite (proj2 (string_eqb_neq _ _) HnL).
    assert (forall ids, (forall x, x ∈ ids -> x ∈ randIDs env p) -> clientType <> NotLeader ->
      (Next m (P_Id p) ids).2 = 0 \/ (Next m (P_Id p) ids).2 ∈ randIDs env p /\
      (clientType = NotLeader -> (Next m (P_Id p) ids).2 <> P_LeaderID p)) as Hnext.
    { intros ids Hids Hne. destruct (Next_choice m ids) as [H|[_ H]]; [right; split; [by apply Hids|done]|by left]. }
    destruct (clientType =?s NotLeader) eqn:H1; [apply string_eqb_eq in H1|apply string_eqb_neq in H1].
    { destruct (Next_choice m (noLeaderIDs env p)) as [H|[_ H]]; [right|by left].
      apply elem_of_noLeaderIDs in H as (? & ? & ?). split; [by apply elem_of_randIDs|done]. }
    destruct (_ || _); [by apply Hnext|]. destruct (clientType =?s LeastConnection).
    { pose proof (least_loop_in (randIDs env p) (4294967295, -1, 0)) as Hl. fold (least_loop env p) in Hl.
      destruct (least_loop env p) as [[most least] lid]. cbn [snd] in Hl. destruct (10 <? least); [|by apply Hnext].
      cbn [snd]. destruct Hl as [->|Hl]; [by left|right; by split]. }
    destruct (clientType =?s NearestConnection); [|by apply Hnext].
    destruct (0 <? _)%nat; apply Hnext; try done; intros x; by apply zone_ids_sound.
  - right. apply elem_of_randIDs in Hin as [Hrep Hus]. unfold usable in Hus.
    destruct (env_server env n) eqn:Hsrv; [|done]. destruct (env_faulty env n); [done|].
    split_and!; [done|by eexists|done| |done]. intros Hc. rewrite Hc in Hus. by apply bool_decide_eq_true in Hus.
Qed.
End Sound.

Definition demo_env : replica_env :=
  {| env_server := fun n => if n =? 0 then None else Some {| Srv_ID := n; Srv_HostZone := "z" |};
     env_faulty := fun n => n =? 3; env_concurrent := fun _ => 0; env_RaftConsistent := false; env_HostZone := "z" |}.
Definition demo_replicas : Partition :=
  {| P_Id := 1; P_Name := ""; P_SpaceId := 1; P_DBId := 1; P_Slot := 0; P_LeaderID := 2; P_Replicas := [2; 3; 4];
     P_UpdateTime := 0; P_AddNum := 0; P_ResourceExhausted := false; P_Path := ""; P_status := PA_READWRITE;
     P_ReStatusMap := ∅ |}.

Lemma replica_choice_sound_witness :
  let n := (GetNodeIdsByClientType demo_env demo_replicas NotLeader ∅).2 in n = 4 /\ n <> P_LeaderID demo_replicas.
Proof.
  destruct (replica_choice_sound demo_env demo_replicas NotLeader ∅) as [H|(_ & _ & _ & _ & H)].
  - intros n s. simpl. destruct (n =? 0); [done|]. by intros [= <-].
  - done.
  - vm_compute in H. discriminate H.
  - split; [vm_compute; reflexivity|by apply H].
Defined.
