(* ===== verification/Failover.v ===== *)
(** * Asking the replicas of a partition (internal/client/client.go, internal/client/ps.go)

    How one goroutine of a request gets an answer for its partition.  [Execute] sends documents to the leader and then to the other replicas; [searchFromPartition] chooses a replica
    by the client's wish, and a node that refuses the connection is marked as faulty and another one is chosen.  The servers are an argument.  An entry of the list of faulty nodes lives for 30
    seconds; here it does not expire while a search runs.  The time measurements and the normalization of query vectors are left out. *)

From S2P Require Import Prelude.
From S2P Require Import Text.
From S2P Require Import Errors.
From S2P Require Import Partition.
From S2P Require Import Replica.
Open Scope Z_scope.

(** ** Documents *)

Section Documents.
Context {A : Type}.
(** [rpcClient.Execute] of a node at the k-th attempt - a client that was closed meanwhile panics -, and the nodes marked as faulty. *)
Context (rpc : nat -> Z -> go A) (faulty : gset Z).

(** The loop over the replicas, of which [k] attempts were made before: the reply of the first that has one, or the last error. *)
Fixpoint try_replicas (k : nat) (err : error) (replicas : list Z) : go A :=
  match replicas with
  | [] => Fail err
  | nodeID :: replicas' =>
    if (nodeID =? 0) || bool_decide (nodeID ∈ faulty) then try_replicas k err replicas'
    else match rpc k nodeID with
         | Fail e => try_replicas (S k) e replicas'
         | r => r
         end
  end.
(** What a goroutine of [Execute] sends on: the reply, or the error that it writes into its own message. *)
Definition execute_partition (partition : Partition) : go A :=
  match rpc 0 (P_LeaderID partition) with
  | Fail e => match try_replicas 1 e (P_Replicas partition) with
              | Fail err => Fail (NewError INTERNAL_ERROR (Some err))
              | r => r
              end
  | r => r
  end.

Definition asked (partition : Partition) (n : Z) : Prop := n = P_LeaderID partition \/ n ∈ P_Replicas partition /\ n <> 0 /\ n ∉ faulty.

Lemma try_replicas_spec (replicas : list Z) : forall (k : nat) (err : error),
  match try_replicas k err replicas with
  | Ret r => exists j n, n ∈ replicas /\ n <> 0 /\ n ∉ faulty /\ rpc j n = Ret r
  | Fail e => (e = err \/ exists j n, rpc j n = Fail e) /\
              forall n, n ∈ replicas -> n <> 0 -> n ∉ faulty -> exists j e, rpc j n = Fail e
  | Panic p => exists j n, n ∈ replicas /\ n <> 0 /\ n ∉ faulty /\ rpc j n = Panic p
  end.
Proof.
  induction replicas as [|n l IH]; intros k err; cbn [try_replicas]; [split; [by left|]; intros n Hn; by apply not_elem_of_nil in Hn|].
  destruct ((n =? 0) || bool_decide (n ∈ faulty)) eqn:Es.
  - specialize (IH k err). apply orb_true_iff in Es. rewrite Z.eqb_eq, bool_decide_eq_true in Es. destruct (try_replicas k err l) as [r|e|p].
    + destruct IH as (j & i & Hi & H). exists j, i. split; [by right | done].
    + destruct IH as [He IH]. split; [done|]. intros i Hi H0 Hf. apply elem_of_cons in Hi as [->|Hi]; [by destruct Es | by apply IH].
    + destruct IH as (j & i & Hi & H). exists j, i. split; [by right | done].
  - apply orb_false_iff in Es as [E0%Z.eqb_neq Ef%bool_decide_eq_false].
    destruct (rpc k n) as [r|e|p] eqn:Er; [exists k, n; split; [by left | done] | | exists k, n; split; [by left | done]].
    specialize (IH (S k) e). destruct (try_replicas (S k) e l) as [r|e'|p].
    + destruct IH as (j & i & Hi & H). exists j, i. split; [by right | done].
    + destruct IH as [He IH]. split; [destruct He as [->|?]; right; [by exists k, n | done]|].
      intros i Hi H0 Hf. apply elem_of_cons in Hi as [->|Hi]; [by exists k, e | by apply IH].
    + destruct IH as (j & i & Hi & H). exists j, i. split; [by right | done].
Qed.

(** What a goroutine passes on: the reply of the leader or of a replica that is not marked as faulty; an error only if all of them failed, the last one, wrapped; a panic of a client. *)
Theorem execute_partition_exact (partition : Partition) :
  match execute_partition partition with
  | Ret r => exists k n, asked partition n /\ rpc k n = Ret r
  | Fail e => (exists k n e', rpc k n = Fail e' /\ e = NewError INTERNAL_ERROR (Some e')) /\
              forall n, asked partition n -> exists k e', rpc k n = Fail e'
  | Panic p => exists k n, asked partition n /\ rpc k n = Panic p
  end.
Proof.
  unfold execute_partition, asked. destruct (rpc 0 (P_LeaderID partition)) as [r|e|p] eqn:El; [by eauto 6| |by eauto 6].
  pose proof (try_replicas_spec (P_Replicas partition) 1 e) as H. destruct (try_replicas 1 e (P_Replicas partition)) as [r|e'|p].
  - destruct H as (k & n & Hn & H0 & Hf & Hr). eauto 8.
  - destruct H as [He H]. split.
    + destruct He as [->|(k & n & Hk)]; [by exists 0%nat, (P_LeaderID partition), e | by exists k, n, e'].
    + intros n [->|(Hn & H0 & Hf)]; [by eauto | by apply H].
  - destruct H as (k & n & Hn & H0 & Hf & Hr). eauto 8.
Qed.
End Documents.

(** ** Searches *)

(** The parts of a reply that the client reads: the error of its head, and the results as bytes. *)
Record SearchResponse : Type := { sr_Err : option error; sr_FlatBytes : option (list Z) }.

Section Search.
Context (env : replica_env) (partition : Partition) (clientType : string).
(** [rpcClient.Execute] of a node at the k-th attempt; whether [r.Err] is set by another partition before and after it. *)
Context (rpc : nat -> Z -> error + SearchResponse) (before after : nat -> bool).

Definition with_faulty (faulty : gset Z) : replica_env :=
  {| env_server := env_server env; env_faulty := fun n => bool_decide (n ∈ faulty); env_concurrent := env_concurrent env;
     env_RaftConsistent := env_RaftConsistent env; env_HostZone := env_HostZone env |}.
Definition choose (faulty : gset Z) (m : gmap Z Z) : gmap Z Z * Z := GetNodeIdsByClientType (with_faulty faulty) partition clientType m.
Definition replicasFaultyNum (faulty : gset Z) : nat := length (List.filter (fun n => bool_decide (n ∈ faulty)) (P_Replicas partition)).
Definition refused (e : error) : bool := Contains (Error e) "connect: connection refused".

(** The nodes asked, the faulty ones and the counters afterwards, [retry_err], and the reply if there is one. *)
Record searched : Type := { sd_tried : list Z; sd_faulty : gset Z; sd_counters : gmap Z Z; sd_err : option error; sd_reply : option SearchResponse }.
Definition tried (n : Z) (x : searched) : searched :=
  {| sd_tried := n :: sd_tried x; sd_faulty := sd_faulty x; sd_counters := sd_counters x; sd_err := sd_err x; sd_reply := sd_reply x |}.

(** The loop: [left] attempts are left, [retry] were made. *)
Fixpoint attempts (left retry : nat) (nodeID : Z) (faulty : gset Z) (m : gmap Z Z) (retry_err : option error) : searched :=
  let stop err reply := {| sd_tried := []; sd_faulty := faulty; sd_counters := m; sd_err := err; sd_reply := reply |} in
  match left with
  | O => stop retry_err None
  | S left' =>
    if (length (P_Replicas partition) <=? replicasFaultyNum faulty)%nat then stop retry_err None
    else if before retry then stop retry_err None
    else tried nodeID
      match rpc retry nodeID with
      | inr r => stop None (Some r)
      | inl e =>
        if after retry || negb (refused e) then stop (Some e) None
        else let faulty' := {[ nodeID ]} ∪ faulty in
             let '(m', nodeID') := choose faulty' m in attempts left' (S retry) nodeID' faulty' m' (Some e)
      end
  end.

(** Every replica is registered and, if consistency is asked for, caught up; each of them replies or refuses the connection, and nobody cancels the request. *)
Record reachable : Prop := {
  rc_random : clientType = Random \/ clientType = ""%string;
  rc_nodup : NoDup (P_Replicas partition);
  rc_server : forall n, n ∈ P_Replicas partition -> is_Some (env_server env n);
  rc_consistent : env_RaftConsistent env = true -> forall n, n ∈ P_Replicas partition -> P_ReStatusMap partition !! n = Some ReplicasOK;
  rc_nonzero : 0 ∉ P_Replicas partition;
  rc_replies : forall k n, n ∈ P_Replicas partition -> (exists r, rpc k n = inr r) \/ (exists e, rpc k n = inl e /\ refused e = true);
  rc_calm : forall k, before k = false /\ after k = false
}.
Hypothesis Hreach : reachable.

Lemma choose_usable (faulty : gset Z) (m : gmap Z Z) (n0 : Z) : n0 ∈ P_Replicas partition -> n0 ∉ faulty ->
  let n := (choose faulty m).2 in n ∈ P_Replicas partition /\ n ∉ faulty.
Proof using Hreach.
  intros Hin Hf n. assert (n0 ∈ randIDs (with_faulty faulty) partition) as H0.
  { apply elem_of_randIDs. split; [done|]. unfold usable. cbn. destruct (rc_server Hreach n0 Hin) as [s ->]. rewrite bool_decide_false by done.
    destruct (env_RaftConsistent env) eqn:Ec; [|done]. apply bool_decide_eq_true, (rc_consistent Hreach); done. }
  assert (n ∈ randIDs (with_faulty faulty) partition) as Hn.
  { unfold n, choose, GetNodeIdsByClientType. destruct (rc_random Hreach) as [->| ->]; cbn; apply Next_in; intros He; rewrite He in H0; by apply not_elem_of_nil in H0. }
  apply elem_of_randIDs in Hn as [Hr Hu]. split; [done|]. intros Hfn. unfold usable in Hu. cbn in Hu. destruct (env_server env n); [|done]. by rewrite bool_decide_true in Hu.
Qed.

Lemma faulty_grows (faulty : gset Z) (n : Z) : n ∈ P_Replicas partition -> n ∉ faulty -> replicasFaultyNum ({[ n ]} ∪ faulty) = S (replicasFaultyNum faulty).
Proof using Hreach.
  unfold replicasFaultyNum. pose proof (rc_nodup Hreach) as Hnd. induction (P_Replicas partition) as [|k l IH]; intros Hin Hf; [by apply not_elem_of_nil in Hin|].
  apply NoDup_cons in Hnd as [Hk Hnd]. cbn. destruct (decide (k = n)) as [->|Hne].
  - rewrite bool_decide_true, bool_decide_false by set_solver. cbn. f_equal. f_equal. clear IH Hin. induction l as [|j l IH]; [done|]. cbn.
    apply not_elem_of_cons in Hk as [? ?]. apply NoDup_cons in Hnd as [? ?]. rewrite IH by done. by rewrite (bool_decide_ext (j ∈ {[n]} ∪ faulty) (j ∈ faulty)) by set_solver.
  - apply elem_of_cons in Hin as [->|Hin]; [done|]. rewrite (bool_decide_ext (k ∈ {[n]} ∪ faulty) (k ∈ faulty)) by set_solver.
    destruct (bool_decide (k ∈ faulty)); cbn; rewrite IH by done; done.
Qed.
Lemma faulty_some (faulty : gset Z) (n0 : Z) : n0 ∈ P_Replicas partition -> n0 ∉ faulty -> (replicasFaultyNum faulty < length (P_Replicas partition))%nat.
Proof using.
  unfold replicasFaultyNum. clear Hreach. induction (P_Replicas partition) as [|k l IH]; intros Hin Hf; [by apply not_elem_of_nil in Hin|]. cbn.
  assert (length (List.filter (fun n => bool_decide (n ∈ faulty)) l) <= length l)%nat as Hle by (clear; induction l as [|j l IHl]; cbn; [lia|]; destruct (bool_decide _); cbn; lia).
  apply elem_of_cons in Hin as [->|Hin]; [rewrite bool_decide_false by done; lia|]. specialize (IH Hin Hf). destruct (bool_decide _); cbn; lia.
Qed.

(** The attempts of a search: distinct replicas, none of them marked before; all but the last refuse the connection, and the last one replies. *)
Definition asked_in_turn (retry : nat) (faulty : gset Z) (nodes : list Z) (r : SearchResponse) : Prop :=
  NoDup nodes /\ (forall n, n ∈ nodes -> n ∈ P_Replicas partition /\ n ∉ faulty) /\
  exists pre n, nodes = pre ++ [n] /\ rpc (retry + length pre) n = inr r /\
    forall j t, pre !! j = Some t -> exists e, rpc (retry + j) t = inl e /\ refused e = true.

(** While a replica that replies is left, the loop goes on: every refusal marks a node that was not marked before. *)
Lemma attempts_reply (left : nat) : forall retry nodeID faulty m err n0, n0 ∈ P_Replicas partition -> n0 ∉ faulty -> (forall k, exists r, rpc k n0 = inr r) ->
  nodeID ∈ P_Replicas partition -> nodeID ∉ faulty -> (length (P_Replicas partition) <= replicasFaultyNum faulty + left)%nat ->
  let x := attempts left retry nodeID faulty m err in
  sd_err x = None /\ exists r, sd_reply x = Some r /\ asked_in_turn retry faulty (sd_tried x) r.
Proof using Hreach.
  induction left as [|left IH]; intros retry nodeID faulty m err n0 Hn0 Hf0 Hrep Hin Hf Hlen; pose proof (faulty_some faulty n0 Hn0 Hf0) as Hlt; [lia|]. cbn [attempts].
  rewrite (proj2 (Nat.leb_gt _ _)) by lia. destruct (rc_calm Hreach retry) as [Hb Ha]. rewrite Hb.
  destruct (rpc retry nodeID) as [e|r] eqn:Er.
  2: { cbn. split; [done|]. exists r. split; [done|]. split; [apply NoDup_singleton|]. split; [by intros n ->%list_elem_of_singleton|].
       exists [], nodeID. rewrite Nat.add_0_r. split_and!; [done..|]. intros j t Hj. by rewrite lookup_nil in Hj. }
  destruct (rc_replies Hreach retry nodeID Hin) as [[r Hr]|(e' & He & Href)]; [congruence|]. rewrite Er in He. injection He as <-. rewrite Ha, Href. cbn [orb negb].
  assert (n0 ∉ {[ nodeID ]} ∪ faulty) as Hf0'. { intros [->%elem_of_singleton|?]%elem_of_union; [|done]. destruct (Hrep retry) as [r Hr]. congruence. }
  destruct (choose ({[ nodeID ]} ∪ faulty) m) as [m' n'] eqn:Ech. destruct (choose_usable ({[ nodeID ]} ∪ faulty) m n0 Hn0 Hf0') as [Hn' Hf']. rewrite Ech in Hn', Hf'. cbn in Hn', Hf'.
  destruct (IH (S retry) n' ({[ nodeID ]} ∪ faulty) m' (Some e) n0) as (Hnone & r & Hr & Hnd & Hsub & pre & n & Hpre & Hlast & Hrefused); [done..|rewrite faulty_grows by done; lia|].
  cbn [tried sd_err sd_reply sd_tried]. split; [done|]. exists r. split; [done|]. split; [|split].
  - constructor; [|done]. intros [_ Hno]%Hsub. set_solver.
  - intros k [->|[? ?]%Hsub]%elem_of_cons; [done|]. set_solver.
  - exists (nodeID :: pre), n. rewrite Hpre. split; [done|]. cbn [length]. rewrite Nat.add_succ_r. split; [done|].
    intros [|j] t Hj; simpl in Hj; [simplify_eq; rewrite Nat.add_0_r; by exists e|]. rewrite Nat.add_succ_r. by apply Hrefused.
Qed.

Context {R : Type} (DeSerialize : list Z -> R) (CheckVirtualMemExceed : Z -> bool).
(** What is sent on: an error in the head or of the partition, or results; and whether the request is cancelled for all partitions. *)
Record SearchDocResult : Type := { rs_Head_Err : option error; rs_Err : option error; rs_Results : option R; rs_cancel : bool }.
Definition failed_search (e : error) : SearchDocResult := {| rs_Head_Err := Some e; rs_Err := None; rs_Results := None; rs_cancel := false |}.
Definition canceled : error := VearchErr PARTITION_SERVER_MEMORYEXCEED "request canceled".

Definition conclude (cancelled : bool) (reply : SearchResponse) : SearchDocResult :=
  if cancelled then {| rs_Head_Err := sr_Err reply; rs_Err := None; rs_Results := None; rs_cancel := false |}
  else if bool_decide (sr_Err reply ≫= code_of = Some PARTITION_SERVER_MEMORYEXCEED)
  then {| rs_Head_Err := sr_Err reply; rs_Err := sr_Err reply; rs_Results := None; rs_cancel := true |}
  else if CheckVirtualMemExceed (Z.of_nat (length (default [] (sr_FlatBytes reply))))
  then {| rs_Head_Err := sr_Err reply; rs_Err := Some canceled; rs_Results := None; rs_cancel := true |}
  else {| rs_Head_Err := sr_Err reply; rs_Err := None; rs_Results := DeSerialize <$> sr_FlatBytes reply; rs_cancel := false |}.

Definition retry_error (e : error) : error :=
  match e with VearchErr c _ => VearchErr c (Error e) | OtherErr m => VearchErr INTERNAL_ERROR m end.

Definition search_replicas (cancelled : bool) (faulty : gset Z) (m : gmap Z Z) : searched * SearchDocResult :=
  let '(m', nodeID) := choose faulty m in
  let retry_err := if (length (P_Replicas partition) <=? replicasFaultyNum faulty)%nat || (nodeID =? 0)
                   then Some (OtherErr "nodeID %v partitionID: %d is faulty, replica_num=%d, faultyNodeNum=%d") else None in
  let x := attempts (length (P_Replicas partition)) 0 nodeID faulty m' retry_err in
  (x, match sd_err x with
      | Some e => failed_search (retry_error e)
      | None => conclude cancelled (default {| sr_Err := None; sr_FlatBytes := None |} (sd_reply x))
      end).


End Search.

(** [searchFromPartition]: a partition that is not in the cache is an error, otherwise its replicas are asked. *)
Definition searchFromPartition {R} (DeSerialize : list Z -> R) (CheckVirtualMemExceed : Z -> bool) (env : replica_env) (clientType : string) (rpc : nat -> Z -> error + SearchResponse)
    (before after : nat -> bool) (found : error + Partition) (cancelled : bool) (faulty : gset Z) (m : gmap Z Z) : gset Z * gmap Z Z * SearchDocResult (R := R) :=
  match found with
  | inl _ => (faulty, m, failed_search (VearchErr ROUTER_NO_PS_CLIENT "query partition cache err partitionID:"))
  | inr partition =>
    let '(x, result) := search_replicas env partition clientType rpc before after DeSerialize CheckVirtualMemExceed cancelled faulty m in (sd_faulty x, sd_counters x, result)
  end.

(** ** Concrete runs *)

Definition three : Partition :=
  {| P_Id := 1; P_Name := ""; P_SpaceId := 1; P_DBId := 1; P_Slot := 0; P_LeaderID := 2; P_Replicas := [2; 3; 4]; P_UpdateTime := 0; P_AddNum := 0;
     P_ResourceExhausted := false; P_Path := ""; P_status := PA_READWRITE; P_ReStatusMap := ∅ |}.
(** Only node 4 is up. *)
Definition one_up (k : nat) (n : Z) : error + SearchResponse :=
  if n =? 4 then inr {| sr_Err := None; sr_FlatBytes := Some [7] |} else inl (OtherErr "dial tcp 10.0.0.1:8081: connect: connection refused").

