(* ===== verification/Delivery.v ===== *)
(** * Delivering the documents of a partition (internal/client/client.go)

    One goroutine of [routerRequest.Execute]: it looks up its partition, normalizes the vectors of a batch in the message itself, sends the
    message to the leader and then to the other replicas, and passes on the reply, or its own message with an error.  The documents of a message are shared with the
    request; normalization changes values of fields, never a key, so the replies are collected as in [Router.gather].  The lookup in the cache and
    the servers are arguments. *)

From Stdlib Require Import SpecFloat.
From S2P Require Import Prelude.
From S2P Require Import Text.
From S2P Require Import Errors.
From S2P Require Import Schema.
From S2P Require Import Bytes.
From S2P Require Import Partition.
From S2P Require Import Space.
From S2P Require Import Floats.
From S2P Require Import Router.
From S2P Require Import Failover.
Open Scope Z_scope.

(** ** Normalizing vectors *)

(** [math.Float32frombits] *)
Definition Float32frombits (bits : Z) : float :=
  let s := Z.testbit bits 31 in
  let e := Z.land (Z.shiftr bits 23) 255 in
  let m := Z.land bits (2 ^ 23 - 1) in
  if e =? 255 then (if m =? 0 then S754_infinity s else S754_nan)
  else if e =? 0 then match m with Zpos q => S754_finite s q (-149) | _ => S754_zero s end
  else match m + 2 ^ 23 with Zpos q => S754_finite s q (e - 150) | _ => S754_zero s end.

(** [number.Normalization]: divide by the square root of the sum of the squares, all rounded to [float32] on the way. *)
Definition sum_squares (feature : list float) : float :=
  foldl (fun sum v => SFadd 24 128 sum (SFmul 24 128 v v)) (S754_zero false) feature.
Definition unusable_sum (sum : float) : bool := match sum with S754_finite _ _ _ => false | _ => true end.
Definition Normalization (feature : list float) : option (list float) :=
  let sum := sum_squares feature in
  if unusable_sum sum then None
  else let norm := to_float32 (SFsqrt 53 1024 sum) in Some ((fun v => SFdiv 24 128 v norm) <$> feature).

(** [NormalizedVectorFields]: the vector fields with a format of normalization whose index is not binary. *)
Definition normal_format (format : option string) : bool :=
  match format with Some f => (f =?s "normalization") || (f =?s "normal") | None => false end.
Definition NormalizedVectorFields (s : Space) (fieldName : string) : bool :=
  match S_SpaceProperties s !! fieldName with
  | None => false
  | Some property =>
    bool_decide (SP_FieldType property = FT_VECTOR) && normal_format (SP_Format property) &&
    match SP_Index property with
    | Some index => negb (Index_Type index =?s "BINARYIVF")
    | None => existsb (fun idx => (FieldName idx =?s fieldName) && negb (Index_Type idx =?s "BINARYIVF")) (S_Indexes s)
    end
  end.

Section Goroutine.
Context (space : Space).

(** The value of one field; an error is thrown by [log.Panic]. *)
Definition normalize_field (f : DocField) : go DocField :=
  if (DF_Name f =?s "") || negb (NormalizedVectorFields space (DF_Name f)) then Ret f
  else
    match ByteToVectorForFloat32 (DF_Value f) with
    | Ret words =>
      match Normalization (Float32frombits <$> words) with
      | Some vector => Ret {| DF_Name := DF_Name f; DF_Type := DF_Type f; DF_Value := VectorToByte (Float32bits <$> vector); DF_Option := DF_Option f |}
      | None => Panic Thrown
      end
    | Fail _ => Panic Thrown
    | Panic p => Panic p
    end.

(** The loops work in place: what was normalized before a panic stays so. *)
Fixpoint normalize_fields (fs : list DocField) : list DocField * go unit :=
  match fs with
  | [] => ([], Ret tt)
  | f :: fs' =>
    match normalize_field f with
    | Ret f' => let '(l, r) := normalize_fields fs' in (f' :: l, r)
    | Fail e => (f :: fs', Fail e)
    | Panic p => (f :: fs', Panic p)
    end
  end.

Fixpoint normalize_items (items : list (option Item)) : list (option Item) * go unit :=
  match items with
  | [] => ([], Ret tt)
  | None :: items' => (None :: items', Panic NilDeref)
  | Some it :: items' =>
    match It_Doc it with
    | None => let '(l, r) := normalize_items items' in (Some it :: l, r)
    | Some doc =>
      let '(fs, r) := normalize_fields (D_Fields doc) in
      let it' := Some {| It_Doc := Some {| D_PKey := D_PKey doc; D_Fields := fs |}; It_Err := It_Err it |} in
      match r with
      | Ret _ => let '(l, r) := normalize_items items' in (it' :: l, r)
      | r => (it' :: items', r)
      end
    end
  end.

Definition set_PD_Err (e : error) (d : PartitionData) : PartitionData :=
  {| PD_PartitionID := PD_PartitionID d; PD_MessageID := PD_MessageID d; PD_Items := PD_Items d; PD_Payload := PD_Payload d; PD_Err := Some e |}.

(** The deferred function of the goroutine. *)
Definition recovered (d : PartitionData) : PartitionData := set_PD_Err (VearchErr RECOVER "[Recover] partitionID: [%v], err: [%v]") d.

(** What is put on the channel for the message [d] of a batch. *)
Definition deliver (found : error + Partition) (rpc : nat -> Z -> PartitionData -> go PartitionData) (faulty : gset Z) (d : PartitionData) : PartitionData :=
  match found with
  | inl _ => recovered d
  | inr partition =>
    let '(items, r) := normalize_items (PD_Items d) in
    let d := set_PD_Items items d in
    match r with
    | Ret _ =>
      match execute_partition (fun k n => rpc k n d) faulty partition with
      | Ret replyPartition => replyPartition
      | Fail e => set_PD_Err e d
      | Panic _ => recovered d
      end
    | _ => recovered d
    end
  end.

(** ** What normalization keeps *)

(** The documents of a message as they are sent; [None] if their normalization panics. *)
Definition normalized (ds : list Document) : option (list Document) :=
  mapM (fun d => let '(fs, r) := normalize_fields (D_Fields d) in
                 match r with Ret _ => Some {| D_PKey := D_PKey d; D_Fields := fs |} | _ => None end) ds.

Lemma normalize_items_keys items :
  item_key <$> (normalize_items items).1 = item_key <$> items /\ (Forall is_Some items -> Forall is_Some (normalize_items items).1).
Proof.
  induction items as [|[it|] items [IHk IHs]]; [done| |done]. cbn [normalize_items]. destruct (It_Doc it) as [doc|] eqn:Hd.
  - destruct (normalize_fields (D_Fields doc)) as [fs [[]|e|p]].
    + destruct (normalize_items items) as [l r]. cbn in *. rewrite Hd, IHk. split; [done|]. intros [_ ?]%Forall_cons. constructor; [by eexists|by apply IHs].
    + cbn. rewrite Hd. split; [done|]. intros [_ ?]%Forall_cons. constructor; [by eexists|done].
    + cbn. rewrite Hd. split; [done|]. intros [_ ?]%Forall_cons. constructor; [by eexists|done].
  - destruct (normalize_items items) as [l r]. cbn in *. rewrite IHk. split; [done|]. intros [? ?]%Forall_cons. constructor; [done|by apply IHs].
Qed.

Lemma normalize_new_items ds l : normalize_items (new_item <$> ds) = (l, Ret tt) -> exists nds, normalized ds = Some nds /\ l = new_item <$> nds.
Proof.
  revert l. induction ds as [|d ds IH]; intros l; [intros [= <-]; by exists []|].
  change (new_item <$> d :: ds) with (new_item d :: (new_item <$> ds)). unfold new_item at 1. cbn [normalize_items It_Doc].
  unfold normalized. cbn [mapM]. destruct (normalize_fields (D_Fields d)) as [fs [[]|e|p]]; [|done..].
  destruct (normalize_items (new_item <$> ds)) as [l' r']. intros [= <- ->]. destruct (IH l' eq_refl) as (nds & Hn & ->).
  unfold normalized in Hn. exists ({| D_PKey := D_PKey d; D_Fields := fs |} :: nds). cbn. by rewrite Hn.
Qed.

Lemma normalized_keys ds nds : normalized ds = Some nds -> Forall2 (fun d n => D_PKey n = D_PKey d) ds nds.
Proof.
  unfold normalized. intros H%mapM_Some_1. induction H as [|d n ds nds Hd _ IH]; constructor; [|done].
  destruct (normalize_fields (D_Fields d)) as [fs [[]|e|p]]; [by injection Hd as <-|done..].
Qed.

(** What arrives on the channel: the message itself with an error, or the reply of the leader or of a replica to the normalized documents. *)
Lemma deliver_cases found rpc faulty d ds :
  PD_Items d = new_item <$> ds ->
  (exists e, PD_Err (deliver found rpc faulty d) = Some e /\
     (code_of e = Some RECOVER \/ exists k n nds e', rpc k n (set_PD_Items (new_item <$> nds) d) = Fail e' /\ e = NewError INTERNAL_ERROR (Some e')) /\
     Forall is_Some (PD_Items (deliver found rpc faulty d)) /\
     item_key <$> PD_Items (deliver found rpc faulty d) = item_key <$> PD_Items d) \/
  (exists p k n nds, found = inr p /\ asked faulty p n /\ normalized ds = Some nds /\
     rpc k n (set_PD_Items (new_item <$> nds) d) = Ret (deliver found rpc faulty d)).
Proof.
  intros Hd. assert (Forall is_Some (PD_Items d)) as Hsome by (rewrite Hd; apply Forall_fmap, Forall_true; intros x; by eexists).
  unfold deliver. destruct found as [e|partition]; [left; eexists; split; [reflexivity|]; split; [by left|]; split; [exact Hsome|reflexivity]|].
  destruct (normalize_items_keys (PD_Items d)) as [Hkeys Hok]. specialize (Hok Hsome).
  destruct (normalize_items (PD_Items d)) as [items r] eqn:En. cbn [fst] in Hkeys, Hok.
  destruct r as [[]|e|p]; [|left; eexists; split; [reflexivity|]; split; [by left|]; split; [exact Hok|exact Hkeys]..].
  rewrite Hd in En. destruct (normalize_new_items ds items En) as (nds & Hn & ->).
  pose proof (execute_partition_exact (fun k n => rpc k n (set_PD_Items (new_item <$> nds) d)) faulty partition) as Hex.
  destruct (execute_partition _ faulty partition) as [reply|e|p].
  - right. destruct Hex as (k & n & Ha & Hr). by exists partition, k, n, nds.
  - left. destruct Hex as [(k & n & e' & He & ->) _]. eexists. split; [reflexivity|]. split; [right; by exists k, n, nds, e'|]. split; [exact Hok|exact Hkeys].
  - left. eexists. split; [reflexivity|]. split; [by left|]. split; [exact Hok|exact Hkeys].
Qed.
End Goroutine.

(** ** Concrete vectors *)

(** The unit vector of (3, 4). *)
Definition normalized_bits (words : list Z) : option (list Z) := option_map (map Float32bits) (Normalization (map Float32frombits words)).

Example normalize_3_4 : normalized_bits [1077936128; 1082130432] = Some [1058642330; 1061997773].
Proof. vm_compute. reflexivity. Qed.

Example normalize_zero : normalized_bits [0; 2147483648] = None.
Proof. vm_compute. reflexivity. Qed.
