(* ===== verification/RefCount.v ===== *)
(** * Reference counts of backed-up files (internal/ps/backup/ref_count_manager.go)

    The manager counts, per file content (CRC32), the backup versions that use
    it, deletes the file from the object store with its last reference and
    stores the table in the object store after every change.  The model keeps
    the manager's [sync.RWMutex]: a call made by the goroutine that holds the
    write lock and that asks for the lock again never returns ([Blocked]).  The
    object store's answers and the clock are arguments. *)

From S2P Require Import Prelude.
From S2P Require Import Errors.
Open Scope Z_scope.

Record FileRefCount : Type := {
  CRC32 : string;
  S3Path : string;
  RefCount : Z;
  Size : Z;
  CreatedAt : Z;
  LastUpdatedAt : Z;
  Versions : list string
}.

(** The manager, with the two things of the outside world it changes. *)
Record RefCountManager : Type := {
  locked : bool;                              (** [mu] is write-locked *)
  refCountMap : gmap string FileRefCount;
  metadata : option (gmap string FileRefCount);  (** the table last uploaded *)
  removed : list string                       (** the files deleted from the store *)
}.

Definition set_locked (b : bool) (m : RefCountManager) : RefCountManager :=
  {| locked := b; refCountMap := refCountMap m; metadata := metadata m; removed := removed m |}.
Definition set_map (t : gmap string FileRefCount) (m : RefCountManager) : RefCountManager :=
  {| locked := locked m; refCountMap := t; metadata := metadata m; removed := removed m |}.
Definition set_metadata (t : gmap string FileRefCount) (m : RefCountManager) : RefCountManager :=
  {| locked := locked m; refCountMap := refCountMap m; metadata := Some t; removed := removed m |}.
Definition add_removed (p : string) (m : RefCountManager) : RefCountManager :=
  {| locked := locked m; refCountMap := refCountMap m; metadata := metadata m; removed := removed m ++ [p] |}.

(** The result of a method: it returns an [error] (or nil), or waits for ever. *)
Inductive run : Type :=
| Returned (m : RefCountManager) (err : option error)
| Blocked.

Definition Lock (m : RefCountManager) (k : RefCountManager -> run) : run :=
  if locked m then Blocked else k (set_locked true m).
Definition RLock (m : RefCountManager) (k : RefCountManager -> run) : run :=
  if locked m then Blocked else k m.
Definition Unlock (m : RefCountManager) : RefCountManager := set_locked false m.

(** [buildMetadataPath]: the parts of the path that [filepath.Join] joins. *)
Fixpoint split_dash (s acc : string) : list string :=
  match s with
  | EmptyString => [acc]
  | String c s' => if Ascii.eqb c "-" then acc :: split_dash s' "" else split_dash s' (acc +:+ String c "")
  end.

Definition buildMetadataPath (clusterName spaceKey : string) : list string :=
  if spaceKey =?s "" then [clusterName; "metadata"; "file_refcount.json"]%string
  else match split_dash spaceKey "" with
       | dbName :: spaceName :: _ => [clusterName; "metadata"; dbName; spaceName; "file_refcount.json"]%string
       | _ => [clusterName; "metadata"; "file_refcount.json"]%string
       end.

Definition removeString (slice : list string) (item : string) : list string :=
  filter (fun s => s <> item) slice.

(** [saveToS3Impl]: reads the table under the read lock, then uploads it. *)
Definition saveToS3Impl (upload : option error) (m : RefCountManager) : run :=
  RLock m (fun m =>
    let data := refCountMap m in
    match upload with
    | Some e => Returned m (Some e)
    | None => Returned (set_metadata data m) None
    end).

Section Manager.
(** [rcm.SaveToS3], [rcm.deleteFileFromS3] and [time.Now]. *)
Context (SaveToS3 : RefCountManager -> run) (deleteErr : string -> option error) (now : Z).

Definition AddReference (crc32 s3Path versionID : string) (fileSize : Z) (m : RefCountManager) : run :=
  Lock m (fun m =>
    let entry :=
      match refCountMap m !! crc32 with
      | Some r =>
        {| CRC32 := CRC32 r; S3Path := S3Path r; RefCount := RefCount r + 1; Size := Size r;
           CreatedAt := CreatedAt r; LastUpdatedAt := now;
           Versions := if contains (Versions r) versionID then Versions r else Versions r ++ [versionID] |}
      | None =>
        {| CRC32 := crc32; S3Path := s3Path; RefCount := 1; Size := fileSize;
           CreatedAt := now; LastUpdatedAt := now; Versions := [versionID] |}
      end in
    SaveToS3 (Unlock (set_map (<[crc32 := entry]> (refCountMap m)) m))).

(** The deferred [Unlock] runs after [SaveToS3] has returned. *)
Definition RemoveReference (crc32 versionID : string) (m : RefCountManager) : run :=
  Lock m (fun m =>
    match refCountMap m !! crc32 with
    | None => Returned (Unlock m) (Some (OtherErr "file with CRC32 %s not found in reference count map"))
    | Some r =>
      let r' := {| CRC32 := CRC32 r; S3Path := S3Path r; RefCount := RefCount r - 1; Size := Size r;
                   CreatedAt := CreatedAt r; LastUpdatedAt := now;
                   Versions := removeString (Versions r) versionID |} in
      let m :=
        if RefCount r' <=? 0 then
          let m := match deleteErr (S3Path r') with None => add_removed (S3Path r') m | Some _ => m end in
          set_map (delete crc32 (refCountMap m)) m
        else set_map (<[crc32 := r']> (refCountMap m)) m in
      match SaveToS3 m with
      | Returned m err => Returned (Unlock m) err
      | Blocked => Blocked
      end
    end).

Fixpoint remove_all (files : list string) (versionID : string) (m : RefCountManager) (nerr : nat) : run :=
  match files with
  | [] => Returned m (match nerr with
                      | O => None
                      | _ => Some (OtherErr "failed to remove %d out of %d file references: %v")
                      end)
  | crc32 :: files' =>
    match RemoveReference crc32 versionID m with
    | Returned m None => remove_all files' versionID m nerr
    | Returned m (Some _) => remove_all files' versionID m (S nerr)
    | Blocked => Blocked
    end
  end.

(** [contains(refCount.Versions, versionID)] for the entry of a key. *)
Definition uses (t : gmap string FileRefCount) (versionID crc32 : string) : bool :=
  match t !! crc32 with Some r => contains (Versions r) versionID | None => false end.

(** [order]: the keys of the map in the order the iteration yields them. *)
Definition RemoveVersionReferences (order : list string) (versionID : string) (m : RefCountManager) : run :=
  Lock m (fun m =>
    let filesToRemove := filter (fun crc32 => uses (refCountMap m) versionID crc32 = true) order in
    remove_all filesToRemove versionID (Unlock m) 0).
End Manager.

(** ** Queries *)

Definition GetFileInfo (m : RefCountManager) (crc32 : string) : option FileRefCount := refCountMap m !! crc32.
Definition GetTotalFiles (m : RefCountManager) : Z := Z.of_nat (size (refCountMap m)).
Definition ListAllFiles (m : RefCountManager) : list FileRefCount := (map_to_list (refCountMap m)).*2.
Definition GetTotalSize (m : RefCountManager) : Z :=
  fold_left (fun t r => i64 (t + Size r)) (ListAllFiles m) 0.
Definition ListOrphanedFiles (m : RefCountManager) : list FileRefCount :=
  filter (fun r => RefCount r <= 0) (ListAllFiles m).
Definition GetVersionFiles (m : RefCountManager) (versionID : string) : list FileRefCount :=
  filter (fun r => contains (Versions r) versionID = true) (ListAllFiles m).

(** ** The lock *)

(** With the manager's own [SaveToS3], removing a reference never returns: the
    method still holds the write lock when it saves, and saving takes the read
    lock.  Adding a reference, which unlocks first, returns. *)
Theorem RemoveReference_deadlocks (upload : option error) (deleteErr : string -> option error) (now : Z)
    (crc32 s3Path versionID : string) (fileSize : Z) (m : RefCountManager) :
  locked m = false ->
  (is_Some (refCountMap m !! crc32) -> RemoveReference (saveToS3Impl upload) deleteErr now crc32 versionID m = Blocked) /\
  (forall order, Exists (fun c => uses (refCountMap m) versionID c = true) order ->
     RemoveVersionReferences (saveToS3Impl upload) deleteErr now order versionID m = Blocked) /\
  (exists m', AddReference (saveToS3Impl upload) now crc32 s3Path versionID fileSize m = Returned m' upload).
Proof.
  intros Hl.
  assert (forall c, is_Some (refCountMap m !! c) -> RemoveReference (saveToS3Impl upload) deleteErr now c versionID m = Blocked) as Hrm.
  { intros c [r Hr]. unfold RemoveReference, Lock. rewrite Hl. cbn [set_locked refCountMap]. rewrite Hr. cbn zeta.
    destruct (_ <=? 0); [|done]. by destruct (deleteErr _). }
  split_and!; [by apply Hrm| |].
  - intros order Hex. unfold RemoveVersionReferences, Lock. rewrite Hl. cbn [set_locked refCountMap Unlock].
    destruct (filter _ order) as [|c l] eqn:Hf.
    + exfalso. apply Exists_exists in Hex as (c & Hc & Hu).
      assert (c ∈ filter (fun c => uses (refCountMap m) versionID c = true) order) as H by (by apply list_elem_of_filter).
      rewrite Hf in H. by apply elem_of_nil in H.
    + assert (c ∈ filter (fun c => uses (refCountMap m) versionID c = true) order) as Hc by (rewrite Hf; by left).
      apply list_elem_of_filter in Hc as [Hu _]. unfold uses in Hu. cbn [remove_all].
      replace (Unlock (set_locked true m)) with m by (destruct m; simpl in *; by subst).
      rewrite Hrm; [done|]. destruct (refCountMap m !! c); [by eexists|done].
  - unfold AddReference, Lock, saveToS3Impl, RLock. rewrite Hl. cbn [Unlock set_locked set_map locked].
    destruct upload; by eexists.
Qed.

Definition empty_manager : RefCountManager := {| locked := false; refCountMap := ∅; metadata := None; removed := [] |}.
Definition entry_of (crc path : string) (count : Z) (vs : list string) : FileRefCount :=
  {| CRC32 := crc; S3Path := path; RefCount := count; Size := 10; CreatedAt := 0; LastUpdatedAt := 0; Versions := vs |}.
Definition one_file : RefCountManager := set_map {["c" := entry_of "c" "p" 1 ["v"]]} empty_manager.

Lemma RemoveReference_deadlocks_witness :
  RemoveReference (saveToS3Impl None) (fun _ => None) 5 "c" "v" one_file = Blocked.
Proof.
  apply (RemoveReference_deadlocks None (fun _ => None) 5 "c" "p" "v" 10 one_file); [reflexivity|by eexists].
Defined.

(** ** Counts and versions, for a save that takes no lock *)

Definition wf_entry (crc32 : string) (r : FileRefCount) : Prop :=
  CRC32 r = crc32 /\ RefCount r = Z.of_nat (length (Versions r)) /\ NoDup (Versions r) /\ Versions r <> [].

Definition wf (m : RefCountManager) : Prop := locked m = false /\ map_Forall wf_entry (refCountMap m).

Lemma length_removeString vs v : NoDup vs -> v ∈ vs -> length vs = S (length (removeString vs v)).
Proof.
  intros Hnd. induction Hnd as [|x vs Hx Hnd IH]; intros Hin; [by apply elem_of_nil in Hin|].
  unfold removeString. rewrite filter_cons. destruct (decide (x <> v)) as [Hne|He].
  - simpl. f_equal. apply IH. by apply elem_of_cons in Hin as [->|?].
  - assert (x = v) as -> by (by apply dec_stable). rewrite list_filter_all; [done|].
    apply Forall_forall. intros y Hy ->. done.
Qed.

(** What removing [versionID] does to an entry that has it. *)
Definition drop_version (now : Z) (versionID : string) (r : FileRefCount) : option FileRefCount :=
  if RefCount r - 1 <=? 0 then None
  else Some {| CRC32 := CRC32 r; S3Path := S3Path r; RefCount := RefCount r - 1; Size := Size r;
               CreatedAt := CreatedAt r; LastUpdatedAt := now; Versions := removeString (Versions r) versionID |}.

Lemma drop_version_wf now v crc r r' :
  wf_entry crc r -> v ∈ Versions r -> drop_version now v r = Some r' -> wf_entry crc r' /\ v ∉ Versions r'.
Proof.
  intros (Hc & Hn & Hnd & Hne) Hv. unfold drop_version. destruct (Z.leb_spec (RefCount r - 1) 0); [done|].
  intros [= <-]. pose proof (length_removeString _ _ Hnd Hv) as Hl. split.
  - split_and!; cbn; [done|lia|by apply NoDup_filter|]. intros H0. rewrite H0 in Hl. simpl in Hl. lia.
  - cbn. unfold removeString. by rewrite list_elem_of_filter; intros [? _].
Qed.

Section NoLock.
Context (SaveToS3 : RefCountManager -> run) (deleteErr : string -> option error) (now : Z).
(** The save returns without an error and leaves the table alone. *)
Context (Hsave : forall m, exists m', SaveToS3 m = Returned m' None /\ locked m' = locked m /\
                           refCountMap m' = refCountMap m /\ removed m' = removed m).

Lemma RemoveReference_run crc32 v m r :
  locked m = false -> refCountMap m !! crc32 = Some r ->
  exists m', RemoveReference SaveToS3 deleteErr now crc32 v m = Returned m' None /\ locked m' = false /\
    refCountMap m' = match drop_version now v r with
                     | Some r' => <[crc32 := r']> (refCountMap m)
                     | None => delete crc32 (refCountMap m)
                     end /\
    removed m' = removed m ++ (if RefCount r - 1 <=? 0
                               then match deleteErr (S3Path r) with None => [S3Path r] | Some _ => [] end else []).
Proof.
  intros Hl Hr. unfold RemoveReference, Lock. rewrite Hl. cbn [set_locked refCountMap]. rewrite Hr. cbn zeta.
  cbn [RefCount S3Path]. unfold drop_version. destruct (RefCount r - 1 <=? 0).
  - destruct (deleteErr (S3Path r));
      match goal with |- context [SaveToS3 ?x] => destruct (Hsave x) as (m' & -> & _ & Ht & Hrm) end;
      (eexists; split_and!; [reflexivity|done|cbn in *; exact Ht|cbn in *; rewrite Hrm, ?app_nil_r; done]).
  - match goal with |- context [SaveToS3 ?x] => destruct (Hsave x) as (m' & -> & _ & Ht & Hrm) end.
    eexists. split_and!; [reflexivity|done|cbn in *; exact Ht|cbn in *; by rewrite Hrm, app_nil_r].
Qed.

(** The table after a version is gone. *)
Definition without_version (v : string) (r : FileRefCount) : option FileRefCount :=
  if contains (Versions r) v then drop_version now v r else Some r.

Lemma remove_all_run files : forall v m,
  NoDup files -> locked m = false -> Forall (fun c => uses (refCountMap m) v c = true) files ->
  exists m', remove_all SaveToS3 deleteErr now files v m 0 = Returned m' None /\ locked m' = false /\
    forall c, refCountMap m' !! c = if bool_decide (c ∈ files) then refCountMap m !! c ≫= drop_version now v else refCountMap m !! c.
Proof.
  induction files as [|c files IH]; intros v m Hnd Hl Huse; cbn [remove_all]; [by exists m|].
  apply NoDup_cons in Hnd as [Hc Hnd]. apply Forall_cons in Huse as [Hu Huse].
  unfold uses in Hu. destruct (refCountMap m !! c) as [r|] eqn:Hr; [|done].
  destruct (RemoveReference_run c v m r Hl Hr) as (m1 & -> & Hl1 & Ht & _).
  assert (forall c', c' <> c -> refCountMap m1 !! c' = refCountMap m !! c') as Hother.
  { intros c' Hne. rewrite Ht. destruct (drop_version now v r); [by rewrite lookup_insert_ne|by rewrite lookup_delete_ne]. }
  destruct (IH v m1 Hnd Hl1) as (m' & -> & Hl' & Hlk).
  { rewrite Forall_forall in Huse |- *. intros c' Hc'. unfold uses. rewrite Hother by (by intros ->). by apply Huse. }
  exists m'. split_and!; [done..|]. intros c'. rewrite Hlk. destruct (decide (c' = c)) as [->|Hne].
  - rewrite bool_decide_false by done. rewrite bool_decide_true by (by left). rewrite Hr, Ht. simpl.
    destruct (drop_version now v r); [by rewrite lookup_insert_eq|by rewrite lookup_delete_eq].
  - rewrite Hother by done. destruct (bool_decide_reflect (c' ∈ files)) as [Hin|Hnin].
    + by rewrite bool_decide_true by (by right).
    + rewrite bool_decide_false; [done|]. by intros [->|?]%elem_of_cons.
Qed.

(** With a save that takes no lock, deleting a version removes it from every
    file that had it, drops the files that no other version uses and touches
    no other file, in whatever order the map is walked; counts keep matching
    versions, and so they do when a version references a new file. *)
Theorem RemoveVersionReferences_exact (order : list string) (v crc path : string) (fsize : Z) (m : RefCountManager) :
  wf m -> order ≡ₚ (map_to_list (refCountMap m)).*1 ->
  (exists m', RemoveVersionReferences SaveToS3 deleteErr now order v m = Returned m' None /\ wf m' /\
     (forall c, refCountMap m' !! c = refCountMap m !! c ≫= without_version v) /\
     map_Forall (fun _ r => v ∉ Versions r) (refCountMap m')) /\
  ((forall r, refCountMap m !! crc = Some r -> v ∉ Versions r) ->
   exists m', AddReference SaveToS3 now crc path v fsize m = Returned m' None /\ wf m').
Proof.
  intros [Hl Hwf] Horder. split.
  - unfold RemoveVersionReferences, Lock. rewrite Hl. cbn [set_locked refCountMap].
    replace (Unlock (set_locked true m)) with m by (destruct m; simpl in *; by subst).
    set (files := filter (fun c => uses (refCountMap m) v c = true) order).
    assert (forall c, c ∈ files <-> uses (refCountMap m) v c = true) as Hfiles.
    { intros c. unfold files. rewrite list_elem_of_filter, Horder. split; [tauto|]. intros Hu. split; [done|].
      unfold uses in Hu. destruct (refCountMap m !! c) as [r|] eqn:Hr; [|done]. apply list_elem_of_fmap.
      exists (c, r). split; [done|]. by apply elem_of_map_to_list. }
    destruct (remove_all_run files v m) as (m' & Hrun & Hl' & Hlk).
    { apply NoDup_filter. rewrite Horder. apply NoDup_fst_map_to_list. }
    { done. } { apply Forall_forall. intros c. apply Hfiles. }
    assert (forall c, refCountMap m' !! c = refCountMap m !! c ≫= without_version v) as Hspec.
    { intros c. rewrite Hlk. destruct (bool_decide_reflect (c ∈ files)) as [Hin|Hnin].
      - apply Hfiles in Hin. unfold uses in Hin. destruct (refCountMap m !! c) as [r|]; [|done]. simpl.
        unfold without_version. by rewrite Hin.
      - rewrite Hfiles in Hnin. unfold uses in Hnin. destruct (refCountMap m !! c) as [r|]; [|done]. simpl.
        unfold without_version. by destruct (contains (Versions r) v). }
    assert (forall c r', refCountMap m' !! c = Some r' -> wf_entry c r' /\ v ∉ Versions r') as Hall.
    { intros c r'. rewrite Hspec. destruct (refCountMap m !! c) as [r|] eqn:Hr; [|done]. simpl. unfold without_version.
      pose proof (Hwf c r Hr) as Hw. destruct (contains (Versions r) v) eqn:Hv.
      - apply contains_true in Hv. by apply drop_version_wf.
      - intros [= <-]. split; [done|]. by apply contains_false. }
    exists m'. split_and!; [done|split; [done|]|done|]; intros c r' Hc; by apply (Hall c r').
  - intros Hnew. unfold AddReference, Lock. rewrite Hl. cbn [set_locked refCountMap].
    match goal with |- context [SaveToS3 ?x] => destruct (Hsave x) as (m' & -> & Hl' & Ht & _) end.
    exists m'. split; [done|]. split; [by rewrite Hl'|]. rewrite Ht. cbn [refCountMap Unlock set_locked set_map].
    apply map_Forall_insert_2; [|done]. destruct (refCountMap m !! crc) as [r|] eqn:Hr.
    + destruct (Hwf crc r Hr) as (Hc & Hn & Hnd & Hne). specialize (Hnew r eq_refl).
      rewrite (proj2 (contains_false _ _) Hnew). split_and!; cbn; [done|rewrite length_app; simpl; lia| |by destruct (Versions r)].
      apply NoDup_app. split_and!; [done| |apply NoDup_singleton]. intros x Hx ->%list_elem_of_singleton. done.
    + split_and!; cbn; [done|done|apply NoDup_singleton|done].
Qed.
End NoLock.

Definition plain_save (m : RefCountManager) : run := Returned (set_metadata (refCountMap m) m) None.

Lemma plain_save_ok m : exists m', plain_save m = Returned m' None /\ locked m' = locked m /\
                             refCountMap m' = refCountMap m /\ removed m' = removed m.
Proof. by eexists. Qed.

Lemma one_file_wf : wf one_file.
Proof.
  split; [done|]. intros c r Hr. unfold one_file, set_map in Hr. cbn [refCountMap] in Hr.
  apply lookup_singleton_Some in Hr as [<- <-].
  split_and!; [done|done|apply NoDup_singleton|done].
Qed.

Lemma RemoveVersionReferences_exact_witness :
  exists m', RemoveVersionReferences plain_save (fun _ => None) 5 ["c"]%string "v" one_file = Returned m' None /\
             refCountMap m' !! "c"%string = None.
Proof.
  destruct (RemoveVersionReferences_exact plain_save (fun _ => None) 5 plain_save_ok ["c"]%string "v" "c" "p" 1 one_file)
    as [(m' & Hrun & _ & Hlk & _) _]; [exact one_file_wf| |].
  { unfold one_file, set_map. cbn [refCountMap]. by rewrite map_to_list_singleton. }
  exists m'. split; [exact Hrun|]. rewrite Hlk. reflexivity.
Defined.

(** One step of the walk over a single key. *)
Lemma walk_single save deleteErr now crc v m r :
  locked m = false -> refCountMap m !! crc = Some r ->
  RemoveVersionReferences save deleteErr now [crc] v m =
    if contains (Versions r) v then remove_all save deleteErr now [crc] v m 0 else Returned m None.
Proof.
  intros Hl Hr. unfold RemoveVersionReferences, Lock. rewrite Hl. cbn [set_locked refCountMap].
  replace (Unlock (set_locked true m)) with m by (destruct m; simpl in *; by subst).
  rewrite filter_cons. unfold uses. rewrite Hr. by destruct (contains (Versions r) v).
Qed.

Definition saved (t : gmap string FileRefCount) (m : RefCountManager) : RefCountManager := set_metadata t (set_map t m).

Lemma AddReference_plain now crc path v fsize m :
  locked m = false ->
  exists e, AddReference plain_save now crc path v fsize m = Returned (saved (<[crc := e]> (refCountMap m)) m) None /\
    match refCountMap m !! crc with
    | Some r => RefCount e = RefCount r + 1 /\ Versions e = if contains (Versions r) v then Versions r else Versions r ++ [v]
    | None => RefCount e = 1 /\ Versions e = [v]
    end.
Proof.
  intros Hl. unfold AddReference, Lock. rewrite Hl. cbn [set_locked refCountMap].
  destruct m as [l t md rm]. cbn [locked] in Hl. subst l. cbn [refCountMap].
  destruct (t !! crc) as [r|]; eexists; (split; [reflexivity|by split]).
Qed.

(** A version that references the same content twice raises the count but is
    recorded once: deleting the version leaves the file, with a count of one and
    no version, and no later deletion of a version can reach it. *)
Theorem double_reference_leaks (now : Z) (crc path v : string) (fsize : Z) :
  exists m1 m2 m3,
    AddReference plain_save now crc path v fsize empty_manager = Returned m1 None /\
    AddReference plain_save now crc path v fsize m1 = Returned m2 None /\
    RemoveVersionReferences plain_save (fun _ => None) now [crc] v m2 = Returned m3 None /\
    removed m3 = [] /\
    (exists r, refCountMap m3 !! crc = Some r /\ RefCount r = 1 /\ Versions r = []) /\
    forall v', RemoveVersionReferences plain_save (fun _ => None) now [crc] v' m3 = Returned m3 None.
Proof.
  destruct (AddReference_plain now crc path v fsize empty_manager eq_refl) as (e1 & H1 & He1).
  cbn [refCountMap empty_manager] in He1. rewrite lookup_empty in He1. destruct He1 as [Hc1 Hv1].
  set (m1 := saved _ empty_manager) in H1.
  destruct (AddReference_plain now crc path v fsize m1 eq_refl) as (e2 & H2 & He2).
  assert (refCountMap m1 !! crc = Some e1) as Hm1 by (apply lookup_insert_eq). rewrite Hm1, Hv1 in He2.
  destruct He2 as [Hc2 Hv2]. rewrite (proj2 (contains_true [v] v) ltac:(by left)) in Hv2.
  set (m2 := saved _ m1) in H2. assert (refCountMap m2 !! crc = Some e2) as Hm2 by (apply lookup_insert_eq).
  destruct (RemoveReference_run plain_save (fun _ => None) now plain_save_ok crc v m2 e2 eq_refl Hm2) as (m3 & H3 & Hl3 & Ht3 & Hr3).
  unfold drop_version in Ht3. rewrite Hc2, Hc1 in Ht3, Hr3. cbn [Z.add Z.sub Z.leb] in Ht3, Hr3.
  match type of Ht3 with _ = match ?o with _ => _ end => change o with
    (Some {| CRC32 := CRC32 e2; S3Path := S3Path e2; RefCount := 1; Size := Size e2; CreatedAt := CreatedAt e2;
             LastUpdatedAt := now; Versions := removeString (Versions e2) v |}) in Ht3 end.
  cbv iota beta in Ht3. rewrite Hv2 in Ht3.
  assert (removeString [v] v = []) as Hrem by (unfold removeString; rewrite filter_cons, decide_False; [done|tauto]).
  rewrite Hrem in Ht3. exists m1, m2, m3.
  assert (exists r, refCountMap m3 !! crc = Some r /\ RefCount r = 1 /\ Versions r = []) as (r3 & Hr3' & Hc3 & Hv3).
  { eexists. rewrite Ht3. split; [apply lookup_insert_eq|done]. }
  split_and!; [done|done| | |by exists r3|].
  - rewrite (walk_single _ _ _ _ _ m2 e2 eq_refl Hm2), Hv2, (proj2 (contains_true [v] v) ltac:(by left)).
    cbn [remove_all]. by rewrite H3.
  - rewrite Hr3. done.
  - intros v'. rewrite (walk_single _ _ _ _ _ _ r3 Hl3 Hr3'), Hv3. done.
Qed.
