(* ===== verification/SortOrder.v ===== *)
(** * Sort orders (internal/ps/engine/sortorder)

    The values documents are sorted by, their comparison, the lexicographic
    comparison of a list of sort keys, and the parser of the request's sort
    clause.  [c := a - b] on [int64] wraps; on [float64] its sign is that of the
    comparison (subtraction underflows gradually, and infinity minus itself is
    a NaN, neither positive nor negative). *)

From Stdlib Require Import SpecFloat.
From S2P Require Import Prelude.
From S2P Require Import Errors.
From S2P Require Import Floats.
Open Scope Z_scope.

(** ** Values *)

Inductive SortValue : Type :=
| InfinitySortValue (Negative : bool)
| StringSortValue (Val : string)
| IntSortValue (Val : Z)
| FloatSortValue (Val : float)
| GeoDistanceSortValue (Val : float)
| DateSortValue (Nano : Z).                 (** [Val.UnixNano()] *)

Definition sign_of (c : Z) : Z := if 0 <? c then 1 else if c <? 0 then -1 else 0.

(** The sign of [x - y]. *)
Definition float_cmp (x y : float) : Z := if fltb y x then 1 else if fltb x y then -1 else 0.

(** [float64(v)] of an [int64]: round to nearest, ties to even. *)
Definition float_of_int (v : Z) : float := binary_normalize 53 1024 v 0 false.

(** [strings.Compare] *)
Definition string_cmp (s t : string) : Z :=
  match String.compare s t with Lt => -1 | Eq => 0 | Gt => 1 end.

Definition Infinity_Compare (Negative : bool) (other : SortValue) : Z :=
  match other with
  | InfinitySortValue n => if Negative && negb n then -1 else if negb Negative && n then 1 else 0
  | _ => if Negative then -1 else 1
  end.

Definition Compare (sv other : SortValue) : Z :=
  match sv with
  | InfinitySortValue n => Infinity_Compare n other
  | StringSortValue a =>
    match other with
    | StringSortValue b => string_cmp a b
    | InfinitySortValue n => -1 * Infinity_Compare n sv
    | _ => 1
    end
  | IntSortValue a =>
    match other with
    | IntSortValue b => sign_of (i64 (a - b))
    | FloatSortValue b => float_cmp (float_of_int a) b
    | InfinitySortValue n => -1 * Infinity_Compare n sv
    | _ => -1
    end
  | FloatSortValue a =>
    match other with
    | FloatSortValue b => float_cmp a b
    | IntSortValue b => float_cmp a (float_of_int b)
    | InfinitySortValue n => -1 * Infinity_Compare n sv
    | _ => -1
    end
  | GeoDistanceSortValue a =>
    match other with
    | GeoDistanceSortValue b => float_cmp a b
    | InfinitySortValue n => -1 * Infinity_Compare n sv
    | _ => -1
    end
  | DateSortValue a =>
    match other with
    | DateSortValue b => sign_of (i64 (a - b))
    | _ => -1
    end
  end.

Definition Less (svs : list SortValue) (i j : nat) : go bool :=
  let! a := index_at svs (Z.of_nat i) in let! b := index_at svs (Z.of_nat j) in Ret (Compare a b <? 0).

(** ** Sorts *)

Inductive SortFieldMode : Set := SortFieldDefault | SortFieldMin | SortFieldMax.
Inductive SortFieldMissing : Set := SortFieldMissingLast | SortFieldMissingFirst.

Inductive Sort : Type :=
| SortScore (Desc : bool)
| SortField (Field : string) (Desc : bool) (Mode : SortFieldMode) (Missing : SortFieldMissing).

Definition ScoreField : string := "_score".
Definition IdField : string := "_id".

Definition GetSortOrder (s : Sort) : bool := match s with SortScore d => d | SortField _ d _ _ => d end.
Definition SortField_name (s : Sort) : string := match s with SortScore _ => ScoreField | SortField f _ _ _ => f end.

Definition Sort_Compare (s : Sort) (i j : SortValue) : Z :=
  let c := Compare i j in if GetSortOrder s then -1 * c else c.

(** [SortOrder.Compare]: the first sort that tells the documents apart. *)
Fixpoint SortOrder_Compare (so : list Sort) (a b : list SortValue) : go Z :=
  match so with
  | [] => Ret 0
  | s :: so' =>
    match a, b with
    | x :: a', y :: b' =>
      let c := Sort_Compare s x y in
      if c =? 0 then SortOrder_Compare so' a' b' else Ret c
    | _, _ => Panic IndexRange
    end
  end.

(** ** Parsing the sort clause *)

(** What [json.Unmarshal] builds; an object lists its keys in the order
    [MapKeys] returns them. *)
Inductive json : Type :=
| JNull
| JBool (b : bool)
| JNumber (f : float)
| JString (s : string)
| JArray (l : list json)
| JObject (kvs : list (string * json)).

Definition invalid_sort {A} : go A := Fail (OtherErr "invalid sort").

Record sort_opts : Type := { so_Desc : bool; so_Mode : SortFieldMode; so_Missing : SortFieldMissing }.

Definition sub_step (o : sort_opts) (kv : string * json) : go sort_opts :=
  let '(subKey, v) := kv in
  if subKey =?s "order" then
    match v with
    | JString order =>
      Ret {| so_Desc := if order =?s "desc" then true else if order =?s "asc" then false else so_Desc o;
             so_Mode := so_Mode o; so_Missing := so_Missing o |}
    | _ => invalid_sort
    end
  else if subKey =?s "mode" then
    match v with
    | JString mode =>
      Ret {| so_Desc := so_Desc o;
             so_Mode := if mode =?s "min" then SortFieldMin else if mode =?s "max" then SortFieldMax else so_Mode o;
             so_Missing := so_Missing o |}
    | _ => invalid_sort
    end
  else if subKey =?s "missing" then
    match v with
    | JString missing =>
      if missing =?s "_last" then Ret {| so_Desc := so_Desc o; so_Mode := so_Mode o; so_Missing := SortFieldMissingLast |}
      else if missing =?s "_first" then Ret {| so_Desc := so_Desc o; so_Mode := so_Mode o; so_Missing := SortFieldMissingFirst |}
      else invalid_sort
    | _ => invalid_sort
    end
  else Ret o.

(** The loop over the keys of a sort object; [reflect.Value.Type] panics on
    null. *)
Fixpoint parse_keys (kvs : list (string * json)) : go Sort :=
  match kvs with
  | [] => invalid_sort
  | (fieldName, sortVal) :: kvs' =>
    match sortVal with
    | JString v =>
      if v =?s "desc" then Ret (SortField fieldName true SortFieldDefault SortFieldMissingLast)
      else if v =?s "asc" then Ret (SortField fieldName false SortFieldDefault SortFieldMissingLast)
      else invalid_sort
    | JObject sub =>
      let! o := ofold sub_step {| so_Desc := false; so_Mode := SortFieldDefault; so_Missing := SortFieldMissingLast |} sub in
      Ret (SortField fieldName (so_Desc o) (so_Mode o) (so_Missing o))
    | JNull => Panic NilDeref
    | _ => parse_keys kvs'
    end
  end.

Definition parseSort (s : json) : go Sort :=
  match s with
  | JString v =>
    if v =?s ScoreField then Ret (SortScore true)
    else if v =?s IdField then Ret (SortField IdField false SortFieldDefault SortFieldMissingLast)
    else Ret (SortField v true SortFieldDefault SortFieldMissingLast)
  | JObject kvs => parse_keys kvs
  | JNull => Panic NilDeref
  | _ => Fail (OtherErr "invalid sort type ")
  end.

(** [ParseSort]: [None] for an empty clause, the decoded array otherwise. *)
Definition ParseSort (clause : option (list json)) : go (list Sort) :=
  match clause with
  | None => Ret [SortScore true]
  | Some arr => ofold (fun so v => let! s := parseSort v in Ret (so ++ [s])) [] arr
  end.

(** ** A comparison that sorting can rely on *)

(** Reversing the arguments flips the sign, and "not after" is transitive. *)
Class TotalCmp {A} (ok : A -> Prop) (cmp : A -> A -> Z) : Prop := {
  cmp_flip : forall x y, ok x -> ok y -> cmp y x = - cmp x y;
  cmp_trans : forall x y z, ok x -> ok y -> ok z -> cmp x y <= 0 -> cmp y z <= 0 -> cmp x z <= 0
}.

Lemma cmp_eq_l {A} ok cmp `{!TotalCmp ok cmp} (x y z : A) :
  ok x -> ok y -> ok z -> cmp x y = 0 -> (cmp x z <= 0 <-> cmp y z <= 0).
Proof.
  intros Hx Hy Hz He. pose proof (cmp_flip x y Hx Hy).
  split; intros; [apply (cmp_trans y x z)|apply (cmp_trans x y z)]; (done || lia).
Qed.

Lemma cmp_eq_r {A} ok cmp `{!TotalCmp ok cmp} (x y z : A) :
  ok x -> ok y -> ok z -> cmp y z = 0 -> (cmp x y <= 0 <-> cmp x z <= 0).
Proof.
  intros Hx Hy Hz He. pose proof (cmp_flip y z Hy Hz).
  split; intros; [apply (cmp_trans x y z)|apply (cmp_trans x z y)]; (done || lia).
Qed.

#[export] Instance sw_cmp {A} ok (lt : A -> A -> bool) :
  StrictWeak ok lt -> TotalCmp ok (fun x y => if lt y x then 1 else if lt x y then -1 else 0).
Proof.
  intros Hsw. split.
  - intros x y Hx Hy. destruct (lt x y) eqn:E1; [by rewrite (sw_asym ok lt x y)|]. by destruct (lt y x).
  - intros x y z Hx Hy Hz H1 H2.
    assert (lt y x = false) as E1 by (destruct (lt y x); [lia|done]).
    assert (lt z y = false) as E2 by (destruct (lt z y); [lia|done]).
    rewrite (sw_ntrans x y z) by done. destruct (lt x z); lia.
Qed.

#[export] Instance float_cmp_total : TotalCmp (fun x => is_nan x = false) float_cmp.
Proof. exact (sw_cmp _ _ fltb_sw). Qed.

(** [int64] subtraction is safe on half of the range. *)
Definition int_safe (v : Z) : Prop := - 2 ^ 62 <= v < 2 ^ 62.

#[export] Instance int_cmp_total : TotalCmp int_safe (fun a b => sign_of (i64 (a - b))).
Proof.
  assert (forall a b, int_safe a -> int_safe b -> i64 (a - b) = a - b) as Hw.
  { intros a b Ha Hb. apply wrap_s_id; [lia|]. unfold int_safe, in_s in *. lia. }
  split.
  - intros x y Hx Hy. rewrite !Hw by done. unfold sign_of.
    destruct (Z.ltb_spec 0 (y - x)), (Z.ltb_spec (y - x) 0), (Z.ltb_spec 0 (x - y)), (Z.ltb_spec (x - y) 0); lia.
  - intros x y z Hx Hy Hz. rewrite !Hw by done. unfold sign_of.
    destruct (Z.ltb_spec 0 (x - y)), (Z.ltb_spec (x - y) 0), (Z.ltb_spec 0 (y - z)), (Z.ltb_spec (y - z) 0),
      (Z.ltb_spec 0 (x - z)), (Z.ltb_spec (x - z) 0); lia.
Qed.

Lemma string_cmp_trans s : forall t u, string_cmp s t <= 0 -> string_cmp t u <= 0 -> string_cmp s u <= 0.
Proof.
  induction s as [|a s IH]; intros [|b t] [|c u]; unfold string_cmp; cbn [String.compare]; try lia.
  unfold Ascii.compare.
  destruct (N.compare_spec (N_of_ascii a) (N_of_ascii b)), (N.compare_spec (N_of_ascii b) (N_of_ascii c)),
    (N.compare_spec (N_of_ascii a) (N_of_ascii c)); try lia.
  apply IH.
Qed.

#[export] Instance string_cmp_total : TotalCmp (fun _ => True) string_cmp.
Proof.
  split; [|intros x y z _ _ _; apply string_cmp_trans].
  intros x y _ _. unfold string_cmp. rewrite String.compare_antisym. by destruct (String.compare x y).
Qed.

(** ** Columns *)

(** What a sort key yields for one field over all documents: values of one
    type, and (dates apart) the infinities that stand for missing values. *)
Inductive column : Set := CString | CInt | CFloat | CGeo | CDate.

Definition column_ok (k : column) (v : SortValue) : Prop :=
  match v, k with
  | InfinitySortValue _, CDate => False
  | InfinitySortValue _, _ => True
  | StringSortValue _, CString => True
  | IntSortValue z, CInt => int_safe z
  | FloatSortValue f, CFloat | GeoDistanceSortValue f, CGeo => is_nan f = false
  | DateSortValue z, CDate => int_safe z
  | _, _ => False
  end.

#[export] Instance Compare_total k : TotalCmp (column_ok k) Compare.
Proof.
  split.
  - intros x y Hx Hy. destruct x as [[]|s|a|f|f|d], y as [[]|s'|a'|f'|f'|d']; destruct k; cbn in Hx, Hy; try done; cbn [Compare Infinity_Compare].
    + by apply (cmp_flip (TotalCmp := string_cmp_total)).
    + by apply (cmp_flip (TotalCmp := int_cmp_total)).
    + by apply (cmp_flip (TotalCmp := float_cmp_total)).
    + by apply (cmp_flip (TotalCmp := float_cmp_total)).
    + by apply (cmp_flip (TotalCmp := int_cmp_total)).
  - intros x y z Hx Hy Hz. destruct x as [[]|s|a|f|f|d], y as [[]|s'|a'|f'|f'|d'], z as [[]|s''|a''|f''|f''|d''];
      destruct k; cbn in Hx, Hy, Hz; try done; cbn [Compare Infinity_Compare]; try lia.
    + by apply (cmp_trans (TotalCmp := string_cmp_total)).
    + by apply (cmp_trans (TotalCmp := int_cmp_total)).
    + by apply (cmp_trans (TotalCmp := float_cmp_total)).
    + by apply (cmp_trans (TotalCmp := float_cmp_total)).
    + by apply (cmp_trans (TotalCmp := int_cmp_total)).
Qed.

#[export] Instance Sort_Compare_total s k : TotalCmp (column_ok k) (Sort_Compare s).
Proof.
  unfold Sort_Compare. destruct (GetSortOrder s); [|exact (Compare_total k)]. split.
  - intros x y Hx Hy. rewrite (cmp_flip (TotalCmp := Compare_total k) x y Hx Hy). lia.
  - intros x y z Hx Hy Hz H1 H2.
    pose proof (cmp_flip (TotalCmp := Compare_total k) x y Hx Hy). pose proof (cmp_flip (TotalCmp := Compare_total k) y z Hy Hz). pose proof (cmp_flip (TotalCmp := Compare_total k) x z Hx Hz).
    assert (Compare z x <= 0) by (apply (cmp_trans (TotalCmp := Compare_total k) z y x); (done || lia)). lia.
Qed.

(** The rows of documents that a sort order compares. *)
Definition row_ok (ks : list column) (row : list SortValue) : Prop := Forall2 column_ok ks row.

(** The comparison as a number, when every key has a value. *)
Fixpoint lex (so : list Sort) (a b : list SortValue) : Z :=
  match so, a, b with
  | s :: so', x :: a', y :: b' => if Sort_Compare s x y =? 0 then lex so' a' b' else Sort_Compare s x y
  | _, _, _ => 0
  end.

Lemma SortOrder_Compare_lex so : forall a b,
  (length so <= length a)%nat -> (length so <= length b)%nat -> SortOrder_Compare so a b = Ret (lex so a b).
Proof.
  induction so as [|s so IH]; intros a b Ha Hb; [done|].
  destruct a as [|x a], b as [|y b]; simpl in Ha, Hb; try lia. cbn [SortOrder_Compare lex].
  destruct (Sort_Compare s x y =? 0); [apply IH; lia|done].
Qed.

#[export] Instance lex_total so ks : TotalCmp (row_ok ks) (lex so).
Proof.
  revert ks. induction so as [|s so IH]; intros ks; [split; simpl; intros; lia|].
  split.
  - intros a b Ha Hb. destruct Ha as [|k x ks a Hx Ha]; inversion Hb as [|? y ? b' Hy Hb']; subst; [done|].
    cbn [lex]. rewrite (cmp_flip (TotalCmp := Sort_Compare_total s k) x y Hx Hy). pose proof (cmp_flip (TotalCmp := IH ks) a b' Ha Hb') as Hf.
    destruct (Z.eqb_spec (Sort_Compare s x y) 0) as [He|Hne], (Z.eqb_spec (- Sort_Compare s x y) 0); lia.
  - intros a b c Ha Hb Hc. destruct Ha as [|k x ks a Hx Ha]; inversion Hb as [|? y ? b' Hy Hb']; subst;
      inversion Hc as [|? z ? c' Hz Hc']; subst; [done|].
    cbn [lex]. intros H1 H2.
    pose proof (cmp_trans (TotalCmp := IH ks) a b' c' Ha Hb' Hc') as Ht.
    pose proof (cmp_trans (TotalCmp := Sort_Compare_total s k) x y z Hx Hy Hz) as Hxyz.
    pose proof (cmp_eq_l (column_ok k) (Sort_Compare s) x y z Hx Hy Hz) as Hl.
    pose proof (cmp_eq_r (column_ok k) (Sort_Compare s) x y z Hx Hy Hz) as Hr.
    pose proof (cmp_eq_l (column_ok k) (Sort_Compare s) z x y Hz Hx Hy) as Hl'.
    pose proof (cmp_flip (TotalCmp := Sort_Compare_total s k) x y Hx Hy).
    pose proof (cmp_flip (TotalCmp := Sort_Compare_total s k) y z Hy Hz).
    pose proof (cmp_flip (TotalCmp := Sort_Compare_total s k) x z Hx Hz).
    destruct (Z.eqb_spec (Sort_Compare s x y) 0), (Z.eqb_spec (Sort_Compare s y z) 0), (Z.eqb_spec (Sort_Compare s x z) 0); try lia.
    all: try (apply Ht; lia).
    all: pose proof (cmp_trans (TotalCmp := Sort_Compare_total s k) z x y Hz Hx Hy); 
         pose proof (cmp_trans (TotalCmp := Sort_Compare_total s k) y z x Hy Hz Hx); lia.
Qed.

(** Sorting by several keys, ascending or descending: on documents whose values
    for each key have one type, hold no NaN and stay in half of the [int64]
    range (with infinities for missing values, dates apart), the comparison
    always returns, is antisymmetric and transitive, so sorting with it is
    well defined. *)
Theorem SortOrder_total_preorder (so : list Sort) (ks : list column) (a b c : list SortValue) :
  length so = length ks -> row_ok ks a -> row_ok ks b -> row_ok ks c ->
  exists ab bc ac,
    SortOrder_Compare so a b = Ret ab /\ SortOrder_Compare so b c = Ret bc /\ SortOrder_Compare so a c = Ret ac /\
    SortOrder_Compare so b a = Ret (- ab) /\ (ab <= 0 -> bc <= 0 -> ac <= 0).
Proof.
  intros Hlen Ha Hb Hc. pose proof (Forall2_length _ _ _ Ha). pose proof (Forall2_length _ _ _ Hb). pose proof (Forall2_length _ _ _ Hc).
  exists (lex so a b), (lex so b c), (lex so a c). rewrite !SortOrder_Compare_lex by lia. split_and!; [done..| |].
  - f_equal. by apply (cmp_flip (TotalCmp := lex_total so ks)).
  - by apply (cmp_trans (TotalCmp := lex_total so ks)).
Qed.

Lemma SortOrder_total_preorder_witness :
  exists ab, SortOrder_Compare [SortField "age" true SortFieldDefault SortFieldMissingLast; SortScore false]
               [IntSortValue 5; FloatSortValue (S754_zero false)] [IntSortValue 7; FloatSortValue (S754_zero false)] = Ret ab /\ ab = 1.
Proof.
  destruct (SortOrder_total_preorder [SortField "age" true SortFieldDefault SortFieldMissingLast; SortScore false] [CInt; CFloat]
    [IntSortValue 5; FloatSortValue (S754_zero false)] [IntSortValue 7; FloatSortValue (S754_zero false)]
    [InfinitySortValue true; InfinitySortValue true]) as (ab & _ & _ & Hab & _).
  - reflexivity.
  - repeat constructor; simpl; unfold int_safe; lia.
  - repeat constructor; simpl; unfold int_safe; lia.
  - repeat constructor.
  - exists ab. split; [exact Hab|]. vm_compute in Hab. by injection Hab as <-.
Defined.

(** Outside these conditions the comparison lies: two integers (or dates)
    further apart than the [int64] range are ordered the wrong way round, and a
    date and an infinity are each before the other. *)
Theorem Compare_inconsistent (a b nano : Z) :
  in_s 64 a -> in_s 64 b -> 2 ^ 63 <= a - b ->
  b < a /\ Compare (IntSortValue a) (IntSortValue b) = -1 /\ Compare (IntSortValue b) (IntSortValue a) = (if a - b =? 2 ^ 63 then -1 else 1) /\
  Compare (DateSortValue nano) (InfinitySortValue true) = -1 /\ Compare (InfinitySortValue true) (DateSortValue nano) = -1.
Proof.
  intros Ha Hb Hd. unfold in_s in *. cbn [Compare Infinity_Compare].
  assert (i64 (a - b) = a - b - 2 ^ 64) as ->.
  { unfold i64, wrap_s. rewrite <- (Z.mod_unique _ _ 1 (a - b + 2 ^ (64 - 1) - 2 ^ 64)); [lia|left; lia|lia]. }
  assert (i64 (b - a) = if a - b =? 2 ^ 63 then - 2 ^ 63 else b - a + 2 ^ 64) as ->.
  { unfold i64, wrap_s. destruct (Z.eqb_spec (a - b) (2 ^ 63)) as [He|Hne].
    - replace (b - a) with (- 2 ^ 63) by lia. reflexivity.
    - rewrite <- (Z.mod_unique _ _ (-1) (b - a + 2 ^ (64 - 1) + 2 ^ 64)); [lia|left; lia|lia]. }
  unfold sign_of. split_and!; try done; [lia| |].
  - destruct (Z.ltb_spec 0 (a - b - 2 ^ 64)), (Z.ltb_spec (a - b - 2 ^ 64) 0); lia.
  - destruct (Z.eqb_spec (a - b) (2 ^ 63)); [done|].
    destruct (Z.ltb_spec 0 (b - a + 2 ^ 64)); lia.
Qed.

Lemma Compare_inconsistent_witness :
  Compare (IntSortValue 9223372036854775807) (IntSortValue (-5)) = -1.
Proof.
  apply (Compare_inconsistent 9223372036854775807 (-5) 0); unfold in_s; lia.
Defined.
