(* ===== verification/Mapping.v ===== *)
(** * The index mapping of a space (internal/ps/engine/mapping)

    The partition servers read the schema of a space with a decoder of their own:
    [ParseSchema] turns it into a tree of documents, [SchemaMap] and the field cache of
    [Space2Mapping] flatten the tree into paths.  The master reads the same schema
    with [UnmarshalPropertyJSON] (Schema.v); the theorems compare the two. *)

From S2P Require Import Prelude.
From S2P Require Import Text.
From S2P Require Import Errors.
From S2P Require Import Names.
From S2P Require Import Schema.
From S2P Require Import SortOrder.
Open Scope Z_scope.

(** ** Fields *)

(** The struct a field is decoded into. *)
Record field_tmp : Set := {
  T_Name : option string; T_Type : string; T_Index : option Index; T_Format : option string;
  T_Dimension : Z; T_StoreType : option string; T_StoreParam : string
}.

(** [FieldMapping] with the field mapping of its type; [FM_Dimension], [FM_StoreType]
    and [FM_StoreParam] are those of [VectortFieldMapping], [FM_Format] belongs to
    vectors and dates. *)
Record FieldMapping : Set := {
  FM_Name : string; FM_Type : FieldType; FM_Option : FieldOption; FM_Dimension : Z; FM_Format : option string;
  FM_StoreType : string; FM_StoreParam : string
}.

(** The cases of [switch tmp.Type] but "vector". *)
Definition mapping_type (typ : string) : option FieldType :=
  if contains ["text"; "keyword"; "string"]%string typ then Some FT_STRING
  else if contains ["stringArray"; "StringArray"; "string_array"]%string typ then Some FT_STRINGARRAY
  else if typ =?s "date" then Some FT_DATE
  else if contains ["integer"; "int"]%string typ then Some FT_INT
  else if typ =?s "long" then Some FT_LONG
  else if typ =?s "float" then Some FT_FLOAT
  else if typ =?s "double" then Some FT_DOUBLE
  else if contains ["boolean"; "bool"]%string typ then Some FT_BOOL
  else None.

Definition mapping_option (ix : option Index) : go FieldOption :=
  match ix with
  | None => Ret FO_Null
  | Some ix =>
    if Index_Type ix =?s BitmapIndexType then Ret FO_Bitmap
    else if Index_Type ix =?s CompositeIndexType then Ret FO_Composite
    else if Index_Type ix =?s InvertedIndexType then Ret FO_Inverted
    else if (Index_Type ix =?s "") || (Index_Type ix =?s ScalarIndexType) then Ret FO_Scalar
    else Fail (verr PARAM_ERROR "field:[%s] unsupported scalar index type:[%s]")
  end.

Definition FieldMapping_UnmarshalJSON (tmp : field_tmp) : go FieldMapping :=
  let name := default ""%string (T_Name tmp) in
  if T_Type tmp =?s "vector" then
    check! guard_err (T_Dimension tmp =? 0) (verr PARAM_ERROR "vector field embedding dimension can not zero: [%s] ") in
    let! storeType := match T_StoreType tmp with
      | Some s =>
        if s =?s "" then Ret ""%string
        else if negb (s =?s "RocksDB") && negb (s =?s "MemoryOnly")
        then Fail (verr PARAM_ERROR "vector field:[%s] not support this store type:[%s] it only RocksDB or MemoryOnly")
        else Ret s
      | None => Ret ""%string
      end in
    Ret {| FM_Name := name; FM_Type := FT_VECTOR; FM_Option := FO_Index; FM_Dimension := T_Dimension tmp; FM_Format := T_Format tmp;
           FM_StoreType := storeType; FM_StoreParam := T_StoreParam tmp |}
  else
    match mapping_type (T_Type tmp) with
    | None => Fail (verr PARAM_ERROR "space invalid field type: %s")
    | Some ft =>
      let! opt := mapping_option (T_Index tmp) in
      check! guard_err (negb (T_Dimension tmp =? 0)) (verr PARAM_ERROR "type:[%s] can not set dimension") in
      check! guard_err (bool_decide (is_Some (T_Format tmp)) && negb (bool_decide (ft = FT_DATE)))
        (verr PARAM_ERROR "type:[%s] can not set format") in
      Ret {| FM_Name := name; FM_Type := ft; FM_Option := opt; FM_Dimension := 0; FM_Format := T_Format tmp;
             FM_StoreType := ""; FM_StoreParam := "" |}
    end.

(** ** Documents *)

(** [Properties] as a list of pairs with distinct keys, in the order of the map
    iterations; a value can be a nil pointer. *)
Inductive DocumentMapping : Type :=
| Document (Properties : list (string * option DocumentMapping)) (Field : option FieldMapping).

Definition Doc_Field (d : DocumentMapping) : option FieldMapping := let 'Document _ f := d in f.
Definition Doc_Properties (d : DocumentMapping) : list (string * option DocumentMapping) := let 'Document ps _ := d in ps.

(** [m[k] = v] *)
Definition set_key {A} (k : string) (v : A) (l : list (string * A)) : list (string * A) :=
  (k, v) :: filter (fun e => e.1 <> k) l.

(** [dm.Properties[property] = sdm] *)
Definition addSubDocumentMapping (property : string) (sdm dm : DocumentMapping) : DocumentMapping :=
  Document (set_key property (Some sdm) (Doc_Properties dm)) (Doc_Field dm).

Section Parse.
(** [json.Unmarshal] at an array of raw messages and at the struct of a field. *)
Context (unmarshal_array : string -> go (list json)) (decode_field : json -> go field_tmp).

Definition field_document (data : json) : go DocumentMapping :=
  let! tmp := decode_field data in
  let! f := FieldMapping_UnmarshalJSON tmp in
  Ret (Document [] (Some f)).

(** [DocumentMapping.UnmarshalJSON]; null leaves the document empty. *)
Fixpoint Document_UnmarshalJSON (data : json) : go DocumentMapping :=
  match data with
  | JNull => Ret (Document [] None)
  | JObject kvs =>
    let sub := (fix sub (l : list (string * json)) : go (list (string * option DocumentMapping)) :=
      match l with
      | [] => Ret []
      | (k, v) :: l' =>
        let! dm := match v with JNull => Ret None | _ => let! d := Document_UnmarshalJSON v in Ret (Some d) end in
        let! rest := sub l' in Ret (if existsb (fun e => e.1 =?s k) rest then rest else (k, dm) :: rest)
      end) in
    let properties := (fix properties (l : list (string * json)) : option (go (list (string * option DocumentMapping))) :=
      match l with
      | [] => None
      | (k, v) :: l' =>
        match properties l' with
        | Some x => Some x
        | None => if k =?s "properties" then Some (match v with
                                                   | JNull => Ret []
                                                   | JObject l => sub l
                                                   | _ => Fail (OtherErr "json: cannot unmarshal")
                                                   end) else None
        end
      end) in
    match properties kvs with
    | Some ps =>
      if forallb (fun kv => kv.1 =?s "properties") kvs then let! ps := ps in Ret (Document ps None)
      else Fail (verr PARAM_ERROR "unsupport properties type [%s]:[%s]")
    | None => field_document data
    end
  | _ => Fail (OtherErr "json: cannot unmarshal")
  end.

Definition parse_step (dms : DocumentMapping) (data : json) : go DocumentMapping :=
  let! dm := Document_UnmarshalJSON data in
  match Doc_Field dm with
  | None => Panic NilDeref                        (** [dm.Field.Name] *)
  | Some f => Ret (addSubDocumentMapping (FM_Name f) dm dms)
  end.

Definition ParseSchema (schema : string) : go DocumentMapping :=
  let! tmp := unmarshal_array schema in
  ofold parse_step (Document [] None) tmp.

(** [parseMapping] with [parseMappingProperties] inlined. *)
Fixpoint parseMapping (prefix : string) (result : gmap string FieldMapping) (dm : DocumentMapping) : go (gmap string FieldMapping) :=
  match dm with
  | Document _ (Some f) => Ret (<[prefix := f]> result)
  | Document ps None =>
    (fix loop (ps : list (string * option DocumentMapping)) (result : gmap string FieldMapping) : go (gmap string FieldMapping) :=
      match ps with
      | [] => Ret result
      | (name, None) :: _ => Panic NilDeref
      | (name, Some dm') :: ps' =>
        let! result' := parseMapping (if prefix =?s "" then name else prefix +:+ "." +:+ name) result dm' in loop ps' result'
      end) ps result
  end.

Definition SchemaMap (schema : string) : go (gmap string FieldMapping) :=
  let! dm := ParseSchema schema in
  parseMapping "" ∅ (Document (Doc_Properties dm) None).

(** ** IndexMapping *)

Definition pathSeparator : string := ".".

Fixpoint initFieldCache (path : string) (temp : gmap string DocumentMapping) (dm : DocumentMapping) : go (gmap string DocumentMapping) :=
  let path' := if path =?s "" then path else path +:+ pathSeparator in
  match dm with
  | Document ps _ =>
    (fix loop (ps : list (string * option DocumentMapping)) (temp : gmap string DocumentMapping) : go (gmap string DocumentMapping) :=
      match ps with
      | [] => Ret temp
      | (name, None) :: _ => Panic NilDeref
      | (name, Some dm') :: ps' =>
        let! temp' := initFieldCache (path' +:+ name) (<[path' +:+ name := dm']> temp) dm' in loop ps' temp'
      end) ps temp
  end.

Record IndexMapping : Type := { IM_DocumentMapping : DocumentMapping; IM_fieldCacher : gmap string DocumentMapping }.

Definition Space2Mapping (fields : string) : go IndexMapping :=
  let! docMapping := ParseSchema fields in
  let! cache := initFieldCache "" ∅ docMapping in
  Ret {| IM_DocumentMapping := docMapping; IM_fieldCacher := cache |}.

Definition GetField (im : IndexMapping) (path : string) : option FieldMapping := IM_fieldCacher im !! path ≫= Doc_Field.

Definition GetFieldsType (im : IndexMapping) : go (gmap string FieldType) :=
  ofold (fun result e => match Doc_Field e.2 with
                         | None => Panic NilDeref
                         | Some f => Ret (<[e.1 := FM_Type f]> result)
                         end) ∅ (map_to_list (IM_fieldCacher im)).
End Parse.

(** ** A field in the two decoders *)

(** The two structs were decoded from the same text. *)
Definition same_field (tmp : field_tmp) (f : Field) : Prop :=
  default ""%string (T_Name tmp) = F_Name f /\ T_Type tmp = F_Type f /\ T_Index tmp = F_Index f /\ T_Format tmp = F_Format f /\
  T_Dimension tmp = F_Dimension f /\ T_StoreType tmp = F_StoreType f.

(** What the partition servers ask for beyond the master. *)
Definition servable (f : Field) : Prop :=
  F_Type f ∉ ["short"; "byte"]%string /\
  (F_Type f <> "vector"%string -> F_Dimension f = 0 /\ (is_Some (F_Format f) -> F_Type f = "date"%string)).

(** The same type, dimension and index; a vector always counts as indexed. *)
Definition agree (fm : FieldMapping) (sp : SpaceProperties) : Prop :=
  FM_Type fm = SP_FieldType sp /\ FM_Dimension fm = SP_Dimension sp /\
  FM_Option fm = (if bool_decide (SP_FieldType sp = FT_VECTOR) then FO_Index else SP_Option sp).

Definition scalar_type_names : list string :=
  ["text"; "keyword"; "string"; "date"; "integer"; "short"; "byte"; "long"; "float"; "double"; "boolean"; "bool";
   "stringArray"; "StringArray"; "string_array"]%string.

Lemma scalar_field_type_names ty ft : scalar_field_type ty = Some ft -> ty ∈ scalar_type_names.
Proof.
  unfold scalar_field_type, scalar_type_names. intros H.
  repeat match type of H with context[if ?b then _ else _] => destruct b eqn:? end; try done;
    match goal with
    | E : contains _ _ = true |- _ => apply contains_true in E
    | E : (_ =?s _) = true |- _ => apply string_eqb_eq in E
    end; set_solver.
Qed.

Lemma mapping_type_agrees ty ft : scalar_field_type ty = Some ft ->
  mapping_type ty = if contains ["short"; "byte"]%string ty then None else Some ft.
Proof.
  intros H. pose proof (scalar_field_type_names ty ft H) as Hin. unfold scalar_type_names in Hin.
  repeat (apply elem_of_cons in Hin as [->|Hin]; [revert H; vm_compute; by intros [= <-]|]). by apply elem_of_nil in Hin.
Qed.

Lemma mapping_option_agrees ix opt : index_option false ix = Ret opt -> mapping_option ix = Ret opt.
Proof.
  unfold index_option, mapping_option. destruct ix as [ix|]; [|done]. destruct (IsScalarIndexType (Index_Type ix)) eqn:E; [|done].
  cbn [negb]. intros [= <-]. apply contains_true in E.
  repeat (apply elem_of_cons in E as [->|E]; [reflexivity|]). by apply elem_of_nil in E.
Qed.

Lemma date_type ty : scalar_field_type ty = Some FT_DATE -> ty = "date"%string.
Proof.
  intros H. pose proof (scalar_field_type_names ty _ H) as Hin. unfold scalar_type_names in Hin.
  repeat (apply elem_of_cons in Hin as [->|Hin]; [by vm_compute in H|]). by apply elem_of_nil in Hin.
Qed.

Lemma field_decoders tmp f st st' sp : same_field tmp f -> property_step st f = Ret st' -> ps_pro st' !! F_Name f = Some sp ->
  (servable f -> exists fm, FieldMapping_UnmarshalJSON tmp = Ret fm) /\
  (forall fm, FieldMapping_UnmarshalJSON tmp = Ret fm -> servable f /\ agree fm sp /\ FM_Name fm = F_Name f).
Proof.
  intros (Hname & Hty & Hix & Hfmt & Hdim & Hst) H Hsp. unfold property_step in H. inv_ret. subst st'. cbn [ps_pro] in Hsp.
  rewrite lookup_insert_eq in Hsp. injection Hsp as <-. unfold FieldMapping_UnmarshalJSON, servable, agree.
  rewrite Hty, Hix, Hfmt, Hdim, Hst, Hname. cbn [SP_FieldType SP_Dimension SP_Option]. destruct (F_Type f =?s "vector") eqn:Ev.
  - apply string_eqb_eq in Ev. inv_ret. subst. destruct (check_vector f) as [[]| |] eqn:Ec; [|done..]. unfold check_vector in Ec. inv_ret.
    repeat match goal with H : guard_err _ _ = Ret _ |- _ => apply guard_err_ret in H end.
    match goal with H : (F_Dimension f =? 0) = false |- _ => rewrite H end. cbn [obind guard_err].
    assert (exists s, match F_StoreType f with
      | Some s => if s =?s "" then Ret ""%string
                  else if negb (s =?s "RocksDB") && negb (s =?s "MemoryOnly")
                  then Fail (verr PARAM_ERROR "vector field:[%s] not support this store type:[%s] it only RocksDB or MemoryOnly") else Ret s
      | None => Ret ""%string end = Ret s) as [s ->].
    { destruct (F_StoreType f) as [s|]; [|by eexists]. destruct (s =?s ""); [by eexists|]. cbn [negb andb] in *.
      destruct (negb (s =?s "RocksDB") && negb (s =?s "MemoryOnly")); [done|by eexists]. }
    cbn [obind]. rewrite Ev. split; [by eexists|]. intros fm [= <-]. cbn [FM_Type FM_Dimension FM_Option FM_Name].
    by split_and!; [set_solver| |..].
  - apply string_eqb_neq in Ev. destruct (scalar_field_type (F_Type f)) as [ft|] eqn:Es; [|done]. inv_ret. subst.
    rewrite (mapping_type_agrees _ _ Es), (mapping_option_agrees _ _ Hm5). pose proof (scalar_field_type_not_vector _ _ Es) as [Hnv _].
    destruct (contains ["short"; "byte"]%string (F_Type f)) eqn:Eb.
    { apply contains_true in Eb. split; [by intros [? _]|done]. }
    apply contains_false in Eb. cbn [obind]. rewrite (bool_decide_false (a4 = FT_VECTOR)) by done. split.
    + intros [_ Hs]. destruct (Hs Ev) as [-> Hf]. cbn [Z.eqb negb guard_err obind].
      destruct (F_Format f); cbn [is_Some]. 2: by eexists.
      rewrite (Hf ltac:(by eexists)) in Es. injection Es as <-. by eexists.
    + intros fm Hfm. inv_ret. repeat match goal with H : guard_err _ _ = Ret _ |- _ => apply guard_err_ret in H end. subst fm.
      cbn [FM_Type FM_Dimension FM_Option FM_Name]. split; [|done]. split; [done|]. intros _.
      match goal with H : negb (F_Dimension f =? 0) = false |- _ => apply negb_false_iff, Z.eqb_eq in H; split; [done|] end.
      intros Hf. match goal with H : bool_decide _ && negb (bool_decide (_ = FT_DATE)) = false |- _ =>
        rewrite bool_decide_true in H by done; apply negb_false_iff, bool_decide_eq_true in H end. subst. by apply date_type.
Qed.

(** ** Schemas *)

Definition entry (f : FieldMapping) : string * option DocumentMapping := (FM_Name f, Some (Document [] (Some f))).
Definition collect (fs : list FieldMapping) (f : FieldMapping) : list FieldMapping := f :: filter (fun g => FM_Name g <> FM_Name f) fs.
Definition map_of (fs : list FieldMapping) : gmap string FieldMapping := list_to_map ((fun f => (FM_Name f, f)) <$> fs).

Lemma filter_entries n (fs : list FieldMapping) : filter (fun e => e.1 <> n) (entry <$> fs) = entry <$> filter (fun g => FM_Name g <> n) fs.
Proof. induction fs as [|f fs IH]; [done|]. rewrite fmap_cons, !filter_cons. cbn [entry fst]. case_decide; [by rewrite IH|done]. Qed.

Lemma collect_entries fs f : set_key (FM_Name f) (Some (Document [] (Some f))) (entry <$> fs) = entry <$> collect fs f.
Proof. unfold set_key, collect. by rewrite filter_entries. Qed.

Lemma map_of_filter n (fs : list FieldMapping) : map_of (filter (fun g => FM_Name g <> n) fs) = delete n (map_of fs).
Proof.
  induction fs as [|f fs IH]; [symmetry; apply delete_empty|]. rewrite filter_cons. unfold map_of in *. case_decide as Hn.
  - cbn. rewrite IH. by rewrite delete_insert_ne.
  - cbn. rewrite IH. subst n. by rewrite delete_insert_eq.
Qed.

Lemma map_of_collect fs f : map_of (collect fs f) = <[FM_Name f := f]> (map_of fs).
Proof. unfold collect. change (<[FM_Name f := f]> (map_of (filter (fun g => FM_Name g <> FM_Name f) fs)) = <[FM_Name f := f]> (map_of fs)). by rewrite map_of_filter, insert_delete_eq. Qed.

Lemma collect_NoDup fs f : NoDup (FM_Name <$> fs) -> NoDup (FM_Name <$> collect fs f).
Proof.
  intros H. cbn. constructor.
  - intros (g & Hg & [Hne _]%list_elem_of_filter)%list_elem_of_fmap. congruence.
  - eapply sublist_NoDup; [exact H|]. apply fmap_sublist, sublist_filter.
Qed.

Section Schemas.
Context (unmarshal_array : string -> go (list json)) (decode_field : json -> go field_tmp).

Lemma document_field data d f : Document_UnmarshalJSON decode_field data = Ret d -> Doc_Field d = Some f ->
  d = Document [] (Some f) /\ exists tmp, decode_field data = Ret tmp /\ FieldMapping_UnmarshalJSON tmp = Ret f.
Proof.
  destruct data as [| | | | |kvs]; cbn [Document_UnmarshalJSON]; try done; [by intros [= <-]|].
  match goal with |- context[match ?p kvs with _ => _ end] => destruct (p kvs) as [ps|] end.
  - destruct (forallb _ kvs); [|done]. intros H Hf. inv_ret. by subst d.
  - unfold field_document. intros H Hf. inv_ret. subst d. injection Hf as ->. eauto.
Qed.

(** A field of the usual form: an object without a member "properties". *)
Definition plain (data : json) : Prop := exists kvs, data = JObject kvs /\ Forall (fun kv => kv.1 <> "properties"%string) kvs.

Lemma plain_document data : plain data -> Document_UnmarshalJSON decode_field data = field_document decode_field data.
Proof.
  intros (kvs & -> & Hk). cbn [Document_UnmarshalJSON].
  match goal with |- context[match ?p kvs with _ => _ end] => assert (p kvs = None) as ->; [|done] end.
  induction Hk as [|[k v] kvs Hk _ IH]; [done|]. rewrite IH. cbn [fst] in Hk. by apply string_eqb_neq in Hk as ->.
Qed.

(** A schema that parses is a list of fields, the last of each name counting. *)
Lemma parse_flat docs dms : ofold (parse_step decode_field) (Document [] None) docs = Ret dms ->
  exists fs, dms = Document (entry <$> foldl collect [] fs) None /\
    Forall2 (fun d f => exists tmp, decode_field d = Ret tmp /\ FieldMapping_UnmarshalJSON tmp = Ret f) docs fs.
Proof.
  apply (ofold_inv _ (fun docs dms => exists fs, dms = Document (entry <$> foldl collect [] fs) None /\
    Forall2 (fun d f => exists tmp, decode_field d = Ret tmp /\ FieldMapping_UnmarshalJSON tmp = Ret f) docs fs)).
  { by exists []. }
  intros done_ d acc acc' (fs & -> & Hall) H. unfold parse_step in H. inv_ret. destruct (Doc_Field a) as [f|] eqn:Ef; [|discriminate H].
  destruct (document_field _ _ _ Hm Ef) as [-> Htmp]. injection H as <-. exists (fs ++ [f]). rewrite foldl_snoc. split.
  - unfold addSubDocumentMapping. cbn [Doc_Properties Doc_Field]. by rewrite collect_entries.
  - apply Forall2_app; [done|]. by constructor.
Qed.

Lemma foldl_collect_NoDup (fs : list FieldMapping) : NoDup (FM_Name <$> foldl collect [] fs).
Proof. induction fs as [|f fs IH] using rev_ind; [constructor|]. rewrite foldl_snoc. by apply collect_NoDup. Qed.

Lemma foldl_collect_map fs : map_of (foldl collect [] fs) = foldl (fun m f => <[FM_Name f := f]> m) ∅ fs.
Proof. induction fs as [|f fs IH] using rev_ind; [done|]. by rewrite !foldl_snoc, map_of_collect, IH. Qed.

Definition put_field (m : gmap string FieldMapping) (f : FieldMapping) : gmap string FieldMapping := <[FM_Name f := f]> m.

Lemma foldl_put_map fs : NoDup (FM_Name <$> fs) -> foldl put_field ∅ fs = map_of fs.
Proof.
  intros Hnd. transitivity (map_of (reverse fs)).
  - clear Hnd. induction fs as [|f fs IH] using rev_ind; [done|]. rewrite foldl_snoc, IH, reverse_snoc. done.
  - unfold map_of. apply list_to_map_proper; [|by rewrite reverse_Permutation].
    rewrite <- list_fmap_compose. cbn. by rewrite reverse_Permutation.
Qed.

Lemma parseMapping_entries fs : parseMapping "" ∅ (Document (entry <$> fs) None) = Ret (foldl put_field ∅ fs).
Proof. cbn [parseMapping]. generalize (∅ : gmap string FieldMapping). induction fs as [|f fs IH]; intros m; [done|]. cbn. apply IH. Qed.

Definition put_document (m : gmap string DocumentMapping) (f : FieldMapping) : gmap string DocumentMapping :=
  <[FM_Name f := Document [] (Some f)]> m.

Lemma initFieldCache_entries fs : initFieldCache "" ∅ (Document (entry <$> fs) None) = Ret (foldl put_document ∅ fs).
Proof.
  cbn [initFieldCache]. change (("" : string) =?s "") with true. cbn [andb]. generalize (∅ : gmap string DocumentMapping).
  induction fs as [|f fs IH]; intros m; [done|]. cbn. apply IH.
Qed.

Lemma put_document_lookup fs : forall m m' n, m' !! n ≫= Doc_Field = m !! n ->
  foldl put_document m' fs !! n ≫= Doc_Field = foldl put_field m fs !! n.
Proof.
  induction fs as [|f fs IH]; intros m m' n H; [done|]. cbn [foldl]. apply IH. unfold put_document, put_field.
  destruct (decide (FM_Name f = n)) as [<-|Hne]; [by rewrite !lookup_insert_eq|by rewrite !lookup_insert_ne].
Qed.

Lemma SchemaMap_ret schema docs m : unmarshal_array schema = Ret docs -> SchemaMap unmarshal_array decode_field schema = Ret m ->
  exists fs, Forall2 (fun d f => exists tmp, decode_field d = Ret tmp /\ FieldMapping_UnmarshalJSON tmp = Ret f) docs fs /\
    m = foldl put_field ∅ fs /\
    exists im, Space2Mapping unmarshal_array decode_field schema = Ret im /\ forall n, GetField im n = m !! n.
Proof.
  intros Hd H. unfold SchemaMap, Space2Mapping, ParseSchema in *. rewrite Hd in *. cbn [obind] in *. inv_ret.
  apply parse_flat in Hm as Hp. destruct Hp as (fs & -> & Hall). rewrite Hm. cbn [obind Doc_Properties] in *.
  rewrite parseMapping_entries, foldl_put_map in H by apply foldl_collect_NoDup. injection H as <-. exists fs.
  split; [done|]. split; [by rewrite foldl_collect_map|]. rewrite initFieldCache_entries. eexists. split; [reflexivity|].
  intros n. unfold GetField. cbn [IM_fieldCacher]. rewrite (put_document_lookup _ ∅ ∅ n) by done.
  by rewrite foldl_put_map by apply foldl_collect_NoDup.
Qed.

Lemma SchemaMap_total schema docs : unmarshal_array schema = Ret docs ->
  Forall (fun d => plain d /\ exists tmp fm, decode_field d = Ret tmp /\ FieldMapping_UnmarshalJSON tmp = Ret fm) docs ->
  exists m, SchemaMap unmarshal_array decode_field schema = Ret m.
Proof.
  intros Hd Hall. unfold SchemaMap, ParseSchema. rewrite Hd. cbn [obind].
  destruct (ofold_total (parse_step decode_field) (fun _ _ => True) (Document [] None) docs) as (dms & Hdms & _); [done| |].
  - intros done_ d acc _ Hin. rewrite Forall_forall in Hall. destruct (Hall d Hin) as (Hp & tmp & fm & Ht & Hf).
    unfold parse_step. rewrite plain_document by done. unfold field_document. rewrite Ht. cbn [obind]. rewrite Hf. cbn. eauto.
  - rewrite Hdms. cbn [obind]. apply parse_flat in Hdms as (fs & -> & _). cbn [Doc_Properties]. rewrite parseMapping_entries. eauto.
Qed.
End Schemas.

(** Every field of an accepted schema was accepted by a step, and its properties
    are those of that step. *)
Lemma property_loop_each fields st : ofold property_step init_prop_state fields = Ret st ->
  forall f, f ∈ fields -> exists st0 st1 sp, property_step st0 f = Ret st1 /\ ps_pro st1 !! F_Name f = Some sp /\ ps_pro st !! F_Name f = Some sp.
Proof.
  intros H. pose proof (property_loop fields st H) as (_ & Hnd & _). revert Hnd.
  apply (ofold_inv property_step (fun fields st => NoDup (F_Name <$> fields) -> forall f, f ∈ fields ->
    exists st0 st1 sp, property_step st0 f = Ret st1 /\ ps_pro st1 !! F_Name f = Some sp /\ ps_pro st !! F_Name f = Some sp)
    init_prop_state fields st); [by intros _ f ?%elem_of_nil| |done].
  clear. intros fields g acc acc' IH Hs. rewrite fmap_app. intros (Hnd & Hnew & _)%NoDup_app f [Hf|Hf%list_elem_of_singleton]%elem_of_app.
  - destruct (IH Hnd f Hf) as (st0 & st1 & sp & H1 & H2 & H3). exists st0, st1, sp. split; [done|]. split; [done|].
    apply property_step_spec in Hs as (sp' & _ & _ & _ & _ & -> & _). rewrite lookup_insert_ne; [done|].
    intros Heq. apply (Hnew (F_Name f)); [by apply list_elem_of_fmap_2|]. rewrite <- Heq. by left.
  - subst g. pose proof Hs as Hs'. apply property_step_spec in Hs' as (sp & _ & _ & _ & _ & Hp & _). exists acc, acc', sp.
    rewrite Hp, lookup_insert_eq. done.
Qed.

Lemma dom_foldl_put (fs : list FieldMapping) : dom (foldl put_field ∅ fs) = list_to_set (FM_Name <$> fs).
Proof.
  induction fs as [|f fs IH] using rev_ind; [apply dom_empty_L|]. rewrite foldl_snoc, fmap_app, list_to_set_app_L.
  unfold put_field at 1. rewrite dom_insert_L, IH. cbn. set_solver.
Qed.

Lemma foldl_put_find fs m n fm : foldl put_field m fs !! n = Some fm -> m !! n = Some fm \/ fm ∈ fs /\ FM_Name fm = n.
Proof.
  revert m. induction fs as [|f fs IH]; intros m H; [by left|]. destruct (IH _ H) as [Hm|[Hin Hn]]; [|right; split; [by right|done]].
  unfold put_field in Hm. apply lookup_insert_Some in Hm as [[<- <-]|[_ Hm]]; [right; split; [by left|done]|by left].
Qed.

(** The two readings of a schema.  Of the schemas the master accepts, the decoder of
    the partition servers accepts exactly those without fields of type "short" or
    "byte", without a dimension on a scalar and without a format on anything but
    dates and vectors.  What it then makes of the schema has the master's fields, with the
    same types, dimensions and indexes - a vector counting as indexed even without an index -
    and the field cache of the index mapping holds them under their names. *)
Theorem schema_decoders_agree (unmarshal_array : string -> go (list json)) (decode_field : json -> go field_tmp)
    (unmarshal_fields : string -> go (list Field)) (schema : string) (docs : list json) (fields : list Field)
    (props : gmap string SpaceProperties) :
  unmarshal_array schema = Ret docs -> unmarshal_fields schema = Ret fields ->
  Forall2 (fun d f => plain d /\ exists tmp, decode_field d = Ret tmp /\ same_field tmp f) docs fields ->
  UnmarshalPropertyJSON unmarshal_fields schema = Ret props ->
  ((exists m, SchemaMap unmarshal_array decode_field schema = Ret m) <-> Forall servable fields) /\
  (forall m, SchemaMap unmarshal_array decode_field schema = Ret m ->
     dom m = dom props /\ (forall n fm sp, m !! n = Some fm -> props !! n = Some sp -> agree fm sp) /\
     exists im, Space2Mapping unmarshal_array decode_field schema = Ret im /\ forall n, GetField im n = m !! n).
Proof.
  intros Hd Hf Hsame Hp. unfold UnmarshalPropertyJSON in Hp. rewrite Hf in Hp. cbn [obind] in Hp. inv_ret. subst props.
  pose proof (property_loop_each fields a Hm) as Heach. pose proof (property_loop fields a Hm) as (_ & Hnd & Hdom & _).
  assert (forall d f fm tmp, (d, f) ∈ zip docs fields -> decode_field d = Ret tmp -> FieldMapping_UnmarshalJSON tmp = Ret fm ->
    servable f /\ FM_Name fm = F_Name f /\ exists sp, ps_pro a !! F_Name f = Some sp /\ agree fm sp) as Hone.
  { intros d f fm tmp Hin Ht Hfm. apply list_elem_of_lookup in Hin as [i (x & y & [= <- <-] & Hx & Hy)%lookup_zip_with_Some].
    destruct (Forall2_lookup_lr _ _ _ _ _ _ Hsame Hx Hy) as (_ & tmp' & Ht' & Hsf). rewrite Ht in Ht'. injection Ht' as <-.
    destruct (Heach f) as (st0 & st1 & sp & Hs & H1 & H2); [by eapply list_elem_of_lookup_2|].
    destruct (field_decoders tmp f st0 st1 sp Hsf Hs H1) as [_ Hback]. destruct (Hback fm Hfm) as (? & ? & ?). eauto. }
  assert (forall m, SchemaMap unmarshal_array decode_field schema = Ret m -> exists fs, m = foldl put_field ∅ fs /\
    Forall2 (fun f fm => servable f /\ FM_Name fm = F_Name f /\ exists sp, ps_pro a !! F_Name f = Some sp /\ agree fm sp) fields fs /\
    exists im, Space2Mapping unmarshal_array decode_field schema = Ret im /\ forall n, GetField im n = m !! n) as Hret.
  { intros m Hsm. destruct (SchemaMap_ret _ _ _ _ _ Hd Hsm) as (fs & Hfs & Hmfs & Him). exists fs. split; [done|]. split; [|done].
    apply Forall2_same_length_lookup. split; [by rewrite <- (Forall2_length _ _ _ Hsame), (Forall2_length _ _ _ Hfs)|].
    intros i f fm Hif Hifm. destruct (Forall2_lookup_r _ _ _ _ _ Hfs Hifm) as (d & Hid & tmp & Ht & Hfm).
    apply (Hone d f fm tmp); [|done..]. apply list_elem_of_lookup. exists i. apply lookup_zip_with_Some. eauto. }
  split; [split|].
  - intros [m Hsm]. destruct (Hret m Hsm) as (fs & _ & Hfs & _). apply Forall_forall. intros f [i Hi]%list_elem_of_lookup.
    destruct (Forall2_lookup_l _ _ _ _ _ Hfs Hi) as (fm & _ & Hs & _). done.
  - intros Hserv. eapply SchemaMap_total; [done|]. apply Forall_forall. intros d [i Hi]%list_elem_of_lookup.
    destruct (Forall2_lookup_l _ _ _ _ _ Hsame Hi) as (f & Hif & Hpl & tmp & Ht & Hsf). split; [done|]. exists tmp.
    rewrite Forall_forall in Hserv. assert (f ∈ fields) as Hin by by eapply list_elem_of_lookup_2.
    destruct (Heach f Hin) as (st0 & st1 & sp & Hs & H1 & H2).
    destruct (field_decoders tmp f st0 st1 sp Hsf Hs H1) as [Hgo _]. destruct (Hgo (Hserv f Hin)) as [fm ?]. eauto.
  - intros m Hsm. destruct (Hret m Hsm) as (fs & -> & Hfs & Him). split; [|split; [|done]].
    + rewrite dom_foldl_put, Hdom. f_equal. symmetry. apply list_eq_Forall2. rewrite Forall2_fmap. eapply Forall2_impl; [done|].
      by intros f fm (_ & -> & _).
    + intros n fm sp [?|[[i Hi]%list_elem_of_lookup <-]]%foldl_put_find Hsp; [done|].
      destruct (Forall2_lookup_r _ _ _ _ _ Hfs Hi) as (f & _ & _ & Hname & sp' & Hsp' & Ha). rewrite Hname in Hsp. by simplify_eq.
Qed.

(** ** An example *)

Definition demo_docs : list json := [JObject [("name", JString "price")]; JObject [("name", JString "emb")]].
Definition demo_decode (d : json) : go field_tmp :=
  match d with
  | JObject [(_, JString n)] =>
    match List.find (fun f => F_Name f =?s n) sample_fields with
    | Some f => Ret {| T_Name := Some (F_Name f); T_Type := F_Type f; T_Index := F_Index f; T_Format := F_Format f;
                       T_Dimension := F_Dimension f; T_StoreType := F_StoreType f; T_StoreParam := "" |}
    | None => Fail (OtherErr "json")
    end
  | _ => Fail (OtherErr "json")
  end.

Lemma schema_decoders_agree_witness :
  exists m, SchemaMap (fun _ => Ret demo_docs) demo_decode "..." = Ret m /\ FM_Dimension <$> m !! "emb"%string = Some 4.
Proof.
  assert (exists props, UnmarshalPropertyJSON (fun _ => Ret sample_fields) "..." = Ret props) as [props Hp] by (eexists; vm_compute; reflexivity).
  destruct (schema_decoders_agree (fun _ => Ret demo_docs) demo_decode (fun _ => Ret sample_fields) "..." demo_docs sample_fields props)
    as [[_ [m Hm]] _]; [reflexivity|reflexivity| |exact Hp| |].
  - repeat constructor; try (eexists; split; [reflexivity|]; repeat constructor; discriminate); eexists; (split; [reflexivity|]); repeat split.
  - apply Forall_cons; split; [|apply Forall_cons; split; [|apply Forall_nil]]; split; cbn.
    + apply contains_false. reflexivity.
    + intros _. split; [reflexivity|]. intros [? ?]. discriminate.
    + apply contains_false. reflexivity.
    + intros Hv. destruct (Hv eq_refl).
  - exists m. split; [exact Hm|]. vm_compute in Hm. injection Hm as <-. reflexivity.
Defined.
