(* ===== verification/DocParse.v ===== *)
(** * Parsing documents (internal/router/document/doc_parse.go)

    From the JSON of an upsert request to the typed binary fields sent to the
    partitions.  A JSON number is what fastjson makes of it: an [int64] if its
    text is one, and a [float64].  The conversions of the [cast] package and the
    memory limit check are parameters. *)

From Stdlib Require Import SpecFloat.
From S2P Require Import Prelude.
From S2P Require Import Text.
From S2P Require Import Errors.
From S2P Require Import Schema.
From S2P Require Import Partition.
From S2P Require Import Bytes.
From S2P Require Import Space.
From S2P Require Import Floats.
From S2P Require Import Router.
Open Scope Z_scope.

(** ** JSON values *)

Record jnumber : Type := {
  num_int : option Z;          (** [Int], [Int64]; an error when not an int64 *)
  num_float : option float     (** [Float64] *)
}.

Inductive jvalue : Type :=
| VNull
| VString (s : string)
| VNumber (n : jnumber)
| VBool (b : bool)
| VObject (kvs : list (string * jvalue))
| VArray (vs : list jvalue).

Definition IDField : string := "_id".
Definition maxStrLen : Z := 65535.
Definition maxIndexedStrLen : Z := 1024.

(** [len(s)]: bytes. *)
Definition str_len (s : string) : Z := Z.of_nat (length (bytes_of s)).

Section Parse.
Context (ToTimeE ToInt32E ToInt64E : string -> option Z).
Context (ToFloat32E ToFloat64E : string -> option float).

(** ** Single values *)

Definition processField (fieldName : string) (fieldType : FieldType) (value : list Z) (opt : FieldOption) : DocField :=
  {| DF_Name := fieldName; DF_Type := fieldType; DF_Value := value; DF_Option := opt |}.

Definition field_opt (pro : SpaceProperties) : FieldOption :=
  if bool_decide (SP_Option pro = FO_Index) then FO_Index else FO_Null.

Definition processString (pro : SpaceProperties) (fieldName val : string) : go DocField :=
  let opt := field_opt pro in
  match SP_FieldType pro with
  | FT_STRING =>
    if bool_decide (is_Some (SP_Index pro)) && (maxIndexedStrLen <? str_len val)
    then Fail (verr PARAM_ERROR "string field %s indexed, length should less than %d")
    else if maxStrLen <? str_len val then Fail (verr PARAM_ERROR "string field %s length should less than %d")
    else Ret (processField fieldName FT_STRING (bytes_of val) opt)
  | FT_STRINGARRAY => Ret (processField fieldName FT_STRINGARRAY (bytes_of val) opt)
  | FT_DATE =>
    match ToTimeE val with
    | None => Fail (verr PARAM_ERROR "parse date %s failed, err %v")
    | Some ns => Ret (processField fieldName FT_DATE (Int64ToByte ns) opt)
    end
  | FT_INT =>
    match ToInt32E val with
    | None => Fail (verr PARAM_ERROR "parse string %s to integer failed, err %v")
    | Some i => Ret (processField fieldName FT_INT (Int32ToByte i) opt)
    end
  | FT_LONG =>
    match ToInt64E val with
    | None => Fail (verr PARAM_ERROR "parse string %s to long failed, err %v")
    | Some i => Ret (processField fieldName FT_LONG (Int64ToByte i) opt)
    end
  | FT_FLOAT =>
    match ToFloat32E val with
    | None => Fail (verr PARAM_ERROR "parse string %s to float32 failed, err %v")
    | Some f => Ret (processField fieldName FT_FLOAT (Float32ToByte (Float32bits f)) opt)
    end
  | FT_DOUBLE =>
    match ToFloat64E val with
    | None => Fail (verr PARAM_ERROR "parse string %s to float64 failed, err %v")
    | Some f => Ret (processField fieldName FT_DOUBLE (Float64ToByte (Float64bits f)) opt)
    end
  | FT_VECTOR | FT_BOOL => Fail (verr PARAM_ERROR "parse param processString err :%s")
  end.

(** An accessor of fastjson: its error is returned as it is. *)
Definition json_get {A} (o : option A) : go A :=
  match o with Some x => Ret x | None => Fail (OtherErr "cannot parse number") end.

Definition processNumber (pro : SpaceProperties) (fieldName : string) (val : jnumber) : go DocField :=
  let opt := field_opt pro in
  match SP_FieldType pro with
  | FT_INT => let! i := json_get (num_int val) in Ret (processField fieldName FT_INT (Int32ToByte (i32 i)) opt)
  | FT_LONG => let! i := json_get (num_int val) in Ret (processField fieldName FT_LONG (Int64ToByte i) opt)
  | FT_FLOAT => let! f := json_get (num_float val) in
                Ret (processField fieldName FT_FLOAT (Float32ToByte (Float32bits (to_float32 f))) opt)
  | FT_DOUBLE => let! f := json_get (num_float val) in
                 Ret (processField fieldName FT_DOUBLE (Float64ToByteNew (Float64bits f)) opt)
  | FT_DATE => let! i := json_get (num_int val) in
               Ret (processField fieldName FT_DATE (Int64ToByte (i64 (i * 1000000000))) opt)
  | FT_STRING | FT_VECTOR | FT_BOOL | FT_STRINGARRAY =>
    Fail (verr PARAM_ERROR "field[%s] value mismatch, value:[%v] type:[%v]")
  end.

Definition processBool (pro : SpaceProperties) (fieldName : string) (val : bool) : go DocField :=
  match SP_FieldType pro with
  | FT_BOOL => Ret (processField fieldName FT_BOOL (BoolToByte val) (field_opt pro))
  | _ => Fail (verr PARAM_ERROR "field:[%s] value mismatch, type:[%s]")
  end.

(** ** Vectors *)

Definition processVectorBinary (pro : SpaceProperties) (fieldName : string) (val : list Z) : go DocField :=
  match SP_FieldType pro with
  | FT_VECTOR =>
    if (0 <? SP_Dimension pro) && negb (Z.quot (SP_Dimension pro) 8 =? Z.of_nat (length val))
    then Fail (verr PARAM_ERROR "vector field:[%s] embedding length has error, dimension in space is:[%d] but input length:[%d]")
    else let! bs := VectorBinaryToByte val in Ret (processField fieldName FT_VECTOR bs (field_opt pro))
  | _ => Fail (verr PARAM_ERROR "vector field:[%s] embedding value %v mismatch field type %v")
  end.

Definition processVector (pro : SpaceProperties) (fieldName : string) (val : list Z) : go DocField :=
  match SP_FieldType pro with
  | FT_VECTOR =>
    if (0 <? SP_Dimension pro) && negb (SP_Dimension pro =? Z.of_nat (length val))
    then Fail (verr PARAM_ERROR "vector field:[%s] embedding length has error, dimension in space is:[%d] but input length:[%d]")
    else Ret (processField fieldName FT_VECTOR (VectorToByte val) (field_opt pro))
  | _ => Fail (verr PARAM_ERROR "field:[%s] value %v mismatch field type %v")
  end.

Definition feature_int (v : jvalue) : option Z := match v with VNumber n => num_int n | _ => None end.
Definition feature_float (v : jvalue) : option float := match v with VNumber n => num_float n | _ => None end.

Definition is_finite (f : float) : bool := match f with S754_nan | S754_infinity _ => false | _ => true end.

(** Errors of the inner call are wrapped in a PARAM_ERROR. *)
Definition rewrap {A} (m : go A) (msg : string) : go A :=
  match m with Fail _ => Fail (verr PARAM_ERROR msg) | _ => m end.

Definition processPropertyObjectVectorBinary (feature : list jvalue) (pathString : string) (pro : SpaceProperties) : go DocField :=
  let! vector := ofold (fun acc v =>
    match feature_int v with
    | None => Fail (verr PARAM_ERROR "binary vector embedding can not to uint8 %v")
    | Some x => if (x <? 0) || (255 <? x) then Fail (verr PARAM_ERROR "binary vector embedding value overflows constant: %v")
                else Ret (acc ++ [u8 x])
    end) [] feature in
  rewrap (processVectorBinary pro pathString vector) "process binary vector embedding err:[%s] vector value:[%v]".

Definition processPropertyObjectVectorOther (feature : list jvalue) (pathString : string) (pro : SpaceProperties) : go DocField :=
  let! vector := ofold (fun acc v =>
    match feature_float v with
    | None => Fail (verr PARAM_ERROR "vector embedding can not to float 64 %v")
    | Some f => if negb (is_finite f) then Fail (verr PARAM_ERROR "vector embedding value index:[%d], err:[ %v] is nan or inf")
                else Ret (acc ++ [Float32bits (to_float32 f)])
    end) [] feature in
  rewrap (processVector pro pathString vector) "%s vector embedding value:[%v]".

(** The strings of an array, joined by the byte 1. *)
Fixpoint join_strings (isIndex : bool) (vs : list jvalue) : go string :=
  match vs with
  | [] => Ret ""%string
  | v :: vs' =>
    match v with
    | VString s =>
      if isIndex && (maxIndexedStrLen <? str_len s)
      then Fail (verr PARAM_ERROR "string field %s indexed, length should less than %d")
      else if maxStrLen <? str_len s then Fail (verr PARAM_ERROR "string field %s length should less than %d")
      else let! rest := join_strings isIndex vs' in
           Ret (match vs' with [] => s | _ => s +:+ String (Ascii.ascii_of_nat 1) rest end)
    | _ => Fail (OtherErr "value doesn't contain string")
    end
  end.

Definition processPropertyArrayVectorString (vs : list jvalue) (fieldName : string) (pro : SpaceProperties) : go DocField :=
  let! joined := join_strings (bool_decide (is_Some (SP_Index pro))) vs in
  processString pro fieldName joined.

Definition processPropertyArray (vs : list jvalue) (pathString : string) (pro : SpaceProperties) (indexType : string) : go DocField :=
  match SP_FieldType pro with
  | FT_STRINGARRAY => processPropertyArrayVectorString vs pathString pro
  | FT_VECTOR =>
    if (length vs =? 0)%nat then Fail (verr PARAM_ERROR "vector field %s embedding value should be arrry, but is: %v")
    else if indexType =?s "BINARYIVF" then processPropertyObjectVectorBinary vs pathString pro
    else processPropertyObjectVectorOther vs pathString pro
  | _ => Fail (verr PARAM_ERROR "field:[%s] type:[%v] can't use as array")
  end.

(** [processProperty] on a document's own fields (the path is empty).  For a
    JSON object [processPropertyObject] returns nil, without an error. *)
Definition processProperty (fieldName : string) (v : jvalue) (indexType : string) (pro : SpaceProperties) : go (option DocField) :=
  if fieldName =?s IDField then Fail (verr PARAM_ERROR "field name [%s]  is an internal field that cannot be used")
  else
    match v with
    | VNull => Fail (verr PARAM_ERROR "field name [%s] type is null")
    | VString s => let! f := processString pro fieldName s in Ret (Some f)
    | VNumber n => let! f := processNumber pro fieldName n in Ret (Some f)
    | VBool b => let! f := processBool pro fieldName b in Ret (Some f)
    | VObject _ => Ret None
    | VArray vs => let! f := processPropertyArray vs fieldName pro indexType in Ret (Some f)
    end.

(** ** Documents *)

Record visit_state : Type := {
  vs_fields : list (option DocField);
  vs_haveVector : Z;
  vs_parseErr : option error;
  vs_haveNoField : bool
}.

Definition is_vector (f : option DocField) : bool :=
  match f with Some f => bool_decide (DF_Type f = FT_VECTOR) | None => false end.

(** The callback of [obj.Visit]: it records errors and goes on. *)
Definition visit (s : Space) (proMap : gmap string SpaceProperties) (st : visit_state) (kv : string * jvalue) : go visit_state :=
  let '(fieldName, val) := kv in
  if fieldName =?s IDField then Ret st
  else
    match proMap !! fieldName with
    | None => Ret {| vs_fields := vs_fields st; vs_haveVector := vs_haveVector st; vs_parseErr := vs_parseErr st; vs_haveNoField := true |}
    | Some pro =>
      match processProperty fieldName val (GetFieldIndexType (S_Indexes s) (S_SpaceProperties s) fieldName) pro with
      | Panic p => Panic p
      | Fail e => Ret {| vs_fields := vs_fields st; vs_haveVector := vs_haveVector st; vs_parseErr := Some e; vs_haveNoField := vs_haveNoField st |}
      | Ret field =>
        Ret {| vs_fields := vs_fields st ++ [field];
               vs_haveVector := vs_haveVector st + (if is_vector field then 1 else 0);
               vs_parseErr := vs_parseErr st; vs_haveNoField := vs_haveNoField st |}
      end
    end.

Definition parseJSON (v : jvalue) (s : Space) (proMap : gmap string SpaceProperties) : go (list (option DocField) * Z) :=
  match v with
  | VObject kvs =>
    let! st := ofold (visit s proMap) {| vs_fields := []; vs_haveVector := 0; vs_parseErr := None; vs_haveNoField := false |} kvs in
    match vs_parseErr st with
    | Some e => Fail (verr PARAM_ERROR "%s")
    | None =>
      if vs_haveNoField st then Fail (verr PARAM_ERROR "unrecognizable field, %s is not found in space[%s] fields")
      else Ret (vs_fields st, vs_haveVector st)
    end
  | _ => Fail (verr PARAM_ERROR "data format error, object is required but received %s")
  end.

(** ** Requests *)

(** A document of the request: its key and its JSON. *)
Record json_doc : Type := { jd_key : string; jd_value : jvalue }.

(** The memory estimate, from the first document; [sizeof_field],
    [sizeof_doc] and [sizeof_ptr] are the sizes of the Go types. *)
Context (sizeof_field sizeof_doc sizeof_ptr : Z) (CheckMemoryLimitExceed : Z -> bool).

Definition field_size (f : option DocField) : go Z :=
  match f with
  | None => Panic NilDeref
  | Some f => Ret (sizeof_field + str_len (DF_Name f) + Z.of_nat (length (DF_Value f)))
  end.

Definition estimate (fields : list (option DocField)) (key : string) (ndocs : nat) : go Z :=
  let! fieldSize := ofold (fun acc f => let! n := field_size f in Ret (acc + n)) 0 fields in
  Ret ((sizeof_doc + Z.of_nat (length fields) * sizeof_ptr + str_len key + fieldSize) * Z.of_nat ndocs).

Definition count_vectors (props : gmap string SpaceProperties) : Z :=
  Z.of_nat (length (filter (fun kv => SP_FieldType kv.2 = FT_VECTOR) (map_to_list props))).

Record ParsedDoc : Type := { pd_key : string; pd_fields : list (option DocField) }.

Definition parse_doc (s : Space) (props : gmap string SpaceProperties) (ndocs : nat)
    (docs : list ParsedDoc) (doc : json_doc) : go (list ParsedDoc) :=
  let! fv := parseJSON (jd_value doc) s props in
  let '(fields, haveVector) := fv in
  check! guard_err (negb (haveVector =? count_vectors props) && (jd_key doc =?s ""))
           (verr PARAM_ERROR "vector field num:%d is not equal to vector num of space fields:%d and document_id is empty") in
  check! (if (length docs =? 0)%nat then
            let! sz := estimate fields (jd_key doc) ndocs in
            guard_err (CheckMemoryLimitExceed sz) (verr INTERNAL_ERROR "memory usage exceed limit")
          else Ret tt) in
  Ret (docs ++ [{| pd_key := jd_key doc; pd_fields := fields |}]).

(** The properties of the space: an empty map is left out of the JSON of a space and comes back as nil, and then the
    schema is decoded, its errors ignored. *)
Context (unmarshal_fields : string -> go (list Field)).
Definition document_properties (s : Space) : go (gmap string SpaceProperties) :=
  if (size (S_SpaceProperties s) =? 0)%nat
  then match UnmarshalPropertyJSON unmarshal_fields (S_Fields s) with Fail _ => Ret ∅ | m => m end
  else Ret (S_SpaceProperties s).

(** [documentParse]: the documents and the partitions of the bulk request. *)
Definition documentParse (s : Space) (partitions : list Z) (documents : list json_doc) : go (list ParsedDoc * list Z) :=
  let! props := document_properties s in
  check! guard_err (negb (forallb (fun pid => existsb (fun p => pid =? P_Id p) (S_Partitions s)) partitions))
           (verr PARAM_ERROR "partition id %d not belong to space[%s]") in
  let! docs := ofold (parse_doc s props (length documents)) [] documents in
  check! guard_err (length docs =? 0)%nat (verr PARAM_ERROR "empty documents, should set at least one document") in
  Ret (docs, partitions).
End Parse.

(** ** Typed fields *)

(** The binary value of a field, by the type the schema gives it. *)
Definition value_ok (pro : SpaceProperties) (indexType : string) (value : list Z) : Prop :=
  match SP_FieldType pro with
  | FT_INT | FT_FLOAT | FT_BOOL => length value = 4%nat
  | FT_LONG | FT_DOUBLE | FT_DATE => length value = 8%nat
  | FT_STRING => Z.of_nat (length value) <= maxStrLen /\
                 (is_Some (SP_Index pro) -> Z.of_nat (length value) <= maxIndexedStrLen)
  | FT_STRINGARRAY => True
  | FT_VECTOR =>
    0 < SP_Dimension pro ->
    if indexType =?s "BINARYIVF" then Z.of_nat (length value) = Z.quot (SP_Dimension pro) 8
    else exists vec, ByteToVectorForFloat32 value = Ret vec /\ Z.of_nat (length vec) = SP_Dimension pro
  end.

Definition typed_field (pro : SpaceProperties) (indexType fieldName : string) (f : DocField) : Prop :=
  DF_Name f = fieldName /\ DF_Type f = SP_FieldType pro /\ DF_Option f = field_opt pro /\
  value_ok pro indexType (DF_Value f).

Section Typed.
Context (ToTimeE ToInt32E ToInt64E : string -> option Z).
Context (ToFloat32E ToFloat64E : string -> option float).

Lemma processString_typed pro it name val f :
  processString ToTimeE ToInt32E ToInt64E ToFloat32E ToFloat64E pro name val = Ret f -> typed_field pro it name f.
Proof.
  unfold processString, typed_field, value_ok. cbv zeta.
  destruct (SP_FieldType pro) eqn:Hty; intros H.
  5: { destruct (bool_decide_reflect (is_Some (SP_Index pro))) as [Hi|Hi]; cbn [andb] in H.
    - destruct (Z.ltb_spec maxIndexedStrLen (str_len val)); [done|].
      destruct (Z.ltb_spec maxStrLen (str_len val)); [done|]. injection H as <-. done.
    - destruct (Z.ltb_spec maxStrLen (str_len val)); [done|]. injection H as <-. done. }
  all: try (by injection H as <-). all: try done.
  all: split_ret H; injection H as <-; split_and!; try done; apply length_le_bytes.
Qed.

Lemma processNumber_typed pro it name n f : processNumber pro name n = Ret f -> typed_field pro it name f.
Proof.
  unfold processNumber, typed_field, value_ok. cbv zeta. destruct (SP_FieldType pro) eqn:Hty; intros H; try done;
    apply obind_ret_inv in H as (x & _ & H); injection H as <-; split_and!; try done; apply length_le_bytes.
Qed.

Lemma processBool_typed pro it name b f : processBool pro name b = Ret f -> typed_field pro it name f.
Proof.
  unfold processBool, typed_field, value_ok. destruct (SP_FieldType pro) eqn:Hty; intros H; try done.
  injection H as <-. split_and!; try done. unfold BoolToByte. destruct b; apply length_le_bytes.
Qed.

Lemma rewrap_ret {A} (m : go A) msg x : rewrap m msg = Ret x -> m = Ret x.
Proof. by destruct m. Qed.

Lemma UInt8ArrayToByteArray_length vs bs : UInt8ArrayToByteArray vs = Ret bs -> length bs = length vs.
Proof.
  revert bs. induction vs as [|v vs IH]; intros bs; cbn [UInt8ArrayToByteArray]; [by intros [= <-]|].
  destruct (255 <? v); [done|]. intros (rest & Hr & [= <-])%obind_ret_inv. simpl. by rewrite (IH rest).
Qed.

Lemma vector_other_typed pro it name vs f :
  (it =?s "BINARYIVF") = false ->
  processPropertyObjectVectorOther vs name pro = Ret f -> typed_field pro it name f.
Proof.
  intros Hit H. unfold processPropertyObjectVectorOther in H. apply obind_ret_inv in H as (vec & Hvec & H).
  apply rewrap_ret in H. unfold processVector in H. unfold typed_field, value_ok.
  destruct (SP_FieldType pro) eqn:Hty; try done.
  destruct (_ && _) eqn:Hdim; [done|]. injection H as <-. split_and!; [done..|]. intros Hpos. rewrite Hit.
  assert (Forall (in_u 32) vec) as Hrange.
  { revert Hvec. apply (ofold_inv _ (fun _ acc => Forall (in_u 32) acc)); [constructor|].
    intros seen v acc acc' HI Hacc. split_ret Hacc. injection Hacc as <-. apply Forall_app. split; [done|].
    apply Forall_singleton. apply wrap_u_range. lia. }
  exists vec. split; [by apply ByteToVectorForFloat32_VectorToByte|].
  destruct (Z.ltb_spec 0 (SP_Dimension pro)); [|lia]. cbn [andb] in Hdim.
  apply negb_false_iff, Z.eqb_eq in Hdim. lia.
Qed.

Lemma vector_binary_typed pro name vs f :
  processPropertyObjectVectorBinary vs name pro = Ret f -> typed_field pro "BINARYIVF" name f.
Proof.
  intros H. unfold processPropertyObjectVectorBinary in H. apply obind_ret_inv in H as (vec & _ & H).
  apply rewrap_ret in H. unfold processVectorBinary in H. unfold typed_field, value_ok.
  destruct (SP_FieldType pro) eqn:Hty; try done. destruct (_ && _) eqn:Hdim; [done|].
  apply obind_ret_inv in H as (bs & Hbs & [= <-]). split_and!; [done..|]. intros Hpos.
  rewrite (proj2 (string_eqb_eq _ _) eq_refl). cbn [processField DF_Value].
  unfold VectorBinaryToByte in Hbs. rewrite (UInt8ArrayToByteArray_length _ _ Hbs).
  destruct (Z.ltb_spec 0 (SP_Dimension pro)); [|lia]. cbn [andb] in Hdim.
  apply negb_false_iff, Z.eqb_eq in Hdim. lia.
Qed.

Lemma processProperty_typed name v it pro f :
  processProperty ToTimeE ToInt32E ToInt64E ToFloat32E ToFloat64E name v it pro = Ret (Some f) -> typed_field pro it name f.
Proof.
  unfold processProperty. destruct (name =?s IDField); [done|].
  destruct v as [|s|n|b|kvs|vs]; try done; intros (g & H & [= <-])%obind_ret_inv.
  - by eapply processString_typed.
  - by eapply processNumber_typed.
  - by eapply processBool_typed.
  - unfold processPropertyArray in H. destruct (SP_FieldType pro) eqn:Hty; try done.
    + destruct (length vs =? 0)%nat; [done|]. destruct (it =?s "BINARYIVF") eqn:Hit.
      * apply string_eqb_eq in Hit as ->. by eapply vector_binary_typed.
      * by eapply vector_other_typed.
    + unfold processPropertyArrayVectorString in H. apply obind_ret_inv in H as (j & _ & H).
      by eapply processString_typed.
Qed.
End Typed.

(** ** Documents *)

Section Documents.
Context (ToTimeE ToInt32E ToInt64E : string -> option Z).
Context (ToFloat32E ToFloat64E : string -> option float).
Context (sizeof_field sizeof_doc sizeof_ptr : Z) (CheckMemoryLimitExceed : Z -> bool) (unmarshal_fields : string -> go (list Field)).
Notation property := (processProperty ToTimeE ToInt32E ToInt64E ToFloat32E ToFloat64E).
Notation parse := (parseJSON ToTimeE ToInt32E ToInt64E ToFloat32E ToFloat64E).
Notation document := (documentParse ToTimeE ToInt32E ToInt64E ToFloat32E ToFloat64E sizeof_field sizeof_doc sizeof_ptr CheckMemoryLimitExceed unmarshal_fields).

(** A key and value of the document, and the field made of them. *)
Definition field_of (s : Space) (props : gmap string SpaceProperties) (kv : string * jvalue) (f : option DocField) : Prop :=
  exists pro, props !! kv.1 = Some pro /\
    property kv.1 kv.2 (GetFieldIndexType (S_Indexes s) (S_SpaceProperties s) kv.1) pro = Ret f.

Definition count_vec (fs : list (option DocField)) : Z := Z.of_nat (length (filter (fun f => is_vector f = true) fs)).

Lemma parseJSON_fields v s props fields hv :
  parse v s props = Ret (fields, hv) ->
  exists kvs, v = VObject kvs /\
    Forall2 (field_of s props) (filter (fun kv => kv.1 <> IDField) kvs) fields /\ hv = count_vec fields.
Proof.
  unfold parseJSON. destruct v as [| | | |kvs|]; try done. intros (st & Hrun & H)%obind_ret_inv.
  exists kvs. split; [done|].
  assert (vs_parseErr st = None -> vs_haveNoField st = false ->
    Forall2 (field_of s props) (filter (fun kv => kv.1 <> IDField) kvs) (vs_fields st) /\ vs_haveVector st = count_vec (vs_fields st)) as Hinv.
  { revert Hrun. apply (ofold_inv _ (fun seen st => vs_parseErr st = None -> vs_haveNoField st = false ->
      Forall2 (field_of s props) (filter (fun kv => kv.1 <> IDField) seen) (vs_fields st) /\ vs_haveVector st = count_vec (vs_fields st))).
    - intros _ _. split; [constructor|done].
    - intros seen [k x] acc acc' HI Hacc Hpe Hnf. rewrite filter_app, filter_cons. cbn [fst].
      unfold visit in Hacc. destruct (k =?s IDField) eqn:Hk.
      + apply string_eqb_eq in Hk. injection Hacc as <-. rewrite decide_False by tauto. rewrite app_nil_r. by apply HI.
      + apply string_eqb_neq in Hk. rewrite decide_True by done.
        destruct (props !! k) as [pro|] eqn:Hpro; [|injection Hacc as <-; done].
        destruct (property k x _ pro) as [f|e|p] eqn:Hprop; [|injection Hacc as <-; done|done].
        injection Hacc as <-. cbn [vs_parseErr vs_haveNoField vs_fields vs_haveVector] in *.
        destruct (HI Hpe Hnf) as [HF Hv]. split.
        * apply Forall2_app; [done|]. constructor; [by exists pro|constructor].
        * rewrite Hv. unfold count_vec. rewrite filter_app, length_app, filter_cons.
          destruct (is_vector f); [rewrite decide_True by done|rewrite decide_False by done]; simpl; lia. }
  destruct (vs_parseErr st); [done|]. destruct (vs_haveNoField st); [done|]. injection H as <- <-. by apply Hinv.
Qed.

(** What an accepted document looks like to the partitions. *)
Definition parsed_ok (s : Space) (props : gmap string SpaceProperties) (doc : json_doc) (p : ParsedDoc) : Prop :=
  pd_key p = jd_key doc /\
  (exists kvs, jd_value doc = VObject kvs /\
     Forall2 (field_of s props) (filter (fun kv => kv.1 <> IDField) kvs) (pd_fields p)) /\
  Forall (fun f => forall g, f = Some g -> exists pro, props !! DF_Name g = Some pro /\
     typed_field pro (GetFieldIndexType (S_Indexes s) (S_SpaceProperties s) (DF_Name g)) (DF_Name g) g) (pd_fields p) /\
  (jd_key doc = ""%string -> count_vec (pd_fields p) = count_vectors props).

Lemma parse_doc_ok s props n docs doc docs' :
  parse_doc ToTimeE ToInt32E ToInt64E ToFloat32E ToFloat64E sizeof_field sizeof_doc sizeof_ptr CheckMemoryLimitExceed
    s props n docs doc = Ret docs' ->
  exists p, docs' = docs ++ [p] /\ parsed_ok s props doc p.
Proof.
  unfold parse_doc. intros ([fields hv] & Hparse & H)%obind_ret_inv.
  apply obind_ret_inv in H as (u & Hg%guard_err_ret & H). apply obind_ret_inv in H as (u' & _ & [= <-]).
  destruct (parseJSON_fields _ _ _ _ _ Hparse) as (kvs & Hv & HF & ->).
  eexists. split; [reflexivity|]. unfold parsed_ok. cbn [pd_key pd_fields]. split_and!; [done|by exists kvs| |].
  - apply Forall_lookup. intros i f Hf g ->.
    destruct (Forall2_lookup_r _ _ _ _ _ HF Hf) as ([k x] & _ & pro & Hpro & Hprop). cbn [fst snd] in *.
    pose proof (processProperty_typed _ _ _ _ _ _ _ _ _ _ Hprop) as Ht. pose proof Ht as (-> & _). by exists pro.
  - intros Hkey. rewrite Hkey in Hg. rewrite (proj2 (string_eqb_eq _ _) eq_refl), andb_true_r in Hg.
    by apply negb_false_iff, Z.eqb_eq in Hg.
Qed.

(** An accepted upsert request: one parsed document per document of the
    request, in order, whose fields are those of the JSON, known to the space
    and encoded with the width, the length limit and the vector dimension the
    schema asks for; a document without a key brings every vector of the
    space; the partitions named belong to the space.  The properties are those of the space, or those its schema decodes to if it
    has none.  (C10) *)
Theorem documentParse_sound (s : Space) (partitions : list Z) (documents : list json_doc) (docs : list ParsedDoc) (pids : list Z) :
  document s partitions documents = Ret (docs, pids) ->
  exists props, document_properties unmarshal_fields s = Ret props /\ (S_SpaceProperties s <> ∅ -> props = S_SpaceProperties s) /\
  docs <> [] /\ Forall2 (parsed_ok s props) documents docs /\
  pids = partitions /\ Forall (fun pid => exists p, p ∈ S_Partitions s /\ P_Id p = pid) partitions.
Proof.
  unfold documentParse. intros H. apply obind_ret_inv in H as (props & Hprops & H). apply obind_ret_inv in H as (u & Hp%guard_err_ret & H).
  apply obind_ret_inv in H as (ds & Hrun & H). apply obind_ret_inv in H as (u' & He%guard_err_ret & [= <- <-]).
  exists props. split; [done|]. split.
  { intros Hne%map_size_non_empty_iff. unfold document_properties in Hprops. apply Nat.eqb_neq in Hne. rewrite Hne in Hprops. by injection Hprops. }
  split_and!; [by intros ->| |done|].
  - revert Hrun. apply (ofold_inv _ (fun seen acc => Forall2 (parsed_ok s props) seen acc)); [constructor|].
    intros seen doc acc acc' HI Hacc. apply parse_doc_ok in Hacc as (p & -> & Hok).
    apply Forall2_app; [done|]. by constructor.
  - apply negb_false_iff in Hp. rewrite forallb_forall in Hp. apply Forall_forall. intros pid Hpid.
    apply list_elem_of_In in Hpid. apply Hp, existsb_exists in Hpid as (p & Hin & He2%Z.eqb_eq).
    exists p. split; [by apply list_elem_of_In|done].
Qed.

(** A JSON object as the value of a known field is accepted as a field that is
    nil, and the router dereferences it while it sizes the first document of
    the request. *)
Theorem object_value_panics (s : Space) (doc : json_doc) (documents : list json_doc) (fields : list (option DocField)) (hv : Z) :
  S_SpaceProperties s <> ∅ -> parse (jd_value doc) s (S_SpaceProperties s) = Ret (fields, hv) -> jd_key doc <> ""%string -> None ∈ fields ->
  document s [] (doc :: documents) = Panic NilDeref.
Proof.
  intros Hne%map_size_non_empty_iff Hparse Hkey Hnil. apply Nat.eqb_neq in Hne. unfold documentParse, document_properties. rewrite Hne. cbn [forallb negb guard_err obind ofold].
  unfold parse_doc at 1. rewrite Hparse. cbn [obind].
  rewrite (proj2 (string_eqb_neq _ _) Hkey), andb_false_r. cbn [guard_err obind length Nat.eqb].
  assert (forall acc, ofold (E := error) (fun acc f => let! n := field_size sizeof_field f in Ret (acc + n)) acc fields = Panic NilDeref) as Hsz.
  { clear Hparse. induction fields as [|f fs IH]; intros acc; [by apply elem_of_nil in Hnil|].
    destruct f as [f|]; [|done]. cbn [ofold field_size obind]. apply IH. by apply elem_of_cons in Hnil as [?|?]. }
  unfold estimate. by rewrite Hsz.
Qed.
End Documents.

Definition demo_prop (ty : FieldType) : SpaceProperties :=
  {| SP_FieldType := ty; SP_Type := ""; SP_Index := None; SP_Format := None; SP_Dimension := 0; SP_StoreType := None;
     SP_StoreParam := ""; SP_Option := FO_Null |}.
Definition demo_doc_space : Space :=
  {| S_Id := 7; S_Desc := ""; S_Name := "s"; S_ResourceName := "default"; S_Version := 0; S_DBId := 1; S_Enabled := None;
     S_Partitions := demo_parts; S_PartitionNum := 2; S_ReplicaNum := 1; S_Fields := ""; S_Indexes := []; S_PartitionRule := None;
     S_SpaceProperties := {["age" := demo_prop FT_INT]}; S_RefreshInterval := None; S_PartitionName := None;
     S_PartitionOperatorType := None; S_EnableIdCache := None; S_EnableRealtime := None |}.
Definition int_number (i : Z) : jnumber := {| num_int := Some i; num_float := None |}.
Definition demo_json (v : jvalue) : json_doc := {| jd_key := "k"; jd_value := VObject [("_id", VString "k"); ("age", v)]%string |}.
Definition no_parse {A : Type} (_ : string) : option A := None.
Definition demo_parse (docs : list json_doc) : go (list ParsedDoc * list Z) :=
  documentParse no_parse no_parse no_parse no_parse no_parse 80 64 8 (fun _ => false) (fun _ => Ret []) demo_doc_space [] docs.
Definition demo_parsed : ParsedDoc :=
  {| pd_key := "k"; pd_fields := [Some {| DF_Name := "age"; DF_Type := FT_INT; DF_Value := [5; 0; 0; 0]; DF_Option := FO_Null |}] |}.

Lemma documentParse_sound_witness :
  demo_parse [demo_json (VNumber (int_number 5))] = Ret ([demo_parsed], []) /\ [demo_parsed] <> [].
Proof.
  assert (demo_parse [demo_json (VNumber (int_number 5))] = Ret ([demo_parsed], [])) as H by (vm_compute; reflexivity).
  split; [exact H|]. apply documentParse_sound in H as (props & _ & _ & H & _). exact H.
Defined.

Lemma object_value_panics_witness : demo_parse [demo_json (VObject [])] = Panic NilDeref.
Proof.
  apply (object_value_panics no_parse no_parse no_parse no_parse no_parse 80 64 8 (fun _ => false) (fun _ => Ret []) demo_doc_space
    (demo_json (VObject [])) [] [None] 0); [by apply map_non_empty_singleton|vm_compute; reflexivity|done|by left].
Defined.

(** ** Numbers that do not fit *)

(** A JSON integer is stored in an INT field modulo [2^32], and a date in
    seconds modulo [2^64] nanoseconds, without an error: the stored value is the
    one given exactly when it fits. *)
Theorem processNumber_wraps (pro : SpaceProperties) (name : string) (n : jnumber) (i : Z) :
  num_int n = Some i ->
  (SP_FieldType pro = FT_INT ->
     exists f, processNumber pro name n = Ret f /\ Bytes2Int32 (DF_Value f) = Ret (i32 i) /\ (in_s 32 i <-> i32 i = i)) /\
  (SP_FieldType pro = FT_DATE ->
     exists f, processNumber pro name n = Ret f /\ Bytes2Int (DF_Value f) = Ret (i64 (i * 1000000000)) /\
               (in_s 64 (i * 1000000000) <-> i64 (i * 1000000000) = i * 1000000000)) /\
  (SP_FieldType pro = FT_LONG -> in_s 64 i -> exists f, processNumber pro name n = Ret f /\ Bytes2Int (DF_Value f) = Ret i).
Proof.
  intros Hn. assert (forall w z, 0 < w -> in_s w z <-> wrap_s w z = z) as Hfit.
  { intros w z Hw. split; [by apply wrap_s_id|]. intros <-. by apply wrap_s_range. }
  unfold processNumber. cbv zeta. rewrite Hn. cbn [json_get obind]. split_and!; intros Hty; rewrite Hty.
  - eexists. split; [reflexivity|]. split; [|by apply Hfit]. apply Bytes2Int32_Int32ToByte. apply wrap_s_range. lia.
  - eexists. split; [reflexivity|]. split; [|by apply Hfit]. apply Bytes2Int_Int64ToByte. apply wrap_s_range. lia.
  - intros Hi. eexists. split; [reflexivity|]. by apply Bytes2Int_Int64ToByte.
Qed.

Lemma processNumber_wraps_witness :
  exists f, processNumber (demo_prop FT_INT) "age" (int_number 4294967301) = Ret f /\ Bytes2Int32 (DF_Value f) = Ret 5.
Proof.
  destruct (processNumber_wraps (demo_prop FT_INT) "age" (int_number 4294967301) 4294967301 eq_refl) as [H _].
  destruct (H eq_refl) as (f & Hf & Hb & _). exists f. split; [exact Hf|]. exact Hb.
Defined.
