(* ===== verification/DocResp.v ===== *)
(** * Answers to document requests (internal/router/document/doc_resp.go)

    From the items and results that come back from the partitions to the JSON of the reply.  A document is a map of the values a
    client sees; strings are their bytes and floats their bit patterns, as in the binary fields of DocParse.v.  The main result is the
    round trip: what an upsert stores for a value is what a query shows of it. *)

From S2P Require Import Prelude.
From S2P Require Import Text.
From S2P Require Import Errors.
From S2P Require Import Keys.
From S2P Require Import Schema.
From S2P Require Import Partition.
From S2P Require Import Bytes.
From S2P Require Import Space.
From S2P Require Import Floats.
From S2P Require Import Router.
From S2P Require Import DocParse.
Open Scope Z_scope.

(** ** Values *)

Inductive out_value : Type :=
| OString (bs : list Z) | OStrings (ss : list (list Z)) | OInt (z : Z) | OBool (b : bool) | OTime (sec nsec : Z)
| OFloat32 (bits : Z) | OFloat64 (bits : Z) | OUint8s (vs : list Z) | OFloats (bits : list Z) | OScore (bits : Z).

(** [strings.Split(string(bs), "\001")] *)
Fixpoint split_on (sep : Z) (bs acc : list Z) : list (list Z) :=
  match bs with
  | [] => [acc]
  | b :: bs' => if b =? sep then acc :: split_on sep bs' [] else split_on sep bs' (acc ++ [b])
  end.
Definition SplitBytes (bs : list Z) : list (list Z) := split_on 1 bs [].

(** The vector of a field, by the type of its index. *)
Definition vector_value (field : SpaceProperties) (indexType : string) (value : list Z) : go out_value :=
  if indexType =?s "BINARYIVF"
  then let! unit8s := ByteToVectorBinary value (SP_Dimension field) in Ret (OUint8s unit8s)
  else let! float32s := ByteToVectorForFloat32 value in Ret (OFloats float32s).

(** The switch over the type of a field that is no vector. *)
Definition scalar_value (field : SpaceProperties) (value : list Z) : go (option out_value) :=
  match SP_FieldType field with
  | FT_STRING => Ret (Some (OString value))
  | FT_STRINGARRAY => Ret (Some (OStrings (SplitBytes value)))
  | FT_INT => let! v := Bytes2Int32 value in Ret (Some (OInt v))
  | FT_LONG => let! v := Bytes2Int value in Ret (Some (OInt v))
  | FT_BOOL => let! v := Bytes2Int value in Ret (Some (OBool (negb (v =? 0))))
  | FT_DATE => let! u := Bytes2Int value in Ret (Some (OTime (Z.quot u 1000000000) (Z.rem u 1000000000)))
  | FT_FLOAT => let! v := ByteToFloat32 value in Ret (Some (OFloat32 v))
  | FT_DOUBLE => let! v := ByteToFloat64New value in Ret (Some (OFloat64 v))
  | FT_VECTOR => Ret None
  end.

Definition is_vector_type (field : SpaceProperties) : bool := match SP_FieldType field with FT_VECTOR => true | _ => false end.

Section Serialize.
Context (s : Space) (props : gmap string SpaceProperties).
Definition index_type (name : string) : string := GetFieldIndexType (S_Indexes s) (S_SpaceProperties s) name.

(** ** A document that was fetched *)

(** The id of the next document, the values, and the error that ends the loop. *)
Record serialized : Type := { se_next : Z; se_out : gmap string out_value; se_err : option error }.

Definition wanted (returnFieldsMap : gmap string string) (name : string) : bool :=
  negb (default ""%string (returnFieldsMap !! name) =?s "") || (size returnFieldsMap =? 0)%nat.

Definition put_out (name : string) (v : out_value) (st : serialized) : serialized :=
  {| se_next := se_next st; se_out := <[name := v]> (se_out st); se_err := se_err st |}.

Definition serialize_field (returnFieldsMap : gmap string string) (vectorValue : bool) (st : serialized) (fv : DocField) : go serialized :=
  let name := DF_Name fv in
  match se_err st with
  | Some _ => Ret st
  | None =>
    if (name =?s IdField) && (size returnFieldsMap =? 0)%nat then Ret (put_out name (OString (DF_Value fv)) st)
    else if wanted returnFieldsMap name then
      match props !! name with
      | None =>
        if name =?s IdField then Ret st
        else if name =?s "_docid" then let! next := Bytes2Int32 (DF_Value fv) in Ret {| se_next := next; se_out := se_out st; se_err := None |}
        else Ret st
      | Some field =>
        if is_vector_type field then
          if negb vectorValue then Ret st
          else match vector_value field (index_type name) (DF_Value fv) with
               | Ret v => Ret (put_out name v st)
               | Fail e => Ret {| se_next := se_next st; se_out := se_out st; se_err := Some e |}
               | Panic p => Panic p
               end
        else let! v := scalar_value field (DF_Value fv) in Ret (match v with Some v => put_out name v st | None => st end)
      end
    else Ret st
  end.
Definition DocFieldSerialize (fields : list DocField) (returnFieldsMap : gmap string string) (vectorValue : bool) (docOut : gmap string out_value) : go serialized :=
  ofold (serialize_field returnFieldsMap vectorValue) {| se_next := -1; se_out := docOut; se_err := None |} fields.

(** ** A result of a query or a search *)

Definition source_field (st : gmap string out_value * list Z) (fv : DocField) : go (gmap string out_value * list Z) :=
  let name := DF_Name fv in
  if name =?s IdField then Ret (st.1, DF_Value fv)
  else match props !! name with
  | None => Ret st
  | Some field =>
    if is_vector_type field then let! v := vector_value field (index_type name) (DF_Value fv) in Ret (<[name := v]> st.1, st.2)
    else let! v := scalar_value field (DF_Value fv) in Ret (match v with Some v => <[name := v]> st.1 | None => st.1 end, st.2)
  end.

Record ResultItem : Type := { RI_Fields : list DocField; RI_Score : Z }.

Definition GetDocSource (doc : ResultItem) (search : bool) : go (gmap string out_value) :=
  let! st := ofold source_field (∅, []) (RI_Fields doc) in
  let source := <[IdField := OString st.2]> st.1 in
  Ret (if search then <[ScoreField := OScore (RI_Score doc)]> source else source).

(** ** Replies *)

(** The error of a head: none, or a code and a message. *)
Definition head_error (err : option error) : option (ErrorEnum * string) :=
  match err with Some (VearchErr c m) => if bool_decide (c = SUCCESS) then None else Some (c, m) | _ => None end.

Definition upsert_ok (it : Item) : bool :=
  match It_Err it with
  | None => true
  | Some (VearchErr c m) => (m =?s "success") && bool_decide (c = SUCCESS)
  | Some (OtherErr _) => false
  end.

(** One document of the reply: its id, and a code and a message if something is wrong. *)
Record doc_result : Type := { dr_id : option string; dr_err : option (Z * string) }.

Definition documentResultSerialize (item : option Item) : go doc_result :=
  match item with
  | None => Ret {| dr_id := None; dr_err := Some (500, "item is nil"%string) |}
  | Some it =>
    match It_Doc it with
    | None => Panic NilDeref
    | Some doc =>
      Ret {| dr_id := Some (D_PKey doc);
             dr_err := match It_Err it with
                       | Some e => let m := match e with VearchErr _ m => m | OtherErr m => m end in if m =?s "success" then None else Some (404, m)
                       | None => None
                       end |}
    end
  end.

(** The error of an empty reply. *)
Definition empty_reply (head : option error) : error :=
  match head_error head with Some (c, m) => NewError c (Some (OtherErr m)) | None => NewError INTERNAL_ERROR None end.

Definition documentUpsertResponse (head : option error) (items : list (option Item)) : go (nat * list doc_result) :=
  if (length items =? 0)%nat then Fail (empty_reply head)
  else match head_error head with
  | Some (c, _) => Fail (NewError c None)
  | None =>
    let total := length (List.filter (fun it => match it with Some it => upsert_ok it | None => false end) items) in
    let! documentIDs := ofold (fun acc it => let! r := documentResultSerialize it in Ret (acc ++ [r])) [] items in
    Ret (total, documentIDs)
  end.

(** An item of a get: the document, if there is one, with its key and its fields; the fields are nil for a document that was not found. *)
Record get_item : Type := { gi_Doc : option (string * option (list DocField)); gi_Err : option error }.

Definition get_total (it : option get_item) : go nat :=
  match it ≫= gi_Doc with
  | None => Ret 0%nat
  | Some (_, Some _) => Ret 1%nat
  | Some (_, None) =>
    match it ≫= gi_Err with
    | None => Panic NilDeref
    | Some (VearchErr c m) => Ret (if (m =?s "success") && bool_decide (c = SUCCESS) then 1 else 0)%nat
    | Some (OtherErr _) => Ret 0%nat
    end
  end.

(** The map of a document: [go_result] first, then the fields, which may replace its entries, then the id of the next document. *)
Record got : Type := { go_result : doc_result; go_fields : gmap string out_value; go_docid : option Z }.

Definition get_document (returnFieldsMap : gmap string string) (vectorValue : bool) (it : option get_item) : go got :=
  match it with
  | None => Ret {| go_result := {| dr_id := None; dr_err := Some (500, "item is nil"%string) |}; go_fields := ∅; go_docid := None |}
  | Some it =>
    match gi_Doc it with
    | None => Panic NilDeref
    | Some (pkey, fields) =>
      let result := {| dr_id := Some pkey;
                       dr_err := match gi_Err it with Some (VearchErr _ m) | Some (OtherErr m) => Some (404, m) | None => None end |} in
      if (length (default [] fields) =? 0)%nat then Ret {| go_result := result; go_fields := ∅; go_docid := None |}
      else
        let! st := DocFieldSerialize (default [] fields) returnFieldsMap vectorValue ∅ in
        Ret {| go_result := result; go_fields := se_out st; go_docid := if 0 <=? se_next st then Some (se_next st) else None |}
    end
  end.

Definition documentGetResponse (head : option error) (items : list (option get_item)) (returnFieldsMap : gmap string string) (vectorValue : bool) : go (nat * list got) :=
  if (length items =? 0)%nat then Fail (empty_reply head)
  else match head_error head with
  | Some (c, m) => Fail (NewError c (Some (OtherErr m)))
  | None =>
    let! total := ofold (fun acc it => let! n := get_total it in Ret (acc + n)%nat) 0%nat items in
    let! documents := ofold (fun acc it => let! d := get_document returnFieldsMap vectorValue it in Ret (acc ++ [d])) [] items in
    Ret (total, documents)
  end.

(** The documents of one result, in order. *)
Definition documents_of (search : bool) (items : list ResultItem) : go (list (gmap string out_value)) :=
  match ofold (fun acc it => let! d := GetDocSource it search in Ret (acc ++ [d])) [] items with
  | Fail _ => Fail (verr QUERY_RESPONSE_PARSE_ERR "get data err:")
  | x => x
  end.

Definition documentQueryResponse (head : option error) (srs : list (list ResultItem)) : go (nat * list (gmap string out_value)) :=
  match head_error head with
  | Some (c, m) => Fail (NewError c (Some (OtherErr m)))
  | None =>
    match srs with
    | [] => Ret (0%nat, [])
    | [items] => let! docs := documents_of false items in Ret (length items, docs)
    | _ => Fail (verr INTERNAL_ERROR "query result length should be one")
    end
  end.

Definition documentSearchResponse (head : option error) (srs : list (list ResultItem)) : go (list (list (gmap string out_value))) :=
  match head_error head with
  | Some (c, m) => Fail (NewError c (Some (OtherErr m)))
  | None => ofold (fun acc items => let! docs := documents_of true items in Ret (acc ++ [docs])) [] srs
  end.
End Serialize.

Definition deleteByQueryResult (head : option error) (delNum : Z) (ids : option (list string)) : go (Z * list string) :=
  match head_error head with
  | Some (c, _) => Fail (NewError c None)
  | None => Ret (delNum, default [] ids)
  end.

(** ** What is stored is what is shown *)

Section RoundTrip.
Context (ToTimeE ToInt32E ToInt64E : string -> option Z) (ToFloat32E ToFloat64E : string -> option float).
(** The conversions of the cast package give integers of their width. *)
Class Casts : Prop := {
  cast_time : forall s i, ToTimeE s = Some i -> in_s 64 i;
  cast_int32 : forall s i, ToInt32E s = Some i -> in_s 32 i;
  cast_int64 : forall s i, ToInt64E s = Some i -> in_s 64 i
}.
Context `{HC : Casts}.
Notation property := (processProperty ToTimeE ToInt32E ToInt64E ToFloat32E ToFloat64E).

(** Values that a reply can show: integers are [int64]s; an array of strings is not empty and no string of it has the byte that separates them. *)
Definition readable (v : jvalue) : Prop :=
  match v with
  | VNumber n => forall i, num_int n = Some i -> in_s 64 i
  | VArray vs => forall ss, vs = VString <$> ss -> ss <> [] /\ Forall (fun s => 1 ∉ bytes_of s) ss
  | _ => True
  end.

Definition time_of (ns : Z) : out_value := OTime (Z.quot ns 1000000000) (Z.rem ns 1000000000).

(** What a client is shown for a value of a field: the integer, as wide as the field; the float nearest to the number; the date in seconds and
    nanoseconds; the strings of an array; the components of a vector. *)
Inductive shows (pro : SpaceProperties) (indexType : string) : jvalue -> out_value -> Prop :=
| sh_string s : SP_FieldType pro = FT_STRING -> shows pro indexType (VString s) (OString (bytes_of s))
| sh_text s : SP_FieldType pro = FT_STRINGARRAY -> shows pro indexType (VString s) (OStrings (SplitBytes (bytes_of s)))
| sh_strings ss : SP_FieldType pro = FT_STRINGARRAY -> ss <> [] -> Forall (fun s => 1 ∉ bytes_of s) ss ->
    shows pro indexType (VArray (VString <$> ss)) (OStrings (bytes_of <$> ss))
| sh_int n i : SP_FieldType pro = FT_INT -> num_int n = Some i -> shows pro indexType (VNumber n) (OInt (i32 i))
| sh_int_text s i : SP_FieldType pro = FT_INT -> ToInt32E s = Some i -> shows pro indexType (VString s) (OInt i)
| sh_long n i : SP_FieldType pro = FT_LONG -> num_int n = Some i -> shows pro indexType (VNumber n) (OInt i)
| sh_long_text s i : SP_FieldType pro = FT_LONG -> ToInt64E s = Some i -> shows pro indexType (VString s) (OInt i)
| sh_date n i : SP_FieldType pro = FT_DATE -> num_int n = Some i -> shows pro indexType (VNumber n) (time_of (i64 (i * 1000000000)))
| sh_date_text s ns : SP_FieldType pro = FT_DATE -> ToTimeE s = Some ns -> shows pro indexType (VString s) (time_of ns)
| sh_float n f : SP_FieldType pro = FT_FLOAT -> num_float n = Some f -> shows pro indexType (VNumber n) (OFloat32 (Float32bits (to_float32 f)))
| sh_float_text s f : SP_FieldType pro = FT_FLOAT -> ToFloat32E s = Some f -> shows pro indexType (VString s) (OFloat32 (Float32bits f))
| sh_double n f : SP_FieldType pro = FT_DOUBLE -> num_float n = Some f -> shows pro indexType (VNumber n) (OFloat64 (Float64bits f))
| sh_double_text s f : SP_FieldType pro = FT_DOUBLE -> ToFloat64E s = Some f -> shows pro indexType (VString s) (OFloat64 (Float64bits f))
| sh_vector vs fs : SP_FieldType pro = FT_VECTOR -> indexType <> "BINARYIVF"%string -> Forall2 (fun v f => feature_float v = Some f /\ is_finite f = true) vs fs ->
    shows pro indexType (VArray vs) (OFloats ((fun f => Float32bits (to_float32 f)) <$> fs))
| sh_binary vs xs : SP_FieldType pro = FT_VECTOR -> indexType = "BINARYIVF"%string -> Forall2 (fun v x => feature_int v = Some x /\ 0 <= x <= 255) vs xs ->
    shows pro indexType (VArray vs) (OUint8s xs).

(** The value of a field as both replies show it. *)
Definition shown_value (pro : SpaceProperties) (indexType : string) (value : list Z) : go (option out_value) :=
  if is_vector_type pro then let! v := vector_value pro indexType value in Ret (Some v) else scalar_value pro value.

(** *** Strings *)

Lemma split_on_acc sep bs acc : sep ∉ bs -> split_on sep bs acc = [acc ++ bs].
Proof.
  revert acc. induction bs as [|b bs IH]; intros acc H; cbn [split_on]; [by rewrite app_nil_r|].
  apply not_elem_of_cons in H as [H1 H2]. destruct (b =? sep) eqn:E; [apply Z.eqb_eq in E; congruence|]. by rewrite IH, <- app_assoc.
Qed.

Lemma split_on_app sep bs rest acc : sep ∉ bs -> split_on sep (bs ++ sep :: rest) acc = (acc ++ bs) :: split_on sep rest [].
Proof.
  revert acc. induction bs as [|b bs IH]; intros acc H; cbn [split_on app]; [by rewrite Z.eqb_refl, app_nil_r|].
  apply not_elem_of_cons in H as [H1 H2]. destruct (b =? sep) eqn:E; [apply Z.eqb_eq in E; congruence|]. by rewrite IH, <- app_assoc.
Qed.

Lemma join_strings_split ix ss j : join_strings ix (VString <$> ss) = Ret j -> ss <> [] -> Forall (fun s => 1 ∉ bytes_of s) ss ->
  SplitBytes (bytes_of j) = bytes_of <$> ss.
Proof.
  unfold SplitBytes. revert j. induction ss as [|s ss IH]; intros j Hj Hne Hall; [done|]. apply Forall_cons in Hall as [Hs Hall].
  cbn [fmap list_fmap join_strings] in Hj. destruct (ix && _); [done|]. destruct (maxStrLen <? str_len s); [done|].
  apply obind_ret_inv in Hj as (rest & Hr & [= <-]). destruct ss as [|s' ss].
  - cbn [fmap list_fmap]. by apply split_on_acc.
  - cbn [fmap list_fmap]. rewrite bytes_of_app. change (bytes_of (String (ascii_of_nat 1) rest)) with (1 :: bytes_of rest).
    rewrite split_on_app by done. cbn [app]. f_equal. by apply IH.
Qed.

(** *** Vectors *)

(** A loop that checks each element and appends its image. *)
Lemma ofold_collect {A X B} (get : A -> option X) (ok : X -> bool) (out : X -> B) (e1 e2 : error) (vs : list A) (r : list B) :
  ofold (fun acc v => match get v with None => Fail e1 | Some x => if ok x then Ret (acc ++ [out x]) else Fail e2 end) [] vs = Ret r ->
  exists xs, Forall2 (fun v x => get v = Some x /\ ok x = true) vs xs /\ r = out <$> xs.
Proof.
  apply (ofold_inv _ (fun seen acc => exists xs, Forall2 (fun v x => get v = Some x /\ ok x = true) seen xs /\ acc = out <$> xs)).
  - by exists [].
  - intros seen v acc acc' (xs & Hxs & ->) H. destruct (get v) as [x|] eqn:Hv; [|done]. destruct (ok x) eqn:Hok; [|done]. injection H as <-.
    exists (xs ++ [x]). rewrite fmap_app. split; [|done]. apply Forall2_app; [done|]. by repeat constructor.
Qed.

Lemma vector_other_shown pro ix name vs f : SP_FieldType pro = FT_VECTOR -> ix <> "BINARYIVF"%string ->
  processPropertyObjectVectorOther vs name pro = Ret f -> exists o, shown_value pro ix (DF_Value f) = Ret (Some o) /\ shows pro ix (VArray vs) o.
Proof.
  intros Hty Hix (vec & Hvec & H%rewrap_ret)%obind_ret_inv. unfold processVector in H. rewrite Hty in H. destruct (_ && _); [done|]. injection H as <-.
  rewrite (ofold_ext _ (fun acc v => match feature_float v with
    | None => Fail (verr PARAM_ERROR "vector embedding can not to float 64 %v")
    | Some f => if is_finite f then Ret (acc ++ [Float32bits (to_float32 f)]) else Fail (verr PARAM_ERROR "vector embedding value index:[%d], err:[ %v] is nan or inf")
    end)) in Hvec by (intros ? v; destruct (feature_float v) as [x|]; [by destruct (is_finite x)|done]).
  apply (ofold_collect feature_float is_finite (fun f => Float32bits (to_float32 f))) in Hvec as (fs & Hfs & ->).
  exists (OFloats ((fun f => Float32bits (to_float32 f)) <$> fs)). split; [|by apply sh_vector].
  unfold shown_value, is_vector_type, vector_value. rewrite Hty, (proj2 (string_eqb_neq _ _) Hix). cbn [processField DF_Value].
  rewrite ByteToVectorForFloat32_VectorToByte; [done|]. apply Forall_fmap, Forall_true. intros x. apply (wrap_u_range 32). lia.
Qed.

Lemma vector_binary_shown pro name vs f : SP_FieldType pro = FT_VECTOR -> 0 < SP_Dimension pro ->
  processPropertyObjectVectorBinary vs name pro = Ret f ->
  exists o, shown_value pro "BINARYIVF" (DF_Value f) = Ret (Some o) /\ shows pro "BINARYIVF" (VArray vs) o.
Proof.
  intros Hty Hdim (vec & Hvec & H%rewrap_ret)%obind_ret_inv. unfold processVectorBinary in H. rewrite Hty in H.
  destruct (Z.ltb_spec 0 (SP_Dimension pro)); [|lia]. cbn [andb] in H. destruct (Z.eqb_spec (Z.quot (SP_Dimension pro) 8) (Z.of_nat (length vec))) as [Hlen|]; [|done].
  cbn [negb] in H. apply obind_ret_inv in H as (bs & Hbs & [= <-]). apply UInt8ArrayToByteArray_same in Hbs as ->.
  rewrite (ofold_ext _ (fun acc v => match feature_int v with
    | None => Fail (verr PARAM_ERROR "binary vector embedding can not to uint8 %v")
    | Some x => if negb ((x <? 0) || (255 <? x)) then Ret (acc ++ [u8 x]) else Fail (verr PARAM_ERROR "binary vector embedding value overflows constant: %v")
    end)) in Hvec by (intros ? v; destruct (feature_int v) as [x|]; [by destruct (_ || _)|done]).
  apply (ofold_collect feature_int (fun x => negb ((x <? 0) || (255 <? x))) u8) in Hvec as (xs & Hxs & ->).
  assert (Forall2 (fun v x => feature_int v = Some x /\ 0 <= x <= 255) vs xs) as Hxs'.
  { eapply Forall2_impl; [exact Hxs|]. intros v x [Hv Hx]. split; [done|]. lia. }
  assert (u8 <$> xs = xs) as E.
  { clear -Hxs'. induction Hxs' as [|v x ? ? [_ Hx] _ IH]; [done|]. cbn [fmap list_fmap]. f_equal; [apply wrap_u_id; unfold in_u; lia|exact IH]. }
  rewrite E in *. exists (OUint8s xs). split; [|by apply sh_binary].
  unfold shown_value, is_vector_type, vector_value. rewrite Hty. cbn [processField DF_Value]. change ("BINARYIVF" =?s "BINARYIVF") with true. cbv iota.
  unfold ByteToVectorBinary. cbv zeta. rewrite Hlen, Nat2Z.id, Nat.ltb_irrefl. destruct (Z.ltb_spec (Z.of_nat (length xs)) 0); [lia|].
  by rewrite firstn_all.
Qed.

(** *** Fields *)

Lemma Float32_read f : ByteToFloat32 (Float32ToByte (Float32bits f)) = Ret (Float32bits f).
Proof. unfold ByteToFloat32, Float32ToByte. rewrite le_read_bytes. f_equal. apply Z.mod_small, (wrap_u_range 32). lia. Qed.

Lemma Float64_read f : ByteToFloat64New (Float64ToByte (Float64bits f)) = Ret (Float64bits f).
Proof. unfold ByteToFloat64New, Float64ToByte. rewrite le_read_bytes. f_equal. apply Z.mod_small, (wrap_u_range 64). lia. Qed.

Lemma string_shown pro ix name s f : processString ToTimeE ToInt32E ToInt64E ToFloat32E ToFloat64E pro name s = Ret f ->
  exists o, shown_value pro ix (DF_Value f) = Ret (Some o) /\ shows pro ix (VString s) o.
Proof.
  unfold processString, shown_value, is_vector_type, scalar_value. intros H.
  destruct (SP_FieldType pro) eqn:Hty; try discriminate H.
  - destruct (ToInt32E s) as [i|] eqn:E; [|done]. injection H as <-. cbn [processField DF_Value]. rewrite Bytes2Int32_Int32ToByte by (by eapply cast_int32).
    eexists. split; [done|]. by apply sh_int_text.
  - destruct (ToInt64E s) as [i|] eqn:E; [|done]. injection H as <-. cbn [processField DF_Value]. rewrite Bytes2Int_Int64ToByte by (by eapply cast_int64).
    eexists. split; [done|]. by apply sh_long_text.
  - destruct (ToFloat32E s) as [x|] eqn:E; [|done]. injection H as <-. cbn [processField DF_Value]. rewrite Float32_read. eexists. split; [done|]. by apply sh_float_text.
  - destruct (ToFloat64E s) as [x|] eqn:E; [|done]. injection H as <-. cbn [processField DF_Value]. rewrite Float64_read. eexists. split; [done|]. by apply sh_double_text.
  - destruct (_ && _); [done|]. destruct (maxStrLen <? _); [done|]. injection H as <-. eexists. split; [done|]. by apply sh_string.
  - destruct (ToTimeE s) as [i|] eqn:E; [|done]. injection H as <-. cbn [processField DF_Value]. rewrite Bytes2Int_Int64ToByte by (by eapply cast_time).
    eexists. split; [done|]. by apply sh_date_text.
  - injection H as <-. eexists. split; [done|]. by apply sh_text.
Qed.

Lemma number_shown pro ix name n f : readable (VNumber n) -> processNumber pro name n = Ret f ->
  exists o, shown_value pro ix (DF_Value f) = Ret (Some o) /\ shows pro ix (VNumber n) o.
Proof.
  unfold processNumber, shown_value, is_vector_type, scalar_value. cbn [readable]. intros Hn H.
  destruct (SP_FieldType pro) eqn:Hty; try discriminate H; apply obind_ret_inv in H as (x & Hx & [= <-]); cbn [processField DF_Value].
  - destruct (num_int n) as [i|] eqn:E; [|done]. injection Hx as <-. rewrite Bytes2Int32_Int32ToByte by (apply wrap_s_range; lia).
    eexists. split; [done|]. by apply sh_int.
  - destruct (num_int n) as [i|] eqn:E; [|done]. injection Hx as <-. rewrite Bytes2Int_Int64ToByte by auto. eexists. split; [done|]. by apply sh_long.
  - destruct (num_float n) as [y|] eqn:E; [|done]. injection Hx as <-. rewrite Float32_read. eexists. split; [done|]. by apply sh_float.
  - destruct (num_float n) as [y|] eqn:E; [|done]. injection Hx as <-. change Float64ToByteNew with Float64ToByte. rewrite (Float64_read y).
    eexists. split; [done|]. by apply sh_double.
  - destruct (num_int n) as [i|] eqn:E; [|done]. injection Hx as <-. rewrite Bytes2Int_Int64ToByte by (apply wrap_s_range; lia).
    eexists. split; [done|]. by apply sh_date.
Qed.

Lemma join_strings_all ix vs j : join_strings ix vs = Ret j -> exists ss, vs = VString <$> ss.
Proof.
  revert j. induction vs as [|v vs IH]; intros j H; [by exists []|]. cbn [join_strings] in H. destruct v as [|s| | | |]; try done.
  destruct (ix && _); [done|]. destruct (maxStrLen <? _); [done|]. apply obind_ret_inv in H as (rest & Hr & _).
  destruct (IH _ Hr) as [ss ->]. by exists (s :: ss).
Qed.

Lemma array_shown pro ix name vs f : readable (VArray vs) -> (SP_FieldType pro = FT_VECTOR -> 0 < SP_Dimension pro) ->
  processPropertyArray ToTimeE ToInt32E ToInt64E ToFloat32E ToFloat64E vs name pro ix = Ret f ->
  exists o, shown_value pro ix (DF_Value f) = Ret (Some o) /\ shows pro ix (VArray vs) o.
Proof.
  unfold processPropertyArray. cbn [readable]. intros Hr Hdim H. destruct (SP_FieldType pro) eqn:Hty; try discriminate H.
  - destruct (length vs =? 0)%nat; [done|]. destruct (ix =?s "BINARYIVF") eqn:E.
    + apply string_eqb_eq in E as ->. by eapply vector_binary_shown; eauto.
    + apply string_eqb_neq in E. by eapply vector_other_shown.
  - apply obind_ret_inv in H as (j & Hj & H). destruct (join_strings_all _ _ _ Hj) as [ss ->]. destruct (Hr ss eq_refl) as [Hne Hok].
    unfold processString in H. rewrite Hty in H. injection H as <-. unfold shown_value, is_vector_type, scalar_value. rewrite Hty. cbn [processField DF_Value].
    rewrite (join_strings_split _ _ _ Hj Hne Hok). eexists. split; [done|]. by apply sh_strings.
Qed.

Lemma property_shown pro ix name v f : readable v -> SP_FieldType pro <> FT_BOOL -> (SP_FieldType pro = FT_VECTOR -> 0 < SP_Dimension pro) ->
  property name v ix pro = Ret (Some f) -> exists o, shown_value pro ix (DF_Value f) = Ret (Some o) /\ shows pro ix v o.
Proof.
  unfold processProperty. intros Hv Hb Hdim H. destruct (name =?s IDField); [done|].
  destruct v as [|s|n|b|kvs|vs]; try done; apply obind_ret_inv in H as (g & H & [= <-]).
  - by eapply string_shown.
  - by eapply number_shown.
  - unfold processBool in H. by destruct (SP_FieldType pro).
  - by eapply array_shown.
Qed.

(** *** Documents *)

Section Source.
Context (s : Space) (props : gmap string SpaceProperties).

(** A field of a result: the key of the document, or a value that can be shown. *)
Definition shown (f : DocField) (o : out_value) : Prop :=
  exists pro, props !! DF_Name f = Some pro /\ shown_value pro (index_type s (DF_Name f)) (DF_Value f) = Ret (Some o).

Lemma source_field_id st f : DF_Name f = IdField -> source_field s props st f = Ret (st.1, DF_Value f).
Proof. intros H. unfold source_field. by rewrite H. Qed.

Lemma source_field_shown st f o : DF_Name f <> IdField -> shown f o -> source_field s props st f = Ret (<[DF_Name f := o]> st.1, st.2).
Proof.
  intros Hn (pro & Hp & Hv). unfold source_field. rewrite (proj2 (string_eqb_neq _ _) Hn), Hp. unfold shown_value in Hv.
  destruct (is_vector_type pro); [|by rewrite Hv]. apply obind_ret_inv in Hv as (v & Hv & [= <-]). by rewrite Hv.
Qed.

Lemma source_run fs : NoDup (DF_Name <$> fs) -> (forall f, f ∈ fs -> DF_Name f <> IdField -> exists o, shown f o) ->
  exists st, ofold (source_field s props) (∅, []) fs = Ret st /\
    (forall f, f ∈ fs -> DF_Name f = IdField -> st.2 = DF_Value f) /\
    (forall f, f ∈ fs -> DF_Name f <> IdField -> exists o, shown f o /\ st.1 !! DF_Name f = Some o) /\
    (forall name, is_Some (st.1 !! name) -> exists f, f ∈ fs /\ DF_Name f = name /\ name <> IdField).
Proof.
  induction fs as [|f fs IH] using rev_ind; intros Hnd Hok.
  { eexists. split; [done|]. split_and!; [by intros ? ?%elem_of_nil..|]. intros name [o Ho]. cbn [fst] in Ho. by rewrite lookup_empty in Ho. }
  rewrite fmap_app in Hnd. apply NoDup_app in Hnd as (Hnd & Hf & _). cbn [fmap list_fmap] in Hf.
  destruct IH as (st & Hrun & Hid & Hsh & Hdom); [done|intros g Hg; apply Hok; set_solver|].
  assert (forall g, g ∈ fs -> DF_Name g <> DF_Name f) as Hfresh by (intros g Hg E; apply (Hf (DF_Name g)); [by apply list_elem_of_fmap_2|set_solver]).
  rewrite ofold_app, Hrun. cbn [obind ofold]. destruct (decide (DF_Name f = IdField)) as [E|E].
  - rewrite (source_field_id st f E). cbn [obind]. eexists. split; [done|]. cbn [fst snd]. split_and!.
    + intros g [Hg| ->%list_elem_of_singleton]%elem_of_app Hgn; [|done]. by destruct (Hfresh g Hg); rewrite Hgn.
    + intros g [Hg| ->%list_elem_of_singleton]%elem_of_app Hgn; [by apply Hsh|done].
    + intros name (g & Hg & ?)%Hdom. exists g. set_solver.
  - destruct (Hok f) as [o Ho]; [set_solver|done|]. rewrite (source_field_shown st f o E Ho). cbn [obind]. eexists. split; [done|]. cbn [fst snd]. split_and!.
    + intros g [Hg| ->%list_elem_of_singleton]%elem_of_app Hgn; [by apply Hid|done].
    + intros g [Hg| ->%list_elem_of_singleton]%elem_of_app Hgn; [|exists o; by rewrite lookup_insert_eq].
      destruct (Hsh g Hg Hgn) as (x & Hx & Hl). exists x. rewrite lookup_insert_ne by (by apply not_eq_sym, Hfresh). done.
    + intros name Hl. destruct (decide (DF_Name f = name)) as [<-|En]; [exists f; set_solver|].
      rewrite lookup_insert_ne in Hl by done. destruct (Hdom name Hl) as (g & Hg & ?). exists g. set_solver.
Qed.
End Source.

(** The key of a document, as a field of a result. *)
Definition key_field (key : string) : DocField := {| DF_Name := IdField; DF_Type := FT_STRING; DF_Value := bytes_of key; DF_Option := FO_Null |}.

(** Values that the properties of a space can show. *)
Definition showable (pro : SpaceProperties) : Prop := SP_FieldType pro <> FT_BOOL /\ (SP_FieldType pro = FT_VECTOR -> 0 < SP_Dimension pro).

Notation parse := (parseJSON ToTimeE ToInt32E ToInt64E ToFloat32E ToFloat64E).
Notation field_made := (field_of ToTimeE ToInt32E ToInt64E ToFloat32E ToFloat64E).

Lemma Forall2_impl_in {A B} (P Q : A -> B -> Prop) xs ys : Forall2 P xs ys -> (forall x y, x ∈ xs -> P x y -> Q x y) -> Forall2 Q xs ys.
Proof. induction 1 as [|x y xs ys H _ IH]; intros HPQ; constructor; [apply HPQ; [left|done]|apply IH; intros; apply HPQ; [by right|done]]. Qed.

(** The fields made of a document, each with the name and the value it is made of. *)
Lemma fields_shown s props kvs (fields : list DocField) :
  Forall2 (field_made s props) (filter (fun kv => kv.1 <> IDField) kvs) (Some <$> fields) ->
  (forall name v pro, (name, v) ∈ kvs -> props !! name = Some pro -> readable v /\ showable pro) ->
  Forall2 (fun kv f => DF_Name f = kv.1 /\ exists pro o, props !! kv.1 = Some pro /\ shown s props f o /\ shows pro (index_type s kv.1) kv.2 o)
    (filter (fun kv => kv.1 <> IDField) kvs) fields.
Proof.
  intros HF Hok. apply (Forall2_fmap_r Some) in HF. eapply Forall2_impl_in; [exact HF|]. intros [name v] f Hin (pro & Hp & Hf). cbn [fst snd] in *.
  apply list_elem_of_filter in Hin as [_ Hin]. destruct (Hok name v pro Hin Hp) as [Hr [Hb Hd]].
  pose proof (processProperty_typed _ _ _ _ _ _ _ _ _ _ Hf) as [Hn _]. split; [done|].
  destruct (property_shown pro _ name v f Hr Hb Hd Hf) as (o & Ho & Hs). exists pro, o. split; [done|]. split; [|done].
  exists pro. by rewrite Hn.
Qed.

Lemma Forall2_elem_r {A B} (P : A -> B -> Prop) xs ys y : Forall2 P xs ys -> y ∈ ys -> exists x, x ∈ xs /\ P x y.
Proof. induction 1 as [|x z xs ys H _ IH]; [by intros ?%elem_of_nil|]. intros [->|Hy]%elem_of_cons; [exists x; set_solver|]. destruct (IH Hy) as (w & ? & ?). exists w. set_solver. Qed.

Lemma Forall2_elem_l {A B} (P : A -> B -> Prop) xs ys x : Forall2 P xs ys -> x ∈ xs -> exists y, y ∈ ys /\ P x y.
Proof. intros H%Forall2_flip. by apply (Forall2_elem_r (flip P)). Qed.

Lemma NoDup_fst_filter {A B} (P : A * B -> Prop) `{!forall x, Decision (P x)} (l : list (A * B)) : NoDup l.*1 -> NoDup (filter P l).*1.
Proof.
  induction l as [|x l IH]; [done|]. cbn [fmap list_fmap]. intros [Hx Hl]%NoDup_cons. rewrite filter_cons. destruct (decide (P x)); [|auto].
  cbn [fmap list_fmap]. constructor; [|auto]. intros (y & Hy & [_ Hin]%list_elem_of_filter)%list_elem_of_fmap. apply Hx. rewrite Hy. by apply list_elem_of_fmap_2.
Qed.

(** What is stored is what is shown.  Let a document be accepted, with distinct names, no boolean field, vectors of a declared dimension, and no empty
    array of strings or string with the byte 1 in an array.  If the fields that come back for it are its key and the fields made from it, in
    any order, then a query and a search show the key and every value of the document (as wide as the field is), and nothing else but the score.  (C5) *)
Theorem stored_document_shown s props kvs fields hv key item search :
  parse (VObject kvs) s props = Ret (Some <$> fields, hv) ->
  NoDup kvs.*1 ->
  (forall name v pro, (name, v) ∈ kvs -> props !! name = Some pro -> readable v /\ showable pro) ->
  RI_Fields item ≡ₚ key_field key :: fields ->
  exists source, GetDocSource s props item search = Ret source /\
    source !! IdField = Some (OString (bytes_of key)) /\
    (forall name v, (name, v) ∈ kvs -> name <> IdField -> name <> ScoreField ->
       exists pro o, props !! name = Some pro /\ source !! name = Some o /\ shows pro (index_type s name) v o) /\
    (forall name, is_Some (source !! name) -> name = IdField \/ (search = true /\ name = ScoreField) \/ name ∈ kvs.*1).
Proof.
  intros (kvs' & [= <-] & HF & _)%(parseJSON_fields _ _ _ _ _ 0 (fun _ => false) (fun _ => Ret [])) Hnd Hok Hperm. pose proof (fields_shown _ _ _ _ HF Hok) as HS. clear HF Hok.
  assert (DF_Name <$> fields = (filter (fun kv => kv.1 <> IDField) kvs).*1) as Hnames.
  { clear -HS. induction HS as [|kv f ? ? [Hn _] _ IH]; [done|]. cbn [fmap list_fmap]. by rewrite Hn, IH. }
  assert (NoDup (DF_Name <$> RI_Fields item)) as Hnd'.
  { rewrite Hperm. cbn [fmap list_fmap key_field DF_Name]. rewrite Hnames. constructor.
    - intros (kv & Hkv & [? _]%list_elem_of_filter)%list_elem_of_fmap. done.
    - by apply NoDup_fst_filter. }
  assert (forall f, f ∈ fields -> DF_Name f <> IdField /\ DF_Name f ∈ kvs.*1 /\ exists o, shown s props f o) as Hfields.
  { intros f Hf. destruct (Forall2_elem_r _ _ _ _ HS Hf) as ([name v] & [Hne Hkv]%list_elem_of_filter & Hn & pro & o & _ & Ho & _). cbn [fst] in *.
    rewrite Hn at 1 2. split; [done|]. split; [by apply (list_elem_of_fmap_2 fst _ (name, v))|by exists o]. }
  destruct (source_run s props (RI_Fields item) Hnd') as (st & Hrun & Hid & Hsh & Hdom).
  { intros f Hf Hn. rewrite Hperm in Hf. apply elem_of_cons in Hf as [->|Hf]; [done|]. by apply Hfields. }
  unfold GetDocSource. rewrite Hrun. cbn [obind]. rewrite (Hid (key_field key)) by (rewrite ?Hperm; by constructor || done). cbn [key_field DF_Value].
  eexists. split; [reflexivity|]. split_and!.
  - destruct search; [rewrite lookup_insert_ne by done|]; by rewrite lookup_insert_eq.
  - intros name v Hkv Hne Hns. destruct (Forall2_elem_l _ _ _ (name, v) HS) as (f & Hf & Hn & pro & o & Hp & Ho & Hsw); [by apply list_elem_of_filter|].
    cbn [fst snd] in *. exists pro, o. split; [done|]. split; [|done]. destruct (Hsh f) as (o' & (pro' & Hp' & Ho') & Hl); [rewrite Hperm; by right|by rewrite Hn|].
    destruct Ho as (pro'' & Hp'' & Ho). rewrite Hn in *. assert (o' = o) as -> by congruence.
    destruct search; rewrite !lookup_insert_ne by done; done.
  - intros name Hl. destruct (decide (name = IdField)) as [|Hi]; [by left|]. right.
    destruct search; [destruct (decide (name = ScoreField)) as [|Hs]; [by left|]; rewrite lookup_insert_ne in Hl by done|];
      rewrite lookup_insert_ne in Hl by done; destruct (Hdom name Hl) as (f & Hf & <- & _); right; rewrite Hperm in Hf;
      apply elem_of_cons in Hf as [->|Hf]; try done; by apply Hfields.
Qed.

(** *** Boolean fields *)

Lemma ofold_meets_panic {E A B} (f : B -> A -> outcome E B) b xs x p r : x ∈ xs -> (forall b, f b x = Panic p) -> ofold f b xs <> Ret r.
Proof.
  intros Hx Hp. revert b. induction xs as [|y xs IH]; [by apply elem_of_nil in Hx|]. intros b H. cbn [ofold] in H. apply obind_ret_inv in H as (b' & H1 & H2).
  apply elem_of_cons in Hx as [->|Hx]; [by rewrite Hp in H1|by eapply IH].
Qed.

(** A boolean is stored in four bytes and read in eight: no document with a boolean field can be shown.  Whatever an upsert stores for a boolean field,
    a result that has it makes the reply of a query, of a search and of a get of all fields panic. *)
Theorem bool_field_panics s props name v pro f :
  props !! name = Some pro -> SP_FieldType pro = FT_BOOL ->
  property name v (index_type s name) pro = Ret (Some f) ->
  (exists b, v = VBool b) /\
  (forall st, source_field s props st f = Panic IndexRange) /\
  (forall item search source, f ∈ RI_Fields item -> GetDocSource s props item search <> Ret source) /\
  (forall vectorValue out, DocFieldSerialize s props [f] ∅ vectorValue out = Panic IndexRange).
Proof.
  intros Hp Hty Hf. pose proof (processProperty_typed _ _ _ _ _ _ _ _ _ _ Hf) as (Hn & _ & _ & Hval). unfold processProperty in Hf.
  destruct (name =?s IDField) eqn:Hid; [done|]. unfold value_ok in Hval. rewrite Hty in Hval.
  assert (exists b, v = VBool b) as Hb.
  { destruct v as [|x|n|b|kvs|vs]; try done; [| |by exists b|]; apply obind_ret_inv in Hf as (g & Hf & _).
    - unfold processString in Hf. by rewrite Hty in Hf.
    - unfold processNumber in Hf. by rewrite Hty in Hf.
    - unfold processPropertyArray in Hf. by rewrite Hty in Hf. }
  assert (scalar_value pro (DF_Value f) = Panic IndexRange) as Hpanic.
  { unfold scalar_value. rewrite Hty. unfold Bytes2Int, le_read. by rewrite Hval. }
  assert (forall st, source_field s props st f = Panic IndexRange) as Hsrc.
  { intros st. unfold source_field. rewrite Hn. change IdField with IDField. rewrite Hid, Hp. unfold is_vector_type. by rewrite Hty, Hpanic. }
  split_and!; [done|done| |].
  - intros item search source Hin H. unfold GetDocSource in H. apply obind_ret_inv in H as (st & H & _). by eapply ofold_meets_panic in H.
  - intros vv out. unfold DocFieldSerialize. cbn [ofold]. unfold serialize_field. cbn [se_err]. rewrite Hn. change IdField with IDField. rewrite Hid.
    cbn [andb]. unfold wanted. rewrite map_size_empty, orb_true_r, Hp. unfold is_vector_type. by rewrite Hty, Hpanic.
Qed.
End RoundTrip.

(** *** An example: a document with an integer and an array of strings *)

#[export] Instance no_casts : Casts no_parse no_parse no_parse.
Proof. by constructor. Qed.

Definition shown_prop (ty : FieldType) (dim : Z) : SpaceProperties :=
  {| SP_FieldType := ty; SP_Type := ""; SP_Index := None; SP_Format := None; SP_Dimension := dim; SP_StoreType := None; SP_StoreParam := ""; SP_Option := FO_Null |}.
Definition shown_props : gmap string SpaceProperties :=
  {["age" := shown_prop FT_INT 0; "tags" := shown_prop FT_STRINGARRAY 0; "ok" := shown_prop FT_BOOL 0]}.
Definition shown_kvs : list (string * jvalue) :=
  [("_id", VString "k"); ("age", VNumber (int_number 300)); ("tags", VArray [VString "a"; VString "bc"])]%string.
Definition shown_fields : list DocField :=
  [{| DF_Name := "age"; DF_Type := FT_INT; DF_Value := [44; 1; 0; 0]; DF_Option := FO_Null |};
   {| DF_Name := "tags"; DF_Type := FT_STRINGARRAY; DF_Value := [97; 1; 98; 99]; DF_Option := FO_Null |}].
Definition shown_item : ResultItem := {| RI_Fields := shown_fields ++ [key_field "k"]; RI_Score := 0 |}.

Lemma stored_document_shown_witness :
  exists source, GetDocSource demo_doc_space shown_props shown_item true = Ret source /\ source !! IdField = Some (OString [107]) /\
    source !! "age"%string = Some (OInt 300) /\ source !! "tags"%string = Some (OStrings [[97]; [98; 99]]).
Proof.
  destruct (stored_document_shown no_parse no_parse no_parse no_parse no_parse demo_doc_space shown_props shown_kvs shown_fields 0 "k" shown_item true)
    as (source & H & Hid & Hall & _).
  - vm_compute. reflexivity.
  - by apply (bool_decide_unpack _).
  - intros name v pro Hin Hp. repeat apply elem_of_cons in Hin as [[= -> ->]|Hin]; [| | |by apply elem_of_nil in Hin].
    + vm_compute in Hp. discriminate Hp.
    + vm_compute in Hp. injection Hp as <-. split; [intros i [= <-]; unfold in_s; lia|]. split; [discriminate|discriminate].
    + vm_compute in Hp. injection Hp as <-. split; [|split; [discriminate|discriminate]].
      intros [|a [|b [|c ss]]] Hss; try discriminate Hss. injection Hss as <- <-. split; [discriminate|].
      repeat constructor; by apply (bool_decide_unpack _).
  - unfold shown_item. cbn [RI_Fields]. symmetry. apply Permutation_cons_append.
  - exists source. split; [exact H|]. split; [exact Hid|].
    destruct (Hall "age"%string (VNumber (int_number 300))) as (pro & o & Hp & Ho & Hs); [right; left|discriminate|discriminate|].
    destruct (Hall "tags"%string (VArray [VString "a"; VString "bc"])) as (pro' & o' & Hp' & Ho' & Hs'); [right; right; left|discriminate|discriminate|].
    vm_compute in Hp, Hp'. injection Hp as <-. injection Hp' as <-. rewrite Ho, Ho'. split.
    + inversion Hs; subst; try discriminate. match goal with E : num_int _ = Some _ |- _ => injection E as <- end. reflexivity.
    + inversion Hs' as [| |ss Hty Hne Hss Heq| | | | | | | | | | | |]; subst; try discriminate.
      destruct ss as [|x [|y [|z ss]]]; try discriminate Heq. injection Heq as -> ->. reflexivity.
Defined.

Lemma bool_field_panics_witness :
  exists f, processProperty no_parse no_parse no_parse no_parse no_parse "ok" (VBool true) "" (shown_prop FT_BOOL 0) = Ret (Some f) /\
    forall st, source_field demo_doc_space shown_props st f = Panic IndexRange.
Proof.
  eexists. split; [reflexivity|].
  refine (proj1 (proj2 (bool_field_panics no_parse no_parse no_parse no_parse no_parse demo_doc_space shown_props "ok" (VBool true) (shown_prop FT_BOOL 0) _ _ _ _)));
    vm_compute; reflexivity.
Defined.
