(* ===== verification/Filters.v ===== *)
(** * Filters of queries and searches (internal/router/document/doc_query.go)

    [parseFilter] turns the conditions of a request ([age > 3], [name IN ...])
    into the range and term filters the engine evaluates.  Conditions are
    grouped by field; for every field the numeric ones are folded into an
    interval (AND) or into a union of intervals (OR) and encoded as bytes.

    The code repeats the fold for five field types.  Here it is written once
    over a record [range_type] of the Go type's operations, with one instance
    per [case] of the source, and the laws the proofs need are a class that
    every instance satisfies.  JSON decoding and the [cast] package are
    parameters. *)

From Stdlib Require Import SpecFloat.
From S2P Require Import Prelude.
From S2P Require Import Text.
From S2P Require Import Errors.
From S2P Require Import Schema.
From S2P Require Import Partition.
From S2P Require Import Bytes.
From S2P Require Import Floats.
From S2P Require Import SortOrder.
Open Scope Z_scope.

(** ** Requests and filters *)

(** [request.Condition] and [request.Filter]; [Value] is raw JSON. *)
Record Condition : Set := { C_Operator : string; C_Field : string; C_Value : string }.
Record Filter : Set := { Fl_Operator : string; Fl_Conditions : list Condition }.

Definition ConditionOperatorIN : Z := 1.
Definition ConditionOperatorNOTIN : Z := 2.
Definition FilterOperatorAnd : Z := 0.
Definition FilterOperatorOr : Z := 1.

(** [vearchpb.RangeFilter] and [vearchpb.TermFilter] *)
Record RangeFilter : Set := {
  RF_Field : string;
  RF_LowerValue : list Z;
  RF_UpperValue : list Z;
  RF_IncludeLower : bool;
  RF_IncludeUpper : bool;
  RF_IsUnion : Z
}.

Record TermFilter : Set := { TF_Field : string; TF_Value : list Z; TF_IsUnion : Z }.

(** The struct [Term]. *)
Record Term : Set := { T_Value : string; T_Operator : Z }.

(** The part of [entity.Space] the parser reads; [SpaceProperties] may be nil. *)
Record RSpace : Type := {
  RS_Fields : string;
  RS_SpaceProperties : option (gmap string SpaceProperties);
  RS_Indexes : list Index;
  RS_PartitionRule : option PartitionRule
}.

(** The dynamic values handed to [ValueToByte]. *)
Inductive any : Type :=
| ANil
| AInt32 (z : Z)
| AInt64 (z : Z)
| AFloat32 (f : float)
| AFloat64 (f : float).

(** [binary.Write] of one value; on a nil interface it fails to find the size
    and then asks the nil type for its name. *)
Definition ValueToByte (v : any) : go (list Z) :=
  match v with
  | ANil => Panic NilDeref
  | AInt32 z => Ret (Int32ToByte z)
  | AInt64 z => Ret (Int64ToByte z)
  | AFloat32 f => Ret (Float32ToByte (Float32bits f))
  | AFloat64 f => Ret (Float64ToByte (Float64bits f))
  end.

(** A filter is built from the shared [rangeFilter] object, which is copied. *)
Definition addRangeFilter (min max : any) (rangeFilter : RangeFilter) (rangeFilters : list RangeFilter)
  : go (list RangeFilter) :=
  let! minByte := ValueToByte min in
  let! maxByte := ValueToByte max in
  if bool_decide (minByte = []) || bool_decide (maxByte = [])
  then Fail (verr PARAM_ERROR "range filter param is null or have not gte lte")
  else Ret (rangeFilters ++
    [{| RF_Field := RF_Field rangeFilter; RF_LowerValue := minByte; RF_UpperValue := maxByte;
        RF_IncludeLower := RF_IncludeLower rangeFilter; RF_IncludeUpper := RF_IncludeUpper rangeFilter;
        RF_IsUnion := RF_IsUnion rangeFilter |}]).

Definition new_rangeFilter (field : string) : RangeFilter :=
  {| RF_Field := field; RF_LowerValue := []; RF_UpperValue := [];
     RF_IncludeLower := true; RF_IncludeUpper := true; RF_IsUnion := 0 |}.

Definition set_IsUnion (u : Z) (f : RangeFilter) : RangeFilter :=
  {| RF_Field := RF_Field f; RF_LowerValue := RF_LowerValue f; RF_UpperValue := RF_UpperValue f;
     RF_IncludeLower := RF_IncludeLower f; RF_IncludeUpper := RF_IncludeUpper f; RF_IsUnion := u |}.

Definition set_Include (lower upper : bool) (f : RangeFilter) : RangeFilter :=
  {| RF_Field := RF_Field f; RF_LowerValue := RF_LowerValue f; RF_UpperValue := RF_UpperValue f;
     RF_IncludeLower := lower; RF_IncludeUpper := upper; RF_IsUnion := RF_IsUnion f |}.

(** ** The fold of the conditions on one field *)

(** What a [case] of the switch on the field type fixes: the comparisons of the
    Go type, its extreme constants, the zero value of [curNum] and how a raw
    value is read into [curNum]. *)
Record range_type (T : Type) : Type := {
  rt_ltb : T -> T -> bool;
  rt_leb : T -> T -> bool;
  rt_eqb : T -> T -> bool;
  rt_lo : T;
  rt_hi : T;
  rt_zero : T;
  rt_any : T -> any;
  rt_scan : string -> T -> go T
}.
Arguments rt_ltb {T}. Arguments rt_leb {T}. Arguments rt_eqb {T}. Arguments rt_lo {T}. Arguments rt_hi {T}.
Arguments rt_zero {T}. Arguments rt_any {T}. Arguments rt_scan {T}.

Section Folds.
Context {T : Type} (rt : range_type T).
Notation "x <.? y" := (rt_ltb rt x y) (at level 70).
Notation "x <=.? y" := (rt_leb rt x y) (at level 70).
Notation "x =.? y" := (rt_eqb rt x y) (at level 70).
Notation add min max rf rfs := (addRangeFilter (rt_any rt min) (rt_any rt max) rf rfs).

(** The variables of the OR loop. *)
Record or_state : Type := {
  o_leftMax : T; o_leftMaxInclusive : bool;
  o_rightMin : T; o_rightMinInclusive : bool;
  o_equals : list T; o_curNum : T;
  o_rangeFilter : RangeFilter; o_rangeFilters : list RangeFilter
}.

Definition o_right (v : T) (incl : bool) (st : or_state) : or_state :=
  {| o_leftMax := o_leftMax st; o_leftMaxInclusive := o_leftMaxInclusive st;
     o_rightMin := v; o_rightMinInclusive := incl; o_equals := o_equals st; o_curNum := o_curNum st;
     o_rangeFilter := o_rangeFilter st; o_rangeFilters := o_rangeFilters st |}.
Definition o_left (v : T) (incl : bool) (st : or_state) : or_state :=
  {| o_leftMax := v; o_leftMaxInclusive := incl;
     o_rightMin := o_rightMin st; o_rightMinInclusive := o_rightMinInclusive st;
     o_equals := o_equals st; o_curNum := o_curNum st;
     o_rangeFilter := o_rangeFilter st; o_rangeFilters := o_rangeFilters st |}.
Definition o_eq (v : T) (st : or_state) : or_state :=
  {| o_leftMax := o_leftMax st; o_leftMaxInclusive := o_leftMaxInclusive st;
     o_rightMin := o_rightMin st; o_rightMinInclusive := o_rightMinInclusive st;
     o_equals := o_equals st ++ [v]; o_curNum := o_curNum st;
     o_rangeFilter := o_rangeFilter st; o_rangeFilters := o_rangeFilters st |}.
Definition o_filters (rf : RangeFilter) (rfs : list RangeFilter) (st : or_state) : or_state :=
  {| o_leftMax := o_leftMax st; o_leftMaxInclusive := o_leftMaxInclusive st;
     o_rightMin := o_rightMin st; o_rightMinInclusive := o_rightMinInclusive st;
     o_equals := o_equals st; o_curNum := o_curNum st;
     o_rangeFilter := rf; o_rangeFilters := rfs |}.
Definition o_cur (v : T) (st : or_state) : or_state :=
  {| o_leftMax := o_leftMax st; o_leftMaxInclusive := o_leftMaxInclusive st;
     o_rightMin := o_rightMin st; o_rightMinInclusive := o_rightMinInclusive st;
     o_equals := o_equals st; o_curNum := v;
     o_rangeFilter := o_rangeFilter st; o_rangeFilters := o_rangeFilters st |}.

(** [switch rc.Operator] of the OR loop. *)
Definition or_switch (op : string) (curNum : T) (st : or_state) : go or_state :=
  if op =?s ">=" then
    Ret (if curNum <=.? o_rightMin st then o_right curNum true st else st)
  else if op =?s ">" then
    Ret (if curNum <.? o_rightMin st then o_right curNum false st else st)
  else if op =?s "=" then Ret (o_eq curNum st)
  else if op =?s "<=" then
    Ret (if o_leftMax st <=.? curNum then o_left curNum true st else st)
  else if op =?s "<" then
    Ret (if o_leftMax st <.? curNum then o_left curNum false st else st)
  else if (op =?s "<>") || (op =?s "!=") then
    let rf := set_IsUnion ConditionOperatorNOTIN (o_rangeFilter st) in
    let! rfs := add curNum curNum rf (o_rangeFilters st) in
    Ret (o_filters rf rfs st)
  else Ret st.

Definition or_step (st : or_state) (rc : Condition) : go or_state :=
  let! curNum := rt_scan rt (C_Value rc) (o_curNum st) in
  or_switch (C_Operator rc) curNum (o_cur curNum st).

(** [for _, eqval := range equals] *)
Definition or_equal (st : or_state) (eqval : T) : go or_state :=
  if (eqval <.? o_leftMax st) || (o_rightMin st <.? eqval) then Ret st
  else if eqval =.? o_leftMax st then Ret (o_left (o_leftMax st) true st)
  else if eqval =.? o_rightMin st then Ret (o_right (o_rightMin st) true st)
  else
    let! rfs := add eqval eqval (o_rangeFilter st) (o_rangeFilters st) in
    Ret (o_filters (o_rangeFilter st) rfs st).

(** The intervals left over: everything, or the left and the right part. *)
Definition or_finish (st : or_state) : go (list RangeFilter) :=
  let rf := o_rangeFilter st in
  if (o_rightMin st <.? o_leftMax st) ||
     ((o_leftMax st =.? o_rightMin st) && (o_leftMaxInclusive st || o_rightMinInclusive st))
  then add (rt_lo rt) (rt_hi rt) rf (o_rangeFilters st)
  else
    let! rfs :=
      (if (rt_lo rt <.? o_leftMax st) || o_leftMaxInclusive st
       then add (rt_lo rt) (o_leftMax st) (set_Include true (o_leftMaxInclusive st) rf) (o_rangeFilters st)
       else Ret (o_rangeFilters st)) in
    if (o_rightMin st <.? rt_hi rt) || o_rightMinInclusive st
    then add (o_rightMin st) (rt_hi rt) (set_Include (o_rightMinInclusive st) true rf) rfs
    else Ret rfs.

Definition or_init (field : string) : or_state :=
  {| o_leftMax := rt_lo rt; o_leftMaxInclusive := false;
     o_rightMin := rt_hi rt; o_rightMinInclusive := false;
     o_equals := []; o_curNum := rt_zero rt;
     o_rangeFilter := new_rangeFilter field; o_rangeFilters := [] |}.

Definition or_case (field : string) (rangeCondition : list Condition) : go (list RangeFilter) :=
  let! st := ofold or_step (or_init field) rangeCondition in
  let st := o_filters (set_IsUnion ConditionOperatorIN (o_rangeFilter st)) (o_rangeFilters st) st in
  let! st := ofold or_equal st (o_equals st) in
  or_finish st.

(** The variables of the AND loop. *)
Record and_state : Type := {
  a_minNum : T; a_minInclusive : bool;
  a_maxNum : T; a_maxInclusive : bool;
  a_curNum : T;
  a_rangeFilter : RangeFilter; a_rangeFilters : list RangeFilter
}.

Definition a_min (v : T) (incl : bool) (st : and_state) : and_state :=
  {| a_minNum := v; a_minInclusive := incl; a_maxNum := a_maxNum st; a_maxInclusive := a_maxInclusive st;
     a_curNum := a_curNum st; a_rangeFilter := a_rangeFilter st; a_rangeFilters := a_rangeFilters st |}.
Definition a_max (v : T) (incl : bool) (st : and_state) : and_state :=
  {| a_minNum := a_minNum st; a_minInclusive := a_minInclusive st; a_maxNum := v; a_maxInclusive := incl;
     a_curNum := a_curNum st; a_rangeFilter := a_rangeFilter st; a_rangeFilters := a_rangeFilters st |}.
Definition a_cur (v : T) (st : and_state) : and_state :=
  {| a_minNum := a_minNum st; a_minInclusive := a_minInclusive st;
     a_maxNum := a_maxNum st; a_maxInclusive := a_maxInclusive st;
     a_curNum := v; a_rangeFilter := a_rangeFilter st; a_rangeFilters := a_rangeFilters st |}.
Definition a_filters (rf : RangeFilter) (rfs : list RangeFilter) (st : and_state) : and_state :=
  {| a_minNum := a_minNum st; a_minInclusive := a_minInclusive st;
     a_maxNum := a_maxNum st; a_maxInclusive := a_maxInclusive st;
     a_curNum := a_curNum st; a_rangeFilter := rf; a_rangeFilters := rfs |}.

(** [if curNum > minNum { ... }] and its three variants. *)
Definition raise_min (v : T) (st : and_state) : and_state := if a_minNum st <.? v then a_min v true st else st.
Definition lower_max (v : T) (st : and_state) : and_state := if v <.? a_maxNum st then a_max v true st else st.

Definition and_switch (op : string) (curNum : T) (st : and_state) : go and_state :=
  if op =?s ">=" then Ret (raise_min curNum st)
  else if op =?s ">" then Ret (if a_minNum st <=.? curNum then a_min curNum false st else st)
  else if op =?s "=" then Ret (lower_max curNum (raise_min curNum st))
  else if op =?s "<=" then Ret (lower_max curNum st)
  else if op =?s "<" then Ret (if curNum <=.? a_maxNum st then a_max curNum false st else st)
  else if (op =?s "<>") || (op =?s "!=") then
    let rf := set_IsUnion ConditionOperatorNOTIN (a_rangeFilter st) in
    let! rfs := add curNum curNum rf (a_rangeFilters st) in
    Ret (a_filters rf rfs st)
  else Ret st.

Definition and_step (st : and_state) (rc : Condition) : go and_state :=
  let! curNum := rt_scan rt (C_Value rc) (a_curNum st) in
  and_switch (C_Operator rc) curNum (a_cur curNum st).

Definition and_init (field : string) : and_state :=
  {| a_minNum := rt_lo rt; a_minInclusive := true; a_maxNum := rt_hi rt; a_maxInclusive := true;
     a_curNum := rt_zero rt; a_rangeFilter := new_rangeFilter field; a_rangeFilters := [] |}.

(** The [case] of the AND switch and what follows it: the early return when only
    inequalities were given, else one more filter for the interval. *)
Definition and_finish (st : and_state) : go (list RangeFilter) :=
  if negb (bool_decide (a_rangeFilters st = [])) && (a_minNum st =.? rt_lo rt) && (a_maxNum st =.? rt_hi rt)
     && a_minInclusive st && a_maxInclusive st
  then Ret (a_rangeFilters st)
  else add (a_minNum st) (a_maxNum st)
         (set_Include (a_minInclusive st) (a_maxInclusive st)
            (set_IsUnion ConditionOperatorIN (a_rangeFilter st))) (a_rangeFilters st).

Definition and_case (field : string) (rangeCondition : list Condition) : go (list RangeFilter) :=
  let! st := ofold and_step (and_init field) rangeCondition in
  and_finish st.
End Folds.

(** ** The cases of the two switches *)

Definition fleb (x y : float) : bool := SFleb x y.
Definition MaxFloat32 : float := S754_finite false 16777215 104.
Definition MaxFloat64 : float := S754_finite false 9007199254740991 971.

Section Parse.
(** [vjson.Unmarshal] into a number: [Ret None] is a JSON null, which leaves the
    variable as it was. *)
Context (unmarshal_int32 unmarshal_int64 : string -> go (option Z)).
Context (unmarshal_float32 unmarshal_float64 : string -> go (option float)).
(** [json.Unmarshal] into a string and into a [[]string]; [vjson.Unmarshal] into
    an [any]; the [cast] package. *)
Context (unmarshal_string : string -> go string) (unmarshal_strings : string -> go (list string)).
Context (unmarshal_any : string -> go json).
Context (ToTimeE : string -> option Z) (ToString : json -> string) (ToString_raw : string -> string).
Context (unmarshal_fields : string -> go (list Field)).
(** The iteration order of a Go map. *)
Context (range_map : forall A, gmap string A -> list (string * A)).

Definition scan {A} (unmarshal : string -> go (option A)) (msg raw : string) (curNum : A) : go A :=
  match unmarshal raw with
  | Ret o => Ret (default curNum o)
  | Fail _ => Fail (verr PARAM_ERROR msg)
  | Panic p => Panic p
  end.

(** A date: seconds as a number, or a string [cast.ToTimeE] understands. *)
Definition scan_date (raw : string) (curNum : Z) : go Z :=
  match unmarshal_int64 raw with
  | Ret o => Ret (i64 (default curNum o * 1000000000))
  | Panic p => Panic p
  | Fail _ =>
    match unmarshal_string raw with
    | Panic p => Panic p
    | Fail _ => Fail (verr PARAM_ERROR "date %s Unmarshal err %s")
    | Ret dateStr =>
      match ToTimeE dateStr with
      | None => Fail (verr PARAM_ERROR "date %s Unmarshal err %s")
      | Some ns => Ret ns
      end
    end
  end.

Definition int32_range : range_type Z :=
  {| rt_ltb := Z.ltb; rt_leb := Z.leb; rt_eqb := Z.eqb; rt_lo := - 2 ^ 31; rt_hi := 2 ^ 31 - 1; rt_zero := 0;
     rt_any := AInt32; rt_scan := scan unmarshal_int32 "INT %s Unmarshal err %s" |}.
Definition int64_range : range_type Z :=
  {| rt_ltb := Z.ltb; rt_leb := Z.leb; rt_eqb := Z.eqb; rt_lo := - 2 ^ 63; rt_hi := 2 ^ 63 - 1; rt_zero := 0;
     rt_any := AInt64; rt_scan := scan unmarshal_int64 "LONG %s Unmarshal err %s" |}.
Definition date_range : range_type Z :=
  {| rt_ltb := Z.ltb; rt_leb := Z.leb; rt_eqb := Z.eqb; rt_lo := - 2 ^ 63; rt_hi := 2 ^ 63 - 1; rt_zero := 0;
     rt_any := AInt64; rt_scan := scan_date |}.
Definition float32_range : range_type float :=
  {| rt_ltb := fltb; rt_leb := fleb; rt_eqb := feqb; rt_lo := SFopp MaxFloat32; rt_hi := MaxFloat32;
     rt_zero := S754_zero false; rt_any := AFloat32;
     rt_scan := scan unmarshal_float32 "FLOAT %s Unmarshal err %s" |}.
Definition float64_range : range_type float :=
  {| rt_ltb := fltb; rt_leb := fleb; rt_eqb := feqb; rt_lo := SFopp MaxFloat64; rt_hi := MaxFloat64;
     rt_zero := S754_zero false; rt_any := AFloat64;
     rt_scan := scan unmarshal_float64 "FLOAT64 %s Unmarshal err %s" |}.

Definition or_INT := or_case int32_range.
Definition or_LONG := or_case int64_range.
Definition or_FLOAT := or_case float32_range.
Definition or_DOUBLE := or_case float64_range.
Definition or_DATE := or_case date_range.
Definition and_INT := and_case int32_range.
Definition and_LONG := and_case int64_range.
Definition and_FLOAT := and_case float32_range.
Definition and_DOUBLE := and_case float64_range.
Definition and_DATE := and_case date_range.

(** A type without a case falls through the switch. *)
Definition parseRangeForOr (rangeCondition : list Condition) (docField : SpaceProperties) (field : string)
  : go (list RangeFilter) :=
  match SP_FieldType docField with
  | FT_INT => or_INT field rangeCondition
  | FT_LONG => or_LONG field rangeCondition
  | FT_FLOAT => or_FLOAT field rangeCondition
  | FT_DOUBLE => or_DOUBLE field rangeCondition
  | FT_DATE => or_DATE field rangeCondition
  | FT_STRING | FT_VECTOR | FT_BOOL | FT_STRINGARRAY => Ret []
  end.

(** ... and there [min] and [max] are still nil when they are encoded. *)
Definition parseRangeForAnd (rangeCondition : list Condition) (docField : SpaceProperties) (field : string)
  : go (list RangeFilter) :=
  match SP_FieldType docField with
  | FT_INT => and_INT field rangeCondition
  | FT_LONG => and_LONG field rangeCondition
  | FT_FLOAT => and_FLOAT field rangeCondition
  | FT_DOUBLE => and_DOUBLE field rangeCondition
  | FT_DATE => and_DATE field rangeCondition
  | FT_STRING | FT_VECTOR | FT_BOOL | FT_STRINGARRAY =>
    addRangeFilter ANil ANil (set_Include true true (set_IsUnion ConditionOperatorIN (new_rangeFilter field))) []
  end.

(** ** Grouping and dispatch *)

Fixpoint isIndexedField (field : string) (indexInfos : list Index) : bool :=
  match indexInfos with
  | [] => false
  | index :: rest =>
    if (FieldName index =?s field) || contains (FieldNames index) field then true
    else isIndexedField field rest
  end.

Definition is_string_type (t : FieldType) : bool :=
  match t with FT_STRING | FT_STRINGARRAY => true | _ => false end.

(** The checks [parseRange] makes on a field before it folds its conditions. *)
Definition range_field (proMap : gmap string SpaceProperties) (indexInfos : list Index) (field : string)
    (rcs : list Condition) : go SpaceProperties :=
  match proMap !! field with
  | None => Fail (verr PARAM_ERROR "field:[%s] not found in space fields")
  | Some docField =>
    if is_string_type (SP_FieldType docField) then
      check! index_at rcs 0 in
      Fail (verr PARAM_ERROR "field:[%s] type is %s and operator %s is not supported now")
    else if bool_decide (SP_Option docField = FO_Null) && negb (isIndexedField field indexInfos)
    then Fail (verr PARAM_ERROR "field:[%s] not set index")
    else Ret docField
  end.

Definition parseRange (operator : string) (rangeConditionMap : gmap string (list Condition))
    (proMap : gmap string SpaceProperties) (indexInfos : list Index) : go (list RangeFilter) :=
  ofold (fun rangeFilters '(field, rcs) =>
    let! docField := range_field proMap indexInfos field rcs in
    if operator =?s "AND" then
      let! rangeFilter := parseRangeForAnd rcs docField field in Ret (rangeFilters ++ rangeFilter)
    else if operator =?s "OR" then
      let! rangeFilter := parseRangeForOr rcs docField field in Ret (rangeFilters ++ rangeFilter)
    else Ret rangeFilters) [] (range_map _ rangeConditionMap).

(** The terms of a condition, separated by the byte 1. *)
Fixpoint join_terms (ts : list string) : list Z :=
  match ts with
  | [] => []
  | [t] => bytes_of t
  | t :: ts' => bytes_of t ++ 1 :: join_terms ts'
  end.

Definition term_value (raw : string) : go (list Z) :=
  match unmarshal_any raw with
  | Panic p => Panic p
  | Fail _ => Fail (verr PARAM_ERROR "unmarshal [%s] err %s")
  | Ret (JArray ia) => Ret (join_terms (ToString <$> ia))
  | Ret _ => Ret (bytes_of (ToString_raw raw))
  end.

Definition term_field (proMap : gmap string SpaceProperties) (indexInfos : list Index) (field : string)
    (rvs : list Term) : go SpaceProperties :=
  match proMap !! field with
  | None => Fail (verr PARAM_ERROR "field:[%s] not found in space fields")
  | Some fd =>
    if negb (is_string_type (SP_FieldType fd)) then
      let! rv := index_at rvs 0 in
      if (T_Operator rv =? ConditionOperatorIN) || (T_Operator rv =? ConditionOperatorNOTIN)
      then Fail (verr PARAM_ERROR "field:[%s] type is %s and operator %s is not supported now")
      else Fail (verr PARAM_ERROR "field:[%s] type is %s and has wrong condition operator")
    else if bool_decide (SP_Option fd = FO_Null) && negb (isIndexedField field indexInfos)
    then Fail (verr PARAM_ERROR "field:[%s] not set index, please check space")
    else Ret fd
  end.

Definition parseTerm (tm : gmap string (list Term)) (proMap : gmap string SpaceProperties) (indexInfos : list Index)
  : go (list TermFilter) :=
  ofold (fun termFilters '(field, rvs) =>
    check! term_field proMap indexInfos field rvs in
    ofold (fun termFilters rv =>
      let! value := term_value (T_Value rv) in
      Ret (termFilters ++ [{| TF_Field := field; TF_Value := value; TF_IsUnion := T_Operator rv |}]))
      termFilters rvs) [] (range_map _ tm).

(** [m[field] = append(m[field], x)] *)
Definition append_at {A} (m : gmap string (list A)) (field : string) (x : A) : gmap string (list A) :=
  <[field := default [] (m !! field) ++ [x]]> m.

Definition range_operators : list string := ["<"; "<="; ">"; ">="; "="; "<>"; "!="]%string.

Definition condition_step (st : gmap string (list Condition) * gmap string (list Term)) (condition : Condition)
  : go (gmap string (list Condition) * gmap string (list Term)) :=
  let '(rangeConditionMap, termConditionMap) := st in
  let term op :=
    match unmarshal_strings (C_Value condition) with
    | Panic p => Panic p
    | Fail e => Fail (NewError PARAM_ERROR (Some e))
    | Ret _ => Ret (rangeConditionMap,
                    append_at termConditionMap (C_Field condition) {| T_Value := C_Value condition; T_Operator := op |})
    end in
  if contains range_operators (C_Operator condition)
  then Ret (append_at rangeConditionMap (C_Field condition) condition, termConditionMap)
  else if C_Operator condition =?s "IN" then term ConditionOperatorIN
  else if C_Operator condition =?s "NOT IN" then term ConditionOperatorNOTIN
  else Fail (verr FILTER_CONDITION_OPERATOR_TYPE_ERR "unsupported operator: %s").

(** [NewError(PARAM_ERROR, fmt.Errorf("...: %s", err.Error()))]: a fresh error. *)
Definition reworded {A} (m : go A) (msg : string) : go A :=
  match m with Fail e => Fail (verr PARAM_ERROR (msg +:+ Error e)) | _ => m end.

Definition space_properties (space : RSpace) : go (gmap string SpaceProperties) :=
  match RS_SpaceProperties space with
  | Some m => Ret m
  | None => UnmarshalPropertyJSON unmarshal_fields (RS_Fields space)
  end.

Definition parseFilter (filters : option Filter) (space : RSpace)
  : go (list RangeFilter * list TermFilter * Z) :=
  let! proMap := space_properties space in
  match filters with
  | None => Ret ([], [], FilterOperatorAnd)
  | Some filters =>
    let! operator :=
      (if Fl_Operator filters =?s "AND" then Ret FilterOperatorAnd
       else if Fl_Operator filters =?s "OR" then Ret FilterOperatorOr
       else Fail (NewError FILTER_OPERATOR_TYPE_ERR None)) in
    let! ms := ofold condition_step (∅, ∅) (Fl_Conditions filters) in
    let! rfs := reworded (parseRange (Fl_Operator filters) ms.1 proMap (RS_Indexes space)) "parseRange err " in
    let! tfs := reworded (parseTerm ms.2 proMap (RS_Indexes space)) "parseTerm err " in
    Ret (rfs, tfs, operator)
  end.
End Parse.

(** ** What filters and conditions mean

    A value travels as bytes; [wire_key] reads them back as a position on the
    line, whatever the type.  A range filter is evaluated on that position. *)

Definition wire_key (t : FieldType) (bs : list Z) : Z :=
  match t with
  | FT_INT => i32 (le_val bs)
  | FT_LONG | FT_DATE => i64 (le_val bs)
  | FT_FLOAT => sign_mag 32 (le_val bs)
  | FT_DOUBLE => sign_mag 64 (le_val bs)
  | _ => 0
  end.

Definition interval (lo hi : Z) (includeLower includeUpper : bool) (k : Z) : bool :=
  (if includeLower then lo <=? k else lo <? k) && (if includeUpper then k <=? hi else k <? hi).

Definition range_holds (t : FieldType) (f : RangeFilter) (k : Z) : bool :=
  let inside := interval (wire_key t (RF_LowerValue f)) (wire_key t (RF_UpperValue f))
                  (RF_IncludeLower f) (RF_IncludeUpper f) k in
  if RF_IsUnion f =? ConditionOperatorNOTIN then negb inside else inside.

Definition op_holds (op : string) (v k : Z) : bool :=
  if op =?s ">=" then v <=? k
  else if op =?s ">" then v <? k
  else if op =?s "=" then k =? v
  else if op =?s "<=" then k <=? v
  else if op =?s "<" then k <? v
  else negb (k =? v).

(** What the folds rely on: the comparisons are comparisons of positions, the
    extreme constants are values, a decoded value is one, and the encoding keeps the
    position. *)
Class RangeLaws {T} (rt : range_type T) (t : FieldType) (key : T -> Z) (ok : T -> Prop) : Prop := {
  rl_ltb : forall x y, ok x -> ok y -> rt_ltb rt x y = (key x <? key y);
  rl_leb : forall x y, ok x -> ok y -> rt_leb rt x y = (key x <=? key y);
  rl_eqb : forall x y, ok x -> ok y -> rt_eqb rt x y = (key x =? key y);
  rl_lo : ok (rt_lo rt);
  rl_hi : ok (rt_hi rt);
  rl_zero : ok (rt_zero rt);
  rl_scan : forall raw x y, ok x -> rt_scan rt raw x = Ret y -> ok y;
  rl_byte : forall x, ok x -> exists b bs, ValueToByte (rt_any rt x) = Ret (b :: bs) /\ wire_key t (b :: bs) = key x
}.

(** The seven operators, one by one. *)
Ltac operators Hop :=
  unfold range_operators in Hop;
  repeat (apply elem_of_cons in Hop as [->|Hop]); [..|by apply elem_of_nil in Hop].

(** Decides the comparisons of constant strings. *)
Ltac eval_strings :=
  repeat match goal with
  | |- context [?a =?s ?b] =>
    let c := eval vm_compute in (a =?s b) in change (a =?s b) with c; cbn beta iota; cbn [orb]
  end.

Section FoldProofs.
Context {T : Type} (rt : range_type T) (t : FieldType) (key : T -> Z) (ok : T -> Prop) `{Hlaws : !RangeLaws rt t key ok}.
Notation klo := (key (rt_lo rt)).
Notation khi := (key (rt_hi rt)).
Notation holds := (range_holds t).

(** The values the loop reads, each with its operator. *)
Fixpoint scan_all (curNum : T) (conds : list Condition) : go (list (string * T)) :=
  match conds with
  | [] => Ret []
  | rc :: rest =>
    let! v := rt_scan rt (C_Value rc) curNum in
    let! vs := scan_all v rest in
    Ret ((C_Operator rc, v) :: vs)
  end.

Lemma add_spec (lo hi : T) (rf : RangeFilter) (rfs : list RangeFilter) :
  ok lo -> ok hi ->
  exists f, addRangeFilter (rt_any rt lo) (rt_any rt hi) rf rfs = Ret (rfs ++ [f]) /\
    RF_Field f = RF_Field rf /\
    forall k, holds f k =
      let inside := interval (key lo) (key hi) (RF_IncludeLower rf) (RF_IncludeUpper rf) k in
      if RF_IsUnion rf =? ConditionOperatorNOTIN then negb inside else inside.
Proof.
  intros Hlo Hhi. unfold addRangeFilter.
  destruct (rl_byte lo Hlo) as (b & bs & -> & Hb), (rl_byte hi Hhi) as (b' & bs' & -> & Hb'). cbn [obind].
  rewrite !bool_decide_eq_false_2 by done. cbn [orb]. eexists. split; [done|]. split; [done|].
  intros k. unfold range_holds. cbn [RF_LowerValue RF_UpperValue RF_IncludeLower RF_IncludeUpper RF_IsUnion].
  by rewrite Hb, Hb'.
Qed.

Lemma snoc_field field f rf fs :
  Forall (fun f => RF_Field f = field) fs -> RF_Field f = RF_Field rf -> RF_Field rf = field ->
  Forall (fun f => RF_Field f = field) (fs ++ [f]).
Proof. intros Hfs Hf Hrf. apply Forall_app. split; [done|]. constructor; [by rewrite Hf|done]. Qed.

(** [field <> v] becomes the complement of the interval from [v] to [v]. *)
Lemma add_ne (v : T) (rf : RangeFilter) (rfs : list RangeFilter) :
  ok v -> RF_IncludeLower rf = true -> RF_IncludeUpper rf = true ->
  exists f, addRangeFilter (rt_any rt v) (rt_any rt v) (set_IsUnion ConditionOperatorNOTIN rf) rfs = Ret (rfs ++ [f]) /\
    RF_Field f = RF_Field rf /\ forall k, holds f k = negb (k =? key v).
Proof.
  intros Hv Hl Hu.
  destruct (add_spec v v (set_IsUnion ConditionOperatorNOTIN rf) rfs Hv Hv) as (f & Hadd & Hf & Hk).
  exists f. split; [done|]. split; [done|]. intros k. rewrite Hk. unfold set_IsUnion, interval. simpl.
  rewrite Hl, Hu. lia.
Qed.

(** An interval, once the operator is [IN]. *)
Lemma add_in (lo hi : T) (rf : RangeFilter) (rfs : list RangeFilter) :
  ok lo -> ok hi -> RF_IsUnion rf = ConditionOperatorIN ->
  exists f, addRangeFilter (rt_any rt lo) (rt_any rt hi) rf rfs = Ret (rfs ++ [f]) /\
    RF_Field f = RF_Field rf /\
    forall k, holds f k = interval (key lo) (key hi) (RF_IncludeLower rf) (RF_IncludeUpper rf) k.
Proof.
  intros Hlo Hhi Hu. destruct (add_spec lo hi rf rfs Hlo Hhi) as (f & Hadd & Hf & Hk).
  exists f. split; [done|]. split; [done|]. intros k. by rewrite Hk, Hu.
Qed.

(** *** AND *)

Definition above (st : and_state) (k : Z) : bool :=
  if a_minInclusive st then key (a_minNum st) <=? k else key (a_minNum st) <? k.
Definition below (st : and_state) (k : Z) : bool :=
  if a_maxInclusive st then k <=? key (a_maxNum st) else k <? key (a_maxNum st).

(** The state denotes the conjunction of the conditions seen. *)
Definition and_inv (field : string) (seen : list (string * T)) (st : and_state) : Prop :=
  ok (a_minNum st) /\ ok (a_maxNum st) /\
  RF_Field (a_rangeFilter st) = field /\
  RF_IncludeLower (a_rangeFilter st) = true /\ RF_IncludeUpper (a_rangeFilter st) = true /\
  Forall (fun f => RF_Field f = field) (a_rangeFilters st) /\
  forall k, klo <= k <= khi ->
    above st k && below st k && forallb (fun f => holds f k) (a_rangeFilters st) =
    forallb (fun '(op, v) => op_holds op (key v) k) seen.

Lemma forallb_snoc {A} (f : A -> bool) l x : forallb f (l ++ [x]) = forallb f l && f x.
Proof. rewrite forallb_app. simpl. by rewrite andb_true_r. Qed.
Lemma existsb_snoc {A} (f : A -> bool) l x : existsb f (l ++ [x]) = existsb f l || f x.
Proof. rewrite existsb_app. simpl. by rewrite orb_false_r. Qed.

Lemma and_switch_inv field seen st op v :
  and_inv field seen st -> ok v -> op ∈ range_operators ->
  exists st', and_switch rt op v st = Ret st' /\ and_inv field (seen ++ [(op, v)]) st'.
Proof.
  intros (Hmin & Hmax & Hf & Hil & Hiu & Hfs & Hk) Hv Hop.
  assert (forall st', ok (a_minNum st') -> ok (a_maxNum st') ->
    a_rangeFilter st' = a_rangeFilter st -> a_rangeFilters st' = a_rangeFilters st ->
    (forall k, klo <= k <= khi -> above st' k && below st' k = above st k && below st k && op_holds op (key v) k) ->
    and_inv field (seen ++ [(op, v)]) st') as Hmove.
  { intros st' H1 H2 H3 H4 H5. unfold and_inv. rewrite H3, H4. repeat (split; [done|]).
    intros k Hin. rewrite forallb_snoc, <- (Hk k Hin), (H5 k Hin).
    by destruct (above st k && below st k), (forallb _ _), (op_holds op (key v) k). }
  pose proof (rl_ltb v (a_maxNum st) Hv Hmax) as L1. pose proof (rl_ltb (a_minNum st) v Hmin Hv) as L2.
  pose proof (rl_leb v (a_maxNum st) Hv Hmax) as L3. pose proof (rl_leb (a_minNum st) v Hmin Hv) as L4.
  operators Hop; unfold and_switch; eval_strings.
  1-5: eexists; split; [done|]; unfold raise_min, lower_max.
  6-7: destruct (add_ne v (a_rangeFilter st) (a_rangeFilters st) Hv Hil Hiu) as (f & -> & Hff & Hfk);
    eexists; split; [done|]; repeat (split; [done|]);
    split; [eapply snoc_field; [done|exact Hff|done]|]; intros k Hin;
    unfold a_filters; cbn [a_rangeFilters]; rewrite !forallb_snoc, <- (Hk k Hin); cbn beta iota;
    rewrite Hfk, andb_assoc; done.
  all: apply Hmove.
  all: unfold a_min, a_max; rewrite ?L2; destruct (key (a_minNum st) <? key v) eqn:E2;
    cbn [a_minNum a_maxNum a_rangeFilter a_rangeFilters]; rewrite ?L1, ?L3, ?L4; clear L1 L2 L3 L4; repeat case_match;
    cbn [a_minNum a_maxNum a_rangeFilter a_rangeFilters]; try done.
  all: intros k Hin; unfold above, below, op_holds; eval_strings; cbn [a_minNum a_maxNum a_minInclusive a_maxInclusive].
  all: destruct (a_minInclusive st), (a_maxInclusive st); lia.
Qed.

(** Reading the conditions. *)
Lemma scan_all_ok cur conds ocs :
  ok cur -> scan_all cur conds = Ret ocs -> Forall (fun c => C_Operator c ∈ range_operators) conds ->
  Forall (fun '(op, v) => ok v /\ op ∈ range_operators) ocs.
Proof.
  intros Hcur Hscan Hops. induction Hops as [|c conds Hop _ IH] in cur, ocs, Hcur, Hscan |- *; simpl in Hscan; inv_ret.
  - subst. constructor.
  - subst. pose proof (rl_scan _ _ _ Hcur Hm) as Hv. constructor; [done|]. eapply IH; done.
Qed.

(** A loop that reads the next value and then switches on the operator, seen as
    a loop over the values read. *)
Lemma scan_loop {S : Type} (cur : S -> T) (set : T -> S -> S) (switch : string -> T -> S -> go S) conds st :
  (forall v st, cur (set v st) = v) ->
  (forall op v st st', switch op v st = Ret st' -> cur st' = cur st) ->
  forall st', ofold (fun st rc => let! v := rt_scan rt (C_Value rc) (cur st) in switch (C_Operator rc) v (set v st)) st conds = Ret st' <->
    exists ocs, scan_all (cur st) conds = Ret ocs /\
      ofold (fun st '(op, v) => switch op v (set v st)) st ocs = Ret st'.
Proof.
  intros Hset Hsw. induction conds as [|c conds IH] in st |- *; intros st'; simpl.
  - split; [intros H; by exists []|intros (? & [= <-] & H); done].
  - split.
    + intros H. inv_ret. apply IH in H as (ocs & Hs & Ho). exists ((C_Operator c, a0) :: ocs).
      rewrite Hm0. simpl. rewrite (Hsw _ _ _ _ Hm), Hset in Hs. rewrite Hs. simpl. by rewrite Hm.
    + intros (ocs & Hs & Ho). inv_ret. subst. simpl in Ho. inv_ret. rewrite Hm. simpl. rewrite Hm1. simpl.
      apply IH. exists a0. split; [|done]. by rewrite (Hsw _ _ _ _ Hm1), Hset.
Qed.

Lemma and_switch_cur op v st st' : and_switch rt op v st = Ret st' -> a_curNum st' = a_curNum st.
Proof.
  unfold and_switch, raise_min, lower_max. intros H. repeat case_match; inv_ret; subst; try done.
Qed.

Lemma and_cur_inv field seen st v : and_inv field seen st -> and_inv field seen (a_cur v st).
Proof. done. Qed.

Lemma and_finish_exact field ocs st :
  and_inv field ocs st ->
  exists fs, and_finish rt st = Ret fs /\ Forall (fun f => RF_Field f = field) fs /\
    forall k, klo <= k <= khi ->
      forallb (fun f => holds f k) fs = forallb (fun '(op, v) => op_holds op (key v) k) ocs.
Proof.
  intros (Hmin & Hmax & Hf & Hil & Hiu & Hfs & Hk). unfold and_finish.
  rewrite (rl_eqb _ _ Hmin rl_lo), (rl_eqb _ _ Hmax rl_hi).
  destruct (_ && _) eqn:E.
  - exists (a_rangeFilters st). split; [done|]. split; [done|]. intros k Hin. rewrite <- (Hk k Hin).
    rewrite !andb_true_iff in E. destruct E as ((((_ & E1) & E2) & E3) & E4).
    unfold above, below. rewrite E3, E4. destruct (forallb _ _); lia.
  - destruct (add_in (a_minNum st) (a_maxNum st)
      (set_Include (a_minInclusive st) (a_maxInclusive st) (set_IsUnion ConditionOperatorIN (a_rangeFilter st)))
      (a_rangeFilters st)) as (f & -> & Hff & Hfk); [done..|].
    eexists. split; [done|]. split; [eapply snoc_field; [done|exact Hff|done]|].
    intros k Hin. rewrite forallb_snoc, <- (Hk k Hin). cbn beta. rewrite Hfk. cbn [set_Include RF_IncludeLower RF_IncludeUpper].
    unfold interval, above, below. apply andb_comm.
Qed.

(** The filters of an AND group hold exactly where its conditions do. *)
Lemma and_case_exact field conds ocs :
  Forall (fun c => C_Operator c ∈ range_operators) conds -> scan_all (rt_zero rt) conds = Ret ocs ->
  exists fs, and_case rt field conds = Ret fs /\ Forall (fun f => RF_Field f = field) fs /\
    forall k, klo <= k <= khi ->
      forallb (fun f => holds f k) fs = forallb (fun '(op, v) => op_holds op (key v) k) ocs.
Proof.
  intros Hops Hscan. pose proof (scan_all_ok _ _ _ rl_zero Hscan Hops) as Hok.
  destruct (ofold_total (fun st '(op, v) => and_switch rt op v (a_cur v st))
              (and_inv field) (and_init rt field) ocs) as (st & Hst & Hinv).
  { repeat (split; [apply rl_lo || apply rl_hi || done|]). intros k Hin. unfold above, below. cbn [and_init a_minInclusive a_maxInclusive a_minNum a_maxNum a_rangeFilters forallb].
    lia. }
  { intros seen [op v] st Hinv Hin. rewrite Forall_forall in Hok. destruct (Hok _ Hin) as [Hv Hop].
    apply and_switch_inv; done. }
  unfold and_case. replace (ofold (and_step rt) (and_init rt field) conds) with (Ret (E := error) st).
  - simpl. by apply and_finish_exact.
  - symmetry. apply (scan_loop a_curNum a_cur (and_switch rt)); [done|apply and_switch_cur|]. by exists ocs.
Qed.

Lemma and_case_scans field conds fs :
  and_case rt field conds = Ret fs -> exists ocs, scan_all (rt_zero rt) conds = Ret ocs.
Proof.
  unfold and_case. intros H. apply obind_ret_inv in H as (st & Hst & _).
  apply (scan_loop a_curNum a_cur (and_switch rt)) in Hst as (ocs & Hs & _); [by exists ocs|done|apply and_switch_cur].
Qed.

(** *** OR *)

Definition on_left (st : or_state) (k : Z) : bool :=
  if o_leftMaxInclusive st then k <=? key (o_leftMax st) else k <? key (o_leftMax st).
Definition on_right (st : or_state) (k : Z) : bool :=
  if o_rightMinInclusive st then key (o_rightMin st) <=? k else key (o_rightMin st) <? k.
Definition among (l : list T) (k : Z) : bool := existsb (fun v => k =? key v) l.

(** The union a state stands for, with [eqs] still to be placed. *)
Definition covered (st : or_state) (eqs : list T) (k : Z) : bool :=
  on_left st k || on_right st k || among eqs k || existsb (fun f => holds f k) (o_rangeFilters st).

Definition or_shape (field : string) (st : or_state) : Prop :=
  ok (o_leftMax st) /\ ok (o_rightMin st) /\ Forall ok (o_equals st) /\
  RF_Field (o_rangeFilter st) = field /\
  RF_IncludeLower (o_rangeFilter st) = true /\ RF_IncludeUpper (o_rangeFilter st) = true /\
  Forall (fun f => RF_Field f = field) (o_rangeFilters st).

Definition or_inv (field : string) (seen : list (string * T)) (st : or_state) : Prop :=
  or_shape field st /\
  forall k, klo <= k <= khi -> covered st (o_equals st) k = existsb (fun '(op, v) => op_holds op (key v) k) seen.

Lemma or_switch_inv field seen st op v :
  or_inv field seen st -> ok v -> op ∈ range_operators ->
  exists st', or_switch rt op v st = Ret st' /\ or_inv field (seen ++ [(op, v)]) st'.
Proof.
  intros [(Hl & Hr & Heq & Hf & Hil & Hiu & Hfs) Hk] Hv Hop.
  assert (forall st', or_shape field st' ->
    (forall k, klo <= k <= khi -> covered st' (o_equals st') k = covered st (o_equals st) k || op_holds op (key v) k) ->
    or_inv field (seen ++ [(op, v)]) st') as Hmove.
  { intros st' H1 H2. split; [done|]. intros k Hin. by rewrite existsb_snoc, <- (Hk k Hin), (H2 k Hin). }
  pose proof (rl_ltb v (o_rightMin st) Hv Hr) as L1. pose proof (rl_ltb (o_leftMax st) v Hl Hv) as L2.
  pose proof (rl_leb v (o_rightMin st) Hv Hr) as L3. pose proof (rl_leb (o_leftMax st) v Hl Hv) as L4.
  operators Hop; unfold or_switch; eval_strings.
  6-7: destruct (add_ne v (o_rangeFilter st) (o_rangeFilters st) Hv Hil Hiu) as (f & -> & Hff & Hfk);
    eexists; split; [done|]; apply Hmove;
    [repeat (split; [done|]); eapply snoc_field; [done|exact Hff|done]|];
    intros k Hin; unfold covered, o_filters; cbn [o_rangeFilters o_equals];
    rewrite existsb_snoc, Hfk, orb_assoc; done.
  all: eexists; split; [done|]; apply Hmove; rewrite ?L1, ?L2, ?L3, ?L4; clear L1 L2 L3 L4;
    unfold o_left, o_right, o_eq; repeat case_match; cbn [o_leftMax o_rightMin o_equals o_rangeFilter o_rangeFilters].
  all: try (repeat (split; [done || (apply Forall_app; auto)|]); done).
  all: intros k Hin; unfold covered, on_left, on_right, op_holds; eval_strings;
    cbn [o_leftMax o_rightMin o_equals o_rangeFilter o_rangeFilters o_leftMaxInclusive o_rightMinInclusive].
  all: unfold among; rewrite ?existsb_snoc; cbn beta.
  all: destruct (existsb _ (o_equals st)), (existsb _ (o_rangeFilters st)), (o_leftMaxInclusive st), (o_rightMinInclusive st); lia.
Qed.

Lemma or_equal_step field st v eqs :
  or_shape field st -> RF_IsUnion (o_rangeFilter st) = ConditionOperatorIN -> ok v ->
  exists st', or_equal rt st v = Ret st' /\ or_shape field st' /\
    RF_IsUnion (o_rangeFilter st') = ConditionOperatorIN /\
    forall k, covered st' eqs k = covered st (v :: eqs) k.
Proof.
  intros (Hl & Hr & Heq & Hf & Hil & Hiu & Hfs) Hu Hv. unfold or_equal.
  rewrite (rl_ltb v (o_leftMax st)), (rl_ltb (o_rightMin st) v), (rl_eqb v (o_leftMax st)),
    (rl_eqb v (o_rightMin st)) by done.
  destruct (_ || _) eqn:E0; [|destruct (key v =? key (o_leftMax st)) eqn:E1;
    [|destruct (key v =? key (o_rightMin st)) eqn:E2]].
  4: destruct (add_in v v (o_rangeFilter st) (o_rangeFilters st) Hv Hv Hu) as (f & -> & Hff & Hfk).
  all: eexists; split; [done|]; split; [split_and!; (done || by eapply snoc_field)|split; [done|]].
  all: intros k; unfold covered, among, on_left, on_right, o_left, o_right, o_filters; cbn [existsb
    o_leftMax o_rightMin o_equals o_rangeFilter o_rangeFilters o_leftMaxInclusive o_rightMinInclusive].
  4: rewrite existsb_snoc, Hfk; unfold interval; rewrite Hil, Hiu.
  all: destruct (existsb _ eqs), (existsb _ (o_rangeFilters st)), (o_leftMaxInclusive st), (o_rightMinInclusive st); lia.
Qed.

Lemma or_equals_exact field eqs st :
  or_shape field st -> RF_IsUnion (o_rangeFilter st) = ConditionOperatorIN -> Forall ok eqs ->
  exists st', ofold (or_equal rt) st eqs = Ret st' /\ or_shape field st' /\
    RF_IsUnion (o_rangeFilter st') = ConditionOperatorIN /\ forall k, covered st' [] k = covered st eqs k.
Proof.
  intros Hs Hu Hok. induction Hok as [|v eqs Hv _ IH] in st, Hs, Hu |- *; [by exists st|].
  destruct (or_equal_step field st v eqs Hs Hu Hv) as (st1 & H1 & Hs1 & Hu1 & Hc1).
  destruct (IH st1 Hs1 Hu1) as (st2 & H2 & Hs2 & Hu2 & Hc2). exists st2. simpl. rewrite H1.
  split; [done|]. split; [done|]. split; [done|]. intros k. by rewrite Hc2, Hc1.
Qed.

Lemma or_finish_exact field st :
  or_shape field st -> RF_IsUnion (o_rangeFilter st) = ConditionOperatorIN ->
  exists fs, or_finish rt st = Ret fs /\ Forall (fun f => RF_Field f = field) fs /\
    forall k, klo <= k <= khi -> existsb (fun f => holds f k) fs = covered st [] k.
Proof.
  intros (Hl & Hr & Heq & Hf & Hil & Hiu & Hfs) Hu. unfold or_finish.
  rewrite (rl_ltb (o_rightMin st) (o_leftMax st)), (rl_eqb (o_leftMax st) (o_rightMin st)),
    (rl_ltb (rt_lo rt) (o_leftMax st)), (rl_ltb (o_rightMin st) (rt_hi rt)) by (done || apply rl_lo || apply rl_hi).
  destruct (_ || _) eqn:E.
  - destruct (add_in (rt_lo rt) (rt_hi rt) (o_rangeFilter st) (o_rangeFilters st) rl_lo rl_hi Hu) as (f & -> & Hff & Hfk).
    eexists. split; [done|]. split; [eapply snoc_field; [done|exact Hff|done]|].
    intros k Hin. rewrite existsb_snoc, Hfk, Hil, Hiu. unfold interval, covered, on_left, on_right, among. cbn [existsb].
    destruct (existsb _ _), (o_leftMaxInclusive st), (o_rightMinInclusive st); lia.
  - clear Hil Hiu.
    assert (exists fs, (if (klo <? key (o_leftMax st)) || o_leftMaxInclusive st
      then addRangeFilter (rt_any rt (rt_lo rt)) (rt_any rt (o_leftMax st))
             (set_Include true (o_leftMaxInclusive st) (o_rangeFilter st)) (o_rangeFilters st)
      else Ret (o_rangeFilters st)) = Ret fs /\ Forall (fun f => RF_Field f = field) fs /\
      forall k, klo <= k <= khi ->
        existsb (fun f => holds f k) fs = on_left st k || existsb (fun f => holds f k) (o_rangeFilters st))
      as (fs & -> & Hfs1 & Hk1).
    { destruct ((klo <? key (o_leftMax st)) || o_leftMaxInclusive st) eqn:E1.
      - destruct (add_in (rt_lo rt) (o_leftMax st) (set_Include true (o_leftMaxInclusive st) (o_rangeFilter st))
          (o_rangeFilters st) rl_lo Hl Hu) as (f & -> & Hff & Hfk).
        eexists. split; [done|]. split; [eapply snoc_field; [done|exact Hff|done]|].
        intros k Hin. rewrite existsb_snoc, Hfk. unfold set_Include, interval, on_left. cbn [RF_IncludeLower RF_IncludeUpper].
        destruct (existsb _ _), (o_leftMaxInclusive st); lia.
      - eexists. split; [done|]. split; [done|]. intros k Hin. unfold on_left.
        destruct (existsb _ _), (o_leftMaxInclusive st); lia. }
    cbn [obind]. destruct ((key (o_rightMin st) <? khi) || o_rightMinInclusive st) eqn:E2.
    + destruct (add_in (o_rightMin st) (rt_hi rt) (set_Include (o_rightMinInclusive st) true (o_rangeFilter st))
        fs Hr rl_hi Hu) as (f & -> & Hff & Hfk).
      eexists. split; [done|]. split; [eapply snoc_field; [done|exact Hff|done]|].
      intros k Hin. rewrite existsb_snoc, Hfk, (Hk1 k Hin). unfold covered, among, set_Include, interval, on_right.
      cbn [existsb RF_IncludeLower RF_IncludeUpper]. destruct (existsb _ _), (on_left st k), (o_rightMinInclusive st); lia.
    + exists fs. split; [done|]. split; [done|]. intros k Hin. rewrite (Hk1 k Hin). unfold covered, among, on_right.
      cbn [existsb]. destruct (existsb _ _), (on_left st k), (o_rightMinInclusive st); lia.
Qed.

Lemma or_switch_cur op v st st' : or_switch rt op v st = Ret st' -> o_curNum st' = o_curNum st.
Proof. unfold or_switch. intros H. repeat case_match; inv_ret; subst; try done. Qed.

(** Some filter of an OR group holds exactly where some condition does. *)
Lemma or_case_exact field conds ocs :
  Forall (fun c => C_Operator c ∈ range_operators) conds -> scan_all (rt_zero rt) conds = Ret ocs ->
  exists fs, or_case rt field conds = Ret fs /\ Forall (fun f => RF_Field f = field) fs /\
    forall k, klo <= k <= khi ->
      existsb (fun f => holds f k) fs = existsb (fun '(op, v) => op_holds op (key v) k) ocs.
Proof.
  intros Hops Hscan. pose proof (scan_all_ok _ _ _ rl_zero Hscan Hops) as Hok.
  destruct (ofold_total (fun st '(op, v) => or_switch rt op v (o_cur v st))
              (or_inv field) (or_init rt field) ocs) as (st & Hst & [Hshape Hk]).
  { split; [repeat (split; [apply rl_lo || apply rl_hi || done|]); done|]. intros k Hin.
    unfold covered, on_left, on_right. cbn [or_init o_leftMaxInclusive o_rightMinInclusive o_leftMax o_rightMin
      o_equals o_rangeFilters existsb among]. lia. }
  { intros seen [op v] st Hinv Hin. rewrite Forall_forall in Hok. destruct (Hok _ Hin) as [Hv Hop].
    apply or_switch_inv; done. }
  unfold or_case. replace (ofold (or_step rt) (or_init rt field) conds) with (Ret (E := error) st).
  - cbn [obind]. set (st1 := o_filters _ _ st).
    destruct (or_equals_exact field (o_equals st) st1) as (st2 & H2 & Hs2 & Hu2 & Hc2); [done..|apply Hshape|].
    change (o_equals st1) with (o_equals st). rewrite H2. cbn [obind].
    destruct (or_finish_exact field st2 Hs2 Hu2) as (fs & Hfs & Hff & Hfk). exists fs. split; [done|].
    split; [done|]. intros k Hin. rewrite (Hfk k Hin), Hc2. apply (Hk k Hin).
  - symmetry. apply (scan_loop o_curNum o_cur (or_switch rt)); [done|apply or_switch_cur|]. by exists ocs.
Qed.

Lemma or_case_scans field conds fs :
  or_case rt field conds = Ret fs -> exists ocs, scan_all (rt_zero rt) conds = Ret ocs.
Proof.
  unfold or_case. intros H. apply obind_ret_inv in H as (st & Hst & _).
  apply (scan_loop o_curNum o_cur (or_switch rt)) in Hst as (ocs & Hs & _); [by exists ocs|done|apply or_switch_cur].
Qed.
End FoldProofs.

(** ** The five cases keep the laws *)

Lemma le_val_Int32ToByte z : in_s 32 z -> i32 (le_val (Int32ToByte z)) = z.
Proof.
  intros Hz. pose proof (Bytes2Int32_Int32ToByte z Hz) as H. unfold Bytes2Int32, Int32ToByte in *.
  rewrite le_read_bytes in H. rewrite le_val_bytes. simpl obind in H. by injection H.
Qed.
Lemma le_val_Int64ToByte z : in_s 64 z -> i64 (le_val (Int64ToByte z)) = z.
Proof.
  intros Hz. pose proof (Bytes2Int_Int64ToByte z Hz) as H. unfold Bytes2Int, Int64ToByte in *.
  rewrite le_read_bytes in H. rewrite le_val_bytes. simpl obind in H. by injection H.
Qed.

Section Laws.
Context (unmarshal_int32 unmarshal_int64 : string -> go (option Z)).
Context (unmarshal_float32 unmarshal_float64 : string -> go (option float)).
Context (unmarshal_string : string -> go string) (ToTimeE : string -> option Z).
(** A decoded number is a value of the variable's type; JSON has no NaN and no
    infinity. *)
Context (int32_typed : forall raw z, unmarshal_int32 raw = Ret (Some z) -> in_s 32 z).
Context (int64_typed : forall raw z, unmarshal_int64 raw = Ret (Some z) -> in_s 64 z).
Context (float32_typed : forall raw f, unmarshal_float32 raw = Ret (Some f) -> fin_ok 24 128 f).
Context (float64_typed : forall raw f, unmarshal_float64 raw = Ret (Some f) -> fin_ok 53 1024 f).
Context (time_typed : forall s z, ToTimeE s = Some z -> in_s 64 z).

Lemma scan_typed {A} (ok : A -> Prop) (unmarshal : string -> go (option A)) msg raw x y :
  (forall raw z, unmarshal raw = Ret (Some z) -> ok z) -> ok x -> scan unmarshal msg raw x = Ret y -> ok y.
Proof.
  intros Hty Hx. unfold scan. destruct (unmarshal raw) as [[z|]|?|?] eqn:E; intros [= <-]; simpl; eauto.
Qed.

Lemma float_laws (prec emax : Z) x y :
  1 < prec -> prec < emax -> fin_ok prec emax x -> fin_ok prec emax y ->
  let key := fkey (prec - 1) (3 - emax - prec) in
  fltb x y = (key x <? key y) /\ fleb x y = (key x <=? key y) /\ feqb x y = (key x =? key y).
Proof.
  intros H1 H2 Hx Hy key. unfold fltb, fleb, feqb, SFltb, SFleb, SFeqb.
  rewrite (fkey_compare prec emax H1 H2 x y Hx Hy). fold key. unfold Z.ltb, Z.leb. rewrite Z.eqb_compare.
  by destruct (key x ?= key y).
Qed.

#[export] Instance int32_laws : RangeLaws (int32_range unmarshal_int32) FT_INT (fun z => z) (in_s 32).
Proof.
  split; try done.
  - intros raw x y. apply scan_typed, int32_typed.
  - intros x Hx. destruct (Int32ToByte x) as [|b bs] eqn:E; [done|]. exists b, bs.
    cbn [rt_any int32_range ValueToByte]. rewrite E. split; [done|]. rewrite <- E. by apply le_val_Int32ToByte.
Qed.

Lemma int64_byte t x :
  t = FT_LONG \/ t = FT_DATE -> in_s 64 x ->
  exists b bs, ValueToByte (AInt64 x) = Ret (b :: bs) /\ wire_key t (b :: bs) = x.
Proof.
  intros Ht Hx. destruct (Int64ToByte x) as [|b bs] eqn:E; [done|]. exists b, bs.
  cbn [ValueToByte]. rewrite E. split; [done|]. rewrite <- E. destruct Ht as [->| ->]; by apply le_val_Int64ToByte.
Qed.

#[export] Instance int64_laws : RangeLaws (int64_range unmarshal_int64) FT_LONG (fun z => z) (in_s 64).
Proof. split; try done. - intros raw x y. apply scan_typed, int64_typed. - intros x. apply int64_byte. auto. Qed.

#[export] Instance date_laws : RangeLaws (date_range unmarshal_int64 unmarshal_string ToTimeE) FT_DATE (fun z => z) (in_s 64).
Proof.
  split; try done.
  - intros raw x y _. cbn [rt_scan date_range]. unfold scan_date.
    destruct (unmarshal_int64 raw) as [o|?|?]; [intros [= <-]; apply (wrap_s_range 64); lia| |done].
    destruct (unmarshal_string raw) as [s|?|?]; [|done..]. destruct (ToTimeE s) as [ns|] eqn:E; [|done].
    intros [= <-]. eauto.
  - intros x. apply int64_byte. auto.
Qed.

#[export] Instance float32_laws :
  RangeLaws (float32_range unmarshal_float32) FT_FLOAT (fkey 23 (-149)) (fin_ok 24 128).
Proof.
  split; try done.
  1-3: intros x y Hx Hy; apply (float_laws 24 128 x y); done.
  - intros raw x y. apply scan_typed, float32_typed.
  - intros x Hx. destruct (Float32bits_key x Hx) as [Hb Hk]. cbn [rt_any float32_range ValueToByte].
    unfold Float32ToByte. destruct (le_bytes 4 (Float32bits x)) as [|b bs] eqn:E; [done|].
    exists b, bs. split; [done|]. rewrite <- E. cbn [wire_key]. rewrite le_val_bytes, Z.mod_small by exact Hb. done.
Qed.

#[export] Instance float64_laws :
  RangeLaws (float64_range unmarshal_float64) FT_DOUBLE (fkey 52 (-1074)) (fin_ok 53 1024).
Proof.
  split; try done.
  1-3: intros x y Hx Hy; apply (float_laws 53 1024 x y); done.
  - intros raw x y. apply scan_typed, float64_typed.
  - intros x Hx. destruct (Float64bits_key x Hx) as [Hb Hk]. cbn [rt_any float64_range ValueToByte].
    unfold Float64ToByte. destruct (le_bytes 8 (Float64bits x)) as [|b bs] eqn:E; [done|].
    exists b, bs. split; [done|]. rewrite <- E. cbn [wire_key]. rewrite le_val_bytes, Z.mod_small by exact Hb. done.
Qed.
End Laws.

(** ** What a parsed filter means for a document *)

(** A loop whose body only appends. *)
Lemma ofold_appends {E A B} (body : list B -> A -> outcome E (list B)) (R : A -> list B -> Prop) xs acc r :
  (forall acc x acc', body acc x = Ret acc' -> exists ys, R x ys /\ acc' = acc ++ ys) ->
  ofold body acc xs = Ret r -> exists gs, Forall2 R xs gs /\ r = acc ++ concat gs.
Proof.
  intros Hbody. induction xs as [|x xs IH] in acc |- *; simpl; intros H; inv_ret.
  - subst. exists []. by rewrite app_nil_r.
  - apply Hbody in Hm as (ys & HR & ->). apply IH in H as (gs & Hgs & ->). exists (ys :: gs).
    split; [by constructor|]. by rewrite <- app_assoc.
Qed.

(** A flattened list of results, read through what each part is about. *)
Lemma concat_forall {A B} (R : A -> list B -> Prop) (P : B -> Prop) (Q : A -> Prop) xs gs :
  Forall2 R xs gs -> (forall x ys, x ∈ xs -> R x ys -> Forall P ys <-> Q x) ->
  Forall P (concat gs) <-> forall x, x ∈ xs -> Q x.
Proof.
  induction 1 as [|x ys xs gs Hx _ IH]; intros HR; simpl.
  - split; [|constructor]. intros _ x ?%elem_of_nil. done.
  - rewrite Forall_app, IH by (intros; apply HR; set_solver). rewrite (HR x ys) by (done || set_solver).
    split; [|set_solver]. intros [H1 H2] z [->|Hz]%elem_of_cons; auto.
Qed.

Lemma concat_exists {A B} (R : A -> list B -> Prop) (P : B -> Prop) (Q : A -> Prop) xs gs :
  Forall2 R xs gs -> (forall x ys, x ∈ xs -> R x ys -> Exists P ys <-> Q x) ->
  Exists P (concat gs) <-> exists x, x ∈ xs /\ Q x.
Proof.
  induction 1 as [|x ys xs gs Hx _ IH]; intros HR; simpl.
  - split; [by intros ?%Exists_nil|]. intros (x & ?%elem_of_nil & _). done.
  - rewrite Exists_app, IH by (intros; apply HR; set_solver). rewrite (HR x ys) by (done || set_solver).
    set_solver.
Qed.

(** The terms of an encoded list: the byte strings between the bytes 1. *)
Fixpoint split_terms (cur : list Z) (bs : list Z) : list (list Z) :=
  match bs with
  | [] => [cur]
  | b :: bs' => if b =? 1 then cur :: split_terms [] bs' else split_terms (cur ++ [b]) bs'
  end.

Lemma split_terms_word cur w rest :
  Forall (fun b => b <> 1) w -> split_terms cur (w ++ rest) = split_terms (cur ++ w) rest.
Proof.
  intros Hw. induction Hw as [|b w Hb _ IH] in cur |- *; simpl; [by rewrite app_nil_r|].
  rewrite (proj2 (Z.eqb_neq b 1) Hb), IH, <- app_assoc. done.
Qed.

Lemma join_split ts :
  ts <> [] -> Forall (fun s => Forall (fun b => b <> 1) (bytes_of s)) ts ->
  split_terms [] (join_terms ts) = bytes_of <$> ts.
Proof.
  intros Hne Hts. destruct Hts as [|s ts Hs Hts]; [done|]. clear Hne.
  induction Hts as [|s' ts Hs' _ IH] in s, Hs |- *.
  - simpl. rewrite <- (app_nil_r (bytes_of s)) at 1. by rewrite split_terms_word.
  - change (join_terms (s :: s' :: ts)) with (bytes_of s ++ 1 :: join_terms (s' :: ts)).
    rewrite split_terms_word by done. simpl. f_equal. by apply IH.
Qed.

Lemma forallb_Forall {A} (p : A -> bool) l : Forall (fun x => p x = true) l <-> forallb p l = true.
Proof. induction l as [|x l IH]; simpl; [done|]. by rewrite Forall_cons, andb_true_iff, IH. Qed.
Lemma existsb_Exists {A} (p : A -> bool) l : Exists (fun x => p x = true) l <-> existsb p l = true.
Proof.
  induction l as [|x l IH]; simpl; [split; [by intros ?%Exists_nil|done]|]. by rewrite Exists_cons, orb_true_iff, IH.
Qed.
Lemma forallb_eq {A} (p q : A -> bool) l : Forall (fun x => p x = q x) l -> forallb p l = forallb q l.
Proof. induction 1 as [|x l Hx _ IH]; simpl; [done|]. by rewrite Hx, IH. Qed.
Lemma existsb_eq {A} (p q : A -> bool) l : Forall (fun x => p x = q x) l -> existsb p l = existsb q l.
Proof. induction 1 as [|x l Hx _ IH]; simpl; [done|]. by rewrite Hx, IH. Qed.
Lemma existsb_false {A} (p : A -> bool) l : (forall x, x ∈ l -> p x = false) -> existsb p l = false.
Proof.
  induction l as [|x l IH]; intros H; simpl; [done|].
  rewrite (H x) by set_solver. apply IH. intros y Hy. apply H. set_solver.
Qed.

Section Meaning.
Context (unmarshal_int32 unmarshal_int64 : string -> go (option Z)).
Context (unmarshal_float32 unmarshal_float64 : string -> go (option float)).
Context (unmarshal_string : string -> go string) (unmarshal_strings : string -> go (list string)).
Context (unmarshal_any : string -> go json).
Context (ToTimeE : string -> option Z) (ToString : json -> string) (ToString_raw : string -> string).
Context (unmarshal_fields : string -> go (list Field)).
Context (range_map : forall A, gmap string A -> list (string * A)).
Context (int32_typed : forall raw z, unmarshal_int32 raw = Ret (Some z) -> in_s 32 z).
Context (int64_typed : forall raw z, unmarshal_int64 raw = Ret (Some z) -> in_s 64 z).
Context (float32_typed : forall raw f, unmarshal_float32 raw = Ret (Some f) -> fin_ok 24 128 f).
Context (float64_typed : forall raw f, unmarshal_float64 raw = Ret (Some f) -> fin_ok 53 1024 f).
Context (time_typed : forall s z, ToTimeE s = Some z -> in_s 64 z).
(** A map is visited once per key. *)
Context (range_map_perm : forall A (m : gmap string A), range_map A m ≡ₚ map_to_list m).

Notation scan_date := (scan_date unmarshal_int64 unmarshal_string ToTimeE).
Notation parse := (parseFilter unmarshal_int32 unmarshal_int64 unmarshal_float32 unmarshal_float64
  unmarshal_string unmarshal_strings unmarshal_any ToTimeE ToString ToString_raw unmarshal_fields range_map).

(** The position of a condition's value, as the type of its field reads it. *)
Definition value_key (t : FieldType) (raw : string) : option Z :=
  match t with
  | FT_INT => match unmarshal_int32 raw with Ret o => o | _ => None end
  | FT_LONG => match unmarshal_int64 raw with Ret o => o | _ => None end
  | FT_FLOAT => match unmarshal_float32 raw with Ret o => fkey 23 (-149) <$> o | _ => None end
  | FT_DOUBLE => match unmarshal_float64 raw with Ret o => fkey 52 (-1074) <$> o | _ => None end
  | FT_DATE => match scan_date raw 0 with Ret z => Some z | _ => None end
  | _ => None
  end.

(** The value is not a JSON null (which would leave the previous condition's
    value in the variable). *)
Definition not_null (t : FieldType) (raw : string) : Prop :=
  match t with
  | FT_INT => unmarshal_int32 raw <> Ret None
  | FT_LONG | FT_DATE => unmarshal_int64 raw <> Ret None
  | FT_FLOAT => unmarshal_float32 raw <> Ret None
  | FT_DOUBLE => unmarshal_float64 raw <> Ret None
  | _ => True
  end.

(** A stored float is finite; integers always are. *)
Definition position_ok (t : FieldType) (k : Z) : Prop :=
  match t with
  | FT_INT => - 2 ^ 31 <= k <= 2 ^ 31 - 1
  | FT_LONG | FT_DATE => - 2 ^ 63 <= k <= 2 ^ 63 - 1
  | FT_FLOAT => fkey 23 (-149) (SFopp MaxFloat32) <= k <= fkey 23 (-149) MaxFloat32
  | FT_DOUBLE => fkey 52 (-1074) (SFopp MaxFloat64) <= k <= fkey 52 (-1074) MaxFloat64
  | _ => True
  end.

Definition cond_at (t : FieldType) (c : Condition) (k : Z) : bool :=
  match value_key t (C_Value c) with Some v => op_holds (C_Operator c) v k | None => false end.

(** The values read in sequence are the conditions' own values. *)
Lemma scan_all_values {T} (rt : range_type T) (t : FieldType) (key : T -> Z) conds cur ocs :
  (forall raw x y, not_null t raw -> rt_scan rt raw x = Ret y -> value_key t raw = Some (key y)) ->
  Forall (fun c => not_null t (C_Value c)) conds -> scan_all rt cur conds = Ret ocs ->
  forall k, forallb (fun '(op, v) => op_holds op (key v) k) ocs = forallb (fun c => cond_at t c k) conds /\
            existsb (fun '(op, v) => op_holds op (key v) k) ocs = existsb (fun c => cond_at t c k) conds.
Proof.
  intros Hval Hnn. induction Hnn as [|c conds Hc _ IH] in cur, ocs |- *; simpl; intros Hs k; inv_ret; subst; [done|].
  destruct (IH a a0 Hm0 k) as [IH1 IH2]. simpl. rewrite IH1, IH2.
  assert (cond_at t c k = op_holds (C_Operator c) (key a) k) as -> by (unfold cond_at; by rewrite (Hval _ _ _ Hc Hm)).
  done.
Qed.

Lemma scan_value {A} (unmarshal : string -> go (option A)) msg raw x y :
  unmarshal raw <> Ret None -> scan unmarshal msg raw x = Ret y -> unmarshal raw = Ret (Some y).
Proof. unfold scan. destruct (unmarshal raw) as [[z|]|?|?]; intros Hn [= <-]; done. Qed.

Lemma scan_date_value raw x y :
  unmarshal_int64 raw <> Ret None -> scan_date raw x = Ret y -> scan_date raw 0 = Ret y.
Proof. unfold Filters.scan_date. destruct (unmarshal_int64 raw) as [[z|]|?|?]; intros Hn H; done. Qed.

(** One field's group, AND and OR: by the laws of its case. *)
Lemma group_exact {T} (rt : range_type T) t key ok `{!RangeLaws rt t key ok} field conds :
  (forall raw x y, not_null t raw -> rt_scan rt raw x = Ret y -> value_key t raw = Some (key y)) ->
  Forall (fun c => C_Operator c ∈ range_operators /\ not_null t (C_Value c)) conds ->
  (forall fs, and_case rt field conds = Ret fs ->
     Forall (fun f => RF_Field f = field) fs /\
     forall k, key (rt_lo rt) <= k <= key (rt_hi rt) ->
       forallb (fun f => range_holds t f k) fs = forallb (fun c => cond_at t c k) conds) /\
  (forall fs, or_case rt field conds = Ret fs ->
     Forall (fun f => RF_Field f = field) fs /\
     forall k, key (rt_lo rt) <= k <= key (rt_hi rt) ->
       existsb (fun f => range_holds t f k) fs = existsb (fun c => cond_at t c k) conds).
Proof.
  intros Hval [Hops Hnn]%Forall_and. split; intros fs Hfs.
  - destruct (and_case_scans rt field conds fs Hfs) as [ocs Hs].
    destruct (and_case_exact rt t key ok field conds ocs Hops Hs) as (fs' & Hfs' & Hf & Hk).
    rewrite Hfs in Hfs'. injection Hfs' as <-. split; [done|]. intros k Hin.
    rewrite (Hk k Hin). by apply (scan_all_values rt t key conds (rt_zero rt)).
  - destruct (or_case_scans rt field conds fs Hfs) as [ocs Hs].
    destruct (or_case_exact rt t key ok field conds ocs Hops Hs) as (fs' & Hfs' & Hf & Hk).
    rewrite Hfs in Hfs'. injection Hfs' as <-. split; [done|]. intros k Hin.
    rewrite (Hk k Hin). by apply (scan_all_values rt t key conds (rt_zero rt)).
Qed.

Notation forAnd := (parseRangeForAnd unmarshal_int32 unmarshal_int64 unmarshal_float32 unmarshal_float64
  unmarshal_string ToTimeE).
Notation forOr := (parseRangeForOr unmarshal_int32 unmarshal_int64 unmarshal_float32 unmarshal_float64
  unmarshal_string ToTimeE).

Lemma scan_matches_value (t : FieldType) :
  match t with
  | FT_INT => forall raw x y, not_null t raw -> rt_scan (int32_range unmarshal_int32) raw x = Ret y -> value_key t raw = Some y
  | FT_LONG => forall raw x y, not_null t raw -> rt_scan (int64_range unmarshal_int64) raw x = Ret y -> value_key t raw = Some y
  | FT_DATE => forall raw x y, not_null t raw -> rt_scan (date_range unmarshal_int64 unmarshal_string ToTimeE) raw x = Ret y ->
      value_key t raw = Some y
  | FT_FLOAT => forall raw x y, not_null t raw -> rt_scan (float32_range unmarshal_float32) raw x = Ret y ->
      value_key t raw = Some (fkey 23 (-149) y)
  | FT_DOUBLE => forall raw x y, not_null t raw -> rt_scan (float64_range unmarshal_float64) raw x = Ret y ->
      value_key t raw = Some (fkey 52 (-1074) y)
  | _ => True
  end.
Proof.
  destruct t; try done; intros raw x y Hn H; unfold value_key.
  1-4: by rewrite (scan_value _ _ _ _ _ Hn H).
  by rewrite (scan_date_value _ _ _ Hn H).
Qed.

Lemma field_group_exact pro field conds :
  Forall (fun c => C_Operator c ∈ range_operators /\ not_null (SP_FieldType pro) (C_Value c)) conds ->
  (forall fs, forAnd conds pro field = Ret fs ->
     Forall (fun f => RF_Field f = field) fs /\
     forall k, position_ok (SP_FieldType pro) k ->
       forallb (fun f => range_holds (SP_FieldType pro) f k) fs = forallb (fun c => cond_at (SP_FieldType pro) c k) conds) /\
  (forall fs, forOr conds pro field = Ret fs ->
     Forall (fun f => RF_Field f = field) fs /\
     forall k, position_ok (SP_FieldType pro) k ->
       existsb (fun f => range_holds (SP_FieldType pro) f k) fs = existsb (fun c => cond_at (SP_FieldType pro) c k) conds).
Proof.
  intros Hc. unfold parseRangeForAnd, parseRangeForOr.
  assert (forall t, value_key t = (fun _ => None) ->
    forall fs, Ret [] = Ret (E := error) fs -> Forall (fun f => RF_Field f = field) fs /\
      forall k, True -> existsb (fun f => range_holds t f k) fs = existsb (fun c => cond_at t c k) conds) as Hother.
  { intros t Hnone fs [= <-]. split; [done|]. intros k _. symmetry. apply existsb_false.
    intros c _. unfold cond_at. by rewrite Hnone. }
  pose proof (scan_matches_value (SP_FieldType pro)) as Hval.
  destruct (SP_FieldType pro) eqn:Ht; cbn [position_ok].
  - apply (@group_exact _ _ FT_INT (fun z => z) (in_s 32) (int32_laws _ int32_typed)); done.
  - apply (@group_exact _ _ FT_LONG (fun z => z) (in_s 64) (int64_laws _ int64_typed)); done.
  - apply (@group_exact _ _ FT_FLOAT (fkey 23 (-149)) (fin_ok 24 128) (float32_laws _ float32_typed)); done.
  - apply (@group_exact _ _ FT_DOUBLE (fkey 52 (-1074)) (fin_ok 53 1024) (float64_laws _ float64_typed)); done.
  - split; [done|by apply Hother].
  - split; [done|by apply Hother].
  - split; [done|by apply Hother].
  - apply (@group_exact _ _ FT_DATE (fun z => z) (in_s 64) (date_laws _ _ _ time_typed)); done.
  - split; [done|by apply Hother].
Qed.

(** *** Grouping by field *)

Notation step := (condition_step unmarshal_strings).

Lemma append_at_lookup {A} (m : gmap string (list A)) f x g l :
  append_at m f x !! g = Some l ->
  (g = f /\ l = default [] (m !! f) ++ [x]) \/ (g <> f /\ m !! g = Some l).
Proof. unfold append_at. intros [[-> <-]|[Hne H]]%lookup_insert_Some; auto. Qed.

Lemma append_at_keeps {A} (m : gmap string (list A)) f x g y :
  (exists l, m !! g = Some l /\ y ∈ l) -> exists l, append_at m f x !! g = Some l /\ y ∈ l.
Proof.
  intros (l & Hl & Hy). unfold append_at. destruct (decide (f = g)) as [->|Hne].
  - rewrite lookup_insert_eq, Hl. eexists. split; [done|]. simpl. set_solver.
  - rewrite lookup_insert_ne by done. eauto.
Qed.

Definition is_range (c : Condition) : bool := contains range_operators (C_Operator c).
Definition term_of (c : Condition) : Term :=
  {| T_Value := C_Value c;
     T_Operator := if C_Operator c =?s "IN" then ConditionOperatorIN else ConditionOperatorNOTIN |}.

(** The groups hold the conditions seen, each under its field. *)
Definition grouped (seen : list Condition) (ms : gmap string (list Condition) * gmap string (list Term)) : Prop :=
  (forall c, c ∈ seen -> is_range c = true -> exists l, ms.1 !! C_Field c = Some l /\ c ∈ l) /\
  (forall f l c, ms.1 !! f = Some l -> c ∈ l -> c ∈ seen /\ is_range c = true /\ C_Field c = f) /\
  (forall c, c ∈ seen -> is_range c = false ->
     (C_Operator c = "IN" \/ C_Operator c = "NOT IN") /\ exists l, ms.2 !! C_Field c = Some l /\ term_of c ∈ l) /\
  (forall f l tm, ms.2 !! f = Some l -> tm ∈ l ->
     exists c, c ∈ seen /\ is_range c = false /\ C_Field c = f /\ tm = term_of c).

Lemma group_range seen ms c :
  grouped seen ms -> is_range c = true ->
  grouped (seen ++ [c]) (append_at ms.1 (C_Field c) c, ms.2).
Proof.
  intros (H1 & H2 & H3 & H4) Hc. split; [|split; [|split]]; cbn [fst snd].
  - intros c' [Hin|Hin]%elem_of_app Hr; [by apply append_at_keeps, H1|].
    apply list_elem_of_singleton in Hin as ->. unfold append_at. rewrite lookup_insert_eq. eexists. split; [done|]. set_solver.
  - intros f l c' [[-> ->]|[_ Hl]]%append_at_lookup Hin.
    + apply elem_of_app in Hin as [Hin|Hin%list_elem_of_singleton]; [|subst; set_solver].
      destruct (ms.1 !! C_Field c) as [l0|] eqn:E; simpl in Hin; [|by apply elem_of_nil in Hin].
      destruct (H2 _ _ _ E Hin) as (? & ? & ?). set_solver.
    + destruct (H2 _ _ _ Hl Hin) as (? & ? & ?). set_solver.
  - intros c' [Hin|Hin%list_elem_of_singleton]%elem_of_app Hr; [by apply H3|congruence].
  - intros f l tm Hl Hin. destruct (H4 _ _ _ Hl Hin) as (c' & ? & ? & ? & ?). exists c'. set_solver.
Qed.

Lemma group_term seen ms c :
  grouped seen ms -> is_range c = false -> C_Operator c = "IN" \/ C_Operator c = "NOT IN" ->
  grouped (seen ++ [c]) (ms.1, append_at ms.2 (C_Field c) (term_of c)).
Proof.
  intros (H1 & H2 & H3 & H4) Hc Hop. split; [|split; [|split]]; cbn [fst snd].
  - intros c' [Hin|Hin%list_elem_of_singleton]%elem_of_app Hr; [by apply H1|congruence].
  - intros f l c' Hl Hin. destruct (H2 _ _ _ Hl Hin) as (? & ? & ?). set_solver.
  - intros c' [Hin|Hin%list_elem_of_singleton]%elem_of_app Hr.
    + destruct (H3 _ Hin Hr) as [Ho Hl]. split; [done|by apply append_at_keeps].
    + subst. split; [done|]. unfold append_at. rewrite lookup_insert_eq. eexists. split; [done|]. set_solver.
  - intros f l tm [[-> ->]|[_ Hl]]%append_at_lookup Hin.
    + apply elem_of_app in Hin as [Hin|Hin%list_elem_of_singleton]; [|exists c; set_solver].
      destruct (ms.2 !! C_Field c) as [l0|] eqn:E; simpl in Hin; [|by apply elem_of_nil in Hin].
      destruct (H4 _ _ _ E Hin) as (c' & ? & ? & ? & ?). exists c'. set_solver.
    + destruct (H4 _ _ _ Hl Hin) as (c' & ? & ? & ? & ?). exists c'. set_solver.
Qed.

Lemma conditions_grouped conds ms : ofold step (∅, ∅) conds = Ret ms -> grouped conds ms.
Proof.
  apply (ofold_inv step grouped).
  - split; [|split; [|split]]; cbn [fst snd]; intros *; try (intros ?%elem_of_nil; done); rewrite lookup_empty; done.
  - intros seen c [rm tm] ms' Hg. unfold condition_step. destruct (contains _ _) eqn:Hr.
    + intros [= <-]. by apply (group_range seen (rm, tm)).
    + pose proof (group_term seen (rm, tm) c Hg Hr) as Ht. unfold term_of in Ht. cbn [fst snd] in Ht.
      destruct (C_Operator c =?s "IN") eqn:Hin; [|destruct (C_Operator c =?s "NOT IN") eqn:Hnin; [|done]].
      * apply string_eqb_eq in Hin. destruct (unmarshal_strings _); [|done..]. intros [= <-]. apply Ht. by left.
      * apply string_eqb_eq in Hnin. destruct (unmarshal_strings _); [|done..]. intros [= <-]. apply Ht. by right.
Qed.

(** *** Truth on a document

    [doc] gives the stored bytes of every field. *)

Definition range_filter_true (props : gmap string SpaceProperties) (doc : string -> list Z) (f : RangeFilter) : bool :=
  match props !! RF_Field f with
  | Some pro => range_holds (SP_FieldType pro) f (wire_key (SP_FieldType pro) (doc (RF_Field f)))
  | None => false
  end.

(** A stored string or string array has one of the terms. *)
Definition has_term (terms : list (list Z)) (value : list Z) : bool :=
  existsb (fun w => bool_decide (w ∈ split_terms [] value)) terms.

Definition term_filter_true (doc : string -> list Z) (f : TermFilter) : bool :=
  let m := has_term (split_terms [] (TF_Value f)) (doc (TF_Field f)) in
  if TF_IsUnion f =? ConditionOperatorNOTIN then negb m else m.

Definition condition_true (props : gmap string SpaceProperties) (doc : string -> list Z) (c : Condition) : bool :=
  if is_range c then
    match props !! C_Field c with
    | Some pro => cond_at (SP_FieldType pro) c (wire_key (SP_FieldType pro) (doc (C_Field c)))
    | None => false
    end
  else
    match unmarshal_any (C_Value c) with
    | Ret (JArray ia) =>
      let m := has_term ((fun v => bytes_of (ToString v)) <$> ia) (doc (C_Field c)) in
      if C_Operator c =?s "IN" then m else negb m
    | _ => false
    end.

(** A condition whose value is plain: no null for a number; a non-empty list of
    terms without the separator byte. *)
Definition plain (props : gmap string SpaceProperties) (c : Condition) : Prop :=
  if is_range c then forall pro, props !! C_Field c = Some pro -> not_null (SP_FieldType pro) (C_Value c)
  else exists ia, unmarshal_any (C_Value c) = Ret (JArray ia) /\ ia <> [] /\
         Forall (fun v => Forall (fun b => b <> 1) (bytes_of (ToString v))) ia.

Definition doc_ok (props : gmap string SpaceProperties) (doc : string -> list Z) : Prop :=
  forall f pro, props !! f = Some pro -> position_ok (SP_FieldType pro) (wire_key (SP_FieldType pro) (doc f)).

Lemma in_range_map {A} (m : gmap string A) f l : (f, l) ∈ range_map A m <-> m !! f = Some l.
Proof. rewrite range_map_perm. apply elem_of_map_to_list. Qed.

Lemma range_field_ret props ix field rcs pro :
  range_field props ix field rcs = Ret pro -> props !! field = Some pro.
Proof.
  unfold range_field. destruct (props !! field) as [p|]; [|done].
  destruct (is_string_type _); [by destruct (index_at rcs 0)|]. destruct (_ && _); [done|]. by intros [= ->].
Qed.

Notation parseR := (parseRange unmarshal_int32 unmarshal_int64 unmarshal_float32 unmarshal_float64
  unmarshal_string ToTimeE range_map).

Lemma range_group_true props doc ix field l fs :
  doc_ok props doc -> (forall c, c ∈ l -> is_range c = true /\ C_Field c = field /\ plain props c) ->
  ((let! pro := range_field props ix field l in forAnd l pro field) = Ret fs ->
     Forall (fun f => range_filter_true props doc f = true) fs <-> Forall (fun c => condition_true props doc c = true) l) /\
  ((let! pro := range_field props ix field l in forOr l pro field) = Ret fs ->
     Exists (fun f => range_filter_true props doc f = true) fs <-> Exists (fun c => condition_true props doc c = true) l).
Proof.
  intros Hdoc Hl.
  assert (forall pro, props !! field = Some pro ->
    Forall (fun c => C_Operator c ∈ range_operators /\ not_null (SP_FieldType pro) (C_Value c)) l /\
    Forall (fun c => condition_true props doc c = cond_at (SP_FieldType pro) c (wire_key (SP_FieldType pro) (doc field))) l) as Hc.
  { intros pro Hpro. rewrite !Forall_forall. split; intros c Hin; destruct (Hl c Hin) as (Hr & Hf & Hp).
    - unfold plain in Hp. rewrite Hr, Hf in Hp. split; [by apply contains_true|by apply Hp].
    - unfold condition_true. by rewrite Hr, Hf, Hpro. }
  assert (forall pro, props !! field = Some pro -> Forall (fun f => RF_Field f = field) fs ->
    Forall (fun f => range_filter_true props doc f = range_holds (SP_FieldType pro) f (wire_key (SP_FieldType pro) (doc field))) fs) as Hf.
  { intros pro Hpro Hfs. eapply Forall_impl; [exact Hfs|]. intros f Hff. unfold range_filter_true. by rewrite Hff, Hpro. }
  split; intros Hrun; apply obind_ret_inv in Hrun as (pro & Hpro%range_field_ret & Hrun).
  - destruct (Hc pro Hpro) as [H1 H2]. destruct (proj1 (field_group_exact pro field l H1) fs Hrun) as [Hfs Hk].
    rewrite !forallb_Forall, (forallb_eq _ _ _ (Hf pro Hpro Hfs)), (forallb_eq _ _ _ H2).
    by rewrite (Hk _ (Hdoc _ _ Hpro)).
  - destruct (Hc pro Hpro) as [H1 H2]. destruct (proj2 (field_group_exact pro field l H1) fs Hrun) as [Hfs Hk].
    rewrite !existsb_Exists, (existsb_eq _ _ _ (Hf pro Hpro Hfs)), (existsb_eq _ _ _ H2).
    by rewrite (Hk _ (Hdoc _ _ Hpro)).
Qed.

(** The range filters of a request. *)
Lemma parseRange_true props doc ix op m rfs :
  doc_ok props doc ->
  (forall f l c, m !! f = Some l -> c ∈ l -> is_range c = true /\ C_Field c = f /\ plain props c) ->
  parseR op m props ix = Ret rfs ->
  (op = "AND"%string -> Forall (fun f => range_filter_true props doc f = true) rfs <->
     forall f l, m !! f = Some l -> Forall (fun c => condition_true props doc c = true) l) /\
  (op = "OR"%string -> Exists (fun f => range_filter_true props doc f = true) rfs <->
     exists f l, m !! f = Some l /\ Exists (fun c => condition_true props doc c = true) l).
Proof.
  intros Hdoc Hm Hrun. unfold parseRange in Hrun. split; intros ->.
  - apply (ofold_appends _ (fun x ys => (let! pro := range_field props ix x.1 x.2 in forAnd x.2 pro x.1) = Ret ys))
      in Hrun as (gs & Hgs & ->).
    2: { intros acc [f l] acc' H. simpl in *. inv_ret. subst. exists a0. by rewrite Hm0. }
    rewrite (concat_forall _ _ (fun x => Forall (fun c => condition_true props doc c = true) x.2) _ _ Hgs).
    + split; [intros H f l Hl%in_range_map; by apply (H (f, l))|]. intros H [f l] Hl%in_range_map. by eapply H.
    + intros [f l] ys Hl%in_range_map Hys. eapply range_group_true; [done| |exact Hys]. eauto.
  - apply (ofold_appends _ (fun x ys => (let! pro := range_field props ix x.1 x.2 in forOr x.2 pro x.1) = Ret ys))
      in Hrun as (gs & Hgs & ->).
    2: { intros acc [f l] acc' H. simpl in *. inv_ret. subst. exists a0. by rewrite Hm0. }
    rewrite (concat_exists _ _ (fun x => Exists (fun c => condition_true props doc c = true) x.2) _ _ Hgs).
    + split; [intros ([f l] & Hl%in_range_map & H); eauto|]. intros (f & l & Hl%in_range_map & H). by exists (f, l).
    + intros [f l] ys Hl%in_range_map Hys. eapply range_group_true; [done| |exact Hys]. eauto.
Qed.

(** The term filters of a request. *)
Notation parseT := (parseTerm unmarshal_any ToString ToString_raw range_map).

Definition term_filter_of (field : string) (tm : Term) (f : TermFilter) : Prop :=
  exists value, term_value unmarshal_any ToString ToString_raw (T_Value tm) = Ret value /\
    f = {| TF_Field := field; TF_Value := value; TF_IsUnion := T_Operator tm |}.

Lemma parseTerm_filters m props ix tfs :
  parseT m props ix = Ret tfs ->
  exists gs, Forall2 (fun x fs => Forall2 (term_filter_of x.1) x.2 fs) (range_map _ m) gs /\ tfs = concat gs.
Proof.
  intros H. apply (ofold_appends _ (fun x fs => Forall2 (term_filter_of x.1) x.2 fs)) in H as (gs & Hgs & ->); [by exists gs|].
  intros acc [field rvs] acc' Hb. simpl in Hb. inv_ret. clear Hm.
  apply (ofold_appends _ (fun tm ys => exists f, term_filter_of field tm f /\ ys = [f])) in Hb as (fs & Hfs & ->).
  - exists (concat fs). split; [|done]. simpl. induction Hfs as [|tm ys rvs fs (f & Hf & ->) _ IH]; simpl; by constructor.
  - intros acc1 tm acc2 Hs. inv_ret. subst. eexists. split; [|done]. eexists. split; [|done]. by exists a0.
Qed.

Lemma term_true props doc c f :
  is_range c = false -> C_Operator c = "IN"%string \/ C_Operator c = "NOT IN"%string -> plain props c ->
  term_filter_of (C_Field c) (term_of c) f -> term_filter_true doc f = condition_true props doc c.
Proof.
  intros Hr Hop Hp (value & Hv & ->). unfold plain in Hp. rewrite Hr in Hp. destruct Hp as (ia & Hia & Hne & Hclean).
  unfold condition_true. rewrite Hr, Hia. unfold term_value in Hv. cbn [term_of T_Value] in Hv. rewrite Hia in Hv.
  injection Hv as <-. unfold term_filter_true. cbn [TF_Value TF_Field TF_IsUnion T_Operator term_of].
  rewrite join_split, <- list_fmap_compose.
  - destruct Hop as [-> | ->]; eval_strings; done.
  - by destruct ia.
  - by rewrite Forall_fmap.
Qed.

Lemma parseTerm_true props doc ix m tfs (cond : string -> Term -> Condition) :
  (forall f l tm, m !! f = Some l -> tm ∈ l -> let c := cond f tm in
     is_range c = false /\ C_Field c = f /\ term_of c = tm /\ plain props c /\
     (C_Operator c = "IN"%string \/ C_Operator c = "NOT IN"%string)) ->
  parseT m props ix = Ret tfs ->
  (Forall (fun f => term_filter_true doc f = true) tfs <->
     forall f l tm, m !! f = Some l -> tm ∈ l -> condition_true props doc (cond f tm) = true) /\
  (Exists (fun f => term_filter_true doc f = true) tfs <->
     exists f l tm, m !! f = Some l /\ tm ∈ l /\ condition_true props doc (cond f tm) = true).
Proof.
  intros Hc (gs & Hgs & ->)%parseTerm_filters.
  assert (forall x fs, x ∈ range_map _ m -> Forall2 (term_filter_of x.1) x.2 fs ->
    Forall2 (fun tm f => term_filter_true doc f = condition_true props doc (cond x.1 tm)) x.2 fs) as Heq.
  { intros [f l] fs Hx%in_range_map Hfs. simpl in *. apply Forall2_same_length_lookup_2.
    - by eapply Forall2_length.
    - intros i tm g Htm Hg. destruct (Hc f l tm Hx (list_elem_of_lookup_2 _ _ _ Htm)) as (Hr & Hf & Ht & Hp & Hop).
      apply (term_true props doc (cond f tm) g Hr Hop Hp). rewrite Hf, Ht.
      by eapply (Forall2_lookup_lr _ _ _ i). }
  split.
  - rewrite (concat_forall _ _ (fun x => Forall (fun tm => condition_true props doc (cond x.1 tm) = true) x.2) _ _ Hgs).
    + split.
      * intros H f l tm Hl%in_range_map Htm. specialize (H (f, l) Hl). simpl in H. rewrite Forall_forall in H. auto.
      * intros H [f l] Hl%in_range_map. simpl. apply Forall_forall. eauto.
    + intros x fs Hx Hfs. specialize (Heq x fs Hx Hfs). clear -Heq.
      induction Heq as [|tm f l fs H _ IH]; [done|]. by rewrite !Forall_cons, IH, H.
  - rewrite (concat_exists _ _ (fun x => Exists (fun tm => condition_true props doc (cond x.1 tm) = true) x.2) _ _ Hgs).
    + split.
      * intros ([f l] & Hl%in_range_map & H). simpl in H. apply Exists_exists in H as (tm & Htm & H). eauto 10.
      * intros (f & l & tm & Hl%in_range_map & Htm & H). exists (f, l). split; [done|]. apply Exists_exists. eauto.
    + intros x fs Hx Hfs. specialize (Heq x fs Hx Hfs). clear -Heq.
      induction Heq as [|tm f l fs H _ IH]; [split; intros ?%Exists_nil; done|]. by rewrite !Exists_cons, IH, H.
Qed.

Definition condition_of (f : string) (tm : Term) : Condition :=
  {| C_Operator := if T_Operator tm =? ConditionOperatorIN then "IN" else "NOT IN"; C_Field := f; C_Value := T_Value tm |}.

Lemma condition_of_term c :
  C_Operator c = "IN"%string \/ C_Operator c = "NOT IN"%string -> condition_of (C_Field c) (term_of c) = c.
Proof. destruct c as [op f v]. simpl. intros [-> | ->]; done. Qed.

(** The range and term filters that [parseFilter] builds say of every document
    exactly what the conditions of the request say: all of them with AND, some of
    them with OR, whatever the field types, the order of the conditions and the
    iteration order of the maps.  (C6) *)
Theorem parseFilter_meaning fl space props doc rfs tfs op :
  space_properties unmarshal_fields space = Ret props -> doc_ok props doc -> Forall (plain props) (Fl_Conditions fl) ->
  parse (Some fl) space = Ret (rfs, tfs, op) ->
  (op = FilterOperatorAnd /\
     (Forall (fun f => range_filter_true props doc f = true) rfs /\ Forall (fun f => term_filter_true doc f = true) tfs <->
      Forall (fun c => condition_true props doc c = true) (Fl_Conditions fl))) \/
  (op = FilterOperatorOr /\
     (Exists (fun f => range_filter_true props doc f = true) rfs \/ Exists (fun f => term_filter_true doc f = true) tfs <->
      Exists (fun c => condition_true props doc c = true) (Fl_Conditions fl))).
Proof.
  intros Hprops Hdoc Hplain Hrun. unfold parseFilter in Hrun. rewrite Hprops in Hrun. simpl in Hrun.
  apply obind_ret_inv in Hrun as (o & Ho & Hrun). apply obind_ret_inv in Hrun as (ms & Hms & Hrun).
  apply conditions_grouped in Hms as (G1 & G2 & G3 & G4). rewrite Forall_forall in Hplain.
  apply obind_ret_inv in Hrun as (rfs' & Hrfs & Hrun). apply obind_ret_inv in Hrun as (tfs' & Htfs & Hrun).
  injection Hrun as -> -> ->.
  unfold reworded in Hrfs, Htfs. destruct (parseR _ _ _ _) as [r|?|?] eqn:HR; [|done..]. injection Hrfs as ->.
  destruct (parseT _ _ _) as [r|?|?] eqn:HT; [|done..]. injection Htfs as ->.
  apply (parseRange_true props doc) in HR as [Rand Ror]; [|done|].
  2: { intros f l c Hl Hc. destruct (G2 _ _ _ Hl Hc) as (? & ? & ?). auto. }
  apply (parseTerm_true props doc _ _ _ condition_of) in HT as [Tand Tor].
  2: { intros f l tm Hl Htm. destruct (G4 _ _ _ Hl Htm) as (c & Hin & Hr & <- & ->).
       destruct (G3 c Hin Hr) as [Hop _]. cbv zeta. rewrite condition_of_term by done. split_and!; auto. }
  assert (forall f l tm, ms.2 !! f = Some l -> tm ∈ l -> exists c, c ∈ Fl_Conditions fl /\ condition_of f tm = c) as Hback.
  { intros f l tm Hl Htm. destruct (G4 _ _ _ Hl Htm) as (c & Hin & Hr & <- & ->).
    destruct (G3 c Hin Hr) as [Hop _]. rewrite condition_of_term by done. eauto. }
  destruct (Fl_Operator fl =?s "AND") eqn:Eand; [|destruct (Fl_Operator fl =?s "OR") eqn:Eor; [|done]];
    injection Ho as <-; [left|right]; (split; [done|]).
  - apply string_eqb_eq in Eand. rewrite (Rand Eand), Tand, Forall_forall. split.
    + intros [H1 H2] c Hc. destruct (is_range c) eqn:Hr.
      * destruct (G1 c Hc Hr) as (l & Hl & Hin). specialize (H1 _ _ Hl). rewrite Forall_forall in H1. auto.
      * destruct (G3 c Hc Hr) as (Hop & l & Hl & Hin). rewrite <- (condition_of_term c Hop). eauto.
    + intros H. split.
      * intros f l Hl. apply Forall_forall. intros c Hc. apply H. by destruct (G2 _ _ _ Hl Hc).
      * intros f l tm Hl Htm. destruct (Hback _ _ _ Hl Htm) as (c & Hc & ->). auto.
  - apply string_eqb_eq in Eor. rewrite (Ror Eor), Tor, Exists_exists. split.
    + intros [(f & l & Hl & H)|(f & l & tm & Hl & Htm & H)].
      * apply Exists_exists in H as (c & Hc & H). exists c. split; [|done]. by destruct (G2 _ _ _ Hl Hc).
      * destruct (Hback _ _ _ Hl Htm) as (c & Hc & <-). eauto.
    + intros (c & Hc & H). destruct (is_range c) eqn:Hr.
      * destruct (G1 c Hc Hr) as (l & Hl & Hin). left. exists (C_Field c), l. split; [done|]. apply Exists_exists. eauto.
      * destruct (G3 c Hc Hr) as (Hop & l & Hl & Hin). right. rewrite <- (condition_of_term c Hop) in H. eauto 10.
Qed.

Lemma range_map_singleton {A} f (x : A) : range_map A {[f := x]} = [(f, x)].
Proof. apply Permutation_singleton_r. by rewrite range_map_perm, map_to_list_singleton. Qed.

Lemma single_condition c :
  is_range c = true -> ofold step (∅, ∅) [c] = Ret ({[C_Field c := [c]]}, ∅).
Proof. unfold is_range. intros Hr. cbn [ofold]. unfold condition_step, append_at. by rewrite Hr, lookup_empty. Qed.

(** An AND condition with a comparison on an indexed vector or bool field does not
    report an error: the bounds are nil when they are encoded, and the router
    panics. *)
Theorem and_on_vector_panics space props c pro :
  space_properties unmarshal_fields space = Ret props -> props !! C_Field c = Some pro ->
  SP_FieldType pro = FT_VECTOR \/ SP_FieldType pro = FT_BOOL ->
  SP_Option pro <> FO_Null \/ isIndexedField (C_Field c) (RS_Indexes space) = true -> is_range c = true ->
  parse (Some {| Fl_Operator := "AND"; Fl_Conditions := [c] |}) space = Panic NilDeref.
Proof.
  intros Hprops Hpro Hty Hix Hr. unfold parseFilter. rewrite Hprops. cbn [obind]. eval_strings. cbn [obind].
  cbn [Fl_Conditions]. rewrite single_condition by done. cbn [obind Fl_Operator fst]. unfold parseRange.
  rewrite range_map_singleton. cbn [ofold]. unfold range_field. rewrite Hpro.
  assert (is_string_type (SP_FieldType pro) = false) as -> by (by destruct Hty as [-> | ->]).
  assert (bool_decide (SP_Option pro = FO_Null) && negb (isIndexedField (C_Field c) (RS_Indexes space)) = false) as ->.
  { destruct Hix as [Hn| ->]; [by rewrite bool_decide_eq_false_2|apply andb_false_r]. }
  cbn [obind]. eval_strings. unfold parseRangeForAnd. by destruct Hty as [-> | ->].
Qed.

(** An OR condition that no value satisfies ([int > MaxInt32]) leaves no filter
    behind, so the request is not filtered at all. *)
Theorem or_unsatisfiable_unfiltered space props c pro :
  space_properties unmarshal_fields space = Ret props -> props !! C_Field c = Some pro ->
  SP_FieldType pro = FT_INT -> SP_Option pro <> FO_Null \/ isIndexedField (C_Field c) (RS_Indexes space) = true ->
  C_Operator c = ">"%string -> unmarshal_int32 (C_Value c) = Ret (Some (2 ^ 31 - 1)) ->
  parse (Some {| Fl_Operator := "OR"; Fl_Conditions := [c] |}) space = Ret ([], [], FilterOperatorOr) /\
  forall doc, condition_true props doc c = false.
Proof.
  intros Hprops Hpro Hty Hix Hop Hval.
  assert (is_range c = true) as Hr by (unfold is_range; by rewrite Hop). split.
  - unfold parseFilter. rewrite Hprops. cbn [obind]. eval_strings. cbn [obind].
    cbn [Fl_Conditions]. rewrite single_condition by done. cbn [obind Fl_Operator fst snd]. unfold parseRange.
    rewrite range_map_singleton. cbn [ofold]. unfold range_field. rewrite Hpro.
    assert (is_string_type (SP_FieldType pro) = false) as -> by (by rewrite Hty).
    assert (bool_decide (SP_Option pro = FO_Null) && negb (isIndexedField (C_Field c) (RS_Indexes space)) = false) as ->.
    { destruct Hix as [Hn| ->]; [by rewrite bool_decide_eq_false_2|apply andb_false_r]. }
    cbn [obind]. eval_strings. unfold parseRangeForOr. rewrite Hty. unfold or_INT, or_case. cbn [ofold].
    unfold or_step. cbn [rt_scan int32_range]. unfold scan. rewrite Hop, Hval. simpl.
    unfold parseTerm. assert (range_map (list Term) ∅ = []) as ->; [|done].
    apply Permutation_nil_r. by rewrite range_map_perm, map_to_list_empty.
  - intros doc. unfold condition_true. rewrite Hr, Hpro, Hty. unfold cond_at, value_key. rewrite Hval, Hop.
    unfold op_holds. eval_strings. apply Z.ltb_ge. unfold wire_key.
    pose proof (wrap_s_range 32 (le_val (doc (C_Field c)))) as Hw. unfold in_s in Hw. unfold i32. lia.
Qed.

(** A JSON null repeats the value of the condition before it: [>= v] followed by
    [<= null] is [= v]. *)
Theorem null_repeats_previous field raw null v :
  unmarshal_int32 raw = Ret (Some v) -> unmarshal_int32 null = Ret None ->
  let two := and_INT unmarshal_int32 field
    [{| C_Operator := ">="; C_Field := field; C_Value := raw |}; {| C_Operator := "<="; C_Field := field; C_Value := null |}] in
  two = and_INT unmarshal_int32 field
    [{| C_Operator := ">="; C_Field := field; C_Value := raw |}; {| C_Operator := "<="; C_Field := field; C_Value := raw |}].
Proof.
  intros Hraw Hnull. cbv zeta. unfold and_INT, and_case. cbn [ofold]. unfold and_step. cbn [rt_scan int32_range C_Value C_Operator].
  unfold scan. rewrite Hraw, Hnull. cbn [obind default from_option]. unfold and_switch. eval_strings. cbn [obind].
  unfold raise_min. by destruct (rt_ltb _ _ _).
Qed.
End Meaning.

(** ** Examples *)

Definition sample_int32 (raw : string) : go (option Z) :=
  if raw =?s "3" then Ret (Some 3) else if raw =?s "7" then Ret (Some 7)
  else if raw =?s "2147483647" then Ret (Some (2 ^ 31 - 1))
  else if raw =?s "null" then Ret None else Fail (OtherErr "not a number").
Definition no_number {A} (raw : string) : go (option A) := Fail (OtherErr "not a number").
Definition sample_strings (raw : string) : go (list string) :=
  if raw =?s "[a,b]" then Ret ["a"; "b"]%string else Fail (OtherErr "not a list").
Definition sample_any (raw : string) : go json :=
  if raw =?s "[a,b]" then Ret (JArray [JString "a"; JString "b"]) else Fail (OtherErr "not a list").
Definition sample_ToString (v : json) : string := match v with JString s => s | _ => "" end.
Definition sample_prop (t : FieldType) : SpaceProperties :=
  {| SP_FieldType := t; SP_Type := ""; SP_Index := None; SP_Format := None; SP_Dimension := 0;
     SP_StoreType := None; SP_StoreParam := ""; SP_Option := FO_Index |}.
Definition sample_space : RSpace :=
  {| RS_Fields := ""; RS_SpaceProperties := Some {["age" := sample_prop FT_INT; "tag" := sample_prop FT_STRING; "vec" := sample_prop FT_VECTOR]}%string;
     RS_Indexes := []; RS_PartitionRule := None |}.
Definition sample_parse (fl : Filter) : go (list RangeFilter * list TermFilter * Z) :=
  parseFilter sample_int32 no_number no_number no_number (fun _ => Fail (OtherErr "")) sample_strings sample_any
    (fun _ => None) sample_ToString (fun s => s) (fun _ => Ret []) (fun A => map_to_list) (Some fl) sample_space.
Definition sample_conditions : list Condition :=
  [{| C_Operator := ">"; C_Field := "age"; C_Value := "3" |};
   {| C_Operator := "<="; C_Field := "age"; C_Value := "7" |};
   {| C_Operator := "!="; C_Field := "age"; C_Value := "7" |};
   {| C_Operator := "IN"; C_Field := "tag"; C_Value := "[a,b]" |}]%string.

Lemma sample_typed raw z : sample_int32 raw = Ret (Some z) -> in_s 32 z.
Proof. unfold sample_int32, in_s. repeat case_match; intros [= <-]; lia. Qed.

Definition sample_doc (f : string) : list Z := if f =?s "age" then [5; 0; 0; 0] else [97].

Lemma sample_doc_ok props : RS_SpaceProperties sample_space = Some props -> doc_ok props sample_doc.
Proof.
  intros [= <-] f pro [[<- <-]|[_ [[<- <-]|[_ [<- <-]%lookup_singleton_Some]]%lookup_insert_Some]]%lookup_insert_Some.
  - vm_compute. split; discriminate.
  - done.
  - done.
Qed.

Lemma sample_plain props :
  RS_SpaceProperties sample_space = Some props -> Forall (plain sample_int32 no_number no_number no_number sample_any sample_ToString props) sample_conditions.
Proof.
  intros [= <-]. unfold sample_conditions. rewrite !Forall_cons. split_and!; [..|done].
  1-3: intros pro Hpro; vm_compute in Hpro; injection Hpro as <-; done.
  exists [JString "a"; JString "b"]. split; [done|]. split; [done|]. repeat constructor; done.
Qed.

Definition age_filter (lo hi : Z) (il : bool) (u : Z) : RangeFilter :=
  {| RF_Field := "age"; RF_LowerValue := [lo; 0; 0; 0]; RF_UpperValue := [hi; 0; 0; 0];
     RF_IncludeLower := il; RF_IncludeUpper := true; RF_IsUnion := u |}.
Definition sample_filter : Filter := {| Fl_Operator := "AND"; Fl_Conditions := sample_conditions |}.
Definition sample_rfs : list RangeFilter := [age_filter 7 7 true 2; age_filter 3 7 false 1].
Definition sample_tfs : list TermFilter := [{| TF_Field := "tag"; TF_Value := [97; 1; 98]; TF_IsUnion := 1 |}].
Definition sample_props : gmap string SpaceProperties := default ∅ (RS_SpaceProperties sample_space).

Lemma sample_parsed : sample_parse sample_filter = Ret (sample_rfs, sample_tfs, FilterOperatorAnd).
Proof. vm_compute. reflexivity. Qed.

Lemma parseFilter_meaning_witness :
  sample_parse sample_filter = Ret (sample_rfs, sample_tfs, FilterOperatorAnd) /\
  (Forall (fun f => range_filter_true sample_props sample_doc f = true) sample_rfs /\
   Forall (fun f => term_filter_true sample_doc f = true) sample_tfs <->
   Forall (fun c => condition_true sample_int32 no_number no_number no_number (fun _ => Fail (OtherErr "")) sample_any
     (fun _ => None) sample_ToString sample_props sample_doc c = true) sample_conditions).
Proof.
  split; [exact sample_parsed|].
  destruct (parseFilter_meaning sample_int32 no_number no_number no_number (fun _ => Fail (OtherErr "")) sample_strings
    sample_any (fun _ => None) sample_ToString (fun s => s) (fun _ => Ret []) (fun A => map_to_list)
    sample_typed ltac:(intros ? ? H; discriminate H) ltac:(intros ? ? H; discriminate H)
    ltac:(intros ? ? H; discriminate H) ltac:(intros ? ? H; discriminate H) ltac:(intros; reflexivity)
    sample_filter sample_space sample_props sample_doc sample_rfs sample_tfs FilterOperatorAnd eq_refl
    (sample_doc_ok _ eq_refl) (sample_plain _ eq_refl) sample_parsed) as [[_ H]|[H _]];
    [exact H|discriminate H].
Defined.

Lemma and_on_vector_panics_witness :
  sample_parse {| Fl_Operator := "AND"; Fl_Conditions := [{| C_Operator := ">"; C_Field := "vec"; C_Value := "3" |}] |} = Panic NilDeref.
Proof. eapply and_on_vector_panics; try done; [by left|left; done]. Defined.

Lemma or_unsatisfiable_unfiltered_witness :
  sample_parse {| Fl_Operator := "OR"; Fl_Conditions := [{| C_Operator := ">"; C_Field := "age"; C_Value := "2147483647" |}] |} =
    Ret ([], [], FilterOperatorOr).
Proof. eapply or_unsatisfiable_unfiltered; try done. left. done. Defined.

Lemma null_repeats_previous_witness :
  and_INT sample_int32 "age"
    [{| C_Operator := ">="; C_Field := "age"; C_Value := "3" |}; {| C_Operator := "<="; C_Field := "age"; C_Value := "null" |}] =
  and_INT sample_int32 "age"
    [{| C_Operator := ">="; C_Field := "age"; C_Value := "3" |}; {| C_Operator := "<="; C_Field := "age"; C_Value := "3" |}].
Proof. apply (null_repeats_previous sample_int32 "age" "3" "null" 3); reflexivity. Defined.
