(* ===== verification/Query.v ===== *)
(** * Search and query requests (internal/router/document/doc_query.go)

    From the decoded JSON request to the protobuf request sent to the
    partitions: the vectors ([parseVectors], [ToC]), the filters (Filters.v), the
    fields to return, the sort order, paging and partition names
    ([requestToPb] for searches, [queryRequestToPb] for queries).  JSON decoders
    and the memory limit are parameters. *)

From Stdlib Require Import SpecFloat.
From S2P Require Import Prelude.
From S2P Require Import Text.
From S2P Require Import Errors.
From S2P Require Import Schema.
From S2P Require Import Partition.
From S2P Require Import Bytes.
From S2P Require Import Floats.
From S2P Require Import SortOrder.
From S2P Require Import Filters.
Open Scope Z_scope.

Definition DefaultSize : Z := 50.
Definition WeightedRanker : string := "WeightedRanker".

(** The struct [VectorQuery] as it is decoded; [FeatureData] is raw JSON. *)
Record VectorQuery : Type := {
  VQ_Field : string;
  VQ_FeatureData : string;
  VQ_Symbol : string;
  VQ_Value : option float;
  VQ_Format : option string;
  VQ_MinScore : option float;
  VQ_MaxScore : option float;
  VQ_IndexType : string
}.

(** [vearchpb.VectorQuery] *)
Record PbVectorQuery : Type := {
  PV_Name : string;
  PV_Value : list Z;
  PV_MinScore : float;
  PV_MaxScore : float;
  PV_IndexType : string
}.

(** [strings.TrimSpace]: ASCII white space at both ends. *)
Definition is_space (a : ascii) : bool :=
  match byte_val a with 9 | 10 | 11 | 12 | 13 | 32 => true | _ => false end.
Fixpoint trim_left (s : string) : string :=
  match s with
  | String a s' => if is_space a then trim_left s' else s
  | EmptyString => s
  end.
Definition reverse_string (s : string) : string := String.rev s.
Definition TrimSpace (s : string) : string := reverse_string (trim_left (reverse_string (trim_left s))).

(** The feature of a query: bytes for a binary index, floats (bit patterns)
    otherwise. *)
Inductive feature : Type := FUint8 (l : list Z) | FFloat32 (l : list Z).
Definition feature_len (f : feature) : Z := match f with FUint8 l | FFloat32 l => Z.of_nat (length l) end.

Definition ToC (query : VectorQuery) (code : feature) (indexType : string) : go PbVectorQuery :=
  let! codeByte := match code with FUint8 l => UInt8ArrayToByteArray l | FFloat32 l => Ret (FloatArrayByte l) end in
  let minScore := default (SFopp MaxFloat64) (VQ_MinScore query) in
  let maxScore := default MaxFloat64 (VQ_MaxScore query) in
  let! scores :=
    match VQ_Value query with
    | None => Ret (minScore, maxScore)
    | Some v =>
      let symbol := TrimSpace (VQ_Symbol query) in
      if (symbol =?s ">") || (symbol =?s ">=") then Ret (v, maxScore)
      else if (symbol =?s "<") || (symbol =?s "<=") then Ret (minScore, v)
      else Fail (verr PARAM_ERROR "symbol value unknow:[%s]")
    end in
  Ret {| PV_Name := VQ_Field query; PV_Value := codeByte; PV_MinScore := scores.1; PV_MaxScore := scores.2;
         PV_IndexType := indexType |}.

Definition go_rem (a b : Z) : go Z := if b =? 0 then Panic DivZero else Ret (Z.rem a b).
Definition go_quot (a b : Z) : go Z := if b =? 0 then Panic DivZero else Ret (Z.quot a b).

(** [unmarshalArray[T]]; only a [[]float32] is checked against the dimension. *)
Definition unmarshalArray (unmarshal : string -> go (list Z)) (isFloat32 : bool) (data : string) (dimension : Z)
  : go (list Z) :=
  if Z.of_nat (String.length data) <? dimension
  then Fail (verr PARAM_ERROR "vector embedding length [%d] err, should be:[%d]")
  else
    let! result := unmarshal data in
    if (0 <? Z.of_nat (length result)) && isFloat32 then
      let! r := go_rem (Z.of_nat (length result)) dimension in
      if negb (r =? 0)
      then Fail (verr PARAM_ERROR "vector embedding length [%d] err, dimension is [%d], not equals dimension multiple:[%d]")
      else Ret result
    else Ret result.

Section Vectors.
Context (unmarshal_VectorQuery : string -> go VectorQuery).
Context (unmarshal_uint8s unmarshal_float32s : string -> go (list Z)).
Context (CheckMemoryLimitExceed : Z -> bool).

(** The number of vectors in a feature, and what is left over. *)
Definition read_feature (indexType : string) (data : string) (d : Z) : go (feature * Z * Z) :=
  if indexType =?s "BINARYIVF" then
    let! l := unmarshalArray unmarshal_uint8s false data (Z.quot d 8) in
    let! queryNum := go_quot (Z.of_nat (length l)) (Z.quot d 8) in
    let! validate := go_rem (Z.of_nat (length l)) (Z.quot d 8) in
    Ret (FUint8 l, queryNum, validate)
  else
    let! l := unmarshalArray unmarshal_float32s true data d in
    let! queryNum := go_quot (Z.of_nat (length l)) d in
    let! validate := go_rem (Z.of_nat (length l)) d in
    Ret (FFloat32 l, queryNum, validate).

Definition format_known (f : option string) : bool :=
  match f with
  | None => true
  | Some f => (f =?s "") || (f =?s "normalization") || (f =?s "normal") || (f =?s "no")
  end.

Definition vector_step (proMap : gmap string SpaceProperties) (space : RSpace)
    (st : Z * list PbVectorQuery) (raw : string) : go (Z * list PbVectorQuery) :=
  let '(reqNum, vqs) := st in
  let! vqTemp := unmarshal_VectorQuery raw in
  match proMap !! VQ_Field vqTemp with
  | None => Fail (verr PARAM_ERROR "field:[%s] not found in space fields")
  | Some docField =>
    check! guard_err (negb (bool_decide (SP_FieldType docField = FT_VECTOR)))
             (verr PARAM_ERROR "field:[%s] is not vector type") in
    let indexType := if VQ_IndexType vqTemp =?s ""
                     then GetFieldIndexType (RS_Indexes space) (default ∅ (RS_SpaceProperties space)) (VQ_Field vqTemp)
                     else VQ_IndexType vqTemp in
    check! guard_err (indexType =?s "") (verr PARAM_ERROR "field:[%s] vector index type is empty") in
    check! guard_err (VQ_FeatureData vqTemp =?s "") (verr PARAM_ERROR "vector embedding is null") in
    check! guard_err (CheckMemoryLimitExceed (Z.of_nat (String.length (VQ_FeatureData vqTemp))))
             (verr ROUTER_MEMORY_EXCEEDED "vector embedding exceed memory limit") in
    let! fqv := read_feature indexType (VQ_FeatureData vqTemp) (SP_Dimension docField) in
    let '(code, queryNum, validate) := fqv in
    check! guard_err ((queryNum =? 0) || negb (validate =? 0))
             (verr PARAM_ERROR "vector field:[%s] embedding length [%d] err, dimension [%d] needs to be divided") in
    check! guard_err (negb (reqNum =? 0) && negb (reqNum =? queryNum))
             (verr PARAM_ERROR "vector field:[%s] not same as queryNum, embedding length [%d], dimension [%d] ") in
    check! guard_err (negb (indexType =?s "BINARYIVF") && negb (format_known (VQ_Format vqTemp)))
             (verr PARAM_ERROR "unknow vector process format:[%s]") in
    let! vq := ToC vqTemp code indexType in
    Ret (queryNum, vqs ++ [vq])
  end.

(** A schema that cannot be decoded counts as empty here. *)
Definition properties_or_empty (unmarshal_fields : string -> go (list Field)) (space : RSpace)
  : go (gmap string SpaceProperties) :=
  match space_properties unmarshal_fields space with Fail _ => Ret ∅ | m => m end.

Definition parseVectors (unmarshal_fields : string -> go (list Field)) (reqNum : Z) (vqs : list PbVectorQuery)
    (tmpArr : list string) (space : RSpace) : go (Z * list PbVectorQuery) :=
  let! proMap := properties_or_empty unmarshal_fields space in
  ofold (vector_step proMap space) (reqNum, vqs) tmpArr.
End Vectors.

(** ** The requests *)

(** [request.SearchDocumentRequest]; [Sort] is the decoded clause. *)
Record SearchDocumentRequest : Type := {
  SD_Limit : Z;
  SD_Fields : list string;
  SD_Filters : option Filter;
  SD_Vectors : list string;
  SD_Sort : option (list json);
  SD_IndexParams : option string;
  SD_L2Sqrt : bool;
  SD_VectorValue : bool;
  SD_IsBruteSearch : Z;
  SD_LoadBalance : string;
  SD_DocumentIds : option (list string);
  SD_PartitionId : option Z;
  SD_Next : option bool;
  SD_Ranker : option string;
  SD_PageSize : Z;
  SD_PageNum : Z;
  SD_Offset : Z;
  SD_PartitionNames : list string
}.

(** The fields of [vearchpb.SearchRequest] that the parser sets. *)
Record SearchRequest : Type := {
  SR_IsVectorValue : bool; SR_L2Sqrt : bool; SR_IsBruteSearch : Z; SR_IndexParams : string; SR_TopN : Z;
  SR_Fields : list string; SR_SortFields : list (string * bool);
  SR_VecFields : list PbVectorQuery; SR_RangeFilters : list RangeFilter; SR_TermFilters : list TermFilter;
  SR_Operator : Z; SR_ReqNum : Z; SR_MultiVectorRank : Z; SR_Ranker : string;
  SR_PageSize : Z; SR_PageNum : Z; SR_Offset : Z; SR_IsSlowSearch : bool;
  SR_PartitionNames : list string; SR_ClientType : string
}.

(** ... and of [vearchpb.QueryRequest]. *)
Record QueryRequest : Type := {
  QR_IsVectorValue : bool; QR_Limit : Z; QR_Fields : list string; QR_SortFields : list (string * bool);
  QR_RangeFilters : list RangeFilter; QR_TermFilters : list TermFilter; QR_Operator : Z;
  QR_DocumentIds : list string; QR_PartitionId : Z; QR_Next : bool;
  QR_PageSize : Z; QR_PageNum : Z; QR_Offset : Z; QR_PartitionNames : list string; QR_ClientType : string
}.

(** Only a positive paging parameter is taken over. *)
Definition positive (z : Z) : Z := if 0 <? z then z else 0.

Fixpoint first_unknown (props : gmap string SpaceProperties) (fields : list string) : bool :=
  match fields with
  | [] => false
  | f :: fields' =>
    if negb (f =?s Schema.IdField) && negb (bool_decide (is_Some (props !! f))) then true else first_unknown props fields'
  end.

(** The fields to return: the id only, the requested ones, or by default every
    scalar field of the space and, when vectors are wanted, every vector field. *)
Definition choose_fields (order : list (string * SpaceProperties)) (props : gmap string SpaceProperties)
    (onlyId vectorValue : bool) (fields : list string) : go (list string) :=
  if onlyId then Ret [Schema.IdField]
  else
    let! fv :=
      match fields with
      | [] =>
        let isVector (fp : string * SpaceProperties) := SP_Type fp.2 =?s "vector" in
        Ret ((fst <$> List.filter (fun fp => negb (isVector fp)) order) ++ [Schema.IdField],
             fst <$> List.filter isVector order)
      | _ :: _ =>
        if first_unknown props fields then Fail (verr PARAM_ERROR "field [%s] is not exist in the space")
        else Ret (fields, [])
      end in
    Ret (if vectorValue then fv.1 ++ fv.2 else fv.1).

Definition add_id (fields : list string) : list string :=
  if contains fields Schema.IdField then fields else fields ++ [Schema.IdField].

(** The loop over the sort order: a sort field that is not returned is added.
    [queryFieldMap] holds the fields as they were before the loop. *)
Definition sort_step (props : gmap string SpaceProperties) (queryFields : list string)
    (st : list (string * bool) * list string) (s : Sort) : go (list (string * bool) * list string) :=
  let '(sortFieldArr, fields) := st in
  let sortField := SortField_name s in
  let special := (sortField =?s "_score") || (sortField =?s "_id") in
  if negb (special || bool_decide (is_Some (props !! sortField)))
  then Fail (verr PARAM_ERROR "sort field [%s] not space field")
  else Ret (sortFieldArr ++ [(sortField, GetSortOrder s)],
            if negb special && (negb (contains queryFields sortField) || (sortField =?s "")) then fields ++ [sortField] else fields).

Definition check_partition_names (space : RSpace) (names : list string) : go (list string) :=
  match names with
  | [] => Ret []
  | _ :: _ =>
    match RS_PartitionRule space with
    | None => Fail (verr PARAM_ERROR "space partition rule is nil")
    | Some rule =>
      if forallb (contains (R_Name <$> PR_Ranges rule)) names then Ret names
      else Fail (verr PARAM_ERROR "partition name [%s] not in space partition rule")
    end
  end.

(** Everything the parser takes from libraries: the JSON decoders, the [cast]
    package, the memory limit and the iteration order of maps. *)
Record decoders : Type := {
  d_int32 : string -> go (option Z); d_int64 : string -> go (option Z);
  d_float32 : string -> go (option float); d_float64 : string -> go (option float);
  d_string : string -> go string; d_strings : string -> go (list string); d_any : string -> go json;
  d_time : string -> option Z; d_ToString : json -> string; d_ToString_raw : string -> string;
  d_fields : string -> go (list Field); d_VectorQuery : string -> go VectorQuery;
  d_uint8s : string -> go (list Z); d_float32s : string -> go (list Z);
  d_params : string -> go IndexParams; d_ranker_type : string -> go string;
  d_memory : Z -> bool;
  d_range_map : forall A, gmap string A -> list (string * A)
}.

Section Requests.
Context (D : decoders) (SlowSearchIsolationEnabled : bool).

Definition parse_filter : option Filter -> RSpace -> go (list RangeFilter * list TermFilter * Z) :=
  parseFilter (d_int32 D) (d_int64 D) (d_float32 D) (d_float64 D) (d_string D) (d_strings D) (d_any D)
    (d_time D) (d_ToString D) (d_ToString_raw D) (d_fields D) (d_range_map D).
Definition parse_vectors : Z -> list PbVectorQuery -> list string -> RSpace -> go (Z * list PbVectorQuery) :=
  parseVectors (d_VectorQuery D) (d_uint8s D) (d_float32s D) (d_memory D) (d_fields D).

(** What [parseSearch] writes into the request. *)
Record search_part : Type := {
  sp_MultiVectorRank : Z; sp_VecFields : list PbVectorQuery;
  sp_RangeFilters : list RangeFilter; sp_TermFilters : list TermFilter; sp_Operator : Z; sp_ReqNum : Z
}.

Definition parseSearch (vectors : list string) (filters : option Filter) (space : RSpace) : go search_part :=
  let! rv := match vectors with [] => Ret (0, []) | _ :: _ => parse_vectors 0 [] vectors space end in
  let '(reqNum, vqs) := rv in
  let! fs := parse_filter filters space in
  let '(rfs, tfs, operator) := fs in
  Ret {| sp_MultiVectorRank := if bool_decide (vectors = []) then 0 else 1; sp_VecFields := vqs;
         sp_RangeFilters := rfs; sp_TermFilters := tfs; sp_Operator := operator;
         sp_ReqNum := i32 (if reqNum <=? 0 then 1 else reqNum) |}.

Definition parseRanker (data : string) : go string :=
  match d_ranker_type D data with
  | Panic p => Panic p
  | Fail _ => Fail (verr PARAM_ERROR "ranker param convert json %s err: %v")
  | Ret typ => if negb (typ =?s WeightedRanker)
               then Fail (verr PARAM_ERROR "unsupport ranker type: %s, now only support %s") else Ret data
  end.

Definition parseSlowSearch (nprobe ncentroids : Z) (indexType : string) (topN : Z)
    (rfs : list RangeFilter) (tfs : list TermFilter) : bool :=
  if 500 <=? topN then true
  else if ((indexType =?s "IVFFLAT") || (indexType =?s "IVFPQ")) && (Z.quot ncentroids 10 <=? nprobe) then true
  else (3 <=? Z.of_nat (length rfs) + Z.of_nat (length tfs)).

(** The index parameters of the last queried vector field that has some. *)
Definition vector_index (space : RSpace) (vqs : list PbVectorQuery) : string * string :=
  foldl (fun acc vq =>
    match RS_SpaceProperties space with
    | None => acc
    | Some props =>
      match props !! PV_Name vq with
      | Some prop =>
        if bool_decide (SP_FieldType prop = FT_VECTOR) then
          match SP_Index prop with
          | Some ix => if Params ix =?s "" then acc else (Params ix, Index_Type ix)
          | None => acc
          end
        else acc
      | None => acc
      end
    end) (""%string, ""%string) vqs.

Record metric_part : Type := { mp_metricType : string; mp_Nprobe : Z; mp_Ncentroids : Z; mp_indexType : string }.

Definition zero_params : IndexParams :=
  {| Nlinks := 0; EfSearch := 0; EfConstruction := 0; MetricType := ""; Ncentroids := 0; Nprobe := 0;
     Nsubvector := 0; TrainingThreshold := 0 |}.

(** The metric and the IVF parameters: from the request, completed by the space. *)
Definition metric_params (space : RSpace) (indexParams : IndexParams) (vqs : list PbVectorQuery) : go metric_part :=
  let '(vecIndexParams, vecIdxType) := vector_index space vqs in
  if vecIndexParams =?s "" then
    Ret {| mp_metricType := MetricType indexParams; mp_Nprobe := Nprobe indexParams;
           mp_Ncentroids := Ncentroids indexParams; mp_indexType := vecIdxType |}
  else
    match d_params D vecIndexParams with
    | Panic p => Panic p
    | Fail _ => Fail (verr PARAM_ERROR "unmarshal err:[%s] , space.Indexes params:[%s]")
    | Ret sp =>
      Ret {| mp_metricType := if MetricType indexParams =?s "" then MetricType sp else MetricType indexParams;
             mp_Nprobe := if Nprobe indexParams =? 0 then Nprobe sp else Nprobe indexParams;
             mp_Ncentroids := Ncentroids sp; mp_indexType := vecIdxType |}
    end.

Definition requestToPb (searchDoc : SearchDocumentRequest) (space : RSpace) (queryOnlyId : bool) : go SearchRequest :=
  let rawParams := default ""%string (SD_IndexParams searchDoc) in
  let topN := if SD_Limit searchDoc =? 0 then DefaultSize else SD_Limit searchDoc in
  let! props := (if queryOnlyId then Ret ∅ else properties_or_empty (d_fields D) space) in
  let! fields := choose_fields (d_range_map D _ props) props queryOnlyId (SD_VectorValue searchDoc) (SD_Fields searchDoc) in
  let fields := add_id fields in
  let! sortOrder := ParseSort (SD_Sort searchDoc) in
  let! indexParams :=
    (if rawParams =?s "" then Ret zero_params
     else match d_params D rawParams with
          | Fail _ => Fail (verr PARAM_ERROR "unmarshal err:[%s] , searchReq.IndexParams:[%s]")
          | m => m
          end) in
  let! sp := parseSearch (SD_Vectors searchDoc) (SD_Filters searchDoc) space in
  let! ranker :=
    match SD_Ranker searchDoc with
    | Some data => if negb (data =?s "") && (1 <? Z.of_nat (length (SD_Vectors searchDoc)))
                   then parseRanker data else Ret ""%string
    | None => Ret ""%string
    end in
  let! mp := metric_params space indexParams (sp_VecFields sp) in
  let sortOrder := if mp_metricType mp =?s "L2" then [SortScore false] else sortOrder in
  let! props := properties_or_empty (d_fields D) space in
  let! sf := ofold (sort_step props fields) ([], fields) sortOrder in
  let slow := if SlowSearchIsolationEnabled
              then parseSlowSearch (mp_Nprobe mp) (mp_Ncentroids mp) (mp_indexType mp) topN
                     (sp_RangeFilters sp) (sp_TermFilters sp)
              else false in
  let! names := check_partition_names space (SD_PartitionNames searchDoc) in
  Ret {| SR_IsVectorValue := SD_VectorValue searchDoc; SR_L2Sqrt := SD_L2Sqrt searchDoc;
         SR_IsBruteSearch := SD_IsBruteSearch searchDoc; SR_IndexParams := rawParams; SR_TopN := topN;
         SR_Fields := sf.2; SR_SortFields := sf.1; SR_VecFields := sp_VecFields sp;
         SR_RangeFilters := sp_RangeFilters sp; SR_TermFilters := sp_TermFilters sp; SR_Operator := sp_Operator sp;
         SR_ReqNum := sp_ReqNum sp; SR_MultiVectorRank := sp_MultiVectorRank sp; SR_Ranker := ranker;
         SR_PageSize := positive (SD_PageSize searchDoc); SR_PageNum := positive (SD_PageNum searchDoc);
         SR_Offset := positive (SD_Offset searchDoc); SR_IsSlowSearch := slow;
         SR_PartitionNames := names; SR_ClientType := SD_LoadBalance searchDoc |}.

Definition queryRequestToPb (searchDoc : SearchDocumentRequest) (space : RSpace) (queryOnlyId : bool) : go QueryRequest :=
  let limit := if SD_Limit searchDoc =? 0 then DefaultSize else SD_Limit searchDoc in
  let! props := (if queryOnlyId then Ret ∅ else properties_or_empty (d_fields D) space) in
  let! fields := choose_fields (d_range_map D _ props) props queryOnlyId (SD_VectorValue searchDoc) (SD_Fields searchDoc) in
  let fields := add_id fields in
  let! sortOrder := ParseSort (SD_Sort searchDoc) in
  let! props := properties_or_empty (d_fields D) space in
  let! sf := ofold (sort_step props fields) ([], fields) sortOrder in
  let! fs := match SD_Filters searchDoc with
             | None => Ret ([], [], 0)
             | Some _ => parse_filter (SD_Filters searchDoc) space
             end in
  let '(rfs, tfs, operator) := fs in
  let ids := default [] (SD_DocumentIds searchDoc) in
  let limit := if bool_decide (ids = []) then limit else i32 (Z.of_nat (length ids)) in
  check! guard_err (limit <=? 0) (verr PARAM_ERROR "query limit[topN] is zero") in
  let! names := check_partition_names space (SD_PartitionNames searchDoc) in
  Ret {| QR_IsVectorValue := SD_VectorValue searchDoc; QR_Limit := limit; QR_Fields := sf.2; QR_SortFields := sf.1;
         QR_RangeFilters := rfs; QR_TermFilters := tfs; QR_Operator := operator;
         QR_DocumentIds := ids; QR_PartitionId := i32 (default 0 (SD_PartitionId searchDoc));
         QR_Next := default false (SD_Next searchDoc);
         QR_PageSize := positive (SD_PageSize searchDoc); QR_PageNum := positive (SD_PageNum searchDoc);
         QR_Offset := positive (SD_Offset searchDoc); QR_PartitionNames := names;
         QR_ClientType := SD_LoadBalance searchDoc |}.
End Requests.

(** ** Vectors *)

(** The bytes of one queried vector. *)
Definition vector_bytes (indexType : string) (d : Z) : Z := if indexType =?s "BINARYIVF" then Z.quot d 8 else 4 * d.

Section VectorProofs.
Context (unmarshal_VectorQuery : string -> go VectorQuery).
Context (unmarshal_uint8s unmarshal_float32s : string -> go (list Z)) (CheckMemoryLimitExceed : Z -> bool).
Notation step := (vector_step unmarshal_VectorQuery unmarshal_uint8s unmarshal_float32s CheckMemoryLimitExceed).

(** A parsed vector query: a vector field of the space, [n] whole vectors. *)
Definition vector_ok (props : gmap string SpaceProperties) (n : Z) (raw : string) (vq : PbVectorQuery) : Prop :=
  exists vqt pro, unmarshal_VectorQuery raw = Ret vqt /\ PV_Name vq = VQ_Field vqt /\
    props !! VQ_Field vqt = Some pro /\ SP_FieldType pro = FT_VECTOR /\ PV_IndexType vq <> ""%string /\
    Z.of_nat (length (PV_Value vq)) = n * vector_bytes (PV_IndexType vq) (SP_Dimension pro).

Lemma rem_zero_len len d n : go_quot len d = Ret n -> go_rem len d = Ret 0 -> len = n * d.
Proof.
  unfold go_quot, go_rem. destruct (Z.eqb_spec d 0); [done|]. intros [= <-] [= Hr].
  pose proof (Z.quot_rem' len d). lia.
Qed.

Lemma read_feature_len indexType data d code n :
  read_feature unmarshal_uint8s unmarshal_float32s indexType data d = Ret (code, n, 0) ->
  match code with
  | FUint8 l => indexType = "BINARYIVF"%string /\ Z.of_nat (length l) = n * Z.quot d 8
  | FFloat32 l => indexType <> "BINARYIVF"%string /\ Z.of_nat (length l) = n * d
  end.
Proof.
  unfold read_feature. destruct (indexType =?s "BINARYIVF") eqn:E.
  - apply string_eqb_eq in E. intros H. inv_ret. subst. split; [done|]. by eapply rem_zero_len.
  - apply string_eqb_neq in E. intros H. inv_ret. subst. split; [done|]. by eapply rem_zero_len.
Qed.

Lemma ToC_bytes vqt code indexType vq :
  ToC vqt code indexType = Ret vq ->
  PV_Name vq = VQ_Field vqt /\ PV_IndexType vq = indexType /\
  length (PV_Value vq) = match code with FUint8 l => length l | FFloat32 l => (4 * length l)%nat end.
Proof.
  unfold ToC. intros H. inv_ret. subst. simpl. split; [done|]. split; [done|].
  destruct code; inv_ret; subst; [by rewrite (UInt8ArrayToByteArray_same _ _ Hm)|apply length_FloatArrayByte].
Qed.

Lemma vector_step_ok props space n vqs raw n' vqs' :
  step props space (n, vqs) raw = Ret (n', vqs') ->
  n' <> 0 /\ (n = 0 \/ n = n') /\ exists vq, vqs' = vqs ++ [vq] /\ vector_ok props n' raw vq.
Proof.
  unfold vector_step. intros H. apply obind_ret_inv in H as (vqt & Hvqt & H).
  destruct (props !! VQ_Field vqt) as [pro|] eqn:Hpro; [|done].
  apply obind_ret_inv in H as (? & Hty%guard_err_ret & H). apply negb_false_iff, bool_decide_eq_true in Hty.
  set (ix := if VQ_IndexType vqt =?s "" then _ else _) in H.
  apply obind_ret_inv in H as (? & Hix%guard_err_ret & H). apply string_eqb_neq in Hix.
  do 2 apply obind_ret_inv in H as (? & _ & H).
  apply obind_ret_inv in H as ([[code q] v] & Hfeat & H).
  apply obind_ret_inv in H as (? & Hq%guard_err_ret & H). apply orb_false_iff in Hq as [Hq Hv].
  apply obind_ret_inv in H as (? & Hn%guard_err_ret & H). apply obind_ret_inv in H as (? & _ & H).
  apply obind_ret_inv in H as (vq & Hvq & H). injection H as <- <-.
  apply Z.eqb_neq in Hq. apply negb_false_iff, Z.eqb_eq in Hv as ->.
  split; [done|]. split; [lia|]. exists vq. split; [done|].
  apply ToC_bytes in Hvq as (Hname & Hixt & Hlen). apply read_feature_len in Hfeat.
  exists vqt, pro. rewrite Hixt, Hlen. split_and!; try done. unfold vector_bytes.
  destruct code as [l|l]; destruct Hfeat as [Hb Hl].
  - by rewrite Hb.
  - apply string_eqb_neq in Hb as ->. lia.
Qed.

(** Every vector of an accepted search names a vector field of the space and
    carries the same number of whole vectors. *)
Theorem parseVectors_sound unmarshal_fields raws space props n vqs :
  properties_or_empty unmarshal_fields space = Ret props -> raws <> [] ->
  parseVectors unmarshal_VectorQuery unmarshal_uint8s unmarshal_float32s CheckMemoryLimitExceed unmarshal_fields
    0 [] raws space = Ret (n, vqs) ->
  n <> 0 /\ Forall2 (vector_ok props n) raws vqs.
Proof.
  intros Hp Hne. unfold parseVectors. rewrite Hp. simpl. intros H.
  eapply (ofold_inv (step props space) (fun seen st => (seen <> [] -> st.1 <> 0) /\ Forall2 (vector_ok props st.1) seen st.2))
    in H as [H1 H2]; [split; auto|by split|].
  intros seen raw [m acc] [m' acc'] [Hm Hacc] Hs. simpl in *.
  apply vector_step_ok in Hs as (Hm' & Heq & vq & -> & Hvq). split; [done|].
  apply Forall2_app; [|by constructor]. destruct seen as [|r seen]; [inversion Hacc; constructor|].
  destruct Heq as [->| ->]; [by destruct Hm|done].
Qed.

(** A query that asks for a BINARYIVF index on a vector of fewer than eight
    dimensions divides by zero. *)
Theorem binary_query_panics unmarshal_fields raw rest space props vqt pro l :
  properties_or_empty unmarshal_fields space = Ret props ->
  unmarshal_VectorQuery raw = Ret vqt -> props !! VQ_Field vqt = Some pro -> SP_FieldType pro = FT_VECTOR ->
  VQ_IndexType vqt = "BINARYIVF"%string -> 0 <= SP_Dimension pro < 8 -> VQ_FeatureData vqt <> ""%string ->
  CheckMemoryLimitExceed (Z.of_nat (String.length (VQ_FeatureData vqt))) = false ->
  unmarshal_uint8s (VQ_FeatureData vqt) = Ret l ->
  parseVectors unmarshal_VectorQuery unmarshal_uint8s unmarshal_float32s CheckMemoryLimitExceed unmarshal_fields
    0 [] (raw :: rest) space = Panic DivZero.
Proof.
  intros Hp Hvqt Hpro Hty Hix Hd Hdata Hmem Hl. unfold parseVectors. rewrite Hp. cbn [obind ofold]. unfold vector_step.
  rewrite Hvqt. cbn [obind]. rewrite Hpro, Hty, Hix. apply string_eqb_neq in Hdata. rewrite Hdata, Hmem.
  rewrite bool_decide_eq_true_2 by done. unfold read_feature, unmarshalArray. eval_strings. cbn [guard_err negb obind].
  rewrite (Z.quot_small _ _ Hd), Hl.
  destruct (Z.ltb_spec (Z.of_nat (String.length (VQ_FeatureData vqt))) 0); [lia|]. cbn [obind]. by rewrite andb_false_r.
Qed.
End VectorProofs.

(** ** Fields, sort order and partition names *)

Definition known_field (props : gmap string SpaceProperties) (f : string) : Prop :=
  f = Schema.IdField \/ is_Some (props !! f).

Lemma first_unknown_false props fields : first_unknown props fields = false -> Forall (known_field props) fields.
Proof.
  induction fields as [|f fields IH]; simpl; [constructor|]. destruct (_ && _) eqn:E; [done|]. intros H.
  constructor; [|auto]. apply andb_false_iff in E as [E|E]; apply negb_false_iff in E.
  - left. by apply string_eqb_eq.
  - right. by apply bool_decide_eq_true in E.
Qed.

Lemma choose_fields_known order props onlyId vectorValue fields fs :
  order ≡ₚ map_to_list props -> choose_fields order props onlyId vectorValue fields = Ret fs ->
  Forall (known_field props) fs.
Proof.
  intros Hperm. unfold choose_fields. destruct onlyId; [intros [= <-]; by constructor; [left|]|].
  assert (forall p, Forall (known_field props) (fst <$> List.filter p order)) as Hfilter.
  { intros p. apply Forall_forall. intros f ([f' sp] & -> & [Hin _]%list_elem_of_In%filter_In)%list_elem_of_fmap. right. simpl.
    apply list_elem_of_In in Hin. rewrite Hperm in Hin. apply elem_of_map_to_list in Hin. by eexists. }
  intros H. apply obind_ret_inv in H as ([a b] & Hab & H). injection H as <-.
  assert (Forall (known_field props) a /\ Forall (known_field props) b) as [Ha Hb].
  { destruct fields as [|f0 fields0].
    - injection Hab as <- <-. split; [apply Forall_app; split; [apply Hfilter|by constructor; [left|]]|apply Hfilter].
    - destruct (first_unknown props (f0 :: fields0)) eqn:E; [done|]. injection Hab as <- <-.
      split; [by apply first_unknown_false|constructor]. }
  destruct vectorValue; [by apply Forall_app|done].
Qed.

Lemma add_id_in fs : Schema.IdField ∈ add_id fs.
Proof.
  unfold add_id. destruct (contains fs Schema.IdField) eqn:E; [by apply contains_true|]. set_solver.
Qed.

Lemma add_id_known props fs : Forall (known_field props) fs -> Forall (known_field props) (add_id fs).
Proof. intros H. unfold add_id. case_match; [done|]. apply Forall_app. split; [done|]. constructor; [by left|done]. Qed.

(** What the sort loop leaves: every sort key is the score, the id or a returned
    field of the space. *)
Definition sorted_by (props : gmap string SpaceProperties) (fields : list string) (sf : string * bool) : Prop :=
  sf.1 = ScoreField \/ sf.1 = IdField \/ (is_Some (props !! sf.1) /\ sf.1 ∈ fields).

Lemma sort_fields_ok props fields so sfs fields' :
  Forall (known_field props) fields -> ofold (sort_step props fields) ([], fields) so = Ret (sfs, fields') ->
  Forall (known_field props) fields' /\ fields ⊆ fields' /\ Forall (sorted_by props fields') sfs /\ length sfs = length so.
Proof.
  intros Hk H.
  apply (ofold_inv _ (fun seen st => Forall (known_field props) st.2 /\ fields ⊆ st.2 /\
    Forall (sorted_by props st.2) st.1 /\ length st.1 = length seen)) in H; [done|done|].
  intros seen s [arr fs] [arr' fs'] (H1 & H2 & H3 & H4) Hs. unfold sort_step in Hs. simpl in H1, H2, H3, H4.
  destruct (negb _) eqn:E; [done|]. injection Hs as <- <-. simpl.
  apply negb_false_iff, orb_true_iff in E.
  set (sp := (SortField_name s =?s "_score") || (SortField_name s =?s "_id")) in *.
  assert (forall fs, (sp = true \/ SortField_name s ∈ fs) -> sorted_by props fs (SortField_name s, GetSortOrder s)) as Hnew.
  { intros fs0 Hin. unfold sorted_by. cbn [fst]. destruct sp eqn:Es.
    - unfold sp in Es. apply orb_true_iff in Es as [Es|Es]; apply string_eqb_eq in Es; auto.
    - destruct E as [|E]; [done|]. apply bool_decide_eq_true in E. destruct Hin; [done|auto]. }
  assert (forall fs1, fs ⊆ fs1 -> Forall (sorted_by props fs1) arr) as Hold.
  { intros fs1 Hsub. eapply Forall_impl; [exact H3|]. intros sf [Hs|[Hs|[Hs Hin]]]; [by left|by right; left|]. right. right. split; [done|]. by apply Hsub. }
  rewrite !length_app. split_and!; [..|simpl; lia].
  - case_match eqn:Ec; [|done]. apply Forall_app. split; [done|]. constructor; [|done]. right.
    apply andb_true_iff in Ec as [Ec _]. destruct E as [E|E]; [by rewrite E in Ec|]. by apply bool_decide_eq_true in E.
  - case_match; [|done]. intros f Hf. apply elem_of_app. left. by apply H2.
  - case_match eqn:Ec; apply Forall_app.
    + split; [apply Hold; intros f Hf; apply elem_of_app; by left|]. constructor; [|done]. apply Hnew.
      right. apply elem_of_app. right. by apply list_elem_of_singleton.
    + split; [by apply Hold|]. constructor; [|done]. apply Hnew.
      destruct sp; [by left|right]. simpl in Ec. apply orb_false_iff in Ec as [Ec _].
      apply negb_false_iff, contains_true in Ec. by apply H2.
Qed.

Lemma check_partition_names_ok space names r :
  check_partition_names space names = Ret r ->
  r = names /\ (names <> [] -> exists rule, RS_PartitionRule space = Some rule /\ forall n, n ∈ names -> n ∈ R_Name <$> PR_Ranges rule).
Proof.
  unfold check_partition_names. destruct names as [|n0 names0]; [by intros [= <-]|].
  destruct (RS_PartitionRule space) as [rule|]; [|done]. destruct (forallb _ _) eqn:E; [|done]. intros [= <-].
  split; [done|]. intros _. exists rule. split; [done|]. intros n Hn.
  apply forallb_Forall in E. rewrite Forall_forall in E. by apply contains_true, E.
Qed.

Section RequestProofs.
Context (D : decoders) (slow : bool).
Context (range_map_perm : forall A (m : gmap string A), d_range_map D A m ≡ₚ map_to_list m).

Lemma fields_known props space (onlyId vv : bool) fs0 fs :
  properties_or_empty (d_fields D) space = Ret props ->
  (let! ps := (if onlyId then Ret ∅ else properties_or_empty (d_fields D) space) in
   choose_fields (d_range_map D _ ps) ps onlyId vv fs0) = Ret fs ->
  Forall (known_field props) (add_id fs).
Proof.
  intros Hp. rewrite Hp. destruct onlyId; cbn [obind]; intros H; apply add_id_known.
  - injection H as <-. by constructor; [left|].
  - eapply choose_fields_known; [apply range_map_perm|exact H].
Qed.

(** The vectors of a search: as many queries as there are whole vectors in each of them, and at least one. *)
Definition vectors_taken (props : gmap string SpaceProperties) (searchDoc : SearchDocumentRequest) (r : SearchRequest) : Prop :=
  (SD_Vectors searchDoc = [] /\ SR_VecFields r = [] /\ SR_ReqNum r = 1) \/
  (SD_Vectors searchDoc <> [] /\ exists n, n <> 0 /\ Forall2 (vector_ok (d_VectorQuery D) props n) (SD_Vectors searchDoc) (SR_VecFields r) /\
     SR_ReqNum r = i32 (if n <=? 0 then 1 else n)).

Lemma parseSearch_vectors vectors filters space props sp : properties_or_empty (d_fields D) space = Ret props -> parseSearch D vectors filters space = Ret sp ->
  (vectors = [] /\ sp_VecFields sp = [] /\ sp_ReqNum sp = 1) \/
  (vectors <> [] /\ exists n, n <> 0 /\ Forall2 (vector_ok (d_VectorQuery D) props n) vectors (sp_VecFields sp) /\ sp_ReqNum sp = i32 (if n <=? 0 then 1 else n)).
Proof.
  intros Hp H. unfold parseSearch in H. apply obind_ret_inv in H as ([n vqs] & Hv & H). apply obind_ret_inv in H as ([[rfs tfs] op] & _ & H). injection H as <-. cbn.
  destruct vectors as [|raw raws]; [left; by injection Hv as <- <-|right]. split; [done|]. exists n. eapply parseVectors_sound in Hv as [Hn Hall]; [|exact Hp|done]. by split_and!.
Qed.


(** The same for a query, whose limit is positive: the number of document ids
    when ids are given. *)
Theorem queryRequestToPb_sound searchDoc space queryOnlyId props r :
  properties_or_empty (d_fields D) space = Ret props ->
  queryRequestToPb D searchDoc space queryOnlyId = Ret r ->
  Schema.IdField ∈ QR_Fields r /\ Forall (known_field props) (QR_Fields r) /\
  Forall (sorted_by props (QR_Fields r)) (QR_SortFields r) /\ 0 < QR_Limit r /\
  QR_DocumentIds r = default [] (SD_DocumentIds searchDoc) /\
  (QR_DocumentIds r <> [] -> QR_Limit r = i32 (Z.of_nat (length (QR_DocumentIds r)))) /\
  (SD_PartitionNames searchDoc <> [] -> exists rule, RS_PartitionRule space = Some rule /\
     forall n, n ∈ SD_PartitionNames searchDoc -> n ∈ R_Name <$> PR_Ranges rule).
Proof.
  intros Hp. unfold queryRequestToPb. intros H.
  apply obind_ret_inv in H as (ps & Hps & H). apply obind_ret_inv in H as (fs & Hfs & H).
  apply obind_ret_inv in H as (so & _ & H). rewrite Hp in H. cbn [obind] in H.
  apply obind_ret_inv in H as ([sfs fs'] & Hsort & H). apply obind_ret_inv in H as ([[rfs tfs] op] & _ & H).
  apply obind_ret_inv in H as (? & Hlim%guard_err_ret & H). apply obind_ret_inv in H as (nm & Hnm & H). injection H as <-.
  apply sort_fields_ok in Hsort as (Hk & Hsub & Hsorted & _).
  2: { eapply (fields_known props space queryOnlyId); [done|]. by rewrite Hps. }
  apply check_partition_names_ok in Hnm as [-> Hnm]. simpl.
  split; [apply Hsub, add_id_in|]. split_and!; try done.
  - by apply Z.leb_gt in Hlim.
  - intros Hne. by rewrite bool_decide_eq_false_2.
Qed.
End RequestProofs.

(** ** Examples *)

Definition demo_vector_prop (d : Z) : SpaceProperties :=
  {| SP_FieldType := FT_VECTOR; SP_Type := "vector"; SP_Index := None; SP_Format := None; SP_Dimension := d;
     SP_StoreType := None; SP_StoreParam := ""; SP_Option := FO_Index |}.
Definition demo_props : gmap string SpaceProperties :=
  {["age" := sample_prop FT_INT; "vec" := demo_vector_prop 2]}%string.
Definition demo_rspace : RSpace :=
  {| RS_Fields := ""; RS_SpaceProperties := Some demo_props; RS_Indexes := [];
     RS_PartitionRule := Some {| PR_Type := RangePartition; PR_Field := "age"; PR_Partitions := 1;
                                 PR_Ranges := [{| R_Name := "p1"; R_Value := "10" |}] |} |}.
Definition demo_vq (ix : string) : VectorQuery :=
  {| VQ_Field := "vec"; VQ_FeatureData := "[1,2]"; VQ_Symbol := ""; VQ_Value := None; VQ_Format := None;
     VQ_MinScore := None; VQ_MaxScore := None; VQ_IndexType := ix |}.
Definition demo_decode_vq (raw : string) : go VectorQuery :=
  if raw =?s "flat" then Ret (demo_vq "FLAT") else if raw =?s "bin" then Ret (demo_vq "BINARYIVF")
  else Fail (OtherErr "not a vector").
Definition demo_decoders : decoders :=
  {| d_int32 := sample_int32; d_int64 := no_number; d_float32 := no_number; d_float64 := no_number;
     d_string := fun _ => Fail (OtherErr ""); d_strings := sample_strings; d_any := sample_any;
     d_time := fun _ => None; d_ToString := sample_ToString; d_ToString_raw := fun s => s;
     d_fields := fun _ => Ret []; d_VectorQuery := demo_decode_vq;
     d_uint8s := fun _ => Ret [1; 2]; d_float32s := fun _ => Ret [1065353216; 1073741824];
     d_params := fun _ => Ret zero_params; d_ranker_type := fun _ => Ret WeightedRanker;
     d_memory := fun _ => false; d_range_map := fun A => map_to_list |}.
Definition demo_search (vectors : list string) : SearchDocumentRequest :=
  {| SD_Limit := 0; SD_Fields := []; SD_Filters := None; SD_Vectors := vectors;
     SD_Sort := Some [JString "age"]; SD_IndexParams := None; SD_L2Sqrt := false; SD_VectorValue := true;
     SD_IsBruteSearch := 0; SD_LoadBalance := "leader"; SD_DocumentIds := Some ["k1"; "k2"]%string;
     SD_PartitionId := None; SD_Next := None; SD_Ranker := None; SD_PageSize := 0; SD_PageNum := -1; SD_Offset := 3;
     SD_PartitionNames := ["p1"%string] |}.
Definition demo_pb : PbVectorQuery :=
  {| PV_Name := "vec"; PV_Value := [0; 0; 128; 63; 0; 0; 0; 64]; PV_MinScore := SFopp MaxFloat64;
     PV_MaxScore := MaxFloat64; PV_IndexType := "FLAT" |}.

Lemma parseVectors_sound_witness :
  1 <> 0 /\ Forall2 (vector_ok demo_decode_vq demo_props 1) ["flat"; "flat"]%string [demo_pb; demo_pb].
Proof.
  apply (parseVectors_sound demo_decode_vq (d_uint8s demo_decoders) (d_float32s demo_decoders) (fun _ => false)
    (fun _ => Ret []) ["flat"; "flat"]%string demo_rspace demo_props 1 [demo_pb; demo_pb]);
    [reflexivity|discriminate|vm_compute; reflexivity].
Defined.

Lemma binary_query_panics_witness :
  parseVectors demo_decode_vq (d_uint8s demo_decoders) (d_float32s demo_decoders) (fun _ => false) (fun _ => Ret [])
    0 [] ["bin"%string] demo_rspace = Panic DivZero.
Proof.
  apply (binary_query_panics demo_decode_vq (d_uint8s demo_decoders) (d_float32s demo_decoders) (fun _ => false)
    (fun _ => Ret []) "bin" [] demo_rspace demo_props (demo_vq "BINARYIVF") (demo_vector_prop 2) [1; 2]);
    try reflexivity; [split; reflexivity || discriminate|discriminate].
Defined.

Definition demo_search_request : SearchRequest :=
  Eval vm_compute in
    match requestToPb demo_decoders true (demo_search ["flat"%string]) demo_rspace false with Ret r => r | _ =>
      {| SR_IsVectorValue := false; SR_L2Sqrt := false; SR_IsBruteSearch := 0; SR_IndexParams := ""; SR_TopN := 0;
         SR_Fields := []; SR_SortFields := []; SR_VecFields := []; SR_RangeFilters := []; SR_TermFilters := [];
         SR_Operator := 0; SR_ReqNum := 0; SR_MultiVectorRank := 0; SR_Ranker := ""; SR_PageSize := 0; SR_PageNum := 0;
         SR_Offset := 0; SR_IsSlowSearch := false; SR_PartitionNames := []; SR_ClientType := "" |} end.


Definition demo_query_request : option QueryRequest :=
  match queryRequestToPb demo_decoders (demo_search []) demo_rspace false with Ret r => Some r | _ => None end.

Lemma queryRequestToPb_sound_witness :
  exists r, demo_query_request = Some r /\ Schema.IdField ∈ QR_Fields r /\ 0 < QR_Limit r.
Proof.
  destruct (queryRequestToPb demo_decoders (demo_search []) demo_rspace false) as [r|e|p] eqn:E;
    [|vm_compute in E; discriminate E|vm_compute in E; discriminate E].
  exists r. split; [unfold demo_query_request; rewrite E; reflexivity|].
  destruct (queryRequestToPb_sound demo_decoders (fun A m => Permutation_refl (map_to_list m)) (demo_search [])
    demo_rspace false demo_props r) as (H1 & _ & _ & H4 & _); [reflexivity|exact E|]. split; [exact H1|exact H4].
Defined.
