(* ===== verification/Limits.v ===== *)
(** * Request and memory limits (internal/entity/config.go, doc_http.go)

    The limits the master broadcasts to the routers: the total request rates,
    split evenly among the routers, and the share of memory a process may use.
    The token bucket itself ([rate.Limiter]) is a library: its configuration is
    modelled, its [Allow] is a parameter of the middleware that asks it. *)

From Stdlib Require Import SpecFloat.
From S2P Require Import Prelude.
From S2P Require Import Text.
From S2P Require Import Errors.
From S2P Require Import Floats.
From S2P Require Import SortOrder.
Open Scope Z_scope.

Record RequestLimitCfg : Type := { RequestLimitEnabled : bool; TotalReadLimit : float; TotalWriteLimit : float }.
Record MemoryLimitCfg : Set := { MemoryLimitEnabled : bool; RouterMemoryLimit : Z; PsMemoryLimit : Z }.

(** A [rate.Limiter]: [rate.Inf] or a rate, and the burst. *)
Inductive Rate : Type := RateInf | RateOf (f : float).
Record Limiter : Type := { lim_rate : Rate; lim_burst : Z }.

Definition float_million : float := float_of_int 1000000.
Definition DefaultReadRequestLimitCount : float := float_million.
Definition DefaultWriteRequestLimitCount : float := float_million.
Definition DefaultRouterMemoryLimitPercent : Z := 90.
Definition DefaultPsMemoryLimitPercent : Z := 90.

(** The package variables. [RouterCount] only counts up and down by one. *)
Record Config : Type := {
  RouterCount : Z;
  RequestLimitConfig : RequestLimitCfg;
  MemoryLimitConfig : MemoryLimitCfg;
  ReadLimiter : Limiter;
  WriteLimiter : Limiter;
  SlowSearchIsolationEnabled : bool;
  MemoryLimitUsage : Z;         (** uint64 *)
  TunerPercent : option Z;      (** the percentage of [GlobalMemoryLimitTuner] when it adjusts *)
  check_count : Z
}.

Definition inf_limiter : Limiter := {| lim_rate := RateInf; lim_burst := 0 |}.

Definition initial_config : Config :=
  {| RouterCount := 0;
     RequestLimitConfig := {| RequestLimitEnabled := true; TotalReadLimit := DefaultReadRequestLimitCount;
                              TotalWriteLimit := DefaultWriteRequestLimitCount |};
     MemoryLimitConfig := {| MemoryLimitEnabled := true; RouterMemoryLimit := DefaultRouterMemoryLimitPercent;
                             PsMemoryLimit := DefaultPsMemoryLimitPercent |};
     ReadLimiter := inf_limiter; WriteLimiter := inf_limiter; SlowSearchIsolationEnabled := true;
     MemoryLimitUsage := 0; TunerPercent := None; check_count := 0 |}.

Definition fdiv (x y : float) : float := SFdiv 53 1024 x y.
Definition fmul (x y : float) : float := SFmul 53 1024 x y.
(** The constant 1.1 as a float64. *)
Definition float_1_1 : float := S754_finite false 4953959590107546 (-52).

(** [int(f)]: towards zero. *)
Definition float_to_int (f : float) : Z :=
  match f with
  | S754_finite s m e =>
    let a := if 0 <=? e then Z.pos m * 2 ^ e else Z.pos m / 2 ^ (- e) in i64 (if s then - a else a)
  | _ => 0
  end.

(** One router's share of a total rate. *)
Definition share (total : float) (routers : Z) : Limiter :=
  let limit := fdiv total (float_of_int routers) in
  {| lim_rate := RateOf limit; lim_burst := float_to_int (fmul limit float_1_1) |}.

Definition set_limits (cfg : RequestLimitCfg) (routers : Z) (r w : Limiter) (c : Config) : Config :=
  {| RouterCount := routers; RequestLimitConfig := cfg; MemoryLimitConfig := MemoryLimitConfig c;
     ReadLimiter := r; WriteLimiter := w; SlowSearchIsolationEnabled := SlowSearchIsolationEnabled c;
     MemoryLimitUsage := MemoryLimitUsage c; TunerPercent := TunerPercent c; check_count := check_count c |}.

Definition float_positive (f : float) : bool := fltb (S754_zero false) f.

Definition SetRequestLimit (requestLimit : RequestLimitCfg) (c : Config) : Config :=
  if RequestLimitEnabled requestLimit then
    let cfg := {| RequestLimitEnabled := true;
                  TotalReadLimit := if float_positive (TotalReadLimit requestLimit) then TotalReadLimit requestLimit
                                    else DefaultReadRequestLimitCount;
                  TotalWriteLimit := if float_positive (TotalWriteLimit requestLimit) then TotalWriteLimit requestLimit
                                     else DefaultWriteRequestLimitCount |} in
    if 0 <? RouterCount c
    then set_limits cfg (RouterCount c) (share (TotalReadLimit cfg) (RouterCount c)) (share (TotalWriteLimit cfg) (RouterCount c)) c
    else set_limits cfg (RouterCount c) (ReadLimiter c) (WriteLimiter c) c
  else
    set_limits {| RequestLimitEnabled := false; TotalReadLimit := TotalReadLimit (RequestLimitConfig c);
                  TotalWriteLimit := TotalWriteLimit (RequestLimitConfig c) |}
      (RouterCount c) inf_limiter inf_limiter c.

Definition SetRouterCount (add : bool) (c : Config) : Config :=
  let n := if add then RouterCount c + 1 else RouterCount c - 1 in
  let cfg := RequestLimitConfig c in
  if RequestLimitEnabled cfg && (0 <? n)
  then set_limits cfg n (share (TotalReadLimit cfg) n) (share (TotalWriteLimit cfg) n) c
  else set_limits cfg n (ReadLimiter c) (WriteLimiter c) c.

Definition set_memory (cfg : MemoryLimitCfg) (usage : Z) (tuner : option Z) (c : Config) : Config :=
  {| RouterCount := RouterCount c; RequestLimitConfig := RequestLimitConfig c; MemoryLimitConfig := cfg;
     ReadLimiter := ReadLimiter c; WriteLimiter := WriteLimiter c;
     SlowSearchIsolationEnabled := SlowSearchIsolationEnabled c; MemoryLimitUsage := usage; TunerPercent := tuner;
     check_count := check_count c |}.

(** [SystemMemory * uint64(percent) / 100] in 64 bits. *)
Definition usage_of (SystemMemory percent : Z) : Z := u64 (SystemMemory * u64 percent) / 100.

Definition SetMemoryLimit (SystemMemory : Z) (memLimit : MemoryLimitCfg) (router : bool) (c : Config) : Config :=
  if MemoryLimitEnabled memLimit then
    let r := if 0 <? RouterMemoryLimit memLimit then RouterMemoryLimit memLimit else DefaultRouterMemoryLimitPercent in
    let p := if 0 <? PsMemoryLimit memLimit then PsMemoryLimit memLimit else DefaultPsMemoryLimitPercent in
    set_memory {| MemoryLimitEnabled := true; RouterMemoryLimit := r; PsMemoryLimit := p |}
      (if router then usage_of SystemMemory r else usage_of SystemMemory p)
      (if router then Some r else TunerPercent c) c
  else
    set_memory {| MemoryLimitEnabled := false; RouterMemoryLimit := RouterMemoryLimit (MemoryLimitConfig c);
                  PsMemoryLimit := PsMemoryLimit (MemoryLimitConfig c) |}
      0 (if router then None else TunerPercent c) c.

Definition set_check_count (n : Z) (c : Config) : Config :=
  {| RouterCount := RouterCount c; RequestLimitConfig := RequestLimitConfig c; MemoryLimitConfig := MemoryLimitConfig c;
     ReadLimiter := ReadLimiter c; WriteLimiter := WriteLimiter c;
     SlowSearchIsolationEnabled := SlowSearchIsolationEnabled c; MemoryLimitUsage := MemoryLimitUsage c;
     TunerPercent := TunerPercent c; check_count := n |}.

(** [usage] is what the operating system reports, zero on an error.  A request
    with a size is checked one time in ten. *)
Definition CheckVirtualMemExceed (usage : Z) (estimatedSize : Z) (c : Config) : Config * bool :=
  if MemoryLimitUsage c =? 0 then (c, false)
  else
    let sampled := 0 <? estimatedSize in
    let n := if sampled then Z.rem (check_count c + 1) 10 else check_count c in
    let c' := set_check_count n c in
    if sampled && negb (n =? 0) then (c', false)
    else (c', negb (usage =? 0) && (MemoryLimitUsage c <? usage)).

Definition SetSlowSearchIsolation (enabled : bool) (c : Config) : Config :=
  {| RouterCount := RouterCount c; RequestLimitConfig := RequestLimitConfig c; MemoryLimitConfig := MemoryLimitConfig c;
     ReadLimiter := ReadLimiter c; WriteLimiter := WriteLimiter c; SlowSearchIsolationEnabled := enabled;
     MemoryLimitUsage := MemoryLimitUsage c; TunerPercent := TunerPercent c; check_count := check_count c |}.

(** ** HttpLimitMiddleware (doc_http.go)

    [allow_read] and [allow_write] are the answers of the two limiters;
    [None] lets the request pass. *)
Definition TrimPrefix (s p : string) : string :=
  if HasPrefix s p then String.substring (String.length p) (String.length s - String.length p) s else s.

Inductive Verdict : Set := Pass | TooMuchMemory | WriteTooFrequent | ReadTooFrequent.

Definition HttpLimitMiddleware (memory_exceeded : Z -> bool) (allow_read allow_write : bool)
    (ContentLength : Z) (RequestURI : string) : Verdict :=
  if (0 <? ContentLength) && memory_exceeded ContentLength then TooMuchMemory
  else
    let Request := TrimPrefix RequestURI "/document/" in
    if (Request =?s "upsert") || (Request =?s "delete") then (if allow_write then Pass else WriteTooFrequent)
    else if (Request =?s "query") || (Request =?s "search") then (if allow_read then Pass else ReadTooFrequent)
    else Pass.

(** ** The limiters follow the configuration *)

(** With limits off nothing is throttled; with limits on and at least one router
    known, a limiter has one router's share of the total. *)
Definition limits_applied (c : Config) : Prop :=
  let cfg := RequestLimitConfig c in
  (RequestLimitEnabled cfg = false -> ReadLimiter c = inf_limiter /\ WriteLimiter c = inf_limiter) /\
  (RequestLimitEnabled cfg = true -> 0 < RouterCount c ->
     ReadLimiter c = share (TotalReadLimit cfg) (RouterCount c) /\
     WriteLimiter c = share (TotalWriteLimit cfg) (RouterCount c)).

Definition memory_applied (SystemMemory : Z) (router : bool) (c : Config) : Prop :=
  let cfg := MemoryLimitConfig c in
  MemoryLimitUsage c =
    if MemoryLimitEnabled cfg then usage_of SystemMemory (if router then RouterMemoryLimit cfg else PsMemoryLimit cfg) else 0.

(** The changes the watcher makes, in any order. *)
Inductive change : Type :=
| ChRequest (cfg : RequestLimitCfg)
| ChRouter (add : bool)
| ChMemory (cfg : MemoryLimitCfg)
| ChSlow (enabled : bool).

Definition apply_change (SystemMemory : Z) (router : bool) (ch : change) (c : Config) : Config :=
  match ch with
  | ChRequest cfg => SetRequestLimit cfg c
  | ChRouter add => SetRouterCount add c
  | ChMemory cfg => SetMemoryLimit SystemMemory cfg router c
  | ChSlow e => SetSlowSearchIsolation e c
  end.

Lemma apply_change_limits mem router ch c : limits_applied c -> limits_applied (apply_change mem router ch c).
Proof.
  intros [Hoff Hon]. destruct ch as [cfg|add|cfg|e]; simpl.
  - unfold SetRequestLimit. destruct (RequestLimitEnabled cfg); [|by split].
    destruct (Z.ltb_spec 0 (RouterCount c)); split; simpl; intros; (done || lia).
  - unfold SetRouterCount. destruct (RequestLimitEnabled (RequestLimitConfig c)) eqn:E; simpl.
    + destruct (Z.ltb_spec 0 (if add then RouterCount c + 1 else RouterCount c - 1)); split; simpl; rewrite ?E; intros; (done || lia).
    + split; simpl; rewrite E; [auto|done].
  - unfold SetMemoryLimit. by destruct (MemoryLimitEnabled cfg).
  - done.
Qed.

Lemma apply_change_memory mem router ch c :
  memory_applied mem router c \/ (exists cfg, ch = ChMemory cfg) -> memory_applied mem router (apply_change mem router ch c).
Proof.
  intros [H|[cfg ->]].
  - destruct ch as [cfg|add|cfg|e]; simpl; [| | |done].
    + unfold SetRequestLimit. by destruct (RequestLimitEnabled cfg), (0 <? RouterCount c).
    + unfold SetRouterCount. by destruct (_ && _).
    + unfold SetMemoryLimit, memory_applied. destruct (MemoryLimitEnabled cfg), router; done.
  - simpl. unfold SetMemoryLimit, memory_applied. destruct (MemoryLimitEnabled cfg), router; done.
Qed.

(** Whatever limit, router and memory events a process has seen, and in whatever
    order, its limiters and its memory bound are the ones its current
    configuration asks for. *)
Theorem limits_follow_config (SystemMemory : Z) (router : bool) (changes : list change) :
  let c := foldl (fun c ch => apply_change SystemMemory router ch c) initial_config changes in
  limits_applied c /\ (Exists (fun ch => exists cfg, ch = ChMemory cfg) changes -> memory_applied SystemMemory router c).
Proof.
  cbv zeta. induction changes as [|ch changes IH] using rev_ind; [split; [by split|by intros ?%Exists_nil]|].
  rewrite foldl_app. simpl. destruct IH as [IH1 IH2]. split; [by apply apply_change_limits|].
  rewrite Exists_app, Exists_cons, Exists_nil. intros [H|[H|[]]]; apply apply_change_memory; auto.
Qed.

Lemma substring_all s : String.substring 0 (String.length s) s = s.
Proof. induction s as [|a s IH]; simpl; [done|]. by rewrite IH. Qed.

Lemma prefix_app p s : String.prefix p (p +:+ s) = true.
Proof.
  induction p as [|a p IH]; simpl; [by destruct s|]. destruct (ascii_dec a a); [apply IH|done].
Qed.

Lemma TrimPrefix_app p s : TrimPrefix (p +:+ s) p = s.
Proof.
  unfold TrimPrefix, HasPrefix. rewrite prefix_app.
  assert (String.length (p +:+ s) - String.length p = String.length s)%nat as ->.
  { induction p as [|a p IH]; [apply Nat.sub_0_r|exact IH]. }
  induction p as [|a p IH]; [apply substring_all|apply IH].
Qed.

(** A request is throttled only when its URI is one of four strings exactly: with a
    query string appended, a search or an upsert passes whatever the limiters
    say. *)
Theorem query_string_bypasses_limits (memory_exceeded : Z -> bool) (allow_read allow_write : bool) (n : Z) (op q : string) :
  op ∈ ["upsert"; "delete"; "query"; "search"]%string -> memory_exceeded n = false ->
  HttpLimitMiddleware memory_exceeded allow_read allow_write n ("/document/" +:+ op) =
    (if contains ["upsert"; "delete"]%string op then (if allow_write then Pass else WriteTooFrequent)
     else (if allow_read then Pass else ReadTooFrequent)) /\
  HttpLimitMiddleware memory_exceeded allow_read allow_write n ("/document/" +:+ op +:+ "?" +:+ q) = Pass.
Proof.
  intros Hop Hmem. unfold HttpLimitMiddleware. rewrite Hmem, andb_false_r.
  rewrite !TrimPrefix_app.
  repeat (apply elem_of_cons in Hop as [->|Hop]); [..|by apply elem_of_nil in Hop]; (split; [done|]);
    cbn [String.append]; unfold string_eqb; rewrite !bool_decide_eq_false_2 by discriminate; done.
Qed.

Lemma query_string_bypasses_limits_witness :
  HttpLimitMiddleware (fun _ => false) false false 10 "/document/search" = ReadTooFrequent /\
  HttpLimitMiddleware (fun _ => false) false false 10 "/document/search?trace=true" = Pass.
Proof.
  apply (query_string_bypasses_limits (fun _ => false) false false 10 "search" "trace=true"); [|reflexivity].
  apply list_elem_of_In. simpl. auto.
Defined.
