(* ===== verification/Placement.v ===== *)
(** * Placing partitions on servers (internal/master/services/space_service.go)

    [filterAndSortServer] counts the partitions every usable server holds;
    [selectServersForPartition] takes the least loaded live servers for one
    partition, at most one per zone when an anti-affinity strategy is set.
    Servers are referred to by their position in the list of servers.  The
    order in which a map is walked, [sort.Slice] and the liveness probe are
    arguments. *)

From S2P Require Import Prelude.
From S2P Require Import Errors.
From S2P Require Import Partition.
From S2P Require Import Space.
From S2P Require Import Floats.
Open Scope Z_scope.

(** internal/entity/server.go; the address is [ip:port]. *)
Record Server : Type := {
  Server_ID : Z;
  Server_ResourceName : string;
  Server_RpcPort : Z;
  Server_Ip : string;
  HostIp : string;
  HostRack : string;
  HostZone : string;
  PartitionIds : list Z;
  Private : bool
}.

Definition RpcAddr (s : Server) : string := Server_Ip s +:+ ":" +:+ pretty (Server_RpcPort s).

(** ** filterAndSortServer *)

(** [serverPartitionCounts] and [serverIndexMap] *)
Record candidates : Type := { cd_counts : gmap nat Z; cd_index : gmap Z nat; cd_allowed : gmap string bool }.

Definition use_server (c : candidates) (i : nat) (s : Server) : candidates :=
  {| cd_counts := <[i := 0]> (cd_counts c); cd_index := <[Server_ID s := i]> (cd_index c); cd_allowed := cd_allowed c |}.

Definition filter_step (private : bool) (resource : string) (c : candidates) (x : nat * Server) : candidates :=
  let '(i, s) := x in
  if negb (Server_ResourceName s =?s resource) then
    if private then {| cd_counts := cd_counts c; cd_index := cd_index c;
                       cd_allowed := <[Server_Ip s := false]> (cd_allowed c) |}
    else c
  else if private then
    (if default false (cd_allowed c !! Server_Ip s) then use_server c i s else c)
  else if negb (Private s) then use_server c i s else c.

(** One replica of an existing partition. *)
Definition count_step (index : gmap Z nat) (counts : gmap nat Z) (nodeID : Z) : gmap nat Z :=
  match index !! nodeID with
  | Some i => <[i := default 0 (counts !! i) + 1]> counts
  | None => counts
  end.

Definition filterAndSortServer (dbPs : list string) (resource : string) (allSpaces : list Space) (servers : list Server) : gmap nat Z :=
  let private := negb (length dbPs =? 0)%nat in
  let allowed : gmap string bool := list_to_map (map (fun ip => (ip, true)) dbPs) in
  let c := fold_left (filter_step private resource) (imap (fun i s => (i, s)) servers)
             {| cd_counts := ∅; cd_index := ∅; cd_allowed := allowed |} in
  fold_left (count_step (cd_index c)) (concat (map P_Replicas (concat (map S_Partitions allSpaces)))) (cd_counts c).

(** ** selectServersForPartition *)

Section Select.
Context (sort : forall A, (A -> A -> bool) -> list A -> list A).
Context (IsLive : string -> bool) (antiAffinityStrategy : Z) (servers : list Server).

Definition zoneIdentifier (s : Server) : string :=
  if antiAffinityStrategy =? 1 then HostIp s
  else if antiAffinityStrategy =? 2 then HostRack s
  else if antiAffinityStrategy =? 3 then HostZone s
  else "".

Record selection : Type := {
  sl_counts : gmap nat Z;
  sl_zones : gmap string Z;
  sl_addrs : list string;
  sl_replicas : list Z;
  sl_left : Z                                (** [replicaCount], uint8 *)
}.

Definition pick (sl : selection) (i : nat) (s : Server) : selection :=
  let zone := zoneIdentifier s in
  {| sl_counts := <[i := default 0 (sl_counts sl !! i) + 1]> (sl_counts sl);
     sl_zones := if negb (zone =?s "") then <[zone := default 0 (sl_zones sl !! zone) + 1]> (sl_zones sl) else sl_zones sl;
     sl_addrs := sl_addrs sl ++ [RpcAddr s];
     sl_replicas := sl_replicas sl ++ [Server_ID s];
     sl_left := u8 (sl_left sl - 1) |}.

(** The loop over the sorted pairs, with its [continue]s and its [break]. *)
Fixpoint select_loop (pairs : list (nat * Z)) (sl : selection) : go selection :=
  match pairs with
  | [] => Ret sl
  | (i, partitionCount) :: pairs' =>
    let! s := index_at servers (Z.of_nat i) in
    let zone := zoneIdentifier s in
    if negb (IsLive (RpcAddr s)) then
      select_loop pairs' {| sl_counts := <[i := partitionCount]> (sl_counts sl); sl_zones := sl_zones sl;
                            sl_addrs := sl_addrs sl; sl_replicas := sl_replicas sl; sl_left := sl_left sl |}
    else if negb (zone =?s "") && (0 <? default 0 (sl_zones sl !! zone)) then select_loop pairs' sl
    else
      let sl' := pick sl i s in
      if sl_left sl' <=? 0 then Ret sl' else select_loop pairs' sl'
  end.

(** [order]: the pairs of [counts] in the order the iteration yields them.
    Returns the addresses, the partition's replicas and the updated counts. *)
Definition selectServersForPartition (counts : gmap nat Z) (order : list (nat * Z)) (replicaCount : Z)
    : go (list string * list Z * gmap nat Z) :=
  let pairs := sort _ (fun p q => p.2 <? q.2) order in
  let! sl := select_loop pairs {| sl_counts := counts; sl_zones := ∅; sl_addrs := []; sl_replicas := []; sl_left := replicaCount |} in
  if 0 <? sl_left sl then Fail (verr MASTER_PS_NOT_ENOUGH_SELECT "need %d partition servers but only got %d")
  else Ret (sl_addrs sl, sl_replicas sl, sl_counts sl).
End Select.

(** ** The servers chosen for a partition *)

Section Chosen.
Context (IsLive : string -> bool) (strategy : Z) (servers : list Server) (counts : gmap nat Z).
Notation zone := (zoneIdentifier strategy).

(** What a server occupies: its zone, or itself when it is in no zone. *)
Definition place (x : nat * Server) : string + nat := if zone x.2 =?s "" then inr x.1 else inl (zone x.2).
Definition load (i : nat) : Z := default 0 (counts !! i).
Definition candidate (x : nat * Server) : Prop :=
  servers !! x.1 = Some x.2 /\ is_Some (counts !! x.1) /\ IsLive (RpcAddr x.2) = true.

(** Distinct live candidates, no two of them in one zone. *)
Definition placement (chosen : list (nat * Server)) : Prop :=
  Forall candidate chosen /\ NoDup (place <$> chosen).

(** [y] was passed over for a server of its zone that holds no more partitions. *)
Definition outdone (chosen : list (nat * Server)) (y : nat * Server) : Prop :=
  exists x, x ∈ chosen /\ place x = place y /\ load x.1 <= load y.1.

Record sel_inv (rc : Z) (seen : list nat) (picked : list (nat * Server)) (sl : selection) : Prop := {
  si_placement : placement picked;
  si_seen : Forall (fun x => x.1 ∈ seen) picked;
  si_addrs : sl_addrs sl = (fun x => RpcAddr x.2) <$> picked;
  si_replicas : sl_replicas sl = (fun x => Server_ID x.2) <$> picked;
  si_left : sl_left sl = rc - Z.of_nat (length picked);
  si_used : forall z, 0 < default 0 (sl_zones sl !! z) <-> inl z ∈ place <$> picked;
  si_nonneg : forall z, 0 <= default 0 (sl_zones sl !! z);
  si_counts : forall j, sl_counts sl !! j = if bool_decide (j ∈ picked.*1) then Z.succ <$> counts !! j else counts !! j;
  si_all : forall y, y.1 ∈ seen -> candidate y -> outdone picked y
}.

Lemma place_inl z x : place x = inl z <-> zone x.2 = z /\ z <> ""%string.
Proof.
  unfold place. destruct (zone x.2 =?s "") eqn:E; [apply string_eqb_eq in E|apply string_eqb_neq in E]; naive_solver.
Qed.

Lemma seen_weaken (seen : list nat) i (picked : list (nat * Server)) :
  Forall (fun x => x.1 ∈ seen) picked -> Forall (fun x => x.1 ∈ seen ++ [i]) picked.
Proof. intros Hall. eapply Forall_impl; [done|]. intros x Hx. apply elem_of_app. by left. Qed.

Lemma sel_inv_skip rc seen picked sl i s :
  sel_inv rc seen picked sl -> servers !! i = Some s ->
  (IsLive (RpcAddr s) = false \/ outdone picked (i, s)) -> sel_inv rc (seen ++ [i]) picked sl.
Proof.
  intros [] Hs Hwhy. split; try done; [by apply seen_weaken|].
  intros [j s'] [Hj|Hj]%elem_of_app Hc; [by eapply si_all0|]. apply list_elem_of_singleton in Hj. cbn [fst] in Hj. subst j.
  pose proof Hc as (Hs' & _ & Hl). cbn [fst snd] in Hs', Hl. simplify_eq. destruct Hwhy; [congruence|done].
Qed.

Lemma not_seen_not_picked (seen : list nat) (picked : list (nat * Server)) i :
  Forall (fun x => x.1 ∈ seen) picked -> i ∉ seen -> i ∉ picked.*1.
Proof. intros Hall Hi (x & -> & Hx)%list_elem_of_fmap. rewrite Forall_forall in Hall. by apply Hall in Hx. Qed.

Lemma sel_inv_counts rc seen picked sl i c :
  sel_inv rc seen picked sl -> i ∉ seen -> counts !! i = Some c ->
  sel_inv rc seen picked
    {| sl_counts := <[i := c]> (sl_counts sl); sl_zones := sl_zones sl; sl_addrs := sl_addrs sl;
       sl_replicas := sl_replicas sl; sl_left := sl_left sl |}.
Proof.
  intros [] Hi Hc. split; try done. intros j. cbn. destruct (decide (i = j)) as [<-|Hne]; [|by rewrite lookup_insert_ne].
  rewrite lookup_insert_eq, bool_decide_false; [done|]. by eapply not_seen_not_picked.
Qed.

(** The zone counters after a pick. *)
Lemma pick_zones (sl : selection) (picked : list (nat * Server)) i s :
  (forall z, 0 < default 0 (sl_zones sl !! z) <-> inl z ∈ place <$> picked) ->
  (forall z, 0 <= default 0 (sl_zones sl !! z)) ->
  (forall z, 0 < default 0 (sl_zones (pick strategy sl i s) !! z) <-> inl z ∈ place <$> picked ++ [(i, s)]) /\
  (forall z, 0 <= default 0 (sl_zones (pick strategy sl i s) !! z)).
Proof.
  intros Hu Hn. cbn [pick sl_zones].
  assert (forall z, inl z ∈ place <$> picked ++ [(i, s)] <-> inl z ∈ place <$> picked \/ zone s = z /\ z <> ""%string) as Hin.
  { intros z. rewrite fmap_app, elem_of_app. cbn [fmap list_fmap]. rewrite list_elem_of_singleton.
    pose proof (place_inl z (i, s)). naive_solver. }
  destruct (zone s =?s "") eqn:E; cbn [negb]; [apply string_eqb_eq in E|apply string_eqb_neq in E].
  - split; [|done]. intros z. rewrite Hin, Hu. naive_solver.
  - split; intros z; rewrite ?Hin; destruct (decide (zone s = z)) as [<-|Hne];
      rewrite ?lookup_insert_eq, ?lookup_insert_ne by done; cbn [default from_option id].
    + pose proof (Hn (zone s)). split; [by right|lia].
    + rewrite Hu. naive_solver.
    + pose proof (Hn (zone s)). lia.
    + apply Hn.
Qed.

Lemma sel_inv_pick rc seen picked sl i s :
  sel_inv rc seen picked sl -> 0 < sl_left sl <= 255 -> i ∉ seen -> candidate (i, s) ->
  negb (zone s =?s "") && (0 <? default 0 (sl_zones sl !! zone s)) = false ->
  sel_inv rc (seen ++ [i]) (picked ++ [(i, s)]) (pick strategy sl i s).
Proof.
  intros [] Hleft Hi Hc Hz. assert (i ∉ picked.*1) as Hnew by by eapply not_seen_not_picked.
  destruct (pick_zones sl picked i s si_used0 si_nonneg0) as [Hused Hnn].
  split; try done; cbn [pick sl_addrs sl_replicas sl_left sl_counts].
  - destruct si_placement0 as [Hcand Hnd]. split; [by apply Forall_app_2; [|apply Forall_singleton]|].
    rewrite fmap_app. apply NoDup_app. split_and!; [done| |apply NoDup_singleton].
    intros q Hq ->%list_elem_of_singleton. destruct (place (i, s)) as [z|k] eqn:Hp.
    + pose proof (proj2 (si_used0 z) Hq). apply place_inl in Hp as [<- Hne]. cbn [snd] in *.
      rewrite (proj2 (string_eqb_neq _ _) Hne) in Hz. cbn [negb andb] in Hz. apply Z.ltb_ge in Hz. lia.
    + apply list_elem_of_fmap in Hq as (x & Hx & Hxin). apply Hnew, list_elem_of_fmap. exists x. split; [|done].
      unfold place in Hp, Hx. cbn [fst snd] in Hp. repeat case_match; congruence.
  - apply Forall_app_2; [by apply seen_weaken|]. apply Forall_singleton, elem_of_app. right. by left.
  - by rewrite si_addrs0, fmap_app.
  - by rewrite si_replicas0, fmap_app.
  - unfold u8. rewrite wrap_u_id by (unfold in_u; lia). rewrite si_left0, length_app. simpl. lia.
  - destruct Hc as (_ & [c Hc] & _). cbn [fst] in Hc. intros j. rewrite fmap_app. cbn [fmap list_fmap fst].
    destruct (decide (i = j)) as [<-|Hne].
    + rewrite lookup_insert_eq, (si_counts0 i), bool_decide_false, Hc by done.
      rewrite bool_decide_true by (apply elem_of_app; right; by left). done.
    + rewrite lookup_insert_ne, si_counts0 by done.
      rewrite (bool_decide_ext (j ∈ picked.*1 ++ [i]) (j ∈ picked.*1)); [done|].
      rewrite elem_of_app, list_elem_of_singleton. naive_solver.
  - intros y [Hy|Hy]%elem_of_app Hcy.
    + destruct (si_all0 y Hy Hcy) as (x & Hx & ?). exists x. split; [apply elem_of_app; by left|done].
    + apply list_elem_of_singleton in Hy. exists (i, s). split; [apply elem_of_app; right; by left|].
      destruct y as [j s'], Hcy as (Hs' & _), Hc as (Hs & _). cbn [fst snd] in *. subst j. simplify_eq. done.
Qed.

Definition lighter (p q : nat * Z) : bool := p.2 <? q.2.

#[export] Instance lighter_strict : StrictWeak (fun _ => True) lighter.
Proof. split; unfold lighter; intros; rewrite ?Z.ltb_lt, ?Z.ltb_ge in *; lia. Qed.

Lemma select_loop_spec rc pairs : forall seen picked sl,
  sel_inv rc seen picked sl -> 0 < sl_left sl <= 255 -> NoDup (seen ++ pairs.*1) ->
  Forall (fun p => counts !! p.1 = Some p.2 /\ (p.1 < length servers)%nat) pairs ->
  (forall i p, i ∈ seen -> p ∈ pairs -> load i <= p.2) -> StronglySorted (nlt lighter) pairs ->
  exists seen' rest picked' sl', select_loop IsLive strategy servers pairs sl = Ret sl' /\
    sel_inv rc seen' picked' sl' /\ seen ++ pairs.*1 = seen' ++ rest.*1 /\ 0 <= sl_left sl' /\
    (forall i p, i ∈ seen' -> p ∈ rest -> counts !! p.1 = Some p.2 /\ load i <= p.2) /\ (sl_left sl' = 0 \/ rest = []).
Proof.
  induction pairs as [|[i c] pairs IH]; intros seen picked sl Hinv Hleft Hnd Hall Hle Hsort.
  { exists seen, [], picked, sl. split_and!; try done; [lia| |by right]. by intros i p _ ?%elem_of_nil. }
  apply Forall_cons in Hall as [[Hc Hlen] Hall]. cbn [fst snd] in Hc, Hlen.
  apply StronglySorted_inv in Hsort as [Hsort Hhd]. rewrite Forall_forall in Hhd.
  destruct (lookup_lt_is_Some_2 servers i Hlen) as [s Hs].
  assert (i ∉ seen) as Hi.
  { apply NoDup_app in Hnd as (_ & Hd & _). intros Hin. apply (Hd i Hin). by left. }
  assert (forall j p, j ∈ seen ++ [i] -> p ∈ pairs -> load j <= p.2) as Hle'.
  { intros j p [Hj|Hj]%elem_of_app Hp; [by apply Hle; [|right]|]. apply list_elem_of_singleton in Hj as ->.
    specialize (Hhd p Hp). unfold nlt, lighter in Hhd. cbn [snd] in Hhd. apply Z.ltb_ge in Hhd. unfold load. rewrite Hc. exact Hhd. }
  assert (seen ++ ((i, c) :: pairs).*1 = (seen ++ [i]) ++ pairs.*1) as Happ by by rewrite <- app_assoc.
  rewrite Happ in Hnd |- *. cbn [select_loop]. rewrite (index_at_lookup servers _ s) by (rewrite ?Nat2Z.id; lia || done). cbn [obind].
  destruct (IsLive (RpcAddr s)) eqn:Hl; cbn [negb].
  2:{ eapply IH; try done. eapply sel_inv_skip; [by eapply sel_inv_counts|done|by left]. }
  destruct (negb (zone s =?s "") && (0 <? default 0 (sl_zones sl !! zone s))) eqn:Hz.
  { eapply IH; try done. eapply sel_inv_skip; [done..|right]. apply andb_true_iff in Hz as [Hne Hpos].
    apply Z.ltb_lt in Hpos. apply negb_true_iff, string_eqb_neq in Hne.
    apply (si_used _ _ _ _ Hinv), list_elem_of_fmap in Hpos as (x & Hx & Hxin). exists x. split; [done|]. split.
    - rewrite <- Hx. symmetry. by apply place_inl.
    - pose proof (si_seen _ _ _ _ Hinv) as Hseen. rewrite Forall_forall in Hseen.
      transitivity c; [apply (Hle x.1 (i, c)); [by apply Hseen|by left]|]. unfold load. cbn [fst]. by rewrite Hc. }
  assert (sel_inv rc (seen ++ [i]) (picked ++ [(i, s)]) (pick strategy sl i s)) as Hinv'.
  { apply sel_inv_pick; done. }
  assert (sl_left (pick strategy sl i s) = sl_left sl - 1) as Hl1.
  { cbn [pick sl_left]. unfold u8. by rewrite wrap_u_id by (unfold in_u; lia). }
  destruct (Z.leb_spec (sl_left (pick strategy sl i s)) 0) as [Hdone|Hmore].
  - exists (seen ++ [i]), pairs, (picked ++ [(i, s)]), (pick strategy sl i s).
    split_and!; try done; [lia| |left; lia]. intros j p Hj Hp. split; [|by apply Hle'].
    rewrite Forall_forall in Hall. by apply Hall.
  - eapply IH; try done. lia.
Qed.

(** The chosen servers carry one partition more, the others as many as before. *)
Definition bumped (chosen : list (nat * Server)) (counts' : gmap nat Z) : Prop :=
  forall j, counts' !! j = if bool_decide (j ∈ chosen.*1) then Z.succ <$> counts !! j else counts !! j.

(** Every usable server that is not chosen holds at least as many partitions as
    the chosen ones, or as a chosen one of its own zone. *)
Definition least_loaded (chosen : list (nat * Server)) : Prop :=
  forall y, candidate y -> (forall x, x ∈ chosen -> load x.1 <= load y.1) \/ outdone chosen y.

Lemma placement_index picked : placement picked -> NoDup picked.*1.
Proof.
  intros [Hc Hnd]. induction picked as [|[i s] picked IH]; [constructor|].
  apply Forall_cons in Hc as [[Hi _] Hc]. cbn [fmap list_fmap fst snd] in *. apply NoDup_cons in Hnd as [Hn Hnd].
  apply NoDup_cons. split; [|by apply IH]. intros ([j s'] & Hj & Hx)%list_elem_of_fmap. cbn [fst] in Hj. subst j.
  apply Hn. rewrite Forall_forall in Hc. pose proof (Hc _ Hx) as [Hs' _]. cbn [fst snd] in Hs'. simplify_eq.
  by apply (list_elem_of_fmap_2 place).
Qed.

(** A placement whose servers outdo all the candidates is as large as any. *)
Lemma placement_max picked other :
  placement other -> (forall y, candidate y -> outdone picked y) -> (length other <= length picked)%nat.
Proof.
  intros [Hc Hnd] Hall. rewrite <- (length_fmap place other), <- (length_fmap place picked).
  apply submseteq_length, NoDup_submseteq; [done|]. intros q (y & -> & Hy)%list_elem_of_fmap.
  rewrite Forall_forall in Hc. destruct (Hall y (Hc y Hy)) as (x & Hx & <- & _). by apply list_elem_of_fmap_2.
Qed.

Lemma sel_inv_init rc zones : zones = ∅ ->
  sel_inv rc [] [] {| sl_counts := counts; sl_zones := zones; sl_addrs := []; sl_replicas := []; sl_left := rc |}.
Proof.
  intros ->. split; try done; cbn [sl_left sl_zones length fmap list_fmap].
  - split; constructor.
  - lia.
  - intros z. rewrite lookup_empty. cbn. split; [lia|]. by intros ?%elem_of_nil.
  - intros y ?%elem_of_nil. done.
Qed.

(** The pairs cover the candidates. *)
Lemma candidate_seen (pairs : list (nat * Z)) seen (rest : list (nat * Z)) y :
  pairs ≡ₚ map_to_list counts -> pairs.*1 = seen ++ rest.*1 -> candidate y ->
  y.1 ∈ seen \/ exists p, p ∈ rest /\ p.1 = y.1.
Proof.
  intros Hperm Happ (_ & [c Hc] & _). assert (y.1 ∈ pairs.*1) as Hin.
  { apply list_elem_of_fmap. exists (y.1, c). split; [done|]. rewrite Hperm. by apply elem_of_map_to_list. }
  rewrite Happ in Hin. apply elem_of_app in Hin as [?|(p & Hp & Hin)%list_elem_of_fmap]; [by left|right]. by exists p.
Qed.

Lemma sel_inv_least_loaded rc pairs seen rest picked sl :
  sel_inv rc seen picked sl -> pairs ≡ₚ map_to_list counts -> pairs.*1 = seen ++ rest.*1 ->
  (forall i p, i ∈ seen -> p ∈ rest -> counts !! p.1 = Some p.2 /\ load i <= p.2) -> least_loaded picked.
Proof.
  intros Hinv Hperm Happ Hle y Hy. destruct (candidate_seen pairs seen rest y Hperm Happ Hy) as [Hs|(p & Hp & Hpy)].
  - right. by apply (si_all _ _ _ _ Hinv).
  - left. intros x Hx. pose proof (si_seen _ _ _ _ Hinv) as Hseen. rewrite Forall_forall in Hseen.
    destruct (Hle _ p (Hseen x Hx) Hp) as [Hc Hxp]. unfold load at 2. by rewrite <- Hpy, Hc.
Qed.
End Chosen.

Lemma selectServers_spec (sort : forall A, (A -> A -> bool) -> list A -> list A) (IsLive : string -> bool)
    (strategy : Z) (servers : list Server) (counts : gmap nat Z) (order : list (nat * Z)) (replicaCount : Z) :
  SortSlice sort -> 1 <= replicaCount <= 255 -> order ≡ₚ map_to_list counts ->
  (forall i, is_Some (counts !! i) -> (i < length servers)%nat) ->
  match selectServersForPartition sort IsLive strategy servers counts order replicaCount with
  | Ret (addrs, replicas, counts') => exists chosen,
      placement IsLive strategy servers counts chosen /\ Z.of_nat (length chosen) = replicaCount /\
      NoDup chosen.*1 /\ least_loaded IsLive strategy servers counts chosen /\ bumped counts chosen counts' /\
      addrs = (fun x => RpcAddr x.2) <$> chosen /\ replicas = (fun x => Server_ID x.2) <$> chosen
  | Fail e => e = verr MASTER_PS_NOT_ENOUGH_SELECT "need %d partition servers but only got %d" /\
      forall other, placement IsLive strategy servers counts other -> Z.of_nat (length other) < replicaCount
  | Panic _ => False
  end.
Proof.
  intros Hsort Hrc Hperm Hlen. unfold selectServersForPartition.
  change (fun p q : nat * Z => p.2 <? q.2) with lighter.
  pose proof (Permutation_trans (sort_perm (sort := sort) _ lighter order) Hperm) as Hp.
  assert (StronglySorted (nlt lighter) (sort _ lighter order)) as Hss.
  { apply (sort_sorted (sort := sort) _ (fun _ => True)); [apply _|by apply Forall_true]. }
  set (pairs := sort _ lighter order) in *.
  destruct (select_loop_spec IsLive strategy servers counts replicaCount pairs [] [] _
              (sel_inv_init IsLive strategy servers counts replicaCount ∅ eq_refl))
    as (seen & rest & chosen & sl & Hloop & Hinv & Happ & Hpos & Hle & Hend); try done.
  { cbn [sl_left]. lia. }
  { cbn [app]. rewrite Hp. apply NoDup_fst_map_to_list. }
  { apply Forall_forall. intros [i c] Hin. rewrite Hp in Hin. apply elem_of_map_to_list in Hin.
    split; [done|]. by apply Hlen. }
  { by intros i p ?%elem_of_nil. }
  rewrite Hloop. cbn [obind app] in *. pose proof (si_left _ _ _ _ _ _ _ _ Hinv) as Hleft.
  destruct (Z.ltb_spec 0 (sl_left sl)) as [Hmore|Hdone].
  - destruct Hend as [?| ->]; [lia|]. split; [done|]. intros other Ho.
    assert (length other <= length chosen)%nat; [|lia]. eapply placement_max; [done|]. intros y Hy.
    apply (si_all _ _ _ _ _ _ _ _ Hinv); [|done].
    by destruct (candidate_seen IsLive servers counts pairs seen [] y Hp Happ Hy) as [?|(? & ?%elem_of_nil & _)].
  - pose proof (si_placement _ _ _ _ _ _ _ _ Hinv) as Hpl. exists chosen. split_and!; [done|lia|by eapply placement_index| | |apply Hinv..].
    + by eapply sel_inv_least_loaded.
    + intros j. apply Hinv.
Qed.

(** The servers a partition is placed on: [replicaCount] live candidates, no two
    of them the same or in one anti-affinity zone, none holding more partitions
    than a usable server that was passed over (servers of an occupied zone
    apart); their partition counts grow by one and the other counts stay.  The
    selection fails, with nothing but [MASTER_PS_NOT_ENOUGH_SELECT], exactly
    when no such set of servers exists.  (C25) *)
Theorem selectServersForPartition_sound (sort : forall A, (A -> A -> bool) -> list A -> list A) (IsLive : string -> bool)
    (strategy : Z) (servers : list Server) (counts : gmap nat Z) (order : list (nat * Z)) (replicaCount : Z) :
  SortSlice sort -> 1 <= replicaCount <= 255 -> order ≡ₚ map_to_list counts ->
  (forall i, is_Some (counts !! i) -> (i < length servers)%nat) ->
  match selectServersForPartition sort IsLive strategy servers counts order replicaCount with
  | Ret (addrs, replicas, counts') => exists chosen,
      placement IsLive strategy servers counts chosen /\ Z.of_nat (length chosen) = replicaCount /\
      NoDup chosen.*1 /\ least_loaded IsLive strategy servers counts chosen /\ bumped counts chosen counts' /\
      addrs = (fun x => RpcAddr x.2) <$> chosen /\ replicas = (fun x => Server_ID x.2) <$> chosen
  | Fail e => e = verr MASTER_PS_NOT_ENOUGH_SELECT "need %d partition servers but only got %d" /\
      forall other, placement IsLive strategy servers counts other -> Z.of_nat (length other) < replicaCount
  | Panic _ => False
  end.
Proof. apply selectServers_spec. Qed.

(** The usable servers are positions of the list. *)
Definition in_range (servers : list Server) (c : candidates) : Prop :=
  (forall j, is_Some (cd_counts c !! j) -> (j < length servers)%nat) /\ (forall id j, cd_index c !! id = Some j -> (j < length servers)%nat).

Lemma filter_step_in_range private resource servers c k s :
  (k < length servers)%nat -> in_range servers c -> in_range servers (filter_step private resource c (k, s)).
Proof.
  intros Hk [H1 H2]. assert (in_range servers (use_server c k s)) as Hu.
  { cbn. split; cbn; intros.
    - destruct (decide (k = j)) as [<-|]; [done|]. rewrite lookup_insert_ne in *; auto.
    - destruct (decide (Server_ID s = id)) as [<-|]; [rewrite lookup_insert_eq in *; congruence|]. rewrite lookup_insert_ne in *; eauto. }
  unfold filter_step. repeat case_match; done.
Qed.

Lemma count_step_in_range (servers : list Server) (index : gmap Z nat) ids : (forall id j, index !! id = Some j -> (j < length servers)%nat) ->
  forall m : gmap nat Z, (forall j, is_Some (m !! j) -> (j < length servers)%nat) ->
  forall j, is_Some (fold_left (count_step index) ids m !! j) -> (j < length servers)%nat.
Proof.
  intros Hi. induction ids as [|id ids IH]; intros m Hm; [apply Hm|]. cbn [fold_left]. apply IH. intros j Hj. unfold count_step in Hj.
  destruct (index !! id) as [k|] eqn:E; [|by apply Hm]. destruct (decide (k = j)) as [<-|]; [by eapply Hi|].
  rewrite lookup_insert_ne in Hj; auto.
Qed.

Lemma filterAndSortServer_indices dbPs resource allSpaces (servers : list Server) i :
  is_Some (filterAndSortServer dbPs resource allSpaces servers !! i) -> (i < length servers)%nat.
Proof.
  unfold filterAndSortServer. set (init := {| cd_counts := ∅; cd_index := ∅; cd_allowed := _ |}). set (private := negb _).
  assert (in_range servers init) as H0 by (split; cbn; [by intros j [? ?%lookup_empty_Some]|by intros id j ?%lookup_empty_Some]).
  assert (Forall (fun x => (x.1 < length servers)%nat) (imap (fun i s => (i, s)) servers)) as Hxs.
  { apply Forall_forall. intros x (j & y & -> & Hy)%elem_of_lookup_imap. cbn [fst]. by eapply lookup_lt_Some. }
  assert (in_range servers (fold_left (filter_step private resource) (imap (fun i s => (i, s)) servers) init)) as [H1 H2].
  { revert H0. generalize init. induction Hxs as [|[k s] xs Hk _ IH]; intros c Hc; [done|]. cbn [fold_left].
    apply IH. by apply filter_step_in_range. }
  by apply count_step_in_range.
Qed.

(** Three servers in two racks, the least loaded one down. *)
Definition demo_servers : list Server :=
  let mk id rack := {| Server_ID := id; Server_ResourceName := "default"; Server_RpcPort := 8081; Server_Ip := "10.0.0." +:+ pretty id;
                       HostIp := ""; HostRack := rack; HostZone := ""; PartitionIds := []; Private := false |} in
  [mk 1 "a"; mk 2 "a"; mk 3 "b"; mk 4 "b"]%string.
Definition demo_counts : gmap nat Z := list_to_map [(0%nat, 3); (1%nat, 2); (2%nat, 0); (3%nat, 5)].

Lemma selectServersForPartition_sound_witness :
  let live a := negb (a =?s "10.0.0.3:8081") in
  selectServersForPartition (@insertion_sort) live 2 demo_servers demo_counts (map_to_list demo_counts) 2
    = Ret (["10.0.0.2:8081"; "10.0.0.4:8081"]%string, [2; 4], <[1%nat := 3]> (<[3%nat := 6]> demo_counts)) /\
  exists chosen, least_loaded live 2 demo_servers demo_counts chosen /\ chosen.*1 = [1%nat; 3%nat].
Proof.
  assert (forall i, is_Some (demo_counts !! i) -> (i < length demo_servers)%nat) as Hlen.
  { intros i [c Hc]. apply elem_of_list_to_map_2 in Hc. repeat (apply elem_of_cons in Hc as [[= -> ->]|Hc]; [simpl; lia|]).
    by apply elem_of_nil in Hc. }
  pose proof (selectServersForPartition_sound (@insertion_sort) (fun a => negb (a =?s "10.0.0.3:8081")) 2 demo_servers demo_counts
                (map_to_list demo_counts) 2 insertion_sort_slice ltac:(lia) (Permutation_refl _) Hlen) as H.
  split; [vm_compute; reflexivity|].
  destruct (selectServersForPartition _ _ _ _ _ _ _) as [[[addrs reps] c']| |] eqn:E; [|vm_compute in E; discriminate..].
  assert (reps = [2; 4]) as Hr by (vm_compute in E; congruence).
  destruct H as (chosen & [Hc _] & _ & _ & Hll & _ & _ & Hrep). exists chosen. split; [exact Hll|].
  rewrite Hr in Hrep. clear -Hc Hrep. destruct chosen as [|[i s] [|[j t] [|]]]; try discriminate.
  injection Hrep as Hi Hj. apply Forall_cons in Hc as [[Hs _] [[Ht _] _]%Forall_cons]. cbn [fst snd] in *.
  destruct i as [|[|[|[|]]]], j as [|[|[|[|]]]]; cbn in Hs, Ht; simplify_eq; cbn in *; try discriminate; reflexivity.
Defined.
