(* ===== verification/Store.v ===== *)
(** * The metadata store (internal/master/store, internal/client/master.go)

    etcd as the master uses it: a map from keys to strings, changed by single
    operations and by transactions ([STM]) that apply as a whole or not at all.
    Every call may fail: [fault n] is what goes wrong with the [n]-th call of a
    run, if anything - the error the caller sees and whether the call took
    effect all the same, its answer having been lost - so that a theorem over
    all [fault] covers all patterns of failure.  JSON encoding is a [Codec]. *)

From S2P Require Import Prelude.
From S2P Require Import Text.
From S2P Require Import Errors.
From S2P Require Import Names.
From S2P Require Import Rbac.
From S2P Require Import Keys.
Open Scope Z_scope.

(** ** Encodings *)

(** [json.Marshal] and [json.Unmarshal] at one type.  A value whose strings are
    valid UTF-8 is [Encodable]: the others come back changed. *)
Class Codec (A : Type) := {
  Marshal : A -> string;
  Unmarshal : string -> option A;
  Encodable : A -> Prop;
  Unmarshal_Marshal : forall a, Encodable a -> Unmarshal (Marshal a) = Some a;
  Marshal_nonempty : forall a, Marshal a <> ""%string
}.

(** [strconv.FormatInt] and [strconv.ParseInt], base 10. *)
Definition FormatInt (z : Z) : string := pretty z.

Definition digit (c : ascii) : option N :=
  let n := N_of_ascii c in
  if (48 <=? n)%N && (n <=? 57)%N then Some (n - 48)%N else None.

Fixpoint parse_digits (s : string) (acc : N) : option N :=
  match s with
  | EmptyString => Some acc
  | String c s' => match digit c with Some d => parse_digits s' (acc * 10 + d)%N | None => None end
  end.

Definition parse_N (s : string) : option N :=
  match s with EmptyString => None | _ => parse_digits s 0 end.

Definition in_int64 (z : Z) : option Z := if (- 2 ^ 63 <=? z) && (z <? 2 ^ 63) then Some z else None.

Definition ParseInt (s : string) : option Z :=
  match s with
  | String "-" s' => n ← parse_N s'; in_int64 (- Z.of_N n)
  | String "+" s' => n ← parse_N s'; in_int64 (Z.of_N n)
  | _ => n ← parse_N s; in_int64 (Z.of_N n)
  end.

Lemma digit_char (x : N) : (x < 10)%N -> digit (pretty_N_char x) = Some x.
Proof.
  intros Hx. assert (x ∈ [0;1;2;3;4;5;6;7;8;9]%N) as Hin.
  { rewrite !elem_of_cons. lia. }
  repeat (apply elem_of_cons in Hin as [->|Hin]; [reflexivity|]). by apply elem_of_nil in Hin.
Qed.

Lemma parse_digits_go x : forall s, parse_digits (pretty_N_go x s) 0 = parse_digits s x.
Proof.
  induction (N.lt_wf_0 x) as [x _ IH]; intros s.
  destruct (decide (x = 0)%N) as [->|Hx]; [by rewrite pretty_N_go_0|].
  rewrite pretty_N_go_step by lia. rewrite IH by (apply N.div_lt; lia). cbn [parse_digits].
  rewrite digit_char by (apply N.mod_lt; lia). f_equal. rewrite N.mul_comm. symmetry. by apply N.div_mod.
Qed.

Lemma parse_N_pretty (n : N) : parse_N (pretty n) = Some n.
Proof.
  unfold pretty, pretty_N. case_decide as Hn; [by subst|].
  assert (parse_digits (pretty_N_go n "") 0 = Some n) as H by apply parse_digits_go.
  unfold parse_N. destruct (pretty_N_go n "") eqn:E; [|done]. cbn in H. congruence.
Qed.

Lemma pretty_N_head (n : N) : exists c s, pretty n = String c s /\ is_Some (digit c).
Proof.
  pose proof (parse_N_pretty n) as H. destruct (pretty n) as [|c s]; [done|]. exists c, s. split; [done|].
  cbn in H. destruct (digit c); [by eexists|done].
Qed.

Lemma ParseInt_FormatInt z : in_s 64 z -> ParseInt (FormatInt z) = Some z.
Proof.
  intros Hz. assert (in_int64 z = Some z) as Hok.
  { unfold in_int64, in_s in *. destruct (Z.leb_spec (- 2 ^ 63) z), (Z.ltb_spec z (2 ^ 63)); done || lia. }
  assert (forall c s, is_Some (digit c) -> ParseInt (String c s) = (n ← parse_N (String c s); in_int64 (Z.of_N n))) as Hhead.
  { intros c s [d Hd]. destruct c as [[] [] [] [] [] [] [] []]; vm_compute in Hd; done || reflexivity. }
  unfold FormatInt. destruct z as [|p|p].
  - reflexivity.
  - change (pretty (Z.pos p)) with (pretty (N.pos p)). destruct (pretty_N_head (N.pos p)) as (c & s & Hp & Hd). rewrite Hp, Hhead, <- Hp, parse_N_pretty by done. exact Hok.
  - change (ParseInt (pretty (Z.neg p))) with (n ← parse_N (pretty (N.pos p)); in_int64 (- Z.of_N n)).
    rewrite parse_N_pretty. exact Hok.
Qed.

Lemma FormatInt_nonempty z : FormatInt z <> ""%string.
Proof.
  unfold FormatInt. destruct z as [|p|p]; [done| |done]. change (pretty (Z.pos p)) with (pretty (N.pos p)).
  by destruct (pretty_N_head (N.pos p)) as (c & s & -> & _).
Qed.

(** ** Calls *)

Record world : Type := { kv : gmap string string; calls : nat }.

(** A Go function of the master that returns [(A, error)]. *)
Definition M (A : Type) : Type := world -> world * go A.

Definition mret {A} (m : go A) : M A := fun w => (w, m).
Definition mbind_M {A B} (m : M A) (k : A -> M B) : M B := fun w =>
  match m w with
  | (w', Ret a) => k a w'
  | (w', Fail e) => (w', Fail e)
  | (w', Panic p) => (w', Panic p)
  end.

Notation "'do!' x <- m 'in' k" := (mbind_M m (fun x => k))
  (at level 200, x pattern, m at level 100, k at level 200) : go_scope.
Notation "'do_!' m 'in' k" := (mbind_M m (fun _ => k))
  (at level 200, m at level 100, k at level 200) : go_scope.

Lemma mbind_ret {A B} (a : A) (k : A -> M B) : mbind_M (mret (Ret a)) k = k a.
Proof. reflexivity. Qed.

Lemma mbind_fail {A B} (e : error) (k : A -> M B) : mbind_M (mret (Fail e)) k = mret (Fail e).
Proof. reflexivity. Qed.

Definition txn (A : Type) : Type := gmap string string -> go (gmap string string * A).

(** [stm.Get] yields the empty string for a key that is not there. *)
Definition stm_get (t : gmap string string) (key : string) : string := default ""%string (t !! key).

Section Calls.
Context (fault : nat -> option (error * bool)).

(** A call to etcd. *)
Definition call {A} (f : gmap string string -> gmap string string * go A) : M A := fun w =>
  match fault (calls w) with
  | Some (e, took_effect) =>
      ({| kv := if took_effect then (f (kv w)).1 else kv w; calls := S (calls w) |}, Fail e)
  | None => let '(t, r) := f (kv w) in ({| kv := t; calls := S (calls w) |}, r)
  end.

Definition Get (key : string) : M (option string) := call (fun t => (t, Ret (t !! key))).
Definition Put (key value : string) : M unit := call (fun t => (<[key := value]> t, Ret tt)).

Definition Create (key value : string) : M unit := call (fun t =>
  match t !! key with
  | None => (<[key := value]> t, Ret tt)
  | Some _ => (t, Fail (OtherErr "etcd store key :%v error"))
  end).

Definition Delete (key : string) : M unit := call (fun t =>
  match t !! key with
  | Some _ => (delete key t, Ret tt)
  | None => (t, Fail (OtherErr "key not exist error, key:%v"))
  end).

(** The pairs whose key starts with the prefix, by ascending key. *)
Definition scan (t : gmap string string) (prefix : string) : list (string * string) :=
  merge_sort (fun a b => Is_true (String.leb a.1 b.1)) (filter (fun kv => HasPrefix kv.1 prefix = true) (map_to_list t)).
Definition PrefixScan (prefix : string) : M (list (string * string)) := call (fun t => (t, Ret (scan t prefix))).

Definition STM {A} (apply : txn A) : M A := call (fun t =>
  match apply t with
  | Ret (t', a) => (t', Ret a)
  | Fail e => (t, Fail e)
  | Panic p => (t, Panic p)
  end).

Definition NewIDGenerate (key : string) (base : Z) : M Z :=
  STM (fun t =>
    let v := stm_get t key in
    if v =?s "" then Ret (<[key := FormatInt base]> t, base)
    else
      match ParseInt v with
      | None => Fail (OtherErr "increment id error in storage :%v")
      | Some intv => let nextID := i64 (intv + 1) in Ret (<[key := FormatInt nextID]> t, nextID)
      end).

(** ** Lookups of the master client *)

Context (st : Prefixes) (ToInt64E : string -> option Z).

Definition QueryDBName2ID (name : string) : M Z :=
  do! bs <- Get (DBKeyName st name) in
  match bs with
  | None => mret (Fail (NewError DB_NOT_EXIST None))
  | Some v => match ToInt64E v with Some id => mret (Ret id) | None => mret (Fail (OtherErr "unable to cast")) end
  end.

Definition QueryDBId2Name (id : Z) : M string :=
  do! bs <- Get (DBKeyId st id) in
  match bs with
  | None => mret (Fail (NewError DB_NOT_EXIST None))
  | Some v => mret (Ret v)
  end.

(** The values of a scan that decode; the others are logged and skipped. *)
Definition decode_all {A} `{Codec A} (kvs : list (string * string)) : list A := omap (fun kv => Unmarshal kv.2) kvs.

Definition QuerySpacesByKey {Space} `{Codec Space} (prefix : string) : M (list Space) :=
  do! kvs <- PrefixScan prefix in mret (Ret (decode_all kvs)).

Definition QuerySpaces {Space} `{Codec Space} (dbID : Z) : M (list Space) :=
  QuerySpacesByKey (PrefixSpace st +:+ pretty dbID +:+ "/").

Definition QueryServers {Server} `{Codec Server} : M (list Server) :=
  do! kvs <- PrefixScan (PrefixServer st) in mret (Ret (decode_all kvs)).

(** ** Locks

    A function that takes a lock and defers its release: an error of [Lock] is
    returned, one of [Unlock] is only logged.  (What the lock itself does is in
    DistLock.v; its keys are not part of [kv].) *)
Definition Lock : M unit := call (fun t => (t, Ret tt)).
Definition Unlock : M unit := call (fun t => (t, Ret tt)).
Definition with_lock {A} (m : M A) : M A :=
  do_! Lock in fun w => let '(w', r) := m w in ((Unlock w').1, r).
End Calls.

(** ** Reasoning about calls

    [triple P m Q]: run on any store that satisfies [P], whatever goes wrong,
    [m] ends with a result and a store that satisfy [Q]. *)

Definition triple {A} (P : gmap string string -> Prop) (m : M A) (Q : go A -> gmap string string -> Prop) : Prop :=
  forall w, P (kv w) -> Q (m w).2 (kv (m w).1).

Lemma triple_ret {A} (P : gmap string string -> Prop) (r : go A) Q : (forall t, P t -> Q r t) -> triple P (mret r) Q.
Proof. intros H w. apply H. Qed.

Lemma triple_bind {A B} P (m : M A) (k : A -> M B) Q R :
  triple P m Q -> (forall a, triple (Q (Ret a)) (k a) R) -> (forall e t, Q (Fail e) t -> R (Fail e) t) ->
  (forall p t, Q (Panic p) t -> R (Panic p) t) -> triple P (mbind_M m k) R.
Proof.
  intros Hm Hk He Hp w Hw. specialize (Hm w Hw). unfold mbind_M. destruct (m w) as [w' [a|e|p]]; cbn [fst snd] in *; [|auto..].
  by apply Hk.
Qed.

Lemma triple_call {A} fault (P : gmap string string -> Prop) (f : gmap string string -> gmap string string * go A) Q :
  (forall t, P t -> Q (f t).2 (f t).1) ->
  (forall t e, P t -> Q (Fail e) t /\ Q (Fail e) (f t).1) -> triple P (call fault f) Q.
Proof.
  intros Hok Hfail w Hw. unfold call. destruct (fault (calls w)) as [[e b]|]; cbn [fst snd kv].
  - destruct (Hfail _ e Hw), b; done.
  - specialize (Hok _ Hw). by destruct (f (kv w)).
Qed.

(** A call that only reads. *)
Lemma triple_read {A} fault (P : gmap string string -> Prop) (f : gmap string string -> go A) Q :
  (forall t, P t -> Q (f t) t) -> (forall t e, P t -> Q (Fail e) t) -> triple P (call fault (fun t => (t, f t))) Q.
Proof. intros Hok Hfail. apply triple_call; [done|]. intros t e Ht. split; by apply Hfail. Qed.

(** A transaction: if it fails in any way, it has been applied or it has not. *)
Lemma triple_STM {A} fault (P : gmap string string -> Prop) (f : txn A) Q :
  (forall t, P t -> match f t with Ret (t', a) => Q (Ret a) t' | Fail e => Q (Fail e) t | Panic p => Q (Panic p) t end) ->
  (forall t e, P t -> Q (Fail e) t /\ forall t' a, f t = Ret (t', a) -> Q (Fail e) t') -> triple P (STM fault f) Q.
Proof.
  intros Hok Hfail. apply triple_call; intros t.
  - intros Ht. specialize (Hok t Ht). by destruct (f t) as [[? ?]| |].
  - intros e Ht. destruct (Hfail t e Ht) as [? H']. split; [done|]. destruct (f t) as [[? ?]| |]; by eauto.
Qed.

Lemma triple_with_lock {A} fault P (m : M A) Q :
  triple P m Q -> (forall e t, P t -> Q (Fail e) t) -> triple P (with_lock fault m) Q.
Proof.
  intros Hm Hfail. apply (triple_bind P _ _ (fun r t => P t /\ forall p, r <> Panic p)).
  - apply triple_read; by repeat split.
  - intros a w [Hw _]. specialize (Hm w Hw). destruct (m w) as [w' r]. cbn [fst snd] in *.
    unfold Unlock, call. by destruct (fault (calls w')) as [[? []]|].
  - intros e t [Ht _]. by apply Hfail.
  - intros p t [_ Hp]. by destruct (Hp p).
Qed.

Lemma triple_conseq {A} (P P' : gmap string string -> Prop) (m : M A) (Q Q' : go A -> gmap string string -> Prop) :
  triple P m Q -> (forall t, P' t -> P t) -> (forall r t, Q r t -> Q' r t) -> triple P' m Q'.
Proof. intros H HP HQ w Hw. apply HQ, H, HP, Hw. Qed.

Lemma triple_pure {A} (P : gmap string string -> Prop) (H : Prop) (m : M A) Q :
  (H -> triple P m Q) -> triple (fun t => P t /\ H) m Q.
Proof. intros Hm w [Hw HH]. by apply Hm. Qed.

(** A computation that changes nothing and does not panic. *)
Definition reads {A} (t0 : gmap string string) (m : M A) : Prop :=
  triple (fun t => t = t0) m (fun r t => t = t0 /\ forall p, r <> Panic p).

Lemma reads_ret {A} t0 (r : go A) : (forall p, r <> Panic p) -> reads t0 (mret r).
Proof. intros Hr. by apply triple_ret. Qed.

Lemma reads_call {A} fault t0 (f : gmap string string -> go A) : (forall p, f t0 <> Panic p) -> reads t0 (call fault (fun t => (t, f t))).
Proof. intros Hf. apply triple_read; [by intros t ->|done]. Qed.

Lemma triple_reads_then {A B} t0 (m : M A) (k : A -> M B) Q :
  reads t0 m -> (forall a, triple (fun t => t = t0) (k a) Q) -> (forall e, Q (Fail e) t0) ->
  triple (fun t => t = t0) (mbind_M m k) Q.
Proof.
  intros Hm Hk Hfail. eapply triple_bind; [exact Hm|..].
  - intros a w [Hw _]. by apply Hk.
  - by intros e t [-> _].
  - intros p t [_ Hp]. by destruct (Hp p).
Qed.

Lemma reads_bind {A B} t0 (m : M A) (k : A -> M B) : reads t0 m -> (forall a, reads t0 (k a)) -> reads t0 (mbind_M m k).
Proof. intros Hm Hk. by apply triple_reads_then. Qed.

(** ** Fresh identifiers *)

(** The last id handed out for a sequence (0 when none was). *)
Definition last_id (t : gmap string string) (key : string) : option Z :=
  if stm_get t key =?s "" then Some 0 else ParseInt (stm_get t key).

Lemma last_id_written t key z : in_s 64 z -> last_id (<[key := FormatInt z]> t) key = Some z.
Proof.
  intros Hz. unfold last_id, stm_get. rewrite lookup_insert_eq. cbn [default from_option id].
  destruct (FormatInt z =?s "") eqn:E; [apply string_eqb_eq in E; by apply FormatInt_nonempty in E|].
  by apply ParseInt_FormatInt.
Qed.

(** What an update of the sequence does to the store. *)
Lemma NewIDGenerate_table key n t :
  last_id t key = Some n -> 0 <= n < 2 ^ 63 - 1 ->
  (let v := stm_get t key in
   if v =?s "" then Ret (<[key := FormatInt 1]> t, 1)
   else match ParseInt v with
        | None => Fail (OtherErr "increment id error in storage :%v")
        | Some intv => let nextID := i64 (intv + 1) in Ret (<[key := FormatInt nextID]> t, nextID)
        end) = Ret (<[key := FormatInt (n + 1)]> t, n + 1).
Proof.
  intros Hl Hn. unfold last_id in Hl. cbv zeta. destruct (stm_get t key =?s ""); [by injection Hl as <-|].
  rewrite Hl. by assert (i64 (n + 1) = n + 1) as -> by (apply wrap_s_id; unfold in_s; lia).
Qed.

Lemma NewIDGenerate_spec (fault : nat -> option (error * bool)) (key : string) (w : world) (n : Z) :
  last_id (kv w) key = Some n -> 0 <= n < 2 ^ 63 - 1 ->
  let '(w', r) := NewIDGenerate fault key 1 w in
  (forall k, k <> key -> kv w' !! k = kv w !! k) /\
  match r with
  | Ret id => id = n + 1 /\ last_id (kv w') key = Some id
  | Fail _ => is_Some (fault (calls w)) /\ (last_id (kv w') key = Some n \/ last_id (kv w') key = Some (n + 1))
  | Panic _ => False
  end.
Proof.
  intros Hl Hn. unfold NewIDGenerate, STM, call. rewrite (NewIDGenerate_table key n) by done.
  assert (last_id (<[key:=FormatInt (n + 1)]> (kv w)) key = Some (n + 1)) by (apply last_id_written; unfold in_s; lia).
  destruct (fault (calls w)) as [[e []]|]; cbn [fst kv]; split; eauto; intros k Hk; by apply lookup_insert_ne.
Qed.

(** Identifiers are never reused: while the sequence has not run out, a
    successful [NewIDGenerate] returns the id after the last one and records it;
    one that fails, whatever failed, leaves the sequence alone or skips one id. *)
Theorem NewIDGenerate_fresh (fault : nat -> option (error * bool)) (key : string) (w : world) (n : Z) :
  last_id (kv w) key = Some n -> 0 <= n < 2 ^ 63 - 1 ->
  let '(w', r) := NewIDGenerate fault key 1 w in
  (forall k, k <> key -> kv w' !! k = kv w !! k) /\
  match r with
  | Ret id => id = n + 1 /\ last_id (kv w') key = Some id
  | Fail _ => is_Some (fault (calls w)) /\ (last_id (kv w') key = Some n \/ last_id (kv w') key = Some (n + 1))
  | Panic _ => False
  end.
Proof. intros. by apply NewIDGenerate_spec. Qed.

Definition no_fault (_ : nat) : option (error * bool) := None.
Definition empty_world : world := {| kv := ∅; calls := 0 |}.

Lemma NewIDGenerate_fresh_witness :
  last_id (kv empty_world) "/id/db" = Some 0 /\
  exists w', NewIDGenerate no_fault "/id/db" 1 empty_world = (w', Ret 1) /\ last_id (kv w') "/id/db" = Some 1.
Proof.
  pose proof (NewIDGenerate_fresh no_fault "/id/db" empty_world 0 eq_refl ltac:(lia)) as H.
  split; [reflexivity|]. eexists. split; [reflexivity|]. destruct H as (_ & _ & H). exact H.
Defined.
