(* ===== verification/Net.v ===== *)
(** * Calls to the partition servers (internal/client/ps.go, ps_admin_service.go)

    [Execute] sends a request to a server, retrying and following redirects to
    the leader.  The services of the master use it next to the metadata store:
    [N] is the monad [M] of Store.v with a log of the requests sent and of what
    came back.  What the [n]-th request of a run comes back with is a parameter, so
    that a theorem over all [answer]s covers every pattern of failing servers. *)

From S2P Require Import Prelude.
From S2P Require Import Text.
From S2P Require Import Errors.
From S2P Require Import Schema.
From S2P Require Import Partition.
From S2P Require Import Space.
From S2P Require Import Limits.
From S2P Require Import Keys.
From S2P Require Import Store.
Open Scope Z_scope.

(** ** Execute *)

Definition adaptRetry : nat := 3.

(** The error part of a reply: a code and a message. *)
Record reply_err : Set := { re_Code : ErrorEnum; re_Msg : string }.

Section Execute.
(** [execute n addr]: the error and the reply of the [n]-th attempt, made at
    [addr].  [replica_addr] decodes the leader's address from a message. *)
Context (execute : nat -> string -> option error * option reply_err) (replica_addr : string -> option string).

(** The addresses tried, the error and the reply at the end. *)
Record executed : Set := { ex_tried : list string; ex_err : option error; ex_reply : option reply_err }.

Fixpoint execute_loop (left i : nat) (addr : string) (err : option error) (reply : option reply_err) : executed :=
  match left with
  | O => {| ex_tried := []; ex_err := err; ex_reply := reply |}
  | S left' =>
    let '(e, r) := execute i addr in
    let again addr' err' :=
      let x := execute_loop left' (S i) addr' err' r in
      {| ex_tried := addr :: ex_tried x; ex_err := ex_err x; ex_reply := ex_reply x |} in
    match e with
    | None => {| ex_tried := [addr]; ex_err := None; ex_reply := r |}
    | Some e =>
      match r with
      | Some {| re_Code := PARTITION_NOT_LEADER; re_Msg := msg |} =>
        match replica_addr msg with
        | None => {| ex_tried := [addr]; ex_err := Some (OtherErr "json"); ex_reply := r |}
        | Some addr' => again addr' None
        end
      | _ => again addr (Some e)
      end
    end
  end.
Definition Execute (addr : string) : executed := execute_loop adaptRetry 0 addr None None.

(** [operatePartition] and the other calls that check the reply. *)
Definition operatePartition (addr : string) : go unit :=
  let x := Execute addr in
  match ex_err x with
  | Some e => Fail e
  | None =>
    match ex_reply x with
    | None => Panic NilDeref
    | Some r => if bool_decide (re_Code r = SUCCESS) then Ret tt else Fail (NewError (re_Code r) None)
    end
  end.

Definition IsLive (addr : string) : bool := match ex_err (Execute addr) with None => true | Some _ => false end.

(** ** Reaching the leader *)

(** The servers from [addr] to [leader]: each but the last sends the caller on to
    the next. *)
Fixpoint redirects (i : nat) (addr : string) (hops : list string) : Prop :=
  match hops with
  | [] => exists r, execute i addr = (None, Some r) /\ re_Code r = SUCCESS
  | next :: hops' =>
    (exists e msg, execute i addr = (Some e, Some {| re_Code := PARTITION_NOT_LEADER; re_Msg := msg |}) /\ replica_addr msg = Some next) /\
    redirects (S i) next hops'
  end.

Lemma execute_loop_redirects hops : forall left i addr err reply, (length hops < left)%nat -> redirects i addr hops ->
  exists r, execute_loop left i addr err reply = {| ex_tried := addr :: hops; ex_err := None; ex_reply := Some r |} /\ re_Code r = SUCCESS.
Proof.
  induction hops as [|next hops IH]; intros [|left] i addr err reply Hlen Hr; simpl in *; try lia.
  - destruct Hr as (r & -> & Hr). by exists r.
  - destruct Hr as [(e & msg & -> & ->) Hr]. destruct (IH left (S i) next None (Some {| re_Code := PARTITION_NOT_LEADER; re_Msg := msg |})) as (r & -> & Hs);
      [lia|done|]. by exists r.
Qed.

Lemma execute_loop_tried left : forall i addr err reply, (length (ex_tried (execute_loop left i addr err reply)) <= left)%nat.
Proof.
  induction left as [|left IH]; intros i addr err reply; simpl; [done|]. destruct (execute i addr) as [[e|] r]; simpl; [|lia].
  repeat case_match; simpl; try lia; apply le_n_S, IH.
Qed.

(** Who answers last: a success comes from the server asked last. *)
Lemma execute_loop_success left : forall i addr err reply r, ex_err (execute_loop left i addr err reply) = None ->
  ex_reply (execute_loop left i addr err reply) = Some r -> re_Code r = SUCCESS ->
  (left = O /\ reply = Some r) \/
  exists k a e, last (ex_tried (execute_loop left i addr err reply)) = Some a /\ execute (i + k) a = (e, Some r).
Proof.
  induction left as [|left IH]; intros i addr err reply r; simpl; [by left|].
  destruct (execute i addr) as [[e|] r'] eqn:E; simpl.
  2: { intros _ [= ->] Hr. right. exists O, addr, None. by rewrite Nat.add_0_r. }
  assert (forall addr' err', ex_err (execute_loop left (S i) addr' err' r') = None ->
    ex_reply (execute_loop left (S i) addr' err' r') = Some r -> re_Code r = SUCCESS ->
    exists k a e0, last (addr :: ex_tried (execute_loop left (S i) addr' err' r')) = Some a /\ execute (i + k) a = (e0, Some r)) as Hagain.
  { intros addr' err' H1 H2 H3. destruct (IH (S i) addr' err' r' r H1 H2 H3) as [[-> ->]|(k & a & e0 & Ha & Hx)].
    - exists O, addr, (Some e). by rewrite Nat.add_0_r.
    - exists (S k), a, e0. rewrite last_cons, Ha. by replace (i + S k)%nat with (S i + k)%nat by lia. }
  intros H1 H2 H3. right. repeat case_match; simpl in *; try discriminate; eauto.
Qed.
End Execute.

(** A request always comes to an end, after at most [adaptRetry] attempts; if fewer
    redirects lead from the address to the leader and the leader answers, it
    succeeds there; and when it succeeds, a server has answered the request
    with success. *)
Theorem Execute_reaches_leader (execute : nat -> string -> option error * option reply_err) (replica_addr : string -> option string)
    (addr : string) :
  (length (ex_tried (Execute execute replica_addr addr)) <= adaptRetry)%nat /\
  (forall hops, (length hops < adaptRetry)%nat -> redirects execute replica_addr 0 addr hops ->
     operatePartition execute replica_addr addr = Ret tt /\ ex_tried (Execute execute replica_addr addr) = addr :: hops) /\
  (operatePartition execute replica_addr addr = Ret tt ->
     exists k a e r, last (ex_tried (Execute execute replica_addr addr)) = Some a /\ execute k a = (e, Some r) /\ re_Code r = SUCCESS).
Proof.
  split; [apply execute_loop_tried|]. unfold operatePartition, Execute. split.
  - intros hops Hlen Hr. destruct (execute_loop_redirects execute replica_addr hops adaptRetry 0 addr None None Hlen Hr) as (r & -> & Hs).
    cbn [ex_err ex_reply ex_tried]. by rewrite bool_decide_true.
  - destruct (ex_err _) eqn:E1; [done|]. destruct (ex_reply _) as [r|] eqn:E2; [|done]. case_bool_decide as Hs; [|done]. intros _.
    destruct (execute_loop_success execute replica_addr adaptRetry 0 addr None None r E1 E2 Hs) as [[? _]|(k & a & e & Ha & Hx)]; [done|].
    by exists k, a, e, r.
Qed.

(** ** The monad *)

Inductive IndexChange : Type := AddIndex (indexes : list Index) | RemoveIndexNamed (name : string).
Record ChangeMember_ : Set := { CM_PartitionID : Z; CM_NodeID : Z; CM_Method : Z }.

Record ResourceLimit_ : Type := {
  RL_Rate : option Z; RL_ResourceExhausted : option bool; RL_SpaceName : option string; RL_DbName : option string
}.

(** The backup requests; the parameters of the object store are kept as one value. *)
Record BackupOrRestoreRequest : Type := {
  BR_Database : string; BR_Space : string; BR_BackupID : string; BR_VersionID : string; BR_Command : string;
  BR_S3PartitionID : Z; BR_SourceClusterName : string; BR_S3Param : string
}.
Record BackupSpaceRequest : Type := {
  BS_Command : string; BS_BackupID : Z; BS_VersionID : string; BS_Part : Z; BS_SourceClusterName : string; BS_S3Param : string
}.

Inductive message : Type :=
| CreatePartition (addr : string) (space : Space) (pid : Z)
| UpdatePartition (addr : string) (space : Space) (pid : Z)
| PartitionIndexChange (addr : string) (pid : Z) (ic : IndexChange)
| DeletePartition (addr : string) (pid : Z)
| DeleteReplica (addr : string) (pid : Z)
| ChangeMember (addr : string) (cm : ChangeMember_)
| ResourceLimit (addr : string) (limit : ResourceLimit_) (pid : Z)
| UpdateEngineCfg (addr : string) (cfg : SpaceConfig) (pid : Z)
| UpdateMemoryLimitCfg (addr : string) (cfg : MemoryLimitCfg)
| OperateBackupOrRestore (addr : string) (req : BackupOrRestoreRequest) (pid : Z)
| DeleteBackupVersion (addr : string) (spaceKey versionID : string) (pid : Z)
| BackupSpace (addr : string) (req : BackupSpaceRequest) (pid : Z).

Record net : Type := { nw : world; sent : list (message * go unit) }.
Definition N (A : Type) : Type := net -> net * go A.

Definition nret {A} (r : go A) : N A := fun n => (n, r).
Definition nbind {A B} (m : N A) (k : A -> N B) : N B := fun n =>
  match m n with
  | (n', Ret a) => k a n'
  | (n', Fail e) => (n', Fail e)
  | (n', Panic p) => (n', Panic p)
  end.
Definition lift {A} (m : M A) : N A := fun n => let '(w, r) := m (nw n) in ({| nw := w; sent := sent n |}, r).

Notation "'bind!' x <- m 'in' k" := (nbind m (fun x => k))
  (at level 200, x pattern, m at level 100, k at level 200) : go_scope.
Notation "'bind_!' m 'in' k" := (nbind m (fun _ => k))
  (at level 200, m at level 100, k at level 200) : go_scope.

Definition send (answer : nat -> message -> go unit) (msg : message) : N unit := fun n =>
  let r := answer (length (sent n)) msg in ({| nw := nw n; sent := sent n ++ [(msg, r)] |}, r).

(** [if err != nil { log }] *)
Definition nattempt {A} (m : N A) : N (option A) := fun n =>
  match m n with (n', Ret a) => (n', Ret (Some a)) | (n', Fail _) => (n', Ret None) | (n', Panic p) => (n', Panic p) end.

Fixpoint nfold {A B} (f : B -> A -> N B) (b : B) (xs : list A) : N B :=
  match xs with [] => nret (Ret b) | x :: xs' => bind! b' <- f b x in nfold f b' xs' end.

(** Every goroutine runs, in the order of [xs]; the first error counts. *)
Fixpoint fan_out {A} (f : A -> N unit) (xs : list A) : N unit :=
  match xs with
  | [] => nret (Ret tt)
  | x :: xs' => fun n =>
    match f x n with
    | (n', Ret _) => fan_out f xs' n'
    | (n', Fail e) => match fan_out f xs' n' with (n'', Panic p) => (n'', Panic p) | (n'', _) => (n'', Fail e) end
    | (n', Panic p) => (n', Panic p)
    end
  end.

Definition nwith_lock {A} (fault : nat -> option (error * bool)) (m : N A) : N A :=
  bind_! lift (Lock fault) in fun n => let '(n', r) := m n in ((lift (Unlock fault) n').1, r).

(** ** Reasoning

    [ntriple P m Q]: run where the store and the log satisfy [P], whatever fails,
    [m] ends with a result, a store and a log that satisfy [Q]. *)

Definition table : Type := gmap string string.
Definition log : Type := list (message * go unit).

Definition ntriple {A} (P : table -> log -> Prop) (m : N A) (Q : go A -> table -> log -> Prop) : Prop :=
  forall n, P (kv (nw n)) (sent n) -> Q (m n).2 (kv (nw (m n).1)) (sent (m n).1).

Lemma ntriple_ret {A} (P : table -> log -> Prop) (r : go A) (Q : go A -> table -> log -> Prop) :
  (forall t l, P t l -> Q r t l) -> ntriple P (nret r) Q.
Proof. intros H n. apply H. Qed.

Lemma ntriple_bind {A B} P (m : N A) (k : A -> N B) Q R :
  ntriple P m Q -> (forall a, ntriple (Q (Ret a)) (k a) R) -> (forall e t l, Q (Fail e) t l -> R (Fail e) t l) ->
  (forall p t l, Q (Panic p) t l -> R (Panic p) t l) -> ntriple P (nbind m k) R.
Proof.
  intros Hm Hk He Hp n Hn. specialize (Hm n Hn). unfold nbind. destruct (m n) as [n' [a|e|p]]; cbn [fst snd] in *; [|auto..].
  by apply Hk.
Qed.

Lemma ntriple_lift {A} (P : table -> log -> Prop) (m : M A) (Q : go A -> table -> log -> Prop) :
  (forall l, triple (fun t => P t l) m (fun r t => Q r t l)) -> ntriple P (lift m) Q.
Proof. intros H n Hn. specialize (H (sent n) (nw n) Hn). unfold lift. by destruct (m (nw n)). Qed.

Lemma ntriple_send answer (P : table -> log -> Prop) msg (Q : go unit -> table -> log -> Prop) :
  (forall t l, P t l -> Q (answer (length l) msg) t (l ++ [(msg, answer (length l) msg)])) -> ntriple P (send answer msg) Q.
Proof. intros H n Hn. by apply H. Qed.

Lemma ntriple_conseq {A} (P P' : table -> log -> Prop) (m : N A) (Q Q' : go A -> table -> log -> Prop) :
  ntriple P m Q -> (forall t l, P' t l -> P t l) -> (forall r t l, Q r t l -> Q' r t l) -> ntriple P' m Q'.
Proof. intros H HP HQ n Hn. apply HQ, H, HP, Hn. Qed.

Lemma ntriple_pure {A} (P : table -> log -> Prop) (H : Prop) (m : N A) Q :
  (H -> ntriple P m Q) -> ntriple (fun t l => P t l /\ H) m Q.
Proof. intros Hm n [Hn HH]. by apply Hm. Qed.

Lemma ntriple_with_lock {A} fault P (m : N A) Q :
  ntriple P m Q -> (forall e t l, P t l -> Q (Fail e) t l) -> ntriple P (nwith_lock fault m) Q.
Proof.
  intros Hm Hfail. apply (ntriple_bind P _ _ (fun r t l => P t l /\ forall p, r <> Panic p)).
  - apply ntriple_lift. intros l. apply triple_read; by repeat split.
  - intros a n [Hn _]. specialize (Hm n Hn). destruct (m n) as [n' r]. cbn [fst snd] in *.
    unfold lift, Unlock, call. by destruct (fault (calls (nw n'))) as [[? []]|].
  - intros e t l [Ht _]. by apply Hfail.
  - intros p t l [_ Hp]. by destruct (Hp p).
Qed.

(** A computation that only reads: the store and the log stay. *)
Definition nreads {A} (t0 : table) (l0 : log) (m : N A) : Prop :=
  ntriple (fun t l => t = t0 /\ l = l0) m (fun r t l => t = t0 /\ l = l0 /\ forall p, r <> Panic p).

Lemma nreads_lift {A} t0 l0 (m : M A) : reads t0 m -> nreads t0 l0 (lift m).
Proof. intros H. apply ntriple_lift. intros l w [Hw ->]. destruct (H w Hw) as [? ?]. auto. Qed.

Lemma ntriple_reads_then {A B} t0 l0 (m : N A) (k : A -> N B) Q :
  nreads t0 l0 m -> (forall a, ntriple (fun t l => t = t0 /\ l = l0) (k a) Q) -> (forall e, Q (Fail e) t0 l0) ->
  ntriple (fun t l => t = t0 /\ l = l0) (nbind m k) Q.
Proof.
  intros Hm Hk Hfail. eapply ntriple_bind; [exact Hm|..].
  - intros a n (Hn & Hl & _). by apply Hk.
  - by intros e t l (-> & -> & _).
  - intros p t l (_ & _ & Hp). by destruct (Hp p).
Qed.

(** Goroutines that leave the store alone: the log grows by what each of them
    sent, and if all is well each has done its part. *)
Lemma fan_out_spec {A} (f : A -> N unit) (R : A -> log -> Prop) (t0 : table) (xs : list A) :
  (forall x l0, ntriple (fun t l => t = t0 /\ l = l0) (f x)
     (fun r t l => t = t0 /\ exists l', l = l0 ++ l' /\ (r = Ret tt -> R x l'))) ->
  forall l0, ntriple (fun t l => t = t0 /\ l = l0) (fan_out f xs)
    (fun r t l => t = t0 /\ exists ls, l = l0 ++ concat ls /\ (r = Ret tt -> Forall2 R xs ls)).
Proof.
  intros Hf. induction xs as [|x xs IH]; intros l0 n [Ht Hl]; cbn [fan_out].
  - split; [done|]. exists []. by rewrite app_nil_r.
  - destruct (Hf x l0 n (conj Ht Hl)) as (Ht' & l' & Hl' & Hr). destruct (f x n) as [n' [[]|e|p]]; cbn [fst snd] in *.
    + destruct (IH (l0 ++ l') n' (conj Ht' Hl')) as (Ht'' & ls & Hls & Hok). split; [done|].
      exists (l' :: ls). rewrite Hls, <- app_assoc. split; [done|]. intros Hx. constructor; auto.
    + destruct (IH (l0 ++ l') n' (conj Ht' Hl')) as (Ht'' & ls & Hls & Hok).
      destruct (fan_out f xs n') as [n'' [?|?|?]]; cbn [fst snd] in *; (split; [done|]); exists (l' :: ls);
        rewrite Hls, <- app_assoc; done.
    + split; [done|]. exists [l']. cbn [concat]. by rewrite app_nil_r.
Qed.

Definition demo_execute (i : nat) (addr : string) : option error * option reply_err :=
  if addr =?s "leader" then (None, Some {| re_Code := SUCCESS; re_Msg := "" |})
  else (Some (OtherErr "not leader"), Some {| re_Code := PARTITION_NOT_LEADER; re_Msg := if addr =?s "a" then "b" else "leader" |}).

Lemma Execute_reaches_leader_witness :
  operatePartition demo_execute Some "a" = Ret tt /\ ex_tried (Execute demo_execute Some "a") = ["a"; "b"; "leader"]%string.
Proof.
  apply (proj1 (proj2 (Execute_reaches_leader demo_execute Some "a")) ["b"; "leader"]%string).
  - vm_compute. lia.
  - repeat split; eexists; [eexists; split; reflexivity..|]. split; reflexivity.
Defined.
