(* ===== verification/Databases.v ===== *)
(** * Databases (internal/master/services/db_service.go)

    A database is three keys: its name holds its id, its id holds its name, and
    its body holds the JSON of [entity.DB].  The operations of [DBService] on a
    store in which every call may fail; [represents] relates the store to a
    finite map from names to databases, and every operation is shown to act on
    that map. *)

From S2P Require Import Prelude.
From S2P Require Import Text.
From S2P Require Import Errors.
From S2P Require Import Names.
From S2P Require Import Keys.
From S2P Require Import Space.
From S2P Require Import Placement.
From S2P Require Import Store.
Open Scope Z_scope.

(** [number.IsNum] *)
Definition IsNum (wide : Z -> bool) (s : string) : bool :=
  if s =?s "" then false else forallb (IsNumber wide) (runes s).

Definition with_id (db : DB) (id : Z) : DB := {| DB_Id := id; DB_Name := DB_Name db; DB_Ps := DB_Ps db |}.
Definition with_ps (db : DB) (ps : list string) : DB := {| DB_Id := DB_Id db; DB_Name := DB_Name db; DB_Ps := ps |}.

(** [entity.DBModify] *)
Record DBModify : Set := { DbName : string; DBModify_SpaceName : string; IPAddr : string; Method : Z }.

Section Service.
Context (wide : Z -> bool) (fault : nat -> option (error * bool)) (st : Prefixes).
(** [cast.ToInt64E], the probe [client.IsLive], the configuration and the node
    change codes of the raft library *)
Context (ToInt64E : string -> option Z) (IsLive : string -> bool) (LimitedDBNum : bool).
Context (ConfAddNode ConfRemoveNode : Z).
Context `{HDB : !Codec DB, HSpace : !Codec Space, HServer : !Codec Server}.

(** The first server with the ip, as the inner loop of [validatePS] finds it. *)
Definition validate_one (servers : list Server) (ps : string) : go unit :=
  match List.find (fun server => Server_Ip server =?s ps) servers with
  | Some server => if negb (IsLive (RpcAddr server)) then Fail (OtherErr "server:[%s] can not connection") else Ret tt
  | None => Fail (OtherErr "server:[%s] not found in cluster")
  end.

Definition validatePS (psList : list string) : M unit :=
  if (length psList <? 1)%nat then mret (Ret tt)
  else
    do! servers <- QueryServers fault st in
    mret (ofold (fun _ ps => validate_one servers ps) tt psList).

Definition check_limit : M unit :=
  if LimitedDBNum then
    do! kvs <- PrefixScan fault (PrefixDataBaseBody st) in
    mret (guard_err (1 <=? length kvs)%nat (verr PARAM_ERROR "db num is limited to one and already have one db exists"))
  else mret (Ret tt).

(** The transaction of [CreateDB]. *)
Definition create_txn (db : DB) : txn unit := fun t =>
  let idKey := DBKeyId st (DB_Id db) in
  let nameKey := DBKeyName st (DB_Name db) in
  let bodyKey := DBKeyBody st (DB_Id db) in
  if negb (stm_get t nameKey =?s "") then Fail (verr DB_EXIST "dbname %s already exists")
  else if negb (stm_get t idKey =?s "") then Fail (verr DB_EXIST "dbID %d already exists")
  else Ret (<[bodyKey := Marshal db]> (<[idKey := DB_Name db]> (<[nameKey := FormatInt (DB_Id db)]> t)), tt).

Definition CreateDB (db : DB) : M unit :=
  do_! check_limit in
  do_! mret (DB_Validate wide db) in
  do_! validatePS (DB_Ps db) in
  do! id <- NewIDGenerate fault (DBIdSequence st) 1 in
  with_lock fault (STM fault (create_txn (with_id db id))).

Definition resolve_id (dbName : string) : M Z :=
  if IsNum wide dbName then mret (Ret (default 0 (ToInt64E dbName))) else QueryDBName2ID fault st ToInt64E dbName.

(** [json.Unmarshal] of a body that was found. *)
Definition decode_db (bs : option string) : go DB :=
  match bs with
  | None => Fail (NewError DB_NOT_EXIST None)
  | Some v => match Unmarshal v with Some db => Ret db | None => Fail (OtherErr "json") end
  end.

Definition QueryDB (dbName : string) : M DB :=
  do! id <- resolve_id dbName in
  do! bs <- Get fault (DBKeyBody st id) in
  mret (decode_db bs).

Definition delete_txn (db : DB) : txn unit := fun t =>
  Ret (delete (DBKeyBody st (DB_Id db)) (delete (DBKeyName st (DB_Name db)) (delete (DBKeyId st (DB_Id db)) t)), tt).

Definition DeleteDB (dbName : string) : M unit :=
  do! db <- QueryDB dbName in
  with_lock fault (
    do! spaces <- QuerySpaces fault st (DB_Id db) in
    if (0 <? length (spaces : list Space))%nat then mret (Fail (NewError DB_NOT_EMPTY None))
    else STM fault (delete_txn db)).

Definition QueryDBs : M (list DB) :=
  do! kvs <- PrefixScan fault (PrefixDataBaseBody st) in mret (Ret (decode_all kvs)).

(** The new [Ps] of [UpdateDBIpList]. *)
Definition modify_ps (m : DBModify) (ps : list string) : go (list string) :=
  if Method m =? ConfRemoveNode then Ret (filter (fun ip => ip <> IPAddr m) ps)
  else if Method m =? ConfAddNode then Ret (if contains ps (IPAddr m) then ps else ps ++ [IPAddr m])
  else Fail (OtherErr "method support addIP:[%d] removeIP:[%d] not support:[%d]").

(** The errors it throws are recovered, and the named result [err] returned. *)
Definition UpdateDBIpList (m : DBModify) : M DB :=
  do! id <- resolve_id (DbName m) in
  do! bs <- Get fault (DBKeyBody st id) in
  do! db <- mret (decode_db bs) in
  do! ps <- mret (modify_ps m (DB_Ps db)) in
  let db' := with_ps db ps in
  do_! Put fault (DBKeyBody st (DB_Id db')) (Marshal db') in
  mret (Ret db').

Definition DBServers (dbName : string) : M (list Server) :=
  do! servers <- QueryServers fault st in
  do! db <- QueryDB dbName in
  mret (Ret (if (0 <? length (DB_Ps db))%nat
             then concat (map (fun ps => filter (fun s => ps = Server_Ip s) servers) (DB_Ps db))
             else servers)).
End Service.

(** ** Keys of a cluster *)

#[export] Instance object_eq_dec : EqDecision object.
Proof. solve_decision. Defined.

Section Cluster.
Context (cluster_id : string).
Notation st := (SetPrefixAndSequence cluster_id initial_prefixes).

Lemma key_inj o1 o2 : object_ok o1 -> object_ok o2 -> key_of st o1 = key_of st o2 -> o1 = o2.
Proof. intros H1 H2. rewrite !key_of_cluster. intros H%app_inj_string. by apply key_of_initial_inj. Qed.

Lemma at_insert (t : gmap string string) o o' v :
  object_ok o -> object_ok o' ->
  <[key_of st o := v]> t !! key_of st o' = if decide (o = o') then Some v else t !! key_of st o'.
Proof.
  intros H1 H2. case_decide as E; [subst; apply lookup_insert_eq|]. apply lookup_insert_ne. intros H. by apply key_inj in H.
Qed.

Lemma at_delete (t : gmap string string) o o' :
  object_ok o -> object_ok o' ->
  delete (key_of st o) t !! key_of st o' = if decide (o = o') then None else t !! key_of st o'.
Proof.
  intros H1 H2. case_decide as E; [subst; apply lookup_delete_eq|]. apply lookup_delete_ne. intros H. by apply key_inj in H.
Qed.
End Cluster.

(** ** The databases of a store *)

Section Represents.
Context (wide : Z -> bool) (cluster_id : string) `{HDB : !Codec DB}.
Notation st := (SetPrefixAndSequence cluster_id initial_prefixes).

Definition db_wf (n : Z) (name : string) (db : DB) : Prop :=
  DB_Name db = name /\ valid_name wide name = true /\ 0 < DB_Id db <= n /\ Encodable db.

(** The database keys of the store are those of the databases of [D], and ids
    up to [n] have been handed out. *)
Record represents (n : Z) (D : gmap string DB) (t : gmap string string) : Prop := {
  rep_seq : last_id t (key_of st OSeqDB) = Some n;
  rep_range : 0 <= n < 2 ^ 63;
  rep_name : forall name, t !! key_of st (ODBName name) = (fun db => FormatInt (DB_Id db)) <$> D !! name;
  rep_id : forall id v, t !! key_of st (ODBId id) = Some v <-> exists db, D !! v = Some db /\ DB_Id db = id;
  rep_body : forall id v, t !! key_of st (ODBBody id) = Some v <->
               exists name db, D !! name = Some db /\ DB_Id db = id /\ v = Marshal db;
  rep_wf : forall name db, D !! name = Some db -> db_wf n name db
}.

Definition is_database (o : object) : bool :=
  match o with ODBName _ | ODBId _ | ODBBody _ | OSeqDB => true | _ => false end.

(** Everything that is not about databases is as before. *)
Definition elsewhere (t t' : gmap string string) : Prop :=
  forall o, object_ok o -> is_database o = false -> t' !! key_of st o = t !! key_of st o.

Definition unused (id : Z) (D : gmap string DB) : Prop := forall name db, D !! name = Some db -> DB_Id db <> id.

Lemma rep_inj n D t a b x y : represents n D t -> D !! a = Some x -> D !! b = Some y -> DB_Id x = DB_Id y -> a = b.
Proof.
  intros Hr Ha Hb Hid. assert (t !! key_of st (ODBId (DB_Id x)) = Some a) as H1 by (apply (rep_id _ _ _ Hr); eauto).
  assert (t !! key_of st (ODBId (DB_Id x)) = Some b) as H2 by (apply (rep_id _ _ _ Hr); eauto). congruence.
Qed.

Lemma last_id_insert (t : gmap string string) o v :
  object_ok o -> o <> OSeqDB -> last_id (<[key_of st o := v]> t) (key_of st OSeqDB) = last_id t (key_of st OSeqDB).
Proof. intros Ho Hne. unfold last_id, stm_get. rewrite at_insert by done. by rewrite decide_False by done. Qed.

Lemma last_id_delete (t : gmap string string) o :
  object_ok o -> o <> OSeqDB -> last_id (delete (key_of st o) t) (key_of st OSeqDB) = last_id t (key_of st OSeqDB).
Proof. intros Ho Hne. unfold last_id, stm_get. rewrite at_delete by done. by rewrite decide_False by done. Qed.

(** The id sequence moves on, nothing else changes. *)
Lemma represents_bump n D t t' :
  represents n D t -> n + 1 < 2 ^ 63 -> last_id t' (key_of st OSeqDB) = Some (n + 1) ->
  (forall k, k <> key_of st OSeqDB -> t' !! k = t !! k) -> represents (n + 1) D t' /\ unused (n + 1) D.
Proof.
  intros Hr Hn Hs Heq.
  assert (forall o, object_ok o -> o <> OSeqDB -> t' !! key_of st o = t !! key_of st o) as Ho.
  { intros o Hok Hne. apply Heq. intros H. by apply key_inj in H. }
  destruct Hr. split; [split|].
  - done.
  - lia.
  - intros name. by rewrite Ho.
  - intros id v. by rewrite Ho.
  - intros id v. by rewrite Ho.
  - intros name db Hdb. destruct (rep_wf0 name db Hdb) as (? & ? & ? & ?). split_and!; [done..|lia|lia|done].
  - intros name db Hdb Hid. destruct (rep_wf0 name db Hdb) as (? & ? & ? & ?). lia.
Qed.

Lemma represents_insert n D t db :
  represents n D t -> db_wf n (DB_Name db) db -> D !! DB_Name db = None -> unused (DB_Id db) D ->
  represents n (<[DB_Name db := db]> D)
    (<[key_of st (ODBBody (DB_Id db)) := Marshal db]> (<[key_of st (ODBId (DB_Id db)) := DB_Name db]>
      (<[key_of st (ODBName (DB_Name db)) := FormatInt (DB_Id db)]> t))).
Proof.
  intros Hr Hwf Hnew Hun. destruct Hr. split.
  - by rewrite !last_id_insert.
  - done.
  - intros name. rewrite !at_insert by done. repeat case_decide; simplify_eq.
    + by rewrite lookup_insert_eq.
    + rewrite lookup_insert_ne by congruence. apply rep_name0.
  - intros id v. rewrite !at_insert by done. repeat case_decide; simplify_eq.
    + split; [intros [= <-]; exists db; by rewrite lookup_insert_eq|].
      intros (db' & [[<- <-]|[_ Hdb']]%lookup_insert_Some & Hid); [done|]. by destruct (Hun v db').
    + rewrite rep_id0. split; intros (db' & Hdb' & Hid).
      * exists db'. rewrite lookup_insert_ne; [done|congruence].
      * apply lookup_insert_Some in Hdb' as [[<- <-]|[_ Hdb']]; [congruence|eauto].
  - intros id v. rewrite !at_insert by done. repeat case_decide; simplify_eq.
    + split; [intros [= <-]; exists (DB_Name db), db; by rewrite lookup_insert_eq|].
      intros (name & db' & [[<- <-]|[_ Hdb']]%lookup_insert_Some & Hid & Hv); [by subst|]. by destruct (Hun name db').
    + rewrite rep_body0. split; intros (name & db' & Hdb' & Hid & Hv).
      * exists name, db'. rewrite lookup_insert_ne; [done|congruence].
      * apply lookup_insert_Some in Hdb' as [[<- <-]|[_ Hdb']]; [congruence|eauto].
  - intros name db' [[<- <-]|[_ Hdb']]%lookup_insert_Some; eauto.
Qed.

Lemma represents_delete n D t db :
  represents n D t -> D !! DB_Name db = Some db ->
  represents n (delete (DB_Name db) D)
    (delete (key_of st (ODBBody (DB_Id db))) (delete (key_of st (ODBName (DB_Name db)))
      (delete (key_of st (ODBId (DB_Id db))) t))).
Proof.
  intros Hr Hdb. pose proof (fun a b x y => rep_inj n D t a b x y Hr) as Hinj. destruct Hr. split.
  - by rewrite !last_id_delete.
  - done.
  - intros name. rewrite !at_delete by done. repeat case_decide; simplify_eq.
    + by rewrite lookup_delete_eq.
    + rewrite lookup_delete_ne by congruence. apply rep_name0.
  - intros id v. rewrite !at_delete by done. repeat case_decide; simplify_eq.
    + split; [done|]. intros (db' & [Hne Hdb']%lookup_delete_Some & Hid). by destruct Hne; eapply Hinj.
    + rewrite rep_id0. split; intros (db' & Hdb' & Hid).
      * exists db'. rewrite lookup_delete_ne; [done|congruence].
      * apply lookup_delete_Some in Hdb' as [_ Hdb']. eauto.
  - intros id v. rewrite !at_delete by done. repeat case_decide; simplify_eq.
    + split; [done|]. intros (name & db' & [Hne Hdb']%lookup_delete_Some & Hid & _). by destruct Hne; eapply Hinj.
    + rewrite rep_body0. split; intros (name & db' & Hdb' & Hid & Hv).
      * exists name, db'. rewrite lookup_delete_ne; [done|congruence].
      * apply lookup_delete_Some in Hdb' as [_ Hdb']. eauto.
  - intros name db' [_ Hdb']%lookup_delete_Some. eauto.
Qed.

Lemma represents_update n D t db db' :
  represents n D t -> D !! DB_Name db = Some db -> DB_Name db' = DB_Name db -> DB_Id db' = DB_Id db -> Encodable db' ->
  represents n (<[DB_Name db := db']> D) (<[key_of st (ODBBody (DB_Id db')) := Marshal db']> t).
Proof.
  intros Hr Hdb Hn Hid Henc. pose proof (fun a b x y => rep_inj n D t a b x y Hr) as Hinj. destruct Hr. split.
  - by rewrite last_id_insert.
  - done.
  - intros name. rewrite at_insert by done. rewrite decide_False, rep_name0 by done. destruct (decide (DB_Name db = name)) as [<-|].
    + rewrite lookup_insert_eq, Hdb. cbn. by rewrite Hid.
    + by rewrite lookup_insert_ne.
  - intros id v. rewrite at_insert by done. rewrite decide_False, rep_id0 by done. destruct (decide (DB_Name db = v)) as [<-|].
    + rewrite lookup_insert_eq, Hdb. naive_solver.
    + by rewrite lookup_insert_ne.
  - intros id v. rewrite at_insert by done. case_decide; simplify_eq.
    + rewrite Hid. split; [intros [= <-]; exists (DB_Name db), db'; by rewrite lookup_insert_eq|].
      intros (name & x & [[<- <-]|[Hne Hx]]%lookup_insert_Some & Hxid & Hv); [by subst|]. by destruct Hne; eapply Hinj.
    + rewrite rep_body0. split; intros (name & x & Hx & Hxid & Hv); exists name.
      * exists x. rewrite lookup_insert_ne; [done|congruence].
      * apply lookup_insert_Some in Hx as [[<- <-]|[_ Hx]]; [congruence|eauto].
  - intros name x [[<- <-]|[_ Hx]]%lookup_insert_Some; [|eauto]. destruct (rep_wf0 _ _ Hdb) as (_ & ? & ? & _).
    split_and!; [done..|lia|lia|done].
Qed.
End Represents.

(** ** The operations act on the represented databases *)

(** A valid name is not taken for an id. *)
Lemma valid_name_not_num wide s : valid_name wide s = true -> IsNum wide s = false.
Proof.
  unfold valid_name, IsNum. destruct (s =?s ""); [done|]. destruct (runes s) as [|r rs]; [done|]. cbn [forallb].
  by destruct (IsNumber wide r).
Qed.

Section Refine.
Context (wide : Z -> bool) (cluster_id : string) (fault : nat -> option (error * bool)).
Context (ToInt64E : string -> option Z) (IsLive : string -> bool) (LimitedDBNum : bool) (ConfAddNode ConfRemoveNode : Z).
Context `{HDB : !Codec DB, HSpace : !Codec Space, HServer : !Codec Server}.
Context (Hcast : forall id, 0 < id < 2 ^ 63 -> ToInt64E (FormatInt id) = Some id).
Notation st := (SetPrefixAndSequence cluster_id initial_prefixes).
Notation represents := (represents wide cluster_id).

Lemma elsewhere_refl t : elsewhere cluster_id t t.
Proof. by intros o. Qed.

Lemma elsewhere_insert t t' o v :
  is_database o = true -> object_ok o -> elsewhere cluster_id t t' -> elsewhere cluster_id t (<[key_of st o := v]> t').
Proof. intros Ho Hok He o' Hok' Hdb. rewrite at_insert by done. rewrite decide_False by congruence. by apply He. Qed.

Lemma elsewhere_delete t t' o :
  is_database o = true -> object_ok o -> elsewhere cluster_id t t' -> elsewhere cluster_id t (delete (key_of st o) t').
Proof. intros Ho Hok He o' Hok' Hdb. rewrite at_delete by done. rewrite decide_False by congruence. by apply He. Qed.

Section Store.
Context (n : Z) (D : gmap string DB) (t0 : gmap string string) (H0 : represents n D t0).

Lemma resolve_id_spec name :
  valid_name wide name = true ->
  triple (fun t => t = t0) (resolve_id wide fault st ToInt64E name)
    (fun r t => t = t0 /\ match r with Ret id => exists db, D !! name = Some db /\ DB_Id db = id | Fail _ => True | Panic _ => False end).
Proof.
  intros Hv. unfold resolve_id. rewrite valid_name_not_num by done. unfold QueryDBName2ID.
  apply (triple_bind _ _ _ (fun r t => t = t0 /\ (r = Ret (t0 !! key_of st (ODBName name)) \/ exists e, r = Fail e))).
  - apply triple_read; [intros t ->; by eauto|]. intros t e ->. eauto.
  - intros bs w [Hw Hbs]. destruct Hbs as [[= ->]|[? [=]]].
    change (DBKeyName st name) with (key_of st (ODBName name)). rewrite (rep_name _ _ _ _ _ H0).
    destruct (D !! name) as [db|] eqn:Hdb; cbn [fmap option_fmap option_map]; [|by split].
    destruct (rep_wf _ _ _ _ _ H0 _ _ Hdb) as (_ & _ & ? & _). pose proof (rep_range _ _ _ _ _ H0).
    rewrite Hcast by lia. split; [done|]. by exists db.
  - intros e t [-> _]. done.
  - intros p t [_ [?|[? ?]]]; discriminate.
Qed.

Lemma body_found name db : D !! name = Some db -> decode_db (t0 !! key_of st (ODBBody (DB_Id db))) = Ret db.
Proof.
  intros Hdb. assert (t0 !! key_of st (ODBBody (DB_Id db)) = Some (Marshal db)) as -> by (apply (rep_body _ _ _ _ _ H0); eauto).
  cbn [decode_db]. rewrite Unmarshal_Marshal; [done|]. by apply (rep_wf _ _ _ _ _ H0) in Hdb as (_ & _ & _ & ?).
Qed.

(** Reading a body by the id found for the name. *)
Lemma read_body_spec {B} name (k : DB -> M B) Q :
  valid_name wide name = true ->
  (forall db, D !! name = Some db -> triple (fun t => t = t0) (k db) Q) -> (forall e, Q (Fail e) t0) ->
  triple (fun t => t = t0)
    (mbind_M (resolve_id wide fault st ToInt64E name) (fun id =>
       mbind_M (Get fault (DBKeyBody st id)) (fun bs => mbind_M (mret (decode_db bs)) k))) Q.
Proof.
  intros Hv Hk Hfail. eapply triple_bind; [by apply resolve_id_spec| | |]; cbn beta.
  - intros id. apply (triple_pure (fun t => t = t0)). intros (db & Hdb & <-).
    apply (triple_bind _ _ _ (fun r t => t = t0 /\ (r = Ret (t0 !! key_of st (ODBBody (DB_Id db))) \/ exists e, r = Fail e))).
    + apply triple_read; [intros t ->; by eauto|]. intros t e ->. eauto.
    + intros bs w [Hw [[= ->]|[? [=]]]]. unfold mbind_M, mret.
      change (DBKeyBody st (DB_Id db)) with (key_of st (ODBBody (DB_Id db))). rewrite (body_found name db Hdb). by apply Hk.
    + intros e t [-> _]. apply Hfail.
    + intros p t [_ [?|[? ?]]]; discriminate.
  - intros e t [-> _]. apply Hfail.
  - by intros p t [_ []].
Qed.

Lemma QueryDB_spec name :
  valid_name wide name = true ->
  triple (fun t => t = t0) (QueryDB wide fault st ToInt64E name)
    (fun r t => t = t0 /\ match r with Ret db => D !! name = Some db | Fail _ => True | Panic _ => False end).
Proof.
  intros Hv w Hw.
  assert (QueryDB wide fault st ToInt64E name w =
    mbind_M (resolve_id wide fault st ToInt64E name) (fun id =>
       mbind_M (Get fault (DBKeyBody st id)) (fun bs => mbind_M (mret (decode_db bs)) (fun db => mret (Ret db)))) w) as ->.
  { unfold QueryDB, mbind_M, mret. destruct (resolve_id wide fault st ToInt64E name w) as [w1 [id| |]]; [|done..].
    destruct (Get fault (DBKeyBody st id) w1) as [w2 [bs| |]]; [|done..]. by destruct (decode_db bs). }
  refine (read_body_spec name _ (fun r t => t = t0 /\ match r with Ret db => D !! name = Some db | Fail _ => True | Panic _ => False end)
            Hv _ _ w Hw); [|done]. intros db Hdb. apply triple_ret. by intros t ->.
Qed.

(** ** CreateDB *)

Lemma check_limit_reads : reads t0 (check_limit fault st LimitedDBNum).
Proof.
  unfold check_limit. destruct LimitedDBNum; [|by apply reads_ret].
  apply reads_bind; [by apply reads_call|]. intros kvs. apply reads_ret, guard_err_no_panic.
Qed.

Lemma validate_one_no_panic servers ps p : validate_one IsLive servers ps <> Panic p.
Proof. unfold validate_one. destruct (List.find _ _); [|done]. by destruct (IsLive _). Qed.

Lemma validatePS_reads psList : reads t0 (validatePS fault st IsLive psList).
Proof.
  unfold validatePS. destruct (length psList <? 1)%nat; [by apply reads_ret|].
  apply reads_bind; [apply reads_bind; [by apply reads_call|intros; by apply reads_ret]|].
  intros servers. apply reads_ret. clear. induction psList as [|ps psList IH]; [done|].
  intros p. cbn [ofold]. destruct (validate_one IsLive servers ps) as [[]| |] eqn:E; [apply IH|done|]. by apply validate_one_no_panic in E.
Qed.

(** What [CreateDB] may leave behind. *)
Definition created (db : DB) (r : go unit) (t : gmap string string) : Prop :=
  let name := DB_Name db in
  elsewhere cluster_id t0 t /\
  match r with
  | Ret _ => D !! name = None /\ represents (n + 1) (<[name := with_id db (n + 1)]> D) t
  | Fail _ => represents n D t \/ represents (n + 1) D t \/
              D !! name = None /\ represents (n + 1) (<[name := with_id db (n + 1)]> D) t
  | Panic _ => False
  end.

Definition id_taken (r : go Z) (t : gmap string string) : Prop :=
  elsewhere cluster_id t0 t /\
  match r with
  | Ret id => id = n + 1 /\ represents id D t /\ unused id D
  | Fail _ => represents n D t \/ represents (n + 1) D t
  | Panic _ => False
  end.

Lemma NewIDGenerate_taken : n + 1 < 2 ^ 63 ->
  triple (fun t => t = t0) (NewIDGenerate fault (key_of st OSeqDB) 1) id_taken.
Proof.
  intros Hn w Hw. pose proof (rep_range _ _ _ _ _ H0) as Hr.
  assert (last_id (kv w) (key_of st OSeqDB) = Some n) as Hl by (rewrite Hw; apply H0).
  pose proof (NewIDGenerate_spec fault (key_of st OSeqDB) w n Hl ltac:(lia)) as Hspec.
  destruct (NewIDGenerate fault (key_of st OSeqDB) 1 w) as [w' r]. destruct Hspec as [Hk Hres]. rewrite Hw in Hk. cbn [fst snd].
  split; [intros o Hok Hdb; apply Hk; intros E%key_inj; by subst|].
  pose proof (represents_bump wide cluster_id n D t0 (kv w') H0 ltac:(lia)) as Hb.
  destruct r as [id|e|p]; [destruct Hres as [-> Hl']| |done].
  - destruct (Hb Hl' Hk). done.
  - destruct Hres as [_ [Hl'|Hl']]; [left|right; by destruct (Hb Hl' Hk)].
    destruct H0. split; try done; intros; rewrite Hk; auto; intros E%key_inj; done.
Qed.

Lemma stm_get_absent (t : gmap string string) k : t !! k = None -> stm_get t k = ""%string.
Proof. unfold stm_get. by intros ->. Qed.

(** The transaction runs on a store whose sequence has just moved on. *)
Lemma create_txn_spec db t :
  DB_Id db = n + 1 -> represents (n + 1) D t -> unused (n + 1) D -> valid_name wide (DB_Name db) = true -> Encodable db ->
  elsewhere cluster_id t0 t ->
  match create_txn st db t with
  | Ret (t', _) => D !! DB_Name db = None /\ represents (n + 1) (<[DB_Name db := db]> D) t' /\ elsewhere cluster_id t0 t'
  | Fail e => code_of e = Some DB_EXIST /\ is_Some (D !! DB_Name db)
  | Panic _ => False
  end.
Proof.
  intros Hid Hr Hun Hv Henc He. unfold create_txn.
  change (DBKeyName st (DB_Name db)) with (key_of st (ODBName (DB_Name db))).
  change (DBKeyId st (DB_Id db)) with (key_of st (ODBId (DB_Id db))).
  change (DBKeyBody st (DB_Id db)) with (key_of st (ODBBody (DB_Id db))).
  destruct (D !! DB_Name db) as [old|] eqn:Hold.
  - unfold stm_get at 1. rewrite (rep_name _ _ _ _ _ Hr), Hold. cbn [fmap option_fmap option_map default from_option id].
    rewrite (proj2 (string_eqb_neq _ _) (FormatInt_nonempty _)). cbn [negb]. split; [apply NewError_fresh_code|by eexists].
  - rewrite stm_get_absent by by rewrite (rep_name _ _ _ _ _ Hr), Hold.
    rewrite stm_get_absent.
    2:{ apply eq_None_not_Some. intros [v Hv']. apply (rep_id _ _ _ _ _ Hr) in Hv' as (db' & Hdb' & Hid').
        apply (Hun v db' Hdb'). congruence. }
    cbn [negb]. rewrite !(proj2 (string_eqb_eq _ _) eq_refl). cbn [negb]. split_and!; [done| |].
    + apply represents_insert; [done| |done|by rewrite Hid]. pose proof (rep_range _ _ _ _ _ H0). split_and!; [done..|lia|lia|done].
    + by repeat apply elsewhere_insert.
Qed.

Lemma CreateDB_spec db :
  n + 1 < 2 ^ 63 -> Encodable (with_id db (n + 1)) ->
  triple (fun t => t = t0) (CreateDB wide fault st IsLive LimitedDBNum db) (created db).
Proof.
  intros Hn Henc. assert (forall e, created db (Fail e) t0) as Hstop by (intros e; split; [apply elsewhere_refl|by left]).
  apply triple_reads_then; [apply check_limit_reads| |done]. intros _.
  destruct (DB_Validate wide db) as [[]|e|p] eqn:Hval.
  2:{ rewrite mbind_fail. apply triple_ret. by intros t ->. }
  2:{ exfalso. revert Hval. unfold DB_Validate. destruct (runes (DB_Name db)) as [|r0 rs]; [done|].
      destruct (IsNumber wide r0); [done|]. destruct (r0 =? 95); [done|]. rewrite check_runes_spec.
      destruct (existsb _ _); [done|]. by destruct (0 <? DB_Id db). }
  pose proof (DB_Validate_spec wide db) as Hv. rewrite Hval in Hv. symmetry in Hv. apply andb_true_iff in Hv as [Hv _].
  rewrite mbind_ret. apply triple_reads_then; [apply validatePS_reads| |done]. intros _.
  eapply triple_bind; [by apply NewIDGenerate_taken|..].
  - intros id. apply (triple_conseq (fun t => elsewhere cluster_id t0 t /\ id = n + 1 /\ represents (n + 1) D t /\ unused (n + 1) D)
      _ _ (created db)); [|intros t (? & -> & ?); done|done].
    apply triple_with_lock; [apply triple_STM|].
    + intros t (He & -> & Hr & Hun). pose proof (create_txn_spec (with_id db (n + 1)) t eq_refl Hr Hun Hv Henc He) as Hc.
      destruct (create_txn st (with_id db (n + 1)) t) as [[t' []]|e|p]; [split; tauto| |done]. split; [done|]. right. by left.
    + intros t e (He & -> & Hr & Hun). split; [split; [done|right; by left]|]. intros t' [] Ht'.
      pose proof (create_txn_spec (with_id db (n + 1)) t eq_refl Hr Hun Hv Henc He) as Hc. rewrite Ht' in Hc.
      split; [tauto|]. right. right. tauto.
    + intros e t (He & -> & Hr & Hun). split; [done|right; by left].
  - intros e t [He [?|?]]; split; eauto.
  - by intros p t [_ []].
Qed.

(** ** DeleteDB and UpdateDBIpList *)

Definition no_spaces (id : Z) : Prop :=
  (decode_all (scan t0 (PrefixSpace st +:+ pretty id +:+ "/")) : list Space) = [].

(** What [DeleteDB] may leave behind. *)
Definition deleted (name : string) (r : go unit) (t : gmap string string) : Prop :=
  elsewhere cluster_id t0 t /\
  match r with
  | Ret _ => exists db, D !! name = Some db /\ no_spaces (DB_Id db) /\ represents n (delete name D) t
  | Fail _ => represents n D t \/
              exists db, D !! name = Some db /\ no_spaces (DB_Id db) /\ represents n (delete name D) t
  | Panic _ => False
  end.

Lemma delete_txn_spec name db t' a :
  D !! name = Some db -> delete_txn st db t0 = Ret (t', a) ->
  represents n (delete name D) t' /\ elsewhere cluster_id t0 t'.
Proof.
  intros Hdb [= <- <-]. pose proof (rep_wf _ _ _ _ _ H0 _ _ Hdb) as (Hn & _).
  change (DBKeyName st (DB_Name db)) with (key_of st (ODBName (DB_Name db))).
  change (DBKeyId st (DB_Id db)) with (key_of st (ODBId (DB_Id db))).
  change (DBKeyBody st (DB_Id db)) with (key_of st (ODBBody (DB_Id db))). rewrite <- Hn in *.
  split; [by apply represents_delete|]. by repeat apply elsewhere_delete.
Qed.

Lemma DeleteDB_spec name :
  valid_name wide name = true ->
  triple (fun t => t = t0) (DeleteDB wide fault st ToInt64E name) (deleted name).
Proof.
  intros Hv. assert (forall e, deleted name (Fail e) t0) as Hstop by (intros e; split; [apply elsewhere_refl|by left]).
  eapply triple_bind; [by apply QueryDB_spec|..]; cbn beta; [|by intros e t [-> _]|by intros p t [_ []]].
  intros db. apply (triple_pure (fun t => t = t0)). intros Hdb. apply triple_with_lock; [|by intros e t ->].
  apply (triple_bind _ _ _ (fun r t => t = t0 /\ match r with
    | Ret spaces => spaces = (decode_all (scan t0 (PrefixSpace st +:+ pretty (DB_Id db) +:+ "/")) : list Space)
    | Fail _ => True | Panic _ => False end)).
  - intros w Hw. unfold QuerySpaces, QuerySpacesByKey, PrefixScan, mbind_M, call, mret.
    destruct (fault (calls w)) as [[e []]|]; cbn [fst snd kv]; by rewrite Hw.
  - intros spaces. apply (triple_pure (fun t => t = t0)). intros Hsp.
    destruct spaces as [|sp spaces]; cbn [length Nat.ltb Nat.leb]; [|by apply triple_ret; intros t ->].
    apply triple_STM.
    + intros t ->. destruct (delete_txn_spec name db _ tt Hdb eq_refl). split; [done|]. by exists db.
    + intros t e ->. split; [done|]. intros t' a Ht'. destruct (delete_txn_spec name db _ _ Hdb Ht').
      split; [done|]. right. by exists db.
  - by intros e t [-> _].
  - by intros p t [_ []].
Qed.

(** What [UpdateDBIpList] may leave behind. *)
Definition ps_updated (m : DBModify) (r : go DB) (t : gmap string string) : Prop :=
  let changed db' := exists db ps, D !! DbName m = Some db /\ modify_ps ConfAddNode ConfRemoveNode m (DB_Ps db) = Ret ps /\
                       db' = with_ps db ps /\ represents n (<[DbName m := db']> D) t in
  elsewhere cluster_id t0 t /\
  match r with
  | Ret db' => changed db'
  | Fail _ => represents n D t \/ exists db', changed db'
  | Panic _ => False
  end.

Lemma modify_ps_no_panic m ps p : modify_ps ConfAddNode ConfRemoveNode m ps <> Panic p.
Proof. unfold modify_ps. by repeat case_match. Qed.

Lemma UpdateDBIpList_spec m :
  valid_name wide (DbName m) = true ->
  (forall db ps, D !! DbName m = Some db -> modify_ps ConfAddNode ConfRemoveNode m (DB_Ps db) = Ret ps -> Encodable (with_ps db ps)) ->
  triple (fun t => t = t0) (UpdateDBIpList wide fault st ToInt64E ConfAddNode ConfRemoveNode m) (ps_updated m).
Proof.
  intros Hv Henc. assert (forall e, ps_updated m (Fail e) t0) as Hstop by (intros e; split; [apply elsewhere_refl|by left]).
  apply read_body_spec; [done| |done]. intros db Hdb.
  destruct (modify_ps ConfAddNode ConfRemoveNode m (DB_Ps db)) as [ps|e|p] eqn:Hps; [| |by apply modify_ps_no_panic in Hps].
  2:{ rewrite mbind_fail. apply triple_ret. by intros t ->. }
  rewrite mbind_ret. cbv zeta.
  pose proof (rep_wf _ _ _ _ _ H0 _ _ Hdb) as (Hn & _).
  assert (let t' := <[DBKeyBody st (DB_Id db) := Marshal (with_ps db ps)]> t0 in
          elsewhere cluster_id t0 t' /\ represents n (<[DbName m := with_ps db ps]> D) t') as [He Hr].
  { split.
    - by apply (elsewhere_insert t0 t0 (ODBBody (DB_Id db))).
    - rewrite <- Hn in Hdb |- *. apply (represents_update wide cluster_id n D t0 db (with_ps db ps)); try done.
      apply Henc; [|done]. by rewrite <- Hn. }
  eapply (triple_bind _ _ _ (fun r t => match r with
    | Ret _ => t = <[DBKeyBody st (DB_Id db) := Marshal (with_ps db ps)]> t0
    | Fail _ => t = t0 \/ t = <[DBKeyBody st (DB_Id db) := Marshal (with_ps db ps)]> t0 | Panic _ => False end)).
  - apply triple_call; [by intros t ->|]. intros t e ->. eauto.
  - intros []. apply triple_ret. intros t ->. split; [done|]. by exists db, ps.
  - intros e t [->| ->]; [done|]. split; [done|]. right. by exists (with_ps db ps), db, ps.
  - done.
Qed.

(** ** When nothing goes wrong *)

Section NoFault.
Context (Hok : forall k, fault k = None).

Lemma call_no_fault {A} (f : gmap string string -> gmap string string * go A) w :
  call fault f w = ({| kv := (f (kv w)).1; calls := S (calls w) |}, (f (kv w)).2).
Proof. unfold call. rewrite Hok. by destruct (f (kv w)). Qed.

Lemma locked_STM_result {A} (f : txn A) w :
  (with_lock fault (STM fault f) w).2 = match f (kv w) with Ret (_, a) => Ret a | Fail e => Fail e | Panic p => Panic p end.
Proof.
  unfold with_lock, mbind_M, Lock, STM. rewrite call_no_fault. cbn [fst snd]. rewrite call_no_fault. cbn [fst snd kv].
  by destruct (f (kv w)) as [[? ?]| |].
Qed.

Lemma CreateDB_result db w :
  kv w = t0 -> n + 1 < 2 ^ 63 -> Encodable (with_id db (n + 1)) -> LimitedDBNum = false -> DB_Ps db = [] ->
  is_ret (CreateDB wide fault st IsLive LimitedDBNum db w).2 = is_ret (DB_Validate wide db) && bool_decide (D !! DB_Name db = None).
Proof.
  intros Hw Hn Henc Hlim Hps. pose proof (DB_Validate_spec wide db) as Hv.
  unfold CreateDB, check_limit, validatePS. rewrite Hlim, Hps.
  destruct (DB_Validate wide db) as [[]|e|p]; [|reflexivity..]. symmetry in Hv. apply andb_true_iff in Hv as [Hv _].
  cbn [length Nat.ltb Nat.leb]. rewrite !mbind_ret. pose proof (NewIDGenerate_taken Hn w Hw) as Hid.
  assert (forall e, (NewIDGenerate fault (key_of st OSeqDB) 1 w).2 <> Fail e) as Hnf.
  { intros e He. assert (last_id (kv w) (key_of st OSeqDB) = Some n) as Hl by (rewrite Hw; apply H0).
    pose proof (rep_range _ _ _ _ _ H0). pose proof (NewIDGenerate_spec fault (key_of st OSeqDB) w n Hl ltac:(lia)) as Hs.
    destruct (NewIDGenerate fault (key_of st OSeqDB) 1 w) as [w' r]. cbn [snd] in He. subst r.
    destruct Hs as (_ & [x Hx] & _). by rewrite Hok in Hx. }
  change (DBIdSequence st) with (key_of st OSeqDB). unfold mbind_M at 1.
  destruct (NewIDGenerate fault (key_of st OSeqDB) 1 w) as [w' [id|e|p]]; cbn [fst snd] in *; [|by destruct (Hnf e)|by destruct Hid].
  destruct Hid as (He & -> & Hr & Hun). rewrite locked_STM_result.
  pose proof (create_txn_spec (with_id db (n + 1)) (kv w') eq_refl Hr Hun Hv Henc He) as Hc.
  destruct (create_txn st (with_id db (n + 1)) (kv w')) as [[t' []]|e|p]; [| |done].
  - destruct Hc as [Hd _]. cbn [DB_Name with_id] in Hd. by rewrite bool_decide_true.
  - destruct Hc as [_ [x Hx]]. cbn [DB_Name with_id] in Hx. rewrite bool_decide_false by by rewrite Hx. done.
Qed.

Lemma QueryDB_result name w :
  kv w = t0 -> valid_name wide name = true ->
  (QueryDB wide fault st ToInt64E name w).2 =
    match D !! name with Some db => Ret db | None => Fail (NewError DB_NOT_EXIST None) end.
Proof.
  intros Hw Hv. unfold QueryDB, resolve_id, QueryDBName2ID, Get. rewrite (valid_name_not_num _ _ Hv).
  unfold mbind_M at 1 2. rewrite call_no_fault. cbn [fst snd kv]. rewrite Hw.
  change (DBKeyName st name) with (key_of st (ODBName name)). rewrite (rep_name _ _ _ _ _ H0).
  destruct (D !! name) as [db|] eqn:Hdb; cbn [fmap option_fmap option_map]; [|done].
  destruct (rep_wf _ _ _ _ _ H0 _ _ Hdb) as (_ & _ & ? & _). pose proof (rep_range _ _ _ _ _ H0).
  rewrite Hcast by lia. unfold mbind_M, mret. rewrite call_no_fault. cbn [fst snd kv].
  apply (body_found name db Hdb).
Qed.
End NoFault.
End Store.

(** ** Histories *)

Inductive db_op : Type := OpCreate (db : DB) | OpDelete (name : string) | OpModify (m : DBModify).

(** What a caller must respect: the names asked for are valid, the strings valid UTF-8. *)
Definition op_ok (o : db_op) : Prop :=
  match o with
  | OpCreate db => forall id, Encodable (with_id db id)
  | OpDelete name => valid_name wide name = true
  | OpModify m => valid_name wide (DbName m) = true /\
      forall db ps, Encodable db -> modify_ps ConfAddNode ConfRemoveNode m (DB_Ps db) = Ret ps -> Encodable (with_ps db ps)
  end.

(** The store after an operation, however it ended. *)
Definition run_op (o : db_op) (w : world) : world :=
  match o with
  | OpCreate db => (CreateDB wide fault st IsLive LimitedDBNum db w).1
  | OpDelete name => (DeleteDB wide fault st ToInt64E name w).1
  | OpModify m => (UpdateDBIpList wide fault st ToInt64E ConfAddNode ConfRemoveNode m w).1
  end.

Lemma run_op_represents o n D w :
  op_ok o -> represents n D (kv w) -> n + 1 < 2 ^ 63 ->
  elsewhere cluster_id (kv w) (kv (run_op o w)) /\
  exists n' D', represents n' D' (kv (run_op o w)) /\ n <= n' <= n + 1.
Proof.
  intros Ho Hr Hn. pose proof (rep_wf _ _ _ _ _ Hr) as Hwf. destruct o as [db|name|m]; cbn [run_op op_ok] in *.
  - destruct (CreateDB_spec n D (kv w) Hr db Hn (Ho (n + 1)) w eq_refl) as [He Hres]. split; [done|].
    destruct (CreateDB _ _ _ _ _ _ w).2; [destruct Hres as [_ Hres]|destruct Hres as [Hres|[Hres|[_ Hres]]]|done];
      eexists _, _; (split; [exact Hres|lia]).
  - destruct (DeleteDB_spec n D (kv w) Hr name Ho w eq_refl) as [He Hres]. split; [done|].
    destruct (DeleteDB _ _ _ _ _ w).2; [destruct Hres as (? & _ & _ & Hres)|destruct Hres as [Hres|(? & _ & _ & Hres)]|done];
      eexists _, _; (split; [exact Hres|lia]).
  - destruct Ho as [Hv Henc]. destruct (UpdateDBIpList_spec n D (kv w) Hr m Hv) with (w := w) as [He Hres]; [|done|].
    { intros db ps Hdb. apply Henc. by apply Hwf in Hdb as (_ & _ & _ & ?). }
    split; [done|].
    destruct (UpdateDBIpList _ _ _ _ _ _ _ w).2; [destruct Hres as (? & ? & _ & _ & _ & Hres)|destruct Hres as [Hres|(? & ? & ? & _ & _ & _ & Hres)]|done];
      eexists _, _; (split; [exact Hres|lia]).
Qed.
End Refine.

(** ** The claims *)

(** [CreateDB] refines the insertion of a database with a fresh id: on success
    the name was free and the store holds exactly one database more, under the
    id after the last one; on failure the databases are as before or, when the
    answer to the transaction was lost, with the new one - never a name without
    its body; other objects are untouched.  When nothing goes wrong (and no
    servers are asked for) it succeeds exactly if the request is valid and the
    name is free.  (C19) *)
Theorem CreateDB_refines (wide : Z -> bool) (cluster_id : string) (fault : nat -> option (error * bool)) (IsLive : string -> bool)
    (LimitedDBNum : bool) (HDB : Codec DB) (HServer : Codec Server) (n : Z) (D : gmap string DB) (db : DB) (w : world) :
  represents wide cluster_id n D (kv w) -> n + 1 < 2 ^ 63 -> Encodable (with_id db (n + 1)) ->
  let '(w', r) := CreateDB wide fault (SetPrefixAndSequence cluster_id initial_prefixes) IsLive LimitedDBNum db w in
  created wide cluster_id n D (kv w) db r (kv w') /\
  ((forall k, fault k = None) -> LimitedDBNum = false -> DB_Ps db = [] ->
   is_ret r = is_ret (DB_Validate wide db) && bool_decide (D !! DB_Name db = None)).
Proof.
  intros Hr Hn Henc.
  pose proof (CreateDB_spec wide cluster_id fault IsLive LimitedDBNum n D (kv w) Hr db Hn Henc w eq_refl) as Hc.
  pose proof (fun Hf => CreateDB_result wide cluster_id fault IsLive LimitedDBNum n D (kv w) Hr Hf db w eq_refl Hn Henc) as Hres.
  destruct (CreateDB _ _ _ _ _ _ w) as [w' r]. by split.
Qed.

(** [DeleteDB] refines the removal of a database: it succeeds only on a database
    that exists and in which no space is left, and then its three keys are gone
    and nothing else has changed; on failure the database is there in full or,
    when the answer was lost, gone in full. *)
Theorem DeleteDB_refines (wide : Z -> bool) (cluster_id : string) (fault : nat -> option (error * bool)) (ToInt64E : string -> option Z)
    (HDB : Codec DB) (HSpace : Codec Space) (n : Z) (D : gmap string DB) (name : string) (w : world) :
  (forall id, 0 < id < 2 ^ 63 -> ToInt64E (FormatInt id) = Some id) ->
  represents wide cluster_id n D (kv w) -> valid_name wide name = true ->
  let '(w', r) := DeleteDB wide fault (SetPrefixAndSequence cluster_id initial_prefixes) ToInt64E name w in
  deleted wide cluster_id n D (kv w) name r (kv w').
Proof.
  intros Hcast Hr Hv. pose proof (DeleteDB_spec wide cluster_id fault ToInt64E Hcast n D (kv w) Hr name Hv w eq_refl) as Hd.
  by destruct (DeleteDB _ _ _ _ _ w).
Qed.

(** [QueryDB] by name reads the represented map and changes nothing: what it
    returns is the database of that name, and when nothing goes wrong it returns
    it, or [DB_NOT_EXIST] if there is none. *)
Theorem QueryDB_refines (wide : Z -> bool) (cluster_id : string) (fault : nat -> option (error * bool)) (ToInt64E : string -> option Z)
    (HDB : Codec DB) (n : Z) (D : gmap string DB) (name : string) (w : world) :
  (forall id, 0 < id < 2 ^ 63 -> ToInt64E (FormatInt id) = Some id) ->
  represents wide cluster_id n D (kv w) -> valid_name wide name = true ->
  let '(w', r) := QueryDB wide fault (SetPrefixAndSequence cluster_id initial_prefixes) ToInt64E name w in
  kv w' = kv w /\ (forall db, r = Ret db -> D !! name = Some db) /\
  ((forall k, fault k = None) -> r = match D !! name with Some db => Ret db | None => Fail (NewError DB_NOT_EXIST None) end).
Proof.
  intros Hcast Hr Hv. pose proof (QueryDB_spec wide cluster_id fault ToInt64E Hcast n D (kv w) Hr name Hv w eq_refl) as Hq.
  pose proof (fun Hf => QueryDB_result wide cluster_id fault ToInt64E Hcast n D (kv w) Hr Hf name w eq_refl Hv) as Hres.
  destruct (QueryDB _ _ _ _ _ w) as [w' r]. destruct Hq as [Hk Hq]. split_and!; [done| |done]. by intros db ->.
Qed.

(** Whatever sequence of creations, deletions and server-list changes is run,
    and whichever of their calls fail or lose their answer, the database keys
    stay consistent: names, ids and bodies are those of a map from names to
    databases with distinct ids, and no other key changes.  (C13) *)
Theorem databases_consistent (wide : Z -> bool) (cluster_id : string) (fault : nat -> option (error * bool))
    (ToInt64E : string -> option Z) (IsLive : string -> bool) (LimitedDBNum : bool) (ConfAddNode ConfRemoveNode : Z)
    (HDB : Codec DB) (HSpace : Codec Space) (HServer : Codec Server) (ops : list db_op) (n : Z) (D : gmap string DB) (w : world) :
  (forall id, 0 < id < 2 ^ 63 -> ToInt64E (FormatInt id) = Some id) ->
  Forall (op_ok wide ConfAddNode ConfRemoveNode) ops ->
  represents wide cluster_id n D (kv w) -> n + Z.of_nat (length ops) < 2 ^ 63 ->
  let w' := fold_left (fun w o => run_op wide cluster_id fault ToInt64E IsLive LimitedDBNum ConfAddNode ConfRemoveNode o w) ops w in
  elsewhere cluster_id (kv w) (kv w') /\
  exists n' D', represents wide cluster_id n' D' (kv w') /\ n <= n' <= n + Z.of_nat (length ops).
Proof.
  intros Hcast Hok. revert n D w. induction Hok as [|o ops Ho Hops IH]; intros n D w Hr Hn; cbn [fold_left length] in *.
  - split; [by intros o|]. exists n, D. split; [done|lia].
  - destruct (run_op_represents wide cluster_id fault ToInt64E IsLive LimitedDBNum ConfAddNode ConfRemoveNode Hcast o n D w Ho Hr)
      as (He & n1 & D1 & Hr1 & Hn1); [lia|].
    destruct (IH n1 D1 _ Hr1) as (He' & n' & D' & Hr' & Hn'); [lia|]. split.
    + intros k Hk Hdb. by rewrite He', He.
    + exists n', D'. split; [done|lia].
Qed.

(** ** A concrete instance *)

(** Any countable type has an encoding: the bits of its code. *)
Fixpoint bits_of (p : positive) : string :=
  match p with xH => EmptyString | xO p => String "0" (bits_of p) | xI p => String "1" (bits_of p) end.
Fixpoint of_bits (s : string) : positive :=
  match s with EmptyString => xH | String "0" s => xO (of_bits s) | String _ s => xI (of_bits s) end.

Lemma of_bits_of p : of_bits (bits_of p) = p.
Proof. induction p as [p IH|p IH|]; simpl; by rewrite ?IH. Qed.

Definition countable_codec {A} `{Countable A} : Codec A.
Proof.
  refine {| Marshal a := String "J" (bits_of (encode a));
            Unmarshal s := match s with String _ s' => decode (of_bits s') | EmptyString => None end;
            Encodable _ := True |}.
  - intros a _. rewrite of_bits_of. apply decode_encode.
  - done.
Defined.

#[export] Instance DB_eq_dec : EqDecision DB.
Proof. solve_decision. Defined.
#[export] Instance DB_countable : Countable DB.
Proof.
  refine (inj_countable' (fun db => (DB_Id db, DB_Name db, DB_Ps db))
            (fun x => {| DB_Id := x.1.1; DB_Name := x.1.2; DB_Ps := x.2 |}) _). by intros [].
Defined.

(** An encoding that decodes nothing. *)
Definition opaque_codec (A : Type) : Codec A.
Proof. refine {| Marshal _ := "{}"%string; Unmarshal _ := None; Encodable _ := False |}; done. Defined.

Lemma represents_empty wide cluster_id (HDB : Codec DB) : represents wide cluster_id 0 ∅ ∅.
Proof.
  split.
  - unfold last_id, stm_get. by rewrite lookup_empty.
  - lia.
  - intros name. by rewrite !lookup_empty.
  - intros id v. rewrite lookup_empty. split; [done|]. intros (? & []%lookup_empty_Some & _).
  - intros id v. rewrite lookup_empty. split; [done|]. intros (? & ? & []%lookup_empty_Some & _).
  - intros name db []%lookup_empty_Some.
Qed.

Definition demo_db : DB := {| DB_Id := 0; DB_Name := "ts_db"; DB_Ps := [] |}.
Definition demo_world : world :=
  (CreateDB (fun _ => false) no_fault (SetPrefixAndSequence "c1" initial_prefixes) (fun _ => true) false
     (HDB := countable_codec) (HServer := opaque_codec Server) demo_db empty_world).1.

Lemma demo_cast : forall id, 0 < id < 2 ^ 63 -> ParseInt (FormatInt id) = Some id.
Proof. intros id Hid. apply ParseInt_FormatInt. unfold in_s. lia. Qed.

Lemma CreateDB_refines_witness :
  represents (fun _ => false) "c1" (HDB := countable_codec) 1 {[ "ts_db"%string := with_id demo_db 1 ]} (kv demo_world).
Proof.
  pose proof (CreateDB_refines (fun _ => false) "c1" no_fault (fun _ => true) false countable_codec (opaque_codec Server) 0 ∅ demo_db empty_world
                (represents_empty _ _ _) ltac:(lia) I) as H.
  unfold demo_world. destruct (CreateDB _ _ _ _ _ _ empty_world) as [w' r] eqn:E.
  destruct H as [[_ Hc] Hres]. specialize (Hres (fun _ => eq_refl) eq_refl eq_refl). vm_compute in Hres.
  destruct r as [[]|e|p]; [|discriminate..]. destruct Hc as [_ Hc]. exact Hc.
Defined.

Lemma demo_represents :
  represents (fun _ => false) "c1" (HDB := countable_codec) 1 {[ "ts_db"%string := with_id demo_db 1 ]} (kv demo_world).
Proof.
  pose proof (CreateDB_spec (fun _ => false) "c1" no_fault (fun _ => true) false 0 ∅ ∅ (HServer := opaque_codec Server)
                (represents_empty _ _ countable_codec) demo_db ltac:(lia) I empty_world eq_refl) as [_ Hc].
  assert ((CreateDB (fun _ => false) no_fault (SetPrefixAndSequence "c1" initial_prefixes) (fun _ => true) false
     (HDB := countable_codec) (HServer := opaque_codec Server) demo_db empty_world).2 = Ret tt) as E by (vm_compute; reflexivity).
  rewrite E in Hc. exact (proj2 Hc).
Qed.

Lemma DeleteDB_refines_witness :
  let r := DeleteDB (fun _ => false) no_fault (SetPrefixAndSequence "c1" initial_prefixes) ParseInt
             (HDB := countable_codec) (HSpace := opaque_codec Space) "ts_db" demo_world in
  r.2 = Ret tt /\ represents (fun _ => false) "c1" (HDB := countable_codec) 1 (delete "ts_db"%string {[ "ts_db"%string := with_id demo_db 1 ]}) (kv r.1).
Proof.
  pose proof (DeleteDB_refines (fun _ => false) "c1" no_fault ParseInt countable_codec (opaque_codec Space) 1 _ "ts_db" demo_world
                demo_cast demo_represents eq_refl) as H. cbv zeta.
  destruct (DeleteDB _ _ _ _ _ demo_world) as [w' r] eqn:E.
  assert (r = Ret tt) as -> by (vm_compute in E; congruence). split; [reflexivity|].
  destruct H as (_ & db & _ & _ & H). exact H.
Defined.

Lemma QueryDB_refines_witness :
  (QueryDB (fun _ => false) no_fault (SetPrefixAndSequence "c1" initial_prefixes) ParseInt (HDB := countable_codec) "ts_db" demo_world).2
    = Ret (with_id demo_db 1).
Proof.
  pose proof (QueryDB_refines (fun _ => false) "c1" no_fault ParseInt countable_codec 1 _ "ts_db" demo_world demo_cast demo_represents eq_refl) as H.
  destruct (QueryDB _ _ _ _ _ demo_world) as [w' r]. destruct H as (_ & _ & H). exact (H (fun _ => eq_refl)).
Defined.

(** The third call of the run fails after it took effect. *)
Definition demo_fault (k : nat) : option (error * bool) := if (k =? 2)%nat then Some (OtherErr "timeout", true) else None.

Lemma databases_consistent_witness :
  let ops := [OpCreate demo_db; OpCreate {| DB_Id := 0; DB_Name := "other"; DB_Ps := [] |}; OpDelete "ts_db"] in
  let w' := fold_left (fun w o => run_op (fun _ => false) "c1" demo_fault ParseInt (fun _ => true) false 0 1 (HDB := countable_codec)
              (HSpace := opaque_codec Space) (HServer := opaque_codec Server) o w) ops empty_world in
  exists n' D', represents (fun _ => false) "c1" (HDB := countable_codec) n' D' (kv w') /\ 0 <= n' <= 3.
Proof.
  assert (Forall (op_ok (HDB := countable_codec) (fun _ => false) 0 1)
            [OpCreate demo_db; OpCreate {| DB_Id := 0; DB_Name := "other"; DB_Ps := [] |}; OpDelete "ts_db"]) as Hok.
  { repeat apply Forall_cons_2; [intros id; exact I|intros id; exact I|reflexivity|apply Forall_nil_2]. }
  exact (proj2 (databases_consistent (fun _ => false) "c1" demo_fault ParseInt (fun _ => true) false 0 1 countable_codec (opaque_codec Space)
                  (opaque_codec Server) _ 0 ∅ empty_world demo_cast Hok (represents_empty _ _ _) ltac:(simpl; lia))).
Defined.
