(* ===== verification/Accounts.v ===== *)
(** * Aliases, roles and users (internal/master/services: alias_service.go,
    role_service.go, user_service.go)

    Each object is one key, named after it, holding its JSON.  [keeps] relates
    the keys of one kind to a finite map; the operations are shown to act on
    that map, whichever calls fail.  [UpdateAlias], [UpdateUser] and
    [ChangeRolePrivilege] drop the error of their transaction: they report
    success for an update that was not stored. *)

From S2P Require Import Prelude.
From S2P Require Import Text.
From S2P Require Import Errors.
From S2P Require Import Names.
From S2P Require Import Rbac.
From S2P Require Import Keys.
From S2P Require Import Space.
From S2P Require Import Placement.
From S2P Require Import Store.
From S2P Require Import Databases.
Open Scope Z_scope.

(** [value := stm.Get(key); if value != "" { return err }; stm.Put(key, value)] *)
Definition create_key (key value : string) (exists_ : error) : txn unit := fun t =>
  if negb (stm_get t key =?s "") then Fail exists_ else Ret (<[key := value]> t, tt).
Definition put_key (key value : string) : txn unit := fun t => Ret (<[key := value]> t, tt).
Definition del_key (key : string) : txn unit := fun t => Ret (delete key t, tt).

(** [err = f(); return nil] *)
Definition drop_error {A} (m : M A) : M unit := fun w =>
  match m w with
  | (w', Panic p) => (w', Panic p)
  | (w', _) => (w', Ret tt)
  end.

(** A value that was read: absent, undecodable, or an object. *)
Definition decode_object {A} `{Codec A} (missing malformed : error) (bs : option string) : go A :=
  match bs with
  | None => Fail missing
  | Some v => match Unmarshal v with Some a => Ret a | None => Fail malformed end
  end.

Section Services.
Context (wide : Z -> bool) (fault : nat -> option (error * bool)) (st : Prefixes).
Context `{HAlias : !Codec Alias, HRole : !Codec Role, HUser : !Codec User}.

(** ** alias_service.go *)

(** Decoding happens into [&entity.Alias{Name: aliasName}]. *)
Definition name_alias (aliasName : string) (a : Alias) : Alias :=
  {| Alias_Name := if Alias_Name a =?s "" then aliasName else Alias_Name a;
     Alias_DbName := Alias_DbName a; Alias_SpaceName := Alias_SpaceName a |}.

Definition QueryAlias (aliasName : string) : M Alias :=
  do! bs <- Get fault (AliasKey st aliasName) in
  mret (let! a := decode_object (NewError ALIAS_NOT_EXIST None) (verr PARAM_ERROR "get alias:%s value:%s, err:%s") bs in
        Ret (name_alias aliasName a)).

Definition CreateAlias (alias : Alias) : M unit :=
  do_! mret (Alias_Validate wide alias) in
  with_lock fault (STM fault (create_key (AliasKey st (Alias_Name alias)) (Marshal alias) (NewError ALIAS_EXIST None))).

Definition DeleteAlias (aliasName : string) : M unit :=
  do! alias <- QueryAlias aliasName in
  with_lock fault (STM fault (del_key (AliasKey st (Alias_Name alias)))).

Definition UpdateAlias (alias : Alias) : M unit :=
  do! bs <- Get fault (AliasKey st (Alias_Name alias)) in
  match bs with
  | None => mret (Fail (NewError ALIAS_NOT_EXIST None))
  | Some _ => with_lock fault (drop_error (STM fault (put_key (AliasKey st (Alias_Name alias)) (Marshal alias))))
  end.

Definition QueryAllAlias : M (list Alias) :=
  do! kvs <- PrefixScan fault (PrefixAlias st) in
  mret (ofold (fun acc kv =>
    let! a := decode_object (NewError ALIAS_NOT_EXIST None) (verr PARAM_ERROR "get alias:%s value:%s, err:%s") (Some kv.2) in
    Ret (acc ++ [a])) [] kvs).

(** ** role_service.go *)

Definition name_role (roleName : string) (r : Role) : Role :=
  {| Role_Name := if Role_Name r =?s "" then roleName else Role_Name r;
     Role_Operator := Role_Operator r; Role_Privileges := Role_Privileges r |}.

Definition CreateRole (order : list (string * string)) (role : Role) : M unit :=
  do_! mret (Role_Validate wide order role) in
  with_lock fault (STM fault (create_key (RoleKey st (Role_Name role)) (Marshal role) (NewError ROLE_EXIST None))).

Definition QueryRole (role_name : string) : M Role :=
  match RoleMap_lookup role_name with
  | Some value => mret (Ret value)
  | None =>
    do! bs <- Get fault (RoleKey st role_name) in
    mret (let! r := decode_object (NewError ROLE_NOT_EXIST None) (verr PARAM_ERROR "get role:%s, err:%s") bs in
          Ret (name_role role_name r))
  end.

Definition DeleteRole (roleName : string) : M unit :=
  do! role <- QueryRole roleName in
  with_lock fault (STM fault (del_key (RoleKey st (Role_Name role)))).

(** The loop over [role.Privileges]. *)
Definition change_step (operator : string) (p : gmap string string) (e : string * string) : gmap string string :=
  let p := if operator =?s Grant then <[e.1 := e.2]> p else p in
  if operator =?s Revoke then delete e.1 p else p.

(** [order]: the entries of [role.Privileges] in the order of the iteration. *)
Definition ChangeRolePrivilege (order : list (string * string)) (role : Role) : M Role :=
  do_! mret (Role_Validate wide order role) in
  do! bs <- Get fault (RoleKey st (Role_Name role)) in
  do! old_role <- mret (decode_object (NewError ROLE_NOT_EXIST None) (verr PARAM_ERROR "get role privilege:%s err:%s") bs) in
  with_lock fault (
    let new_role := {| Role_Name := Role_Name old_role; Role_Operator := Role_Operator old_role;
                       Role_Privileges := fold_left (change_step (Role_Operator role)) order (Role_Privileges old_role) |} in
    do_! drop_error (STM fault (put_key (RoleKey st (Role_Name old_role)) (Marshal new_role))) in
    mret (Ret new_role)).

(** [*user.RoleName], a role that may be missing *)
Definition deref {A} (o : option A) : go A := match o with Some a => Ret a | None => Panic NilDeref end.

(** The role of a user; an error of [QueryRole] is reported as a [PARAM_ERROR]. *)
Definition role_of (user : User) : M Role :=
  do! role_name <- mret (deref (RoleName user)) in
  fun w => match QueryRole role_name w with
           | (w', Fail e) => (w', Fail (verr PARAM_ERROR "get user:%s role:%s, err:%s"))
           | x => x
           end.

Definition no_role : Role := {| Role_Name := ""; Role_Operator := ""; Role_Privileges := ∅ |}.

Definition query_user (user_name : string) (check_role with_password : bool) : M UserRole :=
  do! bs <- Get fault (UserKey st user_name) in
  do! user <- mret (decode_object (NewError USER_NOT_EXIST None) (verr PARAM_ERROR "get user:%s, err:%s") bs) in
  do! role <- (if check_role then role_of user else mret (Ret no_role)) in
  mret (Ret {| UserRole_Name := User_Name user; UserRole_Password := if with_password then Password user else None;
               UserRole_Role := role |}).

Definition QueryUserWithPassword (user_name : string) (check_role : bool) : M UserRole := query_user user_name check_role true.

(** ** user_service.go *)

Definition QueryUser (userName : string) (checkRole : bool) : M UserRole := query_user userName checkRole false.

Definition CreateUser (user : User) (check_root : bool) : M unit :=
  do_! mret (User_Validate wide user check_root) in
  do_! match RoleName user with
       | Some role => do_! QueryRole role in mret (Ret tt)
       | None => mret (Fail (verr PARAM_ERROR "role name is empty"))
       end in
  do_! mret (guard_err (match Password user with None => true | Some _ => false end) (verr PARAM_ERROR "password is empty")) in
  with_lock fault (STM fault (create_key (UserKey st (User_Name user)) (Marshal user) (NewError USER_EXIST None))).

Definition DeleteUser (userName : string) : M unit :=
  if EqualFold userName RootName then mret (Fail (verr PARAM_ERROR "can't delete root user"))
  else
    do! user <- QueryUser userName false in
    with_lock fault (STM fault (del_key (UserKey st (UserRole_Name user)))).

Definition same_password (a b : option string) : bool :=
  match a, b with Some x, Some y => x =?s y | _, _ => false end.
Definition is_nil {A} (o : option A) : bool := match o with None => true | Some _ => false end.

(** The checks of [UpdateUser] that need no further call. *)
Definition check_password (user old_user : User) (auth_user : string) : go unit :=
  if (auth_user =?s RootName) && negb (User_Name user =?s RootName) then
    check! guard_err (is_nil (Password user)) (verr PARAM_ERROR "empty password") in
    guard_err (same_password (Password user) (Password old_user)) (verr PARAM_ERROR "password is same with old password")
  else
    check! guard_err (is_nil (Password user) || is_nil (OldPassword user)) (verr PARAM_ERROR "empty password or old password") in
    check! guard_err (same_password (Password user) (Password old_user)) (verr PARAM_ERROR "password is same with old password") in
    guard_err (negb (is_nil (Password old_user)) && negb (same_password (OldPassword user) (Password old_user)))
      (verr PARAM_ERROR "old password is invalid").

(** The user to store: the part that is not updated comes from [old_user]. *)
Definition merge_user (user old_user : User) : User :=
  match RoleName user with
  | Some r => {| User_Name := User_Name user; OldPassword := OldPassword user; RoleName := Some r;
                 Password := match Password old_user with Some p => Some p | None => Password user end |}
  | None => {| User_Name := User_Name user; Password := Password user; OldPassword := OldPassword user;
               RoleName := match RoleName old_user with Some r => Some r | None => RoleName user end |}
  end.

Definition UpdateUser (user : User) (auth_user : string) : M unit :=
  do! bs <- Get fault (UserKey st (User_Name user)) in
  do! old_user <- mret (decode_object (NewError USER_NOT_EXIST None) (verr PARAM_ERROR "updata user:%s err:%s") bs) in
  do_! match RoleName user with
       | Some role =>
         do_! mret (guard_err (negb (is_nil (Password user)) || negb (is_nil (OldPassword user)))
                      (verr PARAM_ERROR "don't update role or password at same time")) in
         do_! QueryRole role in mret (Ret tt)
       | None => mret (check_password user old_user auth_user)
       end in
  with_lock fault (drop_error (STM fault (put_key (UserKey st (User_Name user)) (Marshal (merge_user user old_user))))).

(** ** client/master.go *)

Definition master_QueryUser (username : string) : M User := fun w =>
  match Get fault (UserKey st username) w with
  | (w', Ret (Some v)) => match Unmarshal v with Some u => (w', Ret u) | None => (w', Fail (OtherErr "json")) end
  | (w', Ret None) => (w', Fail (NewError USER_NOT_EXIST None))
  | (w', Fail e) => (w', Fail (NewError USER_NOT_EXIST (Some e)))
  | (w', Panic p) => (w', Panic p)
  end.

Definition QueryUserByPassword (username password : string) : M User :=
  do! user <- master_QueryUser username in
  mret (if match Password user with Some p => negb (p =?s password) | None => false end
        then Fail (NewError AUTHENTICATION_FAILED None) else Ret user).
End Services.

(** ** Objects of one kind *)

Section Kind.
Context (cluster_id : string) {A : Type} `{HA : !Codec A} (kind : string -> object).
Context (Hkind : forall name, object_ok (kind name)) `{Hinj : !Inj eq eq kind}.
Notation st := (SetPrefixAndSequence cluster_id initial_prefixes).

(** The keys of the kind hold the objects of [objs]; the rest of the store is
    that of [t0]. *)
Definition keeps (t0 : gmap string string) (objs : gmap string A) (t : gmap string string) : Prop :=
  (forall name, t !! key_of st (kind name) = Marshal <$> objs !! name) /\
  (forall o, object_ok o -> (forall name, o <> kind name) -> t !! key_of st o = t0 !! key_of st o).

Lemma keeps_put t0 objs t name a :
  keeps t0 objs t -> keeps t0 (<[name := a]> objs) (<[key_of st (kind name) := Marshal a]> t).
Proof.
  intros [Hk He]. split.
  - intros name'. rewrite at_insert by done. case_decide as E; [apply Hinj in E as ->; by rewrite lookup_insert_eq|].
    rewrite lookup_insert_ne by congruence. apply Hk.
  - intros o Ho Hne. rewrite at_insert by done. rewrite decide_False by (intros E; by apply (Hne name)). by apply He.
Qed.

Lemma keeps_del t0 objs t name : keeps t0 objs t -> keeps t0 (delete name objs) (delete (key_of st (kind name)) t).
Proof.
  intros [Hk He]. split.
  - intros name'. rewrite at_delete by done. case_decide as E; [apply Hinj in E as ->; by rewrite lookup_delete_eq|].
    rewrite lookup_delete_ne by congruence. apply Hk.
  - intros o Ho Hne. rewrite at_delete by done. rewrite decide_False by (intros E; by apply (Hne name)). by apply He.
Qed.

Lemma keeps_get t0 objs t name : keeps t0 objs t -> t !! key_of st (kind name) = Marshal <$> objs !! name.
Proof. intros [Hk _]. apply Hk. Qed.

Lemma keeps_absent t0 objs t name :
  keeps t0 objs t -> (stm_get t (key_of st (kind name)) =?s "") = bool_decide (objs !! name = None).
Proof.
  intros Hk. unfold stm_get. rewrite (keeps_get _ _ _ name Hk). destruct (objs !! name) as [a|]; cbn [fmap option_fmap option_map default from_option id].
  - rewrite bool_decide_false by done. apply string_eqb_neq, Marshal_nonempty.
  - by rewrite bool_decide_true.
Qed.

Context (fault : nat -> option (error * bool)) (t0 : gmap string string) (objs : gmap string A).

(** Creating, replacing and removing an object under a lock. *)
Lemma create_locked name a e :
  triple (keeps t0 objs) (with_lock fault (STM fault (create_key (key_of st (kind name)) (Marshal a) e)))
    (fun r t => match r with
       | Ret _ => objs !! name = None /\ keeps t0 (<[name := a]> objs) t
       | Fail _ => keeps t0 objs t \/ objs !! name = None /\ keeps t0 (<[name := a]> objs) t
       | Panic _ => False end).
Proof.
  apply triple_with_lock; [|by left]. apply triple_STM; unfold create_key.
  - intros t Ht. rewrite (keeps_absent _ _ _ _ Ht). case_bool_decide; cbn [negb]; [|by left]. split; [done|]. by apply keeps_put.
  - intros t e' Ht. split; [by left|]. intros t' []. rewrite (keeps_absent _ _ _ _ Ht). case_bool_decide; cbn [negb]; [|done].
    intros [= <-]. right. split; [done|]. by apply keeps_put.
Qed.

Lemma del_locked name :
  triple (keeps t0 objs) (with_lock fault (STM fault (del_key (key_of st (kind name)))))
    (fun r t => match r with
       | Ret _ => keeps t0 (delete name objs) t
       | Fail _ => keeps t0 objs t \/ keeps t0 (delete name objs) t
       | Panic _ => False end).
Proof.
  apply triple_with_lock; [|by left]. apply triple_STM; unfold del_key.
  - intros t Ht. by apply keeps_del.
  - intros t e Ht. split; [by left|]. intros t' a [= <- <-]. right. by apply keeps_del.
Qed.

(** A replacement whose error is dropped: it reports success either way. *)
Lemma put_dropped name a :
  triple (keeps t0 objs) (drop_error (STM fault (put_key (key_of st (kind name)) (Marshal a))))
    (fun r t => r = Ret tt /\ (keeps t0 objs t \/ keeps t0 (<[name := a]> objs) t)).
Proof.
  intros w Hw. unfold drop_error.
  assert (triple (keeps t0 objs) (STM fault (put_key (key_of st (kind name)) (Marshal a)))
    (fun r t => (forall p, r <> Panic p) /\ (keeps t0 objs t \/ keeps t0 (<[name := a]> objs) t))) as H.
  { apply triple_STM; unfold put_key.
    - intros t Ht. split; [done|]. right. by apply keeps_put.
    - intros t e Ht. split; [split; [done|by left]|]. intros t' b [= <- <-]. split; [done|]. right. by apply keeps_put. }
  specialize (H w Hw). destruct (STM _ _ w) as [w' [x|e|p]]; cbn [fst snd] in *; [naive_solver..|]. by destruct (proj1 H p).
Qed.

Lemma put_dropped_no_fault name a w :
  (forall k, fault k = None) -> keeps t0 objs (kv w) ->
  keeps t0 (<[name := a]> objs) (kv (drop_error (STM fault (put_key (key_of st (kind name)) (Marshal a))) w).1).
Proof. intros Hf Hw. unfold drop_error, STM, call, put_key. rewrite Hf. by apply keeps_put. Qed.

(** Reading the object of a name: [Get] followed by a decoding of what it found. *)
Lemma get_then {B} name (k : option string -> M B) Q :
  triple (keeps t0 objs) (k (Marshal <$> objs !! name)) Q -> (forall e t, keeps t0 objs t -> Q (Fail e) t) ->
  triple (keeps t0 objs) (mbind_M (Get fault (key_of st (kind name))) k) Q.
Proof.
  intros Hk Hfail. apply (triple_bind _ _ _ (fun r t => keeps t0 objs t /\ (r = Ret (Marshal <$> objs !! name) \/ exists e, r = Fail e))).
  - apply triple_read; [|by eauto]. intros t Ht. split; [done|]. left. by rewrite (keeps_get _ _ _ _ Ht).
  - intros bs. apply (triple_pure (keeps t0 objs)). intros [[= ->]|[? [=]]]. exact Hk.
  - intros e t [Ht _]. by apply Hfail.
  - intros p t [_ [?|[? ?]]]; discriminate.
Qed.

Lemma decode_found name missing malformed :
  (forall a, objs !! name = Some a -> Encodable a) ->
  decode_object missing malformed (Marshal <$> objs !! name) = match objs !! name with Some a => Ret a | None => Fail missing end.
Proof.
  intros Henc. destruct (objs !! name) as [a|]; [|done]. cbn [decode_object fmap option_fmap option_map].
  by rewrite Unmarshal_Marshal by by apply Henc.
Qed.
End Kind.

#[export] Instance OAlias_inj : Inj eq eq OAlias. Proof. by intros ?? [=]. Qed.
#[export] Instance ORole_inj : Inj eq eq ORole. Proof. by intros ?? [=]. Qed.
#[export] Instance OUser_inj : Inj eq eq OUser. Proof. by intros ?? [=]. Qed.

(** ** Aliases *)

Section Aliases.
Context (wide : Z -> bool) (cluster_id : string) (fault : nat -> option (error * bool)) `{HAlias : !Codec Alias}.
Context (t0 : gmap string string) (aliases : gmap string Alias).
Notation st := (SetPrefixAndSequence cluster_id initial_prefixes).
Notation keeps := (keeps cluster_id OAlias t0).

Lemma Alias_Validate_no_panic a p : Alias_Validate wide a <> Panic p.
Proof.
  unfold Alias_Validate. destruct (runes (Alias_Name a)) as [|r0 rs]; [done|]. destruct (IsNumber wide r0); [done|].
  destruct (r0 =? 95); [done|]. rewrite check_runes_spec. by destruct (existsb _ _).
Qed.

Lemma CreateAlias_spec alias :
  triple (keeps aliases) (CreateAlias wide fault st alias) (fun r t => let name := Alias_Name alias in
    match r with
    | Ret _ => is_ret (Alias_Validate wide alias) = true /\ aliases !! name = None /\ keeps (<[name := alias]> aliases) t
    | Fail _ => keeps aliases t \/ aliases !! name = None /\ keeps (<[name := alias]> aliases) t
    | Panic _ => False
    end).
Proof.
  unfold CreateAlias. destruct (Alias_Validate wide alias) as [[]|e|p] eqn:E; [| |by apply Alias_Validate_no_panic in E].
  - rewrite mbind_ret. eapply triple_conseq; [apply (create_locked cluster_id OAlias); try done; apply _|done|].
    intros [?|?|?] t; naive_solver.
  - rewrite mbind_fail. apply triple_ret. by left.
Qed.

Definition aliases_ok : Prop := forall name a, aliases !! name = Some a -> Alias_Name a = name /\ name <> ""%string /\ Encodable a.

Lemma DeleteAlias_spec name : aliases_ok ->
  triple (keeps aliases) (DeleteAlias fault st name) (fun r t =>
    match r with
    | Ret _ => is_Some (aliases !! name) /\ keeps (delete name aliases) t
    | Fail _ => keeps aliases t \/ is_Some (aliases !! name) /\ keeps (delete name aliases) t
    | Panic _ => False
    end).
Proof.
  intros Hok. unfold DeleteAlias, QueryAlias.
  apply (triple_bind _ _ _ (fun r t => keeps aliases t /\ match r with Ret a => is_Some (aliases !! name) /\ Alias_Name a = name | Fail _ => True | Panic _ => False end)).
  - apply (get_then cluster_id OAlias); [|done]. rewrite decode_found by (intros a Ha; by apply Hok in Ha as (_ & _ & ?)). apply triple_ret. intros t Ht.
    destruct (aliases !! name) as [a|] eqn:Ha; [|done]. destruct (Hok _ _ Ha) as (Hn & Hne & _). cbn. split_and!; [done|by eexists|].
    rewrite Hn. by rewrite (proj2 (string_eqb_neq _ _) Hne).
  - intros a. apply (triple_pure (keeps aliases)). intros [Hs Hn]. rewrite Hn.
    eapply triple_conseq; [apply (del_locked cluster_id OAlias); try done; apply _|done|]. intros [?|?|?] t; naive_solver.
  - intros e t [Ht _]. by left.
  - by intros p t [_ []].
Qed.

Lemma UpdateAlias_spec alias :
  triple (keeps aliases) (UpdateAlias fault st alias) (fun r t => let name := Alias_Name alias in
    match r with
    | Ret _ => is_Some (aliases !! name) /\ (keeps aliases t \/ keeps (<[name := alias]> aliases) t)
    | Fail _ => keeps aliases t
    | Panic _ => False
    end).
Proof.
  unfold UpdateAlias. apply (get_then cluster_id OAlias); [|done].
  destruct (aliases !! Alias_Name alias) as [a|] eqn:Ha; cbn [fmap option_fmap option_map]; [|by apply triple_ret].
  apply triple_with_lock; [|done].
  eapply triple_conseq; [apply (put_dropped cluster_id OAlias); try done; apply _|done|]. intros r t [-> Ht]. by split.
Qed.
End Aliases.

(** Creating and deleting an alias refine insertion into and removal from the map
    of aliases: success means the name was free (was there) and the map has
    changed accordingly, failure that it has not or, the answer being lost, that
    it has in full.  An update only replaces an alias that exists - but it
    reports success whether or not the replacement was stored. *)
Theorem alias_operations_refine (wide : Z -> bool) (cluster_id : string) (fault : nat -> option (error * bool)) (HAlias : Codec Alias)
    (t0 : gmap string string) (aliases : gmap string Alias) (alias : Alias) (name : string) :
  aliases_ok aliases ->
  let st := SetPrefixAndSequence cluster_id initial_prefixes in
  let keeps := keeps cluster_id OAlias t0 in
  let new := <[Alias_Name alias := alias]> aliases in
  triple (keeps aliases) (CreateAlias wide fault st alias) (fun r t => match r with
    | Ret _ => is_ret (Alias_Validate wide alias) = true /\ aliases !! Alias_Name alias = None /\ keeps new t
    | Fail _ => keeps aliases t \/ aliases !! Alias_Name alias = None /\ keeps new t
    | Panic _ => False end) /\
  triple (keeps aliases) (DeleteAlias fault st name) (fun r t => match r with
    | Ret _ => is_Some (aliases !! name) /\ keeps (delete name aliases) t
    | Fail _ => keeps aliases t \/ is_Some (aliases !! name) /\ keeps (delete name aliases) t
    | Panic _ => False end) /\
  triple (keeps aliases) (UpdateAlias fault st alias) (fun r t => match r with
    | Ret _ => is_Some (aliases !! Alias_Name alias) /\ (keeps aliases t \/ keeps new t)
    | Fail _ => keeps aliases t
    | Panic _ => False end).
Proof. intros Hok. split_and!; [apply CreateAlias_spec|by apply DeleteAlias_spec|apply UpdateAlias_spec]. Qed.

#[export] Instance Alias_eq_dec : EqDecision Alias.
Proof. solve_decision. Defined.
#[export] Instance Alias_countable : Countable Alias.
Proof.
  refine (inj_countable' (fun a => (Alias_Name a, Alias_DbName a, Alias_SpaceName a))
            (fun x => {| Alias_Name := x.1.1; Alias_DbName := x.1.2; Alias_SpaceName := x.2 |}) _). by intros [].
Defined.

Definition demo_alias (space : string) : Alias := {| Alias_Name := "al"; Alias_DbName := "ts_db"; Alias_SpaceName := space |}.
Definition demo_alias_world : world :=
  {| kv := {[ key_of (SetPrefixAndSequence "c1" initial_prefixes) (OAlias "al") := Marshal (Codec := countable_codec) (demo_alias "s1") ]};
     calls := 0 |}.

Lemma demo_alias_keeps :
  keeps (HA := countable_codec) "c1" OAlias ∅ {[ "al"%string := demo_alias "s1" ]} (kv demo_alias_world).
Proof.
  cbn [kv demo_alias_world]. split.
  - intros name. destruct (decide (name = "al"%string)) as [->|Hne]; [by rewrite !lookup_singleton_eq|].
    rewrite !lookup_singleton_ne; [done|congruence|]. intros E%key_inj; [congruence|done..].
  - intros o Ho Hne. rewrite lookup_empty. apply lookup_singleton_ne. intros E%key_inj; [|done..]. by apply (Hne "al"%string).
Qed.

Lemma alias_operations_refine_witness :
  exists w', DeleteAlias (HAlias := countable_codec) no_fault (SetPrefixAndSequence "c1" initial_prefixes) "al" demo_alias_world = (w', Ret tt) /\
    keeps (HA := countable_codec) "c1" OAlias ∅ (delete "al"%string {[ "al"%string := demo_alias "s1" ]}) (kv w').
Proof.
  assert (aliases_ok (HAlias := countable_codec) {[ "al"%string := demo_alias "s1" ]}) as Hok.
  { intros name a [<- <-]%lookup_singleton_Some. split_and!; [reflexivity|discriminate|exact I]. }
  destruct (alias_operations_refine (fun _ => false) "c1" no_fault countable_codec ∅ _ (demo_alias "s2") "al" Hok) as (_ & Hd & _).
  specialize (Hd demo_alias_world demo_alias_keeps). eexists. split; [vm_compute; reflexivity|]. exact (proj2 Hd).
Defined.

(** The transaction of an update fails without effect, and the caller is told
    that the update succeeded: the alias still points where it did. *)
Theorem UpdateAlias_reports_lost_update :
  let st := SetPrefixAndSequence "c1" initial_prefixes in
  let failing k := if (k =? 2)%nat then Some (OtherErr "etcd stm failed", false) else None in
  let '(w', r) := UpdateAlias (HAlias := countable_codec) failing st (demo_alias "s2") demo_alias_world in
  r = Ret tt /\ (QueryAlias (HAlias := countable_codec) no_fault st "al" w').2 = Ret (demo_alias "s1").
Proof. vm_compute. done. Qed.

(** ** Roles *)

Section Roles.
Context (wide : Z -> bool) (cluster_id : string) (fault : nat -> option (error * bool)) `{HRole : !Codec Role}.
Notation st := (SetPrefixAndSequence cluster_id initial_prefixes).

(** What a change of privileges amounts to: granted privileges are added or
    replaced, revoked resources removed. *)
Definition changed_privileges (role : Role) (old : gmap string string) : gmap string string :=
  if Role_Operator role =?s Grant then Role_Privileges role ∪ old
  else if Role_Operator role =?s Revoke then old ∖ Role_Privileges role
  else old.

Lemma fold_grant order (p : gmap string string) k :
  NoDup order.*1 ->
  fold_left (change_step Grant) order p !! k = match (list_to_map order : gmap string string) !! k with Some v => Some v | None => p !! k end.
Proof.
  revert p. induction order as [|[r v] order IH]; intros p; [done|]. cbn [fmap list_fmap fst]. intros [Hn Hnd]%NoDup_cons.
  cbn [fold_left]. rewrite IH by done. change (change_step Grant p (r, v)) with (<[r := v]> p). cbn [list_to_map foldr uncurry fst snd].
  destruct (decide (r = k)) as [<-|Hne]; [|by rewrite !lookup_insert_ne].
  by rewrite !lookup_insert_eq, not_elem_of_list_to_map_1.
Qed.

Lemma fold_revoke order (p : gmap string string) k :
  fold_left (change_step Revoke) order p !! k = if bool_decide (k ∈ order.*1) then None else p !! k.
Proof.
  revert p. induction order as [|[r v] order IH]; intros p; [done|]. cbn [fold_left]. rewrite IH.
  change (change_step Revoke p (r, v)) with (delete r p). cbn [fmap list_fmap fst].
  rewrite (bool_decide_ext (k ∈ r :: order.*1) (k = r \/ k ∈ order.*1)) by apply elem_of_cons.
  destruct (decide (r = k)) as [<-|Hne].
  - rewrite lookup_delete_eq, (bool_decide_true (r = r \/ _)) by auto. by case_bool_decide.
  - rewrite lookup_delete_ne by done. repeat case_bool_decide; naive_solver.
Qed.

Lemma fold_other op order (p : gmap string string) : op <> Grant -> op <> Revoke -> fold_left (change_step op) order p = p.
Proof.
  intros Hg Hr. revert p. induction order as [|e order IH]; intros p; [done|]. cbn [fold_left]. rewrite IH. unfold change_step.
  by rewrite (proj2 (string_eqb_neq _ _) Hg), (proj2 (string_eqb_neq _ _) Hr).
Qed.

Lemma changed_privileges_fold role order old :
  order ≡ₚ map_to_list (Role_Privileges role) ->
  fold_left (change_step (Role_Operator role)) order old = changed_privileges role old.
Proof.
  intros Hp. assert (NoDup order.*1) as Hnd by (rewrite Hp; apply NoDup_fst_map_to_list).
  assert (list_to_map order = Role_Privileges role) as Hm.
  { rewrite (list_to_map_proper order _ Hnd Hp). apply list_to_map_to_list. }
  unfold changed_privileges. destruct (Role_Operator role =?s Grant) eqn:Eg.
  { apply string_eqb_eq in Eg as ->. apply map_eq. intros k. rewrite fold_grant, Hm by done.
    destruct (Role_Privileges role !! k) eqn:E; symmetry; [by apply lookup_union_Some_l|by rewrite lookup_union_r]. }
  destruct (Role_Operator role =?s Revoke) eqn:Er.
  2:{ apply fold_other; by apply string_eqb_neq. }
  apply string_eqb_eq in Er as ->. apply map_eq. intros k. rewrite fold_revoke.
  assert (k ∈ order.*1 <-> is_Some (Role_Privileges role !! k)) as Hk.
  { rewrite Hp, list_elem_of_fmap. split.
    - intros ([r v] & -> & ?%elem_of_map_to_list). by eexists.
    - intros [v Hv]. exists (k, v). split; [done|]. by apply elem_of_map_to_list. }
  rewrite (bool_decide_ext _ _ Hk). destruct (Role_Privileges role !! k) as [v|] eqn:E.
  - rewrite bool_decide_true by by eexists. symmetry. apply lookup_difference_None. right. by eexists.
  - rewrite bool_decide_false by (by intros [? ?]). symmetry. destruct (old !! k) eqn:Eo.
    + by apply lookup_difference_Some.
    + apply lookup_difference_None. by left.
Qed.

Definition roles_ok (roles : gmap string Role) : Prop := forall name r, roles !! name = Some r -> Role_Name r = name /\ Encodable r.

Definition updated_role (role old : Role) : Role :=
  {| Role_Name := Role_Name old; Role_Operator := Role_Operator old;
     Role_Privileges := changed_privileges role (Role_Privileges old) |}.

Lemma Role_Validate_no_panic order role p : Role_Validate wide order role <> Panic p.
Proof.
  unfold Role_Validate, ValidateName. destruct (runes (Role_Name role)) as [|r0 rs]; [done|].
  destruct (IsNumber wide r0); [done|]. destruct (r0 =? 95); [done|]. rewrite check_runes_spec.
  destruct (existsb _ _); [done|]. cbn [obind]. destruct (EqualFold _ _); [done|]. cbn [obind].
  destruct (_ && _); [done|]. clear. induction order as [|[x y] order IH]; [done|]. cbn [ofold check_privilege].
  destruct (contains ResourceMap x); [|done]. destruct (contains PriviMap y); [|done]. exact IH.
Qed.

Lemma ChangeRolePrivilege_spec t0 roles role order :
  roles_ok roles -> order ≡ₚ map_to_list (Role_Privileges role) ->
  triple (keeps cluster_id ORole t0 roles) (ChangeRolePrivilege wide fault st order role) (fun r t => match r with
    | Ret new => exists old, roles !! Role_Name role = Some old /\ new = updated_role role old /\
        is_ret (Role_Validate wide order role) = true /\
        (keeps cluster_id ORole t0 roles t \/ keeps cluster_id ORole t0 (<[Role_Name role := new]> roles) t)
    | Fail _ => keeps cluster_id ORole t0 roles t
    | Panic _ => False
    end).
Proof.
  intros Hok Hp. unfold ChangeRolePrivilege.
  destruct (Role_Validate wide order role) as [[]|e|p] eqn:Hv; [rewrite mbind_ret|rewrite mbind_fail; by apply triple_ret|by apply Role_Validate_no_panic in Hv].
  apply (get_then cluster_id ORole); [|done]. rewrite decode_found by (intros a Ha; by apply Hok in Ha as [_ ?]).
  destruct (roles !! Role_Name role) as [old|] eqn:Hold; [rewrite mbind_ret|rewrite mbind_fail; by apply triple_ret].
  destruct (Hok _ _ Hold) as [Hn _]. apply triple_with_lock; [|done]. rewrite changed_privileges_fold by done.
  change {| Role_Name := _; Role_Operator := _; Role_Privileges := _ |} with (updated_role role old). rewrite Hn.
  eapply triple_bind; [apply (put_dropped cluster_id ORole); try done; apply _|..]; cbn beta.
  - intros []. apply triple_ret. intros t [_ Ht]. exists old. by split_and!.
  - by intros e t [? _].
  - by intros p t [? _].
Qed.
End Roles.

(** [ChangeRolePrivilege] answers with the stored role in which the privileges
    asked for have been granted (added or replaced) or revoked, in whichever
    order the map is ranged over; the store then holds that role or, when the
    transaction failed, still the old one - the answer is the same. *)
Theorem ChangeRolePrivilege_effect (wide : Z -> bool) (cluster_id : string) (fault : nat -> option (error * bool)) (HRole : Codec Role)
    (t0 : gmap string string) (roles : gmap string Role) (role : Role) (order : list (string * string)) :
  roles_ok roles -> order ≡ₚ map_to_list (Role_Privileges role) ->
  let keeps := keeps cluster_id ORole t0 in
  triple (keeps roles) (ChangeRolePrivilege wide fault (SetPrefixAndSequence cluster_id initial_prefixes) order role) (fun r t => match r with
    | Ret new => exists old, roles !! Role_Name role = Some old /\ new = updated_role role old /\
        is_ret (Role_Validate wide order role) = true /\ (keeps roles t \/ keeps (<[Role_Name role := new]> roles) t)
    | Fail _ => keeps roles t
    | Panic _ => False
    end).
Proof. apply ChangeRolePrivilege_spec. Qed.

(** A built-in role cannot be deleted or replaced - nor is the caller told so:
    [DeleteRole] on its name reports success (if nothing else fails) and
    [QueryRole] answers with the built-in role whatever is stored. *)
Theorem builtin_role_survives (cluster_id : string) (fault : nat -> option (error * bool)) (HRole : Codec Role) (n : string) (role : Role) (w : world) :
  RoleMap_lookup n = Some role ->
  let st := SetPrefixAndSequence cluster_id initial_prefixes in
  QueryRole fault st n w = (w, Ret role) /\
  let '(w', r) := DeleteRole fault st n w in
  QueryRole fault st n w' = (w', Ret role) /\ ((forall k, fault k = None) -> r = Ret tt).
Proof.
  intros Hn st. unfold QueryRole. rewrite Hn. split; [done|].
  destruct (DeleteRole fault st n w) as [w' r] eqn:E. split; [done|]. intros Hf. revert E.
  unfold DeleteRole, QueryRole, with_lock, Lock, Unlock, STM, call, mbind_M, mret, del_key. rewrite Hn. cbn. rewrite !Hf. cbn. by intros [= _ <-].
Qed.

#[export] Instance Role_eq_dec : EqDecision Role.
Proof. solve_decision. Defined.
#[export] Instance Role_countable : Countable Role.
Proof.
  refine (inj_countable' (fun a => (Role_Name a, Role_Operator a, Role_Privileges a))
            (fun x => {| Role_Name := x.1.1; Role_Operator := x.1.2; Role_Privileges := x.2 |}) _). by intros [].
Defined.

Definition demo_role (p : gmap string string) : Role := {| Role_Name := "team"; Role_Operator := ""; Role_Privileges := p |}.
Definition demo_change : Role := {| Role_Name := "team"; Role_Operator := Revoke; Role_Privileges := {[ ResourceSpace := WriteRead ]} |}.
Definition demo_role_world : world :=
  {| kv := {[ key_of (SetPrefixAndSequence "c1" initial_prefixes) (ORole "team") :=
                Marshal (Codec := countable_codec) (demo_role SpaceAdminPrivilege) ]}; calls := 0 |}.

Lemma demo_role_keeps :
  keeps (HA := countable_codec) "c1" ORole ∅ {[ "team"%string := demo_role SpaceAdminPrivilege ]} (kv demo_role_world).
Proof.
  cbn [kv demo_role_world]. split.
  - intros name. destruct (decide (name = "team"%string)) as [->|Hne]; [by rewrite !lookup_singleton_eq|].
    rewrite !lookup_singleton_ne; [done|congruence|]. intros E%key_inj; [congruence|done..].
  - intros o Ho Hne. rewrite lookup_empty. apply lookup_singleton_ne. intros E%key_inj; [|done..]. by apply (Hne "team"%string).
Qed.

Lemma ChangeRolePrivilege_effect_witness :
  exists w', ChangeRolePrivilege (HRole := countable_codec) (fun _ => false) no_fault (SetPrefixAndSequence "c1" initial_prefixes)
               [(ResourceSpace, WriteRead)] demo_change demo_role_world = (w', Ret (updated_role demo_change (demo_role SpaceAdminPrivilege))).
Proof.
  assert (roles_ok (HRole := countable_codec) {[ "team"%string := demo_role SpaceAdminPrivilege ]}) as Hok.
  { intros name a [<- <-]%lookup_singleton_Some. split; [reflexivity|exact I]. }
  assert ([(ResourceSpace, WriteRead)] ≡ₚ map_to_list (Role_Privileges demo_change)) as Hp by (vm_compute; reflexivity).
  pose proof (ChangeRolePrivilege_effect (fun _ => false) "c1" no_fault countable_codec ∅ _ demo_change _ Hok Hp
                demo_role_world demo_role_keeps) as H.
  destruct (ChangeRolePrivilege _ _ _ _ _ demo_role_world) as [w' r] eqn:E. cbn [fst snd] in H.
  assert (is_ret r = true) as Hr by (vm_compute in E; injection E as _ <-; reflexivity).
  destruct r as [new|e|p]; [|discriminate..]. destruct H as (old & Hold & Hnew & _). exists w'. f_equal. f_equal.
  rewrite Hnew. f_equal. cbn [Role_Name demo_change] in Hold. rewrite lookup_singleton_eq in Hold. congruence.
Defined.

Lemma builtin_role_survives_witness :
  RoleMap_lookup "defaultSpaceAdmin" = Some SpaceAdminRole /\
  (DeleteRole (HRole := countable_codec) no_fault (SetPrefixAndSequence "c1" initial_prefixes) "defaultSpaceAdmin" empty_world).2 = Ret tt.
Proof.
  split; [reflexivity|].
  pose proof (builtin_role_survives "c1" no_fault countable_codec "defaultSpaceAdmin" SpaceAdminRole empty_world eq_refl) as [_ H].
  destruct (DeleteRole _ _ _ empty_world) as [w' r]. exact (proj2 H (fun _ => eq_refl)).
Defined.

(** ** Users *)

Section Users.
Context (cluster_id : string) (fault : nat -> option (error * bool)) `{HRole : !Codec Role, HUser : !Codec User}.
Notation st := (SetPrefixAndSequence cluster_id initial_prefixes).

(** A change of role: no password in the request, and the role exists.  A change
    of password: a new one that differs from the stored one, and the stored one
    as the old password unless root makes the change for somebody else. *)
Definition update_allowed (t : gmap string string) (user old : User) (auth_user : string) : Prop :=
  match RoleName user with
  | Some r => Password user = None /\ OldPassword user = None /\
              (is_Some (RoleMap_lookup r) \/ is_Some (t !! key_of st (ORole r)))
  | None => is_Some (Password user) /\ (Password old = None \/ Password user <> Password old) /\
            (auth_user = RootName /\ User_Name user <> RootName \/
             is_Some (OldPassword user) /\ (Password old = None \/ OldPassword user = Password old))
  end.

(** What is stored: the role changes and the password stays, or the reverse. *)
Definition update_result (user old new : User) : Prop :=
  User_Name new = User_Name user /\
  match RoleName user with
  | Some r => RoleName new = Some r /\ Password new = Password old
  | None => RoleName new = RoleName old /\ Password new = Password user
  end.

Lemma same_password_false a b : is_Some a -> same_password a b = false <-> (b = None \/ a <> b).
Proof.
  intros [x ->]. destruct b as [y|]; cbn; [|by split; [left|]]. rewrite string_eqb_neq. naive_solver.
Qed.

Lemma check_password_allowed t user old auth_user :
  RoleName user = None -> check_password user old auth_user = Ret tt -> update_allowed t user old auth_user.
Proof.
  intros Hr. unfold check_password, update_allowed. rewrite Hr.
  destruct (Password user) as [p|] eqn:Hp; cbn [is_nil orb guard_err obind].
  2:{ by destruct ((auth_user =?s RootName) && negb (User_Name user =?s RootName)). }
  assert (same_password (Some p) (Password old) = false -> Password old = None \/ Some p <> Password old) as Hs.
  { apply same_password_false. by eexists. }
  destruct ((auth_user =?s RootName) && negb (User_Name user =?s RootName)) eqn:Ea.
  - intros H%guard_err_ret. apply andb_true_iff in Ea as [Ea%string_eqb_eq En%negb_true_iff%string_eqb_neq].
    split_and!; [by eexists|by apply Hs|by left].
  - destruct (OldPassword user) as [q|] eqn:Hq; cbn [is_nil guard_err obind]; [|done].
    intros ([] & H1%guard_err_ret & H2%guard_err_ret)%obind_ret_inv. split_and!; [by eexists|by apply Hs|right].
    split; [by eexists|]. destruct (Password old) as [x|]; [right|by left]. cbn in H2. apply negb_false_iff, string_eqb_eq in H2. by subst.
Qed.

Lemma check_password_no_panic user old auth_user p : check_password user old auth_user <> Panic p.
Proof.
  unfold check_password, guard_err. by repeat (case_match; cbn [obind]).
Qed.

Lemma merge_user_result user old : is_Some (Password old) -> (RoleName user = None -> is_Some (RoleName old)) -> update_result user old (merge_user user old).
Proof.
  intros [p Hp] Hrole. unfold merge_user, update_result. destruct (RoleName user) as [r|]; cbn; [by rewrite Hp|].
  destruct (Hrole eq_refl) as [r ->]. done.
Qed.

Lemma QueryRole_found t0 r :
  triple (fun t => t = t0) (QueryRole fault st r) (fun x t => t = t0 /\ match x with
    | Ret _ => is_Some (RoleMap_lookup r) \/ is_Some (t0 !! key_of st (ORole r)) | Fail _ => True | Panic _ => False end).
Proof.
  unfold QueryRole. destruct (RoleMap_lookup r) as [b|]; [apply triple_ret; intros t ->; split; [done|by left]|].
  apply (triple_bind _ _ _ (fun x t => t = t0 /\ (x = Ret (t0 !! key_of st (ORole r)) \/ exists e, x = Fail e))).
  - apply triple_read; [intros t ->; by eauto|]. intros t e ->. eauto.
  - intros bs. apply (triple_pure (fun t => t = t0)). intros [[= ->]|[? [=]]]. apply triple_ret. intros t ->. split; [done|].
    change (RoleKey st r) with (key_of st (ORole r)). destruct (t0 !! key_of st (ORole r)) as [v|]; cbn; [|done].
    destruct (Unmarshal v); [|done]. right. by eexists.
  - by intros e t [-> _].
  - intros p t [_ [?|[? ?]]]; discriminate.
Qed.

(** Stored users have a password and a role, as [CreateUser] demands. *)
Definition users_ok (users : gmap string User) : Prop :=
  forall name u, users !! name = Some u -> User_Name u = name /\ is_Some (Password u) /\ is_Some (RoleName u) /\ Encodable u.

Context (t0 : gmap string string) (users : gmap string User).
Notation keeps := (keeps cluster_id OUser t0).

Lemma store_user name new :
  triple (fun t => t = t0) (with_lock fault (drop_error (STM fault (put_key (key_of st (OUser name)) (Marshal new)))))
    (fun r t => keeps users t0 -> match r with
       | Ret _ => keeps users t \/ keeps (<[name := new]> users) t | Fail _ => t = t0 | Panic _ => False end).
Proof.
  intros w Hw. unfold with_lock, Lock, mbind_M, call. destruct (fault (calls w)) as [[e []]|]; cbn [fst snd kv]; [by intros _..|]. intros Hk.
  assert (keeps users (kv {| kv := kv w; calls := S (calls w) |})) as Hk' by (cbn [kv]; by rewrite Hw).
  pose proof (put_dropped cluster_id OUser ltac:(done) fault t0 users name new _ Hk') as [Hr Ht].
  destruct (drop_error _ _) as [w' r]. cbn [fst snd] in *. subst r.
  unfold Unlock, call. by destruct (fault (calls w')) as [[? []]|].
Qed.

Lemma UpdateUser_spec user auth_user :
  keeps users t0 -> users_ok users ->
  triple (fun t => t = t0) (UpdateUser fault st user auth_user) (fun r t => match r with
    | Ret _ => exists old new, users !! User_Name user = Some old /\ update_allowed t0 user old auth_user /\
        update_result user old new /\ (keeps users t \/ keeps (<[User_Name user := new]> users) t)
    | Fail _ => t = t0
    | Panic _ => False
    end).
Proof.
  intros Hk Hok. unfold UpdateUser.
  apply (triple_bind _ _ _ (fun r t => t = t0 /\ (r = Ret (t0 !! key_of st (OUser (User_Name user))) \/ exists e, r = Fail e)));
    [|intros bs|by intros e t [-> _]|intros p t [_ [?|[? ?]]]; discriminate].
  { apply triple_read; [intros t ->; by eauto|]. intros t e ->. eauto. }
  apply (triple_pure (fun t => t = t0)). intros [[= ->]|[? [=]]]. change (UserKey st (User_Name user)) with (key_of st (OUser (User_Name user))).
  rewrite (keeps_get cluster_id OUser t0 users t0 _ Hk), decode_found by (intros a Ha; by apply Hok in Ha as (_ & _ & _ & ?)).
  destruct (users !! User_Name user) as [old|] eqn:Hold; [rewrite mbind_ret|rewrite mbind_fail; by apply triple_ret].
  destruct (Hok _ _ Hold) as (_ & Hpw & Hrn & _).
  apply (triple_bind _ _ _ (fun r t => t = t0 /\ match r with Ret _ => update_allowed t0 user old auth_user | Fail _ => True | Panic _ => False end));
    [|intros []|by intros e t [-> _]|by intros p t [_ []]].
  - destruct (RoleName user) as [r|] eqn:Hr.
    + destruct (Password user) eqn:Hp, (OldPassword user) eqn:Ho; cbn [is_nil negb orb guard_err]; rewrite ?mbind_fail;
        try by (apply triple_ret; intros t ->). rewrite mbind_ret.
      eapply triple_bind; [apply (QueryRole_found t0 r)|..]; cbn beta; [|by intros e t [-> _]|by intros p t [_ []]].
      intros b. apply triple_ret. intros t [-> Hb]. split; [done|]. unfold update_allowed. by rewrite Hr.
    + apply triple_ret. intros t ->. split; [done|].
      destruct (check_password user old auth_user) as [[]|e|p] eqn:Hc; [by apply check_password_allowed|done|by apply check_password_no_panic in Hc].
  - apply (triple_pure (fun t => t = t0)). intros Hall. eapply triple_conseq; [apply (store_user (User_Name user) (merge_user user old))|done|].
    intros r t Hs. specialize (Hs Hk). destruct r; [|done..]. exists old, (merge_user user old). split_and!; [done..| |done].
    by apply merge_user_result.
Qed.
End Users.

(** [UpdateUser] changes a user's role or password and nothing else, and only
    as its rules allow: a role that exists; a new password, with the stored
    one given as the old password unless root changes somebody else's.  (Whether
    the change was stored is not reported.) *)
Theorem UpdateUser_guarded (cluster_id : string) (fault : nat -> option (error * bool)) (HRole : Codec Role) (HUser : Codec User)
    (users : gmap string User) (user : User) (auth_user : string) (w : world) :
  keeps cluster_id OUser (kv w) users (kv w) -> users_ok users ->
  let '(w', r) := UpdateUser fault (SetPrefixAndSequence cluster_id initial_prefixes) user auth_user w in
  match r with
  | Ret _ => exists old new, users !! User_Name user = Some old /\ update_allowed cluster_id (kv w) user old auth_user /\
      update_result user old new /\
      (keeps cluster_id OUser (kv w) users (kv w') \/ keeps cluster_id OUser (kv w) (<[User_Name user := new]> users) (kv w'))
  | Fail _ => kv w' = kv w
  | Panic _ => False
  end.
Proof.
  intros Hk Hok. pose proof (UpdateUser_spec cluster_id fault (kv w) users user auth_user Hk Hok w eq_refl) as H.
  by destruct (UpdateUser _ _ _ _ w) as [w' r].
Qed.

#[export] Instance User_eq_dec : EqDecision User.
Proof. solve_decision. Defined.
#[export] Instance User_countable : Countable User.
Proof.
  refine (inj_countable' (fun a => (User_Name a, Password a, OldPassword a, RoleName a))
            (fun x => {| User_Name := x.1.1.1; Password := x.1.1.2; OldPassword := x.1.2; RoleName := x.2 |}) _). by intros [].
Defined.

Definition demo_user (pw old : option string) (role : option string) : User :=
  {| User_Name := "ann"; Password := pw; OldPassword := old; RoleName := role |}.
Definition demo_stored : User := demo_user (Some "pw1"%string) None (Some "defaultSpaceAdmin"%string).
Definition demo_user_world : world :=
  {| kv := {[ key_of (SetPrefixAndSequence "c1" initial_prefixes) (OUser "ann") := Marshal (Codec := countable_codec) demo_stored ]}; calls := 0 |}.

Lemma demo_user_keeps :
  keeps (HA := countable_codec) "c1" OUser (kv demo_user_world) {[ "ann"%string := demo_stored ]} (kv demo_user_world).
Proof.
  cbn [kv demo_user_world]. split; [|done].
  intros name. destruct (decide (name = "ann"%string)) as [->|Hne]; [by rewrite !lookup_singleton_eq|].
  rewrite !lookup_singleton_ne; [done|congruence|]. intros E%key_inj; [congruence|done..].
Qed.

Lemma UpdateUser_guarded_witness :
  let st := SetPrefixAndSequence "c1" initial_prefixes in
  let change old := UpdateUser (HRole := countable_codec) (HUser := countable_codec) no_fault st
                      (demo_user (Some "pw2"%string) (Some old) None) "ann" demo_user_world in
  (change "pw1"%string).2 = Ret tt /\ is_ret (change "guess"%string).2 = false /\
  update_allowed "c1" (kv demo_user_world) (demo_user (Some "pw2"%string) (Some "pw1"%string) None) demo_stored "ann".
Proof.
  assert (users_ok (HUser := countable_codec) {[ "ann"%string := demo_stored ]}) as Hok.
  { intros name a [<- <-]%lookup_singleton_Some. split_and!; [reflexivity|by eexists|by eexists|exact I]. }
  pose proof (UpdateUser_guarded "c1" no_fault countable_codec countable_codec {[ "ann"%string := demo_stored ]}
    (demo_user (Some "pw2"%string) (Some "pw1"%string) None) "ann" demo_user_world demo_user_keeps Hok) as H.
  split; [vm_compute; reflexivity|]. split; [vm_compute; reflexivity|].
  destruct (UpdateUser _ _ _ _ demo_user_world) as [w' r] eqn:E.
  assert (r = Ret tt) as -> by (vm_compute in E; congruence). destruct H as (old & new & Hold & Ha & _).
  cbn [User_Name demo_user] in Hold. rewrite lookup_singleton_eq in Hold. injection Hold as <-. exact Ha.
Defined.
