(* ===== verification/Cache.v ===== *)
(** * The caches of the client (internal/client/master_cache.go, master.go)

    A router keeps users, roles, spaces, partitions, servers, aliases and routers
    in maps that a watch on the metadata store updates.  Each watch is a pair of
    handlers, [put] and [delete], applied to the events in order ([watch]); a
    handler's error is logged and the event skipped.  A miss reloads one entry
    from the store: [reload] reads the store (in the monad of Store.v) and yields
    the update it will make, so that other events can come in between. *)

From S2P Require Import Prelude.
From S2P Require Import Text.
From S2P Require Import Errors.
From S2P Require Import Names.
From S2P Require Import Rbac.
From S2P Require Import Keys.
From S2P Require Import Schema.
From S2P Require Import Partition.
From S2P Require Import Space.
From S2P Require Import Floats.
From S2P Require Import SortOrder.
From S2P Require Import Placement.
From S2P Require Import Store.
From S2P Require Import Databases.
From S2P Require Import Accounts.
From S2P Require Import Limits.
Open Scope Z_scope.
#[local] Arguments String.append : simpl nomatch.

(** ** Splitting keys *)

(** [strings.Split(s, "/")] *)
Fixpoint split_from (cur s : string) : list string :=
  match s with
  | EmptyString => [cur]
  | String a s' => if byte_val a =? 47 then cur :: split_from "" s' else split_from (cur +:+ String a EmptyString) s'
  end.
Definition Split (s : string) : list string := split_from "" s.

(** [split[len(split)-1]] and [split[len(split)-2]] *)
Definition last_segment (s : string) : string := default ""%string (last (Split s)).
Definition segment_before_last (s : string) : go string := index_at (Split s) (Z.of_nat (length (Split s)) - 2).

(** ** Reads of the master client (master.go) *)

Section Reads.
Context (fault : nat -> option (error * bool)) (st : Prefixes) (ToInt64E : string -> option Z).
Context `{HRole : !Codec Role, HSpace : !Codec Space, HPartition : !Codec Partition, HServer : !Codec Server}.

(** The error of [Get] is wrapped when nothing came back. *)
Definition get_object {A} `{Codec A} (key : string) (missing : ErrorEnum) : M A := fun w =>
  match Get fault key w with
  | (w', Ret (Some v)) => (w', match Unmarshal v with Some a => Ret a | None => Fail (OtherErr "json") end)
  | (w', Ret None) => (w', Fail (NewError missing None))
  | (w', Fail e) => (w', Fail (NewError missing (Some e)))
  | (w', Panic p) => (w', Panic p)
  end.

Definition master_QueryRole (rolename : string) : M Role := get_object (RoleKey st rolename) ROLE_NOT_EXIST.
Definition QuerySpaceByID (dbID spaceID : Z) : M Space := get_object (SpaceKey st dbID spaceID) SPACE_NOT_EXIST.

Definition QueryPartition (partitionID : Z) : M Partition :=
  do! bs <- Get fault (PartitionKey st partitionID) in
  mret (decode_object (verr PARTITION_NOT_EXIST "partition id %d") (OtherErr "json") bs).
Definition QueryServer (id : Z) : M Server :=
  do! bs <- Get fault (ServerKey st id) in
  mret (decode_object (NewError PARTITION_SERVER_NOT_EXIST None) (OtherErr "json") bs).

Definition QuerySpaceByName (dbID : Z) (spaceName : string) : M Space :=
  do! spaces <- QuerySpaces fault st dbID in
  match List.find (fun s => S_Name s =?s spaceName) spaces with
  | Some s => mret (Ret s)
  | None => mret (Fail (NewError SPACE_NOT_EXIST None))
  end.
End Reads.

(** ** Keys of the caches *)

Definition cachePartitionKey (space : string) (pid : Z) : string := space +:+ "/" +:+ pretty pid.
Definition CacheSpaceKey (db space : string) : string := db +:+ "/" +:+ space.
Definition cacheServerKey (nodeID : Z) : string := pretty nodeID.
Definition cacheRouterIpKey (ip : string) : string := "IP/" +:+ ip.

(** [Cache.Add]: an entry that is there stays. *)
Definition cache_add {A} (k : string) (v : A) (m : gmap string A) : gmap string A :=
  match m !! k with Some _ => m | None => <[k := v]> m end.

(** ** Watching *)

Inductive event : Set := EvPut (key value : string) | EvDelete (key : string).

Section Watch.
Context {S : Type} (put : string -> string -> S -> go S) (del : string -> S -> go S).

(** The switch on the event type in [watcherJob.start]: errors are logged. *)
Definition watch_event (s : S) (ev : event) : S :=
  match (match ev with EvPut k v => put k v s | EvDelete k => del k s end) with
  | Ret s' => s'
  | _ => s
  end.
Definition watch (s : S) (evs : list event) : S := foldl watch_event s evs.
End Watch.

(** ** The jobs of [startCacheJob] *)

Section Jobs.
Context (st : Prefixes) (ResourceName : string) (ToInt64 ToUint64 : string -> Z).
Context `{HUser : !Codec User, HRole : !Codec Role, HAlias : !Codec Alias, HSpace : !Codec Space,
          HPartition : !Codec Partition, HServer : !Codec Server}.

Definition decode_or {A} `{Codec A} (value : string) (e : error) : go A :=
  match Unmarshal value with Some a => Ret a | None => Fail e end.

Definition user_put (key value : string) (userCache : gmap string User) : go (gmap string User) :=
  let! user := decode_or value (verr PARAM_ERROR "put event user cache err, can't unmarshal event value: %s, error: %s") in
  Ret (<[UserKey st (User_Name user) := user]> userCache).
Definition user_delete (key : string) (userCache : gmap string User) : go (gmap string User) :=
  Ret (delete (last_segment key) userCache).

Definition role_put (key value : string) (roleCache : gmap string Role) : go (gmap string Role) :=
  let! role := decode_or value (verr PARAM_ERROR "put event role cache err, can't unmarshal event value: %s, error: %s") in
  Ret (<[RoleKey st (Role_Name role) := role]> roleCache).
Definition role_delete (key : string) (roleCache : gmap string Role) : go (gmap string Role) :=
  Ret (delete (last_segment key) roleCache).

Definition alias_put (key value : string) (aliasCache : gmap string Alias) : go (gmap string Alias) :=
  let! alias := decode_or value (OtherErr "json") in
  Ret (<[Alias_Name alias := alias]> aliasCache).
Definition alias_delete (key : string) (aliasCache : gmap string Alias) : go (gmap string Alias) :=
  Ret (delete (last_segment key) aliasCache).

(** Spaces are kept under "db/space" and under their id. *)
Record space_caches : Type := { spaceCache : gmap string Space; spaceIDCache : gmap string Space }.

Definition set_space (ckey : string) (space : Space) (c : space_caches) : space_caches :=
  {| spaceCache := <[ckey := space]> (spaceCache c);
     spaceIDCache := <[pretty (S_Id space) := space]> (spaceIDCache c) |}.

(** [dbName] is the answer of [QueryDBId2Name]. *)
Definition space_put (QueryDBId2Name : Z -> go string) (key value : string) (c : space_caches) : go space_caches :=
  let! space := decode_or value (OtherErr "json") in
  if negb (S_ResourceName space =?s ResourceName) then Ret c
  else
    match QueryDBId2Name (S_DBId space) with
    | Panic p => Panic p
    | Fail e => Fail (verr PARAM_ERROR ("find db by id err: " +:+ Error e))
    | Ret dbName =>
      let ckey := CacheSpaceKey dbName (S_Name space) in
      Ret (if match spaceCache c !! ckey with None => true | Some old => S_Version old <? S_Version space end
           then set_space ckey space c else c)
    end.

(** The first item with that database and id, in the order [items] visits them. *)
Definition space_delete (items : gmap string Space -> list (string * Space)) (key : string) (c : space_caches)
  : go space_caches :=
  let! dbIDStr := segment_before_last key in
  let dbID := ToInt64 dbIDStr in
  let spaceID := ToInt64 (last_segment key) in
  Ret match List.find (fun kv => (S_DBId kv.2 =? dbID) && (S_Id kv.2 =? spaceID)) (items (spaceCache c)) with
      | Some (k, _) => {| spaceCache := delete k (spaceCache c); spaceIDCache := delete (pretty spaceID) (spaceIDCache c) |}
      | None => c
      end.

Definition partition_put (QuerySpaceByID : Z -> Z -> go Space) (key value : string)
    (partitionCache : gmap string Partition) : go (gmap string Partition) :=
  let! partition := decode_or value (OtherErr "json") in
  let! space := QuerySpaceByID (P_DBId partition) (P_SpaceId partition) in
  let cacheKey := cachePartitionKey (S_Name space) (P_Id partition) in
  Ret (if match partitionCache !! cacheKey with None => true | Some old => P_UpdateTime old <? P_UpdateTime partition end
       then <[cacheKey := partition]> partitionCache else partitionCache).

(** [strings.HasSuffix] *)
Fixpoint HasSuffix (s suffix : string) : bool :=
  (s =?s suffix) || match s with EmptyString => false | String _ s' => HasSuffix s' suffix end.

Definition partition_delete (items : gmap string Partition -> list (string * Partition)) (key : string)
    (partitionCache : gmap string Partition) : go (gmap string Partition) :=
  let partitionIdStr := last_segment key in
  Ret match List.find (fun kv => HasSuffix kv.1 ("/" +:+ partitionIdStr)) (items partitionCache) with
      | Some (k, _) => delete k partitionCache
      | None => partitionCache
      end.

(** Servers, and the RPC clients that are open to them by address. *)
Record server_caches : Type := { serverCache : gmap string Server; rpcClients : gmap Z string }.

Definition server_put (key value : string) (c : server_caches) : go server_caches :=
  let! server := decode_or value (OtherErr "json") in
  if negb (Server_ResourceName server =?s ResourceName) then Ret c
  else Ret {| serverCache := <[cacheServerKey (Server_ID server) := server]> (serverCache c);
              rpcClients := match rpcClients c !! Server_ID server with
                            | Some addr => if addr =?s RpcAddr server then rpcClients c else delete (Server_ID server) (rpcClients c)
                            | None => rpcClients c
                            end |}.
Definition server_delete (key : string) (c : server_caches) : go server_caches :=
  let nodeIdStr := last_segment key in
  Ret {| serverCache := delete nodeIdStr (serverCache c); rpcClients := delete (ToUint64 nodeIdStr) (rpcClients c) |}.
End Jobs.

(** ** Misses

    A lookup that misses starts a reload, at once or in a goroutine of its own,
    and looks [retryNum] times more.  [others] is what the other goroutines (the
    watch, reloads) do to the cache before each look. *)

Definition retryNum : nat := 3.

Fixpoint looks {A} (key : string) (others : list (gmap string A -> gmap string A)) (c : gmap string A)
  : gmap string A * option A :=
  match others with
  | [] => (c, None)
  | f :: others' => match f c !! key with Some a => (f c, Some a) | None => looks key others' (f c) end
  end.

(** [reload] runs before the first look and its error is dropped. *)
Definition lookup_sync {A} (reload : M (gmap string A -> gmap string A)) (key : string) (missing : error)
    (others : list (gmap string A -> gmap string A)) (c : gmap string A) (w : world) : world * gmap string A * go A :=
  match c !! key with
  | Some a => (w, c, Ret a)
  | None =>
    let '(w', r) := reload w in
    let '(c', found) := looks key others (match r with Ret f => f c | _ => c end) in
    (w', c', match found with Some a => Ret a | None => Fail missing end)
  end.

(** The reload is one of the other goroutines. *)
Definition lookup_async {A} (key : string) (missing : error) (others : list (gmap string A -> gmap string A))
    (c : gmap string A) : gmap string A * go A :=
  match c !! key with
  | Some a => (c, Ret a)
  | None => let '(c', found) := looks key others c in (c', match found with Some a => Ret a | None => Fail missing end)
  end.

(** An error of the reads becomes a [PARAM_ERROR]. *)
Definition as_param {A} (msg : string) (m : M A) : M A := fun w =>
  match m w with (w', Fail e) => (w', Fail (verr PARAM_ERROR msg)) | x => x end.

(** [if err != nil { log; continue }] *)
Definition attempt {A} (m : M A) : M (option A) := fun w =>
  match m w with (w', Ret a) => (w', Ret (Some a)) | (w', Fail _) => (w', Ret None) | (w', Panic p) => (w', Panic p) end.

Fixpoint mfold {A B} (f : B -> A -> M B) (b : B) (xs : list A) : M B :=
  match xs with [] => mret (Ret b) | x :: xs' => do! b' <- f b x in mfold f b' xs' end.

Section Lookups.
Context (fault : nat -> option (error * bool)) (st : Prefixes) (ToInt64E : string -> option Z) (ResourceName : string).
Context `{HUser : !Codec User, HRole : !Codec Role, HAlias : !Codec Alias, HSpace : !Codec Space,
          HPartition : !Codec Partition, HServer : !Codec Server}.

Definition reloadUserCache (userName : string) : M (gmap string User -> gmap string User) :=
  do! user <- as_param "can not found user by name:[%s] err:[%s]" (master_QueryUser fault st userName) in
  mret (Ret (fun c => <[userName := user]> c)).
Definition UserByCache (userName : string) := lookup_sync (reloadUserCache userName) userName (NewError USER_NOT_EXIST None).

Definition reloadRoleCache (roleName : string) : M (gmap string Role -> gmap string Role) :=
  do! role <- as_param "can not found role by name:[%s] err:[%s]" (master_QueryRole fault st roleName) in
  mret (Ret (fun c => <[roleName := role]> c)).
Definition RoleByCache (roleName : string) := lookup_sync (reloadRoleCache roleName) roleName (NewError ROLE_NOT_EXIST None).

Definition reloadSpaceCache (db spaceName : string) : M (space_caches -> space_caches) :=
  do! dbID <- as_param "can not found db by name:[%s] err:[%s]" (QueryDBName2ID fault st ToInt64E db) in
  do! space <- as_param "can not found space by space name:[%s] and db name:[%s] err:[%s]" (QuerySpaceByName fault st dbID spaceName) in
  mret (Ret (if negb (S_ResourceName space =?s ResourceName) then id else set_space (CacheSpaceKey db spaceName) space)).
Definition SpaceByCache (db space : string) : list (gmap string Space -> gmap string Space) -> gmap string Space -> gmap string Space * go Space :=
  lookup_async (CacheSpaceKey db space) (verr PARAM_ERROR "db:[%s] space:[%s] err:[%s]").
Definition DeleteSpaceCache (db space : string) (c : space_caches) : space_caches :=
  {| spaceCache := delete (CacheSpaceKey db space) (spaceCache c); spaceIDCache := spaceIDCache c |}.

Definition reloadPartitionCache (spaceName : string) (pid : Z) : M (gmap string Partition -> gmap string Partition) :=
  do! partition <- as_param "can not found db by space:[%s] partition_id:[%d] err:[%s]" (QueryPartition fault st pid) in
  mret (Ret (fun c => <[cachePartitionKey spaceName pid := partition]> c)).
Definition PartitionByCache (spaceName : string) (pid : Z)
  : list (gmap string Partition -> gmap string Partition) -> gmap string Partition -> gmap string Partition * go Partition :=
  lookup_async (cachePartitionKey spaceName pid) (verr PARAM_ERROR "space:[%s] partition_id:[%d]").

Definition reloadServerCache (id : Z) : M (gmap string Server -> gmap string Server) :=
  do! server <- as_param "can not found server node_id:[%d] err:[%s]" (QueryServer fault st id) in
  mret (Ret (fun c => <[cacheServerKey id := server]> c)).
Definition ServerByCache (id : Z)
  : list (gmap string Server -> gmap string Server) -> gmap string Server -> gmap string Server * go Server :=
  lookup_async (cacheServerKey id) (verr PARAM_ERROR "server node id:[%d]").

Definition AliasByCache (alias_name : string) (aliasCache : gmap string Alias) : go Alias :=
  match aliasCache !! alias_name with
  | Some a => Ret a
  | None => Fail (OtherErr "alias_name:[%s] err:[%s]")
  end.

(** ** The caches at start *)

(** [Add] that fails when the key is there. *)
Definition add_new {A} (k : string) (v : A) (m : gmap string A) : go (gmap string A) :=
  match m !! k with Some _ => Fail (OtherErr "Item %s already exists") | None => Ret (<[k := v]> m) end.

Definition initUser : M (gmap string User) :=
  do! kvs <- PrefixScan fault (PrefixUser st) in
  mret (ofold (fun c kv =>
    let! user := decode_or kv.2 (OtherErr "json") in add_new (User_Name user) user c) ∅ kvs).

Definition initAlias : M (gmap string Alias) :=
  do! kvs <- PrefixScan fault (PrefixAlias st) in
  mret (Ret (foldl (fun c a => cache_add (Alias_Name a) a c) ∅ (decode_all kvs))).

Definition initRole : M (gmap string Role) :=
  do! kvs <- PrefixScan fault (PrefixRole st) in
  mret (Ret (foldl (fun c r => cache_add (Role_Name r) r c) ∅ (decode_all kvs))).

Definition initServer : M (gmap string Server) :=
  do! kvs <- PrefixScan fault (PrefixServer st) in
  mret (Ret (foldl (fun c s => cache_add (cacheServerKey (Server_ID s)) s c) ∅ (decode_all kvs))).

Definition init_space (c : space_caches) (s : Space) : M space_caches :=
  do! db <- attempt (QueryDBId2Name fault st (S_DBId s)) in
  mret (Ret match db with
            | None => c
            | Some db =>
              if negb (S_ResourceName s =?s ResourceName) then c
              else match spaceCache c !! CacheSpaceKey db (S_Name s) with
                   | Some _ => c
                   | None => set_space (CacheSpaceKey db (S_Name s)) s c
                   end
            end).
Definition initSpace : M space_caches :=
  do! spaces <- QuerySpacesByKey fault (PrefixSpace st) in
  mfold init_space {| spaceCache := ∅; spaceIDCache := ∅ |} spaces.

(** [spaceNameMap] remembers the names already looked up, by the id of the space. *)
Definition init_partition (acc : gmap Z string * gmap string Partition) (pt : Partition)
  : M (gmap Z string * gmap string Partition) :=
  let '(names, c) := acc in
  let known := default ""%string (names !! P_SpaceId pt) in
  if negb (known =?s "") then mret (Ret (names, cache_add (cachePartitionKey known (P_Id pt)) pt c))
  else
    do! space <- attempt (QuerySpaceByID fault st (P_DBId pt) (P_SpaceId pt)) in
    mret (Ret match space with
              | None => acc
              | Some s => (<[P_SpaceId pt := S_Name s]> names, cache_add (cachePartitionKey (S_Name s) (P_Id pt)) pt c)
              end).
Definition initPartition : M (gmap string Partition) :=
  do! kvs <- PrefixScan fault (PrefixPartition st) in
  do! acc <- mfold init_partition (∅, ∅) (decode_all kvs) in
  mret (Ret acc.2).
End Lookups.

(** ** The routers' cache *)

Definition RequestLimitConfigKey : string := "request_limit_config".
Definition MemoryLimitConfigKey : string := "memory_limit_config".
Definition SlowSearchIsolationKey : string := "slow_search_isolation".

(** What [routerCache] holds, and the package variables the events set. *)
Inductive router_entry : Type :=
| ReIp (ip : string) | ReRequest (cfg : RequestLimitCfg) | ReMemory (cfg : MemoryLimitCfg) | ReSlow (enabled : bool).
Record router_state : Type := { routerCache : gmap string router_entry; config : Config }.

Section Routers.
Context (st : Prefixes) (SystemMemory : Z) `{HReq : !Codec RequestLimitCfg, HMem : !Codec MemoryLimitCfg, HSlow : !Codec bool}.

Definition routerSplit (key : string) : list string := Split (TrimPrefix key (PrefixRouter st)).

Definition router_put (key value : string) (s : router_state) : go router_state :=
  let parts := routerSplit key in
  let! first := index_at parts 0 in
  if (1 <? Z.of_nat (length parts)) then
    Ret match routerCache s !! cacheRouterIpKey value with
        | None => {| routerCache := <[cacheRouterIpKey value := ReIp value]> (routerCache s); config := SetRouterCount true (config s) |}
        | Some _ => s
        end
  else if first =?s RequestLimitConfigKey then
    let! cfg := decode_or value (verr PARAM_ERROR "put event router cache err, can't unmarshal request limit value: %s, error: %s") in
    Ret {| routerCache := <[RequestLimitConfigKey := ReRequest cfg]> (routerCache s); config := SetRequestLimit cfg (config s) |}
  else if first =?s MemoryLimitConfigKey then
    let! cfg := decode_or value (verr PARAM_ERROR "put event router cache err, can't unmarshal memory limit value: %s, error: %s") in
    Ret {| routerCache := <[MemoryLimitConfigKey := ReMemory cfg]> (routerCache s); config := SetMemoryLimit SystemMemory cfg true (config s) |}
  else if first =?s SlowSearchIsolationKey then
    let! e := decode_or value (verr PARAM_ERROR "put event router cache err, can't unmarshal event value: %s, error: %s") in
    Ret {| routerCache := <[SlowSearchIsolationKey := ReSlow e]> (routerCache s); config := SetSlowSearchIsolation e (config s) |}
  else Ret s.

Definition request_off : RequestLimitCfg :=
  {| RequestLimitEnabled := false; TotalReadLimit := float_of_int 0; TotalWriteLimit := float_of_int 0 |}.
Definition memory_off : MemoryLimitCfg := {| MemoryLimitEnabled := false; RouterMemoryLimit := 0; PsMemoryLimit := 0 |}.

Definition router_delete (key : string) (s : router_state) : go router_state :=
  let parts := routerSplit key in
  let klen := Z.of_nat (length parts) in
  let! first := index_at parts 0 in
  if 1 <? klen then
    let! ip := index_at parts (klen - 1) in
    Ret match routerCache s !! cacheRouterIpKey ip with
        | Some _ => {| routerCache := delete (cacheRouterIpKey ip) (routerCache s); config := SetRouterCount false (config s) |}
        | None => s
        end
  else if first =?s RequestLimitConfigKey then
    Ret {| routerCache := delete RequestLimitConfigKey (routerCache s); config := SetRequestLimit request_off (config s) |}
  else if first =?s MemoryLimitConfigKey then
    Ret {| routerCache := delete MemoryLimitConfigKey (routerCache s); config := SetMemoryLimit SystemMemory memory_off true (config s) |}
  else if first =?s SlowSearchIsolationKey then
    Ret {| routerCache := delete SlowSearchIsolationKey (routerCache s); config := SetSlowSearchIsolation true (config s) |}
  else Ret s.

Definition init_router (s : router_state) (kv : string * string) : router_state :=
  let parts := routerSplit kv.1 in
  let first := default ""%string (parts !! 0%nat) in
  if (1 <? Z.of_nat (length parts)) then
    {| routerCache := cache_add (cacheRouterIpKey kv.2) (ReIp kv.2) (routerCache s); config := SetRouterCount true (config s) |}
  else if first =?s RequestLimitConfigKey then
    match Unmarshal kv.2 with
    | None => s
    | Some cfg => {| routerCache := cache_add RequestLimitConfigKey (ReRequest cfg) (routerCache s); config := SetRequestLimit cfg (config s) |}
    end
  else if first =?s MemoryLimitConfigKey then
    match Unmarshal kv.2 with
    | None => s
    | Some cfg => {| routerCache := cache_add MemoryLimitConfigKey (ReMemory cfg) (routerCache s); config := SetMemoryLimit SystemMemory cfg true (config s) |}
    end
  else if first =?s SlowSearchIsolationKey then
    match Unmarshal kv.2 with
    | None => s
    | Some e => {| routerCache := cache_add SlowSearchIsolationKey (ReSlow e) (routerCache s); config := SetSlowSearchIsolation e (config s) |}
    end
  else s.

Definition initRouter (fault : nat -> option (error * bool)) (s : router_state) : M router_state :=
  do! kvs <- PrefixScan fault (PrefixRouter st) in mret (Ret (foldl init_router s kvs)).
End Routers.

(** ** Facts about keys *)

Lemma split_from_app cur a b : split_from cur (a +:+ "/" +:+ b) = split_from cur a ++ split_from "" b.
Proof.
  revert cur. induction a as [|x a IH]; intros cur; [done|].
  change (String x a +:+ "/" +:+ b) with (String x (a +:+ "/" +:+ b)). simpl. rewrite !IH. by case_match.
Qed.

Lemma split_from_plain cur a : 47 ∉ bytes_of a -> split_from cur a = [cur +:+ a].
Proof.
  revert cur. induction a as [|x a IH]; intros cur Ha; simpl; [by rewrite string_app_nil|].
  simpl in Ha. apply not_elem_of_cons in Ha as [Hx Ha]. destruct (Z.eqb_spec (byte_val x) 47); [congruence|].
  rewrite IH by done. by rewrite app_assoc_string.
Qed.

Lemma Split_app a b : Split (a +:+ "/" +:+ b) = Split a ++ Split b.
Proof. apply split_from_app. Qed.

Lemma Split_plain a : 47 ∉ bytes_of a -> Split a = [a].
Proof. apply (split_from_plain ""). Qed.

Lemma last_segment_of a b : 47 ∉ bytes_of b -> last_segment (a +:+ "/" +:+ b) = b.
Proof. intros Hb. unfold last_segment. by rewrite Split_app, (Split_plain b), last_snoc. Qed.

(** ** Caches of one kind of object

    The objects of a kind live under [prefix ++ name]; the cache holds them
    under their name.  [scan] reads the store at one moment, the watch delivers
    the later changes. *)

Lemma scan_spec t prefix k v : (k, v) ∈ scan t prefix <-> t !! k = Some v /\ HasPrefix k prefix = true.
Proof.
  unfold scan. rewrite merge_sort_Permutation, list_elem_of_filter, elem_of_map_to_list. naive_solver.
Qed.

Lemma find_name {A} (name : A -> string) (objs : gmap string A) (l : list A) n :
  (forall x, x ∈ l <-> objs !! name x = Some x) -> (forall m x, objs !! m = Some x -> name x = m) ->
  List.find (fun x => name x =?s n) l = objs !! n.
Proof.
  intros Hl Hn. destruct (List.find _ l) as [x|] eqn:E.
  - apply find_some in E as [Hx%list_elem_of_In%Hl Hnx%string_eqb_eq]. by rewrite <- Hnx.
  - destruct (objs !! n) as [x|] eqn:Hx; [|done]. pose proof (Hn _ _ Hx). subst n.
    assert (In x l) as Hin by (apply list_elem_of_In, Hl, Hx). pose proof (find_none _ _ E x Hin) as Hf.
    simpl in Hf. rewrite string_eqb_neq in Hf. done.
Qed.

Lemma foldl_cache_add {A} (name : A -> string) (l : list A) c n :
  foldl (fun c a => cache_add (name a) a c) c l !! n =
    match c !! n with Some a => Some a | None => List.find (fun x => name x =?s n) l end.
Proof.
  induction l as [|a l IH] in c |- *; simpl; [by destruct (c !! n)|]. rewrite IH. unfold cache_add.
  destruct (name a =?s n) eqn:E.
  - apply string_eqb_eq in E as <-. destruct (c !! name a) eqn:Ec; [by rewrite Ec|by rewrite lookup_insert_eq].
  - apply string_eqb_neq in E. destruct (c !! name a) eqn:Ec; [done|by rewrite lookup_insert_ne].
Qed.

Section Kind.
Context {A : Type} `{HA : !Codec A} (name : A -> string) (prefix : string).
Notation key n := (prefix +:+ n).

(** The keys under the prefix hold [objs], each under its name. *)
Definition stores (t : gmap string string) (objs : gmap string A) : Prop :=
  forall k v, t !! k = Some v /\ HasPrefix k prefix = true <->
    exists n a, k = key n /\ objs !! n = Some a /\ v = Marshal a.
Definition named (objs : gmap string A) : Prop :=
  forall n a, objs !! n = Some a -> name a = n /\ Encodable a.

Lemma decode_scan t objs : stores t objs -> named objs ->
  forall a, a ∈ decode_all (scan t prefix) <-> objs !! name a = Some a.
Proof.
  intros Hst Hn a. unfold decode_all. rewrite list_elem_of_omap. split.
  - intros ([k v] & Hin & Hu). apply scan_spec, Hst in Hin. destruct Hin as (n & b & -> & Hb & ->). simpl in Hu.
    destruct (Hn _ _ Hb) as [<- He]. rewrite Unmarshal_Marshal in Hu by done. by simplify_eq.
  - intros Ha. exists (key (name a), Marshal a). destruct (Hn _ _ Ha) as [_ He]. rewrite scan_spec. simpl.
    rewrite Unmarshal_Marshal by done. split; [|done]. apply Hst. by eexists _, _.
Qed.

Lemma init_entries t objs : stores t objs -> named objs ->
  foldl (fun c a => cache_add (name a) a c) ∅ (decode_all (scan t prefix)) = objs.
Proof.
  intros Hst Hn. apply map_eq. intros n. rewrite foldl_cache_add, lookup_empty. apply find_name.
  - by apply decode_scan.
  - intros m x Hx. by apply Hn.
Qed.

(** Changes of the store, their events, and their effect on the objects. *)
Inductive op : Type := OpPut (a : A) | OpDel (n : string).
Definition op_name (o : op) : string := match o with OpPut a => name a | OpDel n => n end.
Definition op_event (o : op) : event := match o with OpPut a => EvPut (key (name a)) (Marshal a) | OpDel n => EvDelete (key n) end.
Definition op_store (t : gmap string string) (o : op) : gmap string string :=
  match o with OpPut a => <[key (name a) := Marshal a]> t | OpDel n => delete (key n) t end.
Definition op_objs (m : gmap string A) (o : op) : gmap string A :=
  match o with OpPut a => <[name a := a]> m | OpDel n => delete n m end.
(** Names have no ['/'], as the validators ensure. *)
Definition op_ok (o : op) : Prop := 47 ∉ bytes_of (op_name o) /\ match o with OpPut a => Encodable a | OpDel _ => True end.

Lemma key_prefix n : HasPrefix (key n) prefix = true.
Proof. apply prefix_app. Qed.

Lemma op_stores t objs o : stores t objs -> stores (op_store t o) (op_objs objs o).
Proof.
  intros Hst k v. destruct o as [a|n]; simpl; split.
  - intros [Ht Hp]. apply lookup_insert_Some in Ht as [[<- <-]|[Hne Ht]].
    + eexists _, a. by rewrite lookup_insert_eq.
    + destruct (proj1 (Hst k v) (conj Ht Hp)) as (n & b & -> & Hb & ->). exists n, b.
      rewrite lookup_insert_ne by congruence. done.
  - intros (n & b & -> & Hb & ->). split; [|apply key_prefix]. apply lookup_insert_Some in Hb as [[<- <-]|[Hne Hb]].
    + by rewrite lookup_insert_eq.
    + rewrite lookup_insert_ne by (intros ?%app_inj_string; congruence). apply Hst. by eexists _, _.
  - intros [Ht Hp]. apply lookup_delete_Some in Ht as [Hne Ht].
    destruct (proj1 (Hst k v) (conj Ht Hp)) as (m & b & -> & Hb & ->). exists m, b.
    rewrite lookup_delete_ne by congruence. done.
  - intros (m & b & -> & Hb & ->). split; [|apply key_prefix]. apply lookup_delete_Some in Hb as [Hne Hb].
    rewrite lookup_delete_ne by (intros ?%app_inj_string; congruence). apply Hst. by eexists _, _.
Qed.

Lemma op_named objs o : op_ok o -> named objs -> named (op_objs objs o).
Proof.
  intros [_ Ho] Hn n a. destruct o as [b|m]; simpl.
  - intros [[<- <-]|[_ H]]%lookup_insert_Some; [done|by apply Hn].
  - intros [_ H]%lookup_delete_Some. by apply Hn.
Qed.

Lemma ops_stores ops t objs : stores t objs -> stores (foldl op_store t ops) (foldl op_objs objs ops).
Proof. induction ops as [|o ops IH] in t, objs |- *; simpl; [done|]. intros H. by apply IH, op_stores. Qed.

Lemma ops_named ops objs : Forall op_ok ops -> named objs -> named (foldl op_objs objs ops).
Proof. intros Hok. induction Hok in objs |- *; simpl; [done|]. intros H1. by apply IHHok, op_named. Qed.

(** An object is what the last change of its name made it. *)
Definition touches (ops : list op) (n : string) : Prop := Exists (fun o => op_name o = n) ops.

Lemma op_objs_ne m o n : op_name o <> n -> op_objs m o !! n = m !! n.
Proof. destruct o; simpl; intros; [by rewrite lookup_insert_ne|by rewrite lookup_delete_ne]. Qed.

Lemma op_objs_eq m m' o n : op_name o = n -> op_objs m o !! n = op_objs m' o !! n.
Proof. intros <-. destruct o; simpl; [by rewrite !lookup_insert_eq|by rewrite !lookup_delete_eq]. Qed.

Lemma ops_cong ops m m' n : m !! n = m' !! n -> foldl op_objs m ops !! n = foldl op_objs m' ops !! n.
Proof.
  induction ops as [|o ops IH] in m, m' |- *; simpl; [done|]. intros H. apply IH.
  destruct (decide (op_name o = n)); [by apply op_objs_eq|by rewrite !op_objs_ne].
Qed.

Lemma ops_untouched ops m n : ~ touches ops n -> foldl op_objs m ops !! n = m !! n.
Proof.
  unfold touches. induction ops as [|o ops IH] in m |- *; simpl; [done|]. rewrite Exists_cons. intros H.
  rewrite IH by tauto. apply op_objs_ne. tauto.
Qed.

Lemma ops_touched ops m m' n : touches ops n -> foldl op_objs m ops !! n = foldl op_objs m' ops !! n.
Proof.
  unfold touches. induction ops as [|o ops IH] in m, m' |- *; simpl; [by intros ?%Exists_nil|].
  rewrite Exists_cons. intros [H|H]; [|by apply IH]. apply ops_cong. by apply op_objs_eq.
Qed.

(** The watch starts at the revision it reads when it is opened, [m] changes
    into the history, and delivers the [m]-th change again; the scan saw [n]. *)
Lemma watch_catches_up (hist : list op) (n m : nat) objs x : (n <= m)%nat ->
  ~ touches (drop n (take (m - 1) hist)) x \/ touches (drop (m - 1) hist) x ->
  foldl op_objs (foldl op_objs objs (take n hist)) (drop (m - 1) hist) !! x = foldl op_objs objs hist !! x.
Proof.
  intros Hnm Hx. rewrite <- (take_drop (m - 1) hist) at 3. rewrite foldl_app.
  destruct (decide (Exists (fun o => op_name o = x) (drop (m - 1) hist))) as [Ht|Ht]; [by apply ops_touched|].
  destruct Hx as [Hx|Hx]; [|done]. apply ops_cong. destruct (decide (n <= m - 1)%nat) as [Hle|Hle].
  - rewrite <- (take_drop n (take (m - 1) hist)), foldl_app, take_take, Nat.min_l by lia. by rewrite (ops_untouched (drop n _)).
  - rewrite <- (take_drop (m - 1) (take n hist)), foldl_app, take_take, Nat.min_l by lia.
    rewrite (ops_untouched (drop _ _)); [done|]. intros H. apply Ht. unfold touches in H. rewrite skipn_firstn_comm in H.
    rewrite <- (take_drop (n - (m - 1)) (drop (m - 1) hist)). apply Exists_app. by left.
Qed.
End Kind.

Section AliasCache.
Context (cluster_id : string) `{HAlias : !Codec Alias}.
Notation st := (SetPrefixAndSequence cluster_id initial_prefixes).

Lemma AliasKey_segment n : 47 ∉ bytes_of n -> last_segment (AliasKey st n) = n.
Proof.
  intros Hn. unfold AliasKey. change (PrefixAlias st) with (cluster_prefix cluster_id +:+ "/alias/").
  change "/alias/"%string with ("/alias" +:+ "/"). rewrite <- app_assoc_string, app_assoc_string. by apply last_segment_of.
Qed.

Lemma alias_watch ops c : Forall (op_ok Alias_Name) ops ->
  watch alias_put alias_delete c (op_event Alias_Name (PrefixAlias st) <$> ops) = foldl (op_objs Alias_Name) c ops.
Proof.
  intros Hok. induction Hok as [|o ops [Hn Ho] _ IH] in c |- *; [done|]. rewrite fmap_cons. simpl foldl. rewrite <- IH.
  unfold watch. simpl foldl. f_equal.
  destruct o as [a|n]; simpl in *; unfold watch_event.
  - unfold alias_put, decode_or. by rewrite Unmarshal_Marshal.
  - unfold alias_delete. f_equal. by apply AliasKey_segment.
Qed.

Lemma stored_alias t aliases name : stores (PrefixAlias st) t aliases -> t !! AliasKey st name = Marshal <$> aliases !! name.
Proof.
  intros Hst. destruct (aliases !! name) as [a|] eqn:E; simpl.
  - apply (Hst (AliasKey st name) (Marshal a)). by exists name, a.
  - destruct (t !! AliasKey st name) as [v|] eqn:Et; [|done].
    destruct (proj1 (Hst (AliasKey st name) v)) as (n & a & Hk & Ha & _); [split; [done|apply prefix_app]|].
    apply app_inj_string in Hk. congruence.
Qed.

Lemma initAlias_ok w : initAlias no_fault st w =
  ({| kv := kv w; calls := S (calls w) |}, Ret (foldl (fun c a => cache_add (Alias_Name a) a c) ∅ (decode_all (scan (kv w) (PrefixAlias st))))).
Proof. reflexivity. Qed.
End AliasCache.

(** The alias cache agrees with the store.  The aliases are scanned after [n] of
    the changes [hist]; the watch is opened after [m] of them and delivers the
    changes from the [m]-th on.  Afterwards a lookup finds what the store
    holds, and misses what it does not hold, for every name that no change
    between scan and watch touched, or a later one did.  [WatchPrefix] starts at the revision of the whole store: when
    a key of another kind was written after the [m]-th change of an alias, that change is not delivered again, and what holds is the statement for
    [m + 1].  (C29) *)
Theorem alias_cache_tracks_store (cluster_id : string) (HAlias : Codec Alias) (t0 : gmap string string) (aliases : gmap string Alias)
    (hist : list op) (n m : nat) (name : string) :
  let st := SetPrefixAndSequence cluster_id initial_prefixes in
  stores (PrefixAlias st) t0 aliases -> named Alias_Name aliases -> Forall (op_ok Alias_Name) hist -> (n <= m)%nat ->
  ~ touches Alias_Name (drop n (take (m - 1) hist)) name \/ touches Alias_Name (drop (m - 1) hist) name ->
  exists w' c0,
    initAlias no_fault st {| kv := foldl (op_store Alias_Name (PrefixAlias st)) t0 (take n hist); calls := 0 |} = (w', Ret c0) /\
    match AliasByCache name (watch alias_put alias_delete c0 (op_event Alias_Name (PrefixAlias st) <$> drop (m - 1) hist)),
          foldl (op_store Alias_Name (PrefixAlias st)) t0 hist !! AliasKey st name with
    | Ret a, Some v => v = Marshal a
    | Fail _, None => True
    | _, _ => False
    end.
Proof.
  intros st Hst Hn Hok Hnm Hx. eexists _, _. split; [apply initAlias_ok|]. cbn [kv].
  rewrite (init_entries _ _ _ (foldl (op_objs Alias_Name) aliases (take n hist)));
    [|by apply ops_stores|by apply ops_named; [apply Forall_take|]].
  unfold st. rewrite alias_watch by by apply Forall_drop.
  rewrite (stored_alias cluster_id _ (foldl (op_objs Alias_Name) aliases hist)) by by apply ops_stores.
  unfold AliasByCache. rewrite watch_catches_up by done. by destruct (foldl _ aliases hist !! name).
Qed.

(** An alias created after the scan and before the watch is opened (and so before
    the change [b] the watch starts at) stays unknown to the router: lookups miss
    it, though the store has it, until it is changed again. *)
Theorem alias_missed_in_gap (cluster_id : string) (HAlias : Codec Alias) (a : Alias) (b : op) (later : list op) :
  let st := SetPrefixAndSequence cluster_id initial_prefixes in
  let hist := OpPut a :: b :: later in
  Forall (op_ok Alias_Name) hist -> ~ touches Alias_Name (b :: later) (Alias_Name a) ->
  exists w' c0, initAlias no_fault st empty_world = (w', Ret c0) /\
    is_ret (AliasByCache (Alias_Name a) (watch alias_put alias_delete c0 (op_event Alias_Name (PrefixAlias st) <$> drop 1 hist))) = false /\
    foldl (op_store Alias_Name (PrefixAlias st)) ∅ hist !! AliasKey st (Alias_Name a) = Some (Marshal a).
Proof.
  intros st hist Hok Hu. eexists _, _. split; [apply initAlias_ok|]. cbn [kv empty_world].
  assert (stores (PrefixAlias st) ∅ (∅ : gmap string Alias)) as Hst.
  { intros k v. split; [by intros [? _]|]. by intros (? & ? & _ & ? & _). }
  split.
  - change (drop 1 hist) with (b :: later). unfold st.
    rewrite alias_watch by by inversion Hok. unfold AliasByCache. rewrite ops_untouched by done. reflexivity.
  - rewrite (stored_alias cluster_id _ (foldl (op_objs Alias_Name) ∅ hist)) by by apply ops_stores.
    unfold hist. change (foldl (op_objs Alias_Name) ∅ (OpPut a :: b :: later)) with (foldl (op_objs Alias_Name) {[Alias_Name a := a]} (b :: later)).
    by rewrite ops_untouched, lookup_singleton_eq.
Qed.

(** ** Users and roles *)

(** The events that leave the entry of [n] alone if they are handled as written. *)
Definition not_deleting (n : string) (ev : event) : Prop := match ev with EvPut _ _ => True | EvDelete k => last_segment k <> n end.

Lemma watch_keeps {V} (put : string -> string -> gmap string V -> go (gmap string V)) (del : string -> gmap string V -> go (gmap string V)) n x c evs :
  (forall k v c c', put k v c = Ret c' -> c' !! n = c !! n) ->
  (forall k c c', last_segment k <> n -> del k c = Ret c' -> c' !! n = c !! n) ->
  Forall (not_deleting n) evs -> c !! n = Some x -> watch put del c evs !! n = Some x.
Proof.
  intros Hp Hd Hevs. induction Hevs as [|ev evs Hev _ IH] in c |- *; [done|]. intros Hc. simpl. apply IH.
  unfold watch_event. destruct ev as [k v|k].
  - destruct (put k v c) eqn:E; [|done..]. by rewrite (Hp _ _ _ _ E).
  - destruct (del k c) eqn:E; [|done..]. by rewrite (Hd _ _ _ Hev E).
Qed.

Lemma UserKey_slash cluster_id n x : 47 ∉ bytes_of n -> UserKey (SetPrefixAndSequence cluster_id initial_prefixes) x <> n.
Proof.
  intros Hn <-. apply Hn. unfold UserKey. simpl. rewrite !bytes_of_app. apply elem_of_app. left. apply elem_of_app. right. by left.
Qed.
Lemma RoleKey_slash cluster_id n x : 47 ∉ bytes_of n -> RoleKey (SetPrefixAndSequence cluster_id initial_prefixes) x <> n.
Proof.
  intros Hn <-. apply Hn. unfold RoleKey. simpl. rewrite !bytes_of_app. apply elem_of_app. left. apply elem_of_app. right. by left.
Qed.

(** A user or role a router has cached stays as it was: whatever updates of it
    the watch delivers (new passwords, roles, privileges), lookups answer with the old
    object, for the watch files the new one under the store's key and
    not under the name. *)
Theorem account_updates_never_seen (cluster_id : string) (HUser : Codec User) (HRole : Codec Role) (fault : nat -> option (error * bool))
    (n : string) (u : User) (r : Role) (users : gmap string User) (roles : gmap string Role) (evs : list event)
    (others : list (gmap string User -> gmap string User)) (others' : list (gmap string Role -> gmap string Role)) (w : world) :
  let st := SetPrefixAndSequence cluster_id initial_prefixes in
  47 ∉ bytes_of n -> Forall (not_deleting n) evs ->
  (users !! n = Some u -> let c := watch (user_put st) user_delete users evs in UserByCache fault st n others c w = (w, c, Ret u)) /\
  (roles !! n = Some r -> let c := watch (role_put st) role_delete roles evs in RoleByCache fault st n others' c w = (w, c, Ret r)).
Proof.
  intros st Hn Hevs. split; intros Hc c; [unfold UserByCache|unfold RoleByCache]; unfold lookup_sync.
  - unfold c. erewrite watch_keeps; [done| | |done|done].
    + intros k v c1 c2. unfold user_put, decode_or. destruct (Unmarshal v); intros [= <-]. by rewrite lookup_insert_ne by by apply UserKey_slash.
    + intros k c1 c2 Hk [= <-]. by rewrite lookup_delete_ne.
  - unfold c. erewrite watch_keeps; [done| | |done|done].
    + intros k v c1 c2. unfold role_put, decode_or. destruct (Unmarshal v); intros [= <-]. by rewrite lookup_insert_ne by by apply RoleKey_slash.
    + intros k c1 c2 Hk [= <-]. by rewrite lookup_delete_ne.
Qed.

(** ** Spaces and partitions: the newest wins *)

Section Newest.
Context {V : Type} (version : V -> Z).

Definition newer_wins (c : gmap string V) (kv : string * V) : gmap string V :=
  if match c !! kv.1 with None => true | Some old => version old <? version kv.2 end then <[kv.1 := kv.2]> c else c.

(** [x] is the newest of what was there and what was delivered. *)
Definition newest (c : gmap string V) (l : list (string * V)) (k : string) (o : option V) : Prop :=
  match o with
  | Some x => (c !! k = Some x \/ (k, x) ∈ l) /\
              (forall v, (k, v) ∈ l -> version v <= version x) /\ (forall old, c !! k = Some old -> version old <= version x)
  | None => c !! k = None /\ forall v, (k, v) ∉ l
  end.

Lemma newer_wins_newest c l k : newest c l k (foldl newer_wins c l !! k).
Proof.
  induction l as [|[k' v] l IH] using rev_ind.
  - simpl. unfold newest. destruct (c !! k) as [x|]; [|by split; [|intros ? ?%elem_of_nil]].
    split; [by left|]. split; [by intros ? ?%elem_of_nil|]. by intros ? [= ->].
  - rewrite foldl_app. simpl. unfold newer_wins at 1. simpl. revert IH. unfold newest.
    assert (forall v', (k, v') ∈ l ++ [(k', v)] <-> (k, v') ∈ l \/ k = k' /\ v' = v) as Hl'.
    { intros v'. rewrite elem_of_app, list_elem_of_singleton. naive_solver. }
    destruct (decide (k' = k)) as [->|Hne].
    + destruct (foldl newer_wins c l !! k) as [x|] eqn:E.
      * intros (Hx & Hl & Hc). destruct (Z.ltb_spec (version x) (version v)) as [Hv|Hv].
        -- rewrite lookup_insert_eq. split; [right; apply Hl'; by right|]. split; [|intros old Ho; specialize (Hc old Ho); lia].
           intros v' [H|[_ ->]]%Hl'; [specialize (Hl _ H)|]; lia.
        -- rewrite E. rewrite Hl'. split; [tauto|]. split; [|done]. intros v' [H|[_ ->]]%Hl'; [by apply Hl|done].
      * intros [Hx Hl]. rewrite lookup_insert_eq. split; [right; apply Hl'; by right|]. split; [|congruence].
        intros v' [H|[_ ->]]%Hl'; [by destruct (Hl v')|done].
    + assert ((if match foldl newer_wins c l !! k' with Some old => version old <? version v | None => true end
               then <[k':=v]> (foldl newer_wins c l) else foldl newer_wins c l) !! k = foldl newer_wins c l !! k) as ->.
      { case_match; [case_match|]; by rewrite ?lookup_insert_ne. }
      destruct (foldl newer_wins c l !! k) as [x|]; setoid_rewrite Hl'; naive_solver.
Qed.
End Newest.

(** A watched space or partition with the answers of the master for the name it is filed under. *)
Definition delivered_space `{Codec Space} (ResourceName : string) (ev : (Z -> go string) * string * string) : option (string * Space) :=
  let '(dbName, _, value) := ev in
  match Unmarshal value with
  | Some s => if negb (S_ResourceName s =?s ResourceName) then None
              else match dbName (S_DBId s) with Ret db => Some (CacheSpaceKey db (S_Name s), s) | _ => None end
  | None => None
  end.
Definition delivered_partition `{Codec Partition} (ev : (Z -> Z -> go Space) * string * string) : option (string * Partition) :=
  let '(space, _, value) := ev in
  match Unmarshal value with
  | Some p => match space (P_DBId p) (P_SpaceId p) with Ret s => Some (cachePartitionKey (S_Name s) (P_Id p), p) | _ => None end
  | None => None
  end.

Lemma space_put_newer `{HSpace : Codec Space} rn q k v c :
  match space_put rn q k v c with Ret c' => spaceCache c' | _ => spaceCache c end =
  match delivered_space rn (q, k, v) with Some kv => newer_wins S_Version (spaceCache c) kv | None => spaceCache c end.
Proof.
  unfold space_put, delivered_space, decode_or, newer_wins. destruct (Unmarshal v) as [s|]; simpl; [|done].
  destruct (negb _); [done|]. destruct (q (S_DBId s)); simpl; [|done..]. by case_match; [case_match|].
Qed.

Lemma partition_put_newer `{HPartition : Codec Partition} q k v c :
  match partition_put q k v c with Ret c' => c' | _ => c end =
  match delivered_partition (q, k, v) with Some kv => newer_wins P_UpdateTime c kv | None => c end.
Proof.
  unfold partition_put, delivered_partition, decode_or, newer_wins. destruct (Unmarshal v) as [p|]; simpl; [|done].
  destruct (q (P_DBId p) (P_SpaceId p)); by simpl.
Qed.

Lemma foldl_omap_step {S T X : Type} (cache : S -> gmap string T) (step : S -> X -> S) (pick : X -> option (string * T)) f s0 evs :
  (forall s x, cache (step s x) = match pick x with Some kv => f (cache s) kv | None => cache s end) ->
  cache (foldl step s0 evs) = foldl f (cache s0) (omap pick evs).
Proof.
  intros Hstep. induction evs as [|x evs IH] in s0 |- *; [done|]. simpl. rewrite IH, Hstep. by destruct (pick x).
Qed.

(** The watch never replaces a space by an older version nor a partition by an
    older update: whatever updates arrive and in whatever order (the master
    answering as it likes), the cache holds under each key the newest of what it
    held and what was delivered for it. *)
Theorem watch_keeps_newest (HSpace : Codec Space) (HPartition : Codec Partition) (ResourceName : string)
    (c : space_caches) (pc : gmap string Partition)
    (evs : list ((Z -> go string) * string * string)) (pevs : list ((Z -> Z -> go Space) * string * string)) (k : string) :
  newest S_Version (spaceCache c) (omap (delivered_space ResourceName) evs) k
    (spaceCache (foldl (fun c ev => match space_put ResourceName ev.1.1 ev.1.2 ev.2 c with Ret c' => c' | _ => c end) c evs) !! k) /\
  newest P_UpdateTime pc (omap delivered_partition pevs) k
    (foldl (fun c ev => match partition_put ev.1.1 ev.1.2 ev.2 c with Ret c' => c' | _ => c end) pc pevs !! k).
Proof.
  split.
  - rewrite (foldl_omap_step spaceCache _ (delivered_space ResourceName) (newer_wins S_Version)).
    + apply newer_wins_newest.
    + intros s [[q k'] v]. pose proof (space_put_newer ResourceName q k' v s) as H. simpl fst. simpl snd. rewrite <- H.
      by destruct (space_put ResourceName q k' v s).
  - pose proof (foldl_omap_step id (fun c ev => match partition_put ev.1.1 ev.1.2 ev.2 c with Ret c' => c' | _ => c end)
      delivered_partition (newer_wins P_UpdateTime) pc pevs ltac:(intros s [[q k'] v]; apply partition_put_newer)) as H.
    unfold id in H. rewrite H. apply newer_wins_newest.
Qed.

(** ** Removing a partition *)

Lemma HasSuffix_iff s suf : HasSuffix s suf = true <-> exists x, s = x +:+ suf.
Proof.
  induction s as [|a s IH]; simpl; rewrite orb_true_iff, string_eqb_eq.
  - split; [intros [<-|?]; [by exists ""%string|done]|]. intros [[|b x] Hx]; [by left|done].
  - rewrite IH. split.
    + intros [<-|[x ->]]; [by exists ""%string|by exists (String a x)].
    + intros [[|b x] Hx]; [by left|]. right. injection Hx as <- Hx. by exists x.
Qed.

Lemma last_segment_partition s pid : last_segment (cachePartitionKey s pid) = pretty pid.
Proof. apply last_segment_of, pretty_Z_no_slash. Qed.

Lemma partition_suffix s pid pid' : HasSuffix (cachePartitionKey s pid) ("/" +:+ pretty pid') = true <-> pid = pid'.
Proof.
  rewrite HasSuffix_iff. split.
  - intros [x Hx]. apply (f_equal last_segment) in Hx. rewrite last_segment_partition in Hx.
    rewrite (last_segment_of x) in Hx by apply pretty_Z_no_slash. by apply (inj pretty) in Hx.
  - intros ->. by exists s.
Qed.

(** Every entry is filed under the name of a space and the id of its partition. *)
Definition partitions_filed (c : gmap string Partition) : Prop := forall k p, c !! k = Some p -> exists s, k = cachePartitionKey s (P_Id p).

(** The deletion of a partition, in whatever order the cache is searched, removes
    no entry of another partition and, if it is filed under one space only, leaves
    no entry of this one. *)
Theorem partition_delete_exact (cluster_id : string) (items : gmap string Partition -> list (string * Partition)) (pid : Z)
    (c : gmap string Partition) :
  items c ≡ₚ map_to_list c -> partitions_filed c ->
  exists c', partition_delete items (PartitionKey (SetPrefixAndSequence cluster_id initial_prefixes) pid) c = Ret c' /\
    (forall k p, c !! k = Some p -> P_Id p <> pid -> c' !! k = Some p) /\ c' ⊆ c /\
    ((forall k1 k2 p1 p2, c !! k1 = Some p1 -> c !! k2 = Some p2 -> P_Id p1 = pid -> P_Id p2 = pid -> k1 = k2) ->
     forall k p, c' !! k = Some p -> P_Id p <> pid).
Proof.
  intros Hitems Hc. unfold partition_delete.
  assert (last_segment (PartitionKey (SetPrefixAndSequence cluster_id initial_prefixes) pid) = pretty pid) as ->.
  { unfold PartitionKey. change (PrefixPartition _) with (cluster_prefix cluster_id +:+ "/partition" +:+ "/").
    rewrite !app_assoc_string, <- (app_assoc_string (cluster_prefix cluster_id)). apply last_segment_of, pretty_Z_no_slash. }
  assert (forall k p, c !! k = Some p -> HasSuffix k ("/" +:+ pretty pid) = true <-> P_Id p = pid) as Hsuf.
  { intros k p [s ->]%Hc. apply partition_suffix. }
  assert (forall k p, (k, p) ∈ items c <-> c !! k = Some p) as Hin by (intros; by rewrite Hitems, elem_of_map_to_list).
  eexists. split; [reflexivity|]. destruct (List.find _ (items c)) as [[k0 p0]|] eqn:E.
  - apply find_some in E as [H0%list_elem_of_In%Hin Hs]. apply (Hsuf _ _ H0) in Hs. split; [|split].
    + intros k p Hk Hp. rewrite lookup_delete_ne; [done|]. intros ->. congruence.
    + apply delete_subseteq.
    + intros Hu k p [Hne Hk]%lookup_delete_Some Hp. apply Hne. by eapply Hu.
  - split; [done|]. split; [done|]. intros _ k p Hk Hp. pose proof (proj1 (list_elem_of_In _ _) (proj2 (Hin _ _) Hk)) as Hi.
    pose proof (find_none _ _ E _ Hi) as Hf. cbn [fst] in Hf. by rewrite (proj2 (Hsuf _ _ Hk) Hp) in Hf.
Qed.

(** ** The number of routers *)

Definition ip_entries (m : gmap string router_entry) : Z :=
  Z.of_nat (size (filter (fun kv : string * router_entry => HasPrefix kv.1 "IP/" = true) m)).
Definition routers_counted (s : router_state) : Prop := RouterCount (config s) = ip_entries (routerCache s) /\ limits_applied (config s).

Lemma ip_key ip : HasPrefix (cacheRouterIpKey ip) "IP/" = true.
Proof. apply prefix_app. Qed.

Lemma ip_entries_add m ip x : m !! cacheRouterIpKey ip = None -> ip_entries (<[cacheRouterIpKey ip := x]> m) = ip_entries m + 1.
Proof.
  intros H. unfold ip_entries. rewrite map_filter_insert_True by apply ip_key. rewrite map_size_insert_None; [lia|].
  apply map_lookup_filter_None. by left.
Qed.
Lemma ip_entries_del m ip x : m !! cacheRouterIpKey ip = Some x -> ip_entries (delete (cacheRouterIpKey ip) m) = ip_entries m - 1.
Proof.
  intros H. unfold ip_entries. rewrite map_filter_delete, map_size_delete.
  assert (filter (fun kv : string * router_entry => HasPrefix kv.1 "IP/" = true) m !! cacheRouterIpKey ip = Some x) as E
    by (apply map_lookup_filter_Some; split; [done|apply ip_key]).
  rewrite E. assert (size (filter (fun kv : string * router_entry => HasPrefix kv.1 "IP/" = true) m) <> 0)%nat; [|lia].
  rewrite map_size_non_empty_iff. intros E0. by rewrite E0 in E.
Qed.
Lemma ip_entries_cfg m k x : HasPrefix k "IP/" = false -> ip_entries (<[k := x]> m) = ip_entries m.
Proof. intros H. unfold ip_entries. rewrite map_filter_insert_False by (simpl; congruence). rewrite map_filter_delete, delete_id; [done|]. apply map_lookup_filter_None. right. simpl. congruence. Qed.
Lemma ip_entries_cfg_del m k : HasPrefix k "IP/" = false -> ip_entries (delete k m) = ip_entries m.
Proof. intros H. unfold ip_entries. rewrite map_filter_delete, delete_id; [done|]. apply map_lookup_filter_None. right. simpl. congruence. Qed.

Lemma SetRequestLimit_count cfg c : RouterCount (SetRequestLimit cfg c) = RouterCount c.
Proof. unfold SetRequestLimit. by repeat case_match. Qed.
Lemma SetMemoryLimit_count mem cfg r c : RouterCount (SetMemoryLimit mem cfg r c) = RouterCount c.
Proof. unfold SetMemoryLimit. by repeat case_match. Qed.
Lemma SetRouterCount_count b c : RouterCount (SetRouterCount b c) = if b then RouterCount c + 1 else RouterCount c - 1.
Proof. unfold SetRouterCount. by case_match. Qed.

Section RouterCount.
Context (st : Prefixes) (SystemMemory : Z) `{HReq : !Codec RequestLimitCfg, HMem : !Codec MemoryLimitCfg, HSlow : !Codec bool}.

Lemma routers_counted_add s ip : routers_counted s -> routerCache s !! cacheRouterIpKey ip = None ->
  routers_counted {| routerCache := <[cacheRouterIpKey ip := ReIp ip]> (routerCache s); config := SetRouterCount true (config s) |}.
Proof.
  intros [Hc Hl] Hn. split; simpl; [rewrite SetRouterCount_count, ip_entries_add by done; lia|].
  by apply (apply_change_limits SystemMemory true (ChRouter true)).
Qed.

Lemma routers_counted_cfg s m ch : routers_counted s -> ip_entries m = ip_entries (routerCache s) ->
  RouterCount (apply_change SystemMemory true ch (config s)) = RouterCount (config s) ->
  routers_counted {| routerCache := m; config := apply_change SystemMemory true ch (config s) |}.
Proof. intros [Hc Hl] Hm Hr. split; simpl; [congruence|]. by apply apply_change_limits. Qed.

Ltac cfg_case ch := apply (routers_counted_cfg _ _ ch); [done|by rewrite ?ip_entries_cfg, ?ip_entries_cfg_del|]; simpl;
  rewrite ?SetRequestLimit_count, ?SetMemoryLimit_count; reflexivity.

Lemma router_event_counted s ev : routers_counted s -> routers_counted (watch_event (router_put st SystemMemory) (router_delete st SystemMemory) s ev).
Proof.
  intros Hs. destruct ev as [k v|k]; unfold watch_event.
  - unfold router_put. destruct (index_at (routerSplit st k) 0) as [first| |]; cbn [obind]; [|done..].
    destruct (1 <? _); [destruct (routerCache s !! cacheRouterIpKey v) eqn:E; [done|by apply routers_counted_add]|].
    unfold decode_or. destruct (first =?s RequestLimitConfigKey); [|destruct (first =?s MemoryLimitConfigKey); [|destruct (first =?s SlowSearchIsolationKey); [|done]]];
      destruct (Unmarshal v) as [a|]; cbn [obind]; try done.
    + cfg_case (ChRequest a).
    + cfg_case (ChMemory a).
    + cfg_case (ChSlow a).
  - unfold router_delete. destruct (index_at (routerSplit st k) 0) as [first| |]; cbn [obind]; [|done..].
    destruct (1 <? _).
    + destruct (index_at _ (_ - 1)) as [ip| |]; cbn [obind]; [|done..]. destruct (routerCache s !! cacheRouterIpKey ip) eqn:E; [|done].
      destruct Hs as [Hc Hl]. split; cbn [config routerCache]; [rewrite SetRouterCount_count, (ip_entries_del _ _ _ E); lia|].
      by apply (apply_change_limits SystemMemory true (ChRouter false)).
    + destruct (first =?s RequestLimitConfigKey); [|destruct (first =?s MemoryLimitConfigKey); [|destruct (first =?s SlowSearchIsolationKey); [|done]]].
      * cfg_case (ChRequest request_off).
      * cfg_case (ChMemory memory_off).
      * cfg_case (ChSlow true).
Qed.

(** The addresses of the routers among the scanned pairs. *)
Definition router_ips (kvs : list (string * string)) : list string :=
  omap (fun kv => if 1 <? Z.of_nat (length (routerSplit st kv.1)) then Some kv.2 else None) kvs.

Lemma cache_add_cfg (m : gmap string router_entry) k x ip : HasPrefix k "IP/" = false ->
  ip_entries (cache_add k x m) = ip_entries m /\ cache_add k x m !! cacheRouterIpKey ip = m !! cacheRouterIpKey ip.
Proof.
  intros Hk. unfold cache_add. destruct (m !! k); [done|]. split; [by apply ip_entries_cfg|].
  apply lookup_insert_ne. intros E. pose proof (ip_key ip). congruence.
Qed.

(** A scanned pair that is no router leaves the addresses alone. *)
Lemma init_config_counted s kv : (1 <? Z.of_nat (length (routerSplit st kv.1))) = false -> routers_counted s ->
  routers_counted (init_router st SystemMemory s kv) /\
  forall ip, routerCache (init_router st SystemMemory s kv) !! cacheRouterIpKey ip = routerCache s !! cacheRouterIpKey ip.
Proof.
  intros Hlen Hs. unfold init_router. rewrite Hlen. set (first := default _ _).
  destruct (first =?s RequestLimitConfigKey); [|destruct (first =?s MemoryLimitConfigKey); [|destruct (first =?s SlowSearchIsolationKey); [|done]]];
    destruct (Unmarshal kv.2) as [a|]; try done; (split; [|intros ip; by apply cache_add_cfg]).
  - apply (routers_counted_cfg _ _ (ChRequest a)); [done|by apply (cache_add_cfg _ _ _ "")|apply SetRequestLimit_count].
  - apply (routers_counted_cfg _ _ (ChMemory a)); [done|by apply (cache_add_cfg _ _ _ "")|apply SetMemoryLimit_count].
  - by apply (routers_counted_cfg _ _ (ChSlow a)); [done|by apply (cache_add_cfg _ _ _ "")|].
Qed.

Lemma init_counted kvs s : routers_counted s -> NoDup (router_ips kvs) ->
  (forall ip, ip ∈ router_ips kvs -> routerCache s !! cacheRouterIpKey ip = None) -> routers_counted (foldl (init_router st SystemMemory) s kvs).
Proof.
  induction kvs as [|kv kvs IH] in s |- *; [done|]. intros Hs. unfold router_ips. cbn [omap list_omap foldl].
  destruct (1 <? Z.of_nat (length (routerSplit st kv.1))) eqn:Hlen; cbn [omap list_omap].
  - intros [Hni Hnd]%NoDup_cons Hfree. assert (routerCache s !! cacheRouterIpKey kv.2 = None) as Hnew by (apply Hfree; by left).
    unfold init_router at 2. rewrite Hlen. unfold cache_add. rewrite Hnew. apply IH; [by apply routers_counted_add|done|].
    intros ip Hip. cbn [routerCache]. rewrite lookup_insert_ne; [apply Hfree; by right|]. intros E%app_inj_string. apply Hni. by rewrite E.
  - intros Hnd Hfree. destruct (init_config_counted s kv Hlen Hs) as [H1 H2]. apply IH; [done|done|]. intros ip Hip. rewrite H2. by apply Hfree.
Qed.

Lemma watch_counted evs s : routers_counted s -> routers_counted (watch (router_put st SystemMemory) (router_delete st SystemMemory) s evs).
Proof. induction evs as [|ev evs IH] in s |- *; [done|]. intros Hs. by apply IH, router_event_counted. Qed.
End RouterCount.

(** After the routers' cache was loaded (from a store where the routers have
    distinct addresses) and whatever events it has seen since, the number of
    routers the limits are divided by is the number of routers in the cache, and
    the limiters have one router's share of the configured total. *)
Theorem routers_are_counted (st : Prefixes) (SystemMemory : Z) (HReq : Codec RequestLimitCfg) (HMem : Codec MemoryLimitCfg)
    (HSlow : Codec bool) (w : world) (evs : list event) :
  NoDup (router_ips st (scan (kv w) (PrefixRouter st))) ->
  exists w' s, initRouter st SystemMemory no_fault {| routerCache := ∅; config := initial_config |} w = (w', Ret s) /\
    let s' := watch (router_put st SystemMemory) (router_delete st SystemMemory) s evs in
    RouterCount (config s') = ip_entries (routerCache s') /\ limits_applied (config s').
Proof.
  intros Hnd. eexists _, _. split; [reflexivity|]. apply watch_counted. by apply init_counted.
Qed.

(** ** Concrete runs *)

Definition demo_st : Prefixes := SetPrefixAndSequence "c1" initial_prefixes.
Definition demo_hist : list (op (A := Alias)) := [OpPut (demo_alias "s1"); OpDel "old"; OpPut (demo_alias "s2")].

Lemma empty_stores {A} `{Codec A} prefix : stores prefix ∅ (∅ : gmap string A).
Proof. intros k v. split; [by intros [? _]|]. by intros (? & ? & _ & ? & _). Qed.

Lemma demo_hist_ok : Forall (op_ok (HA := countable_codec) Alias_Name) demo_hist.
Proof. repeat constructor; apply (bool_decide_unpack _); vm_compute; exact I. Qed.

Lemma alias_cache_tracks_store_witness :
  exists w' c0,
    initAlias (HAlias := countable_codec) no_fault demo_st
      {| kv := foldl (op_store (HA := countable_codec) Alias_Name (PrefixAlias demo_st)) ∅ (take 1 demo_hist); calls := 0 |} = (w', Ret c0) /\
    AliasByCache "al" (watch (alias_put (HAlias := countable_codec)) alias_delete c0
      (op_event (HA := countable_codec) Alias_Name (PrefixAlias demo_st) <$> drop 1 demo_hist)) = Ret (demo_alias "s2").
Proof.
  destruct (alias_cache_tracks_store "c1" countable_codec ∅ ∅ demo_hist 1 2 "al" (empty_stores _) ltac:(by intros ? ?)
    demo_hist_ok ltac:(lia)) as (w' & c0 & Hi & H).
  - right. by right; left.
  - exists w', c0. split; [exact Hi|]. vm_compute in Hi. injection Hi as <- <-. vm_compute. reflexivity.
Defined.

Definition other_alias : Alias := {| Alias_Name := "bl"; Alias_DbName := "ts_db"; Alias_SpaceName := "s3" |}.

Lemma alias_missed_in_gap_witness :
  is_ret (AliasByCache "al" (watch (alias_put (HAlias := countable_codec)) alias_delete ∅
    [op_event (HA := countable_codec) Alias_Name (PrefixAlias demo_st) (OpPut other_alias)])) = false.
Proof.
  destruct (alias_missed_in_gap "c1" countable_codec (demo_alias "s1") (OpPut other_alias) []) as (w' & c0 & Hi & H & _).
  - repeat constructor; apply (bool_decide_unpack _); vm_compute; exact I.
  - intros [E|[]%Exists_nil]%Exists_cons. discriminate E.
  - vm_compute in Hi. injection Hi as _ <-. exact H.
Defined.

(** The password of a cached user is changed; the router goes on with the old one. *)
Lemma account_updates_never_seen_witness :
  let users := {[ "ann"%string := demo_stored ]} in
  let ev := EvPut (UserKey demo_st "ann") (Marshal (Codec := countable_codec) (demo_user (Some "pw2"%string) None (Some "defaultSpaceAdmin"%string))) in
  let c := watch (user_put (HUser := countable_codec) demo_st) user_delete users [ev] in
  UserByCache (HUser := countable_codec) no_fault demo_st "ann" [] c empty_world = (empty_world, c, Ret demo_stored).
Proof.
  intros users ev c. refine (proj1 (account_updates_never_seen "c1" countable_codec countable_codec no_fault "ann" demo_stored
    (demo_role ∅) users ∅ [ev] [] [] empty_world _ _) _).
  - apply (bool_decide_unpack _). vm_compute. exact I.
  - by repeat constructor.
  - reflexivity.
Defined.

Definition demo_partition (id : Z) : Partition :=
  {| P_Id := id; P_Name := ""; P_SpaceId := 1; P_DBId := 1; P_Slot := 0; P_LeaderID := 1; P_Replicas := [1]; P_UpdateTime := 5;
     P_AddNum := 0; P_ResourceExhausted := false; P_Path := ""; P_status := PA_UNKNOW; P_ReStatusMap := ∅ |}.

Lemma partition_delete_exact_witness :
  let c := {[ cachePartitionKey "s" 5 := demo_partition 5; cachePartitionKey "s" 15 := demo_partition 15 ]} in
  exists c', partition_delete map_to_list (PartitionKey demo_st 5) c = Ret c' /\
    c' !! cachePartitionKey "s" 15 = Some (demo_partition 15) /\ c' ⊆ c.
Proof.
  intros c. destruct (partition_delete_exact "c1" map_to_list 5 c (reflexivity _)) as (c' & He & Hk & Hs & _).
  - intros k p [[<- <-]|[_ [<- <-]%lookup_singleton_Some]]%lookup_insert_Some; by exists "s"%string.
  - exists c'. split; [exact He|]. split; [|exact Hs]. apply Hk; [vm_compute; reflexivity|discriminate].
Defined.

Definition demo_routers : world :=
  {| kv := {[ RouterKey demo_st "vearch" "10.0.0.1" := "10.0.0.1"%string; RouterKey demo_st "vearch" "10.0.0.2" := "10.0.0.2"%string ]}; calls := 0 |}.

Lemma routers_are_counted_witness :
  exists w' s, initRouter (HReq := opaque_codec _) (HMem := opaque_codec _) (HSlow := countable_codec) demo_st 100 no_fault
      {| routerCache := ∅; config := initial_config |} demo_routers = (w', Ret s) /\
    let s' := watch (router_put (HReq := opaque_codec _) (HMem := opaque_codec _) (HSlow := countable_codec) demo_st 100)
                (router_delete demo_st 100) s [EvDelete (RouterKey demo_st "vearch" "10.0.0.2")] in
    RouterCount (config s') = 1 /\ ReadLimiter (config s') = share DefaultReadRequestLimitCount 1.
Proof.
  destruct (routers_are_counted demo_st 100 (opaque_codec _) (opaque_codec _) countable_codec demo_routers
    [EvDelete (RouterKey demo_st "vearch" "10.0.0.2")]) as (w' & s & Hi & Hc & Hl).
  - apply (bool_decide_unpack _). vm_compute. exact I.
  - exists w', s. split; [exact Hi|]. vm_compute in Hi. injection Hi as <- <-. cbv zeta. split; [rewrite Hc; vm_compute; reflexivity|].
    vm_compute. reflexivity.
Defined.
