(* ===== verification/Indexes.v ===== *)
(** * Indexes of a space (internal/master/services/space_service.go)

    Adding and removing an index: the change is checked against the space, sent to the
    leader of every partition and then written to the metadata store.  When a partition
    or the store fails, the opposite change is sent to every partition.

    The goroutines of a fan-out run in the order [sched] gives; the ones that
    are still running when the first error comes back are taken to run to their
    end before the caller goes on. *)

From S2P Require Import Prelude.
From S2P Require Import Text.
From S2P Require Import Errors.
From S2P Require Import Names.
From S2P Require Import Keys.
From S2P Require Import Schema.
From S2P Require Import Partition.
From S2P Require Import Space.
From S2P Require Import Placement.
From S2P Require Import Store.
From S2P Require Import Databases.
From S2P Require Import Cache.
From S2P Require Import Net.
Open Scope Z_scope.

(** ** Changes of a space *)

Definition set_S_Indexes (idxs : list Index) (s : Space) : Space :=
  put_S (S_Name s) (S_Version s) (S_Enabled s) (S_Partitions s) (S_PartitionNum s) (S_Fields s) idxs (S_PartitionRule s)
    (S_SpaceProperties s) (S_PartitionName s) (S_PartitionOperatorType s) s.
Definition set_S_Schema (fields : string) (props : gmap string SpaceProperties) (s : Space) : Space :=
  put_S (S_Name s) (S_Version s) (S_Enabled s) (S_Partitions s) (S_PartitionNum s) fields (S_Indexes s) (S_PartitionRule s)
    props (S_PartitionName s) (S_PartitionOperatorType s) s.

(** What [UpdateSpaceData] makes of a space before it writes it. *)
Definition next_version (s : Space) : Space :=
  put_S (S_Name s) (i64 (S_Version s + 1)) (S_Enabled s) (S_Partitions s)
    (match S_PartitionRule s with None => Z.of_nat (length (S_Partitions s)) | Some _ => S_PartitionNum s end)
    (S_Fields s) (S_Indexes s) (S_PartitionRule s) (S_SpaceProperties s) None None s.

Definition compositeFieldKey (fieldNames : list string) : string := String.concat (String (ascii_of_nat 0) EmptyString) fieldNames.

(** ** Checks of new indexes *)

(** The names in use, the fields with a single-field index, the keys of the
    composite indexes. *)
Record index_names : Type := { in_existing : gset string; in_fields : gset string; in_composite : gset string }.

Definition note_index (st : index_names) (idx : Index) : index_names :=
  if Index_Type idx =?s CompositeIndexType
  then {| in_existing := {[Index_Name idx]} ∪ in_existing st; in_fields := in_fields st;
          in_composite := {[compositeFieldKey (FieldNames idx)]} ∪ in_composite st |}
  else {| in_existing := {[Index_Name idx]} ∪ in_existing st; in_fields := {[FieldName idx]} ∪ in_fields st;
          in_composite := in_composite st |}.

Definition new_index_step (st : index_names) (idx : option Index) : go index_names :=
  match idx with
  | None => Fail (verr PARAM_ERROR "index entry cannot be nil")
  | Some idx =>
    check! guard_err (Index_Name idx =?s "") (verr PARAM_ERROR "index name cannot be empty") in
    check! guard_err (bool_decide (Index_Name idx ∈ in_existing st)) (verr PARAM_ERROR "index name %s already exists") in
    let st' := {| in_existing := {[Index_Name idx]} ∪ in_existing st; in_fields := in_fields st; in_composite := in_composite st |} in
    if Index_Type idx =?s CompositeIndexType then
      if (0 <? length (FieldNames idx))%nat then
        let key := compositeFieldKey (FieldNames idx) in
        check! guard_err (bool_decide (key ∈ in_composite st))
          (verr PARAM_ERROR "fields%v are already indexed by composite index [%s], cannot add another composite index on the same fields") in
        Ret {| in_existing := in_existing st'; in_fields := in_fields st; in_composite := {[key]} ∪ in_composite st |}
      else Ret st'
    else if negb (FieldName idx =?s "") then
      check! guard_err (bool_decide (FieldName idx ∈ in_fields st))
        (verr PARAM_ERROR "field[%s] is already indexed by [%s], cannot add another single-field index") in
      Ret {| in_existing := in_existing st'; in_fields := {[FieldName idx]} ∪ in_fields st; in_composite := in_composite st |}
    else Ret st'
  end.

Definition no_names : index_names := {| in_existing := ∅; in_fields := ∅; in_composite := ∅ |}.
Definition known_names (idxs : list Index) : index_names := foldl note_index no_names idxs.

(** ** Inline definitions *)

Definition inlineIndexMatches (inline : option Index) (removed : Index) : bool :=
  match inline with
  | None => false
  | Some ix =>
    if negb (Index_Name ix =?s "") && negb (Index_Name removed =?s "") then Index_Name ix =?s Index_Name removed
    else Index_Type ix =?s Index_Type removed
  end.

Definition clear_field (removed : Index) (f : Field) : Field :=
  if (F_Name f =?s FieldName removed) && inlineIndexMatches (F_Index f) removed
  then {| F_Name := F_Name f; F_Type := F_Type f; F_Dimension := F_Dimension f; F_StoreType := F_StoreType f;
          F_Format := F_Format f; F_Index := None; F_StoreParam := F_StoreParam f |}
  else f.

(** [prop.Index = nil; prop.Option = FieldOption_Null] *)
Definition clear_prop (p : SpaceProperties) : SpaceProperties :=
  {| SP_FieldType := SP_FieldType p; SP_Type := SP_Type p; SP_Index := None; SP_Format := SP_Format p; SP_Dimension := SP_Dimension p;
     SP_StoreType := SP_StoreType p; SP_StoreParam := SP_StoreParam p; SP_Option := FO_Null |}.

Section Service.
Context (fault : nat -> option (error * bool)) (answer : nat -> message -> go unit) (live : string -> bool)
  (sched : list Partition -> list Partition) (st : Prefixes) (ToInt64E : string -> option Z).
Context (unmarshal_fields : string -> go (list Field)) (marshal_fields : list Field -> string).
Context `{HSpace : !Codec Space, HPartition : !Codec Partition, HServer : !Codec Server}.

Definition clearFieldInlineIndex (fields : string) (removed : Index) : string :=
  if fields =?s "" then fields
  else match unmarshal_fields fields with
       | Ret parsed =>
         if existsb (fun f => (F_Name f =?s FieldName removed) && inlineIndexMatches (F_Index f) removed) parsed
         then marshal_fields (clear_field removed <$> parsed) else fields
       | _ => fields
       end.

Definition UpdateSpaceData (space : Space) : M Space :=
  let space' := next_version space in
  do_! Put fault (SpaceKey st (S_DBId space') (S_Id space')) (Marshal space') in mret (Ret space').

(** The lookups of [loadLockedSpace], under its lock. *)
Definition load_space (dbName spaceName : string) : M Space :=
  do! databaseID <- as_param "failed to find database id for %s: %v" (QueryDBName2ID fault st ToInt64E dbName) in
  as_param "failed to find space %s: %v" (QuerySpaceByName fault st databaseID spaceName).
Definition loadLockedSpace {A} (dbName spaceName : string) (k : Space -> N A) : N A :=
  nwith_lock fault (bind! space <- lift (load_space dbName spaceName) in k space).

(** The address of the leader of a partition, if it answers. *)
Definition leader_of (p : Partition) : M string :=
  do! partitionInfo <- QueryPartition fault st (P_Id p) in
  do! server <- QueryServer fault st (P_LeaderID partitionInfo) in
  mret (if live (RpcAddr server) then Ret (RpcAddr server) else Fail (verr PARTITION_IS_CLOSED "partition %s is shutdown")).

Definition notifyPartitionsIndexChange (space : Space) (ic : IndexChange) : N unit :=
  fan_out (fun p => bind! addr <- lift (leader_of p) in send answer (PartitionIndexChange addr (P_Id p) ic)) (sched (S_Partitions space)).

Definition compensateIndexChange (space : Space) (reverse : IndexChange) : N unit :=
  bind_! nattempt (notifyPartitionsIndexChange space reverse) in nret (Ret tt).

(** Run [undo] if [m] returns an error, which is returned all the same. *)
Definition compensated {A} (m : N A) (undo : N unit) : N A := fun n =>
  match m n with
  | (n', Fail e) => match undo n' with (n'', Panic p) => (n'', Panic p) | (n'', _) => (n'', Fail e) end
  | x => x
  end.

Definition AddIndexes (dbName spaceName : string) (newIndexes : list (option Index)) : N Space :=
  if (length newIndexes =? 0)%nat then nret (Fail (verr PARAM_ERROR "indexes cannot be empty"))
  else
    loadLockedSpace dbName spaceName (fun space =>
      bind_! nret (ofold new_index_step (known_names (S_Indexes space)) newIndexes) in
      bind! props <- nret (UnmarshalPropertyJSON unmarshal_fields (S_Fields space)) in
      bind_! nret (ValidateIndexes (map Some (S_Indexes space) ++ newIndexes) props) in
      let added := omap id newIndexes in
      let space' := set_S_Indexes (S_Indexes space ++ added) space in
      let compensateAdd := nfold (fun _ idx => compensateIndexChange space (RemoveIndexNamed (Index_Name idx))) tt
                             (List.filter (fun idx => negb (Index_Name idx =?s "")) added) in
      compensated
        (bind_! notifyPartitionsIndexChange space' (AddIndex added) in lift (UpdateSpaceData space'))
        compensateAdd).

(** [space.Indexes] without the element at [found]. *)
Definition remove_at {A} (l : list A) (found : nat) : list A := take found l ++ drop (S found) l.

Definition RemoveIndex (dbName spaceName indexName : string) : N Space :=
  if indexName =?s "" then nret (Fail (verr PARAM_ERROR "index name cannot be empty"))
  else
    loadLockedSpace dbName spaceName (fun space =>
      match list_find (fun idx => Index_Name idx = indexName) (S_Indexes space) with
      | None => nret (Fail (verr PARAM_ERROR "index %s not found in space %s"))
      | Some (found, removedIndex) =>
        let space1 := set_S_Indexes (remove_at (S_Indexes space) found) space in
        let space2 :=
          if negb (Index_Type removedIndex =?s CompositeIndexType) && negb (FieldName removedIndex =?s "")
          then set_S_Schema (clearFieldInlineIndex (S_Fields space) removedIndex)
                 (match S_SpaceProperties space !! FieldName removedIndex with
                  | Some prop => if inlineIndexMatches (SP_Index prop) removedIndex
                                 then <[FieldName removedIndex := clear_prop prop]> (S_SpaceProperties space) else S_SpaceProperties space
                  | None => S_SpaceProperties space
                  end) space1
          else space1 in
        compensated
          (bind_! notifyPartitionsIndexChange space2 (RemoveIndexNamed indexName) in lift (UpdateSpaceData space2))
          (compensateIndexChange space (AddIndex [removedIndex]))
      end).

Definition ListIndexes (dbName spaceName : string) : M (list Index) :=
  do! space <- load_space dbName spaceName in mret (Ret (S_Indexes space)).
End Service.

(** ** What the lookups find *)

Section Proofs.
Context (fault : nat -> option (error * bool)) (answer : nat -> message -> go unit) (live : string -> bool)
  (sched : list Partition -> list Partition) (st : Prefixes) (ToInt64E : string -> option Z).
Context (unmarshal_fields : string -> go (list Field)) (marshal_fields : list Field -> string).
Context `{HSpace : !Codec Space, HPartition : !Codec Partition, HServer : !Codec Server}.

(** The space of that name, as the store has it. *)
Definition stored_space (t : table) (dbName spaceName : string) (s : Space) : Prop :=
  exists v dbID, t !! DBKeyName st dbName = Some v /\ ToInt64E v = Some dbID /\
    List.find (fun s => S_Name s =?s spaceName) (decode_all (scan t (PrefixSpace st +:+ pretty dbID +:+ "/"))) = Some s.

(** The address of the leader of a partition, as the store has it. *)
Definition leader_addr (t : table) (pid : Z) : option string :=
  info ← (t !! PartitionKey st pid ≫= Unmarshal (A := Partition));
  server ← (t !! ServerKey st (P_LeaderID info) ≫= Unmarshal (A := Server));
  Some (RpcAddr server).

(** A computation that reads, with what a success tells about the store. *)
Definition tells {A} (t0 : table) (m : M A) (Q : A -> Prop) : Prop :=
  triple (fun t => t = t0) m (fun r t => t = t0 /\ match r with Ret a => Q a | Fail _ => True | Panic _ => False end).

Lemma tells_bind {A B} t0 (m : M A) (k : A -> M B) Q R :
  tells t0 m Q -> (forall a, Q a -> tells t0 (k a) R) -> tells t0 (mbind_M m k) R.
Proof.
  intros Hm Hk. eapply triple_bind; [exact Hm|..].
  - intros a w [Hw Ha]. by apply (Hk a Ha).
  - done.
  - by intros p t [_ []].
Qed.

Lemma tells_ret {A} t0 (r : go A) (Q : A -> Prop) : match r with Ret a => Q a | Fail _ => True | Panic _ => False end -> tells t0 (mret r) Q.
Proof. intros H w Hw. by split. Qed.

Lemma tells_get t0 k : tells t0 (Get fault k) (fun o => o = t0 !! k).
Proof. apply triple_read; [by intros t ->|by intros t e ->]. Qed.

Lemma tells_conseq {A} t0 (m : M A) (Q R : A -> Prop) : tells t0 m Q -> (forall a, Q a -> R a) -> tells t0 m R.
Proof. intros H HQ w Hw. destruct (H w Hw) as [? H']. split; [done|]. destruct (m w).2; auto. Qed.

Lemma tells_as_param {A} t0 msg (m : M A) Q : tells t0 m Q -> tells t0 (as_param msg m) Q.
Proof. intros H w Hw. specialize (H w Hw). unfold as_param. by destruct (m w) as [w' [?|?|?]]. Qed.

Lemma tells_QueryDBName2ID t0 name :
  tells t0 (QueryDBName2ID fault st ToInt64E name) (fun id => exists v, t0 !! DBKeyName st name = Some v /\ ToInt64E v = Some id).
Proof.
  eapply tells_bind; [apply tells_get|]. intros o ->.
  destruct (t0 !! DBKeyName st name) as [v|]; [|by apply tells_ret]. destruct (ToInt64E v) eqn:E; apply tells_ret; [by exists v|done].
Qed.

Lemma tells_QuerySpaceByName t0 dbID name :
  tells t0 (QuerySpaceByName fault st dbID name)
    (fun s => List.find (fun s => S_Name s =?s name) (decode_all (scan t0 (PrefixSpace st +:+ pretty dbID +:+ "/"))) = Some s).
Proof.
  unfold QuerySpaceByName. apply (tells_bind t0 _ _ (fun l => l = decode_all (scan t0 (PrefixSpace st +:+ pretty dbID +:+ "/")))).
  - unfold QuerySpaces, QuerySpacesByKey.
    apply (tells_bind t0 _ _ (fun l => l = scan t0 (PrefixSpace st +:+ pretty dbID +:+ "/"))); [|by intros ? ->; apply tells_ret].
    apply triple_read; [by intros t ->|by intros t e ->].
  - intros l ->. destruct (List.find _ _) eqn:E; by apply tells_ret.
Qed.

Lemma tells_load_space t0 dbName spaceName : tells t0 (load_space fault st ToInt64E dbName spaceName) (stored_space t0 dbName spaceName).
Proof.
  eapply tells_bind; [apply tells_as_param, tells_QueryDBName2ID|]. intros id (v & Hv & Hid). apply tells_as_param.
  eapply tells_conseq; [apply tells_QuerySpaceByName|]. intros s Hs. by exists v, id.
Qed.

Lemma tells_QueryPartition t0 pid :
  tells t0 (QueryPartition fault st pid) (fun p => t0 !! PartitionKey st pid ≫= Unmarshal = Some p).
Proof.
  eapply tells_bind; [apply tells_get|]. intros o ->. apply tells_ret. unfold Accounts.decode_object.
  destruct (t0 !! PartitionKey st pid) as [v|]; [|done]. simpl. by destruct (Unmarshal v) eqn:E.
Qed.

Lemma tells_QueryServer t0 id :
  tells t0 (QueryServer fault st id) (fun s => t0 !! ServerKey st id ≫= Unmarshal = Some s).
Proof.
  eapply tells_bind; [apply tells_get|]. intros o ->. apply tells_ret. unfold Accounts.decode_object.
  destruct (t0 !! ServerKey st id) as [v|]; [|done]. simpl. by destruct (Unmarshal v) eqn:E.
Qed.

Lemma tells_leader_of t0 p : tells t0 (leader_of fault live st p) (fun a => leader_addr t0 (P_Id p) = Some a /\ live a = true).
Proof.
  eapply tells_bind; [apply tells_QueryPartition|]. intros info Hi. eapply tells_bind; [apply tells_QueryServer|]. intros s Hs.
  apply tells_ret. destruct (live (RpcAddr s)) eqn:E; [|done]. split; [|done]. unfold leader_addr. rewrite Hi. simpl. by rewrite Hs.
Qed.

(** One message to the leader of the partition, answered well. *)
Definition told (t0 : table) (msg : string -> Z -> message) (p : Partition) (l : log) : Prop :=
  exists addr, leader_addr t0 (P_Id p) = Some addr /\ live addr = true /\ l = [(msg addr (P_Id p), Ret tt)].

Lemma notify_one_spec t0 (msg : string -> Z -> message) p l0 :
  ntriple (fun t l => t = t0 /\ l = l0) (bind! addr <- lift (leader_of fault live st p) in send answer (msg addr (P_Id p)))
    (fun r t l => t = t0 /\ exists l', l = l0 ++ l' /\ (r = Ret tt -> told t0 msg p l')).
Proof.
  apply (ntriple_bind _ _ _ (fun r t l => t = t0 /\ l = l0 /\
    match r with Ret a => leader_addr t0 (P_Id p) = Some a /\ live a = true | Fail _ => True | Panic _ => False end)).
  - apply ntriple_lift. intros l w [Hw ->]. destruct (tells_leader_of t0 p w Hw) as [? ?]. auto.
  - intros a. apply ntriple_send. intros t l (-> & -> & Ha & Hv). split; [done|]. eexists. split; [done|]. intros ->. by exists a.
  - intros e t l (-> & -> & _). split; [done|]. exists []. by rewrite app_nil_r.
  - by intros p' t l (_ & _ & []).
Qed.

Lemma notify_spec t0 (msg : string -> Z -> message) ps l0 :
  ntriple (fun t l => t = t0 /\ l = l0) (fan_out (fun p => bind! addr <- lift (leader_of fault live st p) in send answer (msg addr (P_Id p))) ps)
    (fun r t l => t = t0 /\ exists ls, l = l0 ++ concat ls /\ (r = Ret tt -> Forall2 (told t0 msg) ps ls)).
Proof. apply fan_out_spec. intros x l1. apply notify_one_spec. Qed.

(** ** Changing the indexes of a space *)

(** What a change of the index list leaves behind: on success the new space is
    stored and the leader of every partition has accepted the change; on an error
    the store is as it was, or has the new space because the answer of the write
    was lost. *)
Definition changed (t0 : table) (l0 : log) (space' : Space) (ic : IndexChange) (r : go Space) (t : table) (l : log) : Prop :=
  let stored := <[SpaceKey st (S_DBId space') (S_Id space') := Marshal (next_version space')]> t0 in
  match r with
  | Ret s => s = next_version space' /\ t = stored /\
      exists ls, l = l0 ++ concat ls /\ Forall2 (told t0 (fun a pid => PartitionIndexChange a pid ic)) (sched (S_Partitions space')) ls
  | _ => t = t0 \/ t = stored
  end.

(** A computation that does not change the store. *)
Definition keeps_store {A} (m : N A) : Prop := forall n, kv (nw (m n).1) = kv (nw n).

Lemma keeps_notify space ic : keeps_store (notifyPartitionsIndexChange fault answer live sched st space ic).
Proof. intros n. by destruct (notify_spec (kv (nw n)) (fun a pid => PartitionIndexChange a pid ic) (sched (S_Partitions space)) (sent n) n) as [? _]. Qed.

Lemma keeps_compensate space ic : keeps_store (compensateIndexChange fault answer live sched st space ic).
Proof.
  intros n. unfold compensateIndexChange, nbind, nattempt. pose proof (keeps_notify space ic n) as H.
  by destruct (notifyPartitionsIndexChange _ _ _ _ _ _ _ n) as [n' [?|?|?]].
Qed.

Lemma keeps_nfold {A} (f : unit -> A -> N unit) xs : (forall b x, keeps_store (f b x)) -> keeps_store (nfold f tt xs).
Proof.
  intros Hf. cut (forall b, keeps_store (nfold f b xs)); [done|]. induction xs as [|x xs IH]; intros b n; [done|].
  cbn [nfold]. unfold nbind. specialize (Hf b x n). destruct (f b x n) as [n' [b'|?|?]]; cbn [fst snd] in *; [|done..].
  by rewrite (IH b' n').
Qed.

Lemma change_spec t0 l0 space' ic (undo : N unit) : keeps_store undo ->
  ntriple (fun t l => t = t0 /\ l = l0)
    (compensated (bind_! notifyPartitionsIndexChange fault answer live sched st space' ic in lift (UpdateSpaceData fault st space')) undo)
    (changed t0 l0 space' ic).
Proof.
  intros Hundo.
  assert (ntriple (fun t l => t = t0 /\ l = l0)
    (bind_! notifyPartitionsIndexChange fault answer live sched st space' ic in lift (UpdateSpaceData fault st space')) (changed t0 l0 space' ic)) as H.
  { eapply ntriple_bind; [apply (notify_spec t0 (fun a pid => PartitionIndexChange a pid ic) (sched (S_Partitions space')) l0)| | |].
    - intros []. apply ntriple_lift. intros l. apply (triple_bind _ _ _ (fun r t =>
        match r with Ret _ => t = <[SpaceKey st (S_DBId space') (S_Id space') := Marshal (next_version space')]> t0
        | _ => t = t0 \/ t = <[SpaceKey st (S_DBId space') (S_Id space') := Marshal (next_version space')]> t0 end /\
        exists ls, l = l0 ++ concat ls /\ Forall2 (told t0 (fun a pid => PartitionIndexChange a pid ic)) (sched (S_Partitions space')) ls)).
      + apply triple_call.
        * intros t (-> & ls & -> & Hls). split; [done|]. exists ls. auto.
        * intros t e (-> & ls & -> & Hls). split; (split; [auto|]); exists ls; auto.
      + intros []. apply triple_ret. intros t (-> & Hls). done.
      + by intros e t [? _].
      + by intros p t [? _].
    - intros e t l [-> _]. by left.
    - intros p t l [-> _]. by left. }
  intros n Hn. specialize (H n Hn). unfold compensated.
  destruct ((bind_! _ in _) n) as [n' [s|e|p]]; cbn [fst snd] in *; [done| |done].
  pose proof (Hundo n') as Hu. destruct (undo n') as [n'' [?|?|?]]; cbn [fst snd] in *; by rewrite Hu.
Qed.

(** ** The checks *)

Lemma NoDup_snoc {A} (l : list A) x : NoDup l -> x ∉ l -> NoDup (l ++ [x]).
Proof.
  intros Hl Hx. apply NoDup_app. split; [done|]. split; [|apply NoDup_singleton].
  intros y Hy ->%list_elem_of_singleton. done.
Qed.

Definition is_composite (idx : Index) : Prop := Index_Type idx = CompositeIndexType.
Definition single_fields (l : list Index) : list string := FieldName <$> filter (fun i => ~ is_composite i) l.
Definition composite_keys (l : list Index) : list string := (fun i => compositeFieldKey (FieldNames i)) <$> filter is_composite l.

(** No field has two single-field indexes, no list of fields two composite ones. *)
Definition distinct_fields (l : list Index) : Prop := NoDup (single_fields l) /\ NoDup (composite_keys l).

Lemma single_fields_snoc l i : single_fields (l ++ [i]) = single_fields l ++ (if decide (is_composite i) then [] else [FieldName i]).
Proof. unfold single_fields. rewrite filter_app, fmap_app. f_equal. rewrite filter_cons. by repeat case_decide. Qed.
Lemma composite_keys_snoc l i :
  composite_keys (l ++ [i]) = composite_keys l ++ (if decide (is_composite i) then [compositeFieldKey (FieldNames i)] else []).
Proof. unfold composite_keys. rewrite filter_app, fmap_app. f_equal. rewrite filter_cons. by repeat case_decide. Qed.

Lemma known_names_snoc l i : known_names (l ++ [i]) = note_index (known_names l) i.
Proof. unfold known_names. by rewrite foldl_snoc. Qed.

Lemma known_names_fields l :
  (forall f, f ∈ in_fields (known_names l) <-> f ∈ single_fields l) /\ (forall k, k ∈ in_composite (known_names l) <-> k ∈ composite_keys l).
Proof.
  induction l as [|i l [IH1 IH2]] using rev_ind.
  - split; intros x; (split; [by intros ?%not_elem_of_empty|by intros ?%elem_of_nil]).
  - rewrite known_names_snoc, single_fields_snoc, composite_keys_snoc. unfold note_index, is_composite.
    destruct (Index_Type i =?s CompositeIndexType) eqn:E.
    + apply string_eqb_eq in E. rewrite !decide_True by done. cbn [in_fields in_composite]. split; intros x.
      * by rewrite app_nil_r.
      * rewrite elem_of_union, elem_of_singleton, elem_of_app, list_elem_of_singleton, IH2. tauto.
    + apply string_eqb_neq in E. rewrite !decide_False by done. cbn [in_fields in_composite]. split; intros x.
      * rewrite elem_of_union, elem_of_singleton, elem_of_app, list_elem_of_singleton, IH1. tauto.
      * by rewrite app_nil_r.
Qed.

(** An index that names its fields passes only if it is new, and is then noted. *)
Lemma new_index_step_ret ns idx ns' :
  (if decide (is_composite idx) then FieldNames idx <> [] else FieldName idx <> ""%string) -> new_index_step ns (Some idx) = Ret ns' ->
  ns' = note_index ns idx /\
  (if decide (is_composite idx) then compositeFieldKey (FieldNames idx) ∉ in_composite ns else FieldName idx ∉ in_fields ns).
Proof.
  unfold new_index_step, note_index, is_composite. intros Hf H. inv_ret. destruct (Index_Type idx =?s CompositeIndexType) eqn:E.
  - apply string_eqb_eq in E. rewrite decide_True in * by done. destruct (FieldNames idx) as [|f fs]; [done|].
    change (0 <? length (f :: fs))%nat with true in H. cbv iota in H. inv_ret. subst. apply guard_err_ret in Hm1.
    apply bool_decide_eq_false in Hm1. done.
  - apply string_eqb_neq in E. rewrite decide_False in * by done. apply string_eqb_neq in Hf. rewrite Hf in H. cbn [negb] in H. inv_ret.
    subst. apply guard_err_ret in Hm1. apply bool_decide_eq_false in Hm1. done.
Qed.

Lemma new_indexes_distinct (news pre : list Index) ns : distinct_fields pre ->
  Forall (fun idx => if decide (is_composite idx) then FieldNames idx <> [] else FieldName idx <> ""%string) news ->
  ofold new_index_step (known_names pre) (Some <$> news) = Ret ns -> distinct_fields (pre ++ news).
Proof.
  induction news as [|idx news IH] in pre |- *; intros Hpre Hall H; [by rewrite app_nil_r|].
  apply Forall_cons in Hall as [Hidx Hall]. rewrite fmap_cons in H. cbn [ofold] in H. inv_ret.
  apply new_index_step_ret in Hm as [-> Hfresh]; [|done]. rewrite <- known_names_snoc in H.
  change (idx :: news) with ([idx] ++ news). rewrite app_assoc. apply IH; [|done|done].
  destruct (known_names_fields pre) as [Hs Hc], Hpre as [Hp1 Hp2]. unfold distinct_fields. rewrite single_fields_snoc, composite_keys_snoc.
  destruct (decide (is_composite idx)); rewrite ?app_nil_r, ?Hs, ?Hc in *; (split; [done || by apply NoDup_snoc|done || by apply NoDup_snoc]).
Qed.

Lemma index_ok_named props idx : index_ok props idx ->
  if decide (is_composite idx) then FieldNames idx <> [] else FieldName idx <> ""%string.
Proof.
  unfold index_ok, is_composite. destruct (decide (Index_Type idx = CompositeIndexType)); [|tauto]. intros (_ & H & _) E. rewrite E in H. simpl in H. lia.
Qed.

(** The new entries are all there. *)
Lemma new_indexes_present ns newIndexes ns' : ofold new_index_step ns newIndexes = Ret ns' -> newIndexes = Some <$> omap id newIndexes.
Proof.
  induction newIndexes as [|[idx|] news IH] in ns |- *; cbn [ofold]; intros H; [done| |discriminate H].
  inv_ret. apply IH in H. cbn [omap list_omap id]. by rewrite fmap_cons, <- H.
Qed.

Definition AddIndexes_post (t0 : table) (l0 : log) (dbName spaceName : string) (newIndexes : list (option Index))
    (r : go Space) (t : table) (l : log) : Prop :=
  match r with
  | Ret s => exists old idxs props, newIndexes = Some <$> idxs /\ idxs <> [] /\ stored_space t0 dbName spaceName old /\
      UnmarshalPropertyJSON unmarshal_fields (S_Fields old) = Ret props /\ indexes_ok (Some <$> S_Indexes s) props /\
      S_Indexes s = S_Indexes old ++ idxs /\ (distinct_fields (S_Indexes old) -> distinct_fields (S_Indexes s)) /\
      changed t0 l0 (set_S_Indexes (S_Indexes old ++ idxs) old) (AddIndex idxs) r t l
  | _ => t = t0 \/ exists old idxs, stored_space t0 dbName spaceName old /\
      t = <[SpaceKey st (S_DBId old) (S_Id old) := Marshal (next_version (set_S_Indexes (S_Indexes old ++ idxs) old))]> t0
  end.

(** The computation ends here: nothing was stored. *)
Lemma ntriple_stop {A B} t0 l0 (g : go A) (k : A -> N B) (Q : go B -> table -> log -> Prop) :
  (forall a, g = Ret a -> ntriple (fun t l => t = t0 /\ l = l0) (k a) Q) ->
  (forall e, Q (Fail e) t0 l0) -> (forall p, Q (Panic p) t0 l0) -> ntriple (fun t l => t = t0 /\ l = l0) (nbind (nret g) k) Q.
Proof.
  intros Hk He Hp n [Ht Hl]. unfold nbind, nret. destruct g as [a|e|p]; [by apply (Hk a eq_refl)|..]; cbn [fst snd]; rewrite Ht, Hl; auto.
Qed.

Lemma loadLocked_spec {A} t0 l0 dbName spaceName (k : Space -> N A) (Q : go A -> table -> log -> Prop) :
  (forall s, stored_space t0 dbName spaceName s -> ntriple (fun t l => t = t0 /\ l = l0) (k s) Q) -> (forall e, Q (Fail e) t0 l0) ->
  ntriple (fun t l => t = t0 /\ l = l0) (loadLockedSpace fault st ToInt64E dbName spaceName k) Q.
Proof.
  intros Hk He. apply ntriple_with_lock; [|by intros e t l [-> ->]].
  apply (ntriple_bind _ _ _ (fun r t l => t = t0 /\ l = l0 /\
    match r with Ret s => stored_space t0 dbName spaceName s | Fail _ => True | Panic _ => False end)).
  - apply ntriple_lift. intros l w [Hw ->]. destruct (tells_load_space t0 dbName spaceName w Hw) as [? ?]. auto.
  - intros s n (Ht & Hl & Hs). by apply (Hk s Hs).
  - by intros e t l (-> & -> & _).
  - by intros p t l (_ & _ & []).
Qed.

Lemma AddIndexes_spec t0 l0 dbName spaceName newIndexes :
  ntriple (fun t l => t = t0 /\ l = l0)
    (AddIndexes fault answer live sched st ToInt64E unmarshal_fields dbName spaceName newIndexes)
    (AddIndexes_post t0 l0 dbName spaceName newIndexes).
Proof.
  unfold AddIndexes. destruct newIndexes as [|new newIndexes0]; [by (intros n [Ht Hl]; left)|]. set (newIndexes := new :: newIndexes0) in *.
  change (length newIndexes =? 0)%nat with false. cbv iota. apply loadLocked_spec; [|by left]. intros old Hold.
  apply ntriple_stop; [|by left..]. intros ns Hns. apply ntriple_stop; [|by left..]. intros props Hprops.
  apply ntriple_stop; [|by left..]. intros [] Hvalid. pose proof (new_indexes_present _ _ _ Hns) as Hnew.
  set (idxs := omap id newIndexes) in *. apply ValidateIndexes_ret in Hvalid.
  replace (map Some (S_Indexes old) ++ newIndexes) with (Some <$> (S_Indexes old ++ idxs)) in Hvalid by (by rewrite fmap_app, <- Hnew).
  eapply ntriple_conseq; [apply (change_spec t0 l0 (set_S_Indexes (S_Indexes old ++ idxs) old) (AddIndex idxs))|done|].
  - apply keeps_nfold. intros _ idx. apply keeps_compensate.
  - intros r t l Hc. destruct r as [s|e|p]; [|destruct Hc as [->| ->]; [by left|right; by exists old, idxs]..].
    exists old, idxs, props. assert (S_Indexes s = S_Indexes old ++ idxs) as Hs by by destruct Hc as [-> _].
    rewrite Hs. split_and!; [done| |done..| |done].
    + intros E. rewrite E in Hnew. discriminate Hnew.
    + intros Hd. apply (new_indexes_distinct idxs _ ns); [done| |by rewrite <- Hnew].
      destruct Hvalid as [Hall _]. rewrite fmap_app in Hall. apply Forall_app in Hall as [_ Hall].
      rewrite Forall_forall in Hall. apply Forall_forall. intros idx Hi.
      destruct (Hall (Some idx)) as (ix & [= <-] & _ & Hok); [by apply list_elem_of_fmap_2|]. by eapply index_ok_named.
Qed.

(** ** Removing *)

(** No inline definition of the index is left on its field. *)
Definition not_inline (fields : string) (idx : Index) : Prop :=
  forall parsed, unmarshal_fields fields = Ret parsed ->
    Forall (fun f => F_Name f = FieldName idx -> inlineIndexMatches (F_Index f) idx = false) parsed.

Lemma clear_field_clears idx f : F_Name (clear_field idx f) = FieldName idx -> inlineIndexMatches (F_Index (clear_field idx f)) idx = false.
Proof.
  unfold clear_field. destruct ((F_Name f =?s FieldName idx) && inlineIndexMatches (F_Index f) idx) eqn:E; [done|].
  intros Hn. apply string_eqb_eq in Hn. by rewrite Hn in E.
Qed.

Lemma clearFieldInlineIndex_clears (Hround : forall fs, unmarshal_fields (marshal_fields fs) = Ret fs) fields idx :
  not_inline (clearFieldInlineIndex unmarshal_fields marshal_fields fields idx) idx \/ fields = ""%string.
Proof.
  unfold clearFieldInlineIndex. destruct (fields =?s "") eqn:E0; [right; by apply string_eqb_eq|left].
  destruct (unmarshal_fields fields) as [parsed|e|p] eqn:Ep; intros fs Hfs; rewrite ?Ep in Hfs; try discriminate Hfs.
  destruct (existsb _ parsed) eqn:E.
  - rewrite Hround in Hfs. injection Hfs as <-. apply Forall_fmap, Forall_true. exact (clear_field_clears idx).
  - rewrite Ep in Hfs. injection Hfs as <-. apply Forall_forall. intros f Hf Hn. apply string_eqb_eq in Hn.
    destruct (inlineIndexMatches (F_Index f) idx) eqn:Ei; [|done]. assert (existsb (fun f => (F_Name f =?s FieldName idx) && inlineIndexMatches (F_Index f) idx) parsed = true) as H;
      [|congruence]. apply existsb_exists. exists f. rewrite Hn, Ei. split; [by apply list_elem_of_In|done].
Qed.

Definition RemoveIndex_post (t0 : table) (l0 : log) (dbName spaceName indexName : string) (r : go Space) (t : table) (l : log) : Prop :=
  match r with
  | Ret s => exists old i idx, stored_space t0 dbName spaceName old /\ S_Indexes old !! i = Some idx /\ Index_Name idx = indexName /\
      S_Indexes s = remove_at (S_Indexes old) i /\
      (Index_Type idx <> CompositeIndexType -> FieldName idx <> ""%string -> S_Fields old <> ""%string ->
         not_inline (S_Fields s) idx /\
         forall p, S_SpaceProperties s !! FieldName idx = Some p -> inlineIndexMatches (SP_Index p) idx = false) /\
      exists space', S_Partitions space' = S_Partitions old /\ S_Name space' = S_Name old /\ S_Version space' = S_Version old /\
        S_Enabled space' = S_Enabled old /\ S_PartitionRule space' = S_PartitionRule old /\ S_Id space' = S_Id old /\ S_DBId space' = S_DBId old /\
        changed t0 l0 space' (RemoveIndexNamed indexName) r t l
  | _ => t = t0 \/ exists old (s' : Space), stored_space t0 dbName spaceName old /\ t = <[SpaceKey st (S_DBId old) (S_Id old) := Marshal s']> t0
  end.

Lemma RemoveIndex_spec (Hround : forall fs, unmarshal_fields (marshal_fields fs) = Ret fs) t0 l0 dbName spaceName indexName :
  ntriple (fun t l => t = t0 /\ l = l0)
    (RemoveIndex fault answer live sched st ToInt64E unmarshal_fields marshal_fields dbName spaceName indexName)
    (RemoveIndex_post t0 l0 dbName spaceName indexName).
Proof.
  unfold RemoveIndex. destruct (indexName =?s ""); [by (intros n [Ht Hl]; left)|]. apply loadLocked_spec; [|by left]. intros old Hold.
  destruct (list_find _ (S_Indexes old)) as [[i idx]|] eqn:Ef; [|by (intros n [Ht Hl]; left)].
  apply list_find_Some in Ef as (Hi & Hname & _). set (space1 := set_S_Indexes (remove_at (S_Indexes old) i) old).
  match goal with |- ntriple _ (compensated (bind_! notifyPartitionsIndexChange _ _ _ _ _ ?s2 _ in _) _) _ => set (space2 := s2) end.
  assert (S_Partitions space2 = S_Partitions old /\ S_Name space2 = S_Name old /\ S_Version space2 = S_Version old /\
          S_Enabled space2 = S_Enabled old /\ S_PartitionRule space2 = S_PartitionRule old /\ S_Id space2 = S_Id old /\ S_DBId space2 = S_DBId old /\
          S_Indexes space2 = remove_at (S_Indexes old) i) as (H1 & H2 & H3 & H4 & H5 & H6 & H7 & H8).
  { unfold space2. by destruct (negb _ && negb _). }
  eapply ntriple_conseq; [apply (change_spec t0 l0 space2 (RemoveIndexNamed indexName)), keeps_compensate|done|].
  intros r t l Hc. destruct r as [s|e|p].
  2,3: destruct Hc as [->| ->]; [by left|right; exists old, (next_version space2); by rewrite H6, H7].
  exists old, i, idx. split; [done|]. split; [done|]. split; [done|]. split; [destruct Hc as [-> _]; exact H8|]. split.
  - intros Hnc Hfn Hfs. destruct Hc as [-> _]. apply string_eqb_neq in Hnc, Hfn. cbn [S_Fields S_SpaceProperties next_version put_S].
    unfold space2. rewrite Hnc, Hfn. cbn [negb andb S_Fields S_SpaceProperties set_S_Schema put_S]. split.
    + destruct (clearFieldInlineIndex_clears Hround (S_Fields old) idx); done.
    + intros p. destruct (S_SpaceProperties old !! FieldName idx) as [prop|] eqn:Ep; [|congruence].
      destruct (inlineIndexMatches (SP_Index prop) idx) eqn:Em; [rewrite lookup_insert_eq; by intros [= <-]|].
      rewrite Ep. by intros [= <-].
  - by exists space2.
Qed.
End Proofs.

(** A successful [AddIndexes] has stored the space with the new indexes after
    the old ones and the next version, the merged list satisfying the rules of index
    definitions and, if it held before, that no field has two single-field
    indexes; and the leader of every partition of the space accepted exactly the
    new indexes.  If it fails, whatever failed, the store is unchanged, or holds
    that space because only the answer was lost. *)
Theorem AddIndexes_correct (fault : nat -> option (error * bool)) (answer : nat -> message -> go unit) (live : string -> bool)
    (sched : list Partition -> list Partition) (st : Prefixes) (ToInt64E : string -> option Z)
    (unmarshal_fields : string -> go (list Field)) (HSpace : Codec Space) (HPartition : Codec Partition) (HServer : Codec Server)
    (dbName spaceName : string) (newIndexes : list (option Index)) (n : net) :
  let '(n', r) := AddIndexes fault answer live sched st ToInt64E unmarshal_fields dbName spaceName newIndexes n in
  AddIndexes_post live sched st ToInt64E unmarshal_fields (kv (nw n)) (sent n) dbName spaceName newIndexes r (kv (nw n')) (sent n').
Proof.
  pose proof (AddIndexes_spec fault answer live sched st ToInt64E unmarshal_fields (kv (nw n)) (sent n) dbName spaceName newIndexes n
    (conj eq_refl eq_refl)) as H. by destruct (AddIndexes _ _ _ _ _ _ _ _ _ _ n).
Qed.

(** A successful [RemoveIndex] has stored the space without one index of that name
    and with the next version; an inline definition of the index on its field is
    gone from the schema and from the properties, so that it cannot come back when
    the indexes are rebuilt from them; and the leader of every partition accepted
    the removal.  If it fails, the store is unchanged, or only the answer of the
    write was lost. *)
Theorem RemoveIndex_correct (fault : nat -> option (error * bool)) (answer : nat -> message -> go unit) (live : string -> bool)
    (sched : list Partition -> list Partition) (st : Prefixes) (ToInt64E : string -> option Z)
    (unmarshal_fields : string -> go (list Field)) (marshal_fields : list Field -> string)
    (HSpace : Codec Space) (HPartition : Codec Partition) (HServer : Codec Server) (dbName spaceName indexName : string) (n : net) :
  (forall fs, unmarshal_fields (marshal_fields fs) = Ret fs) ->
  let '(n', r) := RemoveIndex fault answer live sched st ToInt64E unmarshal_fields marshal_fields dbName spaceName indexName n in
  RemoveIndex_post live sched st ToInt64E unmarshal_fields (kv (nw n)) (sent n) dbName spaceName indexName r (kv (nw n')) (sent n').
Proof.
  intros Hround. pose proof (RemoveIndex_spec fault answer live sched st ToInt64E unmarshal_fields marshal_fields Hround (kv (nw n)) (sent n)
    dbName spaceName indexName n (conj eq_refl eq_refl)) as H. by destruct (RemoveIndex _ _ _ _ _ _ _ _ _ _ _ n).
Qed.

(** ** A concrete run *)

#[export] Instance Index_countable : Countable Index.
Proof.
  refine (inj_countable' (fun i => (Index_Name i, Index_Type i, FieldName i, FieldNames i, Params i))
    (fun x => let '(a, b, c, d, e) := x in {| Index_Name := a; Index_Type := b; FieldName := c; FieldNames := d; Params := e |}) _). by intros [].
Defined.
#[export] Instance Field_eq_dec : EqDecision Field.
Proof. solve_decision. Defined.
#[export] Instance Field_countable : Countable Field.
Proof.
  refine (inj_countable' (fun f => (F_Name f, F_Type f, F_Dimension f, F_StoreType f, F_Format f, F_Index f, F_StoreParam f))
    (fun x => let '(a, b, c, d, e, i, g) := x in {| F_Name := a; F_Type := b; F_Dimension := c; F_StoreType := d; F_Format := e;
                                                     F_Index := i; F_StoreParam := g |}) _). by intros [].
Defined.

Definition demo_marshal (fs : list Field) : string := Marshal (Codec := countable_codec) fs.
Definition demo_unmarshal (s : string) : go (list Field) :=
  match Unmarshal (Codec := countable_codec) s with Some fs => Ret fs | None => Fail (OtherErr "json") end.
Lemma demo_round fs : demo_unmarshal (demo_marshal fs) = Ret fs.
Proof. unfold demo_unmarshal, demo_marshal. by rewrite Unmarshal_Marshal. Qed.

(** An encoding of one value. *)
Definition one_codec {A : Type} (a : A) : Codec A.
Proof. refine {| Marshal _ := "{}"%string; Unmarshal _ := Some a; Encodable x := x = a |}; [by intros ? ->|done]. Defined.

Definition demo_index : Index := {| Index_Name := "ix"; Index_Type := "SCALAR"; FieldName := "age"; FieldNames := []; Params := "" |}.
Definition demo_field : Field :=
  {| F_Name := "age"; F_Type := "integer"; F_Dimension := 0; F_StoreType := None; F_Format := None; F_Index := Some demo_index; F_StoreParam := None |}.
Definition demo_indexed : Space :=
  set_S_Schema (demo_marshal [demo_field]) ∅ (set_S_Indexes [demo_index] (demo_space 1 None [demo_partition 5])).
Definition demo_server : Server :=
  {| Server_ID := 1; Server_ResourceName := "default"; Server_RpcPort := 8081; Server_Ip := "10.0.0.1"; HostIp := ""; HostRack := "";
     HostZone := ""; PartitionIds := [5]; Private := false |}.
Definition demo_net : net :=
  {| nw := {| kv := {[ DBKeyName demo_st "db" := "1"%string; SpaceKey demo_st 1 7 := "{}"%string; PartitionKey demo_st 5 := "{}"%string;
                       ServerKey demo_st 1 := "{}"%string ]}; calls := 0 |}; sent := [] |}.

Definition demo_removal : net -> net * go Space :=
  RemoveIndex (HSpace := one_codec demo_indexed) (HPartition := one_codec (demo_partition 5)) (HServer := one_codec demo_server)
    no_fault (fun _ _ => Ret tt) (fun _ => true) id demo_st ParseInt demo_unmarshal demo_marshal "db" "s" "ix".
Definition demo_removed : Space := next_version (set_S_Schema (demo_marshal [clear_field demo_index demo_field]) ∅ (set_S_Indexes [] demo_indexed)).

Lemma demo_removal_run : (demo_removal demo_net).2 = Ret demo_removed /\
  sent (demo_removal demo_net).1 = [(PartitionIndexChange "10.0.0.1:8081" 5 (RemoveIndexNamed "ix"), Ret tt)].
Proof. vm_compute. split; reflexivity. Qed.

Lemma RemoveIndex_correct_witness :
  exists n' s, demo_removal demo_net = (n', Ret s) /\ S_Indexes s = [] /\ not_inline demo_unmarshal (S_Fields s) demo_index /\
    sent n' = [(PartitionIndexChange "10.0.0.1:8081" 5 (RemoveIndexNamed "ix"), Ret tt)].
Proof.
  pose proof (RemoveIndex_correct no_fault (fun _ _ => Ret tt) (fun _ => true) id demo_st ParseInt demo_unmarshal demo_marshal
    (one_codec demo_indexed) (one_codec (demo_partition 5)) (one_codec demo_server) "db" "s" "ix" demo_net demo_round) as H.
  change (RemoveIndex _ _ _ _ _ _ _ _ _ _ _ demo_net) with (demo_removal demo_net) in H. destruct demo_removal_run as [Hr Hs].
  destruct (demo_removal demo_net) as [n' r]. cbn [fst snd] in Hr, Hs. subst r. exists n', demo_removed. split; [reflexivity|].
  destruct H as (old & i & idx & (v & id & _ & _ & Hf) & Hi & _ & _ & Hno & _).
  apply find_some in Hf as [Hf _]. apply list_elem_of_In, list_elem_of_omap in Hf as (kv & _ & [= <-]).
  assert (idx = demo_index) as -> by (destruct i as [|[]]; simpl in Hi; congruence).
  split; [reflexivity|]. split; [|exact Hs]. apply Hno; [vm_compute; discriminate..].
Defined.
