(* ===== verification/SpaceUpdate.v ===== *)
(** * Updates of a space (internal/master/services/space_service.go,
    internal/ps/engine/mapping/parse.go)

    [UpdateSpace] without resources: the name, the flag, the partitions and new
    fields of a space are checked, sent to the leaders of the partitions and stored.
    A request is the struct [entity.Space] it is decoded into; the fields an
    update reads are those of [update_request]. *)

From S2P Require Import Prelude.
From S2P Require Import Text.
From S2P Require Import Errors.
From S2P Require Import Names.
From S2P Require Import Keys.
From S2P Require Import Schema.
From S2P Require Import Partition.
From S2P Require Import Space.
From S2P Require Import Floats.
From S2P Require Import SortOrder.
From S2P Require Import Placement.
From S2P Require Import Store.
From S2P Require Import Databases.
From S2P Require Import Cache.
From S2P Require Import Net.
From S2P Require Import Indexes.
Open Scope Z_scope.

(** ** mapping.MergeSchemaArray *)

(** A field as [map[string]any]. *)
Definition jobject : Type := gmap string json.

(** [==] on interface values; a missing key is nil. *)
Definition any_eqb (a b : option json) : go bool :=
  match default JNull a, default JNull b with
  | JNull, JNull => Ret true
  | JBool x, JBool y => Ret (Bool.eqb x y)
  | JNumber x, JNumber y => Ret (negb (fltb x y) && negb (fltb y x))
  | JString x, JString y => Ret (x =?s y)
  | JArray _, JArray _ | JObject _, JObject _ => Panic Uncomparable
  | _, _ => Ret false
  end.

Fixpoint all_equal (keys : list string) (f1 f2 : jobject) : go bool :=
  match keys with
  | [] => Ret true
  | k :: keys' => let! b := any_eqb (f1 !! k) (f2 !! k) in if b then all_equal keys' f1 f2 else Ret false
  end.
Definition areFieldsEqual (f1 f2 : jobject) : go bool := all_equal ["name"; "type"; "dimension"; "store_type"; "format"]%string f1 f2.

Definition field_map (l : list jobject) : gmap string jobject :=
  foldl (fun m f => match f !! "name"%string with Some (JString n) => <[n := f]> m | _ => m end) ∅ l.

Definition merge_field (m : gmap string jobject) (e : string * jobject) : go (gmap string jobject) :=
  match m !! e.1 with
  | Some newField =>
    let! eq := areFieldsEqual e.2 newField in
    if eq then Ret m else Fail (verr PARAM_ERROR "field conflict for %s: old=%v, new=%v")
  | None => Ret (<[e.1 := e.2]> m)
  end.

Section Merge.
(** The JSON decoder and encoder at arrays of objects, and the order of map iterations. *)
Context (unmarshal_objects : string -> go (list jobject)) (marshal_objects : list jobject -> string)
  (ord : gmap string jobject -> list (string * jobject)).

Definition MergeSchemaArray (old new : string) : go string :=
  let! newSchemaArray := unmarshal_objects new in
  let! oldSchemaArray := unmarshal_objects old in
  let! merged := ofold merge_field (field_map newSchemaArray) (ord (field_map oldSchemaArray)) in
  Ret (marshal_objects (map snd (ord merged))).
End Merge.

(** ** Comparison of properties *)

Definition same_option (a b : option string) : bool :=
  match a, b with None, None => true | Some x, Some y => x =?s y | _, _ => false end.

Definition arePropertiesEqual (old new : SpaceProperties) : bool :=
  bool_decide (SP_FieldType old = SP_FieldType new) && (SP_Type old =?s SP_Type new) && (SP_Dimension old =? SP_Dimension new) &&
  same_option (SP_Format old) (SP_Format new) && same_option (SP_StoreType old) (SP_StoreType new).

Definition indexed (p : SpaceProperties) : bool := negb (bool_decide (SP_Option p = FO_Null)).

Definition isOnlyIndexOptionChangeWithProperties (old new : SpaceProperties) : bool :=
  arePropertiesEqual old new && negb (Bool.eqb (indexed old) (indexed new)).

(** [temp] of the update functions. *)
Record update_request : Type := {
  U_Name : string; U_Enabled : option bool; U_DBId : Z; U_PartitionNum : Z; U_ReplicaNum : Z;
  U_Partitions : option (list Partition);   (** a nil slice or not *)
  U_Fields : string; U_PartitionName : option string; U_PartitionOperatorType : option string; U_PartitionRule : option PartitionRule
}.

Definition set_S_Version (v : Z) (s : Space) : Space :=
  put_S (S_Name s) v (S_Enabled s) (S_Partitions s) (S_PartitionNum s) (S_Fields s) (S_Indexes s) (S_PartitionRule s)
    (S_SpaceProperties s) (S_PartitionName s) (S_PartitionOperatorType s) s.
Definition set_S_Identity (name : string) (enabled : option bool) (s : Space) : Space :=
  put_S name (S_Version s) enabled (S_Partitions s) (S_PartitionNum s) (S_Fields s) (S_Indexes s) (S_PartitionRule s)
    (S_SpaceProperties s) (S_PartitionName s) (S_PartitionOperatorType s) s.

Section Service.
Context (wide : Z -> bool) (fault : nat -> option (error * bool)) (answer : nat -> message -> go unit) (live : string -> bool)
  (sched : list Partition -> list Partition) (st : Prefixes) (ToInt64E : string -> option Z).
Context (unmarshal_fields : string -> go (list Field)) (unmarshal_objects : string -> go (list jobject)) (marshal_objects : list jobject -> string)
  (ord : gmap string jobject -> list (string * jobject)) (pord : gmap string SpaceProperties -> list (string * SpaceProperties)).
Context `{HSpace : !Codec Space, HPartition : !Codec Partition, HServer : !Codec Server}.

(** The index changes of a new schema, one message each. *)
Definition detectIndexChangesWithProperties (space : Space) (newProps : gmap string SpaceProperties) : go (list string) :=
  let! oldProps := UnmarshalPropertyJSON unmarshal_fields (S_Fields space) in
  Ret (omap (fun e => match newProps !! e.1 with
                      | Some newProperty =>
                        if Bool.eqb (indexed e.2) (indexed newProperty) then None
                        else Some (if indexed newProperty then "field:[%s] index enabled" else "field:[%s] index disabled")%string
                      | None => None
                      end) (pord oldProps) ++
       omap (fun e => match oldProps !! e.1 with
                      | None => if indexed e.2 then Some "new indexed field:[%s] added"%string else None
                      | Some _ => None
                      end) (pord newProps)).

Definition check_existing (newProps : gmap string SpaceProperties) (e : string * SpaceProperties) : go unit :=
  match newProps !! e.1 with
  | None => Ret tt
  | Some newProperty =>
    if isOnlyIndexOptionChangeWithProperties e.2 newProperty then Ret tt
    else guard_err (negb (arePropertiesEqual e.2 newProperty))
           (verr PARAM_ERROR "field:[%s] can only change index option, other properties cannot be modified")
  end.

Definition updateSpaceFields (space : Space) (newFields : string) : go Space :=
  let! oldProps := UnmarshalPropertyJSON unmarshal_fields (S_Fields space) in
  let! newProps := UnmarshalPropertyJSON unmarshal_fields newFields in
  check! ofold (fun _ e => check_existing newProps e) tt (pord oldProps) in
  let newFieldCount := length (List.filter (fun e => bool_decide (oldProps !! e.1 = None)) (pord newProps)) in
  if (0 <? newFieldCount)%nat then
    let! schema := MergeSchemaArray unmarshal_objects marshal_objects ord (S_Fields space) newFields in
    let! updated := UnmarshalPropertyJSON unmarshal_fields schema in
    let! indexes := MergeFieldIndexes (pord updated) updated [] in
    Ret (set_S_Indexes (omap id indexes) (set_S_Schema schema updated space))
  else Ret space.

(** [updateSinglePartition], for every partition *)
Definition notifyPartitionsConfigUpdate (space : Space) : N unit :=
  fan_out (fun p => bind! addr <- lift (leader_of fault live st p) in send answer (UpdatePartition addr space (P_Id p))) (sched (S_Partitions space)).

(** What the update makes of the space, or why it is refused. *)
Definition configured (space : Space) (temp : update_request) : go Space :=
  check! guard_err ((negb (U_DBId temp =? 0) && negb (U_DBId temp =? S_DBId space)) ||
                    (negb (U_PartitionNum temp =? 0) && negb (U_PartitionNum temp =? S_PartitionNum space)) ||
                    (negb (U_ReplicaNum temp =? 0) && negb (U_ReplicaNum temp =? S_ReplicaNum space)))
    (verr PARAM_ERROR "db_id not same partition_num can not change replica_num can not change") in
  let space1 := set_S_Identity (if U_Name temp =?s "" then S_Name space else U_Name temp)
                  (match U_Enabled temp with None => S_Enabled space | e => e end) space in
  check! Space_Validate wide (S_Name space1) in
  let space2 := set_S_Version (i64 (S_Version space + 1)) space1 in
  let space3 := match U_Partitions temp with Some ps => set_S_Partitions ps space2 | None => space2 end in
  let! spaceProperties := UnmarshalPropertyJSON unmarshal_fields (U_Fields temp) in
  if U_Fields temp =?s "" then Ret space3
  else
    let! indexChanges := detectIndexChangesWithProperties space3 spaceProperties in
    check! guard_err (0 <? length indexChanges)%nat
      (verr PARAM_ERROR "index changes are not supported via space update %v; use the space indexes API (POST/DELETE .../spaces/%s/indexes) instead") in
    updateSpaceFields space3 (U_Fields temp).

Definition handleConfigurationUpdate (space : Space) (temp : update_request) : N Space :=
  bind! space' <- nret (configured space temp) in
  bind_! notifyPartitionsConfigUpdate space' in
  lift (UpdateSpaceData fault st (set_S_Version (i64 (S_Version space' - 1)) space')).

Definition is_nil {A} (o : option A) : bool := match o with None => true | Some _ => false end.

(** [UpdateSpace]; [resources] is [handleResourceUpdate]. *)
Definition UpdateSpace (resources : Space -> update_request -> N Space) (dbName spaceName : string) (req : update_request) (op : string) : N Space :=
  loadLockedSpace fault st ToInt64E dbName spaceName (fun space =>
    if op =?s "config" then handleConfigurationUpdate space req
    else if negb (is_nil (U_PartitionName req)) || negb (is_nil (U_PartitionOperatorType req)) || negb (is_nil (U_PartitionRule req)) ||
            (0 <? U_PartitionNum req)
    then resources space req
    else handleConfigurationUpdate space req).
End Service.

(** ** Merging schemas *)

Lemma merge_fields_union (l : list (string * jobject)) m m' : NoDup l.*1 -> ofold merge_field m l = Ret m' ->
  m' = m ∪ list_to_map l /\ Forall (fun e => forall f, m !! e.1 = Some f -> areFieldsEqual e.2 f = Ret true) l.
Proof.
  induction l as [|[k o] l IH] in m, m' |- *; cbn [ofold].
  - intros _ [= <-]. split; [|constructor]. symmetry. apply map_union_empty.
  - intros [Hk Hl]%NoDup_cons H. inv_ret. unfold merge_field in Hm. cbn [fst snd] in *. destruct (m !! k) as [f|] eqn:E.
    + inv_ret. destruct a0; [|discriminate Hm]. injection Hm as <-. destruct (IH _ _ Hl H) as [-> Hall]. split.
      * apply map_eq. intros j. destruct (decide (j = k)) as [->|Hj].
        -- by rewrite !(lookup_union_Some_l _ _ _ _ E).
        -- rewrite !lookup_union. simpl. by rewrite lookup_insert_ne.
      * constructor; [|done]. cbn [fst]. rewrite E. by intros ? [= <-].
    + injection Hm as <-. destruct (IH _ _ Hl H) as [-> Hall]. split.
      * simpl. by rewrite <- insert_union_l, insert_union_r.
      * constructor; [cbn [fst]; by rewrite E|]. rewrite Forall_forall in *. intros e He f Hf. apply (Hall e He).
        rewrite lookup_insert_ne; [done|]. intros Hek. apply Hk. rewrite Hek. by apply list_elem_of_fmap_2.
Qed.

Lemma MergeSchemaArray_fields (unmarshal_objects : string -> go (list jobject)) (marshal_objects : list jobject -> string)
    (ord : gmap string jobject -> list (string * jobject)) (old new s : string) :
  (forall m, ord m ≡ₚ map_to_list m) -> MergeSchemaArray unmarshal_objects marshal_objects ord old new = Ret s ->
  exists news olds, unmarshal_objects new = Ret news /\ unmarshal_objects old = Ret olds /\
    s = marshal_objects (map snd (ord (field_map news ∪ field_map olds))) /\
    forall n f g, field_map olds !! n = Some f -> field_map news !! n = Some g -> areFieldsEqual f g = Ret true.
Proof.
  intros Hord H. unfold MergeSchemaArray in H. inv_ret. exists a, a0. split; [done|]. split; [done|].
  apply merge_fields_union in Hm1 as [-> Hall]; [|rewrite Hord; apply NoDup_fst_map_to_list].
  split.
  - subst s. do 3 f_equal. rewrite (list_to_map_proper _ (map_to_list (field_map a0))) by (rewrite ?Hord; apply NoDup_fst_map_to_list || done).
    by rewrite list_to_map_to_list.
  - intros n f g Hf Hg. rewrite Forall_forall in Hall. apply (Hall (n, f)); [|done]. by rewrite Hord, elem_of_map_to_list.
Qed.

(** ** Arithmetic of versions *)

Lemma wrap_s_add w a b : 0 < w -> wrap_s w (wrap_s w a + b) = wrap_s w (a + b).
Proof.
  intros Hw. unfold wrap_s. assert (2 ^ w <> 0) by (apply Z.pow_nonzero; lia).
  replace ((a + 2 ^ (w - 1)) mod 2 ^ w - 2 ^ (w - 1) + b + 2 ^ (w - 1)) with ((a + 2 ^ (w - 1)) mod 2 ^ w + b) by lia.
  rewrite Z.add_mod_idemp_l by done. f_equal. f_equal. lia.
Qed.

Lemma version_step v : i64 (i64 (i64 (v + 1) - 1) + 1) = i64 (v + 1).
Proof.
  unfold i64. rewrite wrap_s_add by lia. replace (wrap_s 64 (v + 1) - 1 + 1) with (wrap_s 64 (v + 1) + 0) by lia.
  rewrite wrap_s_add by lia. f_equal. lia.
Qed.

Section Proofs.
Context (wide : Z -> bool) (fault : nat -> option (error * bool)) (answer : nat -> message -> go unit) (live : string -> bool)
  (sched : list Partition -> list Partition) (st : Prefixes) (ToInt64E : string -> option Z).
Context (unmarshal_fields : string -> go (list Field)) (unmarshal_objects : string -> go (list jobject)) (marshal_objects : list jobject -> string)
  (ord : gmap string jobject -> list (string * jobject)) (pord : gmap string SpaceProperties -> list (string * SpaceProperties)).
Context `{HSpace : !Codec Space, HPartition : !Codec Partition, HServer : !Codec Server}.
Context (Hpord : forall m, pord m ≡ₚ map_to_list m).
Notation properties := (UnmarshalPropertyJSON unmarshal_fields).
Notation update_fields := (updateSpaceFields unmarshal_fields unmarshal_objects marshal_objects ord pord).
Notation config := (configured wide unmarshal_fields unmarshal_objects marshal_objects ord pord).

(** What an accepted schema does to the schema, the properties and the indexes of
    a space: fields it repeats are the same, new fields replace the schema by the
    merged one and the indexes by the inline ones. *)
Definition fields_updated (space : Space) (newFields : string) (space' : Space) : Prop :=
  exists oldProps newProps, properties (S_Fields space) = Ret oldProps /\ properties newFields = Ret newProps /\
    (forall f p q, oldProps !! f = Some p -> newProps !! f = Some q -> arePropertiesEqual p q = true) /\
    ((space' = space /\ forall f, is_Some (newProps !! f) -> is_Some (oldProps !! f)) \/
     ((exists f, is_Some (newProps !! f) /\ oldProps !! f = None) /\
      exists schema props, MergeSchemaArray unmarshal_objects marshal_objects ord (S_Fields space) newFields = Ret schema /\
        properties schema = Ret props /\ space' = set_S_Indexes (inline_indexes (pord props)) (set_S_Schema schema props space) /\
        indexes_ok (Some <$> inline_indexes (pord props)) props)).

Lemma check_existing_ret newProps l : ofold (fun _ e => check_existing newProps e) tt l = Ret tt ->
  Forall (fun e => forall q, newProps !! e.1 = Some q -> arePropertiesEqual e.2 q = true) l.
Proof.
  induction l as [|[f p] l IH]; [constructor|]. cbn [ofold]. intros H. inv_ret. destruct a. constructor; [|auto].
  unfold check_existing in Hm. cbn [fst snd] in *. intros q Hq. rewrite Hq in Hm.
  destruct (isOnlyIndexOptionChangeWithProperties p q) eqn:E; [by apply andb_true_iff in E as [? _]|].
  apply guard_err_ret in Hm. by destruct (arePropertiesEqual p q).
Qed.

Lemma omap_Some_id {A} (l : list A) : omap id (Some <$> l) = l.
Proof. induction l as [|x l IH]; [done|]. cbn. by rewrite IH. Qed.

Lemma updateSpaceFields_ret space newFields space' : update_fields space newFields = Ret space' -> fields_updated space newFields space'.
Proof.
  intros H. unfold updateSpaceFields in H. inv_ret. exists a, a0. split; [done|]. split; [done|]. destruct a1. apply check_existing_ret in Hm1.
  split.
  { intros f p q Hp Hq. rewrite Forall_forall in Hm1. apply (Hm1 (f, p)); [|done]. by rewrite Hpord, elem_of_map_to_list. }
  destruct (List.filter _ (pord a0)) as [|[f p] l] eqn:Ef; cbn [length Nat.ltb Nat.leb] in H.
  - injection H as <-. left. split; [done|]. intros f [p Hp]. destruct (a !! f) as [q|] eqn:Eq; [by eexists|].
    assert (In (f, p) (List.filter (fun e => bool_decide (a !! e.1 = None)) (pord a0))) as Hin; [|by rewrite Ef in Hin].
    apply filter_In. split; [apply list_elem_of_In; by rewrite Hpord, elem_of_map_to_list|]. by apply bool_decide_eq_true.
  - right. inv_ret. split.
    { exists f. assert (In (f, p) ((f, p) :: l)) as Hin by by left. rewrite <- Ef in Hin. apply filter_In in Hin as [Hin Hn].
      apply list_elem_of_In in Hin. rewrite Hpord, elem_of_map_to_list in Hin. apply bool_decide_eq_true in Hn. split; [by eexists|done]. }
    exists a1, a2. split; [done|]. split; [done|]. subst space'.
    destruct (MergeFieldIndexes_order a2 [] (pord a2) (pord a2) a3) as (r2 & Hr2 & _ & Heq & Hok); [done..|].
    rewrite Hm4 in Hr2. injection Hr2 as ->. rewrite Heq, app_nil_l in *. by rewrite omap_Some_id.
Qed.

(** What an update makes of the schema, the indexes and the properties of a space: they are kept when the schema of the request has no new field, otherwise the schemas are merged, the
    properties are those of the merged schema and the indexes the ones defined inline in it. *)
Definition schema_change (old : Space) (newFields schema : string) (indexes : list Index) (props : gmap string SpaceProperties) : Prop :=
  exists oldProps newProps, properties (S_Fields old) = Ret oldProps /\ properties newFields = Ret newProps /\
    (forall f p q, oldProps !! f = Some p -> newProps !! f = Some q -> arePropertiesEqual p q = true) /\
    (((forall f, is_Some (newProps !! f) -> is_Some (oldProps !! f)) /\
      schema = S_Fields old /\ indexes = S_Indexes old /\ props = S_SpaceProperties old) \/
     ((exists f, is_Some (newProps !! f) /\ oldProps !! f = None) /\
      MergeSchemaArray unmarshal_objects marshal_objects ord (S_Fields old) newFields = Ret schema /\ properties schema = Ret props /\
      indexes = inline_indexes (pord props) /\ indexes_ok (Some <$> indexes) props)).

(** The space after an update, field by field. *)
Definition updated_space (old : Space) (req : update_request) (schema : string) (indexes : list Index) (props : gmap string SpaceProperties) : Space :=
  let ps := default (S_Partitions old) (U_Partitions req) in
  {| S_Id := S_Id old; S_Desc := S_Desc old; S_Name := if U_Name req =?s "" then S_Name old else U_Name req; S_ResourceName := S_ResourceName old;
     S_Version := i64 (S_Version old + 1); S_DBId := S_DBId old; S_Enabled := match U_Enabled req with None => S_Enabled old | e => e end;
     S_Partitions := ps; S_PartitionNum := match S_PartitionRule old with None => Z.of_nat (length ps) | Some _ => S_PartitionNum old end;
     S_ReplicaNum := S_ReplicaNum old; S_Fields := schema; S_Indexes := indexes; S_PartitionRule := S_PartitionRule old; S_SpaceProperties := props;
     S_RefreshInterval := S_RefreshInterval old; S_PartitionName := None; S_PartitionOperatorType := None; S_EnableIdCache := S_EnableIdCache old;
     S_EnableRealtime := S_EnableRealtime old |}.

Definition reconfigured (old : Space) (req : update_request) (s : Space) : Prop :=
  exists schema indexes props, s = updated_space old req schema indexes props /\ is_ret (Space_Validate wide (S_Name s)) = true /\
    U_Fields req <> ""%string /\ schema_change old (U_Fields req) schema indexes props.

Context (Hempty : forall fs, unmarshal_fields "" <> Ret fs).

Lemma properties_empty props : properties "" <> Ret props.
Proof. unfold UnmarshalPropertyJSON. intros H. inv_ret. by destruct (Hempty a). Qed.

(** The space that the partitions are sent, before [UpdateSpaceData]. *)
Lemma configured_ret old req s : config old req = Ret s ->
  reconfigured old req (next_version (set_S_Version (i64 (S_Version s - 1)) s)).
Proof.
  unfold configured. intros H. inv_ret. destruct a0. destruct (U_Fields req =?s "") eqn:E0.
  { apply string_eqb_eq in E0. rewrite E0 in Hm1. by destruct (properties_empty a1). }
  apply string_eqb_neq in E0. inv_ret. clear Hm2 Hm3 a2. cbn [set_S_Identity put_S S_Name] in Hm0.
  match type of H with updateSpaceFields _ _ _ _ _ ?s3 _ = _ => set (space3 := s3) in * end.
  assert (S_Fields space3 = S_Fields old) as Hf3 by (unfold space3; by destruct (U_Partitions req)).
  apply updateSpaceFields_ret in H as (oldProps & newProps & Ho & Hn & Heq & Hs). rewrite Hf3 in Ho.
  assert (forall s0, (s0 = space3 \/ exists schema props indexes, s0 = set_S_Indexes indexes (set_S_Schema schema props space3)) ->
    next_version (set_S_Version (i64 (S_Version s0 - 1)) s0) = updated_space old req (S_Fields s0) (S_Indexes s0) (S_SpaceProperties s0)) as Hshape.
  { intros s0 Hs0. unfold updated_space. rewrite <- (version_step (S_Version old)).
    destruct Hs0 as [->|(? & ? & ? & ->)]; unfold space3; by destruct old, (U_Partitions req). }
  destruct Hs as [[-> Hno]|(Hnew & schema & props & Hmerge & Hp & -> & Hok)].
  - exists (S_Fields space3), (S_Indexes space3), (S_SpaceProperties space3). split; [apply Hshape; by left|].
    split; [by unfold space3; destruct (U_Partitions req); cbn; rewrite Hm0|]. split; [done|]. exists oldProps, newProps. split_and!; [done..|]. left.
    split; [done|]. unfold space3. by destruct (U_Partitions req).
  - eexists _, _, _. split; [apply Hshape; right; by eexists _, _, _|].
    split; [by unfold space3; destruct (U_Partitions req); cbn; rewrite Hm0|]. split; [done|]. exists oldProps, newProps. split_and!; [done..|]. right.
    rewrite Hf3 in Hmerge. done.
Qed.

(** The space [s] has been stored after the leader of every partition has accepted it. *)
Definition update_done (t0 : table) (l0 : log) (dbName spaceName : string) (req : update_request) (s : Space) (t : table) (l : log) : Prop :=
  exists old s', stored_space st ToInt64E t0 dbName spaceName old /\ reconfigured old req s /\
    t = <[SpaceKey st (S_DBId old) (S_Id old) := Marshal s]> t0 /\
    exists ls, l = l0 ++ concat ls /\ config old req = Ret s' /\
      Forall2 (told live st t0 (fun a pid => UpdatePartition a s' pid)) (sched (S_Partitions s)) ls.

Definition update_post (t0 : table) (l0 : log) (dbName spaceName : string) (req : update_request) (r : go Space) (t : table) (l : log) : Prop :=
  match r with
  | Ret s => update_done t0 l0 dbName spaceName req s t l
  | _ => t = t0 \/ exists s, update_done t0 l0 dbName spaceName req s t l
  end.

Lemma handleConfigurationUpdate_spec t0 l0 dbName spaceName old req : stored_space st ToInt64E t0 dbName spaceName old ->
  ntriple (fun t l => t = t0 /\ l = l0)
    (handleConfigurationUpdate wide fault answer live sched st unmarshal_fields unmarshal_objects marshal_objects ord pord old req)
    (update_post t0 l0 dbName spaceName req).
Proof.
  intros Hold. apply ntriple_stop; [|by left..]. intros s' Hs'. pose proof (configured_ret _ _ _ Hs') as Hs.
  set (s := next_version (set_S_Version (i64 (S_Version s' - 1)) s')) in *.
  assert (SpaceKey st (S_DBId s) (S_Id s) = SpaceKey st (S_DBId old) (S_Id old)) as Hkey by (by destruct Hs as (? & ? & ? & -> & _)).
  eapply ntriple_bind; [apply (notify_spec fault answer live st t0 (fun a pid => UpdatePartition a s' pid) (sched (S_Partitions s')) l0)| | |].
  - intros []. apply ntriple_lift. intros l. apply (triple_bind _ _ _ (fun r t =>
        match r with Ret _ => t = <[SpaceKey st (S_DBId s) (S_Id s) := Marshal s]> t0
        | _ => t = t0 \/ t = <[SpaceKey st (S_DBId s) (S_Id s) := Marshal s]> t0 end /\
        exists ls, l = l0 ++ concat ls /\ Forall2 (told live st t0 (fun a pid => UpdatePartition a s' pid)) (sched (S_Partitions s')) ls)).
    + apply triple_call.
      * intros t (-> & ls & -> & Hls). split; [done|]. exists ls. auto.
      * intros t e (-> & ls & -> & Hls). split; (split; [auto|]); exists ls; auto.
    + intros []. apply triple_ret. intros t (-> & ls & -> & Hls). exists old, s'. rewrite Hkey. split_and!; [done..|]. exists ls.
      split; [done|]. split; [done|]. exact Hls.
    + intros e t [[->| ->] (ls & -> & Hls)]; [by left|right]. exists s, old, s'. rewrite Hkey. split_and!; [done..|]. by exists ls.
    + intros p t [[->| ->] (ls & -> & Hls)]; [by left|right]. exists s, old, s'. rewrite Hkey. split_and!; [done..|]. by exists ls.
  - intros e t l [-> _]. by left.
  - intros p t l [-> _]. by left.
Qed.

Lemma UpdateSpace_spec (resources : Space -> update_request -> N Space) t0 l0 dbName spaceName op req :
  op = "config"%string \/ (U_PartitionName req = None /\ U_PartitionOperatorType req = None /\ U_PartitionRule req = None /\ U_PartitionNum req <= 0) ->
  ntriple (fun t l => t = t0 /\ l = l0)
    (UpdateSpace wide fault answer live sched st ToInt64E unmarshal_fields unmarshal_objects marshal_objects ord pord resources dbName spaceName req op)
    (update_post t0 l0 dbName spaceName req).
Proof.
  intros Hop. apply loadLocked_spec; [|by left]. intros old Hold. destruct Hop as [->|(Hp1 & Hp2 & Hp3 & Hp4)].
  - change ("config" =?s "config") with true. cbv iota. by apply handleConfigurationUpdate_spec.
  - rewrite Hp1, Hp2, Hp3. assert ((0 <? U_PartitionNum req) = false) as -> by lia. cbn [is_nil negb orb].
    destruct (op =?s "config"); by apply handleConfigurationUpdate_spec.
Qed.
End Proofs.

(** A configuration update that succeeds stores the old space with exactly these changes: the name, the flag and the partitions of the request where it has them, the number of partitions adjusted to them when there is no rule, the version
    plus one, the partition name and operator cleared, and - only if the schema of the request, which repeats existing fields unchanged, has a new field -
    the merged schema with its properties and its inline indexes in place of the index list; every other field is kept.  It stores this after the leader of every partition has
    accepted the space.  If the update fails, whatever failed, the store is unchanged, or it has this space, accepted by every leader, and only the answer of the write was lost; when the store is unchanged, leaders that were
    asked before the failure may have applied it.  (C20) *)
Theorem UpdateSpace_correct (wide : Z -> bool) (fault : nat -> option (error * bool)) (answer : nat -> message -> go unit) (live : string -> bool)
    (sched : list Partition -> list Partition) (st : Prefixes) (ToInt64E : string -> option Z)
    (unmarshal_fields : string -> go (list Field)) (unmarshal_objects : string -> go (list jobject)) (marshal_objects : list jobject -> string)
    (ord : gmap string jobject -> list (string * jobject)) (pord : gmap string SpaceProperties -> list (string * SpaceProperties))
    (HSpace : Codec Space) (HPartition : Codec Partition) (HServer : Codec Server) (resources : Space -> update_request -> N Space)
    (dbName spaceName op : string) (req : update_request) (n : net) :
  (forall m, pord m ≡ₚ map_to_list m) -> (forall fs, unmarshal_fields "" <> Ret fs) ->
  op = "config"%string \/ (U_PartitionName req = None /\ U_PartitionOperatorType req = None /\ U_PartitionRule req = None /\ U_PartitionNum req <= 0) ->
  let '(n', r) := UpdateSpace wide fault answer live sched st ToInt64E unmarshal_fields unmarshal_objects marshal_objects ord pord resources
                    dbName spaceName req op n in
  update_post wide live sched st ToInt64E unmarshal_fields unmarshal_objects marshal_objects ord pord (kv (nw n)) (sent n) dbName spaceName req
    r (kv (nw n')) (sent n').
Proof.
  intros Hpord Hempty Hop.
  pose proof (UpdateSpace_spec wide fault answer live sched st ToInt64E unmarshal_fields unmarshal_objects marshal_objects ord pord Hpord Hempty
    resources (kv (nw n)) (sent n) dbName spaceName op req Hop) as H.
  specialize (H n (conj eq_refl eq_refl)). by destruct (UpdateSpace _ _ _ _ _ _ _ _ _ _ _ _ _ _ _ _ _ n).
Qed.

(** A schema update that adds a field replaces the index list by the inline
    definitions of the fields: every composite index and every index that was
    added to the space on its own is gone from the metadata. *)
Theorem new_field_drops_indexes (unmarshal_fields : string -> go (list Field)) (unmarshal_objects : string -> go (list jobject))
    (marshal_objects : list jobject -> string) (ord : gmap string jobject -> list (string * jobject))
    (pord : gmap string SpaceProperties -> list (string * SpaceProperties)) (space space' : Space) (newFields f : string)
    (oldProps newProps : gmap string SpaceProperties) :
  (forall m, pord m ≡ₚ map_to_list m) ->
  UnmarshalPropertyJSON unmarshal_fields (S_Fields space) = Ret oldProps -> UnmarshalPropertyJSON unmarshal_fields newFields = Ret newProps ->
  is_Some (newProps !! f) -> oldProps !! f = None ->
  updateSpaceFields unmarshal_fields unmarshal_objects marshal_objects ord pord space newFields = Ret space' ->
  forall idx, idx ∈ S_Indexes space' ->
    Index_Type idx <> CompositeIndexType /\
    exists g p ix, S_SpaceProperties space' !! g = Some p /\ SP_Index p = Some ix /\ idx = inline_index g ix.
Proof.
  intros Hpord Ho Hn Hf Hf' H idx Hidx. apply (updateSpaceFields_ret _ _ _ _ _ Hpord) in H as (op & np & Ho' & Hn' & _ & H).
  rewrite Ho in Ho'. rewrite Hn in Hn'. injection Ho' as <-. injection Hn' as <-.
  destruct H as [[_ H]|(_ & schema & props & _ & _ & -> & [Hok _])].
  { destruct (H f Hf). congruence. }
  cbn [S_Indexes S_SpaceProperties set_S_Indexes set_S_Schema put_S] in *.
  unfold inline_indexes in Hidx. pose proof Hidx as Hin. apply list_elem_of_omap in Hidx as ([g p] & Hg & Hi).
  rewrite Hpord, elem_of_map_to_list in Hg. unfold inline_of in Hi. cbn [fst snd] in Hi. destruct (SP_Index p) as [ix|] eqn:Eix; [|discriminate Hi].
  injection Hi as <-. split; [|by exists g, p, ix]. intros Hc. rewrite Forall_forall in Hok.
  destruct (Hok (Some (inline_index g ix))) as (ix' & [= <-] & _ & Hix); [by apply list_elem_of_fmap_2|].
  unfold index_ok in Hix. rewrite decide_True in Hix by done. destruct Hix as (_ & Hlen & _). cbn in Hlen. lia.
Qed.

(** A configuration update without a schema is refused, whatever else it asks
    for: the missing schema is decoded all the same. *)
Theorem update_without_fields_fails (wide : Z -> bool) (fault : nat -> option (error * bool)) (answer : nat -> message -> go unit)
    (live : string -> bool) (sched : list Partition -> list Partition) (st : Prefixes)
    (unmarshal_fields : string -> go (list Field)) (unmarshal_objects : string -> go (list jobject)) (marshal_objects : list jobject -> string)
    (ord : gmap string jobject -> list (string * jobject)) (pord : gmap string SpaceProperties -> list (string * SpaceProperties))
    (HSpace : Codec Space) (HPartition : Codec Partition) (HServer : Codec Server) (space : Space) (req : update_request) (e : error) (n : net) :
  unmarshal_fields "" = Fail e -> U_Fields req = ""%string ->
  exists e', handleConfigurationUpdate wide fault answer live sched st unmarshal_fields unmarshal_objects marshal_objects ord pord space req n = (n, Fail e').
Proof.
  intros He Hf. unfold handleConfigurationUpdate, nbind, nret.
  assert (exists e', configured wide unmarshal_fields unmarshal_objects marshal_objects ord pord space req = Fail e') as [e' ->]; [|by exists e'].
  unfold configured. rewrite Hf. unfold UnmarshalPropertyJSON. rewrite He. cbn [obind]. unfold guard_err. case_match; [by eexists|]. cbn [obind].
  assert (forall s p, Space_Validate wide s <> Panic p) as Hnp.
  { intros s p. unfold Space_Validate. rewrite check_runes_spec. by repeat case_match. }
  destruct (Space_Validate wide _) as [?|?|p] eqn:Ev; cbn [obind]; [by eexists..|]. by destruct (Hnp _ _ Ev).
Qed.

(** ** Concrete runs *)

Definition vec_index : Index := {| Index_Name := "vi"; Index_Type := "FLAT"; FieldName := "vec"; FieldNames := []; Params := "{}" |}.
Definition pair_index : Index :=
  {| Index_Name := "pair"; Index_Type := CompositeIndexType; FieldName := ""; FieldNames := ["age"; "city"]%string; Params := "" |}.
Definition plain_field (name ty : string) : Field :=
  {| F_Name := name; F_Type := ty; F_Dimension := 0; F_StoreType := None; F_Format := None; F_Index := None; F_StoreParam := None |}.
Definition vec_field : Field :=
  {| F_Name := "vec"; F_Type := "vector"; F_Dimension := 4; F_StoreType := None; F_Format := None; F_Index := Some vec_index; F_StoreParam := None |}.

(** Two schemas, the second with one more field. *)
Definition demo_schema (s : string) : go (list Field) :=
  if s =?s "old" then Ret [plain_field "age" "integer"; plain_field "city" "string"; vec_field]
  else if s =?s "new" then Ret [plain_field "age" "integer"; plain_field "city" "string"; vec_field; plain_field "zip" "string"]
  else Fail (OtherErr "unexpected end of JSON input").
Definition demo_objects (s : string) : go (list jobject) := Ret [].
Definition demo_order {A} (m : gmap string A) : list (string * A) := map_to_list m.

Definition demo_two : Space := set_S_Schema "old" ∅ (set_S_Indexes [vec_index; pair_index] (demo_space 1 None [demo_partition 5])).
Definition demo_req : update_request :=
  {| U_Name := ""; U_Enabled := Some true; U_DBId := 0; U_PartitionNum := 0; U_ReplicaNum := 0; U_Partitions := None; U_Fields := "new";
     U_PartitionName := None; U_PartitionOperatorType := None; U_PartitionRule := None |}.

Lemma demo_update_run :
  exists space', updateSpaceFields demo_schema demo_objects (fun _ => "new"%string) demo_order demo_order demo_two "new" = Ret space' /\
    S_Indexes space' = [vec_index].
Proof. eexists. split; [vm_compute; reflexivity|]. vm_compute. reflexivity. Qed.

Lemma new_field_drops_indexes_witness :
  exists space', updateSpaceFields demo_schema demo_objects (fun _ => "new"%string) demo_order demo_order demo_two "new" = Ret space' /\
    pair_index ∈ S_Indexes demo_two /\ pair_index ∉ S_Indexes space'.
Proof.
  destruct demo_update_run as (space' & Hrun & _). exists space'. split; [exact Hrun|]. split; [by right; left|]. intros Hin.
  destruct (UnmarshalPropertyJSON demo_schema "old") as [op| |] eqn:Eo; [|vm_compute in Eo; discriminate Eo..].
  destruct (UnmarshalPropertyJSON demo_schema "new") as [np| |] eqn:En; [|vm_compute in En; discriminate En..].
  assert (is_Some (np !! "zip"%string)) as Hzip by (vm_compute in En; injection En as <-; by eexists).
  assert (op !! "zip"%string = None) as Hnone by (vm_compute in Eo; injection Eo as <-; reflexivity).
  destruct (new_field_drops_indexes demo_schema demo_objects (fun _ => "new"%string) demo_order demo_order demo_two space' "new" "zip" op np
    ltac:(done) Eo En Hzip Hnone Hrun pair_index Hin) as [Hc _]. by apply Hc.
Defined.

Definition demo_update (req : update_request) : net -> net * go Space :=
  UpdateSpace (HSpace := one_codec demo_two) (HPartition := one_codec (demo_partition 5)) (HServer := one_codec demo_server)
    (fun _ => false) no_fault (fun _ _ => Ret tt) (fun _ => true) id demo_st ParseInt demo_schema demo_objects (fun _ => "new"%string)
    demo_order demo_order (fun _ _ => nret (Fail (OtherErr ""))) "db" "s" req "".

Lemma demo_update_ret : exists s, (demo_update demo_req demo_net).2 = Ret s /\ S_Enabled s = Some true /\ S_Version s = 1.
Proof. eexists. split; [vm_compute; reflexivity|]. vm_compute. split; reflexivity. Qed.

Lemma UpdateSpace_correct_witness :
  exists n' s, demo_update demo_req demo_net = (n', Ret s) /\ S_Version s = 1 /\
    kv (nw n') !! SpaceKey demo_st 1 7 = Some (Marshal (Codec := one_codec demo_two) s).
Proof.
  pose proof (UpdateSpace_correct (fun _ => false) no_fault (fun _ _ => Ret tt) (fun _ => true) id demo_st ParseInt demo_schema demo_objects
    (fun _ => "new"%string) demo_order demo_order (one_codec demo_two) (one_codec (demo_partition 5)) (one_codec demo_server)
    (fun _ _ => nret (Fail (OtherErr ""))) "db" "s" "" demo_req demo_net ltac:(done) ltac:(by intros fs) ltac:(right; by repeat split)) as H.
  change (UpdateSpace _ _ _ _ _ _ _ _ _ _ _ _ _ _ _ _ _ demo_net) with (demo_update demo_req demo_net) in H.
  destruct demo_update_ret as (s & Hr & _ & Hv). destruct (demo_update demo_req demo_net) as [n' r]. cbn [fst snd] in Hr. subst r.
  exists n', s. split; [reflexivity|]. split; [exact Hv|].
  destruct H as (old & s' & (v & id & _ & _ & Hf) & _ & Ht & _). apply find_some in Hf as [Hf _].
  apply list_elem_of_In, list_elem_of_omap in Hf as (kv0 & _ & [= <-]). rewrite Ht. apply lookup_insert_eq.
Defined.

Lemma update_without_fields_fails_witness :
  exists e', handleConfigurationUpdate (HSpace := one_codec demo_two) (HPartition := one_codec (demo_partition 5)) (HServer := one_codec demo_server)
    (fun _ => false) no_fault (fun _ _ => Ret tt) (fun _ => true) id demo_st demo_schema demo_objects (fun _ => "new"%string) demo_order demo_order
    demo_two {| U_Name := "renamed"; U_Enabled := None; U_DBId := 0; U_PartitionNum := 0; U_ReplicaNum := 0; U_Partitions := None; U_Fields := "";
                U_PartitionName := None; U_PartitionOperatorType := None; U_PartitionRule := None |} demo_net = (demo_net, Fail e').
Proof. eapply update_without_fields_fails; reflexivity. Defined.
