(* ===== verification/SpaceLife.v ===== *)
(** * Creation, growth and deletion of spaces (internal/master/services/space_service.go)

    [CreateSpace] stores the new space disabled, has its partitions created on the servers
    chosen for them, waits until every partition has registered itself with the
    master, and enables the space.  Adding partitions or ranges works the same way.

    Partition servers register their partitions at any time: [registered c] are the
    partitions that have registered before the [c]-th call to the store.  A waiting
    function polls until its context is done, which happens after [patience] polls. *)

From S2P Require Import Prelude.
From S2P Require Import Text.
From S2P Require Import Errors.
From S2P Require Import Names.
From S2P Require Import Keys.
From S2P Require Import Schema.
From S2P Require Import Partition.
From S2P Require Import Space.
From S2P Require Import Floats.
From S2P Require Import SortOrder.
From S2P Require Import Mapping.
From S2P Require Import Placement.
From S2P Require Import Store.
From S2P Require Import Net.
From S2P Require Import Databases.
From S2P Require Import Cache.
From S2P Require Import Indexes.
From S2P Require Import SpaceUpdate.
Open Scope Z_scope.

(** ** Changes of a space *)

Definition set_P_Replicas (rs : list Z) (p : Partition) : Partition :=
  {| P_Id := P_Id p; P_Name := P_Name p; P_SpaceId := P_SpaceId p; P_DBId := P_DBId p;
     P_Slot := P_Slot p; P_LeaderID := P_LeaderID p; P_Replicas := rs;
     P_UpdateTime := P_UpdateTime p; P_AddNum := P_AddNum p;
     P_ResourceExhausted := P_ResourceExhausted p; P_Path := P_Path p;
     P_status := P_status p; P_ReStatusMap := P_ReStatusMap p |}.

Definition set_S_Ids (dbId id : Z) (s : Space) : Space :=
  {| S_Id := id; S_Desc := S_Desc s; S_Name := S_Name s; S_ResourceName := S_ResourceName s; S_Version := S_Version s; S_DBId := dbId;
     S_Enabled := S_Enabled s; S_Partitions := S_Partitions s; S_PartitionNum := S_PartitionNum s; S_ReplicaNum := S_ReplicaNum s;
     S_Fields := S_Fields s; S_Indexes := S_Indexes s; S_PartitionRule := S_PartitionRule s; S_SpaceProperties := S_SpaceProperties s;
     S_RefreshInterval := S_RefreshInterval s; S_PartitionName := S_PartitionName s; S_PartitionOperatorType := S_PartitionOperatorType s;
     S_EnableIdCache := S_EnableIdCache s; S_EnableRealtime := S_EnableRealtime s |}.

Definition set_S_Enabled (b : bool) (s : Space) : Space := set_S_Identity (S_Name s) (Some b) s.
Definition set_S_Layout (num : Z) (rule : option PartitionRule) (ps : list Partition) (s : Space) : Space :=
  put_S (S_Name s) (S_Version s) (S_Enabled s) ps num (S_Fields s) (S_Indexes s) rule
    (S_SpaceProperties s) (S_PartitionName s) (S_PartitionOperatorType s) s.

(** ** The service *)

(** A deferred function that looks at how the function ends. *)
Definition ndefer {A} (m : N A) (d : go A -> N unit) : N A := fun n => let '(n', r) := m n in ((d r n').1, r).

(** [recover]: a panic of a goroutine becomes an error. *)
Definition recovered (m : N unit) (e : error) : N unit := fun n => match m n with (n', Panic _) => (n', Fail e) | x => x end.

Section Service.
Context (fault : nat -> option (error * bool)) (answer : nat -> message -> go unit) (live : string -> bool)
  (sched : list (Partition * list string) -> list (Partition * list string)) (st : Prefixes) (wide : Z -> bool) (ToInt64E ToTimeE : string -> option Z).
Context (unmarshal_fields : string -> go (list Field)) (unmarshal_array : string -> go (list json)) (decode_field : json -> go field_tmp)
  (pord : gmap string SpaceProperties -> list (string * SpaceProperties)).
Context (sort : forall A, (A -> A -> bool) -> list A -> list A) (antiAffinityStrategy : Z) (order : gmap nat Z -> list (nat * Z)).
Context (registered : nat -> list Partition) (patience : nat).
Context `{HDB : !Codec DB, HSpace : !Codec Space, HPartition : !Codec Partition, HServer : !Codec Server}.

(** *** Partitions on servers *)

(** [PartitionService.RegisterPartition], called by a partition server. *)
Definition RegisterPartition (t : table) (p : Partition) : table := <[PartitionKey st (P_Id p) := Marshal p]> t.

(** What has registered by now. *)
Definition arrivals : N unit := fun n =>
  ({| nw := {| kv := foldl RegisterPartition (kv (nw n)) (registered (calls (nw n))); calls := calls (nw n) |}; sent := sent n |}, Ret tt).

(** [createPartitionOnServers]; what it puts into the error channel is its result. *)
Definition createPartitionOnServers (space : Space) (x : Partition * list string) : N unit :=
  recovered
    (nfold (fun _ address n => match send answer (CreatePartition address space (P_Id x.1)) n with
                               | (n', Fail e) => (n', Fail (verr INTERNAL_ERROR "create partition err: %s"))
                               | y => y
                               end) tt x.2)
    (verr INTERNAL_ERROR "create partition err: %v").

(** Polls for one partition; what is left of the patience. *)
Fixpoint poll (left : nat) (pid : Z) : N nat :=
  match left with
  | O => nret (Fail (verr INTERNAL_ERROR "create space partition has error"))
  | S left' =>
    bind_! arrivals in
    fun n => match lift (QueryPartition fault st pid) n with
             | (n', Ret _) => (n', Ret left')
             | (n', Fail e) => if bool_decide (code_of (NewError INTERNAL_ERROR (Some e)) = Some PARTITION_NOT_EXIST) then poll left' pid n' else (n', Fail e)
             | (n', Panic p) => (n', Panic p)
             end
  end.

(** [waitForPartitionsReady], with the goroutines it waits for. *)
Definition waitForPartitionsReady (space : Space) (placed : list (Partition * list string)) : N unit :=
  bind_! fan_out (createPartitionOnServers space) (sched placed) in
  bind_! nfold (fun left x => poll left (P_Id x.1)) patience placed in
  nret (Ret tt).

(** The partition is deleted on its servers; errors are logged. *)
Definition delete_on_servers (p : Partition) : N unit :=
  nfold (fun _ replicaID =>
    bind_! nattempt (bind! server <- lift (QueryServer fault st replicaID) in send answer (DeletePartition (RpcAddr server) (P_Id p))) in
    nret (Ret tt)) tt (P_Replicas p).

(** *** Choice of servers *)

(** The lookups of [filterAndSortServer] and its result. *)
Definition usable_servers (space : Space) (servers : list Server) : M (gmap nat Z) :=
  do! database <- QueryDB wide fault st ToInt64E (pretty (S_DBId space)) in
  do! allSpaces <- QuerySpacesByKey fault (PrefixSpace st) in
  mret (Ret (filterAndSortServer (DB_Ps database) (S_ResourceName space) (allSpaces : list Space) servers)).

Definition enough_servers (space : Space) (counts : gmap nat Z) : go unit :=
  guard_err (Z.of_nat (size counts) <? S_ReplicaNum space) (OtherErr "not enough partition servers, need %d replicas but only have %d").

(** [selectServersForPartition] for each partition in turn. *)
Definition place_one (servers : list Server) (rc : Z) (st : list (Partition * list string) * gmap nat Z) (p : Partition)
    : go (list (Partition * list string) * gmap nat Z) :=
  let! sel := selectServersForPartition sort live antiAffinityStrategy servers st.2 (order st.2) rc in
  let '(addrs, replicas, counts) := sel in
  Ret (st.1 ++ [(set_P_Replicas replicas p, addrs)], counts).
Definition place_all (servers : list Server) (rc : Z) (counts : gmap nat Z) (ps : list Partition) : go (list (Partition * list string)) :=
  let! placed := ofold (place_one servers rc) ([], counts) ps in Ret placed.1.

(** *** CreateSpace *)

Definition new_id (key : string) : M Z := NewIDGenerate fault key 1.

(** The name of the [i]-th partition: that of its range. *)
Definition name_of (s : Space) (i : nat) : go string :=
  match S_PartitionRule s with
  | Some rule => let! r := index_at (PR_Ranges rule) (Z.quot (Z.of_nat i) (S_PartitionNum s)) in Ret (R_Name r)
  | None => Ret ""%string
  end.

(** The two loops that make the partitions. *)
Definition make_partitions (s : Space) : M (list Partition) :=
  let num := match S_PartitionRule s with Some rule => i64 (S_PartitionNum s * PR_Partitions rule) | None => S_PartitionNum s end in
  do! slotWidth <- mret (go_div MaxUint32 num) in
  mfold (fun ps i =>
    do! id <- new_id (PartitionIdSequence st) in
    mret (let! name := name_of s i in Ret (ps ++ [new_partition (u32 id) name (S_Id s) (S_DBId s) (u32 (i64 (Z.of_nat i * slotWidth)))])))
    [] (seq 0 (Z.to_nat num)).

(** [space.PartitionRule.Validate(space, true)], if there is a rule. *)
Definition checked_rule (s : Space) : go Space :=
  match S_PartitionRule s with
  | None => Ret s
  | Some rule =>
    let '(rule', r) := PartitionRule_Validate ToInt64E ToTimeE rule rule (S_PartitionNum s) (S_SpaceProperties s) true in
    check! r in Ret (set_S_Layout (S_PartitionNum s) (Some rule') (S_Partitions s) s)
  end.

Definition check_absent (dbID : Z) (name : string) : M unit := fun w =>
  match QuerySpaceByName fault st dbID name w with
  | (w', Ret s) => (w', Fail (NewError SPACE_EXIST None))
  | (w', Fail e) =>
    let vErr := NewError INTERNAL_ERROR (Some e) in
    (w', if bool_decide (code_of vErr = Some SPACE_NOT_EXIST) then Ret tt else Fail vErr)
  | (w', Panic p) => (w', Panic p)
  end.

(** The indexes of the new space: the ones given and the inline ones. *)
Definition new_indexes (s : Space) (isRestore : bool) : go (list Index) :=
  let! indexes := if negb isRestore || (isRestore && (length (S_Indexes s) =? 0)%nat)
                  then (let! l := MergeFieldIndexes (pord (S_SpaceProperties s)) (S_SpaceProperties s) (map Some (S_Indexes s)) in Ret (omap id l))
                  else Ret (S_Indexes s) in
  check! guard_err (negb (existsb (fun idx => negb (IsScalarIndexType (Index_Type idx))) indexes))
    (verr PARAM_ERROR "space vector field index should not be empty") in
  Ret indexes.

(** Everything up to the space as it is stored first. *)
Definition prepare (dbID : Z) (s : Space) (isRestore : bool) : M (Space * list Server * gmap nat Z) :=
  do_! check_absent dbID (S_Name s) in
  do! servers <- QueryServers fault st in
  do! spaceID <- new_id (SpaceIdSequence st) in
  do! props <- mret (UnmarshalPropertyJSON unmarshal_fields (S_Fields s)) in
  let s1 := set_S_Schema (S_Fields s) props (set_S_Ids dbID spaceID s) in
  do! indexes <- mret (new_indexes s1 isRestore) in
  do! s2 <- mret (checked_rule (set_S_Indexes indexes s1)) in
  do! ps <- make_partitions s2 in
  let s3 := set_S_Partitions (S_Partitions s2 ++ ps) s2 in
  do! counts <- usable_servers s3 servers in
  do_! mret (enough_servers s3 counts) in
  mret (Ret (set_S_Enabled false s3, servers, counts)).

(** The cleanup when the partitions do not get ready. *)
Definition discard_partitions (ps : list Partition) : N unit :=
  nfold (fun _ p =>
    bind_! delete_on_servers p in
    bind! found <- nattempt (lift (QueryPartition fault st (P_Id p))) in
    match found with
    | None => nret (Ret tt)
    | Some _ => bind_! nattempt (lift (Delete fault (PartitionKey st (P_Id p)))) in nret (Ret tt)
    end) tt ps.

(** From the first write of the space to the end. *)
Definition deploy (s : Space) (servers : list Server) (counts : gmap nat Z) : N Space :=
  bind_! lift (Create fault (SpaceKey st (S_DBId s) (S_Id s)) (Marshal s)) in
  bind! placed <- nret (place_all servers (S_ReplicaNum s) counts (S_Partitions s)) in
  let s' := set_S_Partitions placed.*1 s in
  bind_! compensated (waitForPartitionsReady s' placed) (discard_partitions placed.*1) in
  lift (UpdateSpaceData fault st (set_S_Enabled true s')).

(** The deferred function that removes a space that was not enabled. *)
Definition remove_space (s : Space) (r : go Space) : N unit :=
  match r with
  | Ret _ => nret (Ret tt)
  | _ => bind_! nattempt (lift (Delete fault (SpaceKey st (S_DBId s) (S_Id s)))) in nret (Ret tt)
  end.

Definition CreateSpace (dbName : string) (space : Space) (isRestore : bool) : N Space :=
  bind! dbID <- lift (QueryDBName2ID fault st ToInt64E dbName) in
  bind_! nret (SchemaMap unmarshal_array decode_field (S_Fields space)) in
  nwith_lock fault (
    bind! plan <- lift (prepare dbID space isRestore) in
    let '(s, servers, counts) := plan in
    ndefer (deploy s servers counts) (remove_space s)).

(** *** DeleteSpace *)

Definition DeleteSpace (dbName spaceName : string) : N unit :=
  bind! databaseID <- lift (QueryDBName2ID fault st ToInt64E dbName) in
  bind! space <- lift (QuerySpaceByName fault st databaseID spaceName) in
  nwith_lock fault (
    bind_! lift (Delete fault (SpaceKey st databaseID (S_Id space))) in
    bind_! nfold (fun _ p => bind_! delete_on_servers p in lift (Delete fault (PartitionKey st (P_Id p)))) tt (S_Partitions space) in
    lift (Delete fault (SpaceConfigKey st databaseID (S_Id space)))).

(** *** More partitions *)

Definition new_partitions (s : Space) (names : list string) : M (list Partition) :=
  mfold (fun ps name =>
    do! id <- new_id (PartitionIdSequence st) in
    mret (Ret (ps ++ [new_partition (u32 id) name (S_Id s) (S_DBId s) 0]))) [] names.

Definition expandPartitions (space : Space) (newPartitionCount : Z) : N Space :=
  bind_! nret (if newPartitionCount - S_PartitionNum space <? 0 then Panic MakeSlice else Ret tt) in
  bind! newPartitions <- lift (new_partitions space (replicate (Z.to_nat (newPartitionCount - S_PartitionNum space)) ""%string)) in
  bind! servers <- lift (QueryServers fault st) in
  bind! counts <- lift (usable_servers space servers) in
  bind_! nret (enough_servers space counts) in
  bind! placed <- nret (place_all servers (S_ReplicaNum space) counts newPartitions) in
  let space' := set_S_Layout newPartitionCount (S_PartitionRule space) (S_Partitions space ++ placed.*1) space in
  bind_! waitForPartitionsReady space' placed in
  bind! ps <- nret (reslot_expand newPartitionCount (S_Partitions space')) in
  lift (UpdateSpaceData fault st (set_S_Partitions ps space')).

(** *** Ranges *)

Definition Add : string := "ADD".
Definition Drop : string := "DROP".

(** [Drop]: the partitions of the range are deleted, the others stay. *)
Definition drop_partition (name : string) (remaining : list Partition) (p : Partition) : N (list Partition) :=
  if negb (P_Name p =?s name) then nret (Ret (remaining ++ [p]))
  else bind_! delete_on_servers p in bind_! lift (Delete fault (PartitionKey st (P_Id p))) in nret (Ret remaining).

Definition drop_range (rule : PartitionRule) (partitionName : option string) (space : Space) : N Space :=
  match partitionName with
  | None => nret (Fail (verr PARAM_ERROR "partition name is empty"))
  | Some name =>
    bind_! nret (guard_err (name =?s "") (verr PARAM_ERROR "partition name is empty")) in
    bind_! nret (guard_err (negb (existsb (fun r => R_Name r =?s name) (PR_Ranges rule))) (verr PARAM_ERROR "partition name %s not exist")) in
    bind! remaining <- nfold (drop_partition name) [] (S_Partitions space) in
    let rule' := {| PR_Type := PR_Type rule; PR_Field := PR_Field rule; PR_Partitions := PR_Partitions rule;
                    PR_Ranges := List.filter (fun r => negb (R_Name r =?s name)) (PR_Ranges rule) |} in
    nret (Ret (set_S_Layout (S_PartitionNum space) (Some rule') remaining space))
  end.

(** The goroutine of [Add] goes on after an error; its errors. *)
Definition create_everywhere (space : Space) (x : Partition * list string) : N (list error) :=
  nfold (fun errs address n => match send answer (CreatePartition address space (P_Id x.1)) n with
                               | (n', Ret _) => (n', Ret errs)
                               | (n', _) => (n', Ret (errs ++ [verr INTERNAL_ERROR "create partition err: %s "]))
                               end) [] x.2.

(** A poll of [Add]: an error that has reached the channel ends it. *)
Fixpoint poll_or_error (arrived : nat -> bool) (errs : list error) (left : nat) (pid : Z) : N nat :=
  match left with
  | O => nret (Fail (verr INTERNAL_ERROR "update space has error"))
  | S left' => fun n =>
    match errs, arrived (calls (nw n)) with
    | e :: _, true => (n, Fail e)
    | _, _ =>
      (bind_! arrivals in
       fun n => match lift (QueryPartition fault st pid) n with
                | (n', Ret _) => (n', Ret left')
                | (n', Fail e) => if bool_decide (code_of (NewError INTERNAL_ERROR (Some e)) = Some PARTITION_NOT_EXIST)
                                  then poll_or_error arrived errs left' pid n' else (n', Fail e)
                | (n', Panic p) => (n', Panic p)
                end) n
    end
  end.

Definition add_ranges (arrived : nat -> bool) (rule : PartitionRule) (ranges : list Range) (space : Space) : N Space :=
  bind_! nret (RangeIsSame rule ranges) in
  bind! servers <- lift (QueryServers fault st) in
  bind! counts <- lift (usable_servers space servers) in
  bind_! nret (enough_servers space counts) in
  bind! newPartitions <- lift (mfold (fun ps r =>
      do_! mret (guard_err (R_Name r =?s "") (verr PARAM_ERROR "partition name is empty")) in
      do! more <- new_partitions space (replicate (Z.to_nat (S_PartitionNum space)) (R_Name r)) in mret (Ret (ps ++ more))) [] ranges) in
  bind! ranges' <- nret (AddRanges ToInt64E ToTimeE rule ranges) in
  let rule' := {| PR_Type := PR_Type rule; PR_Field := PR_Field rule; PR_Partitions := PR_Partitions rule; PR_Ranges := ranges' |} in
  bind! placed <- nret (place_all servers (S_ReplicaNum space) counts newPartitions) in
  let space' := set_S_Layout (S_PartitionNum space) (Some rule') (S_Partitions space ++ placed.*1) space in
  bind! errs <- nfold (fun errs x => bind! more <- create_everywhere space' x in nret (Ret (errs ++ more))) [] (sched placed) in
  bind_! nfold (fun left x => poll_or_error arrived errs left (P_Id x.1)) patience placed in
  nret (Ret space').

Definition updateSpacePartitonRule (arrived : nat -> bool) (partitionName : option string) (op : string)
    (partitionRule : option PartitionRule) (rule : PartitionRule) (space : Space) : N Space :=
  bind! s1 <- (if op =?s Drop then drop_range rule partitionName space else nret (Ret space)) in
  bind! s2 <- (if op =?s Add then
                 match partitionRule with
                 | None => nret (Fail (verr PARAM_ERROR "partition rule is empty"))
                 | Some new => add_ranges arrived (default rule (S_PartitionRule s1)) (PR_Ranges new) s1
                 end
               else nret (Ret s1)) in
  let rule2 := default rule (S_PartitionRule s2) in
  let rule3 := set_Partitions (Z.of_nat (length (PR_Ranges rule2))) rule2 in
  bind! ps <- nret (reslot_rule (S_PartitionNum s2) (PR_Partitions rule3) (S_Partitions s2)) in
  lift (UpdateSpaceData fault st (set_S_Layout (S_PartitionNum s2) (Some rule3) ps s2)).

Definition handleResourceUpdate (arrived : nat -> bool) (space : Space) (req : update_request) : N Space :=
  match U_PartitionOperatorType req with
  | Some op =>
    bind_! nret (guard_err (negb (op =?s Add) && negb (op =?s Drop)) (verr PARAM_ERROR "partition operator type should be %s or %s, but is %s")) in
    match S_PartitionRule space with
    | None => nret (Fail (verr PARAM_ERROR "space %s partition rule is empty"))
    | Some rule =>
      (** An empty list is left out of the JSON of the space and comes back as nil. *)
      if (length (PR_Ranges rule) =? 0)%nat then nret (Fail (verr PARAM_ERROR "space %s partition rule is empty"))
      else updateSpacePartitonRule arrived (U_PartitionName req) op (U_PartitionRule req) rule space
    end
  | None =>
    if 0 <? U_PartitionNum req then
      bind_! nret (guard_err (U_PartitionNum req <=? S_PartitionNum space) (verr PARAM_ERROR "partition_num %d should be greater than current %d")) in
      expandPartitions space (u32 (U_PartitionNum req))
    else nret (Fail (verr PARAM_ERROR "no valid resource update operation specified"))
  end.
End Service.

(** ** Frames

    [keeps K m]: outside of the keys in [K] the store is the same after [m]. *)

Definition keeps {A} (K : string -> Prop) (m : N A) : Prop := forall n k, ~ K k -> kv (nw (m n).1) !! k = kv (nw n) !! k.
Definition keeps_M {A} (K : string -> Prop) (m : M A) : Prop := forall w k, ~ K k -> kv (m w).1 !! k = kv w !! k.

Create HintDb frames.

Section Frames.
Context (K : string -> Prop).

Lemma keeps_ret {A} (r : go A) : keeps K (nret r).
Proof. done. Qed.
Lemma keeps_M_ret {A} (r : go A) : keeps_M K (mret r).
Proof. done. Qed.

Lemma keeps_bind {A B} (m : N A) (k : A -> N B) : keeps K m -> (forall a, keeps K (k a)) -> keeps K (nbind m k).
Proof.
  intros Hm Hk n key Hn. specialize (Hm n key Hn). unfold nbind. destruct (m n) as [n' [a|e|p]]; cbn [fst] in *; [|done..].
  by rewrite (Hk a n' key Hn).
Qed.
Lemma keeps_M_bind {A B} (m : M A) (k : A -> M B) : keeps_M K m -> (forall a, keeps_M K (k a)) -> keeps_M K (mbind_M m k).
Proof.
  intros Hm Hk w key Hn. specialize (Hm w key Hn). unfold mbind_M. destruct (m w) as [w' [a|e|p]]; cbn [fst] in *; [|done..].
  by rewrite (Hk a w' key Hn).
Qed.

Lemma keeps_lift {A} (m : M A) : keeps_M K m -> keeps K (lift m).
Proof. intros Hm n k Hk. specialize (Hm (nw n) k Hk). unfold lift. by destruct (m (nw n)). Qed.

Lemma keeps_send answer msg : keeps K (send answer msg).
Proof. done. Qed.

Lemma keeps_attempt {A} (m : N A) : keeps K m -> keeps K (nattempt m).
Proof. intros Hm n k Hk. specialize (Hm n k Hk). unfold nattempt. by destruct (m n) as [n' [?|?|?]]. Qed.

Lemma keeps_fold {A B} (f : B -> A -> N B) b xs : (forall b x, keeps K (f b x)) -> keeps K (nfold f b xs).
Proof.
  intros Hf. revert b. induction xs as [|x xs IH]; intros b; [apply keeps_ret|]. cbn [nfold]. apply keeps_bind; [apply Hf|]. intros b'. apply IH.
Qed.
Lemma keeps_M_fold {A B} (f : B -> A -> M B) b xs : (forall b x, keeps_M K (f b x)) -> keeps_M K (mfold f b xs).
Proof.
  intros Hf. revert b. induction xs as [|x xs IH]; intros b; [apply keeps_M_ret|]. cbn [mfold]. apply keeps_M_bind; [apply Hf|].
  intros b'. apply IH.
Qed.

Lemma keeps_fan_out {A} (f : A -> N unit) xs : (forall x, keeps K (f x)) -> keeps K (fan_out f xs).
Proof.
  intros Hf. induction xs as [|x xs IH]; [apply keeps_ret|]. intros n k Hk. specialize (Hf x n k Hk). cbn [fan_out].
  destruct (f x n) as [n' [?|?|?]]; cbn [fst] in *; [by rewrite (IH n' k Hk)| |done].
  specialize (IH n' k Hk). destruct (fan_out f xs n') as [n'' [?|?|?]]; cbn [fst] in *; by rewrite IH.
Qed.

Lemma keeps_defer {A} (m : N A) (d : go A -> N unit) : keeps K m -> (forall r, keeps K (d r)) -> keeps K (ndefer m d).
Proof. intros Hm Hd n k Hk. specialize (Hm n k Hk). unfold ndefer. destruct (m n) as [n' r]; cbn [fst] in *. by rewrite (Hd r n' k Hk). Qed.

Lemma keeps_compensated {A} (m : N A) (u : N unit) : keeps K m -> keeps K u -> keeps K (compensated m u).
Proof.
  intros Hm Hu n k Hk. specialize (Hm n k Hk). unfold compensated. destruct (m n) as [n' [?|?|?]]; cbn [fst] in *; [done| |done].
  specialize (Hu n' k Hk). destruct (u n') as [n'' [?|?|?]]; cbn [fst] in *; by rewrite Hu.
Qed.

Lemma keeps_recovered (m : N unit) e : keeps K m -> keeps K (recovered m e).
Proof. intros Hm n k Hk. specialize (Hm n k Hk). unfold recovered. by destruct (m n) as [n' [?|?|?]]. Qed.

(** Calls to the store. *)
Lemma keeps_call {A} fault (f : gmap string string -> gmap string string * go A) :
  (forall t k, ~ K k -> (f t).1 !! k = t !! k) -> keeps_M K (call fault f).
Proof.
  intros Hf w k Hk. unfold call. destruct (fault (calls w)) as [[e []]|]; cbn [fst kv]; [by apply Hf|done|].
  specialize (Hf (kv w) k Hk). by destruct (f (kv w)).
Qed.

Lemma keeps_Get fault key : keeps_M K (Get fault key).
Proof. by apply keeps_call. Qed.
Lemma keeps_PrefixScan fault key : keeps_M K (PrefixScan fault key).
Proof. by apply keeps_call. Qed.
Lemma keeps_Put fault key v : K key -> keeps_M K (Put fault key v).
Proof. intros H. apply keeps_call. intros t k Hk. cbn [fst]. apply lookup_insert_ne. by intros ->. Qed.
Lemma keeps_Create fault key v : K key -> keeps_M K (Create fault key v).
Proof. intros H. apply keeps_call. intros t k Hk. destruct (t !! key); [done|]. apply lookup_insert_ne. by intros ->. Qed.
Lemma keeps_Delete fault key : K key -> keeps_M K (Delete fault key).
Proof. intros H. apply keeps_call. intros t k Hk. destruct (t !! key); [|done]. apply lookup_delete_ne. by intros ->. Qed.
Lemma keeps_NewIDGenerate fault key : K key -> keeps_M K (new_id fault key).
Proof.
  intros H. apply keeps_call. intros t k Hk. cbv zeta.
  destruct (stm_get t key =?s ""); [|destruct (ParseInt _)]; cbn [fst]; [..|done]; apply lookup_insert_ne; by intros ->.
Qed.

Lemma keeps_with_lock {A} fault (m : N A) : keeps K m -> keeps K (nwith_lock fault m).
Proof.
  intros Hm. apply keeps_bind; [apply keeps_lift; by apply keeps_call|]. intros _ n k Hk. specialize (Hm n k Hk).
  destruct (m n) as [n' r]; cbn [fst] in *. rewrite <- Hm. by apply keeps_lift; [apply keeps_call|].
Qed.
End Frames.

#[export] Hint Resolve keeps_ret keeps_M_ret keeps_bind keeps_M_bind keeps_lift keeps_send keeps_attempt keeps_fold keeps_M_fold
  keeps_fan_out keeps_defer keeps_compensated keeps_recovered keeps_Get keeps_PrefixScan keeps_Put keeps_Create keeps_Delete
  keeps_NewIDGenerate keeps_with_lock : frames.

(** ** Inversion of successful runs *)

Lemma nbind_ret_inv {A B} (m : N A) (k : A -> N B) n n' b :
  nbind m k n = (n', Ret b) -> exists n1 a, m n = (n1, Ret a) /\ k a n1 = (n', Ret b).
Proof. unfold nbind. destruct (m n) as [n1 [a|e|p]]; [eauto|done..]. Qed.

Lemma mbind_ret_inv {A B} (m : M A) (k : A -> M B) w w' b :
  mbind_M m k w = (w', Ret b) -> exists w1 a, m w = (w1, Ret a) /\ k a w1 = (w', Ret b).
Proof. unfold mbind_M. destruct (m w) as [w1 [a|e|p]]; [eauto|done..]. Qed.

Lemma lift_ret_inv {A} (m : M A) n n' a : lift m n = (n', Ret a) -> m (nw n) = (nw n', Ret a) /\ sent n' = sent n.
Proof. unfold lift. destruct (m (nw n)) as [w r]. by intros [= <- ->]. Qed.

Lemma nret_inv {A} (r : go A) n n' a : nret r n = (n', Ret a) -> n' = n /\ r = Ret a.
Proof. by intros [= <- ->]. Qed.

Lemma with_lock_inv {A} fault (m : N A) n n' r : nwith_lock fault m n = (n', r) ->
  (exists e, r = Fail e /\ kv (nw n') = kv (nw n)) \/
  exists n1 n2, m n1 = (n2, r) /\ kv (nw n1) = kv (nw n) /\ sent n1 = sent n /\ kv (nw n') = kv (nw n2) /\ sent n' = sent n2 /\
    calls (nw n') = S (calls (nw n2)).
Proof.
  unfold nwith_lock, nbind, lift, Lock, Unlock, call. destruct (fault (calls (nw n))) as [[e []]|]; cbn [fst snd kv]; [by intros [= <- <-]; eauto..|].
  destruct (m _) as [n2 r'] eqn:E. right. destruct (fault (calls (nw n2))) as [[e []]|]; cbn [fst snd kv calls nw sent] in *; simplify_eq;
    by eexists _, n2.
Qed.

Ltac run_inv :=
  repeat match goal with
  | H : nbind _ _ _ = (_, Ret _) |- _ => let n1 := fresh "n" in let a := fresh "a" in let H1 := fresh "Hr" in
      apply nbind_ret_inv in H as (n1 & a & H1 & H)
  | H : mbind_M _ _ _ = (_, Ret _) |- _ => let n1 := fresh "w" in let a := fresh "a" in let H1 := fresh "Hr" in
      apply mbind_ret_inv in H as (n1 & a & H1 & H)
  | H : nret _ _ = (_, Ret _) |- _ => apply nret_inv in H as [-> H]
  | H : mret _ _ = (_, Ret _) |- _ => injection H as <- H
  | H : lift _ _ = (_, Ret _) |- _ => let H1 := fresh "Hs" in apply lift_ret_inv in H as [H H1]
  end.

(** What a read tells about the store it was made on. *)
Lemma tells_ret_inv {A} (m : M A) Q w w' a : tells (kv w) m Q -> m w = (w', Ret a) -> kv w' = kv w /\ Q a.
Proof. intros H Hm. specialize (H w eq_refl). rewrite Hm in H. exact H. Qed.

Section Proofs.
Context (fault : nat -> option (error * bool)) (answer : nat -> message -> go unit) (live : string -> bool)
  (sched : list (Partition * list string) -> list (Partition * list string)) (st : Prefixes) (wide : Z -> bool) (ToInt64E ToTimeE : string -> option Z).
Context (unmarshal_fields : string -> go (list Field)) (unmarshal_array : string -> go (list json)) (decode_field : json -> go field_tmp)
  (pord : gmap string SpaceProperties -> list (string * SpaceProperties)).
Context (sort : forall A, (A -> A -> bool) -> list A -> list A) (strategy : Z) (order : gmap nat Z -> list (nat * Z)).
Context (registered : nat -> list Partition) (patience : nat).
Context `{HDB : !Codec DB, HSpace : !Codec Space, HPartition : !Codec Partition, HServer : !Codec Server}.

Definition id_key (k : string) : Prop := k = SpaceIdSequence st \/ k = PartitionIdSequence st.
Definition partition_key (k : string) : Prop := exists pid, k = PartitionKey st pid.

Notation prepare_ := (prepare fault st wide ToInt64E ToTimeE unmarshal_fields pord).
Notation deploy_ := (deploy fault answer live sched st sort strategy order registered patience).
Notation wait_ := (waitForPartitionsReady fault answer sched st registered patience).

(** *** Frames of the operations *)

Lemma keeps_check_absent K dbID name : keeps_M K (check_absent fault st dbID name).
Proof.
  intros w k Hk. unfold check_absent. assert (keeps_M K (QuerySpaceByName fault st dbID name)) as H.
  { unfold QuerySpaceByName, QuerySpaces, QuerySpacesByKey. apply keeps_M_bind; [auto with frames|]. intros l. destruct (List.find _ _); auto with frames. }
  specialize (H w k Hk). by destruct (QuerySpaceByName _ _ _ _ w) as [w' [?|?|?]].
Qed.

Lemma keeps_usable_servers K s servers : keeps_M K (usable_servers fault st wide ToInt64E s servers).
Proof.
  unfold usable_servers, QueryDB, resolve_id, QueryDBName2ID, QuerySpacesByKey.
  repeat (apply keeps_M_bind; [|intros ?]); repeat case_match; auto with frames.
  apply keeps_M_bind; [auto with frames|]. intros o. repeat case_match; auto with frames.
Qed.

Lemma keeps_prepare dbID s isRestore : keeps_M id_key (prepare_ dbID s isRestore).
Proof.
  unfold prepare, QueryServers, make_partitions. unfold id_key.
  repeat first [apply keeps_check_absent | apply keeps_usable_servers | apply keeps_M_bind; [|intros ?] | progress auto 10 with frames].
Qed.

Lemma keeps_arrivals (K : string -> Prop) : (forall k, partition_key k -> K k) -> keeps K (arrivals st registered).
Proof.
  intros HK n k Hk. unfold arrivals. cbn [fst nw kv]. generalize (kv (nw n)). induction (registered (calls (nw n))) as [|p ps IH]; intros t; [done|].
  cbn [foldl]. rewrite IH. apply lookup_insert_ne. intros <-. apply Hk, HK. by eexists.
Qed.

Lemma keeps_QueryPartition K pid : keeps_M K (QueryPartition fault st pid).
Proof. unfold QueryPartition. auto with frames. Qed.
Lemma keeps_QueryServer K id : keeps_M K (QueryServer fault st id).
Proof. unfold QueryServer. auto with frames. Qed.

Lemma keeps_poll (K : string -> Prop) left pid : (forall k, partition_key k -> K k) -> keeps K (poll fault st registered left pid).
Proof.
  intros HK. induction left as [|left IH]; [apply keeps_ret|]. cbn [poll]. apply keeps_bind; [by apply keeps_arrivals|]. intros _ n k Hk.
  pose proof (keeps_lift K _ (keeps_QueryPartition K pid) n k Hk) as Hq. destruct (lift _ n) as [n' [?|?|?]]; cbn [fst] in *; [done| |done].
  case_bool_decide; [|done]. by rewrite (IH n' k Hk).
Qed.

Lemma keeps_create K s x : keeps K (createPartitionOnServers answer s x).
Proof. unfold createPartitionOnServers. apply keeps_recovered, keeps_fold. intros b a n k Hk. unfold send. by destruct (answer _ _). Qed.

Lemma keeps_wait (K : string -> Prop) s placed : (forall k, partition_key k -> K k) -> keeps K (wait_ s placed).
Proof.
  intros HK. unfold waitForPartitionsReady. apply keeps_bind; [apply keeps_fan_out; intros; apply keeps_create|]. intros _.
  apply keeps_bind; [|auto with frames]. apply keeps_fold. intros b x. by apply keeps_poll.
Qed.

Lemma keeps_delete_on_servers K p : keeps K (delete_on_servers fault answer st p).
Proof.
  unfold delete_on_servers. apply keeps_fold. intros b r. apply keeps_bind; [|auto with frames]. apply keeps_attempt, keeps_bind; [|auto with frames].
  apply keeps_lift, keeps_QueryServer.
Qed.

Lemma keeps_discard (K : string -> Prop) ps : (forall k, partition_key k -> K k) -> keeps K (discard_partitions fault answer st ps).
Proof.
  intros HK. unfold discard_partitions. apply keeps_fold. intros b p. apply keeps_bind; [apply keeps_delete_on_servers|]. intros _.
  apply keeps_bind; [apply keeps_attempt, keeps_lift, keeps_QueryPartition|]. intros [q|]; [|auto with frames].
  apply keeps_bind; [|auto with frames]. apply keeps_attempt, keeps_lift, keeps_Delete, HK. by eexists.
Qed.

Definition deployed_key (s : Space) (k : string) : Prop := partition_key k \/ k = SpaceKey st (S_DBId s) (S_Id s).

Lemma keeps_UpdateSpaceData (K : string -> Prop) s : K (SpaceKey st (S_DBId s) (S_Id s)) -> keeps_M K (UpdateSpaceData fault st s).
Proof. intros HK. unfold UpdateSpaceData. apply keeps_M_bind; [by apply keeps_Put|auto with frames]. Qed.

Lemma keeps_deploy s servers counts : keeps (deployed_key s) (deploy_ s servers counts).
Proof.
  unfold deploy. apply keeps_bind; [apply keeps_lift, keeps_Create; by right|]. intros _.
  apply keeps_bind; [auto with frames|]. intros placed. apply keeps_bind.
  - apply keeps_compensated; [apply keeps_wait|apply keeps_discard]; by left.
  - intros _. apply keeps_lift, keeps_UpdateSpaceData. by right.
Qed.

(** *** What the preparation gives *)

Lemma check_absent_ret dbID name w w' u : (forall c e b, fault c = Some (e, b) -> code_of e = None) ->
  check_absent fault st dbID name w = (w', Ret u) -> kv w' = kv w /\
  List.find (fun s : Space => S_Name s =?s name) (decode_all (scan (kv w) (PrefixSpace st +:+ pretty dbID +:+ "/"))) = None.
Proof.
  intros Hplain. unfold check_absent, QuerySpaceByName, QuerySpaces, QuerySpacesByKey, PrefixScan, call, mbind_M.
  destruct (fault (calls w)) as [[e b]|] eqn:Ef; cbn [fst snd].
  - specialize (Hplain _ _ _ Ef). destruct e as [c m|m]; [done|]. cbn [NewError code_of]. destruct (String.prefix _ _); by intros [= _ ?].
  - unfold mret. destruct (List.find _ _); [done|]. by intros [= <- _].
Qed.

(** The identifiers of the run, one per partition. *)
Lemma make_loop_ids {A} (body : list A -> nat -> Z -> go (list A)) key n : forall k acc w w' ps,
  mfold (fun ps i => do! id <- new_id fault key in mret (body ps i id)) acc (seq k n) w = (w', Ret ps) ->
  exists ids : nat -> go Z, (forall i, exists id, ids i = Ret id) /\ ofold (fun ps i => let! id := ids i in body ps i id) acc (seq k n) = Ret ps.
Proof.
  induction n as [|n IH]; intros k acc w w' ps H; cbn [seq mfold] in H.
  - injection H as <- <-. exists (fun _ => Ret 0). split; [by eexists|done].
  - run_inv. destruct (IH _ _ _ _ _ H) as (ids & Hids & Hf). exists (fun i => if (i =? k)%nat then Ret a0 else ids i). split.
    + intros i. destruct (i =? k)%nat; [by eexists|apply Hids].
    + cbn [seq ofold]. rewrite Nat.eqb_refl. cbn [obind]. rewrite Hr. cbn [obind]. rewrite <- Hf. apply ofold_ext_in.
      intros b i Hi%elem_of_seq. by destruct (Nat.eqb_spec i k); [lia|].
Qed.

Lemma make_partitions_ids s w w' ps : make_partitions fault st s w = (w', Ret ps) ->
  exists ids, (forall i, exists id, ids i = Ret id) /\ create_partitions s ids = Ret ps.
Proof.
  unfold make_partitions, create_partitions, name_of. intros H. run_inv. rename Hr into Hw. destruct (S_PartitionRule s) as [rule|].
  - apply make_loop_ids in H as (ids & Hids & H). exists ids. split; [done|]. rewrite Hw. cbn [obind]. rewrite <- H. apply ofold_ext.
    intros b i. destruct (ids i) as [id|?|?]; cbn [obind]; [|done..]. by destruct (index_at _ _).
  - apply make_loop_ids in H as (ids & Hids & H). exists ids. split; [done|]. rewrite Hw. cbn [obind]. done.
Qed.

(** *** The servers chosen *)

(** A partition with the servers it was placed on. *)
Definition placed_on (servers : list Server) (rc : Z) (p : Partition) (x : Partition * list string) : Prop :=
  exists chosen, Z.of_nat (length chosen) = rc /\ Forall (fun s => s ∈ servers /\ live (RpcAddr s) = true) chosen /\
    NoDup (filter (fun z => z <> ""%string) (zoneIdentifier strategy <$> chosen)) /\
    x = (set_P_Replicas (Server_ID <$> chosen) p, RpcAddr <$> chosen).

Lemma placement_zones servers counts chosen : placement live strategy servers counts chosen ->
  NoDup (filter (fun z => z <> ""%string) (zoneIdentifier strategy <$> chosen.*2)).
Proof.
  intros [_ Hnd]. induction chosen as [|x l IH]; [constructor|]. cbn in Hnd. apply NoDup_cons in Hnd as [Hx Hnd].
  cbn [fmap list_fmap]. rewrite filter_cons. case_decide as Hz; [|by apply IH]. constructor; [|by apply IH].
  intros (_ & (z & Hz2 & (y & -> & Hy)%list_elem_of_fmap)%list_elem_of_fmap)%list_elem_of_filter. apply Hx. apply list_elem_of_fmap.
  exists y. split; [|done]. unfold place. rewrite <- Hz2. by apply string_eqb_neq in Hz as ->.
Qed.

Context (Hsort : SortSlice sort) (Horder : forall m, order m ≡ₚ map_to_list m).

Lemma place_all_ret servers rc counts ps placed : 1 <= rc <= 255 -> (forall i, is_Some (counts !! i) -> (i < length servers)%nat) ->
  place_all live sort strategy order servers rc counts ps = Ret placed -> Forall2 (placed_on servers rc) ps placed.
Proof.
  intros Hrc Hidx H. unfold place_all in H. inv_ret. subst placed. destruct a as [placed counts']. cbn [fst].
  enough (Forall2 (placed_on servers rc) ps placed /\ (forall i, is_Some (counts' !! i) -> (i < length servers)%nat)) as [? _] by done.
  revert Hm. apply (ofold_inv _ (fun ps acc => Forall2 (placed_on servers rc) ps acc.1 /\ (forall i, is_Some (acc.2 !! i) -> (i < length servers)%nat))); [done|].
  clear ps placed counts counts' Hidx. intros ps p [acc c] [acc' c'] [Hall Hidx] H. unfold place_one in H. cbn [fst snd] in *. inv_ret.
  pose proof (selectServers_spec sort live strategy servers c (order c) rc Hsort Hrc (Horder c) Hidx) as Hsel. rewrite Hm in Hsel.
  destruct a as [[addrs replicas] c2]. injection H as <- <-. destruct Hsel as (chosen & Hpl & Hlen & _ & _ & Hb & -> & ->). split.
  - apply Forall2_app; [done|]. constructor; [|constructor]. exists chosen.*2. rewrite length_fmap. split; [done|]. split; [|split].
    + destruct Hpl as [Hc _]. rewrite Forall_fmap. eapply Forall_impl; [exact Hc|]. intros x (Hx & _ & Hl). split; [|done].
      by eapply list_elem_of_lookup_2.
    + by eapply placement_zones.
    + by rewrite <- !list_fmap_compose.
  - intros i Hi. apply Hidx. rewrite (Hb i) in Hi. case_bool_decide; [by apply fmap_is_Some in Hi|done].
Qed.

(** *** Waiting *)

Lemma create_spec t0 l0 s x : ntriple (fun t l => t = t0 /\ l = l0) (createPartitionOnServers answer s x)
  (fun r t l => t = t0 /\ exists l', l = l0 ++ l' /\ (r = Ret tt -> l' = (fun a => (CreatePartition a s (P_Id x.1), Ret tt)) <$> x.2)).
Proof.
  intros n [Ht Hl]. unfold createPartitionOnServers, recovered. destruct x as [p addrs]. cbn [fst snd].
  enough (forall n, let '(n', r) := nfold (fun _ address n => match send answer (CreatePartition address s (P_Id p)) n with
      | (n', Fail e) => (n', Fail (verr INTERNAL_ERROR "create partition err: %s")) | y => y end) tt addrs n in
    kv (nw n') = kv (nw n) /\ exists l', sent n' = sent n ++ l' /\ (r = Ret tt -> l' = (fun a => (CreatePartition a s (P_Id p), Ret tt)) <$> addrs)) as H.
  { specialize (H n). destruct (nfold _ tt addrs n) as [n' [?|?|?]]; cbn [fst snd]; destruct H as (Hk & l' & Hs & Hr);
      (split; [congruence|]); exists l'; (split; [congruence|]); done. }
  clear. induction addrs as [|a addrs IH]; intros n; cbn [nfold].
  - split; [done|]. exists []. by rewrite app_nil_r.
  - unfold nbind, send. destruct (answer _ _) as [[]|e|pc] eqn:Ea; cbn [fst snd].
    + specialize (IH {| nw := nw n; sent := sent n ++ [(CreatePartition a s (P_Id p), Ret tt)] |}).
      destruct (nfold _ tt addrs _) as [n' r]. destruct IH as (Hk & l' & Hs & Hr). split; [done|].
      exists ((CreatePartition a s (P_Id p), Ret tt) :: l'). cbn [sent] in Hs. rewrite Hs, <- app_assoc. split; [done|]. intros Hx.
      by rewrite (Hr Hx).
    + split; [done|]. by eexists.
    + split; [done|]. by eexists.
Qed.

(** A partition that is known stays known. *)
Definition known (t : table) (pid : Z) : Prop := is_Some (t !! PartitionKey st pid).

Lemma known_arrivals n pid : known (kv (nw n)) pid -> known (kv (nw (arrivals st registered n).1)) pid.
Proof.
  unfold arrivals, known. cbn [fst nw kv]. generalize (kv (nw n)). induction (registered (calls (nw n))) as [|p ps IH]; intros t H; [done|].
  cbn [foldl]. apply IH. unfold RegisterPartition. destruct (decide (PartitionKey st (P_Id p) = PartitionKey st pid)) as [He|Hne].
  - rewrite He. eexists. apply lookup_insert_eq.
  - destruct H as [v Hv]. exists v. etrans; [by apply lookup_insert_ne|done].
Qed.

Lemma poll_ret left pid n n' left' : poll fault st registered left pid n = (n', Ret left') ->
  known (kv (nw n')) pid /\ sent n' = sent n /\ forall q, known (kv (nw n)) q -> known (kv (nw n')) q.
Proof.
  induction left as [|left IH] in n |- *; [done|]. cbn [poll]. intros H. run_inv. destruct a.
  assert (n0 = (arrivals st registered n).1) as Hn0 by by rewrite Hr.
  assert (sent n0 = sent n /\ forall q, known (kv (nw n)) q -> known (kv (nw n0)) q) as [Hs Hk].
  { rewrite Hn0. split; [done|]. intros q. apply known_arrivals. }
  destruct (lift (QueryPartition fault st pid) n0) as [n1 [p|e|pc]] eqn:El; [| |done].
  - injection H as <- <-. run_inv. destruct (tells_ret_inv _ _ _ _ _ (tells_QueryPartition fault st (kv (nw n0)) pid) El) as [Hkv Hq].
    unfold known. rewrite Hkv, Hs0. split; [|split; [done|intros q Hq'; by apply Hk]].
    apply bind_Some in Hq as (v & Hv & _). by exists v.
  - case_bool_decide; [|done]. destruct (IH _ H) as (H1 & H2 & H3).
    assert (kv (nw n1) = kv (nw n0) /\ sent n1 = sent n0) as [E1 E2].
    { unfold lift in El. pose proof (tells_QueryPartition fault st (kv (nw n0)) pid (nw n0) eq_refl) as [Hkv _].
      destruct (QueryPartition fault st pid (nw n0)) as [w r]. by injection El as <- _. }
    split; [done|]. split; [congruence|]. intros q Hq. apply H3. rewrite E1. by apply Hk.
Qed.

Lemma polls_ret {A} (pid : A -> Z) (xs : list A) : forall left n n' left', nfold (fun left x => poll fault st registered left (pid x)) left xs n = (n', Ret left') ->
  (forall x, x ∈ xs -> known (kv (nw n')) (pid x)) /\ sent n' = sent n /\ forall q, known (kv (nw n)) q -> known (kv (nw n')) q.
Proof.
  induction xs as [|x xs IH]; intros left n n' left' H; cbn [nfold] in H.
  - injection H as <- <-. split; [by intros x ?%elem_of_nil|done].
  - run_inv. destruct (poll_ret _ _ _ _ _ Hr) as (H1 & H2 & H3). destruct (IH _ _ _ _ H) as (H4 & H5 & H6).
    split; [|split; [congruence|auto]]. intros y [->|Hy]%elem_of_cons; auto.
Qed.

Context (Hsched : forall l, sched l ≡ₚ l).

(** The partitions are ready: every server has accepted its replica and every
    partition is registered. *)
Lemma wait_ret s placed n n' u : wait_ s placed n = (n', Ret u) ->
  (forall x, x ∈ placed -> known (kv (nw n')) (P_Id x.1) /\ forall a, a ∈ x.2 -> (CreatePartition a s (P_Id x.1), Ret tt) ∈ sent n') /\
  exists l, sent n' = sent n ++ l.
Proof.
  unfold waitForPartitionsReady. intros H. run_inv. destruct a.
  destruct (fan_out_spec (createPartitionOnServers answer s) (fun x l' => l' = (fun a => (CreatePartition a s (P_Id x.1), Ret tt)) <$> x.2)
    (kv (nw n)) (sched placed) (fun x l0 => create_spec (kv (nw n)) l0 s x) (sent n) n (conj eq_refl eq_refl)) as (_ & ls & Hls & Hall).
  rewrite Hr in Hls, Hall. cbn [fst snd] in *. specialize (Hall eq_refl). destruct (polls_ret (fun x => P_Id x.1) placed _ _ _ _ Hr0) as (Hk & Hs & _).
  split; [|rewrite Hs, Hls; by eexists]. intros x Hx. split; [by apply Hk|]. intros a Ha. rewrite Hs, Hls. apply elem_of_app. right.
  rewrite <- (Hsched placed) in Hx. apply list_elem_of_lookup in Hx as [i Hi]. destruct (Forall2_lookup_l _ _ _ _ _ Hall Hi) as (l' & Hl' & ->).
  apply list_elem_of_In, in_concat. eexists. split; [apply list_elem_of_In; by eapply list_elem_of_lookup_2|].
  apply list_elem_of_In, list_elem_of_fmap. by exists a.
Qed.

(** *** The run of CreateSpace *)

Lemma compensated_ret {A} (m : N A) u n n' a : compensated m u n = (n', Ret a) -> m n = (n', Ret a).
Proof. unfold compensated. destruct (m n) as [n1 [?|?|?]]; [done| |done]. by destruct (u n1) as [n2 [?|?|?]]. Qed.

Lemma UpdateSpaceData_ret s w w' s' : UpdateSpaceData fault st s w = (w', Ret s') ->
  s' = next_version s /\ kv w' = <[SpaceKey st (S_DBId s) (S_Id s) := Marshal (next_version s)]> (kv w).
Proof.
  unfold UpdateSpaceData. intros H. run_inv. unfold Put, call in Hr. destruct (fault (calls w)) as [[? ?]|]; [done|].
  injection Hr as <- <-. by subst s'.
Qed.

Definition ready (t : table) (l : log) (s : Space) (x : Partition * list string) : Prop :=
  known t (P_Id x.1) /\ forall a, a ∈ x.2 -> (CreatePartition a s (P_Id x.1), Ret tt) ∈ l.

Lemma deploy_ret s servers counts n n' s' : 1 <= S_ReplicaNum s <= 255 -> (forall i, is_Some (counts !! i) -> (i < length servers)%nat) ->
  deploy_ s servers counts n = (n', Ret s') ->
  exists placed, Forall2 (placed_on servers (S_ReplicaNum s)) (S_Partitions s) placed /\
    s' = next_version (set_S_Enabled true (set_S_Partitions placed.*1 s)) /\
    kv (nw n') !! SpaceKey st (S_DBId s) (S_Id s) = Some (Marshal s') /\
    Forall (ready (kv (nw n')) (sent n') (set_S_Partitions placed.*1 s)) placed.
Proof.
  intros Hrc Hidx H. unfold deploy in H. run_inv. apply compensated_ret in Hr1. apply UpdateSpaceData_ret in H as [-> Hkv].
  apply place_all_ret in Hr0; [|done|done]. exists a0. split; [done|]. split; [done|]. rewrite Hkv. split; [apply lookup_insert_eq|].
  destruct (wait_ret _ _ _ _ _ Hr1) as [Hall _]. apply Forall_forall. intros x Hx. destruct (Hall x Hx) as [Hk Ha]. split; [|by rewrite Hs].
  unfold known in *. destruct (decide (SpaceKey st (S_DBId (set_S_Enabled true (set_S_Partitions a0.*1 s))) (S_Id (set_S_Enabled true (set_S_Partitions a0.*1 s))) = PartitionKey st (P_Id x.1))) as [->|Hne].
  - eexists. apply lookup_insert_eq.
  - destruct Hk as [v Hv]. exists v. etrans; [by apply lookup_insert_ne|done].
Qed.

(** The removal of a space that was not enabled. *)
Lemma remove_space_spec s r n : (forall a, r <> Ret a) ->
  let n' := (remove_space fault st s r n).1 in
  calls (nw n') = S (calls (nw n)) /\
  (kv (nw n') !! SpaceKey st (S_DBId s) (S_Id s) = None \/ exists e, fault (calls (nw n)) = Some (e, false)).
Proof.
  intros Hr. assert (remove_space fault st s r = bind_! nattempt (lift (Delete fault (SpaceKey st (S_DBId s) (S_Id s)))) in nret (Ret tt)) as ->.
  { destruct r; [by destruct (Hr a)|done..]. }
  unfold nbind, nattempt, lift, Delete, call. destruct (fault (calls (nw n))) as [[e []]|]; cbn [fst kv calls nw];
    destruct (kv (nw n) !! SpaceKey st (S_DBId s) (S_Id s)) eqn:E; cbn [fst kv calls nw]; (split; [done|]); eauto;
    left; done || apply lookup_delete_eq.
Qed.

Lemma keeps_remove s r : keeps (fun k => k = SpaceKey st (S_DBId s) (S_Id s)) (remove_space fault st s r).
Proof. unfold remove_space. destruct r; auto with frames. Qed.

Lemma checked_rule_ret s s' : 1 <= S_PartitionNum s <= 2 ^ 20 -> checked_rule ToInt64E ToTimeE s = Ret s' ->
  (exists rule, s' = set_S_Layout (S_PartitionNum s) rule (S_Partitions s) s) /\ rule_counted s' /\ 1 <= total_partitions s' <= MaxUint32.
Proof.
  intros Hn. unfold checked_rule, rule_counted, total_partitions, MaxUint32. destruct (S_PartitionRule s) as [rule|] eqn:Er.
  - destruct (PartitionRule_Validate _ _ _ _ _ _ _) as [rule' r] eqn:Ev. intros H. inv_ret. subst s' r. cbn [set_S_Layout put_S S_PartitionRule S_PartitionNum].
    split; [by eexists|]. assert (ValidateRange ToInt64E ToTimeE rule rule (S_PartitionNum s) = (rule', Ret a)) as Hv.
    { unfold PartitionRule_Validate in Ev. by repeat case_match. }
    unfold ValidateRange in Hv. destruct (negb _); [done|]. injection Hv as <- Hv. inv_ret. apply guard_err_ret in Hm, Hm0.
    apply Z.eqb_neq in Hm. apply Z.ltb_ge in Hm0. unfold MaxPartitions in Hm0. cbn [set_Partitions PR_Partitions PR_Ranges] in *. split; [done|]. nia.
  - intros [= <-]. rewrite Er. split; [|lia]. exists None. destruct s. cbn in *. by subst.
Qed.

Context (Hplain : forall c e b, fault c = Some (e, b) -> code_of e = None).

(** What the request fixes of the space that is stored. *)
Definition requested (space s : Space) (dbID : Z) : Prop :=
  S_Name s = S_Name space /\ S_DBId s = dbID /\ S_ReplicaNum s = S_ReplicaNum space /\ S_Fields s = S_Fields space /\
  S_ResourceName s = S_ResourceName space /\ UnmarshalPropertyJSON unmarshal_fields (S_Fields space) = Ret (S_SpaceProperties s) /\
  (exists idx, idx ∈ S_Indexes s /\ IsScalarIndexType (Index_Type idx) = false).

Definition name_free (t : table) (dbID : Z) (name : string) : Prop :=
  List.find (fun s : Space => S_Name s =?s name) (decode_all (scan t (PrefixSpace st +:+ pretty dbID +:+ "/"))) = None.

Lemma new_indexes_ret s isRestore idxs : new_indexes pord s isRestore = Ret idxs ->
  exists idx, idx ∈ idxs /\ IsScalarIndexType (Index_Type idx) = false.
Proof.
  unfold new_indexes. intros H. inv_ret. subst a. apply guard_err_ret, negb_false_iff, existsb_exists in Hm0 as (idx & Hin & Hix).
  exists idx. split; [by apply list_elem_of_In|by apply negb_true_iff].
Qed.

Lemma usable_servers_ret s servers w w' counts : usable_servers fault st wide ToInt64E s servers w = (w', Ret counts) ->
  forall i, is_Some (counts !! i) -> (i < length servers)%nat.
Proof. unfold usable_servers. intros H. run_inv. subst counts. intros i. apply filterAndSortServer_indices. Qed.

Lemma QueryServers_ret w w' servers : QueryServers fault st w = (w', Ret servers) -> servers = decode_all (scan (kv w) (PrefixServer st)).
Proof.
  unfold QueryServers, PrefixScan, call, mbind_M, mret. destruct (fault (calls w)) as [[? ?]|]; [done|]. by intros [= _ <-].
Qed.

Lemma prepare_ret dbID space isRestore w w' s servers counts : S_Partitions space = [] -> 1 <= S_PartitionNum space <= 2 ^ 20 ->
  prepare_ dbID space isRestore w = (w', Ret (s, servers, counts)) ->
  name_free (kv w) dbID (S_Name space) /\ servers = decode_all (scan (kv w) (PrefixServer st)) /\
  (forall i, is_Some (counts !! i) -> (i < length servers)%nat) /\ requested space s dbID /\ S_Version s = S_Version space /\
  laid_out (S_Partitions s) /\ 1 <= Z.of_nat (length (S_Partitions s)) <= MaxUint32.
Proof.
  intros Hps Hnum H. unfold prepare in H. run_inv. apply check_absent_ret in Hr as [Hkv Hfree]; [|done]. apply QueryServers_ret in Hr0.
  rewrite Hkv in Hr0. pose proof (usable_servers_ret _ _ _ _ _ Hr6) as Hidx. apply new_indexes_ret in Hr3. apply checked_rule_ret in Hr4 as ((rule & Hs2) & Hcnt & Htot); [|done].
  apply make_partitions_ids in Hr5 as (ids & Hids & Hcreate).
  assert (S_Partitions a4 = [] /\ 1 <= S_PartitionNum a4) as [Hp3 Hn3] by (subst a4; cbn; split; [done|lia]).
  destruct (create_partitions_total a4 ids Hn3 Hcnt Htot Hids) as (ps & Hc & Hall). rewrite Hcreate in Hc. injection Hc as <-.
  destruct (created_laid_out a4 ids a5 Htot Hall) as [Hlen Hlay]. rewrite Hp3 in H. cbn [app] in H. subst s servers counts.
  split; [done|]. split; [done|]. split; [done|]. split; [|split; [by subst a4|cbn; rewrite Hlen; done]].
  subst a4. unfold requested. cbn. by split_and!.
Qed.

(** Slots laid out route every hash. *)
Lemma laid_out_routes s h : laid_out (S_Partitions s) -> 1 <= Z.of_nat (length (S_Partitions s)) <= MaxUint32 -> 0 <= h ->
  exists p, S_Partitions s !! Z.to_nat (Z.min (h / (MaxUint32 / Z.of_nat (length (S_Partitions s)))) (Z.of_nat (length (S_Partitions s)) - 1)) = Some p /\
    PartitionId s h = Ret (P_Id p).
Proof.
  intros Hl Hn Hh. destruct (PartitionId_owns s h) as (i & p & Hp & Ho & Heq); [by apply laid_out_slots_ok|done|].
  exists p. by rewrite <- (laid_out_owner _ h i Hl Hn Hh Ho), Nat2Z.id.
Qed.

Lemma placed_layout servers rc ps placed : Forall2 (placed_on servers rc) ps placed ->
  length placed.*1 = length ps /\ (laid_out ps -> laid_out placed.*1) /\
  forall p, p ∈ placed.*1 -> exists x q, x ∈ placed /\ p = x.1 /\ placed_on servers rc q x.
Proof.
  intros H. assert (P_Slot <$> placed.*1 = P_Slot <$> ps) as Hslots.
  { induction H as [|p x ps placed (chosen & _ & _ & _ & ->) _ IH]; [done|]. cbn. by f_equal. }
  assert (length placed.*1 = length ps) as Hlen by (rewrite length_fmap; symmetry; by eapply Forall2_length).
  split; [done|]. split.
  - unfold laid_out. by rewrite Hslots, Hlen.
  - intros p (x & -> & [i Hi]%list_elem_of_lookup)%list_elem_of_fmap. destruct (Forall2_lookup_r _ _ _ _ _ H Hi) as (q & _ & Hq).
    exists x, q. split; [by eapply list_elem_of_lookup_2|done].
Qed.

(** ** What a creation leaves behind *)

Definition untouched (t0 t : table) (key : string) : Prop := forall k, ~ id_key k -> ~ partition_key k -> k <> key -> t !! k = t0 !! k.

(** A partition of the new space: registered, and accepted by as many live servers as there are to be replicas. *)
Definition deployed (t0 t : table) (l : log) (s0 : Space) (p : Partition) : Prop :=
  known t (P_Id p) /\ exists chosen, Z.of_nat (length chosen) = S_ReplicaNum s0 /\ P_Replicas p = Server_ID <$> chosen /\
    NoDup (filter (fun z => z <> ""%string) (zoneIdentifier strategy <$> chosen)) /\
    Forall (fun srv => srv ∈ decode_all (scan t0 (PrefixServer st)) /\ live (RpcAddr srv) = true /\
                       (CreatePartition (RpcAddr srv) s0 (P_Id p), Ret tt) ∈ l) chosen.

Definition created (t0 t : table) (l : log) (dbName : string) (space s : Space) : Prop :=
  exists v dbID s0, t0 !! DBKeyName st dbName = Some v /\ ToInt64E v = Some dbID /\ name_free t0 dbID (S_Name space) /\
    requested space s dbID /\ S_Enabled s = Some true /\ S_Version s = i64 (S_Version space + 1) /\
    t !! SpaceKey st dbID (S_Id s) = Some (Marshal s) /\ untouched t0 t (SpaceKey st dbID (S_Id s)) /\
    (forall h, in_u 32 h -> exists p, PartitionId s h = Ret (P_Id p) /\
       S_Partitions s !! Z.to_nat (Z.min (h / (MaxUint32 / Z.of_nat (length (S_Partitions s)))) (Z.of_nat (length (S_Partitions s)) - 1)) = Some p) /\
    S_ReplicaNum s0 = S_ReplicaNum space /\ Forall (deployed t0 t l s0) (S_Partitions s).

(** Nothing but used-up identifiers and registrations, or also the disabled or enabled space when
    the call that was to remove it - the last one before the lock is released - failed. *)
Definition abandoned (t0 : table) (n' : net) : Prop :=
  (forall k, ~ id_key k -> ~ partition_key k -> kv (nw n') !! k = t0 !! k) \/
  exists dbID id, untouched t0 (kv (nw n')) (SpaceKey st dbID id) /\
    (kv (nw n') !! SpaceKey st dbID id = None \/ exists c e, calls (nw n') = S (S c) /\ fault c = Some (e, false)).

Lemma deploy_created t0 n n' dbName v dbID space s servers counts s' :
  t0 !! DBKeyName st dbName = Some v -> ToInt64E v = Some dbID -> name_free t0 dbID (S_Name space) ->
  servers = decode_all (scan t0 (PrefixServer st)) -> (forall i, is_Some (counts !! i) -> (i < length servers)%nat) ->
  requested space s dbID -> S_Version s = S_Version space -> laid_out (S_Partitions s) -> 1 <= Z.of_nat (length (S_Partitions s)) <= MaxUint32 ->
  1 <= S_ReplicaNum space <= 255 -> (forall k, ~ id_key k -> kv (nw n) !! k = t0 !! k) ->
  deploy_ s servers counts n = (n', Ret s') -> created t0 (kv (nw n')) (sent n') dbName space s'.
Proof.
  intros Hv Hid Hfree Hsrv Hidx Hreq Hver Hlay Hlen Hrc Hk0 H. pose proof (keeps_deploy s servers counts n) as Hframe. rewrite H in Hframe. cbn [fst] in Hframe.
  pose proof Hreq as (_ & Hdb & Hrs & _). apply deploy_ret in H as (placed & Hpl & -> & Hstored & Hready); [|by rewrite Hrs|done].
  destruct (placed_layout _ _ _ _ Hpl) as (Hplen & Hplay & Hpin).
  exists v, dbID, (set_S_Partitions placed.*1 s). split; [done|]. split; [done|]. split; [done|]. split; [exact Hreq|]. split; [done|].
  split; [by cbn; rewrite Hver|]. cbn [next_version set_S_Enabled set_S_Identity set_S_Partitions put_S S_Id S_DBId S_Partitions S_ReplicaNum] in *.
  rewrite Hdb in Hstored. split; [done|]. split; [|split; [|split; [done|]]].
  - intros k Hi Hp Hk. etrans; [apply (Hframe k)|by apply Hk0]. unfold deployed_key. rewrite Hdb. tauto.
  - intros h [Hh _]. match goal with |- exists p, PartitionId ?sp h = _ /\ _ => destruct (laid_out_routes sp h) as (p & Hp & Hr) end;
      [by apply Hplay|cbn; by rewrite Hplen|done|]. cbn in Hp. rewrite Hp. eauto.
  - apply Forall_forall. intros p Hp. destruct (Hpin p Hp) as (x & q & Hx & -> & chosen & Hclen & Hc & Hz & Hxq).
    rewrite Forall_forall in Hready. destruct (Hready x Hx) as [Hkn Hmsg]. split; [done|]. exists chosen. split; [done|].
    subst x. cbn [fst snd] in *. split; [done|]. split; [done|]. rewrite Forall_forall in Hc |- *. intros srv Hin. destruct (Hc srv Hin) as [Hs Hl].
    split; [by rewrite <- Hsrv|]. split; [done|]. apply Hmsg. by apply list_elem_of_fmap_2.
Qed.

Lemma deploy_abandoned t0 w l s servers counts n n' r : (forall k, ~ id_key k -> kv w !! k = t0 !! k) ->
  deploy_ s servers counts {| nw := w; sent := l |} = (n, r) -> (forall a, r <> Ret a) ->
  kv (nw n') = kv (nw (remove_space fault st s r n).1) -> calls (nw n') = S (calls (nw (remove_space fault st s r n).1)) -> abandoned t0 n'.
Proof.
  intros Hw Hd Hr Hkv Hcalls. right. exists (S_DBId s), (S_Id s). destruct (remove_space_spec s r n Hr) as [Hc Hrm].
  pose proof (keeps_deploy s servers counts {| nw := w; sent := l |}) as Hfd. rewrite Hd in Hfd. cbn [fst nw] in Hfd. split.
  - intros k Hi Hp Hk. rewrite Hkv. etrans; [by apply (keeps_remove s _ n k)|]. etrans; [apply (Hfd k); by intros [?|?]|by apply Hw].
  - rewrite Hkv, Hcalls. destruct Hrm as [Hrm|[e' He]]; [by left|]. right. exists (calls (nw n)), e'. by rewrite Hc.
Qed.

Lemma locked_created t0 n n' r dbName v dbID space isRestore :
  t0 !! DBKeyName st dbName = Some v -> ToInt64E v = Some dbID -> S_Partitions space = [] -> 1 <= S_PartitionNum space <= 2 ^ 20 ->
  1 <= S_ReplicaNum space <= 255 -> kv (nw n) = t0 ->
  nwith_lock fault (bind! plan <- lift (prepare_ dbID space isRestore) in let '(s, servers, counts) := plan in
    ndefer (deploy_ s servers counts) (remove_space fault st s)) n = (n', r) ->
  match r with Ret s => created t0 (kv (nw n')) (sent n') dbName space s | _ => abandoned t0 n' end.
Proof.
  intros Hv Hid Hps Hnum Hrc Ht0 H. apply with_lock_inv in H as [(e & -> & Hkv)|(n1 & n2 & H & Hkv1 & _ & Hkv2 & Hsent & Hcalls)].
  { left. intros k _ _. by rewrite Hkv, Ht0. }
  unfold nbind, lift in H. pose proof (keeps_prepare dbID space isRestore (nw n1)) as Hframe.
  destruct (prepare_ dbID space isRestore (nw n1)) as [w [[[s servers] counts]|e|p]] eqn:Ep; cbn [fst] in Hframe.
  2, 3: injection H as <- <-; left; intros k Hi _; rewrite Hkv2, <- Ht0, <- Hkv1; by apply Hframe.
  apply prepare_ret in Ep as (Hfree & Hsrv & Hidx & Hreq & Hver & Hlay & Hlen); [|done|done].
  rewrite Hkv1, Ht0 in *. unfold ndefer in H. destruct (deploy_ s servers counts _) as [n3 r3] eqn:Ed. injection H as <- <-.
  destruct r3 as [s'|e|p].
  { rewrite Hkv2, Hsent. cbn [remove_space nret fst]. by apply (deploy_created t0 {| nw := w; sent := sent n1 |} n3 dbName v dbID space s servers counts s'). }
  all: eapply deploy_abandoned; [exact Hframe|exact Ed|done|done|done].
Qed.

(** *** The identifiers of a new space *)

Notation create_ := (CreateSpace fault answer live sched st wide ToInt64E ToTimeE unmarshal_fields unmarshal_array decode_field pord sort strategy order registered patience).

(** The steps of a creation that succeeds. *)
Lemma CreateSpace_steps dbName space isRestore n n' made : create_ dbName space isRestore n = (n', Ret made) ->
  exists v dbID w0 w l s servers counts n2, kv (nw n) !! DBKeyName st dbName = Some v /\ ToInt64E v = Some dbID /\ kv w0 = kv (nw n) /\
    prepare_ dbID space isRestore w0 = (w, Ret (s, servers, counts)) /\ deploy_ s servers counts {| nw := w; sent := l |} = (n2, Ret made) /\
    kv (nw n') = kv (nw n2) /\ sent n' = sent n2.
Proof.
  unfold CreateSpace. intros H. run_inv. pose proof (tells_QueryDBName2ID fault st ToInt64E (kv (nw n)) dbName (nw n) eq_refl) as [Hkv Hq].
  rewrite Hr in Hkv, Hq. cbn [fst snd] in Hkv, Hq. destruct Hq as (v & Hv & Hid).
  apply with_lock_inv in H as [(e & He & _)|(n1 & n2 & H & Hkv1 & _ & Hkv2 & Hsent & _)]; [done|].
  apply nbind_ret_inv in H as (n3 & [[s servers] counts] & Hp & H). apply lift_ret_inv in Hp as [Hp _].
  unfold ndefer in H. destruct (deploy_ s servers counts n3) as [n4 r4] eqn:Ed. injection H as <- ->. destruct n3 as [w l].
  exists v, a, (nw n1), w, l, s, servers, counts, n4. split_and!; [done..|by rewrite Hkv1|exact Hp|exact Ed|exact Hkv2|exact Hsent].
Qed.

(** Successive calls of [NewIDGenerate] give successive numbers. *)
Lemma make_loop_fresh (s : Space) width len : forall k acc w w' ps n,
  last_id (kv w) (PartitionIdSequence st) = Some n -> 0 <= n -> n + Z.of_nat len < 2 ^ 63 - 1 ->
  mfold (fun ps i => do! id <- new_id fault (PartitionIdSequence st) in
    mret (let! name := name_of s i in Ret (ps ++ [new_partition (u32 id) name (S_Id s) (S_DBId s) (u32 (i64 (Z.of_nat i * width)))])))
    acc (seq k len) w = (w', Ret ps) ->
  P_Id <$> ps = (P_Id <$> acc) ++ (u32 <$> seqZ (n + 1) (Z.of_nat len)).
Proof.
  induction len as [|len IH]; intros k acc w w' ps n Hl Hn Hb H.
  - injection H as _ <-. by rewrite app_nil_r.
  - cbn [seq mfold] in H. run_inv. inv_ret. subst a. pose proof (NewIDGenerate_spec fault (PartitionIdSequence st) w n Hl ltac:(lia)) as Hs.
    unfold new_id in Hr0. rewrite Hr0 in Hs. destruct Hs as (_ & -> & Hl'). eapply IH in H; [|exact Hl'|lia..].
    rewrite H, fmap_app, <- app_assoc, (seqZ_cons (n + 1)) by lia. cbn [fmap list_fmap app]. do 3 f_equal. f_equal; lia.
Qed.

(** A key a successful run does not write. *)
Lemma keeps_M_ret_inv {A} (K : string -> Prop) (m : M A) w w' a k : keeps_M K m -> ~ K k -> m w = (w', Ret a) -> kv w' !! k = kv w !! k.
Proof. intros Hm Hk H. specialize (Hm w k Hk). by rewrite H in Hm. Qed.

Lemma keeps_QueryServers K : keeps_M K (QueryServers fault st).
Proof. unfold QueryServers. apply keeps_M_bind; auto with frames. Qed.

Lemma prepare_fresh dbID space isRestore w w' s servers counts n : SpaceIdSequence st <> PartitionIdSequence st ->
  S_Partitions space = [] -> 1 <= S_PartitionNum space <= 2 ^ 20 -> last_id (kv w) (PartitionIdSequence st) = Some n -> 0 <= n <= MaxUint32 ->
  prepare_ dbID space isRestore w = (w', Ret (s, servers, counts)) ->
  P_Id <$> S_Partitions s = u32 <$> seqZ (n + 1) (Z.of_nat (length (S_Partitions s))).
Proof.
  intros Hne Hps Hnum Hl Hn H. unfold prepare in H. run_inv. apply checked_rule_ret in Hr4 as ((rule & Hs2) & Hcnt & Htot); [|done].
  assert (last_id (kv w2) (PartitionIdSequence st) = Some n) as Hl2.
  { unfold last_id, stm_get in Hl |- *. set (k := PartitionIdSequence st) in *.
    assert (kv w2 !! k = kv w !! k) as ->; [|exact Hl].
    etrans; [apply (keeps_M_ret_inv (fun k => k = SpaceIdSequence st) _ _ _ _ k (keeps_NewIDGenerate _ _ _ eq_refl)) in Hr1; [exact Hr1|congruence]|].
    etrans; [exact (keeps_M_ret_inv (fun _ => False) _ _ _ _ k (keeps_QueryServers _) (fun f => f) Hr0)|].
    exact (keeps_M_ret_inv (fun _ => False) _ _ _ _ k (keeps_check_absent _ _ _) (fun f => f) Hr). }
  unfold make_partitions in Hr5. run_inv. apply (make_loop_fresh _ _ _ _ _ _ _ _ n) in Hr5; [|done|lia|].
  - subst s a4. cbn in *. rewrite Hps, app_nil_l. pose proof (f_equal length Hr5) as E. rewrite !length_fmap, length_seqZ in E. cbn [length] in E.
    rewrite Hr5. f_equal. f_equal. lia.
  - unfold total_partitions, MaxUint32 in *. destruct (S_PartitionRule a4) as [rule'|]; [|lia].
    assert (i64 (S_PartitionNum a4 * PR_Partitions rule') = S_PartitionNum a4 * PR_Partitions rule') as -> by (apply wrap_s_id; unfold in_s; lia). lia.
Qed.

(** The partitions of a new space have the identifiers after the last one handed out. *)
Lemma CreateSpace_ids dbName space isRestore n n' made last : SpaceIdSequence st <> PartitionIdSequence st ->
  S_Partitions space = [] -> 1 <= S_PartitionNum space <= 2 ^ 20 -> 1 <= S_ReplicaNum space <= 255 ->
  last_id (kv (nw n)) (PartitionIdSequence st) = Some last -> 0 <= last <= MaxUint32 ->
  create_ dbName space isRestore n = (n', Ret made) -> P_Id <$> S_Partitions made = u32 <$> seqZ (last + 1) (Z.of_nat (length (S_Partitions made))).
Proof.
  intros Hne Hps Hnum Hrc Hl Hlast H. apply CreateSpace_steps in H as (v & dbID & w0 & w & l & s & servers & counts & n2 & _ & _ & Hw0 & Hp & Hd & _).
  rewrite <- Hw0 in Hl. pose proof (prepare_fresh _ _ _ _ _ _ _ _ _ Hne Hps Hnum Hl Hlast Hp) as Hids.
  apply prepare_ret in Hp as (_ & _ & Hidx & (_ & _ & Hrs & _) & _); [|done..]. apply deploy_ret in Hd as (placed & Hpl & -> & _); [|by rewrite Hrs|done].
  cbn [next_version set_S_Enabled set_S_Identity set_S_Partitions put_S S_Partitions].
  assert (P_Id <$> placed.*1 = P_Id <$> S_Partitions s) as ->.
  { clear Hids. induction Hpl as [|p x ps placed (chosen & _ & _ & _ & ->) _ IH]; [done|]. cbn. by f_equal. }
  by rewrite (proj1 (placed_layout _ _ _ _ Hpl)).
Qed.

Lemma CreateSpace_created dbName space isRestore n n' made : S_Partitions space = [] -> 1 <= S_PartitionNum space <= 2 ^ 20 -> 1 <= S_ReplicaNum space <= 255 ->
  create_ dbName space isRestore n = (n', Ret made) -> created (kv (nw n)) (kv (nw n')) (sent n') dbName space made.
Proof.
  intros Hps Hnum Hrc H. apply CreateSpace_steps in H as (v & dbID & w0 & w & l & s & servers & counts & n2 & Hv & Hid & Hw0 & Hp & Hd & Hk & Hs).
  pose proof (keeps_prepare dbID space isRestore w0) as Hframe. rewrite Hp in Hframe. cbn [fst] in Hframe.
  apply prepare_ret in Hp as (Hfree & Hsrv & Hidx & Hreq & Hver & Hlay & Hlen); [|done..]. rewrite Hw0 in *. rewrite Hk, Hs.
  by apply (deploy_created (kv (nw n)) {| nw := w; sent := l |} n2 dbName v dbID space s servers counts made).
Qed.
End Proofs.

(** A space is created completely or not at all, whichever calls, servers and
    registrations fail.  On success the name was free, the space is stored enabled under a key of the database,
    every hash is routed to one of its partitions, and each partition is registered and was accepted by
    [replica_num] live servers in different zones.  Otherwise nothing remains but used-up
    identifiers and registered partitions - unless the call that was to remove the space failed too.  (C4) *)
Theorem CreateSpace_correct (fault : nat -> option (error * bool)) (answer : nat -> message -> go unit) (live : string -> bool)
    (sched : list (Partition * list string) -> list (Partition * list string)) (st : Prefixes) (wide : Z -> bool) (ToInt64E ToTimeE : string -> option Z)
    (unmarshal_fields : string -> go (list Field)) (unmarshal_array : string -> go (list json)) (decode_field : json -> go field_tmp)
    (pord : gmap string SpaceProperties -> list (string * SpaceProperties))
    (sort : forall A, (A -> A -> bool) -> list A -> list A) (strategy : Z) (order : gmap nat Z -> list (nat * Z))
    (registered : nat -> list Partition) (patience : nat)
    `{HDB : !Codec DB, HSpace : !Codec Space, HPartition : !Codec Partition, HServer : !Codec Server}
    (n : net) (dbName : string) (space : Space) (isRestore : bool) :
  SortSlice sort -> (forall m, order m ≡ₚ map_to_list m) -> (forall l, sched l ≡ₚ l) ->
  (forall c e b, fault c = Some (e, b) -> code_of e = None) ->
  S_Partitions space = [] -> 1 <= S_PartitionNum space <= 2 ^ 20 -> 1 <= S_ReplicaNum space <= 255 ->
  let '(n', r) := CreateSpace fault answer live sched st wide ToInt64E ToTimeE unmarshal_fields unmarshal_array decode_field pord
                    sort strategy order registered patience dbName space isRestore n in
  match r with
  | Ret s => created live st ToInt64E unmarshal_fields strategy (kv (nw n)) (kv (nw n')) (sent n') dbName space s
  | _ => abandoned fault st (kv (nw n)) n'
  end.
Proof.
  intros Hsort Horder Hsched Hplain Hps Hnum Hrc. destruct (CreateSpace _ _ _ _ _ _ _ _ _ _ _ _ _ _ _ _ _ _ _ _ _) as [n' r] eqn:E.
  unfold CreateSpace, nbind in E. pose proof (tells_QueryDBName2ID fault st ToInt64E (kv (nw n)) dbName (nw n) eq_refl) as [Hkv Hq].
  unfold lift in E at 1. destruct (QueryDBName2ID fault st ToInt64E dbName (nw n)) as [w [dbID|e|p]]; cbn [fst snd] in *.
  2, 3: injection E as <- <-; left; intros k _ _; cbn [nw]; by rewrite Hkv.
  destruct Hq as (v & Hv & Hid). destruct (SchemaMap _ _ _) as [m|e|p]; cbn [nret] in E.
  2, 3: injection E as <- <-; left; intros k _ _; cbn [nw]; by rewrite Hkv.
  eapply (locked_created fault answer live sched st wide ToInt64E ToTimeE unmarshal_fields unmarshal_array pord sort strategy order registered patience
    Hsort Horder Hsched Hplain (kv (nw n)) {| nw := w; sent := sent n |}); [exact Hv|exact Hid|exact Hps|exact Hnum|exact Hrc|exact Hkv|exact E].
Qed.

(** ** Deletion *)

Section Deletion.
Context (fault : nat -> option (error * bool)) (answer : nat -> message -> go unit) (st : Prefixes) (ToInt64E : string -> option Z).
Context `{HSpace : !Codec Space, HServer : !Codec Server}.

Lemma Delete_spec key w : let '(w', r) := Delete fault key w in
  kv w' ⊆ kv w /\ (forall k, k <> key -> kv w' !! k = kv w !! k) /\ (r = Ret tt -> kv w' !! key = None).
Proof.
  unfold Delete, call. destruct (fault (calls w)) as [[e []]|]; cbn [fst kv]; destruct (kv w !! key) eqn:E; cbn [fst kv];
    (split; [|split]); first [done | apply delete_subseteq | intros; by apply lookup_delete_ne | intros; apply lookup_delete_eq].
Qed.

Lemma same_store_delete p n : kv (nw (delete_on_servers fault answer st p n).1) = kv (nw n).
Proof. apply map_eq. intros k. apply (keeps_delete_on_servers fault answer st (fun _ => False) p n k). by intros []. Qed.

Lemma delete_partitions_spec ps : forall n,
  let '(n', r) := nfold (fun _ p => bind_! delete_on_servers fault answer st p in lift (Delete fault (PartitionKey st (P_Id p)))) tt ps n in
  kv (nw n') ⊆ kv (nw n) /\ (forall k, k ∉ (fun p => PartitionKey st (P_Id p)) <$> ps -> kv (nw n') !! k = kv (nw n) !! k) /\
  (r = Ret tt -> forall p, p ∈ ps -> kv (nw n') !! PartitionKey st (P_Id p) = None).
Proof.
  induction ps as [|p ps IH]; intros n; cbn [nfold]; [split; [done|]; split; [done|]; by intros _ p ?%elem_of_nil|].
  unfold nbind at 1 2. pose proof (same_store_delete p n) as Hsame. destruct (delete_on_servers fault answer st p n) as [n1 [u|e|q]]; cbn [fst] in Hsame.
  2, 3: by rewrite Hsame.
  unfold lift at 1. pose proof (Delete_spec (PartitionKey st (P_Id p)) (nw n1)) as Hd.
  destruct (Delete fault (PartitionKey st (P_Id p)) (nw n1)) as [w [[]|e|q]]; destruct Hd as (Hsub & Hkeep & Hgone); rewrite Hsame in *.
  2, 3: cbn [nw]; split; [done|]; split; [|done]; intros k Hk; apply Hkeep; set_solver.
  specialize (IH {| nw := w; sent := sent n1 |}). destruct (nfold _ tt ps _) as [n' r]. cbn [nw] in IH. destruct IH as (Hsub' & Hkeep' & Hgone').
  split; [by etrans|]. split.
  - intros k Hk. rewrite Hkeep' by set_solver. apply Hkeep. set_solver.
  - intros Hr q [->|Hq]%elem_of_cons; [|by apply Hgone']. specialize (Hgone eq_refl).
    apply eq_None_not_Some. intros [v Hv]. by rewrite (lookup_weaken _ _ _ _ Hv Hsub') in Hgone.
Qed.

(** The keys of a space. *)
Definition space_keys (dbID : Z) (s : Space) : list string :=
  SpaceKey st dbID (S_Id s) :: ((fun p => PartitionKey st (P_Id p)) <$> S_Partitions s) ++ [SpaceConfigKey st dbID (S_Id s)].
End Deletion.

(** Deleting a space only takes away keys, and no others than the space's own: on success all of them - the
    space, its partitions and its configuration - are gone, on an error some of them may be.  (C33) *)
Theorem DeleteSpace_exact (fault : nat -> option (error * bool)) (answer : nat -> message -> go unit) (st : Prefixes) (ToInt64E : string -> option Z)
    `{HSpace : !Codec Space, HServer : !Codec Server} (n : net) (dbName spaceName : string) :
  let '(n', r) := DeleteSpace fault answer st ToInt64E dbName spaceName n in
  let t0 := kv (nw n) in let t := kv (nw n') in
  t ⊆ t0 /\
  (t = t0 /\ r <> Ret tt \/
   exists v dbID s, t0 !! DBKeyName st dbName = Some v /\ ToInt64E v = Some dbID /\
     List.find (fun s => S_Name s =?s spaceName) (decode_all (scan t0 (PrefixSpace st +:+ pretty dbID +:+ "/"))) = Some s /\
     forall k, if bool_decide (k ∈ space_keys st dbID s) then r = Ret tt -> t !! k = None else t !! k = t0 !! k).
Proof.
  destruct (DeleteSpace fault answer st ToInt64E dbName spaceName n) as [n' r] eqn:E. cbv zeta. unfold DeleteSpace, nbind at 1 2 in E.
  pose proof (tells_QueryDBName2ID fault st ToInt64E (kv (nw n)) dbName (nw n) eq_refl) as [Hkv Hq]. unfold lift in E at 1.
  destruct (QueryDBName2ID fault st ToInt64E dbName (nw n)) as [w [dbID|e|p]]; cbn [fst snd] in *.
  2, 3: injection E as <- <-; cbn [nw]; rewrite Hkv; by split; [|left].
  destruct Hq as (v & Hv & Hid). unfold lift in E at 1. cbn [nw] in E. pose proof (tells_QuerySpaceByName fault st (kv w) dbID spaceName w eq_refl) as [Hkv2 Hq].
  destruct (QuerySpaceByName fault st dbID spaceName w) as [w2 [s|e|p]]; cbn [fst snd] in *; rewrite Hkv in *.
  2, 3: injection E as <- <-; cbn [nw]; rewrite Hkv2; by split; [|left].
  apply with_lock_inv in E as [(e & -> & Hl)|(n1 & n2 & E & Hk1 & _ & Hk2 & _)]; cbn [nw] in *.
  { rewrite Hl, Hkv2. by split; [|left]. }
  rewrite Hkv2 in Hk1. rewrite Hk2, <- Hk1 in *. clear Hk2 n'. unfold nbind at 1 in E. unfold lift in E at 1.
  pose proof (Delete_spec fault (SpaceKey st dbID (S_Id s)) (nw n1)) as Hd.
  destruct (Delete fault _ (nw n1)) as [w3 [[]|e|p]]; destruct Hd as (Hsub & Hkeep & Hgone).
  2, 3: injection E as <- <-; cbn [nw]; split; [done|]; right; exists v, dbID, s; (split; [done|]); (split; [done|]); (split; [done|]);
    intros k; unfold space_keys; case_bool_decide as Hin; [done|]; apply Hkeep; set_solver.
  unfold nbind at 1 in E. pose proof (delete_partitions_spec fault answer st ToInt64E (S_Partitions s) {| nw := w3; sent := sent n1 |}) as Hps.
  destruct (nfold _ tt (S_Partitions s) _) as [n3 [[]|e|p]]; cbn [nw] in Hps; destruct Hps as (Hsub3 & Hkeep3 & Hgone3).
  2, 3: injection E as <- <-; split; [by etrans|]; right; exists v, dbID, s; (split; [done|]); (split; [done|]); (split; [done|]);
    intros k; unfold space_keys; case_bool_decide as Hin; [done|]; rewrite Hkeep3 by set_solver; apply Hkeep; set_solver.
  unfold lift in E. pose proof (Delete_spec fault (SpaceConfigKey st dbID (S_Id s)) (nw n3)) as Hd.
  destruct (Delete fault _ (nw n3)) as [w4 r4]. injection E as <- <-. destruct Hd as (Hsub4 & Hkeep4 & Hgone4). cbn [nw].
  assert (kv w4 ⊆ kv w3) as Hsub43 by by etrans.
  split; [by etrans|]. right. exists v, dbID, s. split; [done|]. split; [done|]. split; [done|]. intros k. unfold space_keys. case_bool_decide as Hin.
  - intros ->. apply elem_of_cons in Hin as [->|[(p & -> & Hp)%list_elem_of_fmap| ->%list_elem_of_singleton]%elem_of_app]; [..|by apply Hgone4].
    + eapply lookup_weaken_None; [by apply Hgone|done].
    + eapply lookup_weaken_None; [by apply Hgone3|done].
  - rewrite Hkeep4, Hkeep3 by set_solver. apply Hkeep. set_solver.
Qed.

(** ** Growth *)

Section Growth.
Context (fault : nat -> option (error * bool)) (answer : nat -> message -> go unit) (live : string -> bool)
  (sched : list (Partition * list string) -> list (Partition * list string)) (st : Prefixes) (wide : Z -> bool) (ToInt64E : string -> option Z).
Context (sort : forall A, (A -> A -> bool) -> list A -> list A) (strategy : Z) (order : gmap nat Z -> list (nat * Z)).
Context (registered : nat -> list Partition) (patience : nat).
Context `{HDB : !Codec DB, HSpace : !Codec Space, HPartition : !Codec Partition, HServer : !Codec Server}.

Lemma new_partitions_ret (s : Space) names : forall w w' ps, new_partitions fault st s names w = (w', Ret ps) -> P_Name <$> ps = names.
Proof.
  enough (forall acc w w' ps, mfold (fun ps name => do! id <- new_id fault (PartitionIdSequence st) in
      mret (Ret (ps ++ [new_partition (u32 id) name (S_Id s) (S_DBId s) 0]))) acc names w = (w', Ret ps) -> P_Name <$> ps = (P_Name <$> acc) ++ names) as H.
  { intros w w' ps Hr. by apply H in Hr. }
  induction names as [|name names IH]; intros acc w w' ps H; cbn [mfold] in H.
  - injection H as _ <-. by rewrite app_nil_r.
  - run_inv. apply IH in H. rewrite H. subst a. rewrite fmap_app, <- app_assoc. done.
Qed.

Lemma keeps_new_partitions (K : string -> Prop) s names : K (PartitionIdSequence st) -> keeps_M K (new_partitions fault st s names).
Proof. intros HK. unfold new_partitions. apply keeps_M_fold. intros b x. apply keeps_M_bind; [by apply keeps_NewIDGenerate|auto with frames]. Qed.

Definition growth_key (s : Space) (k : string) : Prop := id_key st k \/ deployed_key st s k.

Lemma keeps_expand space num : keeps (growth_key space)
  (expandPartitions fault answer live sched st wide ToInt64E sort strategy order registered patience space num).
Proof.
  unfold expandPartitions, QueryServers.
  repeat first [apply keeps_wait; intros k Hk; by right; left | apply keeps_UpdateSpaceData; by right; right | apply keeps_usable_servers
    | apply keeps_new_partitions; by left; right | apply keeps_bind; [|intros ?] | apply keeps_lift | progress auto 6 with frames].
Qed.
End Growth.

(** Growing a space keeps its partitions, adds new ones and routes over all of them: on success the space is stored with the old
    partitions followed by the new ones, every hash is routed by equal slots over all of
    them, and the new ones are registered and accepted by live servers.  In any case no key outside of the space's, the partitions' and
    the sequences changes. *)
Theorem expandPartitions_correct (fault : nat -> option (error * bool)) (answer : nat -> message -> go unit) (live : string -> bool)
    (sched : list (Partition * list string) -> list (Partition * list string)) (st : Prefixes) (wide : Z -> bool) (ToInt64E : string -> option Z)
    (sort : forall A, (A -> A -> bool) -> list A -> list A) (strategy : Z) (order : gmap nat Z -> list (nat * Z))
    (registered : nat -> list Partition) (patience : nat)
    `{HDB : !Codec DB, HSpace : !Codec Space, HPartition : !Codec Partition, HServer : !Codec Server}
    (n : net) (space : Space) (num : Z) :
  SortSlice sort -> (forall m, order m ≡ₚ map_to_list m) -> (forall l, sched l ≡ₚ l) ->
  1 <= S_ReplicaNum space <= 255 -> Z.of_nat (length (S_Partitions space)) = S_PartitionNum space -> S_PartitionNum space < num <= MaxUint32 ->
  let '(n', r) := expandPartitions fault answer live sched st wide ToInt64E sort strategy order registered patience space num n in
  (forall k, ~ growth_key st space k -> kv (nw n') !! k = kv (nw n) !! k) /\
  forall s, r = Ret s ->
    kv (nw n') !! SpaceKey st (S_DBId space) (S_Id space) = Some (Marshal s) /\ S_Version s = i64 (S_Version space + 1) /\
    Z.of_nat (length (S_Partitions s)) = num /\
    (forall h, in_u 32 h -> exists p, PartitionId s h = Ret (P_Id p) /\
       S_Partitions s !! Z.to_nat (Z.min (h / (MaxUint32 / num)) (num - 1)) = Some p) /\
    exists placed s0 servers news, P_Id <$> S_Partitions s = P_Id <$> S_Partitions space ++ placed.*1 /\
      Forall2 (placed_on live strategy servers (S_ReplicaNum space)) news placed /\ Forall (ready st (kv (nw n')) (sent n') s0) placed.
Proof.
  intros Hsort Horder Hsched Hrc Hlen Hnum.
  pose proof (keeps_expand fault answer live sched st wide ToInt64E sort strategy order registered patience space num n) as Hframe.
  destruct (expandPartitions _ _ _ _ _ _ _ _ _ _ _ _ _ _ _) as [n' r] eqn:E. split; [exact Hframe|]. intros s ->.
  unfold expandPartitions in E. run_inv. apply UpdateSpaceData_ret in E as [-> Hkv].
  assert (forall i, is_Some (a2 !! i) -> (i < length a1)%nat) as Hidx by by eapply usable_servers_ret.
  pose proof (place_all_ret live sort strategy order Hsort Horder _ _ _ _ _ Hrc Hidx Hr4) as Hpl.
  destruct (placed_layout live strategy _ _ _ _ Hpl) as (Hplen & _ & _).
  assert (length a0 = Z.to_nat (num - S_PartitionNum space)) as Hnew.
  { erewrite <- (length_fmap P_Name), new_partitions_ret by exact Hr0. apply length_replicate. }
  cbn [set_S_Layout put_S S_Partitions] in Hr6.
  assert (Z.of_nat (length (S_Partitions space ++ a4.*1)) = num) as Htot by (rewrite length_app; lia).
  destruct (reslot_lays_out (S_Partitions space ++ a4.*1) 1 num) as (ps & Hps & _ & Hlay & _ & Hids & _); [unfold MaxUint32 in *; lia|lia|].
  rewrite Htot, Hr6 in Hps. injection Hps as ->.
  assert (length ps = length (S_Partitions space ++ a4.*1)) as Hpslen by (by rewrite <- (length_fmap P_Id), Hids, length_fmap).
  split; [rewrite Hkv; apply lookup_insert_eq|]. split; [done|]. cbn [next_version set_S_Partitions set_S_Layout put_S S_Partitions] in *.
  split; [by rewrite Hpslen|]. split.
  - intros h [Hh _]. match goal with |- exists p, PartitionId ?sp h = _ /\ _ => destruct (laid_out_routes sp h) as (p & Hp & Hr') end;
      [done|cbn; unfold MaxUint32 in *; lia|done|]. cbn in Hp. rewrite Hpslen, Htot in Hp. eauto.
  - destruct (wait_ret fault answer sched st registered patience Hsched _ _ _ _ _ Hr5) as [Hall _].
    exists a4. eexists _, a1, a0. split; [exact Hids|]. split; [exact Hpl|].
    apply Forall_forall. intros x Hx. destruct (Hall x Hx) as [Hk Ha]. split; [|match goal with H : sent n' = sent _ |- _ => by rewrite H end].
    unfold known. rewrite Hkv. match goal with |- is_Some (<[?key := _]> _ !! ?k) => destruct (decide (key = k)) as [->|Hne] end.
    + eexists. apply lookup_insert_eq.
    + destruct Hk as [v Hv]. exists v. etrans; [by apply lookup_insert_ne|done].
Qed.

(** ** Dropping a range *)

Section Dropping.
Context (fault : nat -> option (error * bool)) (answer : nat -> message -> go unit) (st : Prefixes).
Context `{HSpace : !Codec Space, HServer : !Codec Server}.

Lemma reslot_ids num partitions ps ps' : reslot_rule num partitions ps = Ret ps' -> P_Id <$> ps' = P_Id <$> ps.
Proof.
  unfold reslot_rule. intros H. inv_ret. revert H. apply (ofold_inv _ (fun _ ps' => P_Id <$> ps' = P_Id <$> ps)); [done|].
  clear. intros l i acc acc' IH H. unfold set_slot_at in H. inv_ret. subst acc'. rewrite <- IH. apply list_eq. intros j. rewrite !list_lookup_fmap.
  unfold index_at in Hm. destruct (Z.ltb_spec (Z.of_nat i) 0); [done|]. rewrite Nat2Z.id in Hm. destruct (acc !! i) as [p|] eqn:Ei; [|done]. injection Hm as ->.
  destruct (decide (i = j)) as [<-|Hne]; [|by rewrite list_lookup_insert_ne].
  rewrite list_lookup_insert_eq by (by eapply lookup_lt_Some). by rewrite Ei.
Qed.

Lemma filter_names name (l : list Range) : List.filter (fun r => negb (R_Name r =?s name)) l = filter (fun r => R_Name r <> name) l.
Proof.
  induction l as [|x l IH]; [done|]. rewrite filter_cons. cbn [List.filter]. destruct (R_Name x =?s name) eqn:E; cbn [negb].
  - apply string_eqb_eq in E. by rewrite decide_False by (by intros ?).
  - apply string_eqb_neq in E. rewrite decide_True by done. by rewrite IH.
Qed.

(** The loop over the partitions: those of the range lose their key, the others stay. *)
Lemma drop_loop name ps : forall acc n n' rest, nfold (drop_partition fault answer st name) acc ps n = (n', Ret rest) ->
  rest = acc ++ filter (fun p => P_Name p <> name) ps /\ kv (nw n') ⊆ kv (nw n) /\
  (forall p, p ∈ ps -> P_Name p = name -> kv (nw n') !! PartitionKey st (P_Id p) = None).
Proof.
  induction ps as [|p ps IH]; intros acc n n' rest H; cbn [nfold] in H.
  - injection H as <- <-. rewrite app_nil_r. split; [done|]. split; [done|]. by intros p ?%elem_of_nil.
  - run_inv. apply IH in H as (-> & Hsub & Hgone). unfold drop_partition in Hr. rewrite filter_cons. destruct (P_Name p =?s name) eqn:En.
    + apply string_eqb_eq in En. cbn [negb] in Hr. run_inv. injection Hr as <-. rewrite decide_False by (by intros ?).
      assert (kv (nw n1) = kv (nw n)) as Hk1 by (by rewrite <- (same_store_delete fault answer st p n), Hr0).
      pose proof (Delete_spec fault (PartitionKey st (P_Id p)) (nw n1)) as Hd. rewrite Hr1 in Hd. destruct a1, Hd as (Hsub1 & _ & Hg1). rewrite Hk1 in Hsub1.
      split; [done|]. split; [by etrans|]. intros q [->|Hq]%elem_of_cons Hname; [|by apply Hgone].
      eapply lookup_weaken_None; [by apply Hg1|done].
    + apply string_eqb_neq in En. cbn [negb] in Hr. run_inv. injection Hr as <-. rewrite decide_True by done.
      split; [by rewrite <- app_assoc|]. split; [done|]. intros q [->|Hq]%elem_of_cons Hname; [done|by apply Hgone].
Qed.
End Dropping.

(** Dropping a range of a space removes its partitions and nothing else: on success the stored space has the other ranges and the other
    partitions, in their order and with their identifiers, and the keys of the dropped partitions are gone. *)
Theorem drop_range_exact (fault : nat -> option (error * bool)) (answer : nat -> message -> go unit) (live : string -> bool)
    (sched : list (Partition * list string) -> list (Partition * list string)) (st : Prefixes) (wide : Z -> bool) (ToInt64E ToTimeE : string -> option Z)
    (sort : forall A, (A -> A -> bool) -> list A -> list A) (strategy : Z) (order : gmap nat Z -> list (nat * Z))
    (registered : nat -> list Partition) (patience : nat)
    `{HDB : !Codec DB, HSpace : !Codec Space, HPartition : !Codec Partition, HServer : !Codec Server}
    (arrived : nat -> bool) (partitionName : option string) (partitionRule : option PartitionRule) (rule : PartitionRule) (space : Space) (n n' : net) (s : Space) :
  updateSpacePartitonRule fault answer live sched st wide ToInt64E ToTimeE sort strategy order registered patience
    arrived partitionName Drop partitionRule rule space n = (n', Ret s) ->
  exists name, partitionName = Some name /\ (exists r, r ∈ PR_Ranges rule /\ R_Name r = name) /\
    kv (nw n') !! SpaceKey st (S_DBId space) (S_Id space) = Some (Marshal s) /\
    P_Id <$> S_Partitions s = P_Id <$> filter (fun p => P_Name p <> name) (S_Partitions space) /\
    (exists rule', S_PartitionRule s = Some rule' /\ PR_Ranges rule' = filter (fun r => R_Name r <> name) (PR_Ranges rule) /\
       PR_Partitions rule' = Z.of_nat (length (PR_Ranges rule'))) /\
    forall p, p ∈ S_Partitions space -> P_Name p = name -> PartitionKey st (P_Id p) <> SpaceKey st (S_DBId space) (S_Id space) ->
      kv (nw n') !! PartitionKey st (P_Id p) = None.
Proof.
  intros H. unfold updateSpacePartitonRule in H. change (Drop =?s Drop) with true in H. change (Drop =?s Add) with false in H. cbv iota in H.
  unfold drop_range in H. destruct partitionName as [name|]; [|by run_inv]. run_inv. exists name. split; [done|].
  match goal with H : guard_err (negb (existsb _ _)) _ = Ret _ |- _ => apply guard_err_ret, negb_false_iff, existsb_exists in H as (r & Hin & Hrn) end.
  apply string_eqb_eq in Hrn.
  split; [exists r; split; [by apply list_elem_of_In|done]|]. apply UpdateSpaceData_ret in H as [-> Hkv].
  match goal with H : nfold _ _ _ _ = _ |- _ => apply drop_loop in H as (-> & _ & Hgone) end.
  injection Hr as <-. injection Hr0 as <-.
  cbn [set_S_Layout put_S S_PartitionRule S_Partitions S_PartitionNum S_DBId S_Id next_version default from_option id PR_Ranges set_Partitions PR_Partitions app] in *.
  split; [rewrite Hkv; apply lookup_insert_eq|]. split; [by apply reslot_ids in Hr1|]. split.
  - eexists. split; [done|]. cbn [PR_Ranges PR_Partitions]. split; [apply filter_names|done].
  - intros p Hp Hname Hne. rewrite Hkv, lookup_insert_ne by done. by apply Hgone.
Qed.

(** ** Concrete runs *)

Definition fresh_net : net :=
  {| nw := {| kv := {[ DBKeyName demo_st "db" := "1"%string; DBKeyBody demo_st 1 := "{}"%string; ServerKey demo_st 1 := "{}"%string ]}; calls := 0 |}; sent := [] |}.
Definition fresh_space : Space := set_S_Schema "old" ∅ (demo_space 1 None []).

Definition demo_creation : net * go Space :=
  CreateSpace (HDB := one_codec demo_db) (HSpace := one_codec demo_two) (HPartition := one_codec (demo_partition 1)) (HServer := one_codec demo_server)
    no_fault (fun _ _ => Ret tt) (fun _ => true) id demo_st (fun _ => false) ParseInt ParseInt demo_schema (fun _ => Ret []) demo_decode
    demo_order (@insertion_sort) 0 map_to_list (fun _ => [demo_partition 1]) 3 "db" fresh_space false fresh_net.

Lemma demo_creation_run : exists s, demo_creation.2 = Ret s /\ S_Id s = 1 /\ P_Id <$> S_Partitions s = [1] /\ P_Replicas <$> S_Partitions s = [[1]].
Proof. eexists. split; [vm_compute; reflexivity|]. vm_compute. repeat split; reflexivity. Qed.

Lemma CreateSpace_correct_witness : exists s, demo_creation.2 = Ret s /\ S_Enabled s = Some true /\ PartitionId s 4000000000 = Ret 1.
Proof.
  pose proof (CreateSpace_correct no_fault (fun _ _ => Ret tt) (fun _ => true) id demo_st (fun _ => false) ParseInt ParseInt demo_schema (fun _ => Ret [])
    demo_decode demo_order (@insertion_sort) 0 map_to_list (fun _ => [demo_partition 1]) 3 (HDB := one_codec demo_db) (HSpace := one_codec demo_two)
    (HPartition := one_codec (demo_partition 1)) (HServer := one_codec demo_server) fresh_net "db" fresh_space false insertion_sort_slice
    ltac:(done) ltac:(done) ltac:(done) eq_refl ltac:(split; vm_compute; discriminate) ltac:(split; vm_compute; discriminate)) as H.
  change (CreateSpace _ _ _ _ _ _ _ _ _ _ _ _ _ _ _ _ _ _ _ _ _) with demo_creation in H. destruct demo_creation_run as (s & Hr & _ & Hid & _).
  destruct demo_creation as [n' r]. cbn [snd] in Hr. subst r. exists s. split; [reflexivity|].
  destruct H as (v & dbID & s0 & _ & _ & _ & _ & He & _ & _ & _ & Hroute & _). split; [exact He|].
  destruct (Hroute 4000000000) as (p & -> & Hp); [unfold in_u; lia|]. f_equal. apply list_elem_of_lookup_2 in Hp.
  apply (list_elem_of_fmap_2 P_Id) in Hp. rewrite Hid in Hp. by apply list_elem_of_singleton in Hp.
Defined.

Definition grown_space : Space := demo_space 1 None [demo_partition 5].
Definition demo_growth : net * go Space :=
  expandPartitions (HDB := one_codec demo_db) (HSpace := one_codec grown_space) (HPartition := one_codec (demo_partition 1)) (HServer := one_codec demo_server)
    no_fault (fun _ _ => Ret tt) (fun _ => true) id demo_st (fun _ => false) ParseInt (@insertion_sort) 0 map_to_list
    (fun _ => [demo_partition 1]) 3 grown_space 2 fresh_net.

Lemma demo_growth_run : exists s, demo_growth.2 = Ret s /\ P_Id <$> S_Partitions s = [5; 1].
Proof. eexists. split; [vm_compute; reflexivity|]. vm_compute. reflexivity. Qed.

Lemma expandPartitions_correct_witness : exists s, demo_growth.2 = Ret s /\ PartitionId s 4000000000 = Ret 1.
Proof.
  pose proof (expandPartitions_correct no_fault (fun _ _ => Ret tt) (fun _ => true) id demo_st (fun _ => false) ParseInt (@insertion_sort) 0 map_to_list
    (fun _ => [demo_partition 1]) 3 (HDB := one_codec demo_db) (HSpace := one_codec grown_space) (HPartition := one_codec (demo_partition 1))
    (HServer := one_codec demo_server) fresh_net grown_space 2 insertion_sort_slice ltac:(done) ltac:(done)
    ltac:(split; vm_compute; discriminate) eq_refl ltac:(split; [vm_compute; reflexivity|vm_compute; discriminate])) as H.
  change (expandPartitions _ _ _ _ _ _ _ _ _ _ _ _ _ _ fresh_net) with demo_growth in H. destruct demo_growth_run as (s & Hr & Hid).
  destruct demo_growth as [n' r]. cbn [snd] in Hr. subst r. exists s. split; [reflexivity|].
  destruct H as [_ H]. destruct (H s eq_refl) as (_ & _ & _ & Hroute & _).
  destruct (Hroute 4000000000) as (p & -> & Hp); [unfold in_u; lia|]. f_equal.
  assert ((P_Id <$> S_Partitions s) !! 1%nat = Some (P_Id p)) as Hp1 by (rewrite list_lookup_fmap; change 1%nat with (Z.to_nat (Z.min (4000000000 / (MaxUint32 / 2)) (2 - 1))); by rewrite Hp).
  rewrite Hid in Hp1. by injection Hp1.
Defined.

Definition ranged_space : Space :=
  let mk id name := new_partition id name 7 1 0 in
  demo_space 1 (Some {| PR_Type := RangePartition; PR_Field := "day"; PR_Partitions := 2; PR_Ranges := [{| R_Name := "a"; R_Value := "1" |}; {| R_Name := "b"; R_Value := "2" |}] |})
    [mk 1 "a"; mk 2 "b"]%string.
Definition ranged_net : net :=
  {| nw := {| kv := {[ PartitionKey demo_st 1 := "{}"%string; PartitionKey demo_st 2 := "{}"%string ]}; calls := 0 |}; sent := [] |}.
Definition demo_drop : net * go Space :=
  updateSpacePartitonRule (HDB := one_codec demo_db) (HSpace := one_codec ranged_space) (HPartition := one_codec (demo_partition 1)) (HServer := one_codec demo_server)
    no_fault (fun _ _ => Ret tt) (fun _ => true) id demo_st (fun _ => false) ParseInt ParseInt (@insertion_sort) 0 map_to_list (fun _ => []) 3
    (fun _ => false) (Some "a"%string) Drop None (default {| PR_Type := ""; PR_Field := ""; PR_Partitions := 0; PR_Ranges := [] |} (S_PartitionRule ranged_space))
    ranged_space ranged_net.

Lemma demo_drop_run : exists n' s, demo_drop = (n', Ret s).
Proof. eexists _, _. vm_compute. reflexivity. Qed.

Lemma drop_range_exact_witness : exists n' s, demo_drop = (n', Ret s) /\ P_Id <$> S_Partitions s = [2].
Proof.
  destruct demo_drop_run as (n' & s & H). exists n', s. split; [exact H|].
  destruct (drop_range_exact (HDB := one_codec demo_db) (HSpace := one_codec ranged_space) (HPartition := one_codec (demo_partition 1))
    (HServer := one_codec demo_server) no_fault (fun _ _ => Ret tt) (fun _ => true) id demo_st (fun _ => false) ParseInt ParseInt (@insertion_sort) 0
    map_to_list (fun _ => []) 3 (fun _ => false) _ None _ ranged_space ranged_net n' s H) as (name & Hn & _ & _ & Hids & _). injection Hn as <-.
  rewrite Hids. reflexivity.
Defined.
