(* ===== verification/Members.v ===== *)
(** * Replicas and servers (internal/master/services/member_service.go and
    server_service.go, internal/client/master.go)

    Moving replicas between servers: one membership change of a partition ([ChangeMember]), one replica more
    or less for every partition of a space ([ChangeReplica]), and the replacement of a failed server.

    [ChangeReplica] and [RecoverFailServer] defer [errutil.CatchError], which recovers a panic but
    leaves the result of the function as it is: [swallow].  [throw] is [errutil.ThrowError]. *)

From S2P Require Import Prelude.
From S2P Require Import Text.
From S2P Require Import Errors.
From S2P Require Import Names.
From S2P Require Import Keys.
From S2P Require Import Schema.
From S2P Require Import Partition.
From S2P Require Import Space.
From S2P Require Import Floats.
From S2P Require Import Placement.
From S2P Require Import Store.
From S2P Require Import Net.
From S2P Require Import Databases.
From S2P Require Import Cache.
From S2P Require Import Indexes.
From S2P Require Import SpaceUpdate.
From S2P Require Import SpaceLife.
Open Scope Z_scope.

(** ** Panics *)

Definition throw {A} (m : N A) : N A := fun n => match m n with (n', Fail _) => (n', Panic Thrown) | x => x end.

(** [defer errutil.CatchError(&e)] where the named result is nil. *)
Definition swallow (m : N unit) : N unit := fun n => match m n with (n', Panic _) => (n', Ret tt) | x => x end.

(** ** Choice of the replicas to change *)

Definition set_PartitionIds (ids : list Z) (s : Server) : Server :=
  {| Server_ID := Server_ID s; Server_ResourceName := Server_ResourceName s; Server_RpcPort := Server_RpcPort s; Server_Ip := Server_Ip s;
     HostIp := HostIp s; HostRack := HostRack s; HostZone := HostZone s; PartitionIds := ids; Private := Private s |}.

(** [isPartitionIdInSlice]: the first position, if any. *)
Definition isPartitionIdInSlice (x : Z) (l : list Z) : option nat := fst <$> list_find (fun v => v = x) l.

Section Plan.
Context (sort : forall A, (A -> A -> bool) -> list A -> list A) (ConfAddNode ConfRemoveNode : Z).

(** What a server is used for, with its partitions afterwards. *)
Definition change_on (method : Z) (p : Partition) (s : Server) : option Server :=
  if method =? ConfAddNode then
    match isPartitionIdInSlice (Server_ID s) (P_Replicas p) with
    | None => Some (set_PartitionIds (PartitionIds s ++ [P_Id p]) s)
    | Some _ => None
    end
  else if method =? ConfRemoveNode then
    match isPartitionIdInSlice (P_Id p) (PartitionIds s) with
    | Some i => Some (set_PartitionIds (remove_at (PartitionIds s) i) s)
    | None => None
    end
  else None.

(** The loop over the servers: the first one that is used. *)
Fixpoint change_first (method : Z) (p : Partition) (servers : list Server) : list Server * option ChangeMember_ :=
  match servers with
  | [] => ([], None)
  | s :: servers' =>
    match change_on method p s with
    | Some s' => (s' :: servers', Some {| CM_PartitionID := P_Id p; CM_NodeID := Server_ID s; CM_Method := method |})
    | None => let '(rest, cm) := change_first method p servers' in (s :: rest, cm)
    end
  end.

Definition emptier (a b : Server) : bool := (length (PartitionIds a) <? length (PartitionIds b))%nat.

(** The loop over the partitions. *)
Definition plan_step (method : Z) (acc : list Server * list ChangeMember_) (p : Partition) : list Server * list ChangeMember_ :=
  let '(servers, cm) := change_first method p (sort _ emptier acc.1) in
  (servers, acc.2 ++ match cm with Some c => [c] | None => [] end).
Definition change_plan (method : Z) (servers : list Server) (ps : list Partition) : list ChangeMember_ :=
  (foldl (plan_step method) (servers, []) ps).2.
End Plan.

(** ** One membership change *)

(** [spacePartition.Replicas = ids], on the first partition of that id. *)
Fixpoint change_replicas (pid : Z) (f : list Z -> list Z) (ps : list Partition) : list Partition :=
  match ps with
  | [] => []
  | p :: ps' => if P_Id p =? pid then set_P_Replicas (f (P_Replicas p)) p :: ps' else p :: change_replicas pid f ps'
  end.

(** The space as the request of its own update. *)
Definition request_of (s : Space) : update_request :=
  {| U_Name := S_Name s; U_Enabled := S_Enabled s; U_DBId := S_DBId s; U_PartitionNum := S_PartitionNum s; U_ReplicaNum := S_ReplicaNum s;
     U_Partitions := Some (S_Partitions s); U_Fields := S_Fields s; U_PartitionName := S_PartitionName s;
     U_PartitionOperatorType := S_PartitionOperatorType s; U_PartitionRule := S_PartitionRule s |}.

Record FailServer : Type := { FS_ID : Z; FS_Node : option Server }.

Section Service.
Context (wide : Z -> bool) (fault : nat -> option (error * bool)) (answer : nat -> message -> go unit) (live : string -> bool)
  (sched : list Partition -> list Partition) (st : Prefixes) (ToInt64E : string -> option Z).
Context (unmarshal_fields : string -> go (list Field)) (unmarshal_objects : string -> go (list jobject)) (marshal_objects : list jobject -> string)
  (ord : gmap string jobject -> list (string * jobject)) (pord : gmap string SpaceProperties -> list (string * SpaceProperties)).
(** The codes of the raft library; a sort. *)
Context (ConfAddNode ConfRemoveNode : Z) (sort : forall A, (A -> A -> bool) -> list A -> list A).
Context (resources : Space -> update_request -> N Space).
Context `{HDB : !Codec DB, HSpace : !Codec Space, HPartition : !Codec Partition, HServer : !Codec Server, HFail : !Codec FailServer}.

Notation update_space := (UpdateSpace wide fault answer live sched st ToInt64E unmarshal_fields unmarshal_objects marshal_objects ord pord resources).

(** The replicas after the change, or why there is none. *)
Definition next_replicas (cm : ChangeMember_) (space : Space) : go Space :=
  match GetPartition space (CM_PartitionID cm) with
  | None => Panic NilDeref
  | Some p =>
    if negb (CM_Method cm =? ConfRemoveNode) then
      if bool_decide (CM_NodeID cm ∈ P_Replicas p) then Fail (verr PARAM_ERROR "partition:[%d] already on server:[%d] in replicas:[%v]")
      else Ret (set_S_Partitions (change_replicas (CM_PartitionID cm) (fun l => l ++ [CM_NodeID cm]) (S_Partitions space)) space)
    else if (length (P_Replicas p) =? 0)%nat then Panic MakeSlice
    else Ret (set_S_Partitions (change_replicas (CM_PartitionID cm) (filter (fun id => id <> CM_NodeID cm)) (S_Partitions space)) space)
  end.

(** The retries for the server of the leader, with what is left of [retryTimes]. *)
Fixpoint find_leader (retryTimes : nat) (pid : Z) : N Server :=
  bind! partition <- lift (QueryPartition fault st pid) in
  fun n => match lift (QueryServer fault st (P_LeaderID partition)) n with
           | (n', Fail e) => match retryTimes with
                             | O | 1%nat => (n', Fail e)
                             | S retryTimes' => find_leader retryTimes' pid n'
                             end
           | x => x
           end.

(** The server of the leader: at once or after the retries. *)
Definition first_leader (partition : Partition) (pid : Z) : N Server := fun n =>
  match lift (QueryServer fault st (P_LeaderID partition)) n with
  | (n', Fail _) => find_leader 10 pid n'
  | x => x
  end.

(** [err := call; if err != nil { return NewError(code, ...) }] *)
Definition wrapping {A} (e : error) (m : N A) : N A := fun n => match m n with (n', Fail _) => (n', Fail e) | x => x end.

(** [ChangeMember] up to the update of the space: the name of the database and the changed space. *)
Definition change_on_servers (cm : ChangeMember_) : N (string * Space) :=
  bind! partition <- lift (QueryPartition fault st (CM_PartitionID cm)) in
  bind! space <- lift (QuerySpaceByID fault st (P_DBId partition) (P_SpaceId partition)) in
  bind! dbName <- lift (QueryDBId2Name fault st (S_DBId space)) in
  bind! space' <- nret (next_replicas cm space) in
  bind! psNode <- first_leader partition (CM_PartitionID cm) in
  bind! targetNode <- (if CM_Method cm =? ConfRemoveNode then nattempt (lift (QueryServer fault st (CM_NodeID cm)))
                       else bind! s <- lift (QueryServer fault st (CM_NodeID cm)) in nret (Ret (Some s))) in
  bind_! nret (guard_err (negb (live (RpcAddr psNode))) (verr PARTITION_SERVER_ERROR "server:[%d] addr:[%s] can not connect ")) in
  bind_! (match targetNode with
          | Some target =>
            if CM_Method cm =? ConfAddNode
            then wrapping (verr INTERNAL_ERROR "create partiiton has err:[%s] addr:[%s]") (send answer (CreatePartition (RpcAddr target) space' (CM_PartitionID cm)))
            else nret (guard_err (negb (CM_Method cm =? ConfRemoveNode)) (verr INTERNAL_ERROR "change member only support add:[%d] remove:[%d] not support:[%d]"))
          | None => nret (guard_err (negb (CM_Method cm =? ConfRemoveNode)) (verr INTERNAL_ERROR "change member only support add:[%d] remove:[%d] not support:[%d]"))
          end) in
  bind_! send answer (ChangeMember (RpcAddr psNode) cm) in
  bind_! (match targetNode with
          | Some target =>
            if (CM_Method cm =? ConfRemoveNode) && live (RpcAddr target)
            then wrapping (verr INTERNAL_ERROR "delete partiiton has err:[%s] addr:[%s]") (send answer (DeleteReplica (RpcAddr target) (CM_PartitionID cm)))
            else nret (Ret tt)
          | None => nret (Ret tt)
          end) in
  nret (Ret (dbName, space')).

Definition change_member (cm : ChangeMember_) : N unit :=
  bind! x <- change_on_servers cm in
  bind_! update_space x.1 (S_Name x.2) (request_of x.2) "config" in
  nret (Ret tt).

Definition ChangeMembers (pids : list Z) (node method : Z) : N unit :=
  nfold (fun _ pid => change_member {| CM_PartitionID := u32 pid; CM_NodeID := node; CM_Method := method |}) tt pids.

(** ** One replica more or less *)

Definition set_S_ReplicaNum (n : Z) (s : Space) : Space :=
  {| S_Id := S_Id s; S_Desc := S_Desc s; S_Name := S_Name s; S_ResourceName := S_ResourceName s; S_Version := S_Version s; S_DBId := S_DBId s;
     S_Enabled := S_Enabled s; S_Partitions := S_Partitions s; S_PartitionNum := S_PartitionNum s; S_ReplicaNum := n;
     S_Fields := S_Fields s; S_Indexes := S_Indexes s; S_PartitionRule := S_PartitionRule s; S_SpaceProperties := S_SpaceProperties s;
     S_RefreshInterval := S_RefreshInterval s; S_PartitionName := S_PartitionName s; S_PartitionOperatorType := S_PartitionOperatorType s;
     S_EnableIdCache := S_EnableIdCache s; S_EnableRealtime := S_EnableRealtime s |}.

Definition ChangeReplica (m : DBModify) : N unit :=
  swallow (
    bind! servers <- throw (lift (DBServers wide fault st ToInt64E (DbName m))) in
    bind! dbID <- throw (lift (QueryDBName2ID fault st ToInt64E (DbName m))) in
    bind! space <- throw (lift (QuerySpaceByName fault st dbID (DBModify_SpaceName m))) in
    if (Method m =? ConfAddNode) && (Z.of_nat (length servers) <? S_ReplicaNum space + 1)
    then nret (Fail (verr PARAM_ERROR "ReplicaNum [%d] exceeds server size [%d]"))
    else
      bind_! nfold (fun _ cm => change_member cm) tt (change_plan sort ConfAddNode ConfRemoveNode (Method m) servers (S_Partitions space)) in
      throw (nwith_lock fault (
        bind! space <- throw (lift (QuerySpaceByName fault st dbID (DBModify_SpaceName m))) in
        let num := if Method m =? ConfAddNode then u8 (S_ReplicaNum space + 1)
                   else if Method m =? ConfRemoveNode then u8 (S_ReplicaNum space - 1) else S_ReplicaNum space in
        bind_! throw (lift (UpdateSpaceData fault st (set_S_ReplicaNum num space))) in
        nret (Ret tt)))).

(** ** Failed servers *)

Definition DeleteFailServerByNodeID (id : Z) : M unit := Delete fault (FailServerKey st id).

(** [QueryAllFailServer]; an error of the scan is thrown, caught and lost. *)
Definition QueryAllFailServer : M (list FailServer) := fun w =>
  match PrefixScan fault (PrefixFailServer st) w with
  | (w', Ret kvs) => (w', Ret (decode_all kvs))
  | (w', _) => (w', Ret [])
  end.

Definition PutFailServerByID (id : Z) (server : Server) : M unit :=
  Put fault (FailServerKey st (Server_ID server)) (Marshal {| FS_ID := id; FS_Node := Some server |}).

(** [QueryServerByIPAddr]: among the failed servers, then among all; errors are dropped.  A record without a server is a nil
    dereference, which is caught: no server is found then. *)
Definition QueryServerByIPAddr (ip : string) : M (option FailServer) := fun w =>
  let '(w1, r1) := QueryAllFailServer w in
  let failServers := match r1 with Ret l => l | _ => [] end in
  let at_ip (fs : FailServer) := match FS_Node fs with Some s => Server_Ip s =?s ip | None => true end in
  match List.find at_ip failServers with
  | Some {| FS_ID := id; FS_Node := Some s |} => (w1, Ret (Some {| FS_ID := id; FS_Node := Some s |}))
  | Some {| FS_Node := None |} => (w1, Ret None)
  | None =>
    let '(w2, r2) := QueryServers fault st w1 in
    let servers := match r2 with Ret l => l | _ => [] end in
    (w2, Ret ((fun s => {| FS_ID := Server_ID s; FS_Node := Some s |}) <$> List.find (fun s => Server_Ip s =?s ip) servers))
  end.

Definition TryRemoveFailServer (server : Server) : N unit :=
  bind! failServers <- lift QueryAllFailServer in
  nfold (fun _ fs =>
    if FS_ID fs =? Server_ID server then
      match FS_Node fs with
      | None => nret (Panic NilDeref)
      | Some node => if Server_Ip node =?s Server_Ip server
                     then bind_! nattempt (lift (DeleteFailServerByNodeID (FS_ID fs))) in nret (Ret tt)
                     else nret (Ret tt)
      end
    else nret (Ret tt)) tt failServers.

Definition RecoverFailServer (failAddr newAddr : string) : N unit :=
  swallow (
    bind! target <- lift (QueryServerByIPAddr failAddr) in
    bind! new <- lift (QueryServerByIPAddr newAddr) in
    match new with
    | None => nret (Panic NilDeref)
    | Some newServer =>
      if FS_ID newServer <=? 0 then nret (Fail (verr PARTITION_SERVER_ERROR "newServer or targetFailServer is nil"))
      else match target with
      | None => nret (Panic NilDeref)
      | Some targetFailServer =>
        if FS_ID targetFailServer <=? 0 then nret (Fail (verr PARTITION_SERVER_ERROR "newServer or targetFailServer is nil"))
        else match FS_Node targetFailServer with
        | None => nret (Panic NilDeref)
        | Some node =>
          bind_! nfold (fun _ pid =>
            bind_! wrapping (OtherErr "ChangePartitionMember failed [%+v], err is %s ")
                     (change_member {| CM_PartitionID := pid; CM_NodeID := FS_ID newServer; CM_Method := ConfAddNode |}) in
            wrapping (OtherErr "ChangePartitionMember failed [%+v], err is %s ")
              (change_member {| CM_PartitionID := pid; CM_NodeID := FS_ID targetFailServer; CM_Method := ConfRemoveNode |})) tt (PartitionIds node) in
          TryRemoveFailServer node
        end
      end
    end).

(** ** Registration and limits *)

Definition IsExistNode (id : Z) (ip : string) : M unit := fun w =>
  match Get fault (ServerKey st id) w with
  | (w', Ret None) => (w', Ret tt)
  | (w', Ret (Some v)) =>
    (w', match Unmarshal v with
         | None => Fail (OtherErr "parse key[%s] in etcd failed")
         | Some server => guard_err (negb (Server_Ip server =?s ip)) (OtherErr "node id[%d] has register on ip[%s]")
         end)
  | (w', Fail e) => (w', Fail (OtherErr "look up key[%s] in etcd failed"))
  | (w', Panic p) => (w', Panic p)
  end.

(** The spaces a limit is for. *)
Definition limited_spaces (limit : ResourceLimit_) : M (list Space) :=
  do_! mret (guard_err (bool_decide (RL_DbName limit = None) && negb (bool_decide (RL_SpaceName limit = None)))
               (verr PARAM_ERROR "if space_name is set, db_name must be set")) in
  do! dbNames <- match RL_DbName limit with
                 | Some name => mret (Ret [name])
                 | None => do! dbs <- QueryDBs fault st in mret (Ret (map DB_Name dbs))
                 end in
  mfold (fun spaces dbName =>
    do! dbID <- QueryDBName2ID fault st ToInt64E dbName in
    match RL_SpaceName limit with
    | Some name => do! space <- QuerySpaceByName fault st dbID name in mret (Ret (spaces ++ [space]))
    | None => do! more <- QuerySpaces fault st dbID in mret (Ret (spaces ++ more))
    end) [] dbNames.

Definition ResourceLimitService (limit : ResourceLimit_) : N unit :=
  bind! spaces <- lift (limited_spaces limit) in
  bind! check <- nfold (fun _ x =>
      bind! server <- lift (QueryServer fault st x.2) in
      bind_! nattempt (send answer (ResourceLimit (RpcAddr server) limit x.1)) in
      nret (Ret true)) false
    (concat (map (fun s => concat (map (fun p => map (pair (P_Id p)) (P_Replicas p)) (S_Partitions s))) spaces)) in
  nret (guard_err (negb check) (verr INTERNAL_ERROR "target spaces is empty, no need to check resource limit")).
End Service.

(** ** The plan of ChangeReplica *)

Section PlanProofs.
Context (sort : forall A, (A -> A -> bool) -> list A -> list A) (ConfAddNode ConfRemoveNode : Z).
Context (Hsort : SortSlice sort).

(** A server after some changes, and how much it holds then. *)
Definition added_to (cs : list ChangeMember_) (id : Z) : list Z := CM_PartitionID <$> filter (fun c => CM_NodeID c = id) cs.
Definition grown (cs : list ChangeMember_) (s : Server) : Server := set_PartitionIds (PartitionIds s ++ added_to cs (Server_ID s)) s.
Definition holds (cs : list ChangeMember_) (s : Server) : nat := length (PartitionIds s) + length (added_to cs (Server_ID s)).

(** Partition by partition, the replica goes to a server without one that holds the fewest
    partitions, the ones just added counted; a partition on every server gets none. *)
Fixpoint greedy_add (servers : list Server) (cs : list ChangeMember_) (ps : list Partition) (out : list ChangeMember_) : Prop :=
  match ps with
  | [] => out = []
  | p :: ps' =>
    (Forall (fun s => Server_ID s ∈ P_Replicas p) servers /\ greedy_add servers cs ps' out) \/
    exists s out', out = {| CM_PartitionID := P_Id p; CM_NodeID := Server_ID s; CM_Method := ConfAddNode |} :: out' /\
      s ∈ servers /\ Server_ID s ∉ P_Replicas p /\
      (forall s', s' ∈ servers -> Server_ID s' ∉ P_Replicas p -> (holds cs s <= holds cs s')%nat) /\
      greedy_add servers (cs ++ [{| CM_PartitionID := P_Id p; CM_NodeID := Server_ID s; CM_Method := ConfAddNode |}]) ps' out'
  end.

#[local] Instance emptier_order : StrictWeak (fun _ : Server => True) emptier.
Proof. split; unfold emptier; intros; rewrite ?Nat.ltb_ge, ?Nat.ltb_lt in *; lia. Qed.

Lemma in_slice_None x l : isPartitionIdInSlice x l = None <-> x ∉ l.
Proof.
  unfold isPartitionIdInSlice. rewrite fmap_None, list_find_None, Forall_forall. split; [intros H Hx; by apply (H x)|intros H y Hy ->; done].
Qed.

(** The first server that has no replica of the partition. *)
Lemma change_first_add p servers servers' cm : change_first ConfAddNode ConfRemoveNode ConfAddNode p servers = (servers', cm) ->
  match cm with
  | None => servers' = servers /\ Forall (fun s => Server_ID s ∈ P_Replicas p) servers
  | Some c => exists pre s post, servers = pre ++ s :: post /\ Forall (fun s => Server_ID s ∈ P_Replicas p) pre /\ Server_ID s ∉ P_Replicas p /\
      servers' = pre ++ set_PartitionIds (PartitionIds s ++ [P_Id p]) s :: post /\
      c = {| CM_PartitionID := P_Id p; CM_NodeID := Server_ID s; CM_Method := ConfAddNode |}
  end.
Proof.
  revert servers'. induction servers as [|s servers IH]; intros servers'; cbn [change_first]; [by intros [= <- <-]|].
  unfold change_on. rewrite Z.eqb_refl. destruct (isPartitionIdInSlice (Server_ID s) (P_Replicas p)) eqn:E.
  - assert (Server_ID s ∈ P_Replicas p) as Hs by (apply dec_stable; rewrite <- in_slice_None; by rewrite E).
    destruct (change_first _ _ _ p servers) as [rest c]. intros [= <- <-]. specialize (IH rest eq_refl). destruct c as [c|].
    + destruct IH as (pre & s1 & post & -> & Hpre & Hn & -> & ->). exists (s :: pre), s1, post. by repeat (split; [done || by constructor|]).
    + destruct IH as [-> Hall]. split; [done|by constructor].
  - apply in_slice_None in E. intros [= <- <-]. by exists [], s, servers.
Qed.

Lemma grown_snoc cs s c : CM_NodeID c = Server_ID s -> grown (cs ++ [c]) s = set_PartitionIds (PartitionIds (grown cs s) ++ [CM_PartitionID c]) (grown cs s).
Proof.
  intros Hc. unfold grown, added_to. rewrite filter_app, fmap_app, filter_cons, decide_True by done.
  cbn. unfold set_PartitionIds. cbn. by rewrite app_assoc.
Qed.
Lemma grown_snoc_ne cs s c : CM_NodeID c <> Server_ID s -> grown (cs ++ [c]) s = grown cs s.
Proof. intros Hc. unfold grown, added_to. rewrite filter_app, fmap_app, filter_cons, decide_False by done. by rewrite app_nil_r. Qed.

(** One partition. *)
Lemma change_first_greedy (servers cur : list Server) cs p cur' cm : NoDup (Server_ID <$> servers) -> cur ≡ₚ grown cs <$> servers ->
  change_first ConfAddNode ConfRemoveNode ConfAddNode p (sort _ emptier cur) = (cur', cm) ->
  match cm with
  | None => Forall (fun s => Server_ID s ∈ P_Replicas p) servers /\ cur' ≡ₚ grown cs <$> servers
  | Some c => exists s, c = {| CM_PartitionID := P_Id p; CM_NodeID := Server_ID s; CM_Method := ConfAddNode |} /\ s ∈ servers /\ Server_ID s ∉ P_Replicas p /\
      (forall s', s' ∈ servers -> Server_ID s' ∉ P_Replicas p -> (holds cs s <= holds cs s')%nat) /\ cur' ≡ₚ grown (cs ++ [c]) <$> servers
  end.
Proof.
  intros Hnd Hcur H. apply change_first_add in H. pose proof (Permutation_trans (sort_perm (sort := sort) _ emptier cur) Hcur) as Hp.
  assert (StronglySorted (nlt emptier) (sort _ emptier cur)) as Hss by (apply (sort_sorted (sort := sort) _ (fun _ => True)); [apply _|by apply Forall_true]).
  destruct cm as [c|].
  - destruct H as (pre & g & post & Hsrt & Hpre & Hn & -> & ->). rewrite Hsrt in Hp, Hss.
    assert (g ∈ grown cs <$> servers) as (s & -> & Hs)%list_elem_of_fmap by (rewrite <- Hp; set_solver). exists s. split; [done|]. split; [done|]. split; [done|]. split.
    + intros s' Hs' Hn'. assert (grown cs s' ∈ pre ++ grown cs s :: post) as [Hin|[Hin|Hin]%elem_of_cons]%elem_of_app.
      { rewrite Hp. by apply list_elem_of_fmap_2. }
      * rewrite Forall_forall in Hpre. by destruct Hn'; apply (Hpre (grown cs s')).
      * unfold holds. rewrite <- !length_app. change (PartitionIds ?a ++ added_to cs (Server_ID ?a)) with (PartitionIds (grown cs a)). by rewrite Hin.
      * apply StronglySorted_app in Hss as (_ & _ & Hss). inversion_clear Hss as [|? ? _ Hall]. rewrite Forall_forall in Hall.
        specialize (Hall _ Hin). unfold nlt, emptier in Hall. apply Nat.ltb_ge in Hall. unfold holds. by rewrite <- !length_app.
    + apply list_elem_of_split in Hs as (l1 & l2 & ->). rewrite fmap_app, fmap_cons in Hp |- *. rewrite !fmap_app, fmap_cons in Hnd. apply NoDup_app in Hnd as (_ & Hd & [Hd2 _]%NoDup_cons).
      rewrite <- (Permutation_middle pre), <- (Permutation_middle (grown cs <$> l1)) in Hp. apply Permutation_cons_inv in Hp.
      rewrite <- (Permutation_middle pre), <- (Permutation_middle (_ <$> l1)). rewrite grown_snoc by done. apply Permutation_skip.
      rewrite Hp. apply reflexive_eq. f_equal; apply list_fmap_ext; intros i x Hx%list_elem_of_lookup_2; symmetry; apply grown_snoc_ne; cbn; intros He.
      * apply (Hd (Server_ID x)); [by apply list_elem_of_fmap_2|]. rewrite He. by left.
      * apply Hd2. rewrite He. by apply list_elem_of_fmap_2.
  - destruct H as [-> Hall]. split; [|done]. apply Forall_forall. intros s Hs. rewrite Forall_forall in Hall.
    apply (Hall (grown cs s)). rewrite Hp. by apply list_elem_of_fmap_2.
Qed.

Lemma plan_greedy (servers : list Server) : NoDup (Server_ID <$> servers) -> forall ps cur out0 cs, cur ≡ₚ grown cs <$> servers ->
  exists out, (foldl (plan_step sort ConfAddNode ConfRemoveNode ConfAddNode) (cur, out0) ps).2 = out0 ++ out /\ greedy_add servers cs ps out.
Proof.
  intros Hnd. induction ps as [|p ps IH]; intros cur out0 cs Hcur; cbn [foldl greedy_add]; [exists []; by rewrite app_nil_r|].
  unfold plan_step at 2. cbn [fst snd]. destruct (change_first _ _ _ p _) as [cur' cm] eqn:E. apply (change_first_greedy servers cur cs) in E; [|done|done].
  destruct cm as [c|].
  - destruct E as (s & -> & Hs & Hn & Hmin & Hcur'). eapply IH in Hcur' as (out & -> & Hg).
    eexists. split; [by rewrite <- app_assoc|]. right. exists s, out. by repeat (split; [done|]).
  - destruct E as [Hall Hcur']. rewrite app_nil_r. destruct (IH cur' out0 cs Hcur') as (out & -> & Hg). exists out. split; [done|]. by left.
Qed.
End PlanProofs.

(** Adding a replica to every partition is balanced: the changes [ChangeReplica] makes are, in the order of the partitions, one for each
    partition that is not on every server, on a server without a replica of it that holds the fewest partitions at that point. *)
Theorem change_plan_greedy (sort : forall A, (A -> A -> bool) -> list A -> list A) (ConfAddNode ConfRemoveNode : Z) (servers : list Server) (ps : list Partition) :
  SortSlice sort -> NoDup (Server_ID <$> servers) ->
  greedy_add ConfAddNode servers [] ps (change_plan sort ConfAddNode ConfRemoveNode ConfAddNode servers ps).
Proof.
  intros Hsort Hnd. unfold change_plan. destruct (plan_greedy sort ConfAddNode ConfRemoveNode Hsort servers Hnd ps servers [] []) as (out & Hout & Hg).
  - apply reflexive_eq. symmetry. rewrite <- (list_fmap_id servers) at 2. apply list_fmap_ext. intros i s _. unfold grown, added_to. cbn.
    rewrite app_nil_r. by destruct s.
  - by rewrite Hout.
Qed.

Lemma change_plan_greedy_witness :
  let servers := [demo_server; set_PartitionIds [1; 2; 3] {| Server_ID := 2; Server_ResourceName := "default"; Server_RpcPort := 8081; Server_Ip := "10.0.0.2";
                    HostIp := ""; HostRack := ""; HostZone := ""; PartitionIds := []; Private := false |}] in
  change_plan (@insertion_sort) 0 1 0 servers [demo_partition 5; set_P_Replicas [] (demo_partition 6)] =
    [{| CM_PartitionID := 5; CM_NodeID := 2; CM_Method := 0 |}; {| CM_PartitionID := 6; CM_NodeID := 1; CM_Method := 0 |}] /\
  greedy_add 0 servers [] [demo_partition 5; set_P_Replicas [] (demo_partition 6)]
    [{| CM_PartitionID := 5; CM_NodeID := 2; CM_Method := 0 |}; {| CM_PartitionID := 6; CM_NodeID := 1; CM_Method := 0 |}].
Proof.
  intros servers. split; [vm_compute; reflexivity|].
  apply (change_plan_greedy (@insertion_sort) 0 1 servers [demo_partition 5; set_P_Replicas [] (demo_partition 6)] insertion_sort_slice).
  apply (bool_decide_unpack _). vm_compute. exact I.
Defined.

(** ** One membership change *)

Lemma find_change_replicas pid f ps id :
  find_partition (change_replicas pid f ps) id =
    if id =? pid then (fun p => set_P_Replicas (f (P_Replicas p)) p) <$> find_partition ps id else find_partition ps id.
Proof.
  induction ps as [|p ps IH]; cbn [change_replicas find_partition]; [by destruct (id =? pid)|].
  destruct (Z.eqb_spec (P_Id p) pid) as [Hp|Hp]; cbn [find_partition set_P_Replicas P_Id].
  - destruct (Z.eqb_spec (P_Id p) id) as [Hi|Hi]; destruct (Z.eqb_spec id pid); try congruence; done.
  - rewrite IH. destruct (Z.eqb_spec (P_Id p) id) as [Hi|Hi]; destruct (Z.eqb_spec id pid); try congruence; done.
Qed.

Section MemberProofs.
Context (fault : nat -> option (error * bool)) (answer : nat -> message -> go unit) (live : string -> bool) (st : Prefixes).
Context (ConfAddNode ConfRemoveNode : Z).
Context `{HSpace : !Codec Space, HPartition : !Codec Partition, HServer : !Codec Server}.

(** The replicas the change asks for. *)
Definition wanted (cm : ChangeMember_) (l : list Z) : list Z :=
  if CM_Method cm =? ConfRemoveNode then filter (fun id => id <> CM_NodeID cm) l else l ++ [CM_NodeID cm].

Lemma next_replicas_ret cm space space' : next_replicas ConfRemoveNode cm space = Ret space' ->
  exists p, GetPartition space (CM_PartitionID cm) = Some p /\ (CM_Method cm <> ConfRemoveNode -> CM_NodeID cm ∉ P_Replicas p) /\
    space' = set_S_Partitions (change_replicas (CM_PartitionID cm) (wanted cm) (S_Partitions space)) space.
Proof.
  unfold next_replicas, wanted. destruct (GetPartition space (CM_PartitionID cm)) as [p|]; [|done]. destruct (Z.eqb_spec (CM_Method cm) ConfRemoveNode) as [Hm|Hm]; cbn [negb].
  - destruct (length (P_Replicas p) =? 0)%nat; [done|]. intros [= <-]. by exists p.
  - case_bool_decide as Hin; [done|]. intros [= <-]. by exists p.
Qed.

Lemma keeps_find_leader K k pid : keeps K (find_leader fault st k pid).
Proof.
  induction k as [|k IH]; cbn [find_leader]; (apply keeps_bind; [apply keeps_lift, keeps_QueryPartition|]); intros p n key Hk;
    pose proof (keeps_lift K _ (keeps_QueryServer fault st K (P_LeaderID p)) n key Hk) as Hq;
    destruct (lift _ n) as [n' [?|?|?]]; cbn [fst] in *; try done.
  destruct k; [done|]. by rewrite (IH n' key Hk).
Qed.

Lemma keeps_wrapping {A} K e (m : N A) : keeps K m -> keeps K (wrapping e m).
Proof. intros Hm n k Hk. specialize (Hm n k Hk). unfold wrapping. by destruct (m n) as [n' [?|?|?]]. Qed.

Lemma keeps_QuerySpaceByID K db id : keeps_M K (QuerySpaceByID fault st db id).
Proof.
  intros w k Hk. unfold QuerySpaceByID, get_object. pose proof (keeps_Get K fault (SpaceKey st db id) w k Hk) as Hg.
  destruct (Get _ _ w) as [w' [[?|]|?|?]]; done.
Qed.

Lemma keeps_QueryDBId2Name K id : keeps_M K (QueryDBId2Name fault st id).
Proof. unfold QueryDBId2Name. apply keeps_M_bind; [auto with frames|]. intros o. case_match; auto with frames. Qed.

Lemma keeps_first_leader K p pid : keeps K (first_leader fault st p pid).
Proof.
  intros n k Hk. unfold first_leader. pose proof (keeps_lift K _ (keeps_QueryServer fault st K (P_LeaderID p)) n k Hk) as Hq.
  destruct (lift _ n) as [n' [?|?|?]]; cbn [fst] in *; [done| |done]. by rewrite (keeps_find_leader K 10 pid n' k Hk).
Qed.

Lemma keeps_change_on_servers K cm : keeps K (change_on_servers fault answer live st ConfAddNode ConfRemoveNode cm).
Proof.
  unfold change_on_servers.
  apply keeps_bind; [apply keeps_lift, keeps_QueryPartition|intros p]. apply keeps_bind; [apply keeps_lift, keeps_QuerySpaceByID|intros s].
  apply keeps_bind; [apply keeps_lift, keeps_QueryDBId2Name|intros db]. apply keeps_bind; [auto with frames|intros s'].
  apply keeps_bind; [apply (keeps_first_leader K p (CM_PartitionID cm))|intros leader]. apply keeps_bind; [|intros target].
  { case_match; [apply keeps_attempt, keeps_lift, keeps_QueryServer|]. apply keeps_bind; [apply keeps_lift, keeps_QueryServer|auto with frames]. }
  apply keeps_bind; [auto with frames|intros _]. apply keeps_bind; [repeat case_match; try apply keeps_wrapping; auto with frames|intros _].
  apply keeps_bind; [auto with frames|intros _]. apply keeps_bind; [repeat case_match; try apply keeps_wrapping; auto with frames|intros _].
  auto with frames.
Qed.

Lemma find_leader_sent k pid n n' s : find_leader fault st k pid n = (n', Ret s) -> sent n' = sent n.
Proof.
  induction k as [|k IH] in n |- *; cbn [find_leader]; intros H; run_inv; destruct (lift _ n0) as [n1 [?|?|?]] eqn:E; try done.
  - injection H as <- <-. run_inv. congruence.
  - injection H as <- <-. run_inv. congruence.
  - destruct k as [|k]; [done|]. apply IH in H. rewrite H. unfold lift in E. destruct (QueryServer _ _ _ _). injection E as <- _. cbn. congruence.
Qed.

Lemma wrapping_ret {A} e (m : N A) n n' a : wrapping e m n = (n', Ret a) -> m n = (n', Ret a).
Proof. unfold wrapping. by destruct (m n) as [n1 [?|?|?]]. Qed.

Lemma send_ret msg n n' u : send answer msg n = (n', Ret u) -> sent n' = sent n ++ [(msg, Ret u)].
Proof. unfold send. intros [= <- Hu]. cbn. by rewrite Hu. Qed.

(** A read that succeeded, and what it read. *)
Lemma QueryPartition_ret pid w w' p : QueryPartition fault st pid w = (w', Ret p) -> kv w' = kv w /\ kv w !! PartitionKey st pid ≫= Unmarshal = Some p.
Proof. apply (tells_ret_inv _ (fun p => kv w !! PartitionKey st pid ≫= Unmarshal = Some p)), tells_QueryPartition. Qed.

Lemma QueryServer_ret id w w' s : QueryServer fault st id w = (w', Ret s) -> kv w' = kv w /\ kv w !! ServerKey st id ≫= Unmarshal = Some s.
Proof. apply (tells_ret_inv _ (fun s => kv w !! ServerKey st id ≫= Unmarshal = Some s)), tells_QueryServer. Qed.

Lemma QuerySpaceByID_ret db id w w' s : QuerySpaceByID fault st db id w = (w', Ret s) -> kv w' = kv w /\ kv w !! SpaceKey st db id ≫= Unmarshal = Some s.
Proof.
  unfold QuerySpaceByID, get_object. destruct (Get fault (SpaceKey st db id) w) as [w1 [[v|]|e|q]] eqn:E; [|done..].
  destruct (tells_ret_inv _ _ _ _ _ (tells_get fault (kv w) _) E) as [Hkv Hv]. change (Some v = kv w !! SpaceKey st db id) in Hv.
  intros [= <- H]. rewrite <- Hv. cbn. destruct (Unmarshal v); [|done]. by injection H as ->.
Qed.

Lemma QueryDBId2Name_ret id w w' name : QueryDBId2Name fault st id w = (w', Ret name) -> kv w' = kv w /\ kv w !! DBKeyId st id = Some name.
Proof.
  unfold QueryDBId2Name. intros H. run_inv. destruct (tells_ret_inv _ _ _ _ _ (tells_get fault (kv w) _) Hr) as [Hkv Hv].
  change (a = kv w !! DBKeyId st id) in Hv. subst a. destruct (kv w !! DBKeyId st id) as [v|]; [|by run_inv]. run_inv. by subst v.
Qed.

Lemma first_leader_sent p pid n n' s : first_leader fault st p pid n = (n', Ret s) -> sent n' = sent n.
Proof.
  unfold first_leader. intros H. destruct (lift _ n) as [n1 [?|?|?]] eqn:E; [| |done].
  - injection H as <- <-. by run_inv.
  - apply find_leader_sent in H. rewrite H. unfold lift in E. destruct (QueryServer _ _ _ _). by injection E as <- _.
Qed.

(** The server that is found leads the partition, as the store has it. *)
Definition leads (t0 : table) (pid : Z) (s : Server) : Prop :=
  exists p, t0 !! PartitionKey st pid ≫= Unmarshal = Some p /\ t0 !! ServerKey st (P_LeaderID p) ≫= Unmarshal = Some s.

Lemma find_leader_ret k pid n n' s : find_leader fault st k pid n = (n', Ret s) -> leads (kv (nw n)) pid s.
Proof.
  induction k as [|k IH] in n |- *; cbn [find_leader]; intros H; run_inv; apply QueryPartition_ret in Hr as (K1 & Hp); destruct (lift _ n0) as [n1 [?|?|?]] eqn:E; try done.
  - injection H as <- <-. apply lift_ret_inv in E as [E _]. apply QueryServer_ret in E as (_ & Hv). rewrite K1 in Hv. by exists a.
  - injection H as <- <-. apply lift_ret_inv in E as [E _]. apply QueryServer_ret in E as (_ & Hv). rewrite K1 in Hv. by exists a.
  - destruct k as [|k]; [done|]. apply IH in H. assert (kv (nw n1) = kv (nw n)) as <-; [|done].
    rewrite <- K1. pose proof (keeps_lift (fun _ => False) _ (keeps_QueryServer fault st (fun _ => False) (P_LeaderID a)) n0) as Hk. rewrite E in Hk. cbn [fst] in Hk.
    apply map_eq. intros key. apply Hk. by intros [].
Qed.

Lemma first_leader_ret p pid n n' s : kv (nw n) !! PartitionKey st pid ≫= Unmarshal = Some p -> first_leader fault st p pid n = (n', Ret s) ->
  kv (nw n) !! ServerKey st (P_LeaderID p) ≫= Unmarshal = Some s.
Proof.
  unfold first_leader. intros Hp H. destruct (lift _ n) as [n1 [?|?|?]] eqn:E; [| |done].
  - injection H as <- <-. apply lift_ret_inv in E as [E _]. by apply QueryServer_ret in E as (_ & ?).
  - apply find_leader_ret in H as (p' & Hp' & Hs).
    assert (kv (nw n1) = kv (nw n)) as K.
    { pose proof (keeps_lift (fun _ => False) _ (keeps_QueryServer fault st (fun _ => False) (P_LeaderID p)) n) as Hk. rewrite E in Hk. cbn [fst] in Hk.
      apply map_eq. intros key. apply Hk. by intros []. }
    rewrite K in Hp', Hs. assert (Some p = Some p') as [= <-] by (etrans; [symmetry; exact Hp|exact Hp']). exact Hs.
Qed.

(** The server that joins or leaves, if it can be read. *)
Lemma target_ret (remove : bool) id n n' o :
  (if remove then nattempt (lift (QueryServer fault st id)) else bind! s <- lift (QueryServer fault st id) in nret (Ret (Some s))) n = (n', Ret o) ->
  sent n' = sent n /\ forall s, o = Some s -> kv (nw n) !! ServerKey st id ≫= Unmarshal = Some s.
Proof.
  destruct remove; intros H.
  - unfold nattempt in H. destruct (lift (QueryServer fault st id) n) as [n1 [s|e|q]] eqn:E; [| |done].
    + injection H as <- <-. apply lift_ret_inv in E as [E Hs]. apply QueryServer_ret in E as (_ & Hv). split; [done|]. by intros ? [= <-].
    + injection H as <- <-. split; [|done]. unfold lift in E. destruct (QueryServer _ _ _ _). by injection E as <- _.
  - run_inv. injection H as <-. apply QueryServer_ret in Hr as (_ & Hv). split; [done|]. by intros ? [= <-].
Qed.

(** The requests of a change, in their order: a server that joins creates the partition before the leader is told; a server that leaves drops its replica after that, if it can be reached. *)
Definition member_messages (t0 : table) (cm : ChangeMember_) (leader : Server) (space' : Space) (ls : log) : Prop :=
  CM_Method cm = ConfAddNode /\
    (exists target, t0 !! ServerKey st (CM_NodeID cm) ≫= Unmarshal = Some target /\
       ls = [(CreatePartition (RpcAddr target) space' (CM_PartitionID cm), Ret tt); (ChangeMember (RpcAddr leader) cm, Ret tt)]) \/
  CM_Method cm = ConfRemoveNode /\
    (ls = [(ChangeMember (RpcAddr leader) cm, Ret tt)] \/
     exists target, t0 !! ServerKey st (CM_NodeID cm) ≫= Unmarshal = Some target /\ live (RpcAddr target) = true /\
       ls = [(ChangeMember (RpcAddr leader) cm, Ret tt); (DeleteReplica (RpcAddr target) (CM_PartitionID cm), Ret tt)]).

(** What has happened on the servers before the space is updated: the leader of the partition's record, alive, has accepted the change. *)
Definition on_servers (t0 : table) (ls : log) (cm : ChangeMember_) (dbName : string) (space space' : Space) : Prop :=
  exists p leader, t0 !! PartitionKey st (CM_PartitionID cm) ≫= Unmarshal = Some p /\
    t0 !! SpaceKey st (P_DBId p) (P_SpaceId p) ≫= Unmarshal = Some space /\ t0 !! DBKeyId st (S_DBId space) = Some dbName /\
    next_replicas ConfRemoveNode cm space = Ret space' /\
    t0 !! ServerKey st (P_LeaderID p) ≫= Unmarshal = Some leader /\ live (RpcAddr leader) = true /\ member_messages t0 cm leader space' ls.

Context (Hcodes : ConfAddNode <> ConfRemoveNode).

Lemma change_on_servers_ret cm n n' x : change_on_servers fault answer live st ConfAddNode ConfRemoveNode cm n = (n', Ret x) ->
  kv (nw n') = kv (nw n) /\ exists space ls, sent n' = sent n ++ ls /\ on_servers (kv (nw n)) ls cm x.1 space x.2.
Proof.
  intros H. split.
  { apply map_eq. intros k. pose proof (keeps_change_on_servers (fun _ => False) cm n k ltac:(by intros [])) as Hk. by rewrite H in Hk. }
  unfold change_on_servers in H. run_inv. apply first_leader_sent in Hr3 as L4.
  apply QueryPartition_ret in Hr as (K1 & Hp). apply QuerySpaceByID_ret in Hr0 as (K2 & Hsp). apply QueryDBId2Name_ret in Hr1 as (K3 & Hdb).
  assert (kv (nw n2) = kv (nw n)) as K23 by congruence. apply first_leader_ret in Hr3 as Hlead; [|by rewrite K23]. rewrite K23 in Hlead.
  pose proof (keeps_first_leader (fun _ => False) a (CM_PartitionID cm) n2) as K4. rewrite Hr3 in K4. cbn [fst] in K4.
  assert (kv (nw n4) = kv (nw n)) as K6. { rewrite <- K23. apply map_eq. intros k. apply K4. by intros []. }
  apply guard_err_ret, negb_false_iff in Hr5. rewrite K1 in *. rewrite K2 in *. injection H as <-. cbn [fst snd].
  apply target_ret in Hr4 as (L5 & Ht). rewrite K6 in Ht. apply send_ret in Hr7. destruct a6, a7.
  destruct a8. assert (sent n5 = sent n) as L6 by congruence. clear L5.
  assert (forall ls, sent n9 = sent n ++ ls -> member_messages (kv (nw n)) cm a3 a2 ls -> exists space ls, sent n9 = sent n ++ ls /\ on_servers (kv (nw n)) ls cm a1 space a2) as Hgoal.
  { intros ls Hl Hm. exists a0, ls. split; [done|]. exists a, a3. split_and!; done. }
  destruct (Z.eqb_spec (CM_Method cm) ConfRemoveNode) as [Hrm|Hrm].
  - assert (sent n7 = sent n) as L7.
    { destruct a4 as [target|]; [rewrite (proj2 (Z.eqb_neq _ _)) in Hr6 by congruence|]; run_inv; congruence. }
    destruct a4 as [target|]; cbn [andb] in Hr8; [destruct (live (RpcAddr target)) eqn:Hlive|].
    + apply wrapping_ret, send_ret in Hr8. eapply Hgoal; [by rewrite Hr8, Hr7, L7, <- app_assoc|]. right. split; [done|]. right. exists target. auto.
    + run_inv. eapply Hgoal; [by rewrite Hr7, L7|]. right. split; [done|]. by left.
    + run_inv. eapply Hgoal; [by rewrite Hr7, L7|]. right. split; [done|]. by left.
  - destruct a4 as [target|]; [|run_inv; by apply guard_err_ret in Hr6]. cbn [andb] in Hr8. run_inv.
    destruct (Z.eqb_spec (CM_Method cm) ConfAddNode) as [Hadd|Hadd]; [|run_inv; by apply guard_err_ret in Hr6].
    apply wrapping_ret, send_ret in Hr6. eapply Hgoal; [by rewrite Hr7, Hr6, L6, <- app_assoc|]. left. split; [done|]. exists target. auto.
Qed.
End MemberProofs.

(** What a membership change stores: the space of the partition, found by the name it has there, with the node added to or taken out of the replicas of this partition alone, after the requests [ls] to the servers. *)
Definition member_changed `{HSpace : !Codec Space, HPartition : !Codec Partition, HServer : !Codec Server} (wide : Z -> bool) (live : string -> bool) (st : Prefixes) (ToInt64E : string -> option Z)
    (unmarshal_fields : string -> go (list Field)) (unmarshal_objects : string -> go (list jobject)) (marshal_objects : list jobject -> string)
    (ord : gmap string jobject -> list (string * jobject)) (pord : gmap string SpaceProperties -> list (string * SpaceProperties))
    (ConfAddNode ConfRemoveNode : Z) (t0 : table) (ls : log) (cm : ChangeMember_) (s : Space) (t : table) : Prop :=
  exists dbName space space' old p, on_servers live st ConfAddNode ConfRemoveNode t0 ls cm dbName space space' /\
    stored_space st ToInt64E t0 dbName (S_Name space') old /\
    reconfigured wide unmarshal_fields unmarshal_objects marshal_objects ord pord old (request_of space') s /\
    t = <[SpaceKey st (S_DBId old) (S_Id old) := Marshal s]> t0 /\
    GetPartition space (CM_PartitionID cm) = Some p /\
    GetPartition s (CM_PartitionID cm) = Some (set_P_Replicas (wanted ConfRemoveNode cm (P_Replicas p)) p) /\
    forall pid, pid <> CM_PartitionID cm -> GetPartition s pid = GetPartition space pid.


Lemma scan_keeps fault prefix w : exists w' r, PrefixScan fault prefix w = (w', r) /\ kv w' = kv w /\ (r = Ret (scan (kv w) prefix) \/ exists e, r = Fail e).
Proof. unfold PrefixScan, call. destruct (fault (calls w)) as [[e []]|]; eexists _, _; (split; [done|]); eauto. Qed.

Lemma find_none {A} (f : A -> bool) (P : A -> Prop) l : Forall P l -> (forall x, P x -> f x = false) -> List.find f l = None.
Proof. intros Hl Hf. induction Hl as [|x l Hx _ IH]; [done|]. cbn. by rewrite (Hf x Hx). Qed.

(** Looking for a server changes nothing, and finds none where there is none. *)
Lemma QueryServerByIPAddr_keeps `{HServer : !Codec Server, HFail : !Codec FailServer} fault st ip w :
  exists w' o, QueryServerByIPAddr fault st ip w = (w', Ret o) /\ kv w' = kv w /\
    (Forall (fun fs => exists s, FS_Node fs = Some s /\ Server_Ip s <> ip) (decode_all (scan (kv w) (PrefixFailServer st)) : list FailServer) ->
     Forall (fun s => Server_Ip s <> ip) (decode_all (scan (kv w) (PrefixServer st))) -> o = None).
Proof.
  unfold QueryServerByIPAddr, QueryAllFailServer. destruct (scan_keeps fault (PrefixFailServer st) w) as (w1 & r1 & -> & K1 & Hr1).
  assert (exists l : list FailServer, (match r1 with Ret kvs => (w1, Ret (decode_all kvs)) | _ => (w1, Ret []) end : world * go (list FailServer)) = (w1, Ret l) /\
    (Forall (fun fs => exists s, FS_Node fs = Some s /\ Server_Ip s <> ip) (decode_all (scan (kv w) (PrefixFailServer st)) : list FailServer) ->
     Forall (fun fs => exists s, FS_Node fs = Some s /\ Server_Ip s <> ip) l)) as (l & -> & Hl).
  { destruct Hr1 as [->|[e ->]]; eexists; (split; [done|]); [done|]. intros _. constructor. }
  destruct (List.find _ l) as [[id [s|]]|] eqn:Ef.
  - eexists _, _. split; [done|]. split; [done|]. intros Hfs _. exfalso. erewrite find_none in Ef; [done|by apply Hl|].
    intros [i o] (s' & Hs & Hn). cbn in Hs |- *. rewrite Hs. by apply string_eqb_neq.
  - eexists _, _. split; [done|]. done.
  - unfold QueryServers, mbind_M, mret. destruct (scan_keeps fault (PrefixServer st) w1) as (w2 & r2 & -> & K2 & Hr2).
    destruct Hr2 as [->|[e ->]]; eexists _, _; (split; [done|]); (split; [congruence|]); intros _ Hs; [|done].
    rewrite K1. rewrite (find_none _ (fun s => Server_Ip s <> ip)); [done|done|]. intros s Hn. by apply string_eqb_neq.
Qed.

(** [ChangeReplica] reports success when it has done nothing: an error of its lookups - a database or a space that does not exist,
    a store that cannot be reached - is thrown, caught and forgotten. *)
Theorem ChangeReplica_hides_errors (wide : Z -> bool) (fault : nat -> option (error * bool)) (answer : nat -> message -> go unit) (live : string -> bool)
    (sched : list Partition -> list Partition) (st : Prefixes) (ToInt64E : string -> option Z)
    (unmarshal_fields : string -> go (list Field)) (unmarshal_objects : string -> go (list jobject)) (marshal_objects : list jobject -> string)
    (ord : gmap string jobject -> list (string * jobject)) (pord : gmap string SpaceProperties -> list (string * SpaceProperties))
    (ConfAddNode ConfRemoveNode : Z) (sort : forall A, (A -> A -> bool) -> list A -> list A) (resources : Space -> update_request -> N Space)
    (HDB : Codec DB) (HSpace : Codec Space) (HPartition : Codec Partition) (HServer : Codec Server) (m : DBModify) (n : net) (e : error) :
  (DBServers wide fault st ToInt64E (DbName m) (nw n)).2 = Fail e ->
  exists n', ChangeReplica wide fault answer live sched st ToInt64E unmarshal_fields unmarshal_objects marshal_objects ord pord
    ConfAddNode ConfRemoveNode sort resources m n = (n', Ret tt) /\ kv (nw n') = kv (nw (lift (DBServers wide fault st ToInt64E (DbName m)) n).1) /\ sent n' = sent n.
Proof.
  intros H. unfold ChangeReplica, swallow, nbind at 1, throw, lift. destruct (DBServers _ _ _ _ _ (nw n)) as [w r]. cbn [snd] in H. subst r.
  eexists. split; [done|]. done.
Qed.

(** Replacing a failed server by an address that no server has reports success, too: the missing server is dereferenced
    and the panic caught. *)
Theorem RecoverFailServer_unknown_succeeds (wide : Z -> bool) (fault : nat -> option (error * bool)) (answer : nat -> message -> go unit) (live : string -> bool)
    (sched : list Partition -> list Partition) (st : Prefixes) (ToInt64E : string -> option Z)
    (unmarshal_fields : string -> go (list Field)) (unmarshal_objects : string -> go (list jobject)) (marshal_objects : list jobject -> string)
    (ord : gmap string jobject -> list (string * jobject)) (pord : gmap string SpaceProperties -> list (string * SpaceProperties))
    (ConfAddNode ConfRemoveNode : Z) (resources : Space -> update_request -> N Space)
    (HSpace : Codec Space) (HPartition : Codec Partition) (HServer : Codec Server) (HFail : Codec FailServer) (failAddr newAddr : string) (n : net) :
  Forall (fun fs => exists s, FS_Node fs = Some s /\ Server_Ip s <> newAddr) (decode_all (scan (kv (nw n)) (PrefixFailServer st)) : list FailServer) ->
  Forall (fun s => Server_Ip s <> newAddr) (decode_all (scan (kv (nw n)) (PrefixServer st))) ->
  exists n', RecoverFailServer wide fault answer live sched st ToInt64E unmarshal_fields unmarshal_objects marshal_objects ord pord
    ConfAddNode ConfRemoveNode resources failAddr newAddr n = (n', Ret tt) /\ kv (nw n') = kv (nw n) /\ sent n' = sent n.
Proof.
  intros Hfs Hs.
  assert (forall ip w, exists w' o, QueryServerByIPAddr fault st ip w = (w', Ret o) /\ kv w' = kv w /\ (ip = newAddr -> kv w = kv (nw n) -> o = None)) as Hq.
  { intros ip w. destruct (QueryServerByIPAddr_keeps fault st ip w) as (w' & o & Hq & Hkv & Ho). exists w', o. split; [done|]. split; [done|].
    intros -> Hw. rewrite Hw in Ho. by apply Ho. }
  unfold RecoverFailServer, swallow, nbind, lift. destruct (Hq failAddr (nw n)) as (w1 & o1 & -> & K1 & _).
  destruct (Hq newAddr w1) as (w2 & o2 & Hq2 & K2 & Hnone). cbn [nw]. rewrite Hq2. rewrite (Hnone eq_refl K1). eexists. split; [done|].
  split; [cbn; congruence|done].
Qed.

(** ** Concrete runs *)

Definition member_net : net :=
  {| nw := {| kv := <[DBKeyId demo_st 1 := "db"%string]> (<[SpaceKey demo_st 1 1 := "{}"%string]> (<[ServerKey demo_st 2 := "{}"%string]> (kv (nw demo_net)))); calls := 0 |}; sent := [] |}.
Definition demo_joining : ChangeMember_ := {| CM_PartitionID := 5; CM_NodeID := 2; CM_Method := 0 |}.
Definition demo_member : net * go unit :=
  change_member (HSpace := one_codec demo_two) (HPartition := one_codec (demo_partition 5)) (HServer := one_codec demo_server)
    (fun _ => false) no_fault (fun _ _ => Ret tt) (fun _ => true) id demo_st ParseInt demo_schema demo_objects (fun _ => "new"%string)
    demo_order demo_order 0 1 (fun _ _ => nret (Fail (OtherErr ""))) demo_joining member_net.

Lemma demo_member_run : demo_member.2 = Ret tt.
Proof. vm_compute. reflexivity. Qed.


Lemma ChangeReplica_hides_errors_witness :
  exists n', ChangeReplica (HDB := one_codec demo_db) (HSpace := one_codec demo_two) (HPartition := one_codec (demo_partition 5)) (HServer := one_codec demo_server)
    (fun _ => false) no_fault (fun _ _ => Ret tt) (fun _ => true) id demo_st ParseInt demo_schema demo_objects (fun _ => "new"%string)
    demo_order demo_order 0 1 (@insertion_sort) (fun _ _ => nret (Fail (OtherErr "")))
    {| DbName := "gone"; DBModify_SpaceName := "s"; IPAddr := ""; Method := 0 |} fresh_net = (n', Ret tt) /\ sent n' = [].
Proof.
  edestruct (ChangeReplica_hides_errors (fun _ => false) no_fault (fun _ _ => Ret tt) (fun _ => true) id demo_st ParseInt demo_schema demo_objects
    (fun _ => "new"%string) demo_order demo_order 0 1 (@insertion_sort) (fun _ _ => nret (Fail (OtherErr ""))) (one_codec demo_db) (one_codec demo_two)
    (one_codec (demo_partition 5)) (one_codec demo_server) {| DbName := "gone"; DBModify_SpaceName := "s"; IPAddr := ""; Method := 0 |} fresh_net)
    as (n' & H & _ & Hs); [vm_compute; reflexivity|]. exists n'. split; [exact H|]. rewrite Hs. reflexivity.
Defined.

Lemma RecoverFailServer_unknown_succeeds_witness :
  exists n', RecoverFailServer (HSpace := one_codec demo_two) (HPartition := one_codec (demo_partition 5)) (HServer := one_codec demo_server)
    (HFail := one_codec {| FS_ID := 1; FS_Node := Some demo_server |})
    (fun _ => false) no_fault (fun _ _ => Ret tt) (fun _ => true) id demo_st ParseInt demo_schema demo_objects (fun _ => "new"%string)
    demo_order demo_order 0 1 (fun _ _ => nret (Fail (OtherErr ""))) "10.0.0.1" "10.9.9.9" member_net = (n', Ret tt) /\ sent n' = [].
Proof.
  destruct (RecoverFailServer_unknown_succeeds (fun _ => false) no_fault (fun _ _ => Ret tt) (fun _ => true) id demo_st ParseInt demo_schema demo_objects
    (fun _ => "new"%string) demo_order demo_order 0 1 (fun _ _ => nret (Fail (OtherErr ""))) (one_codec demo_two) (one_codec (demo_partition 5))
    (one_codec demo_server) (one_codec {| FS_ID := 1; FS_Node := Some demo_server |}) "10.0.0.1" "10.9.9.9" member_net) as (n' & H & _ & Hs).
  - apply Forall_forall. intros fs (kv0 & _ & [= <-])%list_elem_of_omap. exists demo_server. split; [reflexivity|]. by vm_compute.
  - apply Forall_forall. intros s (kv0 & _ & [= <-])%list_elem_of_omap. by vm_compute.
  - exists n'. split; [exact H|]. rewrite Hs. reflexivity.
Defined.
