(* ===== verification/Configs.v ===== *)
(** * Configuration of spaces, routers and servers (internal/master/services/config_service.go,
    server_service.go, internal/client/master.go)

    The settings the master keeps beside the spaces: the engine configuration of
    a space, which a partition server gets when it registers, and the request, memory and search limits, which the routers watch.
    The modifications read the stored setting, merge the request into it and write it back, without a transaction. *)

From S2P Require Import Prelude.
From S2P Require Import Text.
From S2P Require Import Errors.
From S2P Require Import Names.
From S2P Require Import Keys.
From S2P Require Import Schema.
From S2P Require Import Partition.
From S2P Require Import Space.
From S2P Require Import Floats.
From S2P Require Import SortOrder.
From S2P Require Import Limits.
From S2P Require Import Placement.
From S2P Require Import Store.
From S2P Require Import Net.
From S2P Require Import Databases.
From S2P Require Import Cache.
From S2P Require Import Indexes.
From S2P Require Import SpaceUpdate.
From S2P Require Import SpaceLife.
From S2P Require Import Members.
Open Scope Z_scope.

(** ** Merging *)

(** [if cfg.X != nil { new_cfg.X = cfg.X }] *)
Definition take_new {A} (new old : option A) : option A := match new with Some _ => new | None => old end.

Definition merge_config (cfg old : SpaceConfig) : SpaceConfig :=
  {| C_Id := C_Id old; C_DBId := C_DBId old; C_EngineCacheSize := take_new (C_EngineCacheSize cfg) (C_EngineCacheSize old);
     C_Path := take_new (C_Path cfg) (C_Path old); C_SlowSearchTime := take_new (C_SlowSearchTime cfg) (C_SlowSearchTime old);
     C_RefreshInterval := take_new (C_RefreshInterval cfg) (C_RefreshInterval old); C_EnableIdCache := take_new (C_EnableIdCache cfg) (C_EnableIdCache old) |}.

Definition set_C_ids (id dbId : Z) (cfg : SpaceConfig) : SpaceConfig :=
  {| C_Id := id; C_DBId := dbId; C_EngineCacheSize := C_EngineCacheSize cfg; C_Path := C_Path cfg; C_SlowSearchTime := C_SlowSearchTime cfg;
     C_RefreshInterval := C_RefreshInterval cfg; C_EnableIdCache := C_EnableIdCache cfg |}.

Definition merge_request (cfg old : RequestLimitCfg) : RequestLimitCfg :=
  let on := RequestLimitEnabled cfg in
  {| RequestLimitEnabled := on;
     TotalReadLimit := if on && float_positive (TotalReadLimit cfg) then TotalReadLimit cfg else TotalReadLimit old;
     TotalWriteLimit := if on && float_positive (TotalWriteLimit cfg) then TotalWriteLimit cfg else TotalWriteLimit old |}.

Definition merge_memory (cfg old : MemoryLimitCfg) : MemoryLimitCfg :=
  let on := MemoryLimitEnabled cfg in
  {| MemoryLimitEnabled := on;
     RouterMemoryLimit := if on && (0 <? RouterMemoryLimit cfg) then RouterMemoryLimit cfg else RouterMemoryLimit old;
     PsMemoryLimit := if on && (0 <? PsMemoryLimit cfg) then PsMemoryLimit cfg else PsMemoryLimit old |}.

Definition default_request : RequestLimitCfg :=
  {| RequestLimitEnabled := true; TotalReadLimit := DefaultReadRequestLimitCount; TotalWriteLimit := DefaultWriteRequestLimitCount |}.
Definition default_memory : MemoryLimitCfg :=
  {| MemoryLimitEnabled := true; RouterMemoryLimit := DefaultRouterMemoryLimitPercent; PsMemoryLimit := DefaultPsMemoryLimitPercent |}.

(** A stored setting with a default for a key that is not there. *)
Definition get_setting {A} `{Codec A} (fault : nat -> option (error * bool)) (key : string) (dflt : A) : M A :=
  do! marshal <- Get fault key in
  mret match marshal with
       | None => Ret dflt
       | Some v => match Unmarshal v with Some cfg => Ret cfg | None => Fail (OtherErr "json") end
       end.

Section Service.
Context (fault : nat -> option (error * bool)) (answer : nat -> message -> go unit) (st : Prefixes) (ToInt64E : string -> option Z).
(** What a server answers to [GetEngineCfg]. *)
Context (engine_cfg : string -> Z -> go SpaceConfig).
Context `{HSpace : !Codec Space, HServer : !Codec Server, HConfig : !Codec SpaceConfig,
          HReq : !Codec RequestLimitCfg, HMem : !Codec MemoryLimitCfg, HSlow : !Codec bool}.

(** ** The engine configuration of a space *)

Definition getSpaceConfig (space : Space) : M SpaceConfig :=
  do! marshal <- Get fault (SpaceConfigKey st (S_DBId space) (S_Id space)) in
  mret match marshal ≫= Unmarshal with Some cfg => Ret cfg | None => Fail (OtherErr "json") end.

(** The replicas of a space: partition and node. *)
Definition replicas_of (space : Space) : list (Z * Z) :=
  concat (map (fun p => map (pair (P_Id p)) (P_Replicas p)) (S_Partitions space)).

(** The first replica that answers. *)
Fixpoint first_engine_cfg (rs : list (Z * Z)) : M SpaceConfig :=
  match rs with
  | [] => mret (Fail (OtherErr "cannot get engine config"))
  | (pid, nodeID) :: rs' => fun w =>
    match QueryServer fault st nodeID w with
    | (w', Ret server) => match engine_cfg (RpcAddr server) pid with
                          | Ret cfg => (w', Ret cfg)
                          | Fail _ => first_engine_cfg rs' w'
                          | Panic p => (w', Panic p)
                          end
    | (w', Fail _) => first_engine_cfg rs' w'
    | (w', Panic p) => (w', Panic p)
    end
  end.

Definition GetSpaceConfigByName (dbName spaceName : string) : M SpaceConfig :=
  do! dbId <- QueryDBName2ID fault st ToInt64E dbName in
  do! space <- QuerySpaceByName fault st dbId spaceName in
  fun w => match getSpaceConfig space w with
           | (w', Fail _) => first_engine_cfg (replicas_of space) w'
           | x => x
           end.

(** An error of the read is logged, and the request stored as it is. *)
Definition UpdateSpaceConfig (space : Space) (cfg : SpaceConfig) : M unit := fun w =>
  let key := SpaceConfigKey st (S_DBId space) (S_Id space) in
  match getSpaceConfig space w with
  | (w', Ret old_cfg) => Put fault key (Marshal (merge_config cfg old_cfg)) w'
  | (w', Fail _) => Put fault key (Marshal cfg) w'
  | (w', Panic p) => (w', Panic p)
  end.

(** The configuration of the engines; a server that is not known or does not answer is only logged. *)
Definition update_engines (space : Space) (cfg : SpaceConfig) : N unit :=
  nfold (fun _ x =>
    bind! server <- nattempt (lift (QueryServer fault st x.2)) in
    match server with
    | Some server => bind_! nattempt (send answer (UpdateEngineCfg (RpcAddr server) cfg x.1)) in nret (Ret tt)
    | None => nret (Ret tt)
    end) tt (replicas_of space).

Definition ModifySpaceConfig (dbName spaceName : string) (cfg : SpaceConfig) : N unit :=
  bind! dbId <- lift (QueryDBName2ID fault st ToInt64E dbName) in
  bind! space <- lift (QuerySpaceByName fault st dbId spaceName) in
  bind_! update_engines space cfg in
  lift (UpdateSpaceConfig space (set_C_ids (S_Id space) dbId cfg)).

(** ** Limits *)

Definition GetRequestLimitCfg : M RequestLimitCfg := get_setting fault (RouterConfigKey st RequestLimitConfigKey) default_request.
Definition ModifyRequestLimitCfg (cfg : RequestLimitCfg) : M unit :=
  do! old_cfg <- GetRequestLimitCfg in
  Put fault (RouterConfigKey st RequestLimitConfigKey) (Marshal (merge_request cfg old_cfg)).

Definition GetMemoryLimitCfg : M MemoryLimitCfg := get_setting fault (RouterConfigKey st MemoryLimitConfigKey) default_memory.
Definition ModifyMemoryLimitCfg (cfg : MemoryLimitCfg) : N unit :=
  bind! old_cfg <- lift GetMemoryLimitCfg in
  let new_cfg := merge_memory cfg old_cfg in
  bind_! lift (Put fault (RouterConfigKey st MemoryLimitConfigKey) (Marshal new_cfg)) in
  bind! servers <- lift (QueryServers fault st) in
  nfold (fun _ server => bind_! nattempt (send answer (UpdateMemoryLimitCfg (RpcAddr server) new_cfg)) in nret (Ret tt)) tt servers.

Definition GetSlowSearchIsolationCfg : M bool := get_setting fault (RouterConfigKey st SlowSearchIsolationKey) true.
Definition ModifySlowSearchIsolationCfg (cfg : bool) : M unit :=
  Put fault (RouterConfigKey st SlowSearchIsolationKey) (Marshal cfg).
End Service.

(** ** Registration of a partition server *)

Definition set_S_settings (refresh : option Z) (cache : option bool) (s : Space) : Space :=
  {| S_Id := S_Id s; S_Desc := S_Desc s; S_Name := S_Name s; S_ResourceName := S_ResourceName s; S_Version := S_Version s; S_DBId := S_DBId s;
     S_Enabled := S_Enabled s; S_Partitions := S_Partitions s; S_PartitionNum := S_PartitionNum s; S_ReplicaNum := S_ReplicaNum s;
     S_Fields := S_Fields s; S_Indexes := S_Indexes s; S_PartitionRule := S_PartitionRule s; S_SpaceProperties := S_SpaceProperties s;
     S_RefreshInterval := refresh; S_PartitionName := S_PartitionName s; S_PartitionOperatorType := S_PartitionOperatorType s;
     S_EnableIdCache := cache; S_EnableRealtime := S_EnableRealtime s |}.

Definition DefaultRefreshInterval : Z := 1000.
Definition DefaultEnableIdCache : bool := false.

(** What a server is told: its partitions, and the space of each. *)
Record registration : Type := { Reg_Ip : string; Reg_PartitionIds : list Z; Reg_Spaces : list Space }.

Section Registration.
Context (fault : nat -> option (error * bool)) (st : Prefixes) (ToInt64 : string -> Z).
(** [json.Unmarshal] into a configuration whose ids are set. *)
Context (decode_config : Z -> Z -> string -> option SpaceConfig).
Context `{HSpace : !Codec Space}.

(** One entry of the scan: the ids of the key are defaults for those of the value. *)
Definition config_of (kv : string * string) : option SpaceConfig :=
  let spaceSplit := Split kv.1 in
  if (3 <=? length spaceSplit)%nat
  then decode_config (ToInt64 (last_segment kv.1)) (ToInt64 (default ""%string (spaceSplit !! (length spaceSplit - 2)%nat))) kv.2
  else decode_config 0 0 kv.2.

Definition QuerySpaceConfigsByKey (prefix : string) : M (list SpaceConfig) :=
  do! kvs <- PrefixScan fault prefix in mret (Ret (omap config_of kvs)).

Definition config_map (configs : list SpaceConfig) : gmap Z SpaceConfig := foldl (fun m c => <[C_Id c := c]> m) ∅ configs.

Definition with_settings (configs : gmap Z SpaceConfig) (s : Space) : Space :=
  match configs !! S_Id s with
  | Some c => set_S_settings (Some (default DefaultRefreshInterval (C_RefreshInterval c))) (Some (default DefaultEnableIdCache (C_EnableIdCache c))) s
  | None => s
  end.

Definition register_partition (nodeID : Z) (s : Space) (acc : registration) (p : Partition) : registration :=
  if bool_decide (nodeID ∈ P_Replicas p)
  then {| Reg_Ip := Reg_Ip acc; Reg_PartitionIds := Reg_PartitionIds acc ++ [P_Id p]; Reg_Spaces := Reg_Spaces acc ++ [s] |}
  else acc.

Definition RegisterServer (ip : string) (nodeID : Z) : M registration :=
  do! spaces <- QuerySpacesByKey fault (PrefixSpace st) in
  do! spaceConfigs <- QuerySpaceConfigsByKey (PrefixSpaceConfig st) in
  let configs := config_map spaceConfigs in
  mret (Ret (foldl (fun acc s => foldl (register_partition nodeID (with_settings configs s)) acc (S_Partitions s))
               {| Reg_Ip := ip; Reg_PartitionIds := []; Reg_Spaces := [] |} spaces)).
End Registration.

(** ** Limits *)

Section LimitProofs.
Context (fault : nat -> option (error * bool)) (st : Prefixes).

(** The setting a store holds. *)
Definition current {A} `{Codec A} (key : string) (dflt : A) (t : gmap string string) : option A :=
  match t !! key with None => Some dflt | Some v => Unmarshal v end.

Lemma get_setting_ret {A} `{Codec A} key (dflt a : A) w w' : get_setting fault key dflt w = (w', Ret a) -> kv w' = kv w /\ current key dflt (kv w) = Some a.
Proof.
  unfold get_setting, current. intros H0. run_inv. destruct (tells_ret_inv _ _ _ _ _ (tells_get fault (kv w) _) Hr) as [Hkv Hv].
  change (a0 = kv w !! key) in Hv. subst a0. split; [done|]. destruct (kv w !! key) as [v|]; [|by injection H0 as ->]. destruct (Unmarshal v); [|done]. by injection H0 as ->.
Qed.

Lemma get_setting_keeps {A} `{Codec A} key (dflt : A) w : kv (get_setting fault key dflt w).1 = kv w.
Proof. unfold get_setting, mbind_M, Get, call. destruct (fault (calls w)) as [[e []]|]; done. Qed.

Lemma get_setting_safe {A} `{Codec A} key (dflt : A) w w' p : get_setting fault key dflt w <> (w', Panic p).
Proof.
  unfold get_setting, mbind_M, Get, call. destruct (fault (calls w)) as [[e b]|]; [done|]. cbn. by destruct (kv w !! key) as [v|]; [destruct (Unmarshal v)|].
Qed.

Lemma Put_cases key v w : let '(w', r) := Put fault key v w in
  (kv w' = <[key := v]> (kv w) /\ r = Ret tt) \/ (exists e, r = Fail e /\ (kv w' = kv w \/ kv w' = <[key := v]> (kv w))).
Proof. unfold Put, call. destruct (fault (calls w)) as [[e []]|]; cbn; eauto. Qed.

Lemma Split_router key : 47 ∉ bytes_of key -> routerSplit st (RouterConfigKey st key) = [key].
Proof. intros Hk. unfold routerSplit, RouterConfigKey. rewrite TrimPrefix_app. by apply Split_plain. Qed.
End LimitProofs.

(** The limits of a process that has applied a configuration, when it knows of [n] routers. *)
Definition throttled_by (cfg : RequestLimitCfg) (n : Z) (c : Config) : Prop :=
  let effective limit := if float_positive limit then limit else float_million in
  if RequestLimitEnabled cfg
  then 0 < n -> ReadLimiter c = share (effective (TotalReadLimit cfg)) n /\ WriteLimiter c = share (effective (TotalWriteLimit cfg)) n
  else ReadLimiter c = inf_limiter /\ WriteLimiter c = inf_limiter.

(** A change of the request limits, from the master to the limiters: a successful [ModifyRequestLimitCfg] has written, and nothing else, the
    stored (or default) limits with the given ones merged in, a limit that is not positive or not enabled keeping the old value; and every router, when it sees that write, throttles by its
    share of exactly these limits.  A failed one has written nothing, or only its answer was lost. *)
Theorem request_limits_reach_routers (fault : nat -> option (error * bool)) (st : Prefixes) (SystemMemory : Z)
    (HReq : Codec RequestLimitCfg) (HMem : Codec MemoryLimitCfg) (HSlow : Codec bool) (cfg : RequestLimitCfg) (w : world) :
  let key := RouterConfigKey st RequestLimitConfigKey in
  (forall old, current key default_request (kv w) = Some old -> Encodable (merge_request cfg old)) ->
  let '(w', r) := ModifyRequestLimitCfg fault st cfg w in
  match r with
  | Ret _ => exists old, let new := merge_request cfg old in
      current key default_request (kv w) = Some old /\ kv w' = <[key := Marshal new]> (kv w) /\ current key default_request (kv w') = Some new /\
      forall s, exists s', router_put st SystemMemory key (Marshal new) s = Ret s' /\ routerCache s' = <[RequestLimitConfigKey := ReRequest new]> (routerCache s) /\
        throttled_by new (RouterCount (config s)) (config s')
  | Fail _ => kv w' = kv w \/ exists old, current key default_request (kv w) = Some old /\ kv w' = <[key := Marshal (merge_request cfg old)]> (kv w)
  | Panic _ => False
  end.
Proof.
  intros key Henc. unfold ModifyRequestLimitCfg, mbind_M, GetRequestLimitCfg. pose proof (get_setting_keeps fault key default_request w) as Hk.
  destruct (get_setting fault _ default_request w) as [w1 [old|e|p]] eqn:E; cbn [fst] in Hk; [|by left|].
  2: by apply get_setting_safe in E.
  apply get_setting_ret in E as [_ Hold]. specialize (Henc old Hold). pose proof (Put_cases fault key (Marshal (merge_request cfg old)) w1) as Hp.
  destruct (Put fault _ _ w1) as [w' r]. rewrite Hk in Hp. destruct Hp as [[Hw ->]|(e & -> & [Hw|Hw])]; [|by left|right; by exists old].
  exists old. split; [done|]. split; [done|]. split; [unfold current; rewrite Hw, lookup_insert_eq; by apply Unmarshal_Marshal|].
  intros s. unfold router_put, key. rewrite Split_router by (intros Hin; vm_compute in Hin; set_solver). cbn [index_at obind length]. unfold decode_or. rewrite Unmarshal_Marshal by done.
  eexists. split; [done|]. split; [done|]. cbn [config]. unfold SetRequestLimit, throttled_by.
  destruct (RequestLimitEnabled (merge_request cfg old)) eqn:En; [|done]. intros Hn. apply Z.ltb_lt in Hn. by rewrite Hn.
Qed.

(** ** From a modification to a restart *)

Lemma config_map_lookup l (c0 : SpaceConfig) : c0 ∈ l -> (forall c, c ∈ l -> C_Id c = C_Id c0 -> c = c0) -> config_map l !! C_Id c0 = Some c0.
Proof.
  unfold config_map. induction l as [|c l IH] using rev_ind; [by intros ?%elem_of_nil|]. intros Hin Hu. rewrite foldl_app. cbn [foldl].
  destruct (decide (C_Id c = C_Id c0)) as [He|He].
  - rewrite (Hu c) by (done || set_solver). apply lookup_insert_eq.
  - rewrite lookup_insert_ne by done. apply IH; [set_solver|]. intros c' Hc'. apply Hu. set_solver.
Qed.

Section Restart.
Context (fault : nat -> option (error * bool)) (answer : nat -> message -> go unit) (cluster_id : string) (ToInt64E : string -> option Z)
  (ToInt64 : string -> Z) (decode_config : Z -> Z -> string -> option SpaceConfig).
Context `{HSpace : !Codec Space, HServer : !Codec Server, HConfig : !Codec SpaceConfig}.
Let st := SetPrefixAndSequence cluster_id initial_prefixes.

(** Decoding into a configuration with ids: they stay where the value has none ([omitempty]). *)
Class DecodeConfig : Prop := {
  decode_into : forall id db v, decode_config id db v = None /\ Unmarshal v = None \/
    exists c id' db', Unmarshal v = Some c /\ decode_config id db v = Some (set_C_ids id' db' c) /\ (id' = C_Id c \/ C_Id c = 0 /\ id' = id);
  decode_omitted : forall id db c c', Encodable c -> decode_config id db (Marshal c) = Some c' -> C_Id c = 0 -> C_Id c' = id;
  cast_id : forall id, 0 < id < 2 ^ 63 -> ToInt64 (pretty id) = id
}.

(** Every configuration is stored under the id it is for. *)
Definition filed_by_id (t : gmap string string) : Prop := forall k v c, t !! k = Some v -> HasPrefix k (PrefixSpaceConfig st) = true ->
  config_of ToInt64 decode_config (k, v) = Some c -> exists db, k = SpaceConfigKey st db (C_Id c).

Lemma Split_nonempty s : (1 <= length (Split s))%nat.
Proof. unfold Split. generalize ""%string. induction s as [|x s IH]; intros cur; simpl; [lia|]. case_match; [simpl; lia|apply IH]. Qed.

Lemma config_key_split db id : exists a, SpaceConfigKey st db id = a +:+ "/" +:+ pretty db +:+ "/" +:+ pretty id.
Proof.
  exists (cluster_prefix cluster_id +:+ "/space_config"). unfold SpaceConfigKey. change (PrefixSpaceConfig st) with (cluster_prefix cluster_id +:+ "/space_config/").
  change "/space_config/"%string with ("/space_config" +:+ "/"). by rewrite !app_assoc_string.
Qed.

Lemma config_key_id db id : last_segment (SpaceConfigKey st db id) = pretty id.
Proof.
  destruct (config_key_split db id) as [a ->]. unfold last_segment. rewrite !Split_app, (Split_plain (pretty id)) by apply pretty_Z_no_slash.
  by rewrite app_assoc, last_snoc.
Qed.

Lemma config_of_key db id v : exists db', config_of ToInt64 decode_config (SpaceConfigKey st db id, v) = decode_config (ToInt64 (pretty id)) db' v.
Proof.
  unfold config_of. cbn [fst snd]. rewrite config_key_id. destruct (config_key_split db id) as [a ->].
  rewrite !Split_app, !length_app. pose proof (Split_nonempty a). pose proof (Split_nonempty (pretty db)). pose proof (Split_nonempty (pretty id)).
  destruct (Nat.leb_spec 3 (length (Split a) + (length (Split (pretty db)) + length (Split (pretty id))))); [by eexists|lia].
Qed.

Section Written.
Context (Hdec : DecodeConfig) (t : gmap string string) (space : Space) (Hfiled : filed_by_id t) (Hid : 0 < S_Id space < 2 ^ 63).
Let key := SpaceConfigKey st (S_DBId space) (S_Id space).

(** What is written is read back, under the id of the space. *)
Lemma written_read new : Encodable new -> C_Id new = S_Id space \/ C_Id new = 0 ->
  exists c, config_of ToInt64 decode_config (key, Marshal new) = Some c /\ C_Id c = S_Id space /\
    C_RefreshInterval c = C_RefreshInterval new /\ C_EnableIdCache c = C_EnableIdCache new.
Proof.
  intros Henc Hnew. destruct (config_of_key (S_DBId space) (S_Id space) (Marshal new)) as [db' Hc]. unfold key. rewrite Hc, cast_id by done.
  destruct (decode_into (S_Id space) db' (Marshal new)) as [[_ H]|(c & id' & db2 & Hm & Hd & Hi)]; rewrite Unmarshal_Marshal in * by done; [done|].
  injection Hm as <-. eexists. split; [done|]. split; [|done]. cbn. destruct Hi as [-> |[_ ->]]; [|done]. destruct Hnew as [|H0]; [done|].
  apply (decode_omitted _ _ _ _ Henc Hd H0).
Qed.

(** The stored configuration of the space has its id, or none. *)
Lemma stored_id v old : t !! key = Some v -> Unmarshal v = Some old -> C_Id old = S_Id space \/ C_Id old = 0.
Proof.
  intros Hv Hold. destruct (config_of_key (S_DBId space) (S_Id space) v) as [db' Hc].
  destruct (decode_into (ToInt64 (pretty (S_Id space))) db' v) as [[_ H]|(c & id' & db2 & Hm & Hd & Hi)]; [congruence|].
  rewrite Hold in Hm. injection Hm as <-. destruct Hi as [-> |[]]; [|by right]. left. rewrite Hd in Hc.
  destruct (Hfiled key v _ Hv (prefix_app _ _) Hc) as [db Hk]. apply (f_equal last_segment) in Hk. unfold key in Hk.
  rewrite !config_key_id in Hk. by apply (inj pretty) in Hk.
Qed.

(** A server that registers afterwards is given the new settings. *)
Lemma registered_settings new c l : (forall db, is_Some (t !! SpaceConfigKey st db (S_Id space)) -> db = S_DBId space) ->
  config_of ToInt64 decode_config (key, Marshal new) = Some c -> C_Id c = S_Id space ->
  l = omap (config_of ToInt64 decode_config) (scan (<[key := Marshal new]> t) (PrefixSpaceConfig st)) -> config_map l !! S_Id space = Some c.
Proof.
  intros Hone Hc Hci ->. rewrite <- Hci. apply config_map_lookup.
  - apply list_elem_of_omap. exists (key, Marshal new). split; [|done]. apply scan_spec. split; [apply lookup_insert_eq|apply prefix_app].
  - intros c' ([k v] & [Hk Hp]%scan_spec & Hc')%list_elem_of_omap Hi.
    destruct (decide (k = key)) as [->|Hne]; [rewrite lookup_insert_eq in Hk; injection Hk as <-; congruence|].
    rewrite lookup_insert_ne in Hk by done. destruct (Hfiled k v c' Hk Hp Hc') as [db ->]. rewrite Hi, Hci in Hk, Hne.
    destruct Hne. unfold key. f_equal. apply Hone. by eexists.
Qed.
End Written.

Lemma getSpaceConfig_cases space w : let '(w', r) := getSpaceConfig fault st space w in
  let stored := kv w !! SpaceConfigKey st (S_DBId space) (S_Id space) ≫= Unmarshal in
  kv w' = kv w /\ match r with Ret old => stored = Some old | Fail _ => (forall k, fault k = None) -> stored = None | Panic _ => False end.
Proof.
  unfold getSpaceConfig, mbind_M, Get, call. destruct (fault (calls w)) as [[e []]|] eqn:E; [split; [done|congruence]..|].
  cbn. destruct (kv w !! _ ≫= Unmarshal); by split.
Qed.

(** What the modification writes: the request alone only if a call failed or nothing is stored. *)
Lemma UpdateSpaceConfig_ret space cfg w w' : UpdateSpaceConfig fault st space cfg w = (w', Ret tt) ->
  let key := SpaceConfigKey st (S_DBId space) (S_Id space) in
  exists new, kv w' = <[key := Marshal new]> (kv w) /\
    ((new = cfg /\ ((forall k, fault k = None) -> kv w !! key ≫= Unmarshal (A := SpaceConfig) = None)) \/
     exists old, kv w !! key ≫= Unmarshal = Some old /\ new = merge_config cfg old).
Proof.
  intros H key. unfold UpdateSpaceConfig in H. fold key in H. pose proof (getSpaceConfig_cases space w) as Hc.
  destruct (getSpaceConfig fault st space w) as [w1 [old|e|p]]; [| |done]; destruct Hc as [Hk Hs].
  - exists (merge_config cfg old). pose proof (Put_cases fault key (Marshal (merge_config cfg old)) w1) as Hp. rewrite H, Hk in Hp.
    destruct Hp as [[Hp _]|(? & ? & _)]; [|done]. split; [done|]. right. by exists old.
  - exists cfg. pose proof (Put_cases fault key (Marshal cfg) w1) as Hp. rewrite H, Hk in Hp.
    destruct Hp as [[Hp _]|(? & ? & _)]; [|done]. split; [done|]. by left.
Qed.

Lemma ModifySpaceConfig_ret dbName spaceName cfg n n' space : stored_space st ToInt64E (kv (nw n)) dbName spaceName space ->
  ModifySpaceConfig fault answer st ToInt64E dbName spaceName cfg n = (n', Ret tt) ->
  let key := SpaceConfigKey st (S_DBId space) (S_Id space) in
  exists dbId new, kv (nw n') = <[key := Marshal new]> (kv (nw n)) /\
    ((new = set_C_ids (S_Id space) dbId cfg /\ ((forall k, fault k = None) -> kv (nw n) !! key ≫= Unmarshal (A := SpaceConfig) = None)) \/
     exists old, kv (nw n) !! key ≫= Unmarshal = Some old /\ new = merge_config (set_C_ids (S_Id space) dbId cfg) old).
Proof.
  intros Hst H key. unfold ModifySpaceConfig in H. run_inv.
  destruct (tells_ret_inv _ _ _ _ _ (tells_QueryDBName2ID fault st ToInt64E _ dbName) Hr) as (K1 & v & Hv & Ha).
  destruct (tells_ret_inv _ _ _ _ _ (tells_QuerySpaceByName fault st _ a spaceName) Hr0) as (K2 & Hf). rewrite K1 in Hf.
  destruct Hst as (v0 & id0 & Hv0 & Hid0 & Hf0). rewrite Hv in Hv0. injection Hv0 as <-. rewrite Ha in Hid0. injection Hid0 as <-.
  rewrite Hf0 in Hf. injection Hf as <-. exists a.
  assert (kv (nw n2) = kv (nw n)) as K3.
  { rewrite <- K1, <- K2. apply map_eq. intros k. assert (keeps (fun _ => False) (update_engines fault answer st space cfg)) as Hk.
    { apply keeps_fold. intros b x. apply keeps_bind; [apply keeps_attempt, keeps_lift, keeps_QueryServer|]. intros [server|]; auto with frames. }
    specialize (Hk n1 k). rewrite Hr1 in Hk. apply Hk. by intros []. }
  apply UpdateSpaceConfig_ret in H as (new & Hn & Hc). rewrite K3 in Hn, Hc. by exists new.
Qed.
End Restart.

(** The partitions of a node, with their spaces. *)
Definition on_node (nodeID : Z) (configs : gmap Z SpaceConfig) (spaces : list Space) : list (Z * Space) :=
  concat (map (fun s => (fun p => (P_Id p, with_settings configs s)) <$> filter (fun p => nodeID ∈ P_Replicas p) (S_Partitions s)) spaces).

Lemma register_fold nodeID s ps acc : foldl (register_partition nodeID s) acc ps =
  let mine := filter (fun p => nodeID ∈ P_Replicas p) ps in
  {| Reg_Ip := Reg_Ip acc; Reg_PartitionIds := Reg_PartitionIds acc ++ (P_Id <$> mine); Reg_Spaces := Reg_Spaces acc ++ ((fun _ => s) <$> mine) |}.
Proof.
  cbv zeta. revert acc. induction ps as [|p ps IH]; intros acc; cbn [foldl filter].
  - rewrite !app_nil_r. by destruct acc.
  - rewrite IH. unfold register_partition. rewrite filter_cons. destruct (decide (nodeID ∈ P_Replicas p)) as [Hp|Hp].
    + rewrite bool_decide_eq_true_2 by done. cbn. by rewrite <- !app_assoc.
    + by rewrite bool_decide_eq_false_2.
Qed.

Lemma RegisterServer_ret `{HSpace : !Codec Space} fault st ToInt64 decode_config ip nodeID w w' reg :
  RegisterServer fault st ToInt64 decode_config ip nodeID w = (w', Ret reg) ->
  let configs := config_map (omap (config_of ToInt64 decode_config) (scan (kv w) (PrefixSpaceConfig st))) in
  let mine := on_node nodeID configs (decode_all (scan (kv w) (PrefixSpace st))) in
  Reg_PartitionIds reg = mine.*1 /\ Reg_Spaces reg = mine.*2.
Proof.
  intros H configs mine. unfold RegisterServer, QuerySpacesByKey, QuerySpaceConfigsByKey in H. run_inv.
  destruct (scan_keeps fault (PrefixSpace st) w) as (? & r1 & E1 & K1 & [->|[e ->]]); rewrite E1 in Hr2; [|done].
  injection Hr2 as -> <-. destruct (scan_keeps fault (PrefixSpaceConfig st) w3) as (? & r2 & E2 & K2 & [->|[e ->]]); rewrite E2 in Hr1; [|done].
  injection Hr1 as -> <-. rewrite K1 in Hr0. subst a0 a reg. change (config_map _) with configs. unfold mine, on_node. generalize (decode_all (scan (kv w) (PrefixSpace st)) : list Space). intros spaces.
  assert (forall acc : registration, let r := foldl (fun acc s => foldl (register_partition nodeID (with_settings configs s)) acc (S_Partitions s)) acc spaces in
    let l := concat (map (fun s => (fun p => (P_Id p, with_settings configs s)) <$> filter (fun p => nodeID ∈ P_Replicas p) (S_Partitions s)) spaces) in
    Reg_PartitionIds r = Reg_PartitionIds acc ++ l.*1 /\ Reg_Spaces r = Reg_Spaces acc ++ l.*2) as Hgo; [|by apply Hgo].
  induction spaces as [|s spaces IH]; intros acc; cbn [foldl map concat]; [by rewrite !app_nil_r|].
  rewrite register_fold. cbv zeta in IH |- *. edestruct IH as [-> ->].
  cbn. rewrite !fmap_app, <- !app_assoc, <- !list_fmap_compose. done.
Qed.

(** A configuration change survives a restart: after a successful [ModifySpaceConfig], every partition server that registers, whenever it does, is given exactly its
    partitions, and with each replica of the space the refresh interval and the cache setting that were asked for.  When no call failed, a setting that was not mentioned has the
    value stored before, or the default. *)
Theorem settings_survive_restart (fault fault' : nat -> option (error * bool)) (answer : nat -> message -> go unit) (cluster_id : string)
    (ToInt64E : string -> option Z) (ToInt64 : string -> Z) (decode_config : Z -> Z -> string -> option SpaceConfig)
    (HSpace : Codec Space) (HServer : Codec Server) (HConfig : Codec SpaceConfig)
    (dbName spaceName : string) (cfg : SpaceConfig) (space : Space) (n n' : net) (ip : string) (nodeID : Z) (w w' : world) (reg : registration) :
  let st := SetPrefixAndSequence cluster_id initial_prefixes in let t0 := kv (nw n) in
  DecodeConfig ToInt64 decode_config -> (forall c : SpaceConfig, Encodable c) -> filed_by_id cluster_id ToInt64 decode_config t0 ->
  stored_space st ToInt64E t0 dbName spaceName space -> 0 < S_Id space < 2 ^ 63 ->
  (forall db, is_Some (t0 !! SpaceConfigKey st db (S_Id space)) -> db = S_DBId space) ->
  ModifySpaceConfig fault answer st ToInt64E dbName spaceName cfg n = (n', Ret tt) ->
  kv w = kv (nw n') -> RegisterServer fault' st ToInt64 decode_config ip nodeID w = (w', Ret reg) ->
  Reg_PartitionIds reg = concat (map (fun s => P_Id <$> filter (fun p => nodeID ∈ P_Replicas p) (S_Partitions s)) (decode_all (scan (kv w) (PrefixSpace st)))) /\
  forall s, s ∈ Reg_Spaces reg -> S_Id s = S_Id space ->
    let old := t0 !! SpaceConfigKey st (S_DBId space) (S_Id space) ≫= Unmarshal in
    (forall x, C_RefreshInterval cfg = Some x -> S_RefreshInterval s = Some x) /\ (forall b, C_EnableIdCache cfg = Some b -> S_EnableIdCache s = Some b) /\
    ((forall k, fault k = None) ->
       S_RefreshInterval s = Some (default 1000 (take_new (C_RefreshInterval cfg) (old ≫= C_RefreshInterval))) /\
       S_EnableIdCache s = Some (default false (take_new (C_EnableIdCache cfg) (old ≫= C_EnableIdCache)))).
Proof.
  cbv zeta. intros Hdec Henc Hfiled Hst Hid Hone Hmod Hw Hreg. apply RegisterServer_ret in Hreg as [Hids Hspaces]. split.
  { rewrite Hids. unfold on_node. generalize (decode_all (scan (kv w) (PrefixSpace (SetPrefixAndSequence cluster_id initial_prefixes))) : list Space). intros l. induction l as [|s l IH]; [done|]. cbn [map concat]. rewrite fmap_app, IH, <- list_fmap_compose. done. }
  apply (ModifySpaceConfig_ret fault answer cluster_id ToInt64E dbName spaceName cfg n n' space Hst) in Hmod as (dbId & new & Hkv & Hnew).
  assert (C_Id new = S_Id space \/ C_Id new = 0) as Hci.
  { destruct Hnew as [[-> _]|(old & (v & Hv & Ho)%bind_Some & ->)]; [by left|]. exact (stored_id cluster_id ToInt64 decode_config Hdec (kv (nw n)) space Hfiled v old Hv Ho). }
  destruct (written_read cluster_id ToInt64 decode_config Hdec space Hid new (Henc new) Hci) as (c & Hc & Hcid & Hcr & Hce).
  intros s Hs Hsid. rewrite Hspaces in Hs. apply list_elem_of_fmap in Hs as ([pid s'] & -> & Hin). cbn [snd] in Hsid |- *.
  apply list_elem_of_In, in_concat in Hin as (l & Hl%list_elem_of_In & Hin%list_elem_of_In). apply list_elem_of_fmap in Hl as (s0 & -> & Hs0).
  apply list_elem_of_fmap in Hin as (p & [= -> ->] & _). rewrite Hw, Hkv in *.
  assert (S_Id s0 = S_Id space) as Hs0id by (unfold with_settings in Hsid; by destruct (_ !! S_Id s0)).
  unfold with_settings. rewrite Hs0id.
  pose proof (registered_settings cluster_id ToInt64 decode_config (kv (nw n)) space Hfiled new c _ Hone Hc Hcid eq_refl) as Hl.
  match goal with |- context [config_map ?l !! _] => replace (config_map l !! S_Id space) with (Some c) by (symmetry; exact Hl) end. cbn [S_RefreshInterval S_EnableIdCache set_S_settings].
  rewrite Hcr, Hce. destruct Hnew as [[-> Hno]|(o & Ho & ->)]; cbn.
  - split; [by intros x ->|]. split; [by intros b ->|]. intros Hf. rewrite (Hno Hf). cbn. by destruct (C_RefreshInterval cfg), (C_EnableIdCache cfg).
  - split; [by intros x ->|]. split; [by intros b ->|]. intros _. by rewrite Ho.
Qed.

(** [UpdateSpaceConfig] reads the stored configuration only to merge, and ignores an error of the read: when that one call fails, the request replaces the
    stored configuration, and with it every setting the request does not mention, and success is reported. *)
Theorem failed_read_loses_settings (fault : nat -> option (error * bool)) (st : Prefixes) (HConfig : Codec SpaceConfig) (space : Space)
    (cfg old : SpaceConfig) (w : world) (e : error) (b : bool) :
  let key := SpaceConfigKey st (S_DBId space) (S_Id space) in
  fault (calls w) = Some (e, b) -> fault (S (calls w)) = None -> kv w !! key = Some (Marshal old) -> Encodable cfg ->
  exists w', UpdateSpaceConfig fault st space cfg w = (w', Ret tt) /\ kv w' !! key ≫= Unmarshal = Some cfg.
Proof.
  intros key He Hok _ Henc. unfold UpdateSpaceConfig, getSpaceConfig, mbind_M, Get, Put, call. rewrite He. cbn [calls]. rewrite Hok.
  eexists. split; [by destruct b|]. destruct b; cbn [kv fst]; change (SpaceConfigKey _ _ _) with key; rewrite lookup_insert_eq; cbn; by apply Unmarshal_Marshal.
Qed.

(** ** Concrete runs *)

#[export] Instance SpaceConfig_eq_dec : EqDecision SpaceConfig.
Proof. solve_decision. Defined.
#[export] Instance SpaceConfig_countable : Countable SpaceConfig.
Proof.
  refine (inj_countable' (fun c => (C_Id c, C_DBId c, C_EngineCacheSize c, C_Path c, C_SlowSearchTime c, C_RefreshInterval c, C_EnableIdCache c))
    (fun x => let '(a, b, c, d, e, f, g) := x in {| C_Id := a; C_DBId := b; C_EngineCacheSize := c; C_Path := d; C_SlowSearchTime := e;
                                                     C_RefreshInterval := f; C_EnableIdCache := g |}) _). by intros [].
Defined.

Definition demo_ToInt64 (s : string) : Z := default 0 (ParseInt s).
Definition demo_decode_config (id db : Z) (v : string) : option SpaceConfig :=
  (fun c => set_C_ids (if C_Id c =? 0 then id else C_Id c) (if C_DBId c =? 0 then db else C_DBId c) c) <$> Unmarshal (Codec := countable_codec) v.

Lemma demo_decodes : DecodeConfig (HConfig := countable_codec) demo_ToInt64 demo_decode_config.
Proof.
  split.
  - intros id db v. unfold demo_decode_config. destruct (Unmarshal v) as [c|]; [right|by left]. eexists c, _, _. split; [done|]. split; [done|].
    destruct (Z.eqb_spec (C_Id c) 0); auto.
  - intros id db c c' _. unfold demo_decode_config. rewrite Unmarshal_Marshal by done. intros [= <-] ->. done.
  - intros id Hid. unfold demo_ToInt64. change (pretty id) with (FormatInt id). rewrite ParseInt_FormatInt; [done|]. unfold in_s. lia.
Qed.

Definition plain_config (refresh : option Z) (cache : option bool) : SpaceConfig :=
  {| C_Id := 7; C_DBId := 1; C_EngineCacheSize := None; C_Path := None; C_SlowSearchTime := None; C_RefreshInterval := refresh; C_EnableIdCache := cache |}.
Definition config_net : net :=
  {| nw := {| kv := <[SpaceConfigKey demo_st 1 7 := Marshal (Codec := countable_codec) (plain_config None (Some true))]> (kv (nw demo_net)); calls := 0 |}; sent := [] |}.
Definition demo_modify : net * go unit :=
  ModifySpaceConfig (HSpace := one_codec demo_two) (HServer := one_codec demo_server) (HConfig := countable_codec)
    no_fault (fun _ _ => Ret tt) demo_st ParseInt "db" "s" (plain_config (Some 500) None) config_net.
Definition demo_registration : world * go registration :=
  RegisterServer (HSpace := one_codec demo_two) no_fault demo_st demo_ToInt64 demo_decode_config "10.0.0.1" 1 (nw demo_modify.1).

Lemma demo_modify_run : demo_modify.2 = Ret tt.
Proof. vm_compute. reflexivity. Qed.
Lemma demo_registration_run : exists reg, demo_registration.2 = Ret reg /\ S_Id <$> Reg_Spaces reg = [7].
Proof. eexists. split; [vm_compute; reflexivity|]. vm_compute. reflexivity. Qed.

(** The only configuration of the example. *)
Lemma config_net_keys k v : kv (nw config_net) !! k = Some v -> HasPrefix k (PrefixSpaceConfig demo_st) = true ->
  k = SpaceConfigKey demo_st 1 7 /\ v = Marshal (Codec := countable_codec) (plain_config None (Some true)).
Proof.
  intros Hk Hp. cbn [config_net nw kv] in Hk. apply lookup_insert_Some in Hk as [[<- <-]|[_ Hk]]; [done|]. exfalso. cbn [demo_net nw kv] in Hk.
  repeat (apply lookup_insert_Some in Hk as [[<- _]|[_ Hk]]; [vm_compute in Hp; discriminate Hp|]).
  apply lookup_singleton_Some in Hk as [<- _]. vm_compute in Hp. discriminate Hp.
Qed.

Lemma demo_filed : filed_by_id "c1" demo_ToInt64 demo_decode_config (kv (nw config_net)).
Proof.
  intros k v c Hk Hp Hc. destruct (config_net_keys k v Hk Hp) as [-> ->]. exists 1. assert (C_Id c = 7) as ->; [|done].
  revert Hc. vm_compute. by intros [= <-].
Qed.

Lemma config_net_db db : is_Some (kv (nw config_net) !! SpaceConfigKey demo_st db 7) -> db = 1.
Proof.
  intros [v Hv]. apply config_net_keys in Hv as [Hk _]; [|apply prefix_app]. apply app_inj_string, (f_equal Split) in Hk.
  rewrite !Split_app, !(Split_plain (pretty _)) in Hk by apply pretty_Z_no_slash. injection Hk as Hk. by apply (inj pretty) in Hk.
Qed.

Lemma settings_survive_restart_witness :
  exists reg s, demo_registration.2 = Ret reg /\ s ∈ Reg_Spaces reg /\ S_RefreshInterval s = Some 500 /\ S_EnableIdCache s = Some true.
Proof.
  destruct demo_registration_run as (reg & Hreg & Hlen). destruct demo_registration as [w' r] eqn:Er. cbn [snd] in Hreg. subst r.
  pose proof demo_modify_run as Hmod. destruct demo_modify as [n' r] eqn:Em. cbn [snd] in Hmod. subst r.
  destruct (settings_survive_restart no_fault no_fault (fun _ _ => Ret tt) "c1" ParseInt demo_ToInt64 demo_decode_config (one_codec demo_two) (one_codec demo_server)
    countable_codec "db" "s" (plain_config (Some 500) None) demo_two config_net n' "10.0.0.1" 1 (nw n') w' reg demo_decodes ltac:(intros; exact I) demo_filed) as [_ H].
  - exists "1"%string, 1. split; [reflexivity|]. split; [reflexivity|]. vm_compute. reflexivity.
  - split; reflexivity.
  - exact config_net_db.
  - exact Em.
  - reflexivity.
  - unfold demo_registration in Er. rewrite Em in Er. exact Er.
  - destruct (Reg_Spaces reg) as [|s l] eqn:Es; [discriminate Hlen|]. injection Hlen as Hid _. exists reg, s. split; [reflexivity|]. split; [rewrite Es; by left|].
    destruct (H s) as (_ & _ & Hs); [by left|exact Hid|].
    destruct (Hs (fun _ => eq_refl)) as [H1 H2]. split; [exact H1|]. rewrite H2. vm_compute. reflexivity.
Defined.

Lemma failed_read_loses_settings_witness :
  let fault k := if (k =? 0)%nat then Some (OtherErr "timeout", false) else None in
  exists w', UpdateSpaceConfig (HConfig := countable_codec) fault demo_st demo_two (plain_config (Some 500) None) (nw config_net) = (w', Ret tt) /\
    kv w' !! SpaceConfigKey demo_st 1 7 ≫= Unmarshal (Codec := countable_codec) = Some (plain_config (Some 500) None).
Proof.
  intros fault. eapply (failed_read_loses_settings fault demo_st countable_codec demo_two _ (plain_config None (Some true))); reflexivity || exact I.
Defined.

Definition request_cfg (on : bool) (r w : Z) : RequestLimitCfg := {| RequestLimitEnabled := on; TotalReadLimit := float_of_int r; TotalWriteLimit := float_of_int w |}.
Definition limits_world : world := {| kv := ∅; calls := 0 |}.

Lemma request_limits_reach_routers_witness :
  exists w', ModifyRequestLimitCfg (HReq := one_codec (request_cfg true 100 1000000)) no_fault demo_st (request_cfg true 100 0) limits_world = (w', Ret tt) /\
    current (H := one_codec (request_cfg true 100 1000000)) (RouterConfigKey demo_st RequestLimitConfigKey) default_request (kv w') = Some (request_cfg true 100 1000000).
Proof.
  pose proof (request_limits_reach_routers no_fault demo_st 0 (one_codec (request_cfg true 100 1000000)) (one_codec memory_off) (one_codec true)
    (request_cfg true 100 0) limits_world) as H. cbv zeta in H.
  destruct (ModifyRequestLimitCfg no_fault demo_st (request_cfg true 100 0) limits_world) as [w' r] eqn:E.
  assert (r = Ret tt) as -> by (vm_compute in E; by injection E as _ <-). exists w'. split; [reflexivity|].
  destruct H as (old & Hold & _ & Hnew & _); [intros old Hold; vm_compute in Hold; injection Hold as <-; vm_compute; reflexivity|].
  rewrite Hnew. vm_compute in Hold. injection Hold as <-. vm_compute. reflexivity.
Defined.
