(* ===== verification/Paths.v ===== *)
(** * Paths and substrings

    What the backup code uses of [path/filepath] and [strings]: joining and cleaning of slash separated paths, prefixes, suffixes
    and substrings, with the facts on paths of plain segments. *)

From S2P Require Import Prelude.
From S2P Require Import Text.
From S2P Require Import Keys.
From S2P Require Import Store.
From S2P Require Import Cache.
Open Scope Z_scope.

(** [path.Clean] and [filepath.Join] *)

Definition clean_step (rooted : bool) (out : list string) (elem : string) : list string :=
  if (elem =?s "") || (elem =?s ".") then out
  else if elem =?s ".." then
    match last out with
    | Some top => if top =?s ".." then out ++ [elem] else removelast out
    | None => if rooted then out else out ++ [elem]
    end
  else out ++ [elem].
Definition Clean (path : string) : string :=
  if path =?s "" then "."
  else
    let rooted := HasPrefix path "/" in
    let out := String.concat "/" (foldl (clean_step rooted) [] (Split path)) in
    if rooted then "/" +:+ out else if out =?s "" then "." else out.
Fixpoint Join (elems : list string) : string :=
  match elems with
  | [] => ""
  | e :: rest => if e =?s "" then Join rest else Clean (String.concat "/" elems)
  end.

(** [filepath.Base] *)
Definition Base (path : string) : string :=
  if path =?s "" then "." else default "/"%string (last (filter (fun x => x <> ""%string) (Split path))).

(** [strings.TrimPrefix] and [strings.TrimSuffix] *)
Definition TrimPrefix (s p : string) : string := if HasPrefix s p then String.substring (String.length p) (String.length s - String.length p) s else s.
Definition TrimSuffix (s p : string) : string := if HasSuffix s p then String.substring 0 (String.length s - String.length p) s else s.
(** ** Plain paths *)

(** A name that is a segment of a path. *)
Definition plain (name : string) : Prop := name <> ""%string /\ name <> "."%string /\ name <> ".."%string /\ 47 ∉ bytes_of name.

Lemma clean_plain rooted out names : Forall plain names -> foldl (clean_step rooted) out names = out ++ names.
Proof.
  intros H. revert out. induction H as [|x names (H1 & H2 & H3 & _) _ IH]; intros out; cbn; [by rewrite app_nil_r|].
  apply string_eqb_neq in H1, H2, H3. unfold clean_step at 2. rewrite H1, H2, H3. cbn. by rewrite IH, <- app_assoc.
Qed.

Lemma Split_concat names : Forall plain names -> names <> [] -> Split (String.concat "/" names) = names.
Proof.
  induction 1 as [|x names (H1 & H2 & H3 & H4) Hn IH]; [done|]. intros _. destruct names as [|y names]; [by apply Split_plain|].
  change (String.concat "/" (x :: y :: names)) with (x +:+ "/" +:+ String.concat "/" (y :: names)). by rewrite Split_app, Split_plain, IH.
Qed.

Lemma plain_head x y : plain x -> HasPrefix (x +:+ y) "/" = false.
Proof.
  intros (H1 & _ & _ & H4). destruct x as [|c x]; [done|]. 
  change (HasPrefix (String c x +:+ y) "/") with (if ascii_dec "/" c then String.prefix "" (x +:+ y) else false).
  destruct (ascii_dec "/" c) as [<-|]; [|done]. exfalso. apply H4. by left.
Qed.

Lemma Clean_plain names : Forall plain names -> names <> [] -> Clean (String.concat "/" names) = String.concat "/" names.
Proof.
  intros H Hne. unfold Clean. assert (exists x y, plain x /\ String.concat "/" names = x +:+ y) as (x & y & Hx & He).
  { destruct H as [|x l Hx Hl]; [done|]. exists x. destruct l; [exists ""%string; split; [done|]; by rewrite string_app_nil|]. eexists. split; [done|reflexivity]. }
  assert (String.concat "/" names <> ""%string) as Hs by (rewrite He; destruct Hx as (Hx & _); destruct x; [done|discriminate]).
  apply string_eqb_neq in Hs. rewrite Hs, He, plain_head by done. rewrite <- He, Split_concat by done. rewrite clean_plain by done. by rewrite app_nil_l, Hs.
Qed.

Lemma Join_plain names : Forall plain names -> names <> [] -> Join names = String.concat "/" names.
Proof. intros H Hne. destruct H as [|x l Hx Hl]; [done|]. unfold Join. destruct Hx as (Hx & Hx'). apply string_eqb_neq in Hx as Hb. rewrite Hb. apply Clean_plain; [|done]. by constructor. Qed.

Lemma plain_checked name : forallb (fun c => negb (c =? 47)) (bytes_of name) = true -> name <> ""%string -> name <> "."%string -> name <> ".."%string -> plain name.
Proof.
  intros H H1 H2 H3. split; [done|]. split; [done|]. split; [done|]. intros Hin. rewrite forallb_forall in H. specialize (H 47 (proj1 (list_elem_of_In _ _) Hin)). done.
Qed.

(** ** Prefixes and suffixes *)

Lemma length_app_string (a b : string) : String.length (a +:+ b) = (String.length a + String.length b)%nat.
Proof. induction a as [|c a IH]; [done|]. change (String.length (String c a +:+ b)) with (S (String.length (a +:+ b))). by rewrite IH. Qed.

Lemma substring_app_r (a b : string) : String.substring (String.length a) (String.length b) (a +:+ b) = b.
Proof.
  induction a as [|c a IH]; [|exact IH]. change ("" +:+ b) with b. cbn [String.length]. induction b as [|c b IH]; [done|]. cbn. by rewrite IH.
Qed.
Lemma substring_app_l (a b : string) : String.substring 0 (String.length a) (a +:+ b) = a.
Proof.
  induction a as [|c a IH]; [by destruct b|]. change (String c (String.substring 0 (String.length a) (a +:+ b)) = String c a). by rewrite IH.
Qed.

Lemma HasPrefix_app p x : HasPrefix (p +:+ x) p = true.
Proof.
  unfold HasPrefix. induction p as [|c p IH]; [by destruct x|]. change (String.prefix (String c p) (String c p +:+ x)) with
    (if ascii_dec c c then String.prefix p (p +:+ x) else false). by destruct (ascii_dec c c).
Qed.

Lemma TrimPrefix_prefix p x : TrimPrefix (p +:+ x) p = x.
Proof. unfold TrimPrefix. rewrite HasPrefix_app, length_app_string. replace (_ + _ - _)%nat with (String.length x) by lia. apply substring_app_r. Qed.
Lemma TrimSuffix_app x p : TrimSuffix (x +:+ p) p = x.
Proof.
  unfold TrimSuffix. assert (HasSuffix (x +:+ p) p = true) as -> by (apply HasSuffix_iff; by exists x).
  rewrite length_app_string. replace (_ + _ - _)%nat with (String.length x) by lia. apply substring_app_l.
Qed.

(** ** Substrings *)

Lemma prefix_iff p s : String.prefix p s = true <-> exists b, s = p +:+ b.
Proof.
  split.
  - revert s. induction p as [|c p IH]; intros s H; [by exists s|]. destruct s as [|d s]; [done|]. cbn in H. destruct (ascii_dec c d) as [<-|]; [|done].
    destruct (IH s H) as [b ->]. by exists b.
  - intros [b ->]. apply HasPrefix_app.
Qed.

Lemma Contains_iff s sub : Contains s sub = true <-> exists a b, s = a +:+ sub +:+ b.
Proof.
  induction s as [|c s IH]; cbn [Contains]; rewrite orb_true_iff, prefix_iff.
  - split; [intros [[b Hb]|?]; [by exists ""%string, b|done]|]. intros ([|? a] & b & H); [by left; exists b|done].
  - rewrite IH. split.
    + intros [[b Hb]|(a & b & ->)]; [by exists ""%string, b|by exists (String c a), b].
    + intros ([|d a] & b & H); [left; by exists b|]. right. injection H as -> ->. by exists a, b.
Qed.

Lemma Contains_slash x : 47 ∉ bytes_of x -> Contains x "/" = false.
Proof.
  intros Hx. apply not_true_iff_false. intros (a & b & ->)%Contains_iff. apply Hx. rewrite !bytes_of_app. apply elem_of_app. right. by left.
Qed.

Lemma concat_app l1 l2 : l1 <> [] -> l2 <> [] -> String.concat "/" (l1 ++ l2) = String.concat "/" l1 +:+ "/" +:+ String.concat "/" l2.
Proof.
  intros H1 H2. induction l1 as [|x [|y l1] IH]; [done|destruct l2; [done|reflexivity]|].
  change (String.concat "/" ((x :: y :: l1) ++ l2)) with (x +:+ "/" +:+ String.concat "/" ((y :: l1) ++ l2)). rewrite IH by done.
  change (String.concat "/" (x :: y :: l1)) with (x +:+ "/" +:+ String.concat "/" (y :: l1)). by rewrite !app_assoc_string.
Qed.

Lemma Split_not_nil s : Split s <> [].
Proof. unfold Split. generalize ""%string. induction s as [|c s IH]; intros cur; cbn; [done|]. by case_match. Qed.

(** A path has [/x/] in it exactly when [x] is a segment that is neither the first nor the last. *)
Lemma Contains_segment names x : Forall plain names -> 47 ∉ bytes_of x ->
  Contains (String.concat "/" names) ("/" +:+ x +:+ "/") = true <-> exists l1 l2, names = l1 ++ x :: l2 /\ l1 <> [] /\ l2 <> [].
Proof.
  intros Hn Hx. rewrite Contains_iff. split.
  - intros (a & b & H). assert (names <> []) as Hne by (intros ->; destruct a; discriminate H).
    exists (Split a), (Split b). split; [|split; apply Split_not_nil]. rewrite <- (Split_concat names), H by done.
    rewrite !app_assoc_string. change ("/" +:+ x +:+ "/" +:+ b) with ("/" +:+ (x +:+ "/" +:+ b)). rewrite !Split_app, (Split_plain x) by done. done.
  - intros (l1 & l2 & -> & H1 & H2). exists (String.concat "/" l1), (String.concat "/" l2). rewrite concat_app by done.
    destruct l2 as [|y l2]; [done|]. change (String.concat "/" (x :: y :: l2)) with (x +:+ "/" +:+ String.concat "/" (y :: l2)). by rewrite !app_assoc_string.
Qed.


Lemma Base_plain l name : plain name -> Forall plain l -> Base (String.concat "/" (l ++ [name])) = name.
Proof.
  intros Hn Hl. unfold Base. assert (Forall plain (l ++ [name])) as Hall by (apply Forall_app; split; [done|by constructor]).
  assert (l ++ [name] <> []) as Hne by (by destruct l). rewrite Split_concat by done.
  assert (String.concat "/" (l ++ [name]) <> ""%string) as Hs%string_eqb_neq.
  { intros H. pose proof (Split_concat _ Hall Hne) as Hc. rewrite H in Hc. destruct l as [|x [|y l]]; [|discriminate Hc..]. injection Hc as Hc. by destruct Hn. }
  rewrite Hs. rewrite list_filter_all; [by rewrite last_snoc|]. eapply Forall_impl; [exact Hall|]. by intros x (H & _).
Qed.
