(* ===== verification/Auth.v ===== *)
(** * Authentication of HTTP requests (internal/master/cluster_api.go, internal/router/document/doc_http.go,
    internal/pkg/netutil/auth.go, internal/entity/errors, internal/entity/response)

    The base64 encodings, the [Authorization] header a client sends and the middlewares of the master and of the router that
    check it, over the users and roles of Accounts.v. *)

From S2P Require Import Prelude.
From S2P Require Import Text.
From S2P Require Import Errors.
From S2P Require Import Names.
From S2P Require Import Rbac.
From S2P Require Import Keys.
From S2P Require Import Space.
From S2P Require Import Placement.
From S2P Require Import Store.
From S2P Require Import Databases.
From S2P Require Import Accounts.
From S2P Require Import Paths.
Open Scope Z_scope.

(** ** encoding/base64 *)

(** The first 62 characters of both alphabets; the two last ones differ. *)
Definition alphanumeric : string := "ABCDEFGHIJKLMNOPQRSTUVWXYZabcdefghijklmnopqrstuvwxyz0123456789".
Definition StdEncoding : list ascii := String.list_ascii_of_string (alphanumeric +:+ "+/").
Definition URLEncoding : list ascii := String.list_ascii_of_string (alphanumeric +:+ "-_").
Definition padding : ascii := "="%char.

Definition sextet (alphabet : list ascii) (v : Z) : ascii := default padding (alphabet !! Z.to_nat v).
Definition value_of (alphabet : list ascii) (c : ascii) : option Z := Z.of_nat ∘ fst <$> list_find (fun x => x = c) alphabet.


Fixpoint encode (al : list ascii) (bs : list Z) : list ascii :=
  match bs with
  | a :: b :: c :: rest =>
    sextet al (a / 4) :: sextet al (a mod 4 * 16 + b / 16) :: sextet al (b mod 16 * 4 + c / 64) :: sextet al (c mod 64) :: encode al rest
  | [a; b] => [sextet al (a / 4); sextet al (a mod 4 * 16 + b / 16); sextet al (b mod 16 * 4); padding]
  | [a] => [sextet al (a / 4); sextet al (a mod 4 * 16); padding; padding]
  | [] => []
  end.
Definition EncodeToString (al : list ascii) (s : string) : string := String.string_of_list_ascii (encode al (bytes_of s)).

(** One group of four characters after another; the bits of a short last group that belong to no byte are not looked at. *)
Fixpoint decode (al : list ascii) (cs : list ascii) : option (list Z) :=
  match cs with
  | [] => Some []
  | c0 :: c1 :: c2 :: c3 :: rest =>
    v0 ← value_of al c0; v1 ← value_of al c1;
    match value_of al c2 with
    | Some v2 =>
      match value_of al c3 with
      | Some v3 => (fun bs => v0 * 4 + v1 / 16 :: v1 mod 16 * 16 + v2 / 4 :: v2 mod 4 * 64 + v3 :: bs) <$> decode al rest
      | None => if bool_decide (c3 = padding /\ rest = []) then Some [v0 * 4 + v1 / 16; v1 mod 16 * 16 + v2 / 4] else None
      end
    | None => if bool_decide (c2 = padding /\ c3 = padding /\ rest = []) then Some [v0 * 4 + v1 / 16] else None
    end
  | _ => None
  end.

(** Line ends are skipped wherever they are. *)
Definition line_end (c : ascii) : bool := bool_decide (c = ascii_of_nat 10 \/ c = ascii_of_nat 13).
Definition DecodeString (al : list ascii) (s : string) : option string :=
  of_bytes <$> decode al (List.filter (fun c => negb (line_end c)) (String.list_ascii_of_string s)).

(** ** netutil/auth.go *)

(** [strings.SplitN(s, sep, 2)] for a separator of one character: what is before and after the first one, if there is one. *)
Fixpoint SplitN2 (sep : ascii) (s : string) : option (string * string) :=
  match s with
  | "" => None
  | String c s' => if bool_decide (c = sep) then Some (""%string, s') else prod_map (String c) id <$> SplitN2 sep s'
  end.

Definition HeaderAuthBasic : string := "Basic ".
Definition AuthEncrypt (userName password : string) : string :=
  HeaderAuthBasic +:+ EncodeToString URLEncoding (userName +:+ ":" +:+ password).

(** Name, password and error; data that is not one name and one password is not an error. *)
Definition AuthDecrypt (headerData : string) : string * string * bool :=
  match DecodeString URLEncoding (TrimPrefix headerData HeaderAuthBasic) with
  | None => (""%string, ""%string, true)
  | Some dataStr =>
    match SplitN2 ":" dataStr with
    | Some (user, password) => match SplitN2 ":" password with None => (user, password, false) | Some _ => (""%string, ""%string, false) end
    | None => (""%string, ""%string, false)
    end
  end.

(** ** Replies (errors_http.go, response.go) *)

Record ErrRequest : Set := { er_msg : string; er_code : ErrorEnum; er_httpCode : Z }.

Definition new_request (httpCode : Z) (otherwise : ErrorEnum) (e : error) : ErrRequest :=
  {| er_msg := Error e; er_code := default otherwise (code_of e); er_httpCode := httpCode |}.
Definition NewErrBadRequest : error -> ErrRequest := new_request 400 INTERNAL_ERROR.
Definition NewErrUnprocessable : error -> ErrRequest := new_request 422 INTERNAL_ERROR.
Definition NewErrNotFound : error -> ErrRequest := new_request 404 INTERNAL_ERROR.
Definition NewErrInternal : error -> ErrRequest := new_request 500 INTERNAL_ERROR.
Definition NewErrUnauthorized : error -> ErrRequest := new_request 401 AUTHENTICATION_FAILED.

(** A status with the body of the reply; [Data] is what the handler gives out. *)
Record Response (A : Type) : Type := { httpStatus : Z; Code : ErrorEnum; RequestId : string; Msg : string; Data : option A }.
Arguments httpStatus {A}. Arguments Code {A}. Arguments RequestId {A}. Arguments Msg {A}. Arguments Data {A}.

Definition JsonSuccess {A} (id : string) (data : A) : Response A :=
  {| httpStatus := 200; Code := SUCCESS; RequestId := id; Msg := ""; Data := Some data |}.
Definition SuccessDelete {A} (id : string) : Response A := {| httpStatus := 200; Code := SUCCESS; RequestId := id; Msg := ""; Data := None |}.
Definition JsonError {A} (id : string) (err : ErrRequest) : Response A :=
  {| httpStatus := er_httpCode err; Code := er_code err; RequestId := id; Msg := er_msg err; Data := None |}.

(** ** The middlewares *)

(** The name and the password of an [Authorization] header. *)
Definition credentials (authHeader : string) : go (string * string) :=
  if authHeader =?s "" then Fail (OtherErr "auth header is empty")
  else match SplitN2 " " authHeader with
  | Some (kind, token) =>
    if kind =?s "Basic" then
      match DecodeString StdEncoding token with
      | None => Fail (OtherErr "illegal base64 data at input byte ")
      | Some decoded => match SplitN2 ":" decoded with
                        | Some c => Ret c
                        | None => Fail (OtherErr "auth header credentials is invalid")
                        end
      end
    else Fail (OtherErr "auth header type is invalid")
  | None => Fail (OtherErr "auth header type is invalid")
  end.

(** [if err != nil { err = fmt.Errorf(...) }] *)
Definition reworded_M {A} (e : error) (m : M A) : M A := fun w => match m w with (w', Fail _) => (w', Fail e) | x => x end.

Section Middleware.
Context (fault : nat -> option (error * bool)) (st : Prefixes) `{HRole : !Codec Role, HUser : !Codec User}.

(** The master: [Ret] is [c.Next()]; the error of [Fail] is the one given to [NewErrUnauthorized]. *)
Definition BasicAuthMiddleware (authHeader endpoint method : string) : M unit :=
  do! c <- mret (credentials authHeader) in
  do! user <- reworded_M (OtherErr "auth header user %s is invalid") (QueryUserWithPassword fault st c.1 true) in
  do! password <- mret (deref (UserRole_Password user)) in
  do_! mret (guard_err (negb (password =?s c.2)) (OtherErr "auth header password is invalid")) in
  do! role <- QueryRole fault st (Role_Name (UserRole_Role user)) in
  mret (HasPermissionForResources role endpoint method).
End Middleware.

(** [docService.getRole]; [RoleByCache] is the cache of the roles. *)
Definition getRole (RoleByCache : string -> go Role) (roleName : string) : go Role :=
  match RoleMap_lookup roleName with Some value => Ret value | None => RoleByCache roleName end.

(** The router: the same over its caches. *)
Definition router_BasicAuthMiddleware (getUser : string -> go User) (RoleByCache : string -> go Role) (authHeader endpoint method : string) : go unit :=
  let! c := credentials authHeader in
  let! user := match getUser c.1 with Fail _ => Fail (OtherErr "auth header user %s is invalid") | x => x end in
  let! password := deref (Password user) in
  check! guard_err (negb (password =?s c.2)) (OtherErr "auth header password is invalid") in
  let! roleName := deref (RoleName user) in
  let! role := getRole RoleByCache roleName in
  HasPermissionForResources role endpoint method.

(** ** Round trips *)

(** An alphabet of 64 characters, in which each has its value; the padding is none of them. *)
Definition good_alphabet (al : list ascii) : bool :=
  forallb (fun c => negb (line_end c)) al && bool_decide (value_of al padding = None) &&
  forallb (fun k => bool_decide (value_of al (sextet al (Z.of_nat k)) = Some (Z.of_nat k))) (seq 0 64).

Lemma StdEncoding_good : good_alphabet StdEncoding = true.
Proof. by vm_compute. Qed.
Lemma URLEncoding_good : good_alphabet URLEncoding = true.
Proof. by vm_compute. Qed.

Section Alphabet.
Context (al : list ascii) (Hal : good_alphabet al = true).

Lemma value_sextet v : 0 <= v < 64 -> value_of al (sextet al v) = Some v.
Proof.
  intros Hv. unfold good_alphabet in Hal. apply andb_prop in Hal as [_ H]. rewrite forallb_forall in H.
  specialize (H (Z.to_nat v)). rewrite in_seq in H. specialize (H ltac:(lia)). apply bool_decide_eq_true in H. by rewrite Z2Nat.id in H by lia.
Qed.

Lemma value_padding : value_of al padding = None.
Proof. unfold good_alphabet in Hal. apply andb_prop in Hal as [[_ ?%bool_decide_eq_true]%andb_prop _]. done. Qed.

Lemma sextet_visible v : line_end (sextet al v) = false.
Proof.
  unfold good_alphabet in Hal. apply andb_prop in Hal as [[H _]%andb_prop _]. rewrite forallb_forall in H.
  unfold sextet. destruct (al !! Z.to_nat v) as [c|] eqn:E; [|by vm_compute]. cbn.
  apply negb_true_iff, H, list_elem_of_In, list_elem_of_lookup. by eexists.
Qed.

Lemma encode_visible bs : List.filter (fun c => negb (line_end c)) (encode al bs) = encode al bs.
Proof.
  induction bs as [bs IH] using (induction_ltof1 _ (@length Z)). unfold ltof in IH.
  destruct bs as [|a [|b [|c rest]]]; cbn [encode List.filter]; rewrite ?sextet_visible; try done. cbn [negb]. by rewrite IH by (cbn; lia).
Qed.

Ltac sextets := rewrite !value_sextet by (Z.to_euclidean_division_equations; lia); cbn [mbind option_bind].

Lemma decode_encode bs : Forall (in_u 8) bs -> decode al (encode al bs) = Some bs.
Proof.
  unfold in_u. induction bs as [bs IH] using (induction_ltof1 _ (@length Z)). unfold ltof in IH.
  intros Hb. destruct bs as [|a [|b [|c rest]]]; cbn [encode decode]; [done|..].
  - apply Forall_cons in Hb as [Ha _]. sextets. rewrite value_padding, bool_decide_true by done. f_equal. f_equal. Z.to_euclidean_division_equations; lia.
  - apply Forall_cons in Hb as [Ha [Hb _]%Forall_cons]. sextets. rewrite value_padding, bool_decide_true by done.
    f_equal. f_equal; [|f_equal]; Z.to_euclidean_division_equations; lia.
  - apply Forall_cons in Hb as [Ha [Hb [Hc Hr]%Forall_cons]%Forall_cons]. sextets. rewrite IH by (done || (cbn; lia)). cbn.
    f_equal. f_equal; [|f_equal; [|f_equal]]; Z.to_euclidean_division_equations; lia.
Qed.

(** A character of another alphabet anywhere makes the text undecodable. *)
Lemma decode_foreign c cs : c ∈ cs -> value_of al c = None -> c <> padding -> decode al cs = None.
Proof.
  induction cs as [cs IH] using (induction_ltof1 _ (@length ascii)). unfold ltof in IH. intros Hin Hv Hp.
  destruct cs as [|c0 [|c1 [|c2 [|c3 rest]]]]; try done; [by apply not_elem_of_nil in Hin|]. cbn [decode].
  rewrite !elem_of_cons in Hin. destruct (value_of al c0) eqn:E0; [|done]. destruct (value_of al c1) eqn:E1; [|done]. cbn.
  destruct (value_of al c2) eqn:E2; [destruct (value_of al c3) eqn:E3|].
  - rewrite IH; [done|cbn; lia| |done..]. naive_solver.
  - rewrite bool_decide_false; [done|]. intros [-> ->]. set_solver.
  - rewrite bool_decide_false; [done|]. intros (-> & -> & ->). set_solver.
Qed.
End Alphabet.


Lemma bytes_of_range s : Forall (in_u 8) (bytes_of s).
Proof. induction s as [|a s IH]; constructor; [|done]. pose proof (N_ascii_bounded a). unfold byte_val, in_u. lia. Qed.

Lemma DecodeString_Encode al s : good_alphabet al = true -> DecodeString al (EncodeToString al s) = Some s.
Proof.
  intros Hal. unfold DecodeString, EncodeToString. rewrite String.list_ascii_of_string_of_list_ascii, encode_visible, decode_encode by (done || apply bytes_of_range).
  cbn. by rewrite of_bytes_of.
Qed.

(** The characters the standard alphabet does not have. *)
Definition url_only (c : ascii) : Prop := c = "-"%char \/ c = "_"%char.
#[export] Instance url_only_dec c : Decision (url_only c) := _.

Lemma alphabets_agree v : 0 <= v < 64 -> ~ url_only (sextet URLEncoding v) -> sextet URLEncoding v = sextet StdEncoding v.
Proof.
  intros Hv. assert (forallb (fun k => bool_decide (url_only (sextet URLEncoding (Z.of_nat k))) ||
    bool_decide (sextet URLEncoding (Z.of_nat k) = sextet StdEncoding (Z.of_nat k))) (seq 0 64) = true) as H by (by vm_compute).
  rewrite forallb_forall in H. specialize (H (Z.to_nat v)). rewrite in_seq in H. specialize (H ltac:(lia)). rewrite Z2Nat.id in H by lia.
  apply orb_prop in H as [?%bool_decide_eq_true|?%bool_decide_eq_true]; done.
Qed.

Lemma encodings_agree bs : Forall (in_u 8) bs -> Forall (fun c => ~ url_only c) (encode URLEncoding bs) -> encode URLEncoding bs = encode StdEncoding bs.
Proof.
  unfold in_u. induction bs as [bs IH] using (induction_ltof1 _ (@length Z)). unfold ltof in IH. intros Hb.
  destruct bs as [|a [|b [|c rest]]]; cbn [encode]; [done|..]; rewrite !Forall_cons; rewrite !Forall_cons in Hb; intros Hu.
  - destruct Hb as [Ha _], Hu as (H1 & H2 & _). by rewrite !alphabets_agree by (done || (Z.to_euclidean_division_equations; lia)).
  - destruct Hb as (Ha & Hb & _), Hu as (H1 & H2 & H3 & _). by rewrite !alphabets_agree by (done || (Z.to_euclidean_division_equations; lia)).
  - destruct Hb as (Ha & Hb & Hc & Hr), Hu as (H1 & H2 & H3 & H4 & Hu). rewrite IH by (done || (cbn; lia)).
    by rewrite !alphabets_agree by (done || (Z.to_euclidean_division_equations; lia)).
Qed.

(** The standard decoder on a text in the URL alphabet. *)
Lemma Std_decodes_URL s :
  DecodeString StdEncoding (EncodeToString URLEncoding s) = if decide (Exists url_only (encode URLEncoding (bytes_of s))) then None else Some s.
Proof.
  unfold DecodeString, EncodeToString. rewrite String.list_ascii_of_string_of_list_ascii, (encode_visible _ URLEncoding_good).
  case_decide as E.
  - apply Exists_exists in E as (c & Hc & Hu). rewrite (decode_foreign StdEncoding StdEncoding_good c); [done..|destruct Hu as [->| ->]; by vm_compute|by destruct Hu as [->| ->]].
  - apply not_Exists_Forall in E; [|apply _]. rewrite encodings_agree by (done || apply bytes_of_range).
    rewrite decode_encode by (apply StdEncoding_good || apply bytes_of_range). cbn. by rewrite of_bytes_of.
Qed.

Lemma SplitN2_app sep x y : sep ∉ String.list_ascii_of_string x -> SplitN2 sep (x +:+ String sep y) = Some (x, y).
Proof.
  induction x as [|c x IH]; cbn [SplitN2 String.append String.list_ascii_of_string]; intros H.
  - change (SplitN2 sep (String sep y) = Some (""%string, y)). cbn [SplitN2]. by rewrite bool_decide_true.
  - apply not_elem_of_cons in H as [H1 H2]. change (SplitN2 sep (String c (x +:+ String sep y)) = Some (String c x, y)).
    cbn [SplitN2]. by rewrite bool_decide_false, IH by congruence.
Qed.

Lemma SplitN2_none sep x : sep ∉ String.list_ascii_of_string x <-> SplitN2 sep x = None.
Proof.
  induction x as [|c x IH]; cbn [SplitN2 String.list_ascii_of_string]; [set_solver|]. rewrite not_elem_of_cons, IH. case_bool_decide; [naive_solver|].
  destruct (SplitN2 sep x); cbn; naive_solver.
Qed.

(** The header that the servers of a cluster build ([AuthEncrypt]) is understood by the middlewares, as the name and password it
    was built from, exactly when its token, which is in the URL alphabet, has neither of the two characters that are not in the standard
    alphabet; otherwise the request is refused.  A client that uses the standard alphabet is always understood, unless its name has
    a colon. *)
Theorem header_roundtrip (userName password : string) :
  ":"%char ∉ String.list_ascii_of_string userName ->
  credentials ("Basic " +:+ EncodeToString StdEncoding (userName +:+ ":" +:+ password)) = Ret (userName, password) /\
  (credentials (AuthEncrypt userName password) = Ret (userName, password) <->
     ~ Exists url_only (encode URLEncoding (bytes_of (userName +:+ ":" +:+ password)))) /\
  (forall c, credentials (AuthEncrypt userName password) = Ret c -> c = (userName, password)) /\
  (AuthDecrypt (AuthEncrypt userName password) = if decide (":"%char ∈ String.list_ascii_of_string password) then (""%string, ""%string, false)
     else (userName, password, false)).
Proof.
  intros Hu.
  assert (forall token, credentials (HeaderAuthBasic +:+ token) = match DecodeString StdEncoding token with
    | None => Fail (OtherErr "illegal base64 data at input byte ")
    | Some d => match SplitN2 ":" d with Some c => Ret c | None => Fail (OtherErr "auth header credentials is invalid") end end) as Hc by done.
  assert (SplitN2 ":" (userName +:+ ":" +:+ password) = Some (userName, password)) as Hs by by apply SplitN2_app.
  split; [|split; [|split]].
  - change "Basic "%string with HeaderAuthBasic. by rewrite Hc, DecodeString_Encode, Hs by apply StdEncoding_good.
  - unfold AuthEncrypt. rewrite Hc, Std_decodes_URL. case_decide; [naive_solver|]. by rewrite Hs.
  - unfold AuthEncrypt. intros c. rewrite Hc, Std_decodes_URL. case_decide; [done|]. rewrite Hs. naive_solver.
  - unfold AuthDecrypt, AuthEncrypt. rewrite TrimPrefix_prefix, DecodeString_Encode, Hs by apply URLEncoding_good.
    case_decide as E; destruct (SplitN2 ":" password) eqn:E'; try done; exfalso; [by apply SplitN2_none in E'|].
    by apply SplitN2_none in E; rewrite E in E'.
Qed.

(** ** Who is let through *)

Lemma RoleMap_named n r : RoleMap_lookup n = Some r -> Role_Name r = n.
Proof.
  unfold RoleMap_lookup. destruct (List.find _ RoleMap) as [[n' r']|] eqn:Hf; [|done]. intros [= ->].
  apply find_some in Hf as [Hin Hn]. cbn in Hn. apply string_eqb_eq in Hn as <-.
  pose proof (proj1 (forallb_forall _ _) RoleMap_checked _ Hin) as Hb. by apply andb_prop in Hb as [[?%bool_decide_eq_true _]%andb_prop _].
Qed.

Definition role_named (roles : gmap string Role) (n : string) : option Role :=
  match RoleMap_lookup n with Some r => Some r | None => roles !! n end.

(** The role of the account a header names, if the password is right. *)
Definition account_of (users : gmap string User) (roles : gmap string Role) (authHeader : string) (role : Role) : Prop :=
  exists name password user rn, credentials authHeader = Ret (name, password) /\ users !! name = Some user /\
    Password user = Some password /\ RoleName user = Some rn /\ role_named roles rn = Some role.
Definition admitted (users : gmap string User) (roles : gmap string Role) (authHeader endpoint method : string) : Prop :=
  exists role, account_of users roles authHeader role /\
    (Role_Name role = RootName \/ is_Some (Role_Privileges role !! (ParseResources endpoint method).1)).
(** The account lacks a password or a role: nil is dereferenced. *)
Definition incomplete (users : gmap string User) (authHeader : string) : Prop :=
  exists name password user, credentials authHeader = Ret (name, password) /\ users !! name = Some user /\ (Password user = None \/ RoleName user = None).

Section Admission.
Context (fault : nat -> option (error * bool)) (st : Prefixes) `{HRole : !Codec Role, HUser : !Codec User}.

(** The users and the roles the store holds. *)
Record accounts (users : gmap string User) (roles : gmap string Role) (t : gmap string string) : Prop := {
  ac_users : forall n, t !! UserKey st n = Marshal <$> users !! n;
  ac_roles : forall n, t !! RoleKey st n = Marshal <$> roles !! n;
  ac_named : forall n r, roles !! n = Some r -> Role_Name r = n;
  ac_user_json : forall n u, users !! n = Some u -> Encodable u;
  ac_role_json : forall n r, roles !! n = Some r -> Encodable r
}.

Context (users : gmap string User) (roles : gmap string Role).

Lemma role_named_named t n r : accounts users roles t -> role_named roles n = Some r -> Role_Name r = n.
Proof.
  intros Ht. unfold role_named. destruct (RoleMap_lookup n) eqn:E; [intros [= ->]; by apply RoleMap_named|]. apply Ht.
Qed.

(** [QueryRole] reads the role of a name. *)
Lemma QueryRole_reads n w : accounts users roles (kv w) ->
  kv (QueryRole fault st n w).1 = kv w /\
  match (QueryRole fault st n w).2 with
  | Ret r => role_named roles n = Some r
  | Fail _ => (forall k, fault k = None) -> role_named roles n = None
  | Panic _ => False
  end.
Proof.
  intros Ht. unfold QueryRole, role_named. destruct (RoleMap_lookup n) eqn:E; [done|]. unfold mbind_M, Get, call.
  destruct (fault (calls w)) as [[e []]|] eqn:Ef; cbn [fst snd kv calls]; try (split; [done|]; intros Hf; by rewrite Hf in Ef).
  unfold mret. cbn [fst snd]. split; [done|]. rewrite (ac_roles _ _ _ Ht). destruct (roles !! n) as [r|] eqn:Er; cbn; [|done].
  rewrite Unmarshal_Marshal by by eapply ac_role_json. cbn. unfold name_role. pose proof (ac_named _ _ _ Ht n r Er) as Hn.
  destruct r as [rn op pr]; cbn in *. subst. by destruct (n =?s "") eqn:E0; [apply string_eqb_eq in E0 as ->|].
Qed.

(** The user of a name with its role. *)
Lemma query_user_reads n w : accounts users roles (kv w) ->
  let x := QueryUserWithPassword fault st n true w in
  kv x.1 = kv w /\
  match x.2 with
  | Ret u => exists user rn, users !! n = Some user /\ RoleName user = Some rn /\ role_named roles rn = Some (UserRole_Role u) /\ UserRole_Password u = Password user
  | Fail _ => (forall k, fault k = None) -> users !! n = None \/ exists user rn, users !! n = Some user /\ RoleName user = Some rn /\ role_named roles rn = None
  | Panic _ => exists user, users !! n = Some user /\ RoleName user = None
  end.
Proof.
  intros Ht. cbn zeta. unfold QueryUserWithPassword, query_user, mbind_M, Get, call, role_of, mret, mbind_M.
  destruct (fault (calls w)) as [[e []]|] eqn:Ef; cbn [fst snd kv calls]; try (split; [done|]; intros Hf; by rewrite Hf in Ef).
  rewrite (ac_users _ _ _ Ht). destruct (users !! n) as [user|] eqn:Eu; cbn [fmap option_fmap option_map decode_object]; [|by split; [|intros; left]].
  rewrite Unmarshal_Marshal by by eapply ac_user_json. destruct (RoleName user) as [rn|] eqn:Ern; cbn [deref]; [|by split; [|exists user]].
  destruct (QueryRole_reads rn {| kv := kv w; calls := S (calls w) |}) as [Hk Hr]; [done|].
  destruct (QueryRole fault st rn _) as [w' [r|e|p]]; cbn [fst snd] in *; [|..|done].
  - split; [done|]. exists user, rn. done.
  - split; [done|]. intros Hf. right. exists user, rn. auto.
Qed.

(** An account has one role. *)
Lemma account_of_unique authHeader name password user rn : credentials authHeader = Ret (name, password) -> users !! name = Some user -> RoleName user = Some rn ->
  forall role, account_of users roles authHeader role <-> Password user = Some password /\ role_named roles rn = Some role.
Proof.
  intros Hc Hu Hr role. unfold account_of. rewrite Hc. split.
  - intros (n & p & u & r & [= <- <-] & Hu' & ? & ? & ?). by simplify_eq.
  - intros [? ?]. by exists name, password, user, rn.
Qed.

Lemma middleware_decides authHeader endpoint method w : accounts users roles (kv w) ->
  let x := BasicAuthMiddleware fault st authHeader endpoint method w in
  kv x.1 = kv w /\
  match x.2 with
  | Ret _ => admitted users roles authHeader endpoint method
  | Fail _ => (forall k, fault k = None) -> ~ admitted users roles authHeader endpoint method
  | Panic _ => incomplete users authHeader
  end.
Proof.
  intros Ht. cbn zeta. unfold BasicAuthMiddleware. destruct (credentials authHeader) as [[name password]|e|p] eqn:Ec; cycle 1.
  { cbn. split; [done|]. intros _ (role & (n & pw & u & rn & Hc & _) & _). congruence. }
  { exfalso. revert Ec. unfold credentials. by repeat case_match. }
  rewrite mbind_ret. cbn [fst snd]. unfold mbind_M, reworded_M.
  destruct (query_user_reads name w Ht) as [Hk Hq]. destruct (QueryUserWithPassword fault st name true w) as [w1 [ur|e|p]]; cbn [fst snd] in *.
  - destruct Hq as (user & rn & Hu & Hrn & Hrole & Hpw). rewrite Hpw. unfold mret.
    pose proof (account_of_unique authHeader name password user rn Ec Hu Hrn) as Hacc.
    destruct (Password user) as [pw|] eqn:Epw; cbn [deref fst snd]; [|split; [done|]; exists name, password, user; auto].
    destruct (pw =?s password) eqn:E; cbn [negb guard_err fst snd].
    2: { split; [done|]. intros _ (role & [[= ->] _]%Hacc & _). by apply string_eqb_neq in E. }
    apply string_eqb_eq in E as ->. rewrite <- Hk in Ht. destruct (QueryRole_reads (Role_Name (UserRole_Role ur)) w1 Ht) as [Hk2 Hr2].
    rewrite (role_named_named _ _ _ Ht Hrole), Hrole in Hr2.
    rewrite (role_named_named _ _ _ Ht Hrole) in Hk2 |- *. destruct (QueryRole fault st rn w1) as [w2 [r|e|p]]; cbn [fst snd] in *; [|split; [congruence|]; naive_solver|done].
    injection Hr2 as <-. split; [congruence|]. rewrite HasPermission_spec. case_bool_decide as Hp.
    + exists (UserRole_Role ur). split; [by apply Hacc|done].
    + intros _ (role & [_ Hrole']%Hacc & Hp'). simplify_eq. done.
  - split; [done|]. intros Hf (role & (n & pw & u & rn & Hc & Hu & Hpw & Hrn & Hrole) & _). rewrite Ec in Hc. simplify_eq.
    destruct (Hq Hf) as [Hq'|(u' & rn' & Hu' & Hrn' & Hno)]; simplify_eq.
  - split; [done|]. destruct Hq as (user & Hu & Hrn). exists name, password, user. auto.
Qed.

Lemma router_decides getUser RoleByCache authHeader endpoint method :
  (forall n u, getUser n = Ret u <-> users !! n = Some u) -> (forall n r, RoleByCache n = Ret r <-> roles !! n = Some r) ->
  (router_BasicAuthMiddleware getUser RoleByCache authHeader endpoint method = Ret tt <-> admitted users roles authHeader endpoint method).
Proof.
  intros HU HR. unfold router_BasicAuthMiddleware, admitted.
  assert (forall n r, getRole RoleByCache n = Ret r <-> role_named roles n = Some r) as HG.
  { intros n r. unfold getRole, role_named. destruct (RoleMap_lookup n); [naive_solver|apply HR]. }
  split.
  - intros H. apply obind_ret_inv in H as ([name password] & Hc & H). apply obind_ret_inv in H as (user & Hu & H). cbn [fst snd] in *.
    assert (getUser name = Ret user) as Hgu%HU by (destruct (getUser name); congruence). apply obind_ret_inv in H as (pw & Hpw & H).
    apply obind_ret_inv in H as ([] & Hg & H). apply obind_ret_inv in H as (rn & Hrn & H). apply obind_ret_inv in H as (role & Hr%HG & H).
    rewrite HasPermission_spec in H. case_bool_decide as Hp; [|done]. exists role. split; [|done]. exists name, password, user, rn.
    destruct (Password user) as [pw'|]; [|done]. destruct (RoleName user); [|done]. injection Hpw as ->. injection Hrn as ->.
    destruct (pw =?s password) eqn:E; [|done]. by apply string_eqb_eq in E as ->.
  - intros (role & (name & password & user & rn & Hc & Hu%HU & Hpw & Hrn & Hr%HG) & Hp). rewrite Hc. cbn [obind fst snd].
    rewrite Hu. cbn [obind]. rewrite Hpw, Hrn. cbn [deref obind]. rewrite (proj2 (string_eqb_eq _ _) eq_refl). cbn [negb guard_err obind].
    rewrite Hr. cbn [obind]. rewrite HasPermission_spec. by rewrite bool_decide_true.
Qed.

(** Whatever calls of the store fail, authentication changes nothing, lets through only a request whose header is the name and the
    password of a stored user, and only if the role of that user is root or has an entry for the resource of the endpoint; without failures
    it lets through every such request.  It breaks down only for a user that lacks a password or a role.  The router decides as
    the master does, when its caches hold what the store holds.  (C26) *)
Theorem admission_exact (authHeader endpoint method : string) (w : world) :
  accounts users roles (kv w) ->
  let x := BasicAuthMiddleware fault st authHeader endpoint method w in
  kv x.1 = kv w /\
  (x.2 = Ret tt -> admitted users roles authHeader endpoint method) /\
  ((forall k, fault k = None) -> admitted users roles authHeader endpoint method -> x.2 = Ret tt) /\
  (forall p, x.2 = Panic p -> incomplete users authHeader) /\
  (forall getUser RoleByCache,
     (forall n u, getUser n = Ret u <-> users !! n = Some u) -> (forall n r, RoleByCache n = Ret r <-> roles !! n = Some r) ->
     (router_BasicAuthMiddleware getUser RoleByCache authHeader endpoint method = Ret tt <-> admitted users roles authHeader endpoint method)).
Proof.
  intros Ht. cbn zeta. destruct (middleware_decides authHeader endpoint method w Ht) as [Hk Hd].
  split; [done|].
  destruct (BasicAuthMiddleware _ _ _ _ _ w) as [w' [[]|e|p]]; cbn [fst snd] in *.
  - split; [done|]. split; [done|]. split; [done|]. intros gu rc. apply router_decides.
  - split; [done|]. split; [intros Hf Ha; by destruct (Hd Hf)|]. split; [done|]. intros gu rc. apply router_decides.
  - split; [done|]. split; [|split; [done|intros gu rc; apply router_decides]].
    intros _ (role & (n & pw & u & rn & Hc & Hu & Hpw & Hrn & _) & _). destruct Hd as (n' & pw' & u' & Hc' & Hu' & [?|?]); rewrite Hc in Hc'; simplify_eq.
Qed.
End Admission.

(** ** Concrete runs *)

Lemma header_roundtrip_witness :
  credentials (AuthEncrypt "root" "secret") = Ret ("root", "secret")%string /\ credentials (AuthEncrypt "root" "?secret") <> Ret ("root", "?secret")%string.
Proof.
  assert (":"%char ∉ String.list_ascii_of_string "root") as Hu by (apply (bool_decide_unpack _); vm_compute; exact I).
  split.
  - apply (proj1 (proj2 (header_roundtrip "root" "secret" Hu))). apply (bool_decide_unpack _). vm_compute. exact I.
  - intros H. apply (proj1 (proj2 (header_roundtrip "root" "?secret" Hu))) in H. apply H. apply (bool_decide_unpack _). vm_compute. exact I.
Defined.

Definition auth_user : User := demo_user (Some "pw1"%string) None (Some "defaultSpaceAdmin"%string).
Definition auth_world : world := {| kv := {[ UserKey (SetPrefixAndSequence "c1" initial_prefixes) "ann" := Marshal (Codec := countable_codec) auth_user ]}; calls := 0 |}.

Lemma auth_accounts : accounts (HRole := opaque_codec Role) (HUser := countable_codec) (SetPrefixAndSequence "c1" initial_prefixes)
  {[ "ann"%string := auth_user ]} ∅ (kv auth_world).
Proof.
  cbn [kv auth_world]. split; [| |done..].
  - intros n. destruct (decide (n = "ann"%string)) as [->|Hne]; [by rewrite !lookup_singleton_eq|].
    rewrite !lookup_singleton_ne; [done|congruence|]. intros E. by apply (key_inj "c1" (OUser _) (OUser _)) in E; [congruence|..].
  - intros n. rewrite lookup_empty. apply lookup_singleton_ne. intros E. by apply (key_inj "c1" (OUser _) (ORole _)) in E.
Qed.

Lemma admission_exact_witness :
  (BasicAuthMiddleware (HRole := opaque_codec Role) (HUser := countable_codec) no_fault (SetPrefixAndSequence "c1" initial_prefixes)
     (AuthEncrypt "ann" "pw1") "/dbs/:db_name/spaces" "POST" auth_world).2 = Ret tt /\
  ~ admitted {[ "ann"%string := auth_user ]} ∅ (AuthEncrypt "ann" "pw1") "/users" "GET".
Proof.
  split.
  - apply (admission_exact (HRole := opaque_codec Role) (HUser := countable_codec) no_fault (SetPrefixAndSequence "c1" initial_prefixes) {[ "ann"%string := auth_user ]} ∅
      (AuthEncrypt "ann" "pw1") "/dbs/:db_name/spaces" "POST" auth_world auth_accounts); [reflexivity|].
    exists SpaceAdminRole. split; [|right; vm_compute; by eexists].
    exists "ann"%string, "pw1"%string, auth_user, "defaultSpaceAdmin"%string. rewrite lookup_singleton_eq. repeat split; vm_compute; reflexivity.
  - intros H.
    apply (admission_exact (HRole := opaque_codec Role) (HUser := countable_codec) no_fault (SetPrefixAndSequence "c1" initial_prefixes) {[ "ann"%string := auth_user ]} ∅
      (AuthEncrypt "ann" "pw1") "/users" "GET" auth_world auth_accounts) in H; [|reflexivity]. revert H. vm_compute. discriminate.
Defined.
