(* ===== verification/Sweep.v ===== *)
(** * The clean task of the master (internal/master/schedule_job.go)

    [CleanTask] removes what belongs to nothing: the records of partitions whose space is gone, the records of spaces whose
    database is gone, and, on the partition servers, the partitions that have no record.  It runs on request of an
    administrator. *)

From S2P Require Import Prelude.
From S2P Require Import Text.
From S2P Require Import Errors.
From S2P Require Import Names.
From S2P Require Import Bytes.
From S2P Require Import Keys.
From S2P Require Import Schema.
From S2P Require Import Partition.
From S2P Require Import Space.
From S2P Require Import Placement.
From S2P Require Import Store.
From S2P Require Import Databases.
From S2P Require Import Accounts.
From S2P Require Import Cache.
From S2P Require Import Net.
From S2P Require Import Indexes.
From S2P Require Import Auth.
Open Scope Z_scope.

Definition CronInterval : Z := 60.
Definition ClusterCleanJobKey : string := "/cluster/cleanjob".
Definition errSkipJob : error := OtherErr "skip job".

(** [if err := f(); err != nil { log }] *)
Definition logged {A} (m : M A) : M unit := fun w =>
  match m w with (w', Panic p) => (w', Panic p) | (w', _) => (w', Ret tt) end.

Section Task.
Context (fault : nat -> option (error * bool)) (answer : nat -> message -> go unit) (st : Prefixes).
Context `{HSpace : !Codec Space, HPartition : !Codec Partition, HServer : !Codec Server}.

Definition QueryPartitions : M (list Partition) := do! kvs <- PrefixScan fault (PrefixPartition st) in mret (Ret (decode_all kvs)).

(** [vearchpb.NewError(INTERNAL_ERROR, err).GetError().Code] *)
Definition wrapped_code (e : error) : option ErrorEnum := code_of (NewError INTERNAL_ERROR (Some e)).

Definition walk_partition (partition : Partition) : M unit := fun w =>
  match QuerySpaceByID fault st (P_DBId partition) (P_SpaceId partition) w with
  | (w', Ret _) => (w', Ret tt)
  | (w', Fail e) =>
    if bool_decide (wrapped_code e = Some SPACE_NOT_EXIST) then logged (Delete fault (PartitionKey st (P_Id partition))) w' else (w', Ret tt)
  | (w', Panic p) => (w', Panic p)
  end.
Definition walkPartitions (partitions : list Partition) : M unit := mfold (fun _ p => walk_partition p) tt partitions.

Definition walk_space (space : Space) : M unit := fun w =>
  match Get fault (DBKeyBody st (S_DBId space)) w with
  | (w', Ret None) => logged (Delete fault (SpaceKey st (S_DBId space) (S_Id space))) w'
  | (w', Panic p) => (w', Panic p)
  | (w', _) => (w', Ret tt)
  end.
Definition walkSpaces (spaces : list Space) : M unit := mfold (fun _ s => walk_space s) tt spaces.

Definition removePartition (addr : string) (pid : Z) : N unit := send answer (DeletePartition addr pid).

Definition walk_replica (server : Server) (pid : Z) : N unit := fun n =>
  match lift (QueryPartition fault st pid) n with
  | (n', Ret _) => (n', Ret tt)
  | (n', Fail e) =>
    if bool_decide (wrapped_code e = Some PARTITION_NOT_EXIST)
    then (bind_! nattempt (removePartition (RpcAddr server) pid) in nret (Ret tt)) n'
    else (n', Ret tt)
  | (n', Panic p) => (n', Panic p)
  end.
Definition walkServers (servers : list Server) : N unit :=
  nfold (fun _ server => nfold (fun _ pid => walk_replica server pid) tt (PartitionIds server)) tt servers.

(** The time of the next run is stored in eight bytes; two of them are read. *)
Definition clean_txn (now : Z) : txn unit := fun t =>
  let timeBytes := stm_get t ClusterCleanJobKey in
  if (String.length timeBytes =? 0)%nat then Ret (t, tt)
  else
    let! value := le_read 2 (bytes_of timeBytes) in
    if value <? now then Ret (<[ClusterCleanJobKey := of_bytes (le_bytes 8 (u64 (now + CronInterval)))]> t, tt)
    else Fail errSkipJob.

(** [if xs, err := query(); err != nil { log } else { walk(xs) }] *)
Definition walk_all {A} (query : M (list A)) (walk : list A -> N unit) : N unit :=
  bind! xs <- nattempt (lift query) in
  match xs with Some xs => walk xs | None => nret (Ret tt) end.

Definition CleanTask (now : Z) : N unit :=
  bind! due <- nattempt (lift (STM fault (clean_txn now))) in
  match due with
  | None => nret (Ret tt)
  | Some _ =>
    bind_! walk_all QueryPartitions (fun ps => lift (walkPartitions ps)) in
    bind_! walk_all (QuerySpacesByKey fault (PrefixSpace st)) (fun ss => lift (walkSpaces ss)) in
    walk_all (QueryServers fault st) walkServers
  end.
End Task.

(** ** What is swept *)

Section Exact.
Context (fault : nat -> option (error * bool)) (answer : nat -> message -> go unit) (cluster_id : string) (Hok : forall k, fault k = None).
Context `{HSpace : !Codec Space, HPartition : !Codec Partition, HServer : !Codec Server}.
Notation st := (SetPrefixAndSequence cluster_id initial_prefixes).

Definition stored {A} `{Codec A} (prefix : string) (t : gmap string string) (a : A) : Prop :=
  exists k v, t !! k = Some v /\ HasPrefix k prefix = true /\ Unmarshal v = Some a.

Lemma stored_scan {A} `{Codec A} prefix t (a : A) : a ∈ decode_all (scan t prefix) <-> stored prefix t a.
Proof.
  unfold decode_all. rewrite list_elem_of_omap. split.
  - intros ([k v] & [Hk Hp]%scan_spec & Hu). by exists k, v.
  - intros (k & v & Hk & Hp & Hu). exists (k, v). by rewrite scan_spec.
Qed.

(** Deleting keys of another kind leaves what a scan finds. *)
Lemma stored_same {A} `{Codec A} prefix t t' (a : A) :
  (forall k, HasPrefix k prefix = true -> t' !! k = t !! k) -> stored prefix t' a <-> stored prefix t a.
Proof. intros H'. unfold stored. split; intros (k & v & Hk & Hp & Hu); exists k, v; [rewrite <- H'|rewrite H']; done. Qed.

Lemma call_ok {A} (f : gmap string string -> gmap string string * go A) w :
  call fault f w = ({| kv := (f (kv w)).1; calls := S (calls w) |}, (f (kv w)).2).
Proof. unfold call. rewrite Hok. by destruct (f (kv w)). Qed.

Lemma Delete_logged k w : exists c, logged (Delete fault k) w = ({| kv := delete k (kv w); calls := c |}, Ret tt).
Proof.
  unfold logged, Delete. rewrite call_ok. eexists. destruct (kv w !! k) as [v|] eqn:E; cbn [fst snd]; [done|].
  by rewrite delete_id.
Qed.

(** A loop that deletes the keys of what is bad, where being bad does not depend on the keys deleted. *)
Lemma walk_spec {A} (f : A -> M unit) (key : A -> string) (bad : gmap string string -> A -> bool) xs :
  (forall x w, exists c, f x w = ({| kv := if bad (kv w) x then delete (key x) (kv w) else kv w; calls := c |}, Ret tt)) ->
  (forall x y t, bad (delete (key x) t) y = bad t y) ->
  forall w, exists w', mfold (fun _ x => f x) tt xs w = (w', Ret tt) /\
    forall k, kv w' !! k = if bool_decide (Exists (fun x => bad (kv w) x = true /\ key x = k) xs) then None else kv w !! k.
Proof.
  intros Hf Hb. induction xs as [|x xs IH]; intros w.
  { exists w. split; [done|]. intros k. rewrite bool_decide_false; [done|]. by intros ?%Exists_nil. }
  cbn [mfold]. unfold mbind_M. destruct (Hf x w) as [c ->]. destruct (IH {| kv := if bad (kv w) x then delete (key x) (kv w) else kv w; calls := c |}) as (w' & -> & Hw').
  exists w'. split; [done|]. intros k. rewrite Hw'. cbn [kv].
  assert (forall y, bad (if bad (kv w) x then delete (key x) (kv w) else kv w) y = bad (kv w) y) as Hsame by (intros y; by destruct (bad (kv w) x)).
  rewrite (bool_decide_ext (Exists _ (x :: xs)) ((bad (kv w) x = true /\ key x = k) \/ Exists (fun x => bad (kv w) x = true /\ key x = k) xs)) by apply Exists_cons.
  rewrite (bool_decide_ext (Exists _ xs) (Exists (fun x => bad (kv w) x = true /\ key x = k) xs)) by (by setoid_rewrite Hsame).
  destruct (decide (Exists (fun x => bad (kv w) x = true /\ key x = k) xs)) as [E|E]; [by rewrite !bool_decide_true by auto|].
  rewrite (bool_decide_false (Exists _ _)) by done. destruct (bad (kv w) x) eqn:Ex.
  - destruct (decide (key x = k)) as [<-|Hne]; [rewrite lookup_delete_eq, bool_decide_true; auto|].
    rewrite lookup_delete_ne, bool_decide_false by naive_solver. done.
  - rewrite bool_decide_false by naive_solver. done.
Qed.

Definition no_space (t : gmap string string) (p : Partition) : bool := bool_decide (t !! SpaceKey st (P_DBId p) (P_SpaceId p) = None).
Definition no_database (t : gmap string string) (s : Space) : bool := bool_decide (t !! DBKeyBody st (S_DBId s) = None).

Lemma walk_partition_spec p w : exists c, walk_partition fault st p w =
  ({| kv := if no_space (kv w) p then delete (PartitionKey st (P_Id p)) (kv w) else kv w; calls := c |}, Ret tt).
Proof.
  unfold walk_partition, QuerySpaceByID, get_object, Get, no_space. rewrite call_ok. cbn [fst snd].
  destruct (kv w !! SpaceKey st (P_DBId p) (P_SpaceId p)) as [v|].
  - rewrite bool_decide_false by done. destruct (Unmarshal v); [by eexists|]. rewrite bool_decide_false by done. by eexists.
  - rewrite !bool_decide_true by done. exact (Delete_logged _ {| kv := kv w; calls := S (calls w) |}).
Qed.

Lemma walk_space_spec s w : exists c, walk_space fault st s w =
  ({| kv := if no_database (kv w) s then delete (SpaceKey st (S_DBId s) (S_Id s)) (kv w) else kv w; calls := c |}, Ret tt).
Proof.
  unfold walk_space, Get, no_database. rewrite call_ok. cbn [fst snd]. destruct (kv w !! _) as [v|].
  - rewrite bool_decide_false by done. by eexists.
  - rewrite bool_decide_true by done. exact (Delete_logged _ {| kv := kv w; calls := S (calls w) |}).
Qed.

Lemma keys_differ o o' : object_ok o -> object_ok o' -> o <> o' -> key_of st o <> key_of st o'.
Proof. intros H1 H2 Hne E. by apply Hne, (key_inj cluster_id). Qed.

Lemma partition_key_kept (p q : Partition) t : no_space (delete (PartitionKey st (P_Id p)) t) q = no_space t q.
Proof. unfold no_space. by rewrite lookup_delete_ne by (by apply (keys_differ (OPartition _) (OSpace _ _))). Qed.
Lemma space_key_kept (p q : Space) t : no_database (delete (SpaceKey st (S_DBId p) (S_Id p)) t) q = no_database t q.
Proof. unfold no_database. by rewrite lookup_delete_ne by (by apply (keys_differ (OSpace _ _) (ODBBody _))). Qed.

(** The servers: the store stays, and each partition a server has without a record is removed there. *)
Context (Hans : forall k m p, answer k m <> Panic p).

Definition unrecorded (t : gmap string string) (server : Server) (m : message) : Prop :=
  exists pid, pid ∈ PartitionIds server /\ t !! PartitionKey st pid = None /\ m = DeletePartition (RpcAddr server) pid.

Lemma walk_replica_spec server pid n : exists n' l, walk_replica fault answer st server pid n = (n', Ret tt) /\ kv (nw n') = kv (nw n) /\
  sent n' = sent n ++ l /\ forall m, m ∈ l.*1 <-> kv (nw n) !! PartitionKey st pid = None /\ m = DeletePartition (RpcAddr server) pid.
Proof.
  unfold walk_replica, lift, QueryPartition, mbind_M, Get. rewrite call_ok. cbn [fst snd]. unfold mret. cbn [fst snd].
  destruct (kv (nw n) !! PartitionKey st pid) as [v|]; cbn [decode_object].
  - exists {| nw := {| kv := kv (nw n); calls := S (calls (nw n)) |}; sent := sent n |}, [].
    destruct (Unmarshal v); [|rewrite bool_decide_false by done]; (split; [done|]); (split; [done|]); (split; [by rewrite app_nil_r|]); set_solver.
  - rewrite bool_decide_true by done. unfold nbind, nattempt, removePartition, send, nret. cbn [nw sent].
    set (a := answer (length (sent n)) (DeletePartition (RpcAddr server) pid)). assert (forall p, a <> Panic p) as Ha by (intros p; apply Hans).
    destruct a as [[]|e|p] eqn:Ea; [| |by destruct (Ha p)]; eexists _, [_]; (split; [reflexivity|]); (split; [done|]); (split; [done|]); set_solver.
Qed.

(** Steps that leave the store and send messages. *)
Lemma sends_all {A} (f : A -> N unit) (Q : gmap string string -> A -> message -> Prop) xs :
  (forall x n, exists n' l, f x n = (n', Ret tt) /\ kv (nw n') = kv (nw n) /\ sent n' = sent n ++ l /\ forall m, m ∈ l.*1 <-> Q (kv (nw n)) x m) ->
  forall n, exists n' l, nfold (fun _ x => f x) tt xs n = (n', Ret tt) /\ kv (nw n') = kv (nw n) /\ sent n' = sent n ++ l /\
    forall m, m ∈ l.*1 <-> exists x, x ∈ xs /\ Q (kv (nw n)) x m.
Proof.
  intros Hf. induction xs as [|x xs IH]; intros n.
  { exists n, []. rewrite app_nil_r. split; [done|]. split; [done|]. split; [done|]. set_solver. }
  cbn [nfold]. unfold nbind. destruct (Hf x n) as (n1 & l1 & -> & Hk1 & Hs1 & H1). destruct (IH n1) as (n2 & l2 & -> & Hk2 & Hs2 & H2).
  exists n2, (l1 ++ l2). split; [done|]. split; [congruence|]. split; [by rewrite Hs2, Hs1, app_assoc|].
  intros m. rewrite fmap_app, elem_of_app, H1, H2, Hk1. setoid_rewrite elem_of_cons. naive_solver.
Qed.

Lemma walkServers_spec servers n : exists n' l, walkServers fault answer st servers n = (n', Ret tt) /\ kv (nw n') = kv (nw n) /\
  sent n' = sent n ++ l /\ forall m, m ∈ l.*1 <-> exists server, server ∈ servers /\ unrecorded (kv (nw n)) server m.
Proof.
  apply (sends_all _ unrecorded). intros server n1.
  destruct (sends_all (walk_replica fault answer st server) (fun t pid m => t !! PartitionKey st pid = None /\ m = DeletePartition (RpcAddr server) pid)
              (PartitionIds server) (walk_replica_spec server) n1) as (n2 & l & ? & ? & ? & Hl).
  by exists n2, l.
Qed.

(** The keys of the records that belong to nothing. *)
Definition orphan (t : gmap string string) (k : string) : Prop :=
  (exists p, stored (PrefixPartition st) t p /\ no_space t p = true /\ PartitionKey st (P_Id p) = k) \/
  (exists s, stored (PrefixSpace st) t s /\ no_database t s = true /\ SpaceKey st (S_DBId s) (S_Id s) = k).

Lemma scanned o p sel : object_ok o -> (p, sel) ∈ scans st -> HasPrefix (key_of st o) p = sel o.
Proof. intros _ Hin. pose proof (scans_exact cluster_id o) as H. rewrite Forall_forall in H. exact (H _ Hin). Qed.

Lemma walk_all_spec {A} `{Codec A} (query : M (list A)) prefix (walk : list A -> N unit) n :
  query = (do! kvs <- PrefixScan fault prefix in mret (Ret (decode_all kvs))) ->
  walk_all query walk n = walk (decode_all (scan (kv (nw n)) prefix)) {| nw := {| kv := kv (nw n); calls := S (calls (nw n)) |}; sent := sent n |}.
Proof. intros ->. unfold walk_all, nbind, nattempt, lift, mbind_M, PrefixScan. by rewrite call_ok. Qed.

(** One walk over the store: the keys of what is bad are gone, the others are as they were. *)
Lemma walk_phase {A} `{Codec A} (query : M (list A)) prefix (f : A -> M unit) key bad n :
  query = (do! kvs <- PrefixScan fault prefix in mret (Ret (decode_all kvs))) ->
  (forall x w, exists c, f x w = ({| kv := if bad (kv w) x : bool then delete (key x) (kv w) else kv w; calls := c |}, Ret tt)) ->
  (forall x y t, bad (delete (key x) t) y = bad t y) ->
  exists n', walk_all query (fun xs => lift (mfold (fun _ x => f x) tt xs)) n = (n', Ret tt) /\ sent n' = sent n /\
    forall k, ((exists x, stored prefix (kv (nw n)) x /\ bad (kv (nw n)) x = true /\ key x = k) /\ kv (nw n') !! k = None) \/
      (~ (exists x, stored prefix (kv (nw n)) x /\ bad (kv (nw n)) x = true /\ key x = k) /\ kv (nw n') !! k = kv (nw n) !! k).
Proof.
  intros Hq Hf Hb. rewrite (walk_all_spec _ prefix) by done. unfold lift. cbn [nw].
  destruct (walk_spec f key bad (decode_all (scan (kv (nw n)) prefix)) Hf Hb {| kv := kv (nw n); calls := S (calls (nw n)) |}) as (w' & -> & Hw').
  eexists. split; [reflexivity|]. split; [done|]. intros k. cbn [nw]. rewrite Hw'. cbn [kv]. case_bool_decide as E; [left|right]; (split; [|done]).
  - apply Exists_exists in E as (x & Hx%stored_scan & ? & ?). by exists x.
  - intros (x & Hx%stored_scan & ? & ?). apply E, Exists_exists. by exists x.
Qed.

Lemma other_kind o prefix sel k : object_ok o -> (prefix, sel) ∈ scans st -> sel o = false -> HasPrefix k prefix = true -> key_of st o <> k.
Proof. intros Ho Hin Hsel Hp <-. rewrite (scanned o prefix sel Ho Hin) in Hp. congruence. Qed.

(** Without failures of the store, the clean task removes the records of the partitions whose space has no record and of the
    spaces whose database has none, and keeps everything else; then it asks every registered server to delete exactly the partitions
    it lists that have no record (any more). *)
Theorem clean_task_exact (now : Z) (n : net) :
  kv (nw n) !! ClusterCleanJobKey = None ->
  exists n' l, CleanTask fault answer st now n = (n', Ret tt) /\ sent n' = sent n ++ l /\
    (forall k, orphan (kv (nw n)) k -> kv (nw n') !! k = None) /\
    (forall k, ~ orphan (kv (nw n)) k -> kv (nw n') !! k = kv (nw n) !! k) /\
    (forall m, m ∈ l.*1 <-> exists server, stored (PrefixServer st) (kv (nw n)) server /\ unrecorded (kv (nw n')) server m).
Proof.
  intros Hjob. unfold CleanTask. unfold nbind at 1, nattempt at 1, lift at 1, STM. rewrite call_ok. unfold clean_txn, stm_get. rewrite Hjob. cbn [default from_option fst snd].
  rewrite (proj2 (Nat.eqb_eq _ _) eq_refl). cbn [fst snd]. set (n0 := {| nw := _; sent := sent n |}).
  change (kv (nw n)) with (kv (nw n0)). change (sent n) with (sent n0). clearbody n0. clear Hjob n. unfold nbind.
  destruct (walk_phase (QueryPartitions fault st) (PrefixPartition st) (walk_partition fault st) _ _ n0 eq_refl walk_partition_spec partition_key_kept) as (n1 & E1 & S1 & H1).
  unfold walkPartitions. rewrite E1.
  destruct (walk_phase (QuerySpacesByKey fault (PrefixSpace st)) (PrefixSpace st) (walk_space fault st) _ _ n1 eq_refl walk_space_spec space_key_kept) as (n2 & E2 & S2 & H2).
  unfold walkSpaces. rewrite E2.
  rewrite (walk_all_spec (QueryServers fault st) (PrefixServer st)) by done.
  set (n3 := {| nw := _; sent := sent n2 |}). destruct (walkServers_spec (decode_all (scan (kv (nw n2)) (PrefixServer st))) n3) as (n4 & l & E4 & K4 & S4 & H4).
  change (kv (nw n3)) with (kv (nw n2)) in *. change (sent n3) with (sent n2) in *.
  (* the first walk leaves the spaces, the databases and the servers, the second one the servers *)
  assert (forall k, (forall id, PartitionKey st id <> k) -> kv (nw n1) !! k = kv (nw n0) !! k) as K1.
  { intros k Hk. destruct (H1 k) as [[(x & _ & _ & Hx) _]|[_ ?]]; [by destruct (Hk (P_Id x))|done]. }
  assert (forall s : Space, stored (PrefixSpace st) (kv (nw n1)) s <-> stored (PrefixSpace st) (kv (nw n0)) s) as Hsp.
  { intros s. apply stored_same. intros k Hk. apply K1. intros id. by apply (other_kind (OPartition id) (PrefixSpace st) (fun o => match o with OSpace _ _ => true | _ => false end)); [..|by right; left| |]. }
  assert (forall s, no_database (kv (nw n1)) s = no_database (kv (nw n0)) s) as Hdb.
  { intros s. unfold no_database. rewrite K1; [done|]. intros id. by apply (keys_differ (OPartition _) (ODBBody _)). }
  assert (forall sv : Server, stored (PrefixServer st) (kv (nw n2)) sv <-> stored (PrefixServer st) (kv (nw n0)) sv) as Hsv.
  { intros sv. apply stored_same. intros k Hk.
    assert (forall o, object_ok o -> (match o with OServer _ => true | _ => false end) = false -> key_of st o <> k) as Hne
      by (intros o ? ?; eapply (other_kind o (PrefixServer st)); [done|by left|done|done]).
    rewrite <- (K1 k) by (intros id; by apply (Hne (OPartition id))).
    destruct (H2 k) as [[(x & _ & _ & Hx) _]|[_ ?]]; [|done]. by destruct (Hne (OSpace (S_DBId x) (S_Id x))). }
  exists n4, l. split; [done|]. split; [by rewrite S4, S2, S1|]. rewrite K4. split; [|split].
  - intros k [Hp|(s & Hs & Hd & Hk)].
    + destruct (H2 k) as [[_ ?]|[_ ->]]; [done|]. by destruct (H1 k) as [[_ ?]|[? _]].
    + destruct (H2 k) as [[_ ?]|[Hno _]]; [done|]. destruct Hno. exists s. split; [by apply Hsp|]. by rewrite Hdb.
  - intros k Hno. destruct (H2 k) as [[(s & Hs%Hsp & Hd & Hk) _]|[_ ->]]; [rewrite Hdb in Hd; destruct Hno; right; by exists s|].
    destruct (H1 k) as [[? _]|[_ ?]]; [by destruct Hno; left|done].
  - intros m. rewrite H4. setoid_rewrite stored_scan. by setoid_rewrite Hsv.
Qed.
End Exact.

(** ** Concrete runs *)

Definition live_partition : Partition := new_partition 5 "" 7 1 0.
(** A space with its partition, on the server that has it. *)
Definition sweep_net (space : bool) : net :=
  {| nw := {| kv := (if space then <[SpaceKey demo_st 1 7 := "{}"%string]> else id)
                    {[ DBKeyBody demo_st 1 := "{}"%string; PartitionKey demo_st 5 := "{}"%string; ServerKey demo_st 1 := "{}"%string ]};
              calls := 0 |}; sent := [] |}.
Definition sweep (fault : nat -> option (error * bool)) (n : net) : net * go unit :=
  CleanTask (HSpace := one_codec (demo_space 1 None [live_partition])) (HPartition := one_codec live_partition) (HServer := one_codec demo_server)
    fault (fun _ _ => Ret tt) demo_st 1700000000000000000 n.

Lemma clean_task_exact_witness : exists n' l, sweep no_fault (sweep_net false) = (n', Ret tt) /\ sent n' = l /\
  kv (nw n') !! PartitionKey demo_st 5 = None /\ DeletePartition "10.0.0.1:8081" 5 ∈ l.*1.
Proof.
  assert (kv (nw (sweep_net false)) !! ClusterCleanJobKey = None) as Hjob by (vm_compute; reflexivity).
  destruct (clean_task_exact no_fault (fun _ _ => Ret tt) "c1" (fun _ => eq_refl) (HSpace := one_codec (demo_space 1 None [live_partition]))
    (HPartition := one_codec live_partition) (HServer := one_codec demo_server) (fun _ _ _ H => ltac:(discriminate H)) 1700000000000000000 (sweep_net false) Hjob)
    as (n' & l & Hrun & Hs & Hgone & _ & Hm).
  assert (kv (nw n') !! PartitionKey demo_st 5 = None) as Hk.
  { apply Hgone. left. exists live_partition. split; [|split; vm_compute; reflexivity]. exists (PartitionKey demo_st 5), "{}"%string. split; [|split]; vm_compute; reflexivity. }
  exists n', l. split; [exact Hrun|]. split; [exact Hs|]. split; [exact Hk|]. apply Hm. exists demo_server. split.
  - exists (ServerKey demo_st 1), "{}"%string. split; [|split]; vm_compute; reflexivity.
  - exists 5. split; [left|]. split; [exact Hk|reflexivity].
Defined.

(** One read of the store that fails while the clean task runs is taken for a missing space: the record of a partition of
    a space that exists is deleted, and the server is told to delete its data.  Without the failure nothing is removed. *)
Theorem failed_read_loses_partition :
  let fails k := if (k =? 2)%nat then Some (OtherErr "etcdserver: request timed out", false) else None in
  is_Some (kv (nw (sweep_net true)) !! SpaceKey demo_st 1 7) /\ is_Some (kv (nw (sweep_net true)) !! PartitionKey demo_st 5) /\
  kv (nw (sweep no_fault (sweep_net true)).1) = kv (nw (sweep_net true)) /\ sent (sweep no_fault (sweep_net true)).1 = [] /\
  is_Some (kv (nw (sweep fails (sweep_net true)).1) !! SpaceKey demo_st 1 7) /\
  kv (nw (sweep fails (sweep_net true)).1) !! PartitionKey demo_st 5 = None /\
  sent (sweep fails (sweep_net true)).1 = [(DeletePartition "10.0.0.1:8081" 5, Ret tt)].
Proof. vm_compute. repeat split; by eexists. Qed.
