(* ===== verification/Backup.v ===== *)
(** * Backups on the master (internal/master/services/backup_service.go)

    [BackupMonitor] and [BackupManager]: a backup or a restore of a space is one task per partition.  The tasks are sent to the
    partition servers, their states polled, a task whose server fails is tried again on the
    new leader, and a version is recorded as completed or failed when its tasks have ended.

    Tasks are shared by reference between the monitor's map and the goroutines that work on
    them: [b_heap] holds them, everything else refers to them by position.  The goroutines are steps of [step], each running up to its next wait;
    times are only logged and left out, a timeout being a step that can happen at any moment.  The version
    cache of [VersionManager], which is written and never read, is kept as the ids of the versions ([b_versions]). *)

From S2P Require Import Prelude.
From S2P Require Import Text.
From S2P Require Import Errors.
From S2P Require Import Names.
From S2P Require Import Keys.
From S2P Require Import Schema.
From S2P Require Import Partition.
From S2P Require Import Space.
From S2P Require Import Placement.
From S2P Require Import Store.
From S2P Require Import Net.
From S2P Require Import Databases.
From S2P Require Import Cache.
From S2P Require Import Paths.
From S2P Require Import Indexes.
From S2P Require Import SpaceUpdate.
From S2P Require Import SpaceLife.
From S2P Require Import Members.
Open Scope Z_scope.

Definition buildSpaceKey (dbName spaceName : string) : string := dbName +:+ "-" +:+ spaceName.

(** ** Data *)

Inductive BackupVersionStatus : Set :=
| VersionStatusInited | VersionStatusRunning | VersionStatusFailed | VersionStatusExpired | VersionStatusDeleted | VersionStatusCompleted.
Inductive BackupTaskStatus : Set := BackupStatusInited | BackupStatusRunning | BackupStatusCompleted | BackupStatusFailed.
#[export] Instance version_status_eq_dec : EqDecision BackupVersionStatus.
Proof. solve_decision. Defined.
#[export] Instance task_status_eq_dec : EqDecision BackupTaskStatus.
Proof. solve_decision. Defined.

(** The states a partition server reports. *)
Definition PSSnapshotStatusRunning : Z := 0.
Definition PSSnapshotStatusCompleted : Z := 1.
Definition PSSnapshotStatusFailed : Z := 2.

Definition BackupCommandBackup : string := "backup".
Definition BackupCommandRestore : string := "restore".
Definition BackupTaskTypeBackup : string := "backup".
Definition BackupTaskTypeRestore : string := "restore".

Record BackupStatusResponse : Set := { SR_Exists : bool; SR_Status : Z; SR_ErrorMessage : string }.

Record PartitionBackupInfo : Set := { I_PartitionID : Z; I_NodeID : Z; I_S3PartitionID : Z }.
Record BackupVersion : Type := {
  V_SpaceKey : string; V_VersionID : string; V_BackupID : string; V_Status : BackupVersionStatus; V_Description : string;
  V_Partitions : list PartitionBackupInfo
}.
Record Task : Type := {
  K_PartitionID : Z; K_NodeID : Z; K_PSNodeAddr : string; K_TaskType : string; K_Status : BackupTaskStatus; K_RetryCount : Z; K_MaxRetries : Z;
  K_LastError : option string; K_Request : BackupOrRestoreRequest
}.

Definition put_K (node : Z) (addr : string) (status : BackupTaskStatus) (retries : Z) (err : option string) (req : BackupOrRestoreRequest) (t : Task) : Task :=
  {| K_PartitionID := K_PartitionID t; K_NodeID := node; K_PSNodeAddr := addr; K_TaskType := K_TaskType t; K_Status := status;
     K_RetryCount := retries; K_MaxRetries := K_MaxRetries t; K_LastError := err; K_Request := req |}.
Definition set_K_Status (st : BackupTaskStatus) (t : Task) : Task :=
  put_K (K_NodeID t) (K_PSNodeAddr t) st (K_RetryCount t) (K_LastError t) (K_Request t) t.
Definition set_K_Error (e : string) (t : Task) : Task :=
  put_K (K_NodeID t) (K_PSNodeAddr t) (K_Status t) (K_RetryCount t) (Some e) (K_Request t) t.
Definition set_K_Addr (addr : string) (t : Task) : Task :=
  put_K (K_NodeID t) addr (K_Status t) (K_RetryCount t) (K_LastError t) (K_Request t) t.
Definition set_K_Node (node : Z) (addr : string) (t : Task) : Task :=
  put_K node addr (K_Status t) (K_RetryCount t) (K_LastError t) (K_Request t) t.
Definition moved_to (node : Z) (t : Task) : Task :=
  put_K node (K_PSNodeAddr t) (K_Status t) (i64 (K_RetryCount t + 1)) (K_LastError t) (K_Request t) t.
Definition set_BR_Command (c : string) (r : BackupOrRestoreRequest) : BackupOrRestoreRequest :=
  {| BR_Database := BR_Database r; BR_Space := BR_Space r; BR_BackupID := BR_BackupID r; BR_VersionID := BR_VersionID r; BR_Command := c;
     BR_S3PartitionID := BR_S3PartitionID r; BR_SourceClusterName := BR_SourceClusterName r; BR_S3Param := BR_S3Param r |}.
Definition set_BR_Part (p : Z) (r : BackupOrRestoreRequest) : BackupOrRestoreRequest :=
  {| BR_Database := BR_Database r; BR_Space := BR_Space r; BR_BackupID := BR_BackupID r; BR_VersionID := BR_VersionID r; BR_Command := BR_Command r;
     BR_S3PartitionID := p; BR_SourceClusterName := BR_SourceClusterName r; BR_S3Param := BR_S3Param r |}.
Definition set_K_Command (c : string) (t : Task) : Task :=
  put_K (K_NodeID t) (K_PSNodeAddr t) (K_Status t) (K_RetryCount t) (K_LastError t) (set_BR_Command c (K_Request t)) t.
Definition set_V_Status (st : BackupVersionStatus) (v : BackupVersion) : BackupVersion :=
  {| V_SpaceKey := V_SpaceKey v; V_VersionID := V_VersionID v; V_BackupID := V_BackupID v; V_Status := st; V_Description := V_Description v;
     V_Partitions := V_Partitions v |}.

(** One status query and its answer. *)
Record asked : Type := { q_addr : string; q_spaceKey : string; q_backupID : string; q_pid : Z; q_answer : go BackupStatusResponse }.

Record backups : Type := {
  b_net : net;
  b_heap : list Task;
  b_tasks : gmap string (list nat);              (** [BackupMonitor.tasks] *)
  b_processing : list BackupVersion;             (** [ProcessingVersion] *)
  b_mapping : gmap string string;                (** [restoreVersionMapping] *)
  b_cache : gmap string BackupVersionStatus;     (** [BackupManager.versionCache] *)
  b_s3 : gmap string (gmap Z Z);                 (** [s3PartitionMap] *)
  b_versions : gmap string (list string);
  b_waiting : list nat;                          (** the tasks of the running [waitForPartitionMigration]s *)
  b_asked : list asked
}.

Definition put_b (n : net) (heap : list Task) (tasks : gmap string (list nat)) (processing : list BackupVersion) (mapping : gmap string string)
    (cache : gmap string BackupVersionStatus) (waiting : list nat) (log : list asked) (s : backups) : backups :=
  {| b_net := n; b_heap := heap; b_tasks := tasks; b_processing := processing; b_mapping := mapping; b_cache := cache; b_s3 := b_s3 s;
     b_versions := b_versions s; b_waiting := waiting; b_asked := log |}.
Definition on_net (n : net) (s : backups) : backups :=
  put_b n (b_heap s) (b_tasks s) (b_processing s) (b_mapping s) (b_cache s) (b_waiting s) (b_asked s) s.
Definition on_heap (f : list Task -> list Task) (s : backups) : backups :=
  put_b (b_net s) (f (b_heap s)) (b_tasks s) (b_processing s) (b_mapping s) (b_cache s) (b_waiting s) (b_asked s) s.
Definition on_tasks (f : gmap string (list nat) -> gmap string (list nat)) (s : backups) : backups :=
  put_b (b_net s) (b_heap s) (f (b_tasks s)) (b_processing s) (b_mapping s) (b_cache s) (b_waiting s) (b_asked s) s.
Definition on_processing (f : list BackupVersion -> list BackupVersion) (s : backups) : backups :=
  put_b (b_net s) (b_heap s) (b_tasks s) (f (b_processing s)) (b_mapping s) (b_cache s) (b_waiting s) (b_asked s) s.
Definition on_mapping (f : gmap string string -> gmap string string) (s : backups) : backups :=
  put_b (b_net s) (b_heap s) (b_tasks s) (b_processing s) (f (b_mapping s)) (b_cache s) (b_waiting s) (b_asked s) s.
Definition on_cache (f : gmap string BackupVersionStatus -> gmap string BackupVersionStatus) (s : backups) : backups :=
  put_b (b_net s) (b_heap s) (b_tasks s) (b_processing s) (b_mapping s) (f (b_cache s)) (b_waiting s) (b_asked s) s.
Definition on_waiting (f : list nat -> list nat) (s : backups) : backups :=
  put_b (b_net s) (b_heap s) (b_tasks s) (b_processing s) (b_mapping s) (b_cache s) (f (b_waiting s)) (b_asked s) s.
Definition log_asked (a : asked) (s : backups) : backups :=
  put_b (b_net s) (b_heap s) (b_tasks s) (b_processing s) (b_mapping s) (b_cache s) (b_waiting s) (b_asked s ++ [a]) s.

Definition task_at (s : backups) (ref : nat) : option Task := b_heap s !! ref.
Definition on_task (ref : nat) (f : Task -> Task) (s : backups) : backups := on_heap (alter f ref) s.
Definition tasks_of (s : backups) (spaceKey : string) : list nat := default [] (b_tasks s !! spaceKey).

(** A computation of the manager. *)
Definition B (A : Type) : Type := backups -> backups * go A.
Definition bret {A} (r : go A) : B A := fun s => (s, r).
Definition bbind {A C} (m : B A) (k : A -> B C) : B C := fun s =>
  match m s with
  | (s', Ret a) => k a s'
  | (s', Fail e) => (s', Fail e)
  | (s', Panic p) => (s', Panic p)
  end.
Definition netB {A} (m : N A) : B A := fun s => let '(n, r) := m (b_net s) in (on_net n s, r).

Notation "'run!' x <- m 'in' k" := (bbind m (fun x => k))
  (at level 200, x pattern, m at level 100, k at level 200) : go_scope.
Notation "'run_!' m 'in' k" := (bbind m (fun _ => k))
  (at level 200, m at level 100, k at level 200) : go_scope.

Section Monitor.
(** What fails, what the servers answer to requests, to the [n]-th status query and to a health check; the order in
    which goroutines run and maps are ranged over. *)
Context (fault : nat -> option (error * bool)) (answer : nat -> message -> go unit) (st : Prefixes).
Context (backup_status : nat -> string -> string -> string -> Z -> go BackupStatusResponse) (reachable : nat -> string -> bool).
Context (sched : list nat -> list nat) (ranged : gmap string (list nat) -> list (string * list nat)).
Context `{HPartition : !Codec Partition, HServer : !Codec Server, HFail : !Codec FailServer}.

Definition store {A} (m : M A) : B A := netB (lift m).
Definition battempt {A} (m : B A) : B (option A) := fun s =>
  match m s with (s', Ret a) => (s', Ret (Some a)) | (s', Fail _) => (s', Ret None) | (s', Panic p) => (s', Panic p) end.
Definition bfold {A C} (f : C -> A -> B C) : C -> list A -> B C :=
  fix go c xs := match xs with [] => bret (Ret c) | x :: xs' => run! c' <- f c x in go c' xs' end.

(** ** The state of a task *)

Definition updateTaskStatus (ref : nat) (status : BackupTaskStatus) (s : backups) : backups := on_task ref (set_K_Status status) s.

Definition failed_with (e : string) (t : Task) : Task :=
  if decide (K_Status t = BackupStatusFailed) then t else set_K_Error e (set_K_Status BackupStatusFailed t).
Definition markTaskFailed (ref : nat) (e : error) (s : backups) : backups := on_task ref (failed_with (Error e)) s.

(** [if err != nil { bm.markTaskFailed(task, err); return err }] *)
Definition or_failed {A} (ref : nat) (m : B A) : B A := fun s =>
  match m s with (s', Fail e) => (markTaskFailed ref e s', Fail e) | x => x end.
(** The deferred function that recovers a panic; the error returned is nil then. *)
Definition recovering (ref : nat) (m : B unit) : B unit := fun s =>
  match m s with (s', Panic p) => (markTaskFailed ref (OtherErr "panic: %v") s', Ret tt) | x => x end.

(** ** Health *)

Definition QueryFailServerByNodeID (nodeID : Z) : M (option FailServer) := fun w =>
  match Get fault (FailServerKey st nodeID) w with
  | (w', Ret (Some v)) => (w', Ret (Unmarshal v))
  | (w', _) => (w', Ret None)
  end.

Definition isNodeHealthy (nodeID : Z) : M bool :=
  do! failServer <- QueryFailServerByNodeID nodeID in
  match failServer with
  | Some _ => mret (Ret false)
  | None => fun w =>
    match QueryServer fault st nodeID w with
    | (w', Ret server) => (w', Ret (reachable (calls w') (RpcAddr server)))
    | (w', Fail _) => (w', Ret false)
    | (w', Panic p) => (w', Panic p)
    end
  end.

Definition getPartitionLeader (pid : Z) : M Z :=
  do! partition <- QueryPartition fault st pid in mret (Ret (P_LeaderID partition)).

(** ** Sending a task *)

(** A backup goes to one server, which is noted when it has accepted. *)
Definition backup_on (ref : nat) (t : Task) (nodeID : Z) (server : Server) : B unit :=
  run_! netB (send answer (OperateBackupOrRestore (RpcAddr server) (K_Request t) (K_PartitionID t))) in
  fun s => (on_task ref (set_K_Node nodeID (RpcAddr server)) s, Ret tt).

Fixpoint backup_replicas (ref : nat) (t : Task) (leader : Z) (replicas : list Z) : B unit :=
  match replicas with
  | [] => bret (Ret tt)
  | nodeID :: rest =>
    if negb (nodeID =? leader) then backup_replicas ref t leader rest
    else run! server <- battempt (store (QueryServer fault st nodeID)) in
         match server with
         | None => backup_replicas ref t leader rest
         | Some server => run_! backup_on ref t nodeID server in backup_replicas ref t leader rest
         end
  end.

Definition process_backup (ref : nat) (t : Task) : B unit :=
  run! healthy <- store (isNodeHealthy (K_NodeID t)) in
  if negb healthy then fun s => (on_waiting (fun l => l ++ [ref]) s, Fail (OtherErr "node %d became unhealthy during backup execution"))
  else or_failed ref (
    run! partition <- store (QueryPartition fault st (K_PartitionID t)) in
    match P_Replicas partition with
    | [] => bret (Fail (OtherErr "partition %d has no replicas"))
    | nodeID :: rest =>
      if (length rest =? 0)%nat && (P_LeaderID partition =? 0)
      then run! server <- store (QueryServer fault st nodeID) in backup_on ref t nodeID server
      else backup_replicas ref t (P_LeaderID partition) (nodeID :: rest)
    end).

(** [f] on the task, which has just been set running. *)
Definition processing (ref : nat) (f : nat -> Task -> B unit) : B unit := recovering ref (fun s =>
  let s' := updateTaskStatus ref BackupStatusRunning s in
  match task_at s' ref with Some t => f ref t s' | None => (s', Panic NilDeref) end).
Definition processBackupTask (ref : nat) : B unit := processing ref process_backup.

(** A restore goes to all replicas; the last one is noted before it is asked. *)
Definition restore_on (ref : nat) (t : Task) (nodeID : Z) (server : Server) : B unit :=
  run_! (fun s => (on_task ref (set_K_Node nodeID (RpcAddr server)) s, Ret tt)) in
  netB (send answer (OperateBackupOrRestore (RpcAddr server) (K_Request t) (K_PartitionID t))).

Fixpoint restore_replicas (ref : nat) (t : Task) (replicas : list Z) : B unit :=
  match replicas with
  | [] => bret (Ret tt)
  | nodeID :: rest =>
    run! server <- battempt (store (QueryServer fault st nodeID)) in
    match server with
    | None => restore_replicas ref t rest
    | Some server => run_! restore_on ref t nodeID server in restore_replicas ref t rest
    end
  end.

Definition process_restore (ref : nat) (t : Task) : B unit := or_failed ref (
  run! partition <- store (QueryPartition fault st (K_PartitionID t)) in
  match P_Replicas partition with
  | [] => bret (Fail (OtherErr "partition %d has no replicas"))
  | nodeID :: rest =>
    if (length rest =? 0)%nat && (P_LeaderID partition =? 0)
    then run! server <- store (QueryServer fault st nodeID) in restore_on ref t nodeID server
    else restore_replicas ref t (nodeID :: rest)
  end).
Definition processRestoreTask (ref : nat) : B unit := processing ref process_restore.

Definition dispatch_one (s : backups) (ref : nat) : backups :=
  match task_at s ref with
  | None => s
  | Some t =>
    if K_TaskType t =?s BackupTaskTypeBackup
    then (processBackupTask ref (on_task ref (set_K_Command BackupCommandBackup) s)).1
    else (processRestoreTask ref (on_task ref (set_K_Command BackupCommandRestore) s)).1
  end.
Definition dispatchTasks (refs : list nat) (s : backups) : backups := foldl dispatch_one s (sched refs).

(** ** New tasks *)

Definition add_ref (spaceKey : string) (m : gmap string (list nat)) (ref : nat) : gmap string (list nat) :=
  <[spaceKey := default [] (m !! spaceKey) ++ [ref]]> m.
Definition addTasks (spaceKey : string) (refs : list nat) (s : backups) : backups := on_tasks (fun m => foldl (add_ref spaceKey) m refs) s.

Definition new_task (taskType : string) (req : BackupOrRestoreRequest) (info : PartitionBackupInfo) (addr : string) : Task :=
  let part := if 0 <? I_S3PartitionID info then u32 (I_S3PartitionID info) else u32 (I_PartitionID info) in
  {| K_PartitionID := I_PartitionID info; K_NodeID := I_NodeID info; K_PSNodeAddr := addr; K_TaskType := taskType; K_Status := BackupStatusInited;
     K_RetryCount := 0; K_MaxRetries := 3; K_LastError := None; K_Request := set_BR_Part part req |}.

(** The loop that makes the tasks; a server that is not known leaves the address empty. *)
Definition make_tasks (taskType : string) (req : BackupOrRestoreRequest) (partitions : list PartitionBackupInfo) : B (list Task) :=
  bfold (fun tasks info =>
    run! server <- battempt (store (QueryServer fault st (I_NodeID info))) in
    bret (Ret (tasks ++ [new_task taskType req info (match server with Some s => RpcAddr s | None => ""%string end)]))) [] partitions.

(** Allocation of the tasks, with what is done to the maps before they are dispatched. *)
Definition start_tasks (spaceKey : string) (tasks : list Task) (s : backups) : backups :=
  let refs := seq (length (b_heap s)) (length tasks) in
  dispatchTasks refs (addTasks spaceKey refs (on_heap (fun h => h ++ tasks) s)).

Definition addVersionTask (version : BackupVersion) (taskType : string) (req : BackupOrRestoreRequest) : B unit :=
  run! tasks <- make_tasks taskType req (V_Partitions version) in
  fun s => (start_tasks (V_SpaceKey version) tasks (on_processing (fun l => l ++ [version]) s), Ret tt).

Definition addRestoreTasks (spaceKey : string) (partitions : list PartitionBackupInfo) (req : BackupOrRestoreRequest) : B unit :=
  run! tasks <- make_tasks BackupTaskTypeRestore req partitions in
  fun s => (start_tasks spaceKey tasks (on_mapping (<[spaceKey := BR_VersionID req]>) s), Ret tt).

(** ** Polling *)

(** [client.GetBackupStatus] *)
Definition GetBackupStatus (addr spaceKey backupID : string) (pid : Z) : B BackupStatusResponse := fun s =>
  let r := backup_status (length (b_asked s)) addr spaceKey backupID pid in
  (log_asked {| q_addr := addr; q_spaceKey := spaceKey; q_backupID := backupID; q_pid := pid; q_answer := r |} s, r).

(** The address of a task, looked up when it is not known; [None]: go on with the next task. *)
Definition task_addr (ref : nat) (t : Task) : B (option string) :=
  if negb (K_PSNodeAddr t =?s "") then bret (Ret (Some (K_PSNodeAddr t)))
  else run! server <- battempt (store (QueryServer fault st (K_NodeID t))) in
       match server with
       | None => bret (Ret None)
       | Some server => fun s => (on_task ref (set_K_Addr (RpcAddr server)) s, Ret (Some (RpcAddr server)))
       end.

(** The state of a task after an answer. *)
Definition answered (resp : BackupStatusResponse) (t : Task) : Task :=
  if SR_Status resp =? PSSnapshotStatusRunning then set_K_Status BackupStatusRunning t
  else if SR_Status resp =? PSSnapshotStatusCompleted then set_K_Status BackupStatusCompleted t
  else if SR_Status resp =? PSSnapshotStatusFailed then
    if decide (K_Status t = BackupStatusFailed) then t
    else let t' := set_K_Status BackupStatusFailed t in
         if SR_ErrorMessage resp =?s "" then t' else set_K_Error (SR_ErrorMessage resp) t'
  else t.

(** One task of a version that is being processed. *)
Definition check_task (spaceKey backupID : string) (ref : nat) : B unit := fun s =>
  match task_at s ref with
  | None => (s, Panic NilDeref)
  | Some t =>
    (run! addr <- task_addr ref t in
     match addr with
     | None => bret (Ret tt)
     | Some addr =>
       run! resp <- battempt (GetBackupStatus addr spaceKey backupID (K_PartitionID t)) in
       match resp with
       | None => bret (Ret tt)
       | Some resp =>
         run_! (fun s => (on_task ref (answered resp) s, Ret tt)) in
         if decide (K_Status (answered resp t) = BackupStatusRunning) then
           run! healthy <- store (isNodeHealthy (K_NodeID t)) in
           if healthy then bret (Ret tt)
           else fun s => (on_waiting (fun l => l ++ [ref]) (on_task ref (set_K_Error "node %d became unhealthy during backup execution") s), Ret tt)
         else bret (Ret tt)
       end
     end) s
  end.

Definition checkProcessingVersion : B unit := fun s =>
  bfold (fun _ version s' => bfold (fun _ ref => check_task (V_SpaceKey version) (V_BackupID version) ref) tt (tasks_of s' (V_SpaceKey version)) s')
    tt (b_processing s) s.

(** What the loop over the tasks of a space has found. *)
Record restore_flags : Set := { rf_any : bool; rf_all : bool; rf_failed : bool; rf_running : bool; rf_version : string }.
Definition no_flags : restore_flags := {| rf_any := false; rf_all := true; rf_failed := false; rf_running := false; rf_version := "" |}.
Definition seen (t : Task) (f : restore_flags) : restore_flags :=
  {| rf_any := true; rf_all := rf_all f; rf_failed := rf_failed f; rf_running := rf_running f;
     rf_version := if rf_version f =?s "" then BR_VersionID (K_Request t) else rf_version f |}.
Definition noted (resp : BackupStatusResponse) (f : restore_flags) : restore_flags :=
  let st := SR_Status resp in
  {| rf_any := rf_any f; rf_all := rf_all f && (st =? PSSnapshotStatusCompleted); rf_failed := rf_failed f || (st =? PSSnapshotStatusFailed);
     rf_running := rf_running f || (st =? PSSnapshotStatusRunning); rf_version := rf_version f |}.

Definition restore_task (spaceKey : string) (f : restore_flags) (ref : nat) : B restore_flags := fun s =>
  match task_at s ref with
  | None => (s, Panic NilDeref)
  | Some t =>
    if negb (K_TaskType t =?s BackupTaskTypeRestore) then (s, Ret f)
    else
      let f := seen t f in
      (run! addr <- task_addr ref t in
       match addr with
       | None => bret (Ret f)
       | Some addr =>
         let backupID := BR_BackupID (K_Request t) in
         if backupID =?s "" then bret (Ret f)
         else
           run! resp <- battempt (GetBackupStatus addr spaceKey backupID (K_PartitionID t)) in
           match resp with
           | None => bret (Ret f)
           | Some resp => fun s => (on_task ref (answered resp) s, Ret (noted resp f))
           end
       end) s
  end.

Definition restore_verdict (f : restore_flags) : option BackupVersionStatus :=
  if rf_any f && rf_all f && negb (rf_running f) && negb (rf_version f =?s "")
  then Some (if rf_failed f then VersionStatusFailed else VersionStatusCompleted) else None.

Definition updateVersionStatus (versionID : string) (status : BackupVersionStatus) (s : backups) : backups := on_cache (<[versionID := status]>) s.

(** The space is done with, if it has no tasks of a backup as well. *)
Definition clean_restore (s : backups) (info : string * string * BackupVersionStatus) : backups :=
  let '(spaceKey, versionID, _) := info in
  match b_tasks s !! spaceKey with
  | None => s
  | Some refs =>
    if forallb (fun ref => match task_at s ref with Some t => K_TaskType t =?s BackupTaskTypeRestore | None => true end) refs
    then on_tasks (delete spaceKey) (on_mapping (<[spaceKey := versionID]>) s) else s
  end.

Definition checkRestoreTasks : B unit := fun s =>
  (run! completed <- bfold (fun acc x =>
       run! f <- bfold (restore_task x.1) no_flags x.2 in
       bret (Ret (acc ++ match restore_verdict f with Some status => [(x.1, rf_version f, status)] | None => [] end)))
     [] (ranged (b_tasks s)) in
   fun s => (foldl clean_restore (foldl (fun s x => updateVersionStatus x.1.2 x.2 s) s completed) completed, Ret tt)) s.

(** ** The end of a version *)

(** [None]: not finished. *)
Definition verdict (statuses : list BackupTaskStatus) : option BackupVersionStatus :=
  if forallb (fun x => bool_decide (x = BackupStatusCompleted)) statuses then Some VersionStatusCompleted
  else if existsb (fun x => bool_decide (x = BackupStatusFailed)) statuses &&
          negb (existsb (fun x => bool_decide (x = BackupStatusRunning \/ x = BackupStatusInited)) statuses)
  then Some VersionStatusFailed else None.

Definition statuses_of (s : backups) (spaceKey : string) : list BackupTaskStatus := omap (fun ref => K_Status <$> task_at s ref) (tasks_of s spaceKey).
Definition version_verdict (s : backups) (v : BackupVersion) : option BackupVersionStatus :=
  match tasks_of s (V_SpaceKey v) with [] => None | _ => verdict (statuses_of s (V_SpaceKey v)) end.

(** The finished versions: position, id, status. *)
Definition completed_versions (s : backups) : list (nat * string * BackupVersionStatus) :=
  omap (fun x => (fun status => (x.1, V_VersionID x.2, status)) <$> version_verdict s x.2) (imap pair (b_processing s)).

Definition finish_versions (s : backups) : backups :=
  on_processing (map (fun v => match version_verdict s v with Some status => set_V_Status status v | None => v end)) s.

(** The loop from the last finished version to the first. *)
Definition drop_version (s : backups) (info : nat * string * BackupVersionStatus) : backups :=
  let '(idx, _, _) := info in
  match b_processing s !! idx with
  | None => s
  | Some version => on_processing (fun l => remove_at l idx) (on_tasks (delete (V_SpaceKey version)) s)
  end.

Definition checkVersionStatus (s : backups) : backups :=
  let completed := completed_versions s in
  let s := finish_versions s in
  let s := foldl (fun s x => updateVersionStatus x.1.2 x.2 s) s completed in
  foldl drop_version s (rev completed).

(** ** Waiting for a new leader *)

(** One tick of [waitForPartitionMigration]; [true] when the goroutine ends. *)
Definition migration_tick (timeout : bool) (ref : nat) : B bool := fun s =>
  match task_at s ref with
  | None => (s, Ret true)
  | Some t =>
    if timeout then (on_task ref (fun t => set_K_Error "timeout waiting for partition migration" (set_K_Status BackupStatusFailed t)) s, Ret true)
    else
      (run! leader <- battempt (store (getPartitionLeader (K_PartitionID t))) in
       match leader with
       | None => bret (Ret false)
       | Some leader =>
         if negb (leader =? K_NodeID t) && negb (leader =? 0) then
           run! healthy <- store (isNodeHealthy leader) in
           if healthy then fun s => ((processBackupTask ref (on_task ref (moved_to leader) s)).1, Ret true)
           else bret (Ret false)
         else bret (Ret false)
       end) s
  end.

(** ** Progress *)

Record BackupProgress : Set := { BP_Total : nat; BP_Completed : nat; BP_Status : string; BP_VersionID : string }.

Definition count_status (x : BackupTaskStatus) (l : list BackupTaskStatus) : nat := length (filter (fun y => y = x) l).

Definition monitor_GetBackupProgress (s : backups) (spaceKey : string) : BackupProgress :=
  {| BP_Total := length (tasks_of s spaceKey); BP_Completed := count_status BackupStatusCompleted (statuses_of s spaceKey);
     BP_Status := ""; BP_VersionID := "" |}.

Definition restore_statuses (s : backups) (spaceKey : string) : list BackupTaskStatus :=
  omap (fun ref => t ← task_at s ref; if K_TaskType t =?s BackupTaskTypeRestore then Some (K_Status t) else None) (tasks_of s spaceKey).

Definition monitor_GetRestoreProgress (s : backups) (spaceKey : string) : BackupProgress :=
  let l := restore_statuses s spaceKey in
  let total := length l in
  let completed := count_status BackupStatusCompleted l in
  if (total =? 0)%nat then {| BP_Total := 0; BP_Completed := 0; BP_Status := "not_found"; BP_VersionID := "" |}
  else
    {| BP_Total := total; BP_Completed := completed;
       BP_Status := if (completed =? total)%nat then "completed"
                    else if (0 <? count_status BackupStatusFailed l)%nat && (count_status BackupStatusRunning l =? 0)%nat then "failed" else "running";
       BP_VersionID := "" |}.

(** The recorded end of a version, if there is one. *)
Definition recorded (s : backups) (versionID : string) : option BackupProgress :=
  match b_cache s !! versionID with
  | Some VersionStatusCompleted => Some {| BP_Total := 0; BP_Completed := 0; BP_Status := "completed"; BP_VersionID := versionID |}
  | Some VersionStatusFailed => Some {| BP_Total := 0; BP_Completed := 0; BP_Status := "failed"; BP_VersionID := versionID |}
  | _ => None
  end.

Definition GetBackupProgress (s : backups) (dbName spaceName versionID : string) : BackupProgress :=
  match recorded s versionID with
  | Some p => p
  | None =>
    let p := monitor_GetBackupProgress s (buildSpaceKey dbName spaceName) in
    if (0 <? BP_Total p)%nat then {| BP_Total := BP_Total p; BP_Completed := BP_Completed p; BP_Status := "running"; BP_VersionID := versionID |} else p
  end.

(** The version of the first restore task, or the one remembered. *)
Definition restored_version (s : backups) (spaceKey : string) : string :=
  let first := t ← List.find (fun t => K_TaskType t =?s BackupTaskTypeRestore) (omap (task_at s) (tasks_of s spaceKey)); Some (BR_VersionID (K_Request t)) in
  match first with
  | Some v => if v =?s "" then default ""%string (b_mapping s !! spaceKey) else v
  | None => default ""%string (b_mapping s !! spaceKey)
  end.

Definition GetRestoreProgress (s : backups) (dbName spaceName : string) : BackupProgress :=
  let spaceKey := buildSpaceKey dbName spaceName in
  let versionID := restored_version s spaceKey in
  match (if versionID =?s "" then None else recorded s versionID) with
  | Some p => p
  | None =>
    let p := monitor_GetRestoreProgress s spaceKey in
    {| BP_Total := BP_Total p; BP_Completed := BP_Completed p; BP_Status := BP_Status p; BP_VersionID := versionID |}
  end.
End Monitor.

(** ** Starting a backup *)

Definition set_BR_ids (backupID versionID : string) (r : BackupOrRestoreRequest) : BackupOrRestoreRequest :=
  {| BR_Database := BR_Database r; BR_Space := BR_Space r; BR_BackupID := backupID; BR_VersionID := versionID; BR_Command := BR_Command r;
     BR_S3PartitionID := BR_S3PartitionID r; BR_SourceClusterName := BR_SourceClusterName r; BR_S3Param := BR_S3Param r |}.

(** A backup ID that is not given is made up. *)
Definition given_or (uuid backupID : string) : string := if (backupID =?s "") || (backupID =?s "0") then uuid else backupID.

Section Manager.
Context (fault : nat -> option (error * bool)) (answer : nat -> message -> go unit) (st : Prefixes) (ToInt64E : string -> option Z).
Context (reachable : nat -> string -> bool) (sched : list nat -> list nat).
Context `{HSpace : !Codec Space, HPartition : !Codec Partition, HServer : !Codec Server, HFail : !Codec FailServer}.
(** The object store: whether a client can be made of the parameters, and the upload of an object. *)
Context (cluster : string) (connect : string -> bool) (put_object : string -> string -> go unit).

Definition CreateVersion (dbName spaceName versionID backupID description : string) (partitions : list PartitionBackupInfo) : B BackupVersion := fun s =>
  let spaceKey := buildSpaceKey dbName spaceName in
  ({| b_net := b_net s; b_heap := b_heap s; b_tasks := b_tasks s; b_processing := b_processing s; b_mapping := b_mapping s; b_cache := b_cache s;
      b_s3 := b_s3 s; b_versions := <[spaceKey := default [] (b_versions s !! spaceKey) ++ [versionID]]> (b_versions s); b_waiting := b_waiting s;
      b_asked := b_asked s |},
   Ret {| V_SpaceKey := spaceKey; V_VersionID := versionID; V_BackupID := backupID; V_Status := VersionStatusInited; V_Description := description;
          V_Partitions := partitions |}).

(** The space as its schema file. *)
Definition manager_backupSchema (dbName spaceName versionID : string) : M unit :=
  do! dbID <- QueryDBName2ID fault st ToInt64E dbName in
  do! space <- QuerySpaceByName fault st dbID spaceName in
  mret (put_object (Join [cluster; "backup"; dbName; S_Name space; versionID +:+ "/" +:+ S_Name space +:+ ".schema"]) (Marshal space)).

(** The node asked for a partition, and the directory it is stored under. *)
Definition partition_info (mapping : option (gmap Z Z)) (p : Partition) : go PartitionBackupInfo :=
  let! nodeID := if P_LeaderID p =? 0 then index_at (P_Replicas p) 0 else Ret (P_LeaderID p) in
  Ret {| I_PartitionID := P_Id p; I_NodeID := nodeID;
         I_S3PartitionID := match mapping with Some m => default 0 (m !! P_Id p) | None => P_Id p end |}.

Definition resolvePartitions (databaseName spaceName : string) : B (list PartitionBackupInfo) :=
  run! dbID <- store (QueryDBName2ID fault st ToInt64E databaseName) in
  run! space <- store (QuerySpaceByName fault st dbID spaceName) in
  fun s =>
    let mapping := b_s3 s !! buildSpaceKey databaseName spaceName in
    (s, ofold (fun l p => let! i := partition_info mapping p in Ret (l ++ [i])) [] (S_Partitions space)).

(** [versionID] is the time of the call, [uuid] a fresh name. *)
Definition createSnapshot (versionID uuid : string) (req : BackupOrRestoreRequest) : B BackupVersion := fun s =>
  let databaseName := BR_Database req in let spaceName := BR_Space req in
  if (0 <? length (tasks_of s (buildSpaceKey databaseName spaceName)))%nat
  then (s, Fail (OtherErr "spaceKey %s still has pending tasks from previous backup, cannot create new version"))
  else if negb (connect (BR_S3Param req)) then (s, Fail (OtherErr "failed to create minio client: %+v"))
  else
    let backupID := given_or uuid (BR_BackupID req) in
    (run_! store (manager_backupSchema databaseName spaceName versionID) in
     run! partitions <- resolvePartitions databaseName spaceName in
     run! version <- CreateVersion databaseName spaceName versionID backupID "backup" partitions in
     let backupRequest := {| BR_Database := databaseName; BR_Space := spaceName; BR_BackupID := backupID; BR_VersionID := versionID;
                             BR_Command := BackupCommandBackup; BR_S3PartitionID := 0; BR_SourceClusterName := ""; BR_S3Param := BR_S3Param req |} in
     run_! addVersionTask fault answer st reachable sched version BackupTaskTypeBackup backupRequest in
     bret (Ret version)) s.
End Manager.

(** ** Runs

    The goroutines of the manager and the requests it gets, in any order.  A restore is any call of [addRestoreTasks]
    (what comes before it is in Restore.v), a request that fails half way a step as well. *)

Section Runs.
Context (fault : nat -> option (error * bool)) (answer : nat -> message -> go unit) (st : Prefixes) (ToInt64E : string -> option Z).
Context (backup_status : nat -> string -> string -> string -> Z -> go BackupStatusResponse) (reachable : nat -> string -> bool).
Context (sched : list nat -> list nat) (ranged : gmap string (list nat) -> list (string * list nat)).
Context `{HSpace : !Codec Space, HPartition : !Codec Partition, HServer : !Codec Server, HFail : !Codec FailServer}.
Context (cluster : string) (connect : string -> bool) (put_object : string -> string -> go unit).

Inductive step (s : backups) : backups -> Prop :=
| step_backup versionID uuid req :
    step s (createSnapshot fault answer st ToInt64E reachable sched cluster connect put_object versionID uuid req s).1
| step_restore spaceKey partitions req : step s (addRestoreTasks fault answer st reachable sched spaceKey partitions req s).1
| step_poll_backups : step s (checkProcessingVersion fault st backup_status reachable s).1
| step_poll_restores : step s (checkRestoreTasks fault st backup_status ranged s).1
| step_versions : step s (checkVersionStatus s)
| step_migration i ref timeout s' over : b_waiting s !! i = Some ref -> migration_tick fault answer st reachable timeout ref s = (s', Ret over) ->
    step s (if over then on_waiting (fun l => remove_at l i) s' else s')
| step_world n : step s (on_net n s).

Definition initial (s : backups) : Prop := b_heap s = [] /\ b_tasks s = ∅ /\ b_processing s = [] /\ b_waiting s = [] /\ b_asked s = [].
Inductive reachable_state : backups -> Prop :=
| reach_initial s : initial s -> reachable_state s
| reach_step s s' : reachable_state s -> step s s' -> reachable_state s'.
End Runs.

(** ** What completed means

    [moves]: the tasks of the map, the versions and the partition and kind of every task stay, and a task of a backup completes only
    with an answer that says so. *)

(** A server said of this partition that the backup of a version in progress is completed. *)
Definition justified (s : backups) (spaceKey : string) (pid : Z) : Prop :=
  exists q v resp, q ∈ b_asked s /\ v ∈ b_processing s /\ V_SpaceKey v = spaceKey /\ q_spaceKey q = spaceKey /\ q_backupID q = V_BackupID v /\ q_pid q = pid /\
    q_answer q = Ret resp /\ SR_Status resp = PSSnapshotStatusCompleted.

Definition completes (s s' : backups) (ref : nat) (t t' : Task) : Prop :=
  K_PartitionID t' = K_PartitionID t /\ K_TaskType t' = K_TaskType t /\
  (K_Status t' = BackupStatusCompleted -> K_TaskType t = BackupTaskTypeBackup ->
     K_Status t = BackupStatusCompleted \/ forall key, ref ∈ tasks_of s key -> justified s' key (K_PartitionID t)).

Record moves (s s' : backups) : Prop := {
  mv_tasks : b_tasks s' = b_tasks s;
  mv_processing : b_processing s' = b_processing s;
  mv_asked : exists l, b_asked s' = b_asked s ++ l;
  mv_length : length (b_heap s') = length (b_heap s);
  mv_heap : forall ref t, b_heap s !! ref = Some t -> exists t', b_heap s' !! ref = Some t' /\ completes s s' ref t t'
}.

Create HintDb moves.

Lemma justified_later s s' key pid : (exists l, b_asked s' = b_asked s ++ l) -> b_processing s' = b_processing s -> justified s key pid -> justified s' key pid.
Proof. intros [l Hl] Hp (q & v & resp & Hq & Hv & H). exists q, v, resp. rewrite Hl, Hp. split; [set_solver|]. by split. Qed.

#[export] Instance moves_refl : Reflexive moves.
Proof. intros s. split; [done|done|by exists []; rewrite app_nil_r|done|]. intros ref t Ht. exists t. split; [done|]. split; [done|]. split; [done|]. auto. Qed.

#[export] Instance moves_trans : Transitive moves.
Proof.
  intros s1 s2 s3 [Ht Hp [l Hl] Hn Hh] [Ht' Hp' [l' Hl'] Hn' Hh']. split; [congruence|congruence|exists (l ++ l'); by rewrite Hl', Hl, app_assoc|congruence|].
  intros ref t Hr. destruct (Hh ref t Hr) as (t2 & Hr2 & H1 & H2 & H3). destruct (Hh' ref t2 Hr2) as (t3 & Hr3 & H1' & H2' & H3').
  exists t3. split; [done|]. split; [congruence|]. split; [congruence|]. intros Hc Hb. rewrite H2 in H3'. destruct (H3' Hc Hb) as [Hc2|Hj].
  - destruct (H3 Hc2 Hb) as [?|Hj]; [by left|]. right. intros key Hk. eapply justified_later; [by exists l'|done|by apply Hj].
  - right. intros key Hk. rewrite <- H1. apply Hj. unfold tasks_of in *. by rewrite Ht.
Qed.

Lemma moves_on_task ref f s : (forall t, completes s (on_task ref f s) ref t (f t)) -> moves s (on_task ref f s).
Proof.
  intros Hf. split; [done|done|by exists []; rewrite app_nil_r|cbn; apply length_alter|]. intros r t Hr. cbn.
  destruct (decide (r = ref)) as [->|Hne].
  - exists (f t). split; [by rewrite list_lookup_alter_eq, Hr|]. apply Hf.
  - exists t. rewrite list_lookup_alter_ne by done. split; [done|]. split; [done|]. split; [done|]. auto.
Qed.

(** A change of a task that does not complete it. *)
Definition harmless (f : Task -> Task) : Prop := forall t,
  K_PartitionID (f t) = K_PartitionID t /\ K_TaskType (f t) = K_TaskType t /\ (K_Status (f t) = BackupStatusCompleted -> K_Status t = BackupStatusCompleted).

Lemma moves_harmless ref f s : harmless f -> moves s (on_task ref f s).
Proof. intros Hf. apply moves_on_task. intros t. destruct (Hf t) as (H1 & H2 & H3). split; [done|]. split; [done|]. auto. Qed.

Lemma moves_same s s' : b_tasks s' = b_tasks s -> b_processing s' = b_processing s -> b_asked s' = b_asked s -> b_heap s' = b_heap s -> moves s s'.
Proof.
  intros H1 H2 H3 H4. split; [done|done|exists []; by rewrite app_nil_r|by rewrite H4|]. intros ref t Hr. exists t. rewrite H4. split; [done|]. split; [done|]. split; [done|]. auto.
Qed.

Definition moving {A} (m : B A) : Prop := forall s, moves s (m s).1.

Lemma moving_ret {A} (r : go A) : moving (bret r).
Proof. intros s. reflexivity. Qed.
Lemma moving_bind {A C} (m : B A) (k : A -> B C) : moving m -> (forall a, moving (k a)) -> moving (bbind m k).
Proof. intros Hm Hk s. specialize (Hm s). unfold bbind. destruct (m s) as [s' [a|e|p]]; [|done..]. etrans; [exact Hm|apply Hk]. Qed.
Lemma moving_net {A} (m : N A) : moving (netB m).
Proof. intros s. unfold netB. destruct (m (b_net s)). by apply moves_same. Qed.
Lemma moving_store {A} (m : M A) : moving (store m).
Proof. apply moving_net. Qed.
Lemma moving_attempt {A} (m : B A) : moving m -> moving (battempt m).
Proof. intros Hm s. specialize (Hm s). unfold battempt. by destruct (m s) as [s' [a|e|p]]. Qed.
Lemma moving_fold {A C} (f : C -> A -> B C) c xs : (forall c x, moving (f c x)) -> moving (bfold f c xs).
Proof. intros Hf. revert c. induction xs as [|x xs IH]; intros c; [apply moving_ret|]. apply moving_bind; [apply Hf|apply IH]. Qed.
Lemma moving_task {A} ref f (r : go A) : harmless f -> moving (fun s => (on_task ref f s, r)).
Proof. intros Hf s. by apply moves_harmless. Qed.

Lemma harmless_failed e : harmless (failed_with e).
Proof. intros t. unfold failed_with. by case_decide. Qed.
#[export] Hint Resolve moving_ret moving_bind moving_net moving_store moving_attempt moving_fold moving_task harmless_failed : moves.
#[export] Hint Extern 1 (harmless _) => (intros ?; by cbn) : moves.

Lemma moving_or_failed {A} ref (m : B A) : moving m -> moving (or_failed ref m).
Proof. intros Hm s. specialize (Hm s). unfold or_failed. destruct (m s) as [s' [a|e|p]]; [done| |done]. etrans; [exact Hm|]. apply moves_harmless. auto with moves. Qed.
Lemma moving_recovering ref (m : B unit) : moving m -> moving (recovering ref m).
Proof. intros Hm s. specialize (Hm s). unfold recovering. destruct (m s) as [s' [a|e|p]]; [done|done|]. etrans; [exact Hm|]. apply moves_harmless. auto with moves. Qed.
Lemma moving_waiting {A} f (r : go A) : moving (fun s => (on_waiting f s, r)).
Proof. intros s. by apply moves_same. Qed.
#[export] Hint Resolve moving_or_failed moving_recovering moving_waiting : moves.

Section Proofs.
Context (fault : nat -> option (error * bool)) (answer : nat -> message -> go unit) (st : Prefixes) (ToInt64E : string -> option Z).
Context (backup_status : nat -> string -> string -> string -> Z -> go BackupStatusResponse) (reachable : nat -> string -> bool).
Context (sched : list nat -> list nat) (ranged : gmap string (list nat) -> list (string * list nat)).
Context `{HSpace : !Codec Space, HPartition : !Codec Partition, HServer : !Codec Server, HFail : !Codec FailServer}.

Lemma moving_backup_on ref t node server : moving (backup_on answer ref t node server).
Proof. unfold backup_on. auto with moves. Qed.
Lemma moving_backup_replicas ref t leader l : moving (backup_replicas fault answer st ref t leader l).
Proof.
  induction l as [|node l IH]; cbn [backup_replicas]; [auto with moves|]. case_match; [done|].
  apply moving_bind; [auto with moves|]. intros [server|]; [|done]. apply moving_bind; [apply moving_backup_on|done].
Qed.
Lemma moving_restore_replicas ref t l : moving (restore_replicas fault answer st ref t l).
Proof.
  induction l as [|node l IH]; cbn [restore_replicas]; [auto with moves|].
  apply moving_bind; [auto with moves|]. intros [server|]; [|done]. apply moving_bind; [unfold restore_on; auto with moves|done].
Qed.

Lemma moving_processing ref f : (forall t, moving (f ref t)) -> moving (processing ref f).
Proof.
  intros Hf. apply moving_recovering. intros s. cbv zeta. assert (moves s (updateTaskStatus ref BackupStatusRunning s)) as H.
  { apply moves_harmless. intros t. by cbn. }
  destruct (task_at _ ref) as [t|]; [|done]. etrans; [exact H|apply Hf].
Qed.

Lemma moving_processBackupTask ref : moving (processBackupTask fault answer st reachable ref).
Proof.
  apply moving_processing. intros t. unfold process_backup. apply moving_bind; [auto with moves|]. intros healthy. case_match; [auto with moves|].
  apply moving_or_failed, moving_bind; [auto with moves|]. intros p. destruct (P_Replicas p) as [|node rest]; [auto with moves|].
  case_match; [apply moving_bind; [auto with moves|intros; apply moving_backup_on]|apply moving_backup_replicas].
Qed.

Lemma moving_processRestoreTask ref : moving (processRestoreTask fault answer st ref).
Proof.
  apply moving_processing. intros t. unfold process_restore. apply moving_or_failed, moving_bind; [auto with moves|]. intros p.
  destruct (P_Replicas p) as [|node rest]; [auto with moves|]. case_match; [|apply moving_restore_replicas].
  apply moving_bind; [auto with moves|]. intros server. unfold restore_on. auto with moves.
Qed.

Lemma moves_dispatch refs s : moves s (dispatchTasks fault answer st reachable sched refs s).
Proof.
  unfold dispatchTasks. generalize (sched refs). intros l. induction l as [|ref l IH] in s |- *; [reflexivity|]. cbn [foldl].
  etrans; [|apply IH]. unfold dispatch_one. destruct (task_at s ref) as [t|]; [|reflexivity].
  assert (forall c, moves s (on_task ref (set_K_Command c) s)) as Hc by (intros c; apply moves_harmless; intros u; by cbn).
  case_match; (etrans; [apply Hc|]); [apply moving_processBackupTask|apply moving_processRestoreTask].
Qed.

Lemma moving_migration timeout ref : moving (migration_tick fault answer st reachable timeout ref).
Proof.
  intros s. unfold migration_tick. destruct (task_at s ref) as [t|]; [|reflexivity]. destruct timeout.
  { apply moves_harmless. intros u. by cbn. }
  apply moving_bind; [auto with moves|]. intros [leader|]; [|auto with moves]. case_match; [|auto with moves].
  apply moving_bind; [auto with moves|]. intros [|]; [|auto with moves]. intros s'. cbn [fst].
  etrans; [apply (moves_harmless ref (moved_to leader)); intros u; by cbn|]. apply moving_processBackupTask.
Qed.

Lemma moving_task_addr ref t : moving (task_addr fault st ref t).
Proof. unfold task_addr. case_match; [auto with moves|]. apply moving_bind; [auto with moves|]. intros [server|]; auto with moves. Qed.

Lemma moving_GetBackupStatus addr key bid pid : moving (GetBackupStatus backup_status addr key bid pid).
Proof.
  intros s. cbn. split; [done|done|by eexists|done|]. intros ref t Hr. exists t. split; [done|]. split; [done|]. split; [done|]. auto.
Qed.

Lemma make_tasks_moving ty req ps : moving (make_tasks fault st ty req ps).
Proof. apply moving_fold. intros tasks info. apply moving_bind; [auto with moves|]. intros [server|]; auto with moves. Qed.

(** ** Answers *)

(** Every task of the map is of one space. *)
Definition one_space (s : backups) : Prop := forall k1 k2 ref, ref ∈ tasks_of s k1 -> ref ∈ tasks_of s k2 -> k1 = k2.

Lemma answered_harmless resp : SR_Status resp <> PSSnapshotStatusCompleted -> harmless (answered resp).
Proof. intros Hr t. unfold answered. repeat case_match; try done. by apply Z.eqb_eq in H0. Qed.

Lemma answered_keeps resp t : K_PartitionID (answered resp t) = K_PartitionID t /\ K_TaskType (answered resp t) = K_TaskType t.
Proof. unfold answered. by repeat case_match. Qed.

(** What a query adds, and the task that is answered. *)
Lemma moves_answer s1 s2 key bid pid addr resp ref v :
  GetBackupStatus backup_status addr key bid pid s1 = (s2, Ret resp) -> one_space s1 -> v ∈ b_processing s1 -> V_SpaceKey v = key -> V_BackupID v = bid ->
  ref ∈ tasks_of s1 key -> (forall t, b_heap s1 !! ref = Some t -> K_PartitionID t = pid) -> moves s1 (on_task ref (answered resp) s2).
Proof.
  unfold GetBackupStatus. intros [= <- Hr] Hone Hv Hk Hb Href Hpid. split; [done|done|by eexists|cbn; apply length_alter|].
  intros r t Ht. cbn. destruct (decide (r = ref)) as [->|Hne].
  - exists (answered resp t). split; [by rewrite list_lookup_alter_eq, Ht|]. destruct (answered_keeps resp t) as [H1 H2]. split; [done|]. split; [done|].
    intros Hc Hty. destruct (decide (SR_Status resp = PSSnapshotStatusCompleted)) as [Hs|Hs].
    + right. intros key' Hkey'. rewrite (Hone key' key ref Hkey' Href). eexists _, v, resp. cbn [b_asked log_asked put_b on_task on_heap b_processing].
      split; [apply elem_of_app; right; apply list_elem_of_singleton; reflexivity|]. cbn. rewrite (Hpid t Ht). done.
    + left. by apply (answered_harmless resp Hs t).
  - exists t. rewrite list_lookup_alter_ne by done. split; [done|]. split; [done|]. split; [done|]. auto.
Qed.

Lemma moves_one_space s s' : moves s s' -> one_space s -> one_space s'.
Proof. intros H Hone k1 k2 ref. unfold tasks_of. rewrite (mv_tasks _ _ H). apply Hone. Qed.

Lemma moves_pid s s' ref t : moves s s' -> b_heap s !! ref = Some t -> forall t', b_heap s' !! ref = Some t' -> K_PartitionID t' = K_PartitionID t.
Proof. intros H Ht t' Ht'. destruct (mv_heap _ _ H ref t Ht) as (u & Hu & Hp & _). congruence. Qed.

Lemma check_task_moves s v ref : one_space s -> v ∈ b_processing s -> ref ∈ tasks_of s (V_SpaceKey v) ->
  moves s (check_task fault st backup_status reachable (V_SpaceKey v) (V_BackupID v) ref s).1.
Proof.
  intros Hone Hv Href. unfold check_task. destruct (task_at s ref) as [t|] eqn:Et; [|reflexivity]. unfold bbind at 1.
  pose proof (moving_task_addr ref t s) as H1. destruct (task_addr fault st ref t s) as [s1 [[addr|]|e|p]]; cbn [fst] in *; [|done..].
  unfold bbind at 1, battempt. destruct (GetBackupStatus backup_status addr _ _ _ s1) as [s2 [resp|e|p]] eqn:Eq.
  2, 3: etrans; [exact H1|]; pose proof (moving_GetBackupStatus addr (V_SpaceKey v) (V_BackupID v) (K_PartitionID t) s1) as H2; by rewrite Eq in H2.
  assert (moves s1 (on_task ref (answered resp) s2)) as H2.
  { eapply moves_answer; [exact Eq|by eapply moves_one_space|by rewrite (mv_processing _ _ H1)|done|done|by unfold tasks_of; rewrite (mv_tasks _ _ H1)|].
    intros t' Ht'. by eapply moves_pid. }
  etrans; [exact H1|]. unfold bbind at 1. etrans; [exact H2|]. case_match; [|reflexivity].
  apply moving_bind; [auto with moves|]. intros [|]; [auto with moves|]. intros s3. etrans; [apply (moves_harmless ref (set_K_Error "node %d became unhealthy during backup execution")); intros u; by cbn|].
  by apply moves_same.
Qed.

(** From a state on. *)
Definition moving_from {A} (s0 : backups) (m : B A) : Prop := forall s, moves s0 s -> moves s0 (m s).1.
Lemma moving_from_moving {A} s0 (m : B A) : moving m -> moving_from s0 m.
Proof. intros Hm s Hs. etrans; [exact Hs|apply Hm]. Qed.
Lemma moving_from_bind {A C} s0 (m : B A) (k : A -> B C) : moving_from s0 m -> (forall a, moving_from s0 (k a)) -> moving_from s0 (bbind m k).
Proof. intros Hm Hk s Hs. specialize (Hm s Hs). unfold bbind. destruct (m s) as [s' [a|e|p]]; [|done..]. by apply Hk. Qed.
Lemma moving_from_fold {A C} s0 (f : C -> A -> B C) c xs : (forall c x, x ∈ xs -> moving_from s0 (f c x)) -> moving_from s0 (bfold f c xs).
Proof.
  revert c. induction xs as [|x xs IH]; intros c Hf; [by apply moving_from_moving, moving_ret|].
  apply moving_from_bind; [apply Hf; by left|]. intros c'. apply IH. intros c2 y Hy. apply Hf. by right.
Qed.

Lemma checkProcessingVersion_moves s : one_space s -> moves s (checkProcessingVersion fault st backup_status reachable s).1.
Proof.
  intros Hone. unfold checkProcessingVersion. apply (moving_from_fold s); [|reflexivity]. intros _ v Hv s1 H1.
  apply (moving_from_fold s); [|done]. intros _ ref Href s2 H2. etrans; [exact H2|]. unfold tasks_of in Href. rewrite (mv_tasks _ _ H1) in Href.
  apply check_task_moves; [by eapply moves_one_space|by rewrite (mv_processing _ _ H2)|]. unfold tasks_of. by rewrite (mv_tasks _ _ H2).
Qed.

(** A poll of the restores leaves the tasks of backups alone. *)
Lemma restore_task_moving key f ref : moving (restore_task fault st backup_status key f ref).
Proof.
  intros s. unfold restore_task. destruct (task_at s ref) as [t|] eqn:Et; [|reflexivity]. case_match eqn:Hty; [reflexivity|].
  apply negb_false_iff, string_eqb_eq in Hty. unfold bbind at 1.
  pose proof (moving_task_addr ref t s) as H1. destruct (task_addr fault st ref t s) as [s1 [[addr|]|e|p]]; cbn [fst] in *; [|done..].
  case_match; [done|]. etrans; [exact H1|]. unfold bbind at 1, battempt.
  pose proof (moving_GetBackupStatus addr key (BR_BackupID (K_Request t)) (K_PartitionID t) s1) as H2.
  destruct (GetBackupStatus _ _ _ _ _ s1) as [s2 [resp|e|p]]; cbn [fst] in *; [|done..]. etrans; [exact H2|].
  destruct (mv_heap _ _ (moves_trans _ _ _ H1 H2) ref t Et) as (t2 & Ht2 & _ & Hty2 & _).
  split; [done|done|exists []; by rewrite app_nil_r|cbn; apply length_alter|]. intros r u Hu. cbn. destruct (decide (r = ref)) as [->|Hne].
  - exists (answered resp u). split; [by rewrite list_lookup_alter_eq, Hu|]. destruct (answered_keeps resp u). split; [done|]. split; [done|].
    intros _ Hb. rewrite Ht2 in Hu. injection Hu as <-. rewrite Hty2, Hty in Hb. discriminate Hb.
  - exists u. rewrite list_lookup_alter_ne by done. split; [done|]. split; [done|]. split; [done|]. auto.
Qed.

(** ** The invariant *)

Record inv (s : backups) : Prop := {
  inv_refs : forall key ref, ref ∈ tasks_of s key -> is_Some (b_heap s !! ref);
  inv_one : one_space s;
  inv_covered : forall v i, v ∈ b_processing s -> i ∈ V_Partitions v ->
    exists ref t, ref ∈ tasks_of s (V_SpaceKey v) /\ b_heap s !! ref = Some t /\ K_PartitionID t = I_PartitionID i /\ K_TaskType t = BackupTaskTypeBackup;
  inv_completed : forall key ref t, ref ∈ tasks_of s key -> b_heap s !! ref = Some t -> K_TaskType t = BackupTaskTypeBackup ->
    K_Status t = BackupStatusCompleted -> justified s key (K_PartitionID t)
}.

Lemma inv_moves s s' : inv s -> moves s s' -> inv s'.
Proof.
  intros [H1 H2 H3 H4] Hm. pose proof (mv_tasks _ _ Hm) as Ht. pose proof (mv_processing _ _ Hm) as Hp.
  assert (forall key, tasks_of s' key = tasks_of s key) as Htk by (intros; unfold tasks_of; by rewrite Ht). split.
  - intros key ref Href. rewrite Htk in Href. destruct (H1 _ _ Href) as [t Hr]. destruct (mv_heap _ _ Hm ref t Hr) as (t' & Hr' & _). by eexists.
  - by eapply moves_one_space.
  - intros v i. rewrite Hp, Htk. intros Hv Hi. destruct (H3 v i Hv Hi) as (ref & t & Href & Hr & Hpid & Hty).
    destruct (mv_heap _ _ Hm ref t Hr) as (t' & Hr' & Hpid' & Hty' & _). exists ref, t'. split; [done|]. split; [done|]. split; congruence.
  - intros key ref t'. rewrite Htk. intros Href Hr' Hb Hc. destruct (H1 _ _ Href) as [t Hr]. destruct (mv_heap _ _ Hm ref t Hr) as (u & Hu & Hpid & Hty & Hj).
    rewrite Hr' in Hu. injection Hu as <-. rewrite Hpid. rewrite Hty in Hb. destruct (Hj Hc Hb) as [Hold|Hnew]; [|by apply Hnew].
    eapply justified_later; [apply (mv_asked _ _ Hm)|done|]. by eapply H4.
Qed.

Lemma add_refs_lookup key refs m k : foldl (add_ref key) m refs !! k =
  if decide (k = key /\ refs <> []) then Some (default [] (m !! key) ++ refs) else m !! k.
Proof.
  revert m. induction refs as [|r refs IH]; intros m; cbn [foldl]; [by rewrite decide_False by naive_solver|]. rewrite IH.
  unfold add_ref. destruct (decide (k = key)) as [->|Hne].
  - rewrite lookup_insert_eq. cbn. rewrite (decide_True (P := key = key /\ r :: refs <> [])) by done. case_decide as Hd; [by rewrite <- app_assoc|].
    destruct refs; [done|]. naive_solver.
  - rewrite !decide_False by naive_solver. by apply lookup_insert_ne.
Qed.

Lemma tasks_of_added key refs s k : tasks_of (addTasks key refs s) k = if decide (k = key) then tasks_of s key ++ refs else tasks_of s k.
Proof.
  unfold tasks_of, addTasks. cbn. rewrite add_refs_lookup. destruct (decide (k = key)) as [->|]; [|by rewrite decide_False by naive_solver].
  case_decide as Hd; [done|]. destruct refs; [by rewrite app_nil_r|naive_solver].
Qed.

(** New tasks, and a version they are of. *)
Lemma inv_start s key tasks vs : inv s -> Forall (fun t => K_Status t = BackupStatusInited) tasks ->
  (forall v i, v ∈ vs -> i ∈ V_Partitions v -> V_SpaceKey v = key /\ exists t, t ∈ tasks /\ K_PartitionID t = I_PartitionID i /\ K_TaskType t = BackupTaskTypeBackup) ->
  inv (start_tasks fault answer st reachable sched key tasks (on_processing (fun l => l ++ vs) s)).
Proof.
  intros [H1 H2 H3 H4] Hnew Hvs. unfold start_tasks. eapply inv_moves; [|apply moves_dispatch]. cbn [b_heap on_processing put_b].
  set (s1 := addTasks _ _ _). assert (forall ref, ref ∈ seq (length (b_heap s)) (length tasks) -> (length (b_heap s) <= ref)%nat /\
    exists t, tasks !! (ref - length (b_heap s))%nat = Some t /\ b_heap s1 !! ref = Some t) as Hfresh.
  { intros ref Href. apply elem_of_seq in Href. split; [lia|]. destruct (lookup_lt_is_Some_2 tasks (ref - length (b_heap s))%nat) as [t Ht]; [lia|].
    exists t. split; [done|]. cbn. by rewrite lookup_app_r by lia. }
  assert (forall key' ref, ref ∈ tasks_of s key' -> (ref < length (b_heap s))%nat /\ b_heap s1 !! ref = b_heap s !! ref) as Hold.
  { intros key' ref Href. destruct (H1 _ _ Href) as [t Ht]. pose proof (lookup_lt_Some _ _ _ Ht). split; [done|]. cbn. by rewrite lookup_app_l. }
  assert (forall k, tasks_of s1 k = if decide (k = key) then tasks_of s key ++ seq (length (b_heap s)) (length tasks) else tasks_of s k) as Htk.
  { intros k. unfold s1. rewrite tasks_of_added. by case_decide. }
  assert (forall k ref, ref ∈ tasks_of s1 k -> ref ∈ tasks_of s k \/ k = key /\ ref ∈ seq (length (b_heap s)) (length tasks)) as Hcase.
  { intros k ref. rewrite Htk. case_decide as Hk; [subst k|by left]. rewrite elem_of_app. intros [?|?]; auto. }
  assert (forall k ref, ref ∈ tasks_of s k -> ref ∈ tasks_of s1 k) as Hinc by (intros k ref; rewrite Htk; case_decide; subst; set_solver).
  split.
  - intros k ref [Href|[_ Href]]%Hcase; [destruct (Hold _ _ Href) as [_ ->]; by eapply H1|]. destruct (Hfresh ref Href) as (_ & t & _ & ->). by eexists.
  - intros k1 k2 ref [Ha|[-> Ha]]%Hcase [Hb|[-> Hb]]%Hcase; [by eapply H2| | |done].
    + destruct (Hold _ _ Ha), (Hfresh ref Hb). lia.
    + destruct (Hold _ _ Hb), (Hfresh ref Ha). lia.
  - intros v i [Hv|Hv]%elem_of_app Hi; cbn [s1 addTasks on_tasks put_b b_processing on_heap] in *.
    + destruct (H3 v i Hv Hi) as (ref & t & Href & Hr & Hp). exists ref, t. split; [by apply Hinc|]. by destruct (Hold _ _ Href) as [_ ->].
    + destruct (Hvs v i Hv Hi) as (Hk & t & Hin & Hp). apply list_elem_of_lookup in Hin as [j Hj]. pose proof (lookup_lt_Some _ _ _ Hj).
      exists (length (b_heap s) + j)%nat, t. split.
      * rewrite Htk, Hk, decide_True by done. apply elem_of_app. right. apply elem_of_seq. lia.
      * split; [|done]. cbn. rewrite lookup_app_r by lia. by replace (length (b_heap s) + j - length (b_heap s))%nat with j by lia.
  - intros k ref t [Href|[_ Href]]%Hcase Hr Hb Hc.
    + destruct (Hold _ _ Href) as [_ He]. rewrite He in Hr. specialize (H4 k ref t Href Hr Hb Hc). destruct H4 as (q & v & resp & Hq & Hv & Hrest).
      exists q, v, resp. split; [done|]. split; [|done]. cbn. set_solver.
    + destruct (Hfresh ref Href) as (_ & u & Hu & Hr'). rewrite Hr in Hr'. injection Hr' as <-. rewrite Forall_forall in Hnew.
      rewrite (Hnew t) in Hc; [done|]. by eapply list_elem_of_lookup_2.
Qed.

Lemma make_tasks_ret ty req ps : forall s s' tasks, make_tasks fault st ty req ps s = (s', Ret tasks) ->
  Forall2 (fun i t => K_PartitionID t = I_PartitionID i /\ K_TaskType t = ty /\ K_Status t = BackupStatusInited) ps tasks.
Proof.
  unfold make_tasks. assert (forall s s' acc tasks, bfold (fun tasks info =>
    run! server <- battempt (store (QueryServer fault st (I_NodeID info))) in
    bret (Ret (tasks ++ [new_task ty req info (match server with Some s => RpcAddr s | None => ""%string end)]))) acc ps s = (s', Ret tasks) ->
    exists more, tasks = acc ++ more /\ Forall2 (fun i t => K_PartitionID t = I_PartitionID i /\ K_TaskType t = ty /\ K_Status t = BackupStatusInited) ps more) as H.
  { induction ps as [|i ps IH]; intros s s' acc tasks; [intros [= _ <-]; exists []; by rewrite app_nil_r|]. cbn. unfold bbind at 1 2.
    destruct (battempt _ s) as [s1 [server|e|p]]; [|done..]. cbn. intros H. apply IH in H as (more & -> & Hm). eexists. split; [by rewrite <- app_assoc|]. by constructor. }
  intros s s' tasks Hr. by apply H in Hr as (more & -> & Hm).
Qed.

Lemma Forall2_in_l {A C} (P : A -> C -> Prop) l k x : Forall2 P l k -> x ∈ l -> exists y, y ∈ k /\ P x y.
Proof. intros H [i Hi]%list_elem_of_lookup. destruct (Forall2_lookup_l _ _ _ _ _ H Hi) as (y & Hy & Hp). exists y. split; [by eapply list_elem_of_lookup_2|done]. Qed.

Lemma tasks_inited ps tasks ty : Forall2 (fun i t => K_PartitionID t = I_PartitionID i /\ K_TaskType t = ty /\ K_Status t = BackupStatusInited) ps tasks ->
  Forall (fun t => K_Status t = BackupStatusInited) tasks.
Proof. intros H. apply Forall_forall. intros t Ht. apply Forall2_flip in H. by destruct (Forall2_in_l _ _ _ _ H Ht) as (i & _ & _ & _ & ?). Qed.

Definition preserving {A} (m : B A) : Prop := forall s, inv s -> inv (m s).1.
Lemma preserving_moving {A} (m : B A) : moving m -> preserving m.
Proof. intros Hm s Hs. eapply inv_moves; [exact Hs|apply Hm]. Qed.
Lemma preserving_bind {A C} (m : B A) (k : A -> B C) : preserving m -> (forall a, preserving (k a)) -> preserving (bbind m k).
Proof. intros Hm Hk s Hs. specialize (Hm s Hs). unfold bbind. destruct (m s) as [s' [a|e|p]]; [|done..]. by apply Hk. Qed.

Lemma addVersionTask_inv v req : preserving (addVersionTask fault answer st reachable sched v BackupTaskTypeBackup req).
Proof.
  intros s Hs. unfold addVersionTask, bbind. pose proof (make_tasks_moving BackupTaskTypeBackup req (V_Partitions v) s) as Hm.
  destruct (make_tasks fault st _ req _ s) as [s1 [tasks|e|p]] eqn:E; cbn [fst] in *; [|by eapply inv_moves..].
  apply make_tasks_ret in E. apply inv_start; [by eapply inv_moves|by eapply tasks_inited|].
  intros v' i ->%list_elem_of_singleton Hi. split; [done|]. destruct (Forall2_in_l _ _ _ _ E Hi) as (t & Ht & Hp & Hty & _). by exists t.
Qed.

Lemma addRestoreTasks_inv key ps req : preserving (addRestoreTasks fault answer st reachable sched key ps req).
Proof.
  intros s Hs. unfold addRestoreTasks, bbind. pose proof (make_tasks_moving BackupTaskTypeRestore req ps s) as Hm.
  destruct (make_tasks fault st _ req _ s) as [s1 [tasks|e|p]] eqn:E; cbn [fst] in *; [|by eapply inv_moves..].
  apply make_tasks_ret in E. set (s2 := on_mapping _ s1). assert (inv s2) as H2 by (eapply inv_moves; [eapply inv_moves; [exact Hs|exact Hm]|by apply moves_same]).
  pose proof (inv_start s2 key tasks [] H2 (tasks_inited _ _ _ E) ltac:(intros v i Hv; by apply elem_of_nil in Hv)) as H.
  replace (on_processing (fun l => l ++ []) s2) with s2 in H; [done|]. unfold s2, on_processing, put_b. cbn. by rewrite app_nil_r.
Qed.

Lemma createSnapshot_inv cluster connect put_object vid uuid req :
  preserving (createSnapshot fault answer st ToInt64E reachable sched cluster connect put_object vid uuid req).
Proof.
  intros s Hs. unfold createSnapshot. case_match; [done|]. case_match; [done|].
  revert s Hs H H0. intros s Hs _ _. revert s Hs. change (preserving ?m) with (forall s, inv s -> inv (m s).1).
  apply (preserving_bind (store _)); [apply preserving_moving; auto with moves|]. intros [].
  apply preserving_bind; [apply preserving_moving|]. { unfold resolvePartitions. apply moving_bind; [auto with moves|]. intros dbID.
    apply moving_bind; [auto with moves|]. intros space s. reflexivity. }
  intros ps. apply preserving_bind; [apply preserving_moving; intros s; by apply moves_same|]. intros v.
  apply preserving_bind; [apply addVersionTask_inv|]. intros _. apply preserving_moving. auto with moves.
Qed.

Lemma inv_clean s info : inv s -> inv (clean_restore s info).
Proof.
  intros [H1 H2 H3 H4]. destruct info as [[key vid] status]. unfold clean_restore. destruct (b_tasks s !! key) as [refs|] eqn:Ek; [|by split].
  case_match eqn:Hall; [|by split]. rewrite forallb_forall in Hall.
  set (s' := on_tasks _ _). assert (forall k ref, ref ∈ tasks_of s' k -> k <> key /\ ref ∈ tasks_of s k) as Hsub.
  { intros k ref. unfold tasks_of. cbn. destruct (decide (k = key)) as [->|Hne]; [rewrite lookup_delete_eq; by intros ?%elem_of_nil|].
    by rewrite lookup_delete_ne by done. }
  split.
  - intros k ref [_ Href]%Hsub. by eapply H1.
  - intros k1 k2 ref [_ Ha]%Hsub [_ Hb]%Hsub. by eapply H2.
  - intros v i Hv Hi. destruct (H3 v i Hv Hi) as (ref & t & Href & Hr & Hp & Hty). exists ref, t. split; [|done].
    unfold tasks_of in *. cbn. destruct (decide (V_SpaceKey v = key)) as [He|Hne]; [|by rewrite lookup_delete_ne].
    exfalso. rewrite He, Ek in Href. cbn in Href. specialize (Hall ref (proj1 (list_elem_of_In _ _) Href)). unfold task_at in Hall. rewrite Hr in Hall.
    apply string_eqb_eq in Hall. rewrite Hty in Hall. discriminate Hall.
  - intros k ref t [_ Href]%Hsub Hr Hb Hc. by apply (H4 k ref t).
Qed.

Lemma checkRestoreTasks_inv : preserving (checkRestoreTasks fault st backup_status ranged).
Proof.
  intros s Hs. unfold checkRestoreTasks. revert s Hs.
  cut (forall l, preserving (run! completed <- bfold (fun acc x =>
       run! f <- bfold (restore_task fault st backup_status x.1) no_flags x.2 in
       bret (Ret (acc ++ match restore_verdict f with Some status => [(x.1, rf_version f, status)] | None => [] end)))
     [] l in fun s => (foldl clean_restore (foldl (fun s x => updateVersionStatus x.1.2 x.2 s) s completed) completed, Ret tt)));
    [intros H s; by apply H|].
  intros l. apply preserving_bind.
  - apply preserving_moving, moving_fold. intros acc x. apply moving_bind; [apply moving_fold; intros; apply restore_task_moving|]. auto with moves.
  - intros completed s Hs. cbn [fst]. assert (inv (foldl (fun s x => updateVersionStatus x.1.2 x.2 s) s completed)) as H.
    { generalize completed. intros c. induction c as [|x c IH] in s, Hs |- *; [done|]. cbn. apply IH. eapply inv_moves; [exact Hs|by apply moves_same]. }
    revert H. generalize (foldl (fun s x => updateVersionStatus x.1.2 x.2 s) s completed). induction completed as [|x c IH]; intros s1 H; [done|].
    cbn. apply IH. by apply inv_clean.
Qed.
End Proofs.

(** ** The end of a version *)

Definition finished (s : backups) (v : BackupVersion) : bool := match version_verdict s v with Some _ => true | None => false end.

Lemma finished_key s v v' : V_SpaceKey v = V_SpaceKey v' -> finished s v = finished s v'.
Proof. intros H. unfold finished, version_verdict. by rewrite H. Qed.

(** [drop_version] for every finished version of [vs], the last one first. *)
Definition dropped (s s' : backups) (vs : list BackupVersion) (gone : list BackupVersion) : Prop :=
  b_processing s' = vs /\ (forall k, b_tasks s' !! k = if decide (k ∈ V_SpaceKey <$> gone) then None else b_tasks s !! k) /\
  b_heap s' = b_heap s /\ b_asked s' = b_asked s /\ b_cache s' = b_cache s /\ b_mapping s' = b_mapping s /\ b_waiting s' = b_waiting s /\ b_net s' = b_net s.

Lemma remove_at_middle {A} (l r : list A) x : remove_at (l ++ x :: r) (length l) = l ++ r.
Proof.
  unfold remove_at. rewrite take_app_length. f_equal. rewrite cons_middle, app_assoc. apply drop_app_length'. rewrite length_app. cbn. lia.
Qed.

Lemma drop_versions (d : BackupVersion -> option BackupVersionStatus) vs : forall s suffix,
  b_processing s = map (fun v => match d v with Some status => set_V_Status status v | None => v end) vs ++ suffix ->
  dropped s (foldl drop_version s (rev (omap (fun x => (fun status => (x.1, V_VersionID x.2, status)) <$> d x.2) (imap pair vs))))
    (filter (fun v => d v = None) vs ++ suffix) (filter (fun v => d v <> None) vs).
Proof.
  induction vs as [|v vs IH] using rev_ind; intros s suffix Hs; [by repeat split|].
  rewrite imap_app, omap_app, rev_app_distr, !filter_app. cbn -[filter]. rewrite Nat.add_0_r. rewrite map_app, <- app_assoc in Hs. cbn in Hs.
  destruct (d v) as [status|] eqn:Ed; cbn -[filter].
  - rewrite filter_cons_False, filter_cons_True, !filter_nil by congruence. cbn.
    assert (b_processing s !! length vs = Some (set_V_Status status v)) as Hv by (rewrite Hs; apply list_lookup_middle; by rewrite length_map).
    rewrite Hv. cbn. set (s1 := on_processing _ _). specialize (IH s1 suffix). destruct IH as (H1 & H2 & H3); [|].
    + cbn. rewrite Hs. rewrite <- (length_map (fun v => match d v with Some status => set_V_Status status v | None => v end) vs). apply remove_at_middle.
    + split; [by rewrite app_nil_r|]. split; [|done]. intros k. rewrite H2, fmap_app. cbn. destruct (decide (k = V_SpaceKey v)) as [->|Hne].
      * rewrite lookup_delete_eq. rewrite (decide_True (P := V_SpaceKey v ∈ _ ++ _)) by set_solver. by case_decide.
      * rewrite lookup_delete_ne by done. repeat case_decide; set_solver.
  - rewrite filter_cons_True, (filter_cons_False (fun v => d v <> None)), !filter_nil by naive_solver.
    rewrite app_nil_r, <- app_assoc. by apply IH.
Qed.

(** The records of the finished versions. *)
Lemma record_versions {A} (l : list (A * string * BackupVersionStatus)) : forall s,
  let s' := foldl (fun s x => updateVersionStatus x.1.2 x.2 s) s l in
  b_processing s' = b_processing s /\ b_tasks s' = b_tasks s /\ b_heap s' = b_heap s /\ b_asked s' = b_asked s /\ b_mapping s' = b_mapping s /\
  b_waiting s' = b_waiting s /\ b_net s' = b_net s /\
  forall vid, (exists x, x ∈ l /\ x.1.2 = vid /\ b_cache s' !! vid = Some x.2) \/ (forall x, x ∈ l -> x.1.2 <> vid) /\ b_cache s' !! vid = b_cache s !! vid.
Proof.
  induction l as [|x l IH]; intros s; [repeat (split; [done|]); intros vid; right; split; [by intros x ?%elem_of_nil|done]|].
  cbn [foldl]. specialize (IH (updateVersionStatus x.1.2 x.2 s)). cbv zeta in *. destruct IH as (H1 & H2 & H3 & H4 & H5 & H6 & H7 & H8).
  repeat (split; [done|]). intros vid. destruct (H8 vid) as [(y & Hy & Hid & Hc)|[Hno Hc]].
  - left. exists y. split; [by right|done].
  - destruct (decide (x.1.2 = vid)) as [<-|Hne].
    + left. exists x. split; [by left|]. split; [done|]. rewrite Hc. apply lookup_insert_eq.
    + right. split; [|rewrite Hc; by apply lookup_insert_ne]. intros y [->|Hy]%elem_of_cons; [done|by apply Hno].
Qed.

Lemma in_completed s x : x ∈ completed_versions s <-> exists i v, b_processing s !! i = Some v /\ version_verdict s v = Some x.2 /\ x = (i, V_VersionID v, x.2).
Proof.
  unfold completed_versions. rewrite list_elem_of_omap. split.
  - intros ([i v] & Hin & He). apply list_elem_of_lookup in Hin as [j Hj]. rewrite list_lookup_imap in Hj. cbn in *.
    destruct (b_processing s !! j) as [w|] eqn:Ej; [|done]. cbn in Hj. injection Hj as <- <-. destruct (version_verdict s w) as [st|] eqn:Ev; [|done].
    injection He as <-. by exists j, w.
  - intros (i & v & Hi & Hv & ->). exists (i, v). cbn. rewrite Hv. split; [|done]. apply list_elem_of_lookup. exists i. by rewrite list_lookup_imap, Hi.
Qed.

Lemma finished_statuses s s' : b_heap s' = b_heap s -> b_tasks s' = b_tasks s -> forall v, version_verdict s' v = version_verdict s v.
Proof. intros H1 H2 v. unfold version_verdict, statuses_of, tasks_of, task_at. by rewrite H1, H2. Qed.

(** What a round of [checkVersionStatus] leaves. *)
Lemma checkVersionStatus_spec s :
  let s' := checkVersionStatus s in
  b_processing s' = filter (fun v => version_verdict s v = None) (b_processing s) /\
  (forall key, b_tasks s' !! key = if decide (key ∈ V_SpaceKey <$> filter (fun v => version_verdict s v <> None) (b_processing s)) then None else b_tasks s !! key) /\
  b_heap s' = b_heap s /\ b_asked s' = b_asked s /\ b_mapping s' = b_mapping s /\ b_waiting s' = b_waiting s /\ b_net s' = b_net s /\
  forall vid, (exists v status, v ∈ b_processing s /\ V_VersionID v = vid /\ version_verdict s v = Some status /\ b_cache s' !! vid = Some status) \/
    (forall v, v ∈ b_processing s -> V_VersionID v = vid -> version_verdict s v = None) /\ b_cache s' !! vid = b_cache s !! vid.
Proof.
  unfold checkVersionStatus. cbv zeta.
  pose proof (record_versions (completed_versions s) (finish_versions s)) as H. cbv zeta in H. revert H.
  generalize (foldl (fun s x => updateVersionStatus x.1.2 x.2 s) (finish_versions s) (completed_versions s)). intros s1 (P1 & P2 & P3 & P4 & P5 & P6 & P7 & P8).
  destruct (drop_versions (version_verdict s) (b_processing s) s1 []) as (D1 & D2 & D3 & D4 & D5 & D6 & D7 & D8); [by rewrite P1, app_nil_r|].
  rewrite app_nil_r in D1. fold (completed_versions s) in *. split; [done|]. split; [intros key; by rewrite D2, P2|].
  split; [by rewrite D3|]. split; [by rewrite D4|]. split; [by rewrite D6|]. split; [by rewrite D7|]. split; [by rewrite D8|].
  intros vid. rewrite D5. destruct (P8 vid) as [(x & Hx & Hid & Hc)|[Hno Hc]].
  - left. apply in_completed in Hx as (i & v & Hi & Hv & He). exists v, x.2. split; [by eapply list_elem_of_lookup_2|]. rewrite He in Hid. by subst vid.
  - right. split; [|done]. intros v Hv Hid. destruct (version_verdict s v) as [status|] eqn:Ev; [|done]. apply list_elem_of_lookup in Hv as [i Hi].
    exfalso. apply (Hno (i, V_VersionID v, status)); [|done]. apply in_completed. by exists i, v.
Qed.

Lemma checkVersionStatus_inv s : inv s -> inv (checkVersionStatus s).
Proof.
  intros [H1 H2 H3 H4]. destruct (checkVersionStatus_spec s) as (Hp & Ht & Hh & Ha & _). cbv zeta in *. revert Hp Ht Hh Ha.
  generalize (checkVersionStatus s). intros s' Hp Ht Hh Ha.
  assert (forall key ref, ref ∈ tasks_of s' key -> ref ∈ tasks_of s key) as Hsub.
  { intros key ref. unfold tasks_of. rewrite Ht. case_decide; [by intros ?%elem_of_nil|done]. }
  assert (forall v, version_verdict s v = None -> tasks_of s' (V_SpaceKey v) = tasks_of s (V_SpaceKey v)) as Hkept.
  { intros v Hn. unfold tasks_of. rewrite Ht, decide_False; [done|]. intros (w & Hk & [Hw _]%list_elem_of_filter)%list_elem_of_fmap.
    apply Hw. unfold version_verdict in *. by rewrite <- Hk. }
  assert (forall key, tasks_of s' key = tasks_of s key \/ tasks_of s' key = []) as Hor by (intros key; unfold tasks_of; rewrite Ht; case_decide; auto).
  split.
  - intros key ref Href%Hsub. rewrite Hh. by eapply H1.
  - intros k1 k2 ref Ha1%Hsub Ha2%Hsub. by eapply H2.
  - intros v i. rewrite Hp. intros [Hn Hv]%list_elem_of_filter Hi. rewrite Hkept, Hh by done. by apply H3.
  - intros key ref t Href Hr Hb Hc. rewrite Hh in Hr. destruct (H4 key ref t (Hsub _ _ Href) Hr Hb Hc) as (q & v & resp & Hq & Hv & Hk & Hrest).
    exists q, v, resp. rewrite Ha. split; [done|]. split; [|done]. rewrite Hp. apply list_elem_of_filter. split; [|done].
    destruct (version_verdict s v) eqn:Ev; [|done]. exfalso. unfold tasks_of in Href. rewrite Ht, decide_True in Href; [by apply elem_of_nil in Href|].
    apply list_elem_of_fmap. exists v. split; [done|]. apply list_elem_of_filter. split; [by rewrite Ev|done].
Qed.

(** The invariant holds at all times. *)
Lemma reachable_state_inv fault answer st ToInt64E backup_status reachable sched ranged cluster connect put_object
    `{HSpace : !Codec Space, HPartition : !Codec Partition, HServer : !Codec Server, HFail : !Codec FailServer} s :
  reachable_state fault answer st ToInt64E backup_status reachable sched ranged cluster connect put_object s -> inv s.
Proof.
  induction 1 as [s (H1 & H2 & H3 & H4 & H5)|s s' _ IH Hstep].
  - split; unfold one_space, tasks_of; rewrite ?H2; cbn; rewrite ?lookup_empty; cbn; rewrite ?H3; try set_solver.
  - destruct Hstep as [vid uuid req|key ps req| | | |i ref timeout s' over Hi Ht|n].
    + by apply createSnapshot_inv.
    + by apply addRestoreTasks_inv.
    + eapply inv_moves; [exact IH|]. apply checkProcessingVersion_moves, IH.
    + by apply checkRestoreTasks_inv.
    + by apply checkVersionStatus_inv.
    + pose proof (moving_migration fault answer st reachable timeout ref s) as Hm. rewrite Ht in Hm. cbn in Hm.
      destruct over; [|by eapply inv_moves]. eapply inv_moves; [by eapply inv_moves|]. by apply moves_same.
    + eapply inv_moves; [exact IH|]. by apply moves_same.
Qed.

Lemma verdict_completed l : verdict l = Some VersionStatusCompleted -> Forall (fun x => x = BackupStatusCompleted) l.
Proof.
  unfold verdict. case_match eqn:E; [|by case_match]. intros _. apply Forall_forall. intros x Hx. rewrite forallb_forall in E.
  specialize (E x (proj1 (list_elem_of_In _ _) Hx)). by apply bool_decide_eq_true in E.
Qed.

(** ** The polls of the restores *)

(** A server that reports a failure also keeps the restore from being over. *)
Definition flags_ok (f : restore_flags) : Prop := rf_failed f = true -> rf_all f = false.

Lemma verdict_flags f status : flags_ok f -> restore_verdict f = Some status -> status = VersionStatusCompleted.
Proof. unfold flags_ok, restore_verdict. destruct (rf_failed f); intros H; [by rewrite H, andb_false_r|]. case_match; by intros [= <-]. Qed.

Lemma noted_ok resp f : flags_ok f -> flags_ok (noted resp f).
Proof.
  unfold flags_ok. cbn. intros H. rewrite orb_true_iff. intros [->%H|Hf%Z.eqb_eq]; [done|]. rewrite Hf. apply andb_false_r.
Qed.

Section Restores.
Context (fault : nat -> option (error * bool)) (st : Prefixes).
Context (backup_status : nat -> string -> string -> string -> Z -> go BackupStatusResponse).
Context (ranged : gmap string (list nat) -> list (string * list nat)).
Context `{HServer : !Codec Server}.

(** What a computation of the manager returns and keeps. *)
Definition yields {A} (m : B A) (P : A -> Prop) : Prop := forall s s' a, m s = (s', Ret a) -> P a.
Definition keeps_cache {A} (m : B A) : Prop := forall s, b_cache (m s).1 = b_cache s.

Lemma yields_bind {A C} (m : B A) (k : A -> B C) P Q : yields m P -> (forall a, P a -> yields (k a) Q) -> yields (bbind m k) Q.
Proof. intros Hm Hk s s' c. unfold bbind. destruct (m s) as [s1 [a|e|p]] eqn:E; [|done..]. intros Hc. eapply Hk; [by eapply Hm|exact Hc]. Qed.
Lemma yields_fold {A C} (f : C -> A -> B C) (P : C -> Prop) xs : (forall c x, P c -> yields (f c x) P) -> forall c, P c -> yields (bfold f c xs) P.
Proof. intros Hf. induction xs as [|x xs IH]; intros c Hc; [by intros s s' a [= _ <-]|]. eapply yields_bind; [by apply Hf|]. intros c' Hc'. by apply IH. Qed.
Lemma keeps_cache_bind {A C} (m : B A) (k : A -> B C) : keeps_cache m -> (forall a, keeps_cache (k a)) -> keeps_cache (bbind m k).
Proof. intros Hm Hk s. specialize (Hm s). unfold bbind. destruct (m s) as [s1 [a|e|p]]; [|done..]. by rewrite Hk. Qed.
Lemma keeps_cache_fold {A C} (f : C -> A -> B C) xs : (forall c x, keeps_cache (f c x)) -> forall c, keeps_cache (bfold f c xs).
Proof. intros Hf. induction xs as [|x xs IH]; intros c; [done|]. apply keeps_cache_bind; [apply Hf|apply IH]. Qed.
Lemma keeps_cache_attempt {A} (m : B A) : keeps_cache m -> keeps_cache (battempt m).
Proof. intros Hm s. specialize (Hm s). unfold battempt. by destruct (m s) as [s1 [a|e|p]]. Qed.
Lemma keeps_cache_store {A} (m : M A) : keeps_cache (store m).
Proof. intros s. unfold store, netB, lift. by destruct (m _) as [n r]. Qed.

Lemma restore_task_ok key f ref : flags_ok f -> yields (restore_task fault st backup_status key f ref) flags_ok.
Proof.
  intros Hf s s' f'. unfold restore_task. destruct (task_at s ref) as [t|]; [|done]. case_match; [by intros [= _ <-]|].
  assert (flags_ok (seen t f)) as Hs by done. revert s s' f'. apply (yields_bind _ _ (fun _ => True)); [done|]. intros [addr|] _; [|by intros ? ? ? [= _ <-]].
  case_match; [by intros ? ? ? [= _ <-]|]. apply (yields_bind _ _ (fun _ => True)); [done|]. intros [resp|] _; intros ? ? ? [= _ <-]; [|done]. by apply noted_ok.
Qed.

Lemma restore_task_cache key f ref : keeps_cache (restore_task fault st backup_status key f ref).
Proof.
  intros s. unfold restore_task. destruct (task_at s ref) as [t|]; [|done]. case_match; [done|]. revert s. apply keeps_cache_bind.
  - unfold task_addr. case_match; [done|]. apply keeps_cache_bind; [apply keeps_cache_attempt, keeps_cache_store|]. by intros [server|].
  - intros [addr|]; [|done]. case_match; [done|]. apply keeps_cache_bind; [by apply keeps_cache_attempt|]. by intros [resp|].
Qed.

Lemma clean_restores_cache l s : b_cache (foldl clean_restore s l) = b_cache s.
Proof. induction l as [|[[key vid] status] l IH] in s |- *; [done|]. cbn [foldl]. rewrite IH. unfold clean_restore. case_match; [|done]. by case_match. Qed.

(** The loop over the spaces. *)
Definition poll (acc : list (string * string * BackupVersionStatus)) (x : string * list nat) : B (list (string * string * BackupVersionStatus)) :=
  run! f <- bfold (restore_task fault st backup_status x.1) no_flags x.2 in
  bret (Ret (acc ++ match restore_verdict f with Some status => [(x.1, rf_version f, status)] | None => [] end)).

Lemma polls_completed l : yields (bfold poll [] l) (Forall (fun x => x.2 = VersionStatusCompleted)).
Proof.
  apply yields_fold; [|done]. intros acc x Hacc. eapply yields_bind.
  - apply yields_fold; [intros; by apply restore_task_ok|]. by intros ?.
  - intros f Hf s s' r [= _ <-]. apply Forall_app. split; [done|]. destruct (restore_verdict f) as [status|] eqn:E; [|done].
    constructor; [|done]. by eapply verdict_flags.
Qed.

Lemma polls_cache l : keeps_cache (bfold poll [] l).
Proof. apply keeps_cache_fold. intros acc x. apply keeps_cache_bind; [|done]. apply keeps_cache_fold. intros. apply restore_task_cache. Qed.

(** Nothing answers. *)
Definition silent : Prop := forall n addr key bid pid, exists e, backup_status n addr key bid pid = Fail e.

Definition addressed (s : backups) : Prop := forall key ref, ref ∈ tasks_of s key -> exists t, b_heap s !! ref = Some t /\ K_PSNodeAddr t <> ""%string.

Definition seen_at (heap : list Task) (f : restore_flags) (ref : nat) : restore_flags :=
  match heap !! ref with Some t => if K_TaskType t =?s BackupTaskTypeRestore then seen t f else f | None => f end.

Lemma restore_task_silent key f ref s t : silent -> b_heap s !! ref = Some t -> K_PSNodeAddr t <> ""%string ->
  exists s', restore_task fault st backup_status key f ref s = (s', Ret (seen_at (b_heap s) f ref)) /\ b_heap s' = b_heap s /\ b_tasks s' = b_tasks s.
Proof.
  intros Hsil Ht Ha. unfold restore_task, seen_at, task_at. rewrite Ht. destruct (K_TaskType t =?s BackupTaskTypeRestore); cbn [negb]; [|by eexists].
  unfold bbind at 1, task_addr. destruct (K_PSNodeAddr t =?s "") eqn:E; [by apply string_eqb_eq in E|]. cbn. case_match; [by eexists|].
  destruct (Hsil (length (b_asked s)) (K_PSNodeAddr t) key (BR_BackupID (K_Request t)) (K_PartitionID t)) as [e He].
  unfold bbind, battempt, GetBackupStatus. rewrite He. by eexists.
Qed.

Lemma restore_tasks_silent key refs : silent -> forall s f, (forall ref, ref ∈ refs -> exists t, b_heap s !! ref = Some t /\ K_PSNodeAddr t <> ""%string) ->
  exists s', bfold (restore_task fault st backup_status key) f refs s = (s', Ret (foldl (seen_at (b_heap s)) f refs)) /\ b_heap s' = b_heap s /\ b_tasks s' = b_tasks s.
Proof.
  intros Hsil. induction refs as [|ref refs IH]; intros s f Hrefs; [by exists s|]. destruct (Hrefs ref) as (t & Ht & Ha); [by left|].
  destruct (restore_task_silent key f ref s t Hsil Ht Ha) as (s1 & E1 & Hh & Hk). cbn. unfold bbind. rewrite E1.
  destruct (IH s1 (seen_at (b_heap s) f ref)) as (s2 & E2 & Hh2 & Hk2); [rewrite Hh; intros r Hr; apply Hrefs; by right|].
  exists s2. rewrite E2, Hh. split; [done|]. split; congruence.
Qed.

Lemma polls_silent l : silent -> forall s acc, (forall x ref, x ∈ l -> ref ∈ x.2 -> exists t, b_heap s !! ref = Some t /\ K_PSNodeAddr t <> ""%string) ->
  exists s', bfold poll acc l s = (s', Ret (acc ++ concat (map (fun x => let f := foldl (seen_at (b_heap s)) no_flags x.2 in
    match restore_verdict f with Some status => [(x.1, rf_version f, status)] | None => [] end) l))).
Proof.
  intros Hsil. induction l as [|x l IH]; intros s acc Hl; [exists s; by rewrite app_nil_r|].
  destruct (restore_tasks_silent x.1 x.2 Hsil s no_flags) as (s1 & E1 & Hh & _); [intros ref; apply Hl; by left|].
  cbn. unfold poll at 1, bbind. rewrite E1. cbn. destruct (IH s1 (acc ++ match restore_verdict (foldl (seen_at (b_heap s)) no_flags x.2) with
    Some status => [(x.1, rf_version (foldl (seen_at (b_heap s)) no_flags x.2), status)] | None => [] end)) as (s2 & E2).
  { rewrite Hh. intros y ref Hy. apply Hl. by right. }
  exists s2. rewrite E2, Hh, <- app_assoc. done.
Qed.

End Restores.

(** The flags of a space all of whose tasks are restores of one version. *)
Lemma flags_silent heap vid refs : vid <> ""%string -> (forall ref, ref ∈ refs -> exists t, heap !! ref = Some t /\ K_TaskType t = BackupTaskTypeRestore /\
    BR_VersionID (K_Request t) = vid) ->
  forall f, rf_version f = ""%string \/ rf_version f = vid ->
  let f' := foldl (seen_at heap) f refs in
  rf_all f' = rf_all f /\ rf_failed f' = rf_failed f /\ rf_running f' = rf_running f /\ (refs = [] /\ f' = f \/ rf_any f' = true /\ rf_version f' = vid).
Proof.
  intros Hvid. induction refs as [|ref refs IH] using rev_ind; intros Hrefs f Hf; [by repeat split; auto|]. cbv zeta. rewrite foldl_app. cbn.
  destruct (Hrefs ref) as (t & Ht & Hty & Hv); [set_solver|]. destruct (IH ltac:(intros r Hr; apply Hrefs; set_solver) f Hf) as (H1 & H2 & H3 & H4). cbv zeta in *.
  set (F := foldl (seen_at heap) f refs) in *. assert (seen_at heap F ref = seen t F) as -> by (unfold seen_at; by rewrite Ht, Hty).
  cbn. split; [done|]. split; [done|]. split; [done|]. right. split; [done|]. rewrite Hv. case_match eqn:E; [done|].
  destruct H4 as [[-> ->]|[_ ?]]; [|done]. cbn in *. destruct Hf as [Hf|]; [|done]. by rewrite Hf in E.
Qed.
(** ** The keys of the spaces *)

Lemma split_hyphen a b x y : 45 ∉ bytes_of a -> 45 ∉ bytes_of b -> a +:+ "-" +:+ x = b +:+ "-" +:+ y -> a = b /\ x = y.
Proof.
  revert b. induction a as [|c a IH]; intros [|d b] Ha Hb; simpl in *; intros H.
  - by simplify_eq.
  - simplify_eq. destruct Hb. by left.
  - simplify_eq. destruct Ha. by left.
  - simplify_eq. rewrite not_elem_of_cons in Ha, Hb. destruct (IH b); naive_solver.
Qed.

Lemma valid_name_no_hyphen wide name : valid_name wide name = true -> 45 ∉ bytes_of name.
Proof.
  unfold valid_name. intros Hv Hin. apply runes_complete in Hin; [|lia]. destruct (runes name) as [|r0 rs]; [done|].
  apply andb_prop in Hv as [_ Hf%negb_true_iff]. enough (existsb rune_forbidden (r0 :: rs) = true) by congruence.
  apply existsb_exists. exists 45. split; [by apply list_elem_of_In|done].
Qed.

(** Spaces that the master creates have keys of their own: their names hold no hyphen. *)
Lemma buildSpaceKey_injective wide db db' sp sp' : valid_name wide db = true -> valid_name wide db' = true ->
  buildSpaceKey db sp = buildSpaceKey db' sp' -> db = db' /\ sp = sp'.
Proof. intros H1%valid_name_no_hyphen H2%valid_name_no_hyphen. by apply split_hyphen. Qed.

Section Claims.
Context (fault : nat -> option (error * bool)) (answer : nat -> message -> go unit) (st : Prefixes) (ToInt64E : string -> option Z).
Context (backup_status : nat -> string -> string -> string -> Z -> go BackupStatusResponse) (reachable : nat -> string -> bool).
Context (sched : list nat -> list nat) (ranged : gmap string (list nat) -> list (string * list nat)).
Context `{HSpace : !Codec Space, HPartition : !Codec Partition, HServer : !Codec Server, HFail : !Codec FailServer}.
Context (cluster : string) (connect : string -> bool) (put_object : string -> string -> go unit).

(** A backup that is found completed is: in every run of the monitor, whatever fails, however the servers answer and
    in whatever order requests and goroutines run, each partition of a version for which [checkVersionStatus] decides that it is
    completed has been reported completed by a server asked about that partition and the backup of a version of that space in progress.  (C24) *)
Theorem backup_completed_sound s v i :
  reachable_state fault answer st ToInt64E backup_status reachable sched ranged cluster connect put_object s ->
  v ∈ b_processing s -> version_verdict s v = Some VersionStatusCompleted -> i ∈ V_Partitions v ->
  exists q w resp, q ∈ b_asked s /\ w ∈ b_processing s /\ V_SpaceKey w = V_SpaceKey v /\ q_spaceKey q = V_SpaceKey v /\ q_backupID q = V_BackupID w /\
    q_pid q = I_PartitionID i /\ q_answer q = Ret resp /\ SR_Status resp = PSSnapshotStatusCompleted.
Proof.
  intros Hs Hv Hverdict Hi. apply reachable_state_inv in Hs as [H1 H2 H3 H4]. destruct (H3 v i Hv Hi) as (ref & t & Href & Hr & Hpid & Hty).
  rewrite <- Hpid. apply (H4 _ ref t); [done..|]. unfold version_verdict in Hverdict. destruct (tasks_of s (V_SpaceKey v)) as [|r l] eqn:Et; [done|].
  apply verdict_completed in Hverdict. rewrite Forall_forall in Hverdict. apply Hverdict. unfold statuses_of. rewrite Et.
  apply list_elem_of_omap. exists ref. split; [done|]. unfold task_at. by rewrite Hr.
Qed.

(** One round of [checkVersionStatus], while the version ids are distinct: the versions that are not over stay in progress in their order,
    the tasks of exactly the spaces of the others are dropped, and the progress that clients are told is the verdict of a version
    that is over and as before for one that is not. *)
Theorem checkVersionStatus_exact s : NoDup (V_VersionID <$> b_processing s) ->
  let s' := checkVersionStatus s in
  b_processing s' = filter (fun v => version_verdict s v = None) (b_processing s) /\
  (forall key, tasks_of s' key = if decide (Exists (fun v => V_SpaceKey v = key /\ version_verdict s v <> None) (b_processing s)) then [] else tasks_of s key) /\
  b_heap s' = b_heap s /\
  forall v dbName spaceName, v ∈ b_processing s -> V_SpaceKey v = buildSpaceKey dbName spaceName ->
    match version_verdict s v with
    | Some VersionStatusCompleted => BP_Status (GetBackupProgress s' dbName spaceName (V_VersionID v)) = "completed"%string
    | Some _ => BP_Status (GetBackupProgress s' dbName spaceName (V_VersionID v)) = "failed"%string
    | None => GetBackupProgress s' dbName spaceName (V_VersionID v) = GetBackupProgress s dbName spaceName (V_VersionID v)
    end.
Proof.
  intros Hnd s'. destruct (checkVersionStatus_spec s) as (H1 & H2 & H3 & _ & _ & _ & _ & H8). fold s' in H1, H2, H3, H8. clearbody s'.
  assert (forall key, tasks_of s' key = if decide (Exists (fun v => V_SpaceKey v = key /\ version_verdict s v <> None) (b_processing s)) then [] else tasks_of s key) as Hk.
  { intros key. unfold tasks_of. rewrite H2. repeat case_decide; try done.
    - exfalso. apply H0. apply Exists_exists. apply list_elem_of_fmap in H as (v & -> & [Hv Hin]%list_elem_of_filter). by exists v.
    - exfalso. apply H. apply Exists_exists in H0 as (v & Hin & <- & Hv). apply list_elem_of_fmap. exists v. split; [done|]. by apply list_elem_of_filter. }
  split; [done|]. split; [done|]. split; [done|]. intros v dbName spaceName Hv Hkey. unfold GetBackupProgress, recorded.
  destruct (H8 (V_VersionID v)) as [(w & status & Hw & Hid & Hverdict & Hc)|[Hno Hc]].
  - assert (w = v) as ->. { apply list_elem_of_lookup in Hv as [a Ha]. apply list_elem_of_lookup in Hw as [b Hb]. assert (a = b) as ->; [|congruence].
      eapply NoDup_lookup; [exact Hnd|rewrite list_lookup_fmap, Ha; done|rewrite list_lookup_fmap, Hb; cbn; by rewrite Hid]. }
    rewrite Hverdict, Hc. unfold version_verdict in Hverdict. case_match; [done|]. unfold verdict in Hverdict. case_match; [by injection Hverdict as <-|].
    case_match; [by injection Hverdict as <-|done].
  - rewrite (Hno v Hv eq_refl), Hc. assert (tasks_of s' (buildSpaceKey dbName spaceName) = tasks_of s (buildSpaceKey dbName spaceName)) as Ht.
    { rewrite <- Hkey, Hk. rewrite decide_False; [done|]. intros (w & Hw & Hsame & Hvw)%Exists_exists. apply Hvw. rewrite <- (Hno v Hv eq_refl).
      unfold version_verdict. by rewrite Hsame. }
    unfold monitor_GetBackupProgress, statuses_of, task_at. by rewrite Ht, H3.
Qed.

(** What a poll of the restores records: never a failure, however the servers answer; and a restore of which nobody answers as completed,
    since a partition whose state cannot be asked for is passed over while the restore counts as completed until an answer says otherwise. *)
Theorem restore_poll_outcomes s : ranged (b_tasks s) ≡ₚ map_to_list (b_tasks s) ->
  let s' := (checkRestoreTasks fault st backup_status ranged s).1 in
  (forall vid, b_cache s' !! vid = Some VersionStatusFailed -> b_cache s !! vid = Some VersionStatusFailed) /\
  forall key vid, silent backup_status -> addressed s -> tasks_of s key <> [] -> vid <> ""%string ->
    (forall ref, ref ∈ tasks_of s key -> exists t, b_heap s !! ref = Some t /\ K_TaskType t = BackupTaskTypeRestore /\ BR_VersionID (K_Request t) = vid) ->
    BP_Status <$> recorded s' vid = Some "completed"%string.
Proof.
  intros Hperm. unfold checkRestoreTasks. cbv zeta.
  change (bfold _ [] (ranged (b_tasks s))) with (bfold (poll fault st backup_status) [] (ranged (b_tasks s))). unfold bbind.
  pose proof (polls_completed fault st backup_status (ranged (b_tasks s)) s) as Hall. pose proof (polls_cache fault st backup_status (ranged (b_tasks s)) s) as Hcache.
  split.
  - intros vid. destruct (bfold _ [] _ s) as [s1 [l|e|p]] eqn:E; cbn [fst] in *; [|by rewrite Hcache..]. specialize (Hall s1 l eq_refl).
    rewrite clean_restores_cache. destruct (record_versions l s1) as (_ & _ & _ & _ & _ & _ & _ & H8). cbv zeta in H8.
    destruct (H8 vid) as [(x & Hx & _ & ->)|[_ ->]]; [|by rewrite Hcache]. rewrite Forall_forall in Hall. by rewrite (Hall x Hx).
  - intros key vid Hsil Haddr Hne Hvid Htasks. unfold tasks_of in *. destruct (b_tasks s !! key) as [refs|] eqn:Ek; [|done]. cbn in Hne, Htasks.
    destruct (polls_silent fault st backup_status (ranged (b_tasks s)) Hsil s []) as [s1 E].
    { intros [k rs] ref Hx. cbn. rewrite Hperm in Hx. apply elem_of_map_to_list in Hx. intros Hr. apply (Haddr k). unfold tasks_of. by rewrite Hx. }
    rewrite E in *. cbn [fst app] in *. specialize (Hall s1 _ eq_refl). set (l := concat _) in *.
    destruct (flags_silent (b_heap s) vid refs Hvid Htasks no_flags) as (F1 & F2 & F3 & F4); [by left|]. cbv zeta in *.
    destruct F4 as [[-> _]|[F4 F5]]; [done|].
    assert ((key, vid, VersionStatusCompleted) ∈ l) as Hin.
    { unfold l. apply list_elem_of_In, in_concat. eexists. split.
      - apply in_map_iff. exists (key, refs). split; [reflexivity|]. apply list_elem_of_In. rewrite Hperm. by apply elem_of_map_to_list.
      - cbn. unfold restore_verdict. rewrite F1, F2, F3, F4, F5. cbn. destruct (vid =?s "") eqn:Ev; [by apply string_eqb_eq in Ev|]. by left. }
    unfold recorded. rewrite clean_restores_cache. destruct (record_versions l s1) as (_ & _ & _ & _ & _ & _ & _ & H8). cbv zeta in H8.
    destruct (H8 vid) as [(x & Hx & _ & ->)|[Hno _]]; [|by destruct (Hno _ Hin)]. rewrite Forall_forall in Hall. by rewrite (Hall x Hx).
Qed.
End Claims.

(** ** Concrete runs *)

Definition idle (n : net) : backups :=
  {| b_net := n; b_heap := []; b_tasks := ∅; b_processing := []; b_mapping := ∅; b_cache := ∅; b_s3 := ∅; b_versions := ∅; b_waiting := []; b_asked := [] |}.
Definition demo_backup_request : BackupOrRestoreRequest :=
  {| BR_Database := "db"; BR_Space := "s"; BR_BackupID := ""; BR_VersionID := "v7"; BR_Command := BackupCommandBackup; BR_S3PartitionID := 0;
     BR_SourceClusterName := ""; BR_S3Param := "minio" |}.
Definition demo_down : FailServer := {| FS_ID := 9; FS_Node := None |}.
Definition all_done (n : nat) (addr key bid : string) (pid : Z) : go BackupStatusResponse :=
  Ret {| SR_Exists := true; SR_Status := PSSnapshotStatusCompleted; SR_ErrorMessage := "" |}.

Definition demo_started : backups :=
  (createSnapshot (HSpace := one_codec demo_two) (HPartition := one_codec (demo_partition 5)) (HServer := one_codec demo_server) (HFail := one_codec demo_down)
    no_fault (fun _ _ => Ret tt) demo_st ParseInt (fun _ _ => true) id "c1" (fun _ => true) (fun _ _ => Ret tt) "2025-01-01-10-00" "u1" demo_backup_request (idle member_net)).1.
Definition demo_polled : backups :=
  (checkProcessingVersion (HServer := one_codec demo_server) (HFail := one_codec demo_down) no_fault demo_st all_done (fun _ _ => true) demo_started).1.
Definition demo_version : BackupVersion :=
  {| V_SpaceKey := "db-s"; V_VersionID := "2025-01-01-10-00"; V_BackupID := "u1"; V_Status := VersionStatusInited; V_Description := "backup";
     V_Partitions := [{| I_PartitionID := 5; I_NodeID := 1; I_S3PartitionID := 5 |}] |}.

Lemma demo_processing : b_processing demo_polled = [demo_version].
Proof. vm_compute. reflexivity. Qed.
Lemma demo_verdict : version_verdict demo_polled demo_version = Some VersionStatusCompleted.
Proof. vm_compute. reflexivity. Qed.

Lemma backup_completed_sound_witness :
  exists q resp, q ∈ b_asked demo_polled /\ q_spaceKey q = "db-s"%string /\ q_pid q = 5 /\ q_answer q = Ret resp /\ SR_Status resp = 1.
Proof.
  destruct (backup_completed_sound (HSpace := one_codec demo_two) (HPartition := one_codec (demo_partition 5)) (HServer := one_codec demo_server)
    (HFail := one_codec demo_down) no_fault (fun _ _ => Ret tt) demo_st ParseInt all_done (fun _ _ => true) id map_to_list "c1" (fun _ => true) (fun _ _ => Ret tt)
    demo_polled demo_version {| I_PartitionID := 5; I_NodeID := 1; I_S3PartitionID := 5 |}) as (q & w & resp & H1 & _ & _ & H2 & _ & H3 & H4 & H5).
  - eapply reach_step; [eapply reach_step; [apply (reach_initial _ _ _ _ _ _ _ _ _ _ _ (idle member_net)); by repeat split|]|].
    + apply (step_backup _ _ _ _ _ _ _ _ _ _ _ _ "2025-01-01-10-00" "u1" demo_backup_request).
    + apply step_poll_backups.
  - rewrite demo_processing. by left.
  - exact demo_verdict.
  - by left.
  - exists q, resp. by repeat split.
Defined.

Lemma checkVersionStatus_exact_witness :
  b_processing (checkVersionStatus demo_polled) = [] /\ BP_Status (GetBackupProgress (checkVersionStatus demo_polled) "db" "s" "2025-01-01-10-00") = "completed"%string.
Proof.
  destruct (checkVersionStatus_exact demo_polled) as (H1 & _ & _ & H4).
  - rewrite demo_processing. apply NoDup_singleton.
  - cbv zeta in *. split.
    + rewrite H1, demo_processing, filter_cons_False by (by rewrite demo_verdict). reflexivity.
    + specialize (H4 demo_version "db" "s")%string. rewrite demo_verdict in H4. apply H4; [rewrite demo_processing; by left|reflexivity].
Defined.

Definition demo_restoring : backups :=
  (addRestoreTasks (HPartition := one_codec (demo_partition 5)) (HServer := one_codec demo_server) (HFail := one_codec demo_down)
    no_fault (fun _ _ => Ret tt) demo_st (fun _ _ => true) id "db-s" (V_Partitions demo_version) demo_backup_request (idle member_net)).1.
Definition nobody (n : nat) (addr key bid : string) (pid : Z) : go BackupStatusResponse := Fail (OtherErr "timeout").
Definition demo_restoring_task : Task := Eval vm_compute in default
  {| K_PartitionID := 0; K_NodeID := 0; K_PSNodeAddr := ""; K_TaskType := ""; K_Status := BackupStatusInited; K_RetryCount := 0; K_MaxRetries := 0; K_LastError := None;
     K_Request := demo_backup_request |} (b_heap demo_restoring !! 0%nat).

Lemma demo_restoring_state : b_tasks demo_restoring = {[ "db-s"%string := [0%nat] ]} /\ b_heap demo_restoring = [demo_restoring_task].
Proof. split; vm_compute; reflexivity. Qed.

Lemma restore_poll_outcomes_witness :
  BP_Status <$> recorded (checkRestoreTasks (HServer := one_codec demo_server) no_fault demo_st nobody map_to_list demo_restoring).1 "v7" = Some "completed"%string.
Proof.
  destruct demo_restoring_state as [Ht Hh].
  destruct (restore_poll_outcomes (HServer := one_codec demo_server) no_fault demo_st nobody map_to_list demo_restoring ltac:(done)) as [_ H].
  assert (forall key ref, ref ∈ tasks_of demo_restoring key -> ref = 0%nat) as H0.
  { intros key ref. unfold tasks_of. rewrite Ht. destruct (decide (key = "db-s"%string)) as [->|Hne]; [rewrite lookup_singleton_eq; cbn; set_solver|].
    rewrite lookup_singleton_ne by congruence. by intros ?%elem_of_nil. }
  apply (H "db-s" "v7")%string.
  - intros n addr key bid pid. by eexists.
  - intros key ref ->%H0. rewrite Hh. eexists. split; [reflexivity|]. done.
  - unfold tasks_of. rewrite Ht, lookup_singleton_eq. done.
  - done.
  - intros ref ->%H0. rewrite Hh. eexists. split; [reflexivity|]. done.
Defined.
