(* ===== verification/Restore.v ===== *)
(** * Restoring a space (internal/master/services/backup_service.go)

    The entry points of the backup service: [SpaceSnapshot], which starts a backup or a restore, and [DeleteBackupVersion]; the restore of a
    schema by [BackupManager.restoreSchema], which creates the space anew and notes for each new partition the directory of the
    object store it is to be filled from, and [restoreSnapshot].

    The object store is a parameter: [get_object] downloads an object, [list_objects] gives the entries right under a prefix, [None] an entry that
    comes with an error. *)

From S2P Require Import Prelude.
From S2P Require Import Text.
From S2P Require Import Errors.
From S2P Require Import Names.
From S2P Require Import Keys.
From S2P Require Import Schema.
From S2P Require Import Partition.
From S2P Require Import Space.
From S2P Require Import Floats.
From S2P Require Import SortOrder.
From S2P Require Import Mapping.
From S2P Require Import Placement.
From S2P Require Import Store.
From S2P Require Import Net.
From S2P Require Import Databases.
From S2P Require Import Cache.
From S2P Require Import Paths.
From S2P Require Import Indexes.
From S2P Require Import SpaceUpdate.
From S2P Require Import SpaceLife.
From S2P Require Import Members.
From S2P Require Import Configs.
From S2P Require Import Backup.
Open Scope Z_scope.

(** [strconv.ParseUint(s, 10, 32)] *)
Definition ParseUint32 (s : string) : option Z := n ← parse_N s; if Z.of_N n <? 2 ^ 32 then Some (Z.of_N n) else None.

(** The directory an entry of a listing stands for. *)
Definition directory_of (s3Path : string) (entry : option string) : option string :=
  key ← entry;
  let relativePath := TrimPrefix key (s3Path +:+ "/") in
  if HasSuffix relativePath "/" then
    let dirName := TrimSuffix relativePath "/" in
    if negb (Contains dirName "/") && negb (dirName =?s "") then Some dirName else None
  else None.

(** New partition to directory. *)
Definition s3_map (ps : list Partition) (ids : list Z) : gmap Z Z := foldl (fun m x => <[P_Id x.1 := x.2]> m) ∅ (zip ps ids).
Definition on_s3 (f : gmap string (gmap Z Z) -> gmap string (gmap Z Z)) (s : backups) : backups :=
  {| b_net := b_net s; b_heap := b_heap s; b_tasks := b_tasks s; b_processing := b_processing s; b_mapping := b_mapping s; b_cache := b_cache s;
     b_s3 := f (b_s3 s); b_versions := b_versions s; b_waiting := b_waiting s; b_asked := b_asked s |}.

Record snapshot_response : Set := { SN_BackupID : Z; SN_VersionID : string }.

Section Restore.
Context (fault : nat -> option (error * bool)) (answer : nat -> message -> go unit) (live : string -> bool)
        (sched : list (Partition * list string) -> list (Partition * list string)) (st : Prefixes) (wide : Z -> bool) (ToInt64E ToTimeE : string -> option Z).
Context (unmarshal_fields : string -> go (list Field)) (unmarshal_array : string -> go (list json)) (decode_field : json -> go field_tmp)
        (pord : gmap string SpaceProperties -> list (string * SpaceProperties)).
Context (sort : forall A, (A -> A -> bool) -> list A -> list A) (antiAffinityStrategy : Z) (order : gmap nat Z -> list (nat * Z)).
Context (registered : nat -> list Partition) (patience : nat).
Context `{HDB : !Codec DB, HSpace : !Codec Space, HPartition : !Codec Partition, HServer : !Codec Server, HFail : !Codec FailServer, HConfig : !Codec SpaceConfig}.
Context (engine_cfg : string -> Z -> go SpaceConfig) (reachable : nat -> string -> bool) (dispatch_order : list nat -> list nat).
Context (cluster : string) (connect : string -> bool) (put_object : string -> string -> go unit) (get_object : string -> go string)
        (list_objects : string -> list (option string)).

Definition create_restored (dbName : string) (space : Space) : N Space :=
  CreateSpace fault answer live sched st wide ToInt64E ToTimeE unmarshal_fields unmarshal_array decode_field pord sort antiAffinityStrategy order registered patience
    dbName space true.

Definition source_cluster (req : BackupOrRestoreRequest) : string := if BR_SourceClusterName req =?s "" then cluster else BR_SourceClusterName req.
Definition schema_object (source dbName spaceName versionID : string) : string :=
  source +:+ "/backup/" +:+ dbName +:+ "/" +:+ spaceName +:+ "/" +:+ versionID +:+ "/" +:+ spaceName +:+ ".schema".

(** The directories found for a version. *)
Definition version_dirs (dbName spaceName : string) (req : BackupOrRestoreRequest) : list string :=
  let s3Path := Join [source_cluster req; "backup"; dbName; spaceName; BR_VersionID req]%string in
  omap (directory_of s3Path) (list_objects (s3Path +:+ "/")).

(** From the creation of the space on. *)
Definition recreate (dbID : Z) (dbName spaceName : string) (space : Space) (dirs : list string) : B unit :=
  let partitionNum := length (S_Partitions space) in
  let s3PartitionIDs := sort Z Z.ltb (omap ParseUint32 dirs) in
  if negb (size (list_to_set dirs : gset string) =? partitionNum)%nat
  then bret (Fail (OtherErr "S3 partition directory count %d does not match schema partition count %d, found directories: %v"))
  else
    run_! netB (create_restored dbName (set_S_Partitions [] space)) in
    run! space <- store (QuerySpaceByName fault st dbID spaceName) in
    if negb (length (S_Partitions space) =? partitionNum)%nat
    then bret (Fail (OtherErr "space partitions count mismatch after creation: expected %d, got %d"))
    else if negb (length s3PartitionIDs =? length (S_Partitions space))%nat
    then bret (Fail (OtherErr "S3 partition ID count (%d) does not match new partition count (%d) for space %s/%s, cannot establish mapping. This may be caused by invalid partition directory names in S3"))
    else
      run_! (fun s => (on_s3 (<[buildSpaceKey dbName spaceName := s3_map (S_Partitions space) s3PartitionIDs]>) s, Ret tt)) in
      run! cfg <- store (GetSpaceConfigByName fault st ToInt64E engine_cfg dbName spaceName) in
      store (UpdateSpaceConfig fault st space cfg).

Definition restoreSchema (dbName spaceName : string) (req : BackupOrRestoreRequest) : B unit :=
  run! dbID <- store (QueryDBName2ID fault st ToInt64E dbName) in
  run! existing <- battempt (store (QuerySpaceByName fault st dbID spaceName)) in
  match existing with
  | Some _ => bret (Fail (OtherErr "space duplicate: space %s already exists in database %s"))
  | None =>
    run! spaceJson <- bret (get_object (schema_object (source_cluster req) dbName spaceName (BR_VersionID req))) in
    match Unmarshal spaceJson with
    | None => bret (Fail (OtherErr "unmarshal file: %v"))
    | Some space => recreate dbID dbName spaceName space (version_dirs dbName spaceName req)
    end
  end.

(** The version to restore; the request is changed to it. *)
Definition restore_version (req : BackupOrRestoreRequest) : go string :=
  if negb (BR_SourceClusterName req =?s "") then
    if BR_VersionID req =?s "" then
      if negb (BR_BackupID req =?s "") && negb (BR_BackupID req =?s "0") then Ret (BR_BackupID req)
      else Fail (OtherErr "when source_cluster_name is specified, either version_id or backup_id must be provided")
    else Ret (BR_VersionID req)
  else if BR_VersionID req =?s "" then Fail (OtherErr "VersionID is required for restore")
  else Ret (BR_VersionID req).

(** The id of the version restored is returned: it is in the request then. *)
Definition restoreSnapshot (uuid databaseName spaceName : string) (req : BackupOrRestoreRequest) : B string :=
  run_! bret (if connect (BR_S3Param req) then Ret tt else Fail (OtherErr "failed to create minio client: %+v")) in
  run! versionID <- bret (restore_version req) in
  let backupID := given_or uuid (BR_BackupID req) in
  run_! restoreSchema databaseName spaceName (set_BR_ids backupID versionID req) in
  run! partitions <- resolvePartitions fault st ToInt64E databaseName spaceName in
  let backupRequest := {| BR_Database := databaseName; BR_Space := spaceName; BR_BackupID := backupID; BR_VersionID := versionID;
                          BR_Command := BackupCommandRestore; BR_S3PartitionID := 0; BR_SourceClusterName := BR_SourceClusterName req; BR_S3Param := BR_S3Param req |} in
  run_! addRestoreTasks fault answer st reachable dispatch_order (buildSpaceKey databaseName spaceName) partitions backupRequest in
  bret (Ret versionID).

(** [now] is the id made of the time, [uuid] a fresh name. *)
Definition SpaceSnapshot (now uuid dbName spaceName : string) (req : BackupSpaceRequest) : B snapshot_response :=
  let backupID := if BS_BackupID req =? 0 then uuid else FormatInt (BS_BackupID req) in
  let snapshotReq := {| BR_Database := dbName; BR_Space := spaceName; BR_BackupID := backupID; BR_VersionID := BS_VersionID req; BR_Command := "";
                        BR_S3PartitionID := 0; BR_SourceClusterName := BS_SourceClusterName req; BR_S3Param := BS_S3Param req |} in
  if BS_Command req =?s BackupCommandBackup then
    run! version <- createSnapshot fault answer st ToInt64E reachable dispatch_order cluster connect put_object now uuid snapshotReq in
    bret (Ret {| SN_BackupID := BS_BackupID req; SN_VersionID := V_VersionID version |})
  else if BS_Command req =?s BackupCommandRestore then
    if negb (BS_SourceClusterName req =?s "") && (BS_VersionID req =?s "") && (BS_BackupID req =? 0)
    then bret (Fail (OtherErr "when source_cluster_name is specified, either version_id or backup_id must be provided"))
    else run! versionID <- restoreSnapshot uuid dbName spaceName snapshotReq in
         bret (Ret {| SN_BackupID := BS_BackupID req; SN_VersionID := versionID |})
  else bret (Fail (OtherErr "unknown command: %s, SpaceSnapshot only supports backup/restore")).

(** The node asked to delete the files of a partition; 0: none. *)
Definition deletion_node (p : Partition) : Z :=
  if (P_LeaderID p =? 0) then default 0 (P_Replicas p !! 0%nat) else P_LeaderID p.

(** The errors of one partition. *)
Definition delete_version_of (spaceKey versionID : string) (p : Partition) : N (list error) :=
  let nodeID := deletion_node p in
  if nodeID =? 0 then nret (Ret [])
  else fun n =>
    match lift (QueryServer fault st nodeID) n with
    | (n', Fail e) => (n', Ret [OtherErr "failed to query server %d: %v"])
    | (n', Panic p) => (n', Panic p)
    | (n', Ret server) =>
      match send answer (DeleteBackupVersion (RpcAddr server) spaceKey versionID (P_Id p)) n' with
      | (n'', Ret _) => (n'', Ret [])
      | (n'', Fail e) => (n'', Ret [OtherErr "partition %d: %v"])
      | (n'', Panic p) => (n'', Panic p)
      end
    end.

Definition reworded {A} (e : error) (m : N A) : N A := fun n => match m n with (n', Fail _) => (n', Fail e) | x => x end.

Definition service_DeleteBackupVersion (dbName spaceName versionID : string) : N unit :=
  bind! dbID <- reworded (OtherErr "failed to query database %s: %v") (lift (QueryDBName2ID fault st ToInt64E dbName)) in
  bind! space <- reworded (OtherErr "failed to query space %s/%s: %v") (lift (QuerySpaceByName fault st dbID spaceName)) in
  bind! errs <- nfold (fun errs p => bind! e <- delete_version_of (buildSpaceKey dbName spaceName) versionID p in nret (Ret (errs ++ e))) [] (S_Partitions space) in
  nret (if (0 <? length errs)%nat then Fail (OtherErr "failed to delete backup version on %d partitions: %v") else Ret tt).
End Restore.

(** The object a restore reads is the one the backup of the version wrote. *)
Lemma schema_object_written source dbName spaceName versionID :
  plain source -> plain dbName -> plain spaceName -> plain versionID -> plain (spaceName +:+ ".schema") ->
  Join [source; "backup"; dbName; spaceName; versionID +:+ "/" +:+ spaceName +:+ ".schema"]%string = schema_object source dbName spaceName versionID.
Proof.
  intros H1 H2 H3 H4 H5.
  assert (Join [source; "backup"; dbName; spaceName; versionID +:+ "/" +:+ spaceName +:+ ".schema"]%string =
          Join [source; "backup"; dbName; spaceName; versionID; spaceName +:+ ".schema"]%string) as ->.
  { unfold Join. destruct H1 as (Hs & _). apply string_eqb_neq in Hs. by rewrite Hs. }
  rewrite Join_plain; [|repeat (constructor; [first [done | split; [done|split; [done|split; [done|apply (bool_decide_unpack _); vm_compute; done]]]]|]); constructor|done].
  unfold schema_object. reflexivity.
Qed.

(** ** Listings *)

Lemma pretty_nonempty (z : Z) : pretty z <> ""%string.
Proof. intros H. by apply FormatInt_nonempty in H. Qed.

(** The directory of a partition, and the schema file, which is none. *)
Lemma directory_of_partition s3Path (id : Z) : directory_of s3Path (Some (s3Path +:+ "/" +:+ pretty id +:+ "/")) = Some (pretty id).
Proof.
  unfold directory_of. cbn [mbind option_bind]. rewrite <- app_assoc_string, TrimPrefix_prefix.
  assert (HasSuffix (pretty id +:+ "/") "/" = true) as -> by (apply HasSuffix_iff; by eexists). rewrite TrimSuffix_app.
  rewrite Contains_slash by apply pretty_Z_no_slash. pose proof (pretty_nonempty id) as H. apply string_eqb_neq in H. by rewrite H.
Qed.

Lemma directory_of_schema s3Path spaceName : directory_of s3Path (Some (s3Path +:+ "/" +:+ spaceName +:+ ".schema")) = None.
Proof.
  unfold directory_of. cbn [mbind option_bind]. rewrite <- app_assoc_string, TrimPrefix_prefix.
  destruct (HasSuffix _ "/") eqn:E; [|done]. exfalso. apply HasSuffix_iff in E as [x Hx].
  apply (f_equal (fun s => last (bytes_of s))) in Hx. rewrite !bytes_of_app, !last_app in Hx. cbn in Hx. discriminate Hx.
Qed.

Lemma ParseUint32_pretty (id : Z) : 0 <= id < 2 ^ 32 -> ParseUint32 (pretty id) = Some id.
Proof.
  intros Hid. unfold ParseUint32. replace (pretty id) with (pretty (Z.to_N id)).
  - rewrite parse_N_pretty. cbn. rewrite Z2N.id by lia. by destruct (Z.ltb_spec id (2 ^ 32)); [|lia].
  - destruct id; [done|done|lia].
Qed.

Lemma parsed_dirs (ids : list Z) : Forall (fun id => 0 <= id < 2 ^ 32) ids -> omap ParseUint32 (pretty <$> ids) = ids.
Proof. induction 1 as [|id ids Hid _ IH]; [done|]. cbn. rewrite ParseUint32_pretty by done. by f_equal. Qed.

#[local] Instance Zltb_strict : StrictWeak (fun _ => True) Z.ltb.
Proof. split; intros; rewrite ?Z.ltb_lt, ?Z.ltb_ge in *; lia. Qed.

Lemma strongly_sorted_weaken {A} (R R' : A -> A -> Prop) l : (forall x y, R x y -> R' x y) -> StronglySorted R l -> StronglySorted R' l.
Proof. intros HR. induction 1 as [|x l _ IH Hx]; constructor; [done|]. eapply Forall_impl; [exact Hx|]. auto. Qed.

(** Sorting the ids found gives back the increasing list. *)
Lemma sorted_back (sort : forall A, (A -> A -> bool) -> list A -> list A) l ids : SortSlice sort -> l ≡ₚ ids -> StronglySorted Z.lt ids -> sort Z Z.ltb l = ids.
Proof.
  intros Hsort Hl Hids. apply (StronglySorted_unique Z.le).
  - eapply strongly_sorted_weaken; [|apply (sort_sorted Z (fun _ => True) Z.ltb l); [apply _|by apply Forall_true]]. intros x y. unfold nlt. by rewrite Z.ltb_ge.
  - eapply strongly_sorted_weaken; [|exact Hids]. lia.
  - by rewrite sort_perm.
Qed.

(** The mapping pairs the positions. *)
Lemma s3_map_lookup ps ids i p d : NoDup (P_Id <$> ps) -> ps !! i = Some p -> ids !! i = Some d -> s3_map ps ids !! P_Id p = Some d.
Proof.
  unfold s3_map. generalize (∅ : gmap Z Z). revert ids i. induction ps as [|q ps IH]; intros [|x ids] i m0 Hnd Hp Hd; [done..|].
  cbn in Hnd. apply NoDup_cons in Hnd as [Hq Hnd]. destruct i as [|i]; cbn in *; [|by eapply IH]. injection Hp as ->. injection Hd as ->.
  assert (forall m : gmap Z Z, m !! P_Id p = Some d -> foldl (fun (m : gmap Z Z) (x : Partition * Z) => <[P_Id x.1:=x.2]> m) m (zip ps ids) !! P_Id p = Some d) as Hkeep; [|apply Hkeep, lookup_insert_eq].
  clear IH Hnd. revert ids. induction ps as [|q ps IH]; intros [|y ids] m Hm; cbn; [done..|]. cbn in Hq. apply not_elem_of_cons in Hq as [Hne Hq].
  apply IH; [done|]. by rewrite lookup_insert_ne.
Qed.

(** ** A restore *)

Section Claims.
Context (fault : nat -> option (error * bool)) (answer : nat -> message -> go unit) (live : string -> bool)
        (sched : list (Partition * list string) -> list (Partition * list string)) (etcd_cluster : string) (wide : Z -> bool) (ToInt64E ToTimeE : string -> option Z).
Context (unmarshal_fields : string -> go (list Field)) (unmarshal_array : string -> go (list json)) (decode_field : json -> go field_tmp)
        (pord : gmap string SpaceProperties -> list (string * SpaceProperties)).
Context (sort : forall A, (A -> A -> bool) -> list A -> list A) (antiAffinityStrategy : Z) (order : gmap nat Z -> list (nat * Z)).
Context (registered : nat -> list Partition) (patience : nat).
Context `{HDB : !Codec DB, HSpace : !Codec Space, HPartition : !Codec Partition, HServer : !Codec Server, HFail : !Codec FailServer, HConfig : !Codec SpaceConfig}.
Context (engine_cfg : string -> Z -> go SpaceConfig) (cluster : string) (get_object : string -> go string) (list_objects : string -> list (option string)).

(** The keys of the cluster, as [SetPrefixAndSequence] sets them. *)
Notation st := (SetPrefixAndSequence etcd_cluster initial_prefixes).
Notation create := (create_restored fault answer live sched st wide ToInt64E ToTimeE unmarshal_fields unmarshal_array decode_field pord sort antiAffinityStrategy order
  registered patience).
Notation restore_ := (restoreSchema fault answer live sched st wide ToInt64E ToTimeE unmarshal_fields unmarshal_array decode_field pord sort antiAffinityStrategy order
  registered patience engine_cfg cluster get_object list_objects).
Notation recreate_ := (recreate fault answer live sched st wide ToInt64E ToTimeE unmarshal_fields unmarshal_array decode_field pord sort antiAffinityStrategy order
  registered patience engine_cfg).

Lemma bbind_ret {A C} (m : B A) (k : A -> B C) s s' c : bbind m k s = (s', Ret c) -> exists s1 a, m s = (s1, Ret a) /\ k a s1 = (s', Ret c).
Proof. unfold bbind. destruct (m s) as [s1 [a|e|p]]; [|done..]. eauto. Qed.

Lemma store_ret {A} (m : M A) s s' a : store m s = (s', Ret a) -> exists w, m (nw (b_net s)) = (w, Ret a) /\ b_s3 s' = b_s3 s.
Proof. unfold store, netB, lift. destruct (m _) as [w r]. intros [= <- ->]. by exists w. Qed.

(** What has happened when [recreate] has succeeded. *)
Lemma recreate_ret dbID dbName spaceName space dirs s s' : recreate_ dbID dbName spaceName space dirs s = (s', Ret tt) ->
  exists n1 made new, create dbName (set_S_Partitions [] space) (b_net s) = (n1, Ret made) /\
    List.find (fun x : Space => S_Name x =?s spaceName) (decode_all (scan (kv (nw n1)) (PrefixSpace st +:+ pretty dbID +:+ "/"))) = Some new /\
    length (S_Partitions new) = length (S_Partitions space) /\ length (sort Z Z.ltb (omap ParseUint32 dirs)) = length (S_Partitions space) /\
    b_s3 s' !! buildSpaceKey dbName spaceName = Some (s3_map (S_Partitions new) (sort Z Z.ltb (omap ParseUint32 dirs))).
Proof.
  unfold recreate. case_match; [done|]. intros H0. apply bbind_ret in H0 as (s1 & made & Hc & H0). unfold netB in Hc.
  destruct (create _ _ (b_net s)) as [n1 r] eqn:E. injection Hc as <- ->. apply bbind_ret in H0 as (s2 & new & Hq & H0).
  unfold store, netB, lift in Hq. cbn [b_net on_net put_b] in Hq.
  pose proof (tells_QuerySpaceByName fault st (kv (nw n1)) dbID spaceName (nw n1) eq_refl) as Hf. destruct (QuerySpaceByName fault st dbID spaceName (nw n1)) as [w r].
  injection Hq as <- ->. cbn [fst snd] in Hf. destruct Hf as [_ Hf]. destruct (negb (length (S_Partitions new) =? _)%nat) eqn:E1; [done|].
  destruct (negb (length _ =? length (S_Partitions new))%nat) eqn:E2; [done|]. apply negb_false_iff, Nat.eqb_eq in E1, E2.
  exists n1, made, new. split; [done|]. split; [exact Hf|]. split; [done|]. split; [congruence|].
  apply bbind_ret in H0 as (s3 & [] & [= <-] & H0). apply bbind_ret in H0 as (s4 & cfg & (w4 & _ & H4)%store_ret & (w5 & _ & H5)%store_ret).
  rewrite H5, H4. cbn. apply lookup_insert_eq.
Qed.

(** The restored space is the one that is found under its name afterwards. *)
Lemma created_found t0 t l dbName (space made new : Space) v dbID :
  created live st ToInt64E unmarshal_fields antiAffinityStrategy t0 t l dbName space made -> t0 !! DBKeyName st dbName = Some v -> ToInt64E v = Some dbID -> Encodable made ->
  List.find (fun x : Space => S_Name x =?s S_Name space) (decode_all (scan t (PrefixSpace st +:+ pretty dbID +:+ "/"))) = Some new -> new = made.
Proof.
  intros (v' & dbID' & s0 & Hv' & Hid' & Hfree & _ & _ & _ & Hst & Hun & _) Hv Hid Henc Hf. rewrite Hv in Hv'. injection Hv' as <-. rewrite Hid in Hid'. injection Hid' as <-.
  apply find_some in Hf as [Hf Hname]. apply list_elem_of_In, list_elem_of_omap in Hf as ([k x] & [Hk Hp]%scan_spec & Hx). cbn [snd] in Hx.
  destruct (decide (k = SpaceKey st dbID (S_Id made))) as [->|Hne].
  { assert (Some x = Some (Marshal made)) as [= ->] by (etrans; [symmetry; exact Hk|exact Hst]). rewrite Unmarshal_Marshal in Hx by done. by injection Hx as <-. }
  assert (forall o, HasPrefix (key_of st o) (PrefixSpace st) = true -> exists a b, o = OSpace a b) as Hkind.
  { intros o. pose proof (scans_exact etcd_cluster o) as H. unfold scans in H. cbv zeta in H. rewrite !Forall_cons in H. destruct H as (_ & -> & _). destruct o; by eauto. }
  apply prefix_iff in Hp as [z Hz]. assert (HasPrefix k (PrefixSpace st) = true) as Hpk by (apply prefix_iff; exists (pretty dbID +:+ "/" +:+ z); rewrite Hz, !app_assoc_string; done).
  exfalso. assert (t0 !! k = Some x) as Hk0.
  { etrans; [symmetry; apply Hun|exact Hk]; [| |exact Hne].
    - intros [-> | ->]; [destruct (Hkind OSeqSpace Hpk) as (? & ? & ?)|destruct (Hkind OSeqPartition Hpk) as (? & ? & ?)]; done.
    - intros [pid ->]. destruct (Hkind (OPartition pid) Hpk) as (? & ? & ?). done. }
  unfold name_free in Hfree. eapply List.find_none in Hfree; [by rewrite Hname in Hfree|]. apply list_elem_of_In, list_elem_of_omap. exists (k, x).
    split; [|done]. apply scan_spec. split; [done|]. apply prefix_iff. by exists z.
Qed.

(** The directories listed are the partitions of the backup, in order. *)
Lemma restored_dirs dbName spaceName req old : SortSlice sort ->
  (let s3Path := Join [source_cluster cluster req; "backup"; dbName; spaceName; BR_VersionID req]%string in
   list_objects (s3Path +:+ "/") ≡ₚ Some (s3Path +:+ "/" +:+ spaceName +:+ ".schema") :: ((fun id : Z => Some (s3Path +:+ "/" +:+ pretty id +:+ "/")) <$> (P_Id <$> S_Partitions old))) ->
  StronglySorted Z.lt (P_Id <$> S_Partitions old) -> Forall (fun id => 0 <= id < 2 ^ 32) (P_Id <$> S_Partitions old) ->
  sort Z Z.ltb (omap ParseUint32 (version_dirs cluster list_objects dbName spaceName req)) = P_Id <$> S_Partitions old.
Proof.
  intros Hsort Hlist Hinc Hids. apply sorted_back; [done| |done]. unfold version_dirs. cbv zeta in *. rewrite Hlist. cbn [omap list_omap]. rewrite directory_of_schema.
  rewrite <- (parsed_dirs (P_Id <$> S_Partitions old)) at 2 by done. generalize (P_Id <$> S_Partitions old). intros l.
  apply reflexive_eq. f_equal. induction l as [|id l IH]; [done|]. cbn [fmap list_fmap omap list_omap]. rewrite directory_of_partition. f_equal. exact IH.
Qed.

(** The state in which the space is created: the database and the name have been looked up. *)
Definition looked_up (n : net) : net := {| nw := {| kv := kv (nw n); calls := S (S (calls (nw n))) |}; sent := sent n |}.

Lemma QueryDBName2ID_calls name w : calls (QueryDBName2ID fault st ToInt64E name w).1 = S (calls w).
Proof. unfold QueryDBName2ID, mbind_M, Get, call. destruct (fault (calls w)) as [[e []]|]; [done..|]. by repeat case_match; simplify_eq. Qed.
Lemma QuerySpaceByName_calls dbID name w : calls (QuerySpaceByName fault st dbID name w).1 = S (calls w).
Proof. unfold QuerySpaceByName, QuerySpaces, QuerySpacesByKey, mbind_M, PrefixScan, call. destruct (fault (calls w)) as [[e []]|]; [done..|]. unfold mret; cbn [fst snd calls]. by case_match. Qed.

Lemma fresh_ids_distinct last (ids : list Z) : 0 <= last -> last + Z.of_nat (length ids) <= MaxUint32 ->
  ids = u32 <$> seqZ (last + 1) (Z.of_nat (length ids)) -> NoDup ids.
Proof.
  intros H0 Hl ->. apply NoDup_fmap_2_strong; [|apply NoDup_seqZ]. intros x y Hx%elem_of_seqZ Hy%elem_of_seqZ.
  unfold u32, MaxUint32 in *. rewrite !wrap_u_id by (unfold in_u; lia). done.
Qed.

(** A space that is restored serves every document from the data of the partition it was in: when the object store holds the schema that the backup
    of the version has written and one directory per partition of it, a successful [restoreSchema] has created the space again with as many partitions,
    each new partition is to be filled from the directory of the partition at its position before, and so for every hash the new partition
    that owns it is filled from the partition that owned it.  Whichever calls to the store fail on the way.  The space in the backup has its slots evenly
    laid out and its partitions in the order of their identifiers, as creations and expansions leave them; the names can stand in a path,
    the sequence of the partition identifiers has not run out of 32 bits, and the new space is representable in JSON.  (C23) *)
Theorem restore_keeps_routing dbName spaceName req old last s s' :
  SortSlice sort -> (forall m, order m ≡ₚ map_to_list m) -> (forall l, sched l ≡ₚ l) -> (forall c e b, fault c = Some (e, b) -> code_of e = None) ->
  plain (source_cluster cluster req) -> plain dbName -> plain spaceName -> plain (BR_VersionID req) -> plain (spaceName +:+ ".schema") ->
  get_object (Join [source_cluster cluster req; "backup"; dbName; spaceName; BR_VersionID req +:+ "/" +:+ spaceName +:+ ".schema"])%string = Ret (Marshal old) -> Encodable old ->
  (let s3Path := Join [source_cluster cluster req; "backup"; dbName; spaceName; BR_VersionID req]%string in
   list_objects (s3Path +:+ "/") ≡ₚ Some (s3Path +:+ "/" +:+ spaceName +:+ ".schema") :: ((fun id : Z => Some (s3Path +:+ "/" +:+ pretty id +:+ "/")) <$> (P_Id <$> S_Partitions old))) ->
  S_Name old = spaceName -> 1 <= S_PartitionNum old <= 2 ^ 20 -> 1 <= S_ReplicaNum old <= 255 ->
  StronglySorted Z.lt (P_Id <$> S_Partitions old) -> Forall (fun id => 0 <= id < 2 ^ 32) (P_Id <$> S_Partitions old) ->
  laid_out (S_Partitions old) -> 1 <= Z.of_nat (length (S_Partitions old)) <= MaxUint32 ->
  last_id (kv (nw (b_net s))) (PartitionIdSequence st) = Some last -> 0 <= last -> last + Z.of_nat (length (S_Partitions old)) <= MaxUint32 ->
  (forall n1 made, create dbName (set_S_Partitions [] old) (looked_up (b_net s)) = (n1, Ret made) -> Encodable made) ->
  restore_ dbName spaceName req s = (s', Ret tt) ->
  exists n1 new m, create dbName (set_S_Partitions [] old) (looked_up (b_net s)) = (n1, Ret new) /\
    created live st ToInt64E unmarshal_fields antiAffinityStrategy (kv (nw (b_net s))) (kv (nw n1)) (sent n1) dbName (set_S_Partitions [] old) new /\
    length (S_Partitions new) = length (S_Partitions old) /\ b_s3 s' !! buildSpaceKey dbName spaceName = Some m /\
    (forall i pn po, S_Partitions new !! i = Some pn -> S_Partitions old !! i = Some po -> m !! P_Id pn = Some (P_Id po)) /\
    forall h, in_u 32 h -> exists pnew pold, PartitionId new h = Ret pnew /\ PartitionId old h = Ret pold /\ m !! pnew = Some pold.
Proof.
  intros Hsort Horder Hsched Hplain Hp1 Hp2 Hp3 Hp4 Hp5 Hobj Henc Hlist Hnm Hpn Hrn Hinc Hids Hlay Hlen Hlast Hl0 Hlb Hjson H.
  rewrite schema_object_written in Hobj by done. unfold restoreSchema in H. apply bbind_ret in H as (s1 & dbID & Hq & H).
  pose proof (tells_QueryDBName2ID fault st ToInt64E (kv (nw (b_net s))) dbName (nw (b_net s)) eq_refl) as [Hkv Hv].
  pose proof (QueryDBName2ID_calls dbName (nw (b_net s))) as Hc1. unfold store, netB, lift in Hq.
  destruct (QueryDBName2ID _ _ _ _ (nw (b_net s))) as [w1 r1]. injection Hq as <- ->. cbn [fst snd] in Hkv, Hv, Hc1. destruct Hv as (v & Hv & Hid).
  apply bbind_ret in H as (s2 & [ex|] & Hq & H); [done|]. unfold battempt, store, netB, lift in Hq. cbn [b_net on_net put_b nw] in Hq.
  pose proof (tells_QuerySpaceByName fault st (kv w1) dbID spaceName w1 eq_refl) as [Hkv2 _]. pose proof (QuerySpaceByName_calls dbID spaceName w1) as Hc2.
  destruct (QuerySpaceByName fault st dbID spaceName w1) as [w2 r2]. cbn [fst] in Hkv2, Hc2.
  assert (s2 = on_net (looked_up (b_net s)) (on_net {| nw := w1; sent := sent (b_net s) |} s)) as ->.
  { assert (looked_up (b_net s) = {| nw := w2; sent := sent (b_net s) |}) as -> by (unfold looked_up; destruct w2; cbn in *; congruence). destruct r2; by injection Hq as <-. }
  rewrite Hobj in H. apply bbind_ret in H as (s3 & js & [= <- <-] & H). rewrite Unmarshal_Marshal in H by done.
  apply recreate_ret in H as (n1 & made & new & Hc & Hf & Hl1 & Hl2 & Hm). cbn [b_net on_net put_b] in Hc.
  rewrite (restored_dirs dbName spaceName req old) in Hm by done.
  pose proof (CreateSpace_created fault answer live sched st wide ToInt64E ToTimeE unmarshal_fields unmarshal_array decode_field pord sort antiAffinityStrategy order registered
    patience Hsort Horder Hsched Hplain dbName (set_S_Partitions [] old) true _ _ _ eq_refl Hpn Hrn Hc) as Hcreated.
  rewrite <- Hnm in Hf. apply (created_found _ _ _ _ _ _ _ v dbID Hcreated) in Hf as ->; [|exact Hv|exact Hid|by eapply Hjson].
  exists n1, made, (s3_map (S_Partitions made) (P_Id <$> S_Partitions old)). split; [exact Hc|]. split; [exact Hcreated|]. split; [exact Hl1|]. split; [exact Hm|].
  assert (NoDup (P_Id <$> S_Partitions made)) as Hnd.
  { apply (fresh_ids_distinct last); rewrite ?length_fmap, ?Hl1; [done..|]. rewrite <- Hl1.
    eapply CreateSpace_ids; [exact Hsort|exact Horder|exact Hsched|exact Hplain|..|exact Hc]; [|done|exact Hpn|exact Hrn|exact Hlast|lia].
    intros E. by apply (key_inj etcd_cluster OSeqSpace OSeqPartition) in E. }
  assert (forall i pn po, S_Partitions made !! i = Some pn -> S_Partitions old !! i = Some po ->
    s3_map (S_Partitions made) (P_Id <$> S_Partitions old) !! P_Id pn = Some (P_Id po)) as Hmap.
  { intros i pn po Hn Ho. eapply s3_map_lookup; [done|exact Hn|]. by rewrite list_lookup_fmap, Ho. }
  split; [exact Hmap|]. intros h Hh. destruct Hcreated as (_ & _ & _ & _ & _ & _ & _ & _ & _ & _ & _ & Hroute & _). destruct (Hroute h Hh) as (pn & Hr & Hn).
  destruct (laid_out_routes old h) as (po & Ho & Hr'); [done|done|by destruct Hh|]. rewrite Hl1 in Hn. eauto 10.
Qed.
End Claims.

(** ** A concrete restore *)

Definition demo_restore_request : BackupOrRestoreRequest :=
  {| BR_Database := "db"; BR_Space := "s"; BR_BackupID := "u1"; BR_VersionID := "v7"; BR_Command := ""; BR_S3PartitionID := 0; BR_SourceClusterName := ""; BR_S3Param := "minio" |}.
Definition demo_listing (prefix : string) : list (option string) := [Some (prefix +:+ "s.schema"); Some (prefix +:+ "5/")].
(** The space in the backup has partition 5; the one created for it has partition 1. *)
Definition demo_recreation : net * go Space :=
  create_restored (HDB := one_codec demo_db) (HSpace := one_codec demo_two) (HPartition := one_codec (demo_partition 1)) (HServer := one_codec demo_server)
    no_fault (fun _ _ => Ret tt) (fun _ => true) id demo_st (fun _ => false) ParseInt ParseInt demo_schema (fun _ => Ret []) demo_decode
    demo_order (@insertion_sort) 0 map_to_list (fun _ => [demo_partition 1]) 3 "db" (set_S_Partitions [] demo_two) (looked_up fresh_net).
Definition restored_space : Space := match demo_recreation.2 with Ret s => s | _ => demo_two end.
(** An encoding of the two, told apart by their versions. *)
Definition restored_codec : Codec Space.
Proof.
  refine {| Marshal x := if S_Version x =? 0 then "{}"%string else "{1}"%string;
            Unmarshal v := if v =?s "{}" then Some demo_two else if v =?s "{1}" then Some restored_space else None;
            Encodable x := x = demo_two \/ x = restored_space |}.
  - intros a [-> | ->]; [reflexivity|]. assert (S_Version restored_space = 1) as -> by (vm_compute; reflexivity). reflexivity.
  - intros a. by destruct (S_Version a =? 0).
Defined.

Definition demo_restore : backups * go unit :=
  restoreSchema (HDB := one_codec demo_db) (HSpace := restored_codec) (HPartition := one_codec (demo_partition 1)) (HServer := one_codec demo_server)
    (HConfig := one_codec (plain_config None None))
    no_fault (fun _ _ => Ret tt) (fun _ => true) id demo_st (fun _ => false) ParseInt ParseInt demo_schema (fun _ => Ret []) demo_decode
    demo_order (@insertion_sort) 0 map_to_list (fun _ => [demo_partition 1]) 3 (fun _ _ => Ret (plain_config None None)) "c1" (fun _ => Ret "{}"%string) demo_listing
    "db" "s" demo_restore_request (idle fresh_net).

Lemma Ret_inj {A} (a b : A) : (Ret a : go A) = Ret b -> a = b.
Proof. by intros [= ->]. Qed.

Lemma demo_restore_run : demo_restore.2 = Ret tt.
Proof. vm_compute. reflexivity. Qed.

Lemma demo_recreation_run :
  (create_restored (HDB := one_codec demo_db) (HSpace := restored_codec) (HPartition := one_codec (demo_partition 1)) (HServer := one_codec demo_server)
    no_fault (fun _ _ => Ret tt) (fun _ => true) id demo_st (fun _ => false) ParseInt ParseInt demo_schema (fun _ => Ret []) demo_decode
    demo_order (@insertion_sort) 0 map_to_list (fun _ => [demo_partition 1]) 3 "db" (set_S_Partitions [] demo_two) (looked_up fresh_net)).2 = Ret restored_space /\
  PartitionId restored_space 0 = Ret 1.
Proof. split; vm_compute; reflexivity. Qed.

Lemma restore_keeps_routing_witness : exists m, b_s3 demo_restore.1 !! "db-s"%string = Some m /\ m !! 1 = Some 5.
Proof.
  destruct (restore_keeps_routing (HDB := one_codec demo_db) (HSpace := restored_codec) (HPartition := one_codec (demo_partition 1)) (HServer := one_codec demo_server)
    (HConfig := one_codec (plain_config None None))
    no_fault (fun _ _ => Ret tt) (fun _ => true) id "c1" (fun _ => false) ParseInt ParseInt demo_schema (fun _ => Ret []) demo_decode
    demo_order (@insertion_sort) 0 map_to_list (fun _ => [demo_partition 1]) 3 (fun _ _ => Ret (plain_config None None)) "c1" (fun _ => Ret "{}"%string) demo_listing
    "db" "s" demo_restore_request demo_two 0 (idle fresh_net) demo_restore.1) as (n1 & new & m & Hc & _ & _ & Hm & _ & Hroute).
  - exact insertion_sort_slice.
  - done.
  - done.
  - done.
  - apply plain_checked; [reflexivity|discriminate..].
  - apply plain_checked; [reflexivity|discriminate..].
  - apply plain_checked; [reflexivity|discriminate..].
  - apply plain_checked; [reflexivity|discriminate..].
  - apply plain_checked; [reflexivity|discriminate..].
  - reflexivity.
  - left. reflexivity.
  - cbv zeta. apply reflexive_eq. vm_compute. reflexivity.
  - reflexivity.
  - split; vm_compute; discriminate.
  - split; vm_compute; discriminate.
  - repeat constructor.
  - repeat constructor; vm_compute; congruence.
  - reflexivity.
  - split; vm_compute; discriminate.
  - vm_compute. reflexivity.
  - lia.
  - vm_compute. discriminate.
  - intros n1 made Hc. right. destruct demo_recreation_run as [E _]. cbn [b_net idle] in Hc. change (SetPrefixAndSequence "c1" initial_prefixes) with demo_st in Hc.
    rewrite Hc in E. exact (Ret_inj _ _ E).
  - rewrite <- demo_restore_run. apply surjective_pairing.
  - exists m. split; [exact Hm|]. destruct demo_recreation_run as [E Hp]. cbn [b_net idle] in Hc. change (SetPrefixAndSequence "c1" initial_prefixes) with demo_st in Hc.
    rewrite Hc in E. apply Ret_inj in E. subst new.
    destruct (Hroute 0 ltac:(unfold in_u; lia)) as (a & b & Ha & Hb & Hab). rewrite Hp in Ha. injection Ha as <-.
    assert (PartitionId demo_two 0 = Ret 5) as Hq by (vm_compute; reflexivity). rewrite Hq in Hb. by injection Hb as <-.
Defined.
