(* ===== verification/Api.v ===== *)
(** * The HTTP API of the master (internal/master/cluster_api.go)

    Every request handler as a computation [B] over the store, the messages to the partition servers and the state of the
    backups, ending in a reply; the route table with its authentication; and [serve], which composes the middlewares with
    the handlers.  The operations on spaces, replicas and backups are reached through a record [Services]; [master_services] fills it with
    those of the other files.  A body is what [ShouldBindJSON] made of it: [None] when it could not be bound. *)

From S2P Require Import Prelude.
From S2P Require Import Text.
From S2P Require Import Errors.
From S2P Require Import Names.
From S2P Require Import Rbac.
From S2P Require Import Keys.
From S2P Require Import Schema.
From S2P Require Import SortOrder.
From S2P Require Import Mapping.
From S2P Require Import Partition.
From S2P Require Import Space.
From S2P Require Import Floats.
From S2P Require Import Placement.
From S2P Require Import Limits.
From S2P Require Import Store.
From S2P Require Import Databases.
From S2P Require Import Cache.
From S2P Require Import Accounts.
From S2P Require Import Net.
From S2P Require Import Indexes.
From S2P Require Import SpaceUpdate.
From S2P Require Import SpaceLife.
From S2P Require Import Members.
From S2P Require Import Configs.
From S2P Require Import Backup.
From S2P Require Import Restore.
From S2P Require Import Auth.
From S2P Require Import Sweep.
Open Scope Z_scope.

(** ** Services *)

Record Services : Type := {
  s_CreateSpace : string -> Space -> N Space;
  s_DeleteSpace : string -> string -> N unit;
  s_UpdateSpace : string -> string -> update_request -> N Space;
  s_AddIndexes : string -> string -> list (option Index) -> N Space;
  s_RemoveIndex : string -> string -> string -> N Space;
  s_SpaceSnapshot : string -> string -> BackupSpaceRequest -> B snapshot_response;
  s_DeleteBackupVersion : string -> string -> string -> N unit;
  s_ChangeMember : ChangeMember_ -> N unit;
  s_ChangeMembers : list Z -> Z -> Z -> N unit;
  s_ChangeReplica : DBModify -> N unit;
  s_RecoverFailServer : string -> string -> N unit;
  s_ResourceLimit : ResourceLimit_ -> N unit;
  s_ModifySpaceConfig : string -> string -> SpaceConfig -> N unit;
  s_ModifyMemoryLimitCfg : MemoryLimitCfg -> N unit
}.

(** ** Replies *)

Inductive data : Type :=
| DInfo (name : string) | DText (s : string) | DNames (l : list string) | DServer (r : registration)
| DDb (db : DB) | DDbs (l : list DB) | DSpace (s : Space) | DIndexes (l : list Index)
| DSnapshot (r : option snapshot_response) | DProgress (p : BackupProgress) | DVersion (dbName spaceName versionID : string) (deleted : option nat)
| DConfig (c : SpaceConfig) | DRequestLimit (c : RequestLimitCfg) | DMemoryLimit (c : MemoryLimitCfg) | DSlow (b : bool)
| DPartitions (l : list Partition) | DFailServers (l : list FailServer) | DLimit (l : ResourceLimit_)
| DAlias (a : Alias) | DAliases (l : list Alias) | DUser (u : User) | DUserRole (u : UserRole) | DUserRoles (l : list UserRole)
| DRole (r : Role) | DRoles (l : list Role) | DNone.

Definition reply : Type := Response data.

(** [handleError]; the errors of the services are never pre-built [ErrRequest]s. *)
Definition handleError (e : error) : ErrRequest :=
  match code_of e with
  | Some (DB_EXIST | SPACE_EXIST | ALIAS_EXIST | USER_EXIST | ROLE_EXIST) => NewErrUnprocessable e
  | Some (DB_NOT_EXIST | SPACE_NOT_EXIST | ALIAS_NOT_EXIST | USER_NOT_EXIST | ROLE_NOT_EXIST | PARTITION_SERVER_NOT_EXIST) => NewErrNotFound e
  | Some (PARAM_ERROR | CONFIG_ERROR) => NewErrBadRequest e
  | Some AUTHENTICATION_FAILED => NewErrUnauthorized e
  | _ => NewErrInternal e
  end.

(** [x, err := m; if err != nil { JsonError(f(err)); return }] *)
Definition or_reply {A} (id : string) (m : B A) (f : error -> ErrRequest) (k : A -> B reply) : B reply := fun s =>
  match m s with
  | (s', Ret a) => k a s'
  | (s', Fail e) => (s', Ret (JsonError id (f e)))
  | (s', Panic p) => (s', Panic p)
  end.
Notation "'try!' x <- m 'or' f 'at' id 'in' k" := (or_reply id m f (fun x => k))
  (at level 200, x pattern, m at level 100, f at level 99, id at level 99, k at level 200) : go_scope.

Definition refuse (id : string) (e : ErrRequest) : B reply := bret (Ret (JsonError id e)).
Definition done_with (id : string) (d : data) : B reply := bret (Ret (JsonSuccess id d)).
Definition bound {A} (id : string) (body : option A) (k : A -> B reply) : B reply :=
  match body with Some b => k b | None => refuse id (NewErrBadRequest (OtherErr "json")) end.

(** [defer errutil.CatchError(&err)]: a panic is recovered and no reply is set; the client gets an empty body with status 200. *)
Definition no_reply : reply := {| httpStatus := 200; Code := SUCCESS; RequestId := ""; Msg := ""; Data := None |}.
Definition caught (m : B reply) : B reply := fun s => match m s with (s', Panic _) => (s', Ret no_reply) | x => x end.

(** ** What the handlers use of the space and of the partition *)

Definition DefalutEnableRealtime : bool := false.
Definition defaultResourceName : string := "default".

(** The space that the body of [createSpace] is bound into. *)
Definition blank_space : Space :=
  {| S_Id := 0; S_Desc := ""; S_Name := ""; S_ResourceName := ""; S_Version := 0; S_DBId := 0; S_Enabled := None; S_Partitions := [];
     S_PartitionNum := 0; S_ReplicaNum := 0; S_Fields := ""; S_Indexes := []; S_PartitionRule := None; S_SpaceProperties := ∅;
     S_RefreshInterval := Some DefaultRefreshInterval; S_PartitionName := None; S_PartitionOperatorType := None;
     S_EnableIdCache := Some DefaultEnableIdCache; S_EnableRealtime := Some DefalutEnableRealtime |}.

Definition set_S_Request (resource : string) (version num replicas : Z) (s : Space) : Space :=
  {| S_Id := S_Id s; S_Desc := S_Desc s; S_Name := S_Name s; S_ResourceName := resource; S_Version := version; S_DBId := S_DBId s;
     S_Enabled := S_Enabled s; S_Partitions := S_Partitions s; S_PartitionNum := num; S_ReplicaNum := replicas;
     S_Fields := S_Fields s; S_Indexes := S_Indexes s; S_PartitionRule := S_PartitionRule s; S_SpaceProperties := S_SpaceProperties s;
     S_RefreshInterval := S_RefreshInterval s; S_PartitionName := S_PartitionName s; S_PartitionOperatorType := S_PartitionOperatorType s;
     S_EnableIdCache := S_EnableIdCache s; S_EnableRealtime := S_EnableRealtime s |}.

Definition set_P_UpdateTime (now : Z) (p : Partition) : Partition :=
  {| P_Id := P_Id p; P_Name := P_Name p; P_SpaceId := P_SpaceId p; P_DBId := P_DBId p; P_Slot := P_Slot p; P_LeaderID := P_LeaderID p;
     P_Replicas := P_Replicas p; P_UpdateTime := now; P_AddNum := P_AddNum p; P_ResourceExhausted := P_ResourceExhausted p;
     P_Path := P_Path p; P_status := P_status p; P_ReStatusMap := P_ReStatusMap p |}.

(** [strconv.ParseUint(s, 10, 64)] *)
Definition ParseUint64 (s : string) : option Z := n ← parse_N s; if Z.of_N n <? 2 ^ 64 then Some (Z.of_N n) else None.

Record RecoverFailServer_ : Set := { FailNodeID : Z; NewNodeID : Z; FailNodeAddr : string; NewNodeAddr : string }.

(** ** Deleting a backup on the object store *)

(** The batches of [deleteS3Directory]: [i] advances by [batchSize]. *)
Fixpoint batches (fuel batchSize : nat) {A} (objects : list A) : list (list A) :=
  match fuel, objects with
  | O, _ | _, [] => []
  | S fuel', _ => take batchSize objects :: batches fuel' batchSize (drop batchSize objects)
  end.

Section Direct.
(** The listing of a prefix, [None] for an error, and whether an object cannot be removed. *)
Context (list_objects : string -> bool -> list (option string)) (stuck : string -> bool).

(** The objects asked to be removed, in batches, and the result: how many are gone, or an error. *)
Definition deleteS3Directory (prefix : string) : list (list string) * (nat + error) :=
  let listing := list_objects prefix true in
  if forallb (fun o => match o with Some _ => true | None => false end) listing then
    let objectsToDelete := omap id listing in
    if (length objectsToDelete =? 0)%nat then ([], inl O)
    else
      let asked := batches (length objectsToDelete) 1000 objectsToDelete in
      let deleteErrors := concat (map (List.filter stuck) asked) in
      (asked, if (0 <? length deleteErrors)%nat then inr (OtherErr "encountered %d errors during deletion: %v") else inl (length objectsToDelete))
  else ([], inr (OtherErr "failed to list objects: %v")).

Definition backup_prefix (clusterName dbName spaceName versionID : string) : string :=
  let p := String.concat "/" [if clusterName =?s "" then "default-cluster" else clusterName; "backup"; dbName; spaceName; versionID]%string in
  if HasSuffix p "/" then p else p +:+ "/".

(** [backupExists]: some entry of the listing is not an error. *)
Definition backup_exists (prefix : string) : bool := existsb (fun o => match o with Some _ => true | None => false end) (list_objects prefix false).
End Direct.

(** ** Routes *)

(** A request that is routed: the handler it is for, with its parameters and its body. *)
Inductive request : Type :=
| ClusterInfo
| CleanLock
| RouterList
| Register (ip clusterName : string) (nodeID : Z)
| RegisterPartition_ (body : option Partition)
| RegisterRouter (ip clusterName : string)
| CreateDB_ (dbName : string)
| GetDB (dbName : string)
| DeleteDB_ (dbName : string)
| ModifyDB (body : option DBModify)
| CreateSpace_ (dbName : string) (body : Space -> option Space)
| DeleteSpace_ (dbName spaceName : string)
| UpdateSpace_ (dbName spaceName : string) (body : string -> option update_request)
| ListIndexes_ (dbName spaceName : string)
| CreateIndexes (dbName spaceName : string) (body : option (list (option Index)))
| DeleteIndex (dbName spaceName indexName : string)
| BackupSpace_ (dbName spaceName : string) (body : option BackupSpaceRequest)
| BackupDb (dbName : string) (body : option BackupSpaceRequest)
| BackupProgress_ (dbName spaceName versionID : string)
| RestoreProgress (dbName spaceName : string)
| DeleteVersion (dbName spaceName versionID : string) (body : option BackupSpaceRequest)
| DeleteVersionDirect (dbName spaceName versionID : string) (body : option BackupSpaceRequest)
| ModifySpaceConfig_ (dbName spaceName : string) (body : option SpaceConfig)
| GetSpaceConfig (dbName spaceName : string)
| ModifyRequestLimit (body : option RequestLimitCfg)
| GetRequestLimit
| ModifyMemoryLimit (body : option MemoryLimitCfg)
| GetMemoryLimit
| ModifySlowSearchIsolation (body : option bool)
| GetSlowSearchIsolation
| PartitionList
| ChangeMember_request (body : option (list Z * Z * Z))
| ResourceLimit_request (body : option ResourceLimit_)
| RecoverServer (body : option RecoverFailServer_)
| ChangeReplicas_request (body : option DBModify)
| FailServers
| ClearFailServer (nodeID : string)
| CleanTask_request
| RemoveServer (body : option RecoverFailServer_)
| CreateAlias_ (aliasName dbName spaceName : string)
| GetAlias (aliasName : string)
| DeleteAlias_ (aliasName : string)
| ModifyAlias (aliasName dbName spaceName : string)
| CreateUser_ (body : option User)
| GetUser (name : string)
| DeleteUser_ (name : string)
| UpdateUser_ (body : option User)
| CreateRole_ (body : option Role)
| GetRole (name : string)
| DeleteRole_ (name : string)
| ChangeRolePrivilege_ (body : option Role)
(** A handler that is not modelled, by its route. *)
| Other (i : nat).

Definition other_routes : list (string * string) :=
  [("GET", "/servers"); ("GET", "/dbs/:db_name/spaces/:space_name"); ("GET", "/dbs/:db_name/spaces"); ("GET", "/cluster/stats"); ("GET", "/cluster/health"); ("GET", "/members"); ("GET", "/members/stats"); ("DELETE", "/members"); ("POST", "/members")]%string.

(** The method and the path the handler is registered for. *)
Definition route_of (r : request) : string * string :=
  match r with
  | ClusterInfo => ("GET", "/")
  | CleanLock => ("GET", "/clean_lock")
  | RouterList => ("GET", "/routers")
  | Register _ _ _ => ("POST", "/register")
  | RegisterPartition_ _ => ("POST", "/register_partition")
  | RegisterRouter _ _ => ("POST", "/register_router")
  | CreateDB_ _ => ("POST", "/dbs/:db_name")
  | GetDB dbName => ("GET", if dbName =?s "" then "/dbs" else "/dbs/:db_name")
  | DeleteDB_ _ => ("DELETE", "/dbs/:db_name")
  | ModifyDB _ => ("PUT", "/dbs/:db_name")
  | CreateSpace_ _ _ => ("POST", "/dbs/:db_name/spaces")
  | DeleteSpace_ _ _ => ("DELETE", "/dbs/:db_name/spaces/:space_name")
  | UpdateSpace_ _ _ _ => ("PUT", "/dbs/:db_name/spaces/:space_name")
  | ListIndexes_ _ _ => ("GET", "/dbs/:db_name/spaces/:space_name/indexes")
  | CreateIndexes _ _ _ => ("POST", "/dbs/:db_name/spaces/:space_name/indexes")
  | DeleteIndex _ _ _ => ("DELETE", "/dbs/:db_name/spaces/:space_name/indexes/:index_name")
  | BackupSpace_ _ _ _ => ("POST", "/backup/dbs/:db_name/spaces/:space_name")
  | BackupDb _ _ => ("POST", "/backup/dbs/:db_name")
  | BackupProgress_ _ _ _ => ("GET", "/backup/dbs/:db_name/spaces/:space_name/versions/:version_id/progress")
  | RestoreProgress _ _ => ("GET", "/restore/dbs/:db_name/spaces/:space_name/progress")
  | DeleteVersion _ _ _ _ => ("DELETE", "/backup/dbs/:db_name/spaces/:space_name/versions/:version_id")
  | DeleteVersionDirect _ _ _ _ => ("DELETE", "/backup/dbs/:db_name/spaces/:space_name/versions/:version_id/direct")
  | ModifySpaceConfig_ _ _ _ => ("POST", "/config/:db_name/:space_name")
  | GetSpaceConfig _ _ => ("GET", "/config/:db_name/:space_name")
  | ModifyRequestLimit _ => ("POST", "/config/request_limit")
  | GetRequestLimit => ("GET", "/config/request_limit")
  | ModifyMemoryLimit _ => ("POST", "/config/memory_limit")
  | GetMemoryLimit => ("GET", "/config/memory_limit")
  | ModifySlowSearchIsolation _ => ("POST", "/config/slow_search_isolation")
  | GetSlowSearchIsolation => ("GET", "/config/slow_search_isolation")
  | PartitionList => ("GET", "/partitions")
  | ChangeMember_request _ => ("POST", "/partitions/change_member")
  | ResourceLimit_request _ => ("POST", "/partitions/resource_limit")
  | RecoverServer _ => ("POST", "/schedule/recover_server")
  | ChangeReplicas_request _ => ("POST", "/schedule/change_replicas")
  | FailServers => ("GET", "/schedule/fail_server")
  | ClearFailServer _ => ("DELETE", "/schedule/fail_server/:node_id")
  | CleanTask_request => ("GET", "/schedule/clean_task")
  | RemoveServer _ => ("POST", "/meta/remove_server")
  | CreateAlias_ _ _ _ => ("POST", "/alias/:alias_name/dbs/:db_name/spaces/:space_name")
  | GetAlias aliasName => ("GET", if aliasName =?s "" then "/alias" else "/alias/:alias_name")
  | DeleteAlias_ _ => ("DELETE", "/alias/:alias_name")
  | ModifyAlias _ _ _ => ("PUT", "/alias/:alias_name/dbs/:db_name/spaces/:space_name")
  | CreateUser_ _ => ("POST", "/users")
  | GetUser name => ("GET", if name =?s "" then "/users" else "/users/:user_name")
  | DeleteUser_ _ => ("DELETE", "/users/:user_name")
  | UpdateUser_ _ => ("PUT", "/users")
  | CreateRole_ _ => ("POST", "/roles")
  | GetRole name => ("GET", if name =?s "" then "/roles" else "/roles/:role_name")
  | DeleteRole_ _ => ("DELETE", "/roles/:role_name")
  | ChangeRolePrivilege_ _ => ("PUT", "/roles")
  | Other i => default ("GET", "/servers") (other_routes !! i)
  end%string.

(** [ExportToClusterHandler]: method, path, and whether the route is in [groupAuth]. *)
Definition routes : list (string * string * bool) :=
  [("GET", "/", false);
   ("GET", "/clean_lock", true);
   ("GET", "/servers", true);
   ("GET", "/routers", true);
   ("POST", "/register", false);
   ("POST", "/register_partition", false);
   ("POST", "/register_router", false);
   ("POST", "/dbs/:db_name", true);
   ("GET", "/dbs/:db_name", true);
   ("GET", "/dbs", true);
   ("DELETE", "/dbs/:db_name", true);
   ("PUT", "/dbs/:db_name", true);
   ("POST", "/dbs/:db_name/spaces", true);
   ("GET", "/dbs/:db_name/spaces/:space_name", true);
   ("GET", "/dbs/:db_name/spaces", true);
   ("DELETE", "/dbs/:db_name/spaces/:space_name", true);
   ("PUT", "/dbs/:db_name/spaces/:space_name", true);
   ("GET", "/dbs/:db_name/spaces/:space_name/indexes", true);
   ("POST", "/dbs/:db_name/spaces/:space_name/indexes", true);
   ("DELETE", "/dbs/:db_name/spaces/:space_name/indexes/:index_name", true);
   ("POST", "/backup/dbs/:db_name/spaces/:space_name", true);
   ("POST", "/backup/dbs/:db_name", true);
   ("GET", "/backup/dbs/:db_name/spaces/:space_name/versions/:version_id/progress", true);
   ("GET", "/restore/dbs/:db_name/spaces/:space_name/progress", true);
   ("DELETE", "/backup/dbs/:db_name/spaces/:space_name/versions/:version_id", true);
   ("DELETE", "/backup/dbs/:db_name/spaces/:space_name/versions/:version_id/direct", true);
   ("POST", "/config/:db_name/:space_name", true);
   ("GET", "/config/:db_name/:space_name", true);
   ("POST", "/config/request_limit", true);
   ("GET", "/config/request_limit", true);
   ("POST", "/config/memory_limit", true);
   ("GET", "/config/memory_limit", true);
   ("POST", "/config/slow_search_isolation", false);
   ("GET", "/config/slow_search_isolation", false);
   ("GET", "/partitions", true);
   ("POST", "/partitions/change_member", true);
   ("POST", "/partitions/resource_limit", true);
   ("POST", "/schedule/recover_server", true);
   ("POST", "/schedule/change_replicas", true);
   ("GET", "/schedule/fail_server", true);
   ("DELETE", "/schedule/fail_server/:node_id", true);
   ("GET", "/schedule/clean_task", true);
   ("POST", "/meta/remove_server", true);
   ("POST", "/alias/:alias_name/dbs/:db_name/spaces/:space_name", true);
   ("GET", "/alias/:alias_name", true);
   ("GET", "/alias", true);
   ("DELETE", "/alias/:alias_name", true);
   ("PUT", "/alias/:alias_name/dbs/:db_name/spaces/:space_name", true);
   ("POST", "/users", true);
   ("GET", "/users/:user_name", true);
   ("GET", "/users", true);
   ("DELETE", "/users/:user_name", true);
   ("PUT", "/users", true);
   ("POST", "/roles", true);
   ("GET", "/roles/:role_name", true);
   ("GET", "/roles", true);
   ("DELETE", "/roles/:role_name", true);
   ("PUT", "/roles", true);
   ("GET", "/cluster/stats", true);
   ("GET", "/cluster/health", true);
   ("GET", "/members", true);
   ("GET", "/members/stats", true);
   ("DELETE", "/members", true);
   ("POST", "/members", true)]%string.

(** The route is in [groupAuth]; a route that is not registered is not served. *)
Definition needs_auth (r : request) : bool := default true (snd <$> List.find (fun x => bool_decide (x.1 = route_of r)) routes).

(** ** The handlers *)

Section Handlers.
Context (fault : nat -> option (error * bool)) (answer : nat -> message -> go unit) (st : Prefixes) (wide : Z -> bool) (ToInt64E : string -> option Z).
(** The configuration, the time, what the connection says, and the sources of ids. *)
Context (cluster_name : string) (SkipAuth LimitedReplicaNum LimitedDBNum : bool) (now : Z).
Context (IsLive : string -> bool) (ConfAddNode ConfRemoveNode : Z) (ToInt64 : string -> Z) (decode_config : Z -> Z -> string -> option SpaceConfig)
        (engine_cfg : string -> Z -> go SpaceConfig) (ranged : Role -> list (string * string)).
(** The object store: whether its parameters can be used, its bucket and end point; listings and removals. *)
Context (connect : string -> bool) (BucketName EndPoint : string -> string) (list_objects : string -> bool -> list (option string)) (stuck : string -> bool).
Context `{HDB : !Codec DB, HSpace : !Codec Space, HPartition : !Codec Partition, HServer : !Codec Server, HFail : !Codec FailServer,
          HConfig : !Codec SpaceConfig, HReq : !Codec RequestLimitCfg, HMem : !Codec MemoryLimitCfg, HSlow : !Codec bool,
          HAlias : !Codec Alias, HRole : !Codec Role, HUser : !Codec User}.
Context (svc : Services) (other : nat -> string -> B reply) (id : string).

Definition internal : error -> ErrRequest := NewErrInternal.

(** *** Cluster *)

Definition handleClusterInfo : B reply := done_with id (DInfo cluster_name).

Definition remove_keys (keys : list string) : M (list string) :=
  mfold (fun removed key => do_! Delete fault key in mret (Ret (removed ++ [key]))) [] keys.
Definition cleanLock : B reply :=
  try! kvs <- store (PrefixScan fault (PrefixLock st)) or NewErrBadRequest at id in
  try! removed <- store (remove_keys kvs.*1) or internal at id in
  done_with id (DNames removed).

Definition register (ip clusterName : string) (nodeID : Z) : B reply :=
  if (clusterName =?s "") || (nodeID =? 0) then refuse id (NewErrBadRequest (OtherErr "param err must has clusterName AND nodeID"))
  else if negb (clusterName =?s cluster_name) then refuse id (NewErrUnprocessable (OtherErr "cluster[%s] name different, config cluster name is %s"))
  else
    try! _ <- store (IsExistNode fault st nodeID ip) or NewErrUnprocessable at id in
    try! server <- store (RegisterServer fault st ToInt64 decode_config ip nodeID) or internal at id in
    done_with id (DServer server).

Definition registerRouter (ip clusterName : string) : B reply :=
  if negb (clusterName =?s cluster_name) then refuse id (NewErrUnprocessable (OtherErr "cluster name different, please check"))
  else done_with id (DText ip).

(** [partition_service.go: RegisterPartition] *)
Definition service_RegisterPartition (p : Partition) : M unit := Put fault (PartitionKey st (P_Id p)) (Marshal p).
Definition registerPartition (body : option Partition) : B reply :=
  bound id body (fun partition =>
    try! _ <- store (service_RegisterPartition (set_P_UpdateTime now partition)) or internal at id in
    done_with id DNone).

(** *** Databases *)

Definition createDB (dbName : string) : B reply :=
  let db := {| DB_Id := 0; DB_Name := dbName; DB_Ps := [] |} in
  try! _ <- store (CreateDB wide fault st IsLive LimitedDBNum db) or handleError at id in
  done_with id (DDb db).

Definition deleteDB (dbName : string) : B reply :=
  try! _ <- store (DeleteDB wide fault st ToInt64E dbName) or handleError at id in
  bret (Ret (SuccessDelete id)).

Definition getDB (dbName : string) : B reply :=
  if dbName =?s "" then try! dbs <- store (QueryDBs fault st) or handleError at id in done_with id (DDbs dbs)
  else try! db <- store (QueryDB wide fault st ToInt64E dbName) or handleError at id in done_with id (DDb db).

Definition modifyDB (body : option DBModify) : B reply :=
  bound id body (fun dbModify =>
    try! db <- store (UpdateDBIpList wide fault st ToInt64E ConfAddNode ConfRemoveNode dbModify) or handleError at id in
    done_with id (DDb db)).

(** *** Spaces *)

(** The request with its defaults, or why it is refused. *)
Definition requested_space (space : Space) : go Space :=
  let resource := if S_ResourceName space =?s "" then defaultResourceName else S_ResourceName space in
  let num := if S_PartitionNum space <=? 0 then 1 else S_PartitionNum space in
  if LimitedReplicaNum && (S_ReplicaNum space <? 3)
  then Fail (OtherErr "LimitedReplicaNum is set and in order to ensure high availability replica should not be less than 3")
  else
    let replicas := if S_ReplicaNum space <=? 0 then 3 else S_ReplicaNum space in
    check! Space_Validate wide (S_Name space) in
    Ret (set_S_Request resource 1 num replicas space).

Definition createSpace (dbName : string) (body : Space -> option Space) : B reply :=
  bound id (body blank_space) (fun space =>
    try! space <- bret (requested_space space) or NewErrBadRequest at id in
    try! space <- netB (s_CreateSpace svc dbName space) or handleError at id in
    try! cfg <- store (GetSpaceConfigByName fault st ToInt64E engine_cfg dbName (S_Name space)) or handleError at id in
    try! _ <- store (UpdateSpaceConfig fault st space (set_C_ids (S_Id space) (S_DBId space) cfg)) or handleError at id in
    done_with id (DSpace space)).

Definition deleteSpace (dbName spaceName : string) : B reply :=
  try! _ <- netB (s_DeleteSpace svc dbName spaceName) or internal at id in
  bret (Ret (SuccessDelete id)).

Definition updateSpace (dbName spaceName : string) (body : string -> option update_request) : B reply :=
  bound id (body spaceName) (fun space =>
    try! spaceResult <- netB (s_UpdateSpace svc dbName spaceName space) or internal at id in
    done_with id (DSpace spaceResult)).

Definition listIndexes (dbName spaceName : string) : B reply :=
  try! indexes <- store (ListIndexes fault st ToInt64E dbName spaceName) or handleError at id in
  done_with id (DIndexes indexes).

Definition createIndexes (dbName spaceName : string) (body : option (list (option Index))) : B reply :=
  bound id body (fun indexes =>
    if (length indexes =? 0)%nat then refuse id (NewErrBadRequest (OtherErr "`indexes` cannot be empty"))
    else
      try! spaceResult <- netB (s_AddIndexes svc dbName spaceName indexes) or handleError at id in
      done_with id (DSpace spaceResult)).

Definition deleteIndex (dbName spaceName indexName : string) : B reply :=
  try! spaceResult <- netB (s_RemoveIndex svc dbName spaceName indexName) or handleError at id in
  done_with id (DSpace spaceResult).

(** *** Backups *)

(** A failure is reported with the name of the space; the backups of the spaces before it have been started. *)
Definition backup_spaces (dbName : string) (backup : BackupSpaceRequest) (spaces : list Space) : B (option snapshot_response) :=
  bfold (fun _ space => fun s =>
    match s_SpaceSnapshot svc dbName (S_Name space) backup s with
    | (s', Ret r) => (s', Ret (Some r))
    | (s', Fail _) => (s', Fail (OtherErr "backup space %s failed, err: %s"))
    | (s', Panic p) => (s', Panic p)
    end) None spaces.

Definition backupDb (dbName : string) (body : option BackupSpaceRequest) : B reply := caught (
  try! dbID <- store (QueryDBName2ID fault st ToInt64E dbName) or internal at id in
  try! spaces <- store (QuerySpaces fault st dbID) or internal at id in
  bound id body (fun backup =>
    try! res <- backup_spaces dbName backup spaces or internal at id in
    done_with id (DSnapshot res))).

Definition backupSpace (dbName spaceName : string) (body : option BackupSpaceRequest) : B reply :=
  bound id body (fun backup =>
    try! res <- s_SpaceSnapshot svc dbName spaceName backup or internal at id in
    done_with id (DSnapshot (Some res))).

Definition missing (names : list string) : bool := existsb (fun n => n =?s "") names.

Definition getBackupProgress (dbName spaceName versionID : string) : B reply :=
  if missing [dbName; spaceName; versionID] then refuse id (NewErrBadRequest (OtherErr "dbName, spaceName and versionID are required"))
  else fun s => done_with id (DProgress (GetBackupProgress s dbName spaceName versionID)) s.

Definition getRestoreProgress (dbName spaceName : string) : B reply :=
  if missing [dbName; spaceName] then refuse id (NewErrBadRequest (OtherErr "dbName and spaceName are required"))
  else fun s => done_with id (DProgress (GetRestoreProgress s dbName spaceName)) s.

Definition s3_given (param : string) : bool := negb ((BucketName param =?s "") || (EndPoint param =?s "")).

Definition deleteBackupVersion (dbName spaceName versionID : string) (body : option BackupSpaceRequest) : B reply :=
  if missing [dbName; spaceName; versionID] then refuse id (NewErrBadRequest (OtherErr "dbName, spaceName and versionID are required"))
  else bound id body (fun backup =>
    if negb (s3_given (BS_S3Param backup))
    then refuse id (NewErrBadRequest (OtherErr "S3 parameters (bucket_name, endpoint, access_key, secret_key) are required"))
    else
      try! _ <- netB (s_DeleteBackupVersion svc dbName spaceName versionID) or internal at id in
      done_with id (DVersion dbName spaceName versionID None)).

(** The objects whose removal is asked for, and the reply. *)
Definition deleteBackupVersionDirect (dbName spaceName versionID : string) (body : option BackupSpaceRequest) : list (list string) * reply :=
  let bad e := ([], JsonError id (NewErrBadRequest (OtherErr e))) in
  if missing [dbName; spaceName; versionID] then bad "dbName, spaceName and versionID are required"%string
  else match body with
  | None => bad "json"%string
  | Some backup =>
    let prefix := backup_prefix cluster_name dbName spaceName versionID in
    if negb (s3_given (BS_S3Param backup)) then bad "S3 parameters (bucket_name, endpoint, access_key, secret_key) are required"%string
    else if negb (connect (BS_S3Param backup)) then ([], JsonError id (NewErrInternal (OtherErr "failed to create S3 client: %v")))
    else if negb (backup_exists list_objects prefix) then bad "backup version %s not found for space %s/%s"%string
    else
      let '(asked, r) := deleteS3Directory list_objects stuck prefix in
      (asked, match r with
              | inl n => if (n =? 0)%nat then JsonError id (NewErrBadRequest (OtherErr "backup version %s not found for space %s/%s: no objects to delete"))
                         else JsonSuccess id (DVersion dbName spaceName versionID (Some n))
              | inr e => JsonError id (NewErrInternal e)
              end)
  end.

(** *** Configuration *)

Definition getSpaceConfig_ (dbName spaceName : string) : B reply :=
  try! cfg <- store (GetSpaceConfigByName fault st ToInt64E engine_cfg dbName spaceName) or NewErrNotFound at id in
  done_with id (DConfig cfg).

Definition modifySpaceConfig (dbName spaceName : string) (body : option SpaceConfig) : B reply := caught (
  bound id body (fun spaceCfg =>
    try! _ <- netB (s_ModifySpaceConfig svc dbName spaceName spaceCfg) or internal at id in
    done_with id (DConfig spaceCfg))).

Definition getRequestLimitCfg : B reply :=
  try! c <- store (GetRequestLimitCfg fault st) or internal at id in done_with id (DRequestLimit c).
Definition modifyRequestLimitCfg (body : option RequestLimitCfg) : B reply :=
  bound id body (fun rlc => try! _ <- store (ModifyRequestLimitCfg fault st rlc) or internal at id in done_with id (DRequestLimit rlc)).

Definition getMemoryLimitCfg : B reply :=
  try! c <- store (GetMemoryLimitCfg fault st) or internal at id in done_with id (DMemoryLimit c).
Definition modifyMemoryLimitCfg (body : option MemoryLimitCfg) : B reply :=
  bound id body (fun mlc => try! _ <- netB (s_ModifyMemoryLimitCfg svc mlc) or internal at id in done_with id (DMemoryLimit mlc)).

Definition getSlowSearchIsolationCfg : B reply :=
  try! c <- store (GetSlowSearchIsolationCfg fault st) or internal at id in done_with id (DSlow c).
Definition modifySlowSearchIsolationCfg (body : option bool) : B reply :=
  match body with
  | None => refuse id (NewErrInternal (OtherErr "json"))
  | Some lsc => try! _ <- store (ModifySlowSearchIsolationCfg fault st lsc) or internal at id in done_with id (DSlow lsc)
  end.

(** *** Partitions and servers *)

Definition partitionList : B reply :=
  try! ps <- store (QueryPartitions fault st) or NewErrNotFound at id in done_with id (DPartitions ps).

(** [client/master.go: QueryRouter]: the part of each value before the first colon. *)
Definition QueryRouter (key : string) : M (list string) :=
  do! kvs <- PrefixScan fault (PrefixRouter st +:+ key +:+ "/") in
  mret (Ret (map (fun kv => match SplitN2 ":" kv.2 with Some (ip, _) => ip | None => kv.2 end) kvs)).
Definition routerList : B reply :=
  try! ips <- store (QueryRouter cluster_name) or NewErrNotFound at id in done_with id (DNames ips).

Definition changeMember (body : option (list Z * Z * Z)) : B reply :=
  bound id body (fun cm => try! _ <- netB (s_ChangeMembers svc cm.1.1 cm.1.2 cm.2) or internal at id in done_with id DNone).

Definition ResourceLimit_handler (body : option ResourceLimit_) : B reply :=
  bound id body (fun limit => try! _ <- netB (s_ResourceLimit svc limit) or internal at id in done_with id (DLimit limit)).

Definition RecoverFailServer_handler (body : option RecoverFailServer_) : B reply :=
  bound id body (fun rs => fun s =>
    match netB (s_RecoverFailServer svc (FailNodeAddr rs) (NewNodeAddr rs)) s with
    | (s', Ret _) => done_with id (DText "%s success recover!") s'
    | (s', Fail _) => refuse id (NewErrInternal (OtherErr "%s failed recover, err is %v")) s'
    | (s', Panic p) => (s', Panic p)
    end).

Definition ChangeReplicas (body : option DBModify) : B reply :=
  bound id body (fun dbModify =>
    if (DbName dbModify =?s "") || (DBModify_SpaceName dbModify =?s "") then refuse id (NewErrBadRequest (OtherErr "dbModify info incorrect [%s]"))
    else fun s =>
      match netB (s_ChangeReplica svc dbModify) s with
      | (s', Ret _) => done_with id (DText "[%s] success ChangeReplicas!") s'
      | (s', Fail _) => refuse id (NewErrInternal (OtherErr "[%s] failed ChangeReplicas,err is %v")) s'
      | (s', Panic p) => (s', Panic p)
      end).

Definition FailServerList : B reply :=
  try! l <- store (QueryAllFailServer fault st) or NewErrNotFound at id in done_with id (DFailServers l).

Definition FailServerClear (nodeID : string) : B reply :=
  if nodeID =?s "" then refuse id (NewErrBadRequest (OtherErr "param err must has nodeId"))
  else match ParseUint64 nodeID with
  | None => refuse id (NewErrBadRequest (OtherErr "nodeId err"))
  | Some node => try! _ <- store (DeleteFailServerByNodeID fault st node) or NewErrNotFound at id in done_with id (DText nodeID)
  end.

Definition CleanTask_handler : B reply := run_! netB (CleanTask fault answer st now) in done_with id (DText "clean task success!").

(** The failed server of a node id, else the server of an address. *)
Definition find_server (nodeID : Z) (ipAdd : string) : M (option FailServer) :=
  do! failServer <- (if 0 <? nodeID then QueryFailServerByNodeID fault st nodeID else mret (Ret None)) in
  match failServer with
  | None => if negb (ipAdd =?s "") then QueryServerByIPAddr fault st ipAdd else mret (Ret None)
  | Some fs => mret (Ret (Some fs))
  end.

Definition remove_replicas (node : Z) (pids : list Z) : N unit :=
  nfold (fun _ pid => s_ChangeMember svc {| CM_PartitionID := pid; CM_NodeID := node; CM_Method := ConfRemoveNode |}) tt pids.

Definition RemoveServerMeta (body : option RecoverFailServer_) : B reply :=
  bound id body (fun rfs =>
    if (FailNodeID rfs =? 0) && (FailNodeAddr rfs =?s "")
    then refuse id (NewErrBadRequest (OtherErr "param err must has fail_node_id or fail_node_addr"))
    else
      try! failServer <- store (find_server (FailNodeID rfs) (FailNodeAddr rfs)) or internal at id in
      match failServer with
      | Some {| FS_ID := node; FS_Node := Some server |} =>
        try! _ <- netB (remove_replicas node (PartitionIds server)) or internal at id in
        done_with id (DText "nodeid [%d], server [%v] remove node success!")
      | _ => refuse id (NewErrInternal (OtherErr "can't find server [%v]"))
      end).

(** *** Aliases, users and roles *)

(** The check of both alias handlers; [db_err] and [space_err] are how they report it. *)
Definition existing_space (db_err space_err : error -> ErrRequest) (dbName spaceName : string) (k : B reply) : B reply :=
  try! dbID <- store (QueryDBName2ID fault st ToInt64E dbName) or db_err at id in
  try! _ <- store (QuerySpaceByName fault st dbID spaceName) or space_err at id in k.

Definition createAlias (aliasName dbName spaceName : string) : B reply :=
  existing_space NewErrUnprocessable internal dbName spaceName (
    let alias := {| Alias_Name := aliasName; Alias_DbName := dbName; Alias_SpaceName := spaceName |} in
    try! _ <- store (CreateAlias wide fault st alias) or internal at id in done_with id (DAlias alias)).

Definition deleteAlias (aliasName : string) : B reply :=
  try! _ <- store (DeleteAlias fault st aliasName) or internal at id in bret (Ret (SuccessDelete id)).

Definition getAlias (aliasName : string) : B reply :=
  if aliasName =?s "" then try! l <- store (QueryAllAlias fault st) or NewErrNotFound at id in done_with id (DAliases l)
  else try! a <- store (QueryAlias fault st aliasName) or NewErrNotFound at id in done_with id (DAlias a).

Definition modifyAlias (aliasName dbName spaceName : string) : B reply :=
  existing_space NewErrNotFound NewErrNotFound dbName spaceName (
    let alias := {| Alias_Name := aliasName; Alias_DbName := dbName; Alias_SpaceName := spaceName |} in
    try! _ <- store (UpdateAlias fault st alias) or internal at id in done_with id (DAlias alias)).

Definition createUser (body : option User) : B reply :=
  bound id body (fun user =>
    try! _ <- store (CreateUser wide fault st user true) or internal at id in
    done_with id (DUser {| User_Name := User_Name user; Password := None; OldPassword := None; RoleName := None |})).

Definition deleteUser (name : string) : B reply :=
  try! _ <- store (DeleteUser fault st name) or internal at id in bret (Ret (SuccessDelete id)).

(** [user_service.go: QueryAllUser] *)
Definition QueryAllUser : M (list UserRole) :=
  do! kvs <- PrefixScan fault (PrefixUser st) in
  mfold (fun users kv =>
    do! user <- mret (decode_object (NewError USER_NOT_EXIST None) (verr PARAM_ERROR "get user:%s, err:%s") (Some kv.2)) in
    do! role <- role_of fault st user in
    mret (Ret (users ++ [{| UserRole_Name := User_Name user; UserRole_Password := None; UserRole_Role := role |}]))) [] kvs.

Definition getUser (name : string) : B reply :=
  if name =?s "" then try! l <- store QueryAllUser or NewErrNotFound at id in done_with id (DUserRoles l)
  else try! u <- store (QueryUser fault st name true) or NewErrNotFound at id in done_with id (DUserRole u).

(** The name the header is for decides which password check is made. *)
Definition updateUser (authHeader : string) (body : option User) : B reply :=
  bound id body (fun user =>
    try! auth_user <- bret (if SkipAuth then Ret ""%string else let! c := credentials authHeader in Ret c.1) or NewErrUnauthorized at id in
    try! _ <- store (UpdateUser fault st user auth_user) or internal at id in
    done_with id (DUser user)).

Definition createRole (body : option Role) : B reply :=
  bound id body (fun role => try! _ <- store (CreateRole wide fault st (ranged role) role) or internal at id in done_with id (DRole role)).

Definition deleteRole (name : string) : B reply :=
  try! _ <- store (DeleteRole fault st name) or internal at id in bret (Ret (SuccessDelete id)).

(** [role_service.go: QueryAllRole] *)
Definition QueryAllRole : M (list Role) :=
  do! kvs <- PrefixScan fault (PrefixRole st) in
  mret (ofold (fun acc kv =>
    let! r := decode_object (NewError ROLE_NOT_EXIST None) (verr PARAM_ERROR "get role:%s, err:%s") (Some kv.2) in Ret (acc ++ [r])) [] kvs).

Definition getRole_handler (name : string) : B reply :=
  if name =?s "" then try! l <- store QueryAllRole or NewErrNotFound at id in done_with id (DRoles l)
  else try! r <- store (QueryRole fault st name) or NewErrNotFound at id in done_with id (DRole r).

Definition changeRolePrivilege (body : option Role) : B reply :=
  bound id body (fun role => try! r <- store (ChangeRolePrivilege wide fault st (ranged role) role) or internal at id in done_with id (DRole r)).

(** ** Serving a request *)

Definition handle (authHeader : string) (r : request) : B reply :=
  match r with
  | ClusterInfo => handleClusterInfo
  | CleanLock => cleanLock
  | RouterList => routerList
  | Register ip clusterName nodeID => register ip clusterName nodeID
  | RegisterPartition_ body => registerPartition body
  | RegisterRouter ip clusterName => registerRouter ip clusterName
  | CreateDB_ dbName => createDB dbName
  | GetDB dbName => getDB dbName
  | DeleteDB_ dbName => deleteDB dbName
  | ModifyDB body => modifyDB body
  | CreateSpace_ dbName body => createSpace dbName body
  | DeleteSpace_ dbName spaceName => deleteSpace dbName spaceName
  | UpdateSpace_ dbName spaceName body => updateSpace dbName spaceName body
  | ListIndexes_ dbName spaceName => listIndexes dbName spaceName
  | CreateIndexes dbName spaceName body => createIndexes dbName spaceName body
  | DeleteIndex dbName spaceName indexName => deleteIndex dbName spaceName indexName
  | BackupSpace_ dbName spaceName body => backupSpace dbName spaceName body
  | BackupDb dbName body => backupDb dbName body
  | BackupProgress_ dbName spaceName versionID => getBackupProgress dbName spaceName versionID
  | RestoreProgress dbName spaceName => getRestoreProgress dbName spaceName
  | DeleteVersion dbName spaceName versionID body => deleteBackupVersion dbName spaceName versionID body
  | DeleteVersionDirect dbName spaceName versionID body => bret (Ret (deleteBackupVersionDirect dbName spaceName versionID body).2)
  | ModifySpaceConfig_ dbName spaceName body => modifySpaceConfig dbName spaceName body
  | GetSpaceConfig dbName spaceName => getSpaceConfig_ dbName spaceName
  | ModifyRequestLimit body => modifyRequestLimitCfg body
  | GetRequestLimit => getRequestLimitCfg
  | ModifyMemoryLimit body => modifyMemoryLimitCfg body
  | GetMemoryLimit => getMemoryLimitCfg
  | ModifySlowSearchIsolation body => modifySlowSearchIsolationCfg body
  | GetSlowSearchIsolation => getSlowSearchIsolationCfg
  | PartitionList => partitionList
  | ChangeMember_request body => changeMember body
  | ResourceLimit_request body => ResourceLimit_handler body
  | RecoverServer body => RecoverFailServer_handler body
  | ChangeReplicas_request body => ChangeReplicas body
  | FailServers => FailServerList
  | ClearFailServer nodeID => FailServerClear nodeID
  | CleanTask_request => CleanTask_handler
  | RemoveServer body => RemoveServerMeta body
  | CreateAlias_ aliasName dbName spaceName => createAlias aliasName dbName spaceName
  | GetAlias aliasName => getAlias aliasName
  | DeleteAlias_ aliasName => deleteAlias aliasName
  | ModifyAlias aliasName dbName spaceName => modifyAlias aliasName dbName spaceName
  | CreateUser_ body => createUser body
  | GetUser name => getUser name
  | DeleteUser_ name => deleteUser name
  | UpdateUser_ body => updateUser authHeader body
  | CreateRole_ body => createRole body
  | GetRole name => getRole_handler name
  | DeleteRole_ name => deleteRole name
  | ChangeRolePrivilege_ body => changeRolePrivilege body
  | Other i => other i authHeader
  end.

(** The reply to a request that is not let through. *)
Definition unauthorized (e : error) : reply := JsonError id (NewErrUnauthorized e).

(** The handlers of the route: [BasicAuthMiddleware], if the route has it, and the handler. *)
Definition authorized (authHeader : string) (r : request) : B reply :=
  if needs_auth r && negb SkipAuth
  then try! _ <- store (BasicAuthMiddleware fault st authHeader (route_of r).2 (route_of r).1) or NewErrUnauthorized at id in handle authHeader r
  else handle authHeader r.

(** [TimeoutMiddleware]: the time allowed, in nanoseconds; [None]: the parameter is not a number. *)
Definition deadline (timeoutStr : string) : option Z :=
  if timeoutStr =?s "" then Some (10 * 1000000000) else (fun t => i64 (t * 1000000)) <$> ParseInt timeoutStr.

(** A request with the time it may take; [late]: the time is over before the handler is done.  The handler runs to its end all the same. *)
Definition serve (authHeader timeoutStr : string) (late : bool) (r : request) : B reply :=
  match deadline timeoutStr with
  | None => refuse id (NewErrBadRequest (OtherErr "timeout[%s] param parse to int failed, err: %s"))
  | Some _ => fun s =>
    match authorized authHeader r s with
    | (s', Ret res) => (s', Ret (if late then {| httpStatus := 504; Code := TIMEOUT; RequestId := id; Msg := "request timeout"; Data := None |} else res))
    | x => x
    end
  end.

(** ** What a request leaves alone *)

(** The store outside [K], the messages and the backups are as before. *)
Definition confined {A} (K : string -> Prop) (m : B A) : Prop := forall s,
  (forall k, ~ K k -> kv (nw (b_net (m s).1)) !! k = kv (nw (b_net s)) !! k) /\
  sent (b_net (m s).1) = sent (b_net s) /\ (m s).1 = on_net (b_net (m s).1) s.

Lemma on_net_same s : on_net (b_net s) s = s.
Proof. destruct s. reflexivity. Qed.

Lemma confined_ret {A} K (r : go A) : confined K (bret r).
Proof. intros s. by rewrite on_net_same. Qed.

Lemma confined_store {A} K (m : M A) : keeps_M K m -> confined K (store m).
Proof.
  intros Hm s. specialize (Hm (nw (b_net s))). unfold store, netB, lift. destruct (m (nw (b_net s))) as [w r]; cbn [fst] in *.
  split; [|done]. intros k Hk. exact (Hm k Hk).
Qed.

Lemma confined_or_reply {A} K (m : B A) f k : confined K m -> (forall a, confined K (k a)) -> confined K (or_reply id m f k).
Proof.
  intros Hm Hk s. destruct (Hm s) as (H1 & H2 & H3). unfold or_reply. destruct (m s) as [s' [a|e|p]]; cbn [fst] in *; [|done..].
  destruct (Hk a s') as (K1 & K2 & K3). split; [|split].
  - intros x Hx. by rewrite K1, H1.
  - congruence.
  - rewrite K3 at 1. generalize (b_net (k a s').1). intros n. by rewrite H3.
Qed.

Lemma confined_bound {A} K (body : option A) k : (forall a, confined K (k a)) -> confined K (bound id body k).
Proof. intros H. destruct body as [a|]; [apply H|apply confined_ret]. Qed.

#[local] Hint Resolve confined_ret confined_store confined_or_reply confined_bound : frames.

(** The keys a request without credentials may reach. *)
Definition open_key (k : string) : Prop := (exists pid, k = PartitionKey st pid) \/ k = RouterConfigKey st SlowSearchIsolationKey.

Lemma keeps_get_setting {A} `{Codec A} key (dflt : A) K : keeps_M K (get_setting fault key dflt).
Proof. unfold get_setting. auto with frames. Qed.

Lemma keeps_IsExistNode K node ip : keeps_M K (IsExistNode fault st node ip).
Proof. intros w k Hk. pose proof (keeps_Get K fault (ServerKey st node) w k Hk) as H. unfold IsExistNode. by destruct (Get _ _ _) as [w' [[v|]|e|p]]. Qed.

Lemma keeps_RegisterServer K ip node : keeps_M K (RegisterServer fault st ToInt64 decode_config ip node).
Proof. unfold RegisterServer, QuerySpacesByKey, QuerySpaceConfigsByKey. auto 10 with frames. Qed.

(** The routes that anybody may use. *)
Definition open_request (r : request) : bool :=
  match r with
  | ClusterInfo | Register _ _ _ | RegisterPartition_ _ | RegisterRouter _ _ | ModifySlowSearchIsolation _ | GetSlowSearchIsolation => true
  | _ => false
  end.

Lemma needs_auth_spec r : needs_auth r = negb (open_request r).
Proof.
  destruct r; try (vm_compute; reflexivity); unfold needs_auth; cbn [route_of].
  1-4: match goal with |- context [if ?n =?s "" then _ else _] => destruct (n =?s "") end; vm_compute; reflexivity.
  do 9 (destruct i as [|i]; [vm_compute; reflexivity|]). vm_compute. reflexivity.
Qed.

Lemma open_confined authHeader r : open_request r = true -> confined open_key (handle authHeader r).
Proof.
  destruct r; try done; intros _; cbn [handle];
    unfold handleClusterInfo, register, registerPartition, registerRouter, getSlowSearchIsolationCfg, modifySlowSearchIsolationCfg, done_with, refuse, service_RegisterPartition,
      GetSlowSearchIsolationCfg, ModifySlowSearchIsolationCfg; repeat case_match; auto using confined_ret.
  - apply confined_or_reply; [apply confined_store, keeps_IsExistNode|]. intros []. apply confined_or_reply; [apply confined_store, keeps_RegisterServer|]. auto with frames.
  - apply confined_bound. intros p. apply confined_or_reply; [|auto with frames]. apply confined_store, keeps_Put. left. by eexists.
  - apply confined_or_reply; [|auto with frames]. apply confined_store, keeps_Put. by right.
  - apply confined_or_reply; [|auto with frames]. apply confined_store, keeps_get_setting.
Qed.

(** ** Requests without credentials *)

Context (cluster_id : string) (Hst : st = SetPrefixAndSequence cluster_id initial_prefixes).
Context (users : gmap string User) (roles : gmap string Role).

Definition here (s : backups) : gmap string string := kv (nw (b_net s)).

Lemma account_keys_closed : (forall n, ~ open_key (UserKey st n)) /\ (forall n, ~ open_key (RoleKey st n)).
Proof.
  assert (object_ok (ORouterConfig SlowSearchIsolationKey)) as Hok by (by apply (bool_decide_unpack _); vm_compute).
  unfold open_key. rewrite Hst. split; intros n [[pid H]|H].
  - by apply (key_inj cluster_id (OUser n) (OPartition pid)) in H.
  - by apply (key_inj cluster_id (OUser n) (ORouterConfig _)) in H.
  - by apply (key_inj cluster_id (ORole n) (OPartition pid)) in H.
  - by apply (key_inj cluster_id (ORole n) (ORouterConfig _)) in H.
Qed.

Lemma accounts_kept t t' : (forall k, ~ open_key k -> t' !! k = t !! k) -> accounts st users roles t -> accounts st users roles t'.
Proof.
  destruct account_keys_closed as [Hu Hr]. intros Hk [H1 H2 H3 H4 H5]. split; [intros n; rewrite Hk by apply Hu; apply H1|intros n; rewrite Hk by apply Hr; apply H2|done..].
Qed.

(** A request that is not let through changes nothing; it is answered 401, or breaks down on an incomplete account. *)
Lemma turned_away authHeader r s : SkipAuth = false -> needs_auth r = true -> accounts st users roles (here s) ->
  ~ admitted users roles authHeader (route_of r).2 (route_of r).1 ->
  let x := authorized authHeader r s in
  here x.1 = here s /\ sent (b_net x.1) = sent (b_net s) /\ x.1 = on_net (b_net x.1) s /\
  ((exists e, x.2 = Ret (unauthorized e)) \/ (exists p, x.2 = Panic p) /\ incomplete users authHeader).
Proof.
  intros Hskip Hauth Hacc Hno. cbn zeta. unfold authorized. rewrite Hskip, Hauth. cbn [negb andb]. unfold or_reply, store, netB, lift.
  pose proof (middleware_decides fault st users roles authHeader (route_of r).2 (route_of r).1 (nw (b_net s)) Hacc) as [Hk Hd].
  destruct (BasicAuthMiddleware _ _ _ _ _ _) as [w [[]|e|p]]; cbn [fst snd] in *; [done|..]; (split; [done|]); (split; [done|]); (split; [done|]); eauto.
Qed.

(** A request as it comes in. *)
Record visit : Type := { v_header : string; v_timeout : string; v_late : bool; v_request : request }.
Definition serve_visit (v : visit) (s : backups) : backups := (serve (v_header v) (v_timeout v) (v_late v) (v_request v) s).1.
Definition outsider (v : visit) : Prop := ~ admitted users roles (v_header v) (route_of (v_request v)).2 (route_of (v_request v)).1.

Lemma visit_confined v s : SkipAuth = false -> accounts st users roles (here s) -> outsider v ->
  (forall k, ~ open_key k -> here (serve_visit v s) !! k = here s !! k) /\ sent (b_net (serve_visit v s)) = sent (b_net s) /\
  serve_visit v s = on_net (b_net (serve_visit v s)) s.
Proof.
  intros Hskip Hacc Hout. unfold serve_visit, serve. destruct (deadline (v_timeout v)); [|by rewrite on_net_same].
  assert ((forall k, ~ open_key k -> here (authorized (v_header v) (v_request v) s).1 !! k = here s !! k) /\
    sent (b_net (authorized (v_header v) (v_request v) s).1) = sent (b_net s) /\
    (authorized (v_header v) (v_request v) s).1 = on_net (b_net (authorized (v_header v) (v_request v) s).1) s) as H.
  { destruct (needs_auth (v_request v)) eqn:Ea.
    - destruct (turned_away (v_header v) (v_request v) s Hskip Ea Hacc Hout) as (Hk & Hs & Hn & _). split; [|done]. intros k _. by rewrite Hk.
    - unfold authorized. rewrite Ea. cbn [andb]. apply open_confined. rewrite needs_auth_spec in Ea. by apply negb_false_iff in Ea. }
  by destruct (authorized (v_header v) (v_request v) s) as [s' [?|?|?]].
Qed.

(** Whoever has no account that the role allows in, however many requests he sends and whatever fails meanwhile: nothing is sent to a partition
    server, no backup is touched, and the store changes at most in the records of partitions and in the setting of the isolation
    of slow searches, the only state that unauthenticated routes write.  In particular no such request creates, changes or
    removes a user, a role, a database or a space.  (C18) *)
Theorem outsiders_confined (vs : list visit) (s : backups) :
  SkipAuth = false -> accounts st users roles (here s) -> Forall outsider vs ->
  let s' := foldl (fun s v => serve_visit v s) s vs in
  (forall k, ~ open_key k -> here s' !! k = here s !! k) /\ sent (b_net s') = sent (b_net s) /\ s' = on_net (b_net s') s /\
  accounts st users roles (here s').
Proof.
  intros Hskip Hacc Hout. cbn zeta. revert s Hacc. induction Hout as [|v vs Hv _ IH]; intros s Hacc; cbn [foldl]; [by rewrite on_net_same|].
  destruct (visit_confined v s Hskip Hacc Hv) as (Hk & Hs & Hn).
  destruct (IH (serve_visit v s) (accounts_kept _ _ Hk Hacc)) as (Hk' & Hs' & Hn' & Hacc'). split; [|split; [|split]].
  - intros k H. by rewrite Hk', Hk.
  - congruence.
  - rewrite Hn' at 1. generalize (b_net (foldl (fun s v => serve_visit v s) (serve_visit v s) vs)). intros n. by rewrite Hn.
  - done.
Qed.

(** ** Changing one's own role *)

(** The request of a user to be root. *)
Definition promotion (name : string) : User := {| User_Name := name; Password := None; OldPassword := None; RoleName := Some RootName |}.
Definition promoted (name : string) (user : User) : User :=
  {| User_Name := name; Password := Password user; OldPassword := None; RoleName := Some RootName |}.

Lemma root_role : RoleMap_lookup RootName = Some RootRole.
Proof. by vm_compute. Qed.

Lemma accounts_update t name user : (forall u : User, Encodable u) -> accounts st users roles t ->
  accounts st (<[name := user]> users) roles (<[UserKey st name := Marshal user]> t).
Proof.
  intros Henc [H1 H2 H3 H4 H5]. rewrite Hst in *. split; [..|done|eauto|done].
  - intros n. pose proof (at_insert cluster_id t (OUser name) (OUser n) (Marshal user) I I) as E. cbn [key_of] in E. rewrite E.
    case_decide as En; [injection En as ->; by rewrite lookup_insert_eq|]. rewrite lookup_insert_ne by congruence. apply H1.
  - intros n. rewrite <- H2. exact (at_insert cluster_id t (OUser name) (ORole n) (Marshal user) I I).
Qed.

(** [UpdateUser] on a request for the role root, when the store does not fail. *)
Lemma UpdateUser_promotes name user auth w : (forall k, fault k = None) -> accounts st users roles (kv w) -> users !! name = Some user -> Password user <> None ->
  exists c, UpdateUser fault st (promotion name) auth w = ({| kv := <[UserKey st name := Marshal (promoted name user)]> (kv w); calls := c |}, Ret tt).
Proof.
  intros Hf Ht Hu Hpw. unfold UpdateUser, mbind_M at 1, Get, call. rewrite Hf. cbn [User_Name promotion kv]. rewrite (ac_users _ _ _ _ Ht), Hu. cbn [fmap option_fmap option_map decode_object].
  rewrite Unmarshal_Marshal, mbind_ret by by eapply ac_user_json. cbn [promotion RoleName Password OldPassword Accounts.is_nil negb orb guard_err].
  rewrite mbind_ret. unfold QueryRole. rewrite root_role, mbind_ret, mbind_ret. unfold with_lock, Lock, Unlock, drop_error, STM, call, mbind_M, put_key. rewrite !Hf. cbn [kv calls fst snd].
  eexists. unfold merge_user, promoted. cbn. destruct (Password user); [|done]. reflexivity.
Qed.

(** An account whose role has an entry for users, of whatever privilege, can make itself root: the request that changes the role of a user does not
    check which role is asked for, as the creation of a user does, and the account is let through for every
    request afterwards.  (C36) *)
Theorem account_makes_itself_root (authHeader : string) (name password : string) (role : Role) (s : backups) :
  (forall k, fault k = None) -> (forall u : User, Encodable u) -> SkipAuth = false -> accounts st users roles (here s) ->
  credentials authHeader = Ret (name, password) -> account_of users roles authHeader role -> is_Some (Role_Privileges role !! ResourceUser) ->
  exists s' res users', serve authHeader "" false (UpdateUser_ (Some (promotion name))) s = (s', Ret res) /\ httpStatus res = 200 /\
    accounts st users' roles (here s') /\ account_of users' roles authHeader RootRole /\
    forall endpoint method, admitted users' roles authHeader endpoint method.
Proof.
  intros Hf Henc Hskip Ht Hc Hacc Hp.
  destruct Hacc as (n & pw & user & rn & Hc' & Hu & Hpw & Hrn & Hrole). rewrite Hc in Hc'. injection Hc' as <- <-.
  assert (admitted users roles authHeader "/users" "PUT") as Hadm.
  { exists role. split; [by exists name, password, user, rn|]. by right. }
  unfold serve. change (deadline "") with (Some (10 * 1000000000)). cbv beta iota. unfold authorized. rewrite needs_auth_spec. cbn [open_request negb andb]. rewrite Hskip. cbn [negb andb route_of fst snd].
  unfold or_reply at 1, store at 1, netB at 1, lift at 1.
  destruct (middleware_decides fault st users roles authHeader "/users" "PUT" (nw (b_net s)) Ht) as [Hk Hd].
  destruct (BasicAuthMiddleware fault st authHeader "/users" "PUT" (nw (b_net s))) as [w [[]|e|p]]; cbn [fst snd] in *; [|by destruct (Hd Hf)|].
  2: { exfalso. destruct Hd as (n & pw & u & Hc2 & Hu2 & [?|?]); rewrite Hc in Hc2; simplify_eq. }
  cbn [handle]. unfold updateUser, bound, or_reply, bret. rewrite Hskip, Hc. cbn [obind fst snd].
  assert (accounts st users roles (kv w)) as Ht' by by rewrite Hk.
  destruct (UpdateUser_promotes name user name w Hf Ht' Hu ltac:(by rewrite Hpw)) as [c Hup].
  unfold store, netB, lift. cbn [b_net on_net put_b nw sent]. rewrite Hup. cbn [done_with bret]. unfold done_with, bret.
  eexists _, _, (<[name := promoted name user]> users). split; [reflexivity|]. split; [done|]. split; [by apply accounts_update|].
  assert (account_of (<[name := promoted name user]> users) roles authHeader RootRole) as Hroot.
  { exists name, password, (promoted name user), RootName. rewrite lookup_insert_eq. unfold role_named. by rewrite root_role. }
  split; [done|]. intros endpoint method. exists RootRole. split; [done|]. by left.
Qed.
End Handlers.

(** ** The services of the master *)

Section Master.
Context (fault : nat -> option (error * bool)) (answer : nat -> message -> go unit) (live : string -> bool)
        (sched : list (Partition * list string) -> list (Partition * list string)) (psched : list Partition -> list Partition)
        (st : Prefixes) (wide : Z -> bool) (ToInt64E ToTimeE : string -> option Z).
Context (unmarshal_fields : string -> go (list Field)) (marshal_fields : list Field -> string) (unmarshal_array : string -> go (list json))
        (decode_field : json -> go field_tmp) (unmarshal_objects : string -> go (list jobject)) (marshal_objects : list jobject -> string)
        (ord : gmap string jobject -> list (string * jobject)) (pord : gmap string SpaceProperties -> list (string * SpaceProperties)).
Context (sort : forall A, (A -> A -> bool) -> list A -> list A) (antiAffinityStrategy : Z) (order : gmap nat Z -> list (nat * Z)).
Context (registered : nat -> list Partition) (patience : nat) (arrived : nat -> bool) (ConfAddNode ConfRemoveNode : Z).
Context `{HDB : !Codec DB, HSpace : !Codec Space, HPartition : !Codec Partition, HServer : !Codec Server, HFail : !Codec FailServer,
          HConfig : !Codec SpaceConfig, HMem : !Codec MemoryLimitCfg}.
Context (engine_cfg : string -> Z -> go SpaceConfig) (reachable : nat -> string -> bool) (dispatch_order : list nat -> list nat).
Context (cluster : string) (connect : string -> bool) (put_object : string -> string -> go unit) (get_object : string -> go string)
        (list_objects : string -> list (option string)) (now uuid : string).

Definition resources : Space -> update_request -> N Space :=
  handleResourceUpdate fault answer live sched st wide ToInt64E ToTimeE sort antiAffinityStrategy order registered patience arrived.

Definition master_services : Services := {|
  s_CreateSpace dbName space :=
    CreateSpace fault answer live sched st wide ToInt64E ToTimeE unmarshal_fields unmarshal_array decode_field pord sort antiAffinityStrategy order registered patience
      dbName space false;
  s_DeleteSpace := DeleteSpace fault answer st ToInt64E;
  s_UpdateSpace dbName spaceName req :=
    UpdateSpace wide fault answer live psched st ToInt64E unmarshal_fields unmarshal_objects marshal_objects ord pord resources dbName spaceName req "";
  s_AddIndexes := AddIndexes fault answer live psched st ToInt64E unmarshal_fields;
  s_RemoveIndex := RemoveIndex fault answer live psched st ToInt64E unmarshal_fields marshal_fields;
  s_SpaceSnapshot :=
    SpaceSnapshot fault answer live sched st wide ToInt64E ToTimeE unmarshal_fields unmarshal_array decode_field pord sort antiAffinityStrategy order registered patience
      engine_cfg reachable dispatch_order cluster connect put_object get_object list_objects now uuid;
  s_DeleteBackupVersion := service_DeleteBackupVersion fault answer st ToInt64E;
  s_ChangeMember :=
    change_member wide fault answer live psched st ToInt64E unmarshal_fields unmarshal_objects marshal_objects ord pord ConfAddNode ConfRemoveNode resources;
  s_ChangeMembers :=
    ChangeMembers wide fault answer live psched st ToInt64E unmarshal_fields unmarshal_objects marshal_objects ord pord ConfAddNode ConfRemoveNode resources;
  s_ChangeReplica :=
    ChangeReplica wide fault answer live psched st ToInt64E unmarshal_fields unmarshal_objects marshal_objects ord pord ConfAddNode ConfRemoveNode sort resources;
  s_RecoverFailServer :=
    RecoverFailServer wide fault answer live psched st ToInt64E unmarshal_fields unmarshal_objects marshal_objects ord pord ConfAddNode ConfRemoveNode resources;
  s_ResourceLimit := ResourceLimitService fault answer st ToInt64E;
  s_ModifySpaceConfig := ModifySpaceConfig fault answer st ToInt64E;
  s_ModifyMemoryLimitCfg := ModifyMemoryLimitCfg fault answer st
|}.
End Master.

(** ** Batches *)

Lemma batches_spec {A} fuel n (l : list A) : (0 < n)%nat -> (length l <= fuel)%nat ->
  concat (batches fuel n l) = l /\ Forall (fun b => (0 < length b <= n)%nat) (batches fuel n l).
Proof.
  intros Hn. revert l. induction fuel as [|fuel IH]; intros l Hl; [destruct l; [done|cbn in Hl; lia]|].
  destruct l as [|x l]; [done|]. cbn [batches]. destruct (IH (drop n (x :: l))) as [H1 H2]; [rewrite length_drop; cbn in *; lia|].
  cbn [concat]. rewrite H1, take_drop. split; [done|]. constructor; [|done]. rewrite length_take. cbn [length]. lia.
Qed.

(** Deleting a backup directly: the removal of each object the listing shows is asked for once, in batches of at most a thousand; the
    request succeeds, with their number, exactly if the listing is complete and every object could be removed. *)
Lemma deleteS3Directory_exact list_objects stuck prefix :
  let '(asked, r) := deleteS3Directory list_objects stuck prefix in
  (r = inl (length (concat asked)) /\ map Some (concat asked) = list_objects prefix true /\ Forall (fun o => stuck o = false) (concat asked) /\
     Forall (fun b => (0 < length b <= 1000)%nat) asked) \/
  (exists e, r = inr e) /\ (None ∈ list_objects prefix true /\ asked = [] \/
     map Some (concat asked) = list_objects prefix true /\ Exists (fun o => stuck o = true) (concat asked)).
Proof.
  unfold deleteS3Directory. destruct (forallb _ _) eqn:Ef.
  2: { right. split; [by eexists|]. left. split; [|done]. apply not_true_iff_false in Ef. apply dec_stable. intros Hn. apply Ef, forallb_forall.
       intros [o|] Ho; [done|]. by apply list_elem_of_In in Ho. }
  assert (map Some (omap id (list_objects prefix true)) = list_objects prefix true) as Hmap.
  { revert Ef. induction (list_objects prefix true) as [|[o|] l IH]; cbn; [done| |done]. intros ?. by rewrite IH. }
  destruct (length (omap id (list_objects prefix true)) =? 0)%nat eqn:El.
  { apply Nat.eqb_eq, length_zero_iff_nil in El. left. rewrite El in Hmap. by rewrite <- Hmap. }
  destruct (batches_spec (length (omap id (list_objects prefix true))) 1000 (omap id (list_objects prefix true)) ltac:(lia) ltac:(lia)) as [Hc Hb].
  rewrite concat_filter_map, Hc. destruct (0 <? length (List.filter stuck (omap id (list_objects prefix true))))%nat eqn:Es.
  - right. split; [by eexists|]. right. split; [done|]. apply Nat.ltb_lt in Es.
    destruct (List.filter stuck _) as [|o l] eqn:Eo; [cbn in Es; lia|]. assert (In o (List.filter stuck (omap id (list_objects prefix true)))) as Hin by (rewrite Eo; by left).
    apply filter_In in Hin as [Hin Ho]. apply Exists_exists. exists o. by rewrite list_elem_of_In.
  - left. split; [done|]. split; [done|]. split; [|done]. apply Nat.ltb_ge in Es. apply Forall_forall. intros o Ho.
    destruct (stuck o) eqn:E; [|done]. assert (In o (List.filter stuck (omap id (list_objects prefix true)))) as Hin by (apply filter_In; by rewrite <- list_elem_of_In).
    destruct (List.filter stuck _); [done|cbn in Es; lia].
Qed.

(** ** Concrete runs *)

(** A user who administers the cluster. *)
Definition demo_admin : User := demo_user (Some "pw1"%string) None (Some "defaultClusterAdmin"%string).
Definition demo_accounts : gmap string User := {[ "ann"%string := demo_admin ]}.
Definition demo_header : string := AuthEncrypt "ann" "pw1".
Definition demo_api : backups := idle {| nw := {| kv := {[ UserKey demo_st "ann" := Marshal (Codec := countable_codec) demo_admin ]}; calls := 0 |}; sent := [] |}.

Lemma demo_accounts_stored : accounts (HRole := opaque_codec Role) (HUser := countable_codec) demo_st demo_accounts ∅ (here demo_api).
Proof.
  change (here demo_api) with ({[ UserKey demo_st "ann" := Marshal (Codec := countable_codec) demo_admin ]} : gmap string string). split; [| |done..].
  - intros n. unfold demo_accounts. destruct (decide (n = "ann"%string)) as [->|Hne]; [by rewrite !lookup_singleton_eq|].
    rewrite !lookup_singleton_ne; [done|congruence|]. intros E. by apply (key_inj "c1" (OUser _) (OUser _)) in E; [congruence|..].
  - intros n. rewrite lookup_empty. apply lookup_singleton_ne. intros E. by apply (key_inj "c1" (OUser _) (ORole _)) in E.
Qed.

Definition demo_services : Services :=
  master_services (HDB := one_codec demo_db) (HSpace := one_codec demo_two) (HPartition := one_codec (demo_partition 1)) (HServer := one_codec demo_server)
    (HFail := one_codec demo_down) (HConfig := one_codec (plain_config None None)) (HMem := one_codec default_memory)
    no_fault (fun _ _ => Ret tt) (fun _ => true) id id demo_st (fun _ => false) ParseInt ParseInt demo_schema (fun _ => ""%string) (fun _ => Ret []) demo_decode
    demo_objects (fun _ => "new"%string) demo_order demo_order (@insertion_sort) 0 map_to_list (fun _ => [demo_partition 1]) 3 (fun _ => true) 0 1
    (fun _ _ => Ret (plain_config None None)) (fun _ _ => true) id "c1" (fun _ => true) (fun _ _ => Ret tt) (fun _ => Ret "{}"%string) demo_listing "v1" "u1".

Lemma outsiders_confined_witness :
  let v := {| v_header := AuthEncrypt "ann" "guess"; v_timeout := ""; v_late := false; v_request := DeleteUser_ "ann" |} in
  ~ admitted demo_accounts ∅ (v_header v) "/users/:user_name" "DELETE" /\
  exists s', s' = foldl (fun s v => serve_visit (HDB := one_codec demo_db) (HSpace := one_codec demo_two) (HPartition := one_codec (demo_partition 1))
      (HServer := one_codec demo_server) (HFail := one_codec demo_down) (HConfig := one_codec (plain_config None None)) (HReq := one_codec default_request)
      (HMem := one_codec default_memory) (HSlow := one_codec true) (HAlias := opaque_codec Alias) (HRole := opaque_codec Role) (HUser := countable_codec)
      no_fault (fun _ _ => Ret tt) demo_st (fun _ => false) ParseInt "c1" false false false 0 (fun _ => true) 0 1 demo_ToInt64 demo_decode_config
      (fun _ _ => Ret (plain_config None None)) (fun r => map_to_list (Role_Privileges r)) (fun _ => true) id id (fun p _ => demo_listing p) (fun _ => false)
      demo_services (fun _ _ => refuse "" (NewErrInternal (OtherErr ""))) "" v s) demo_api [v] /\
    here s' !! UserKey demo_st "ann" = here demo_api !! UserKey demo_st "ann".
Proof.
  intros v. assert (~ admitted demo_accounts ∅ (v_header v) "/users/:user_name" "DELETE") as Hno.
  { intros (role & (n & pw & u & rn & Hc & Hu & Hpw & _) & _).
    assert (credentials (v_header v) = Ret ("ann"%string, "guess"%string)) as Hc' by (vm_compute; reflexivity). rewrite Hc' in Hc. injection Hc as <- <-.
    unfold demo_accounts in Hu. rewrite lookup_singleton_eq in Hu. injection Hu as <-. discriminate Hpw. }
  split; [exact Hno|]. eexists. split; [reflexivity|].
  refine (proj1 (outsiders_confined _ _ _ _ _ _ _ _ _ _ _ _ _ _ _ _ _ _ _ _ _ _ _ _ _ "c1" eq_refl demo_accounts ∅ [v] demo_api eq_refl demo_accounts_stored
    (Forall_cons_2 (outsider demo_accounts ∅) v [] Hno (Forall_nil_2 _))) _ _).
  apply (proj1 (account_keys_closed demo_st "c1" eq_refl)).
Defined.

Lemma account_makes_itself_root_witness :
  exists s' res, serve (HDB := one_codec demo_db) (HSpace := one_codec demo_two) (HPartition := one_codec (demo_partition 1))
      (HServer := one_codec demo_server) (HFail := one_codec demo_down) (HConfig := one_codec (plain_config None None)) (HReq := one_codec default_request)
      (HMem := one_codec default_memory) (HSlow := one_codec true) (HAlias := opaque_codec Alias) (HRole := opaque_codec Role) (HUser := countable_codec)
      no_fault (fun _ _ => Ret tt) demo_st (fun _ => false) ParseInt "c1" false false false 0 (fun _ => true) 0 1 demo_ToInt64 demo_decode_config
      (fun _ _ => Ret (plain_config None None)) (fun r => map_to_list (Role_Privileges r)) (fun _ => true) id id (fun p _ => demo_listing p) (fun _ => false)
      demo_services (fun _ _ => refuse "" (NewErrInternal (OtherErr ""))) "" demo_header "" false (UpdateUser_ (Some (promotion "ann"))) demo_api = (s', Ret res) /\
    httpStatus res = 200 /\ ~ admitted demo_accounts ∅ demo_header "/clean_lock" "GET".
Proof.
  assert (credentials demo_header = Ret ("ann"%string, "pw1"%string)) as Hc by (vm_compute; reflexivity).
  assert (account_of demo_accounts ∅ demo_header ClusterAdminRole) as Ha.
  { exists "ann"%string, "pw1"%string, demo_admin, "defaultClusterAdmin"%string. unfold demo_accounts. rewrite lookup_singleton_eq. repeat split; vm_compute; reflexivity. }
  destruct (account_makes_itself_root (HDB := one_codec demo_db) (HSpace := one_codec demo_two) (HPartition := one_codec (demo_partition 1))
      (HServer := one_codec demo_server) (HFail := one_codec demo_down) (HConfig := one_codec (plain_config None None)) (HReq := one_codec default_request)
      (HMem := one_codec default_memory) (HSlow := one_codec true) (HAlias := opaque_codec Alias) (HRole := opaque_codec Role) (HUser := countable_codec)
      no_fault (fun _ _ => Ret tt) demo_st (fun _ => false) ParseInt "c1" false false false 0 (fun _ => true) 0 1 demo_ToInt64 demo_decode_config
      (fun _ _ => Ret (plain_config None None)) (fun r => map_to_list (Role_Privileges r)) (fun _ => true) id id (fun p _ => demo_listing p) (fun _ => false)
      demo_services (fun _ _ => refuse "" (NewErrInternal (OtherErr ""))) "" "c1" eq_refl demo_accounts ∅ demo_header "ann" "pw1" ClusterAdminRole demo_api
      (fun _ => eq_refl) (fun _ => I) eq_refl demo_accounts_stored Hc Ha ltac:(vm_compute; by eexists)) as (s' & res & users' & Hrun & Hs & _).
  exists s', res. split; [exact Hrun|]. split; [exact Hs|].
  intros (role & (n & pw & u & rn & Hc' & Hu & _ & Hrn & Hrole) & Hp). rewrite Hc in Hc'. injection Hc' as <- <-.
  unfold demo_accounts in Hu. rewrite lookup_singleton_eq in Hu. injection Hu as <-. injection Hrn as <-.
  assert (role = ClusterAdminRole) as -> by (assert (role_named ∅ "defaultClusterAdmin" = Some ClusterAdminRole) as E by (vm_compute; reflexivity); congruence).
  revert Hp. vm_compute. intros [Hp|[v Hp]]; discriminate Hp.
Defined.
