(* ===== verification/Shards.v ===== *)
(** * Backups on the partition servers (internal/ps/backup/ps_backup_service.go)

    [PSShardManager]: the files of a partition are uploaded to the object store, with the list of them in a metadata object and a count of the
    references to each content (RefCount.v), and downloaded again on a restore; the state of each task is kept for the master to ask for.

    [disk] holds the local files ([None] is a directory), [s3] the object store.  The tables of the reference counts, further objects of the
    same store, are in [counts].  Failures belong to what is called and not to the order of calls: the [n]-th call for an object fails when
    [down object n], an operation of the local file system when [fs_fails] of it.  There is a goroutine per file.  Each works on an object and a local file of its own, and on the
    reference counts under their lock only; so their calls may interleave as they like, and running them one as a whole after the other, in any order
    [sched], loses no outcome of a full backup or of a restore.  (In an incremental backup two files of equal content may be uploaded both, where here
    the second reuses the object of the first.)  A call that waits for a lock for ever has no result. *)

From S2P Require Import Prelude.
From S2P Require Import Text.
From S2P Require Import Errors.
From S2P Require Import Keys.
From S2P Require Import Store.
From S2P Require Import Databases.
From S2P Require Import Cache.
From S2P Require Import Paths.
From S2P Require RefCount.
Import RefCount (FileRefCount, RefCountManager).
Open Scope Z_scope.

(** ** Checksums

    [crc32.NewIEEE] and the format [%08x]. *)

Fixpoint crc_shift (n : nat) (c : Z) : Z :=
  match n with
  | O => c
  | S n' => crc_shift n' (if Z.testbit c 0 then Z.lxor (Z.shiftr c 1) 0xEDB88320 else Z.shiftr c 1)
  end.
Definition crc_byte (c b : Z) : Z := crc_shift 8 (Z.lxor c b).
Definition crc32_ieee (content : string) : Z := Z.lxor (foldl crc_byte 0xFFFFFFFF (bytes_of content)) 0xFFFFFFFF.

Definition hex_digit (d : Z) : string := String.substring (Z.to_nat d) 1 "0123456789abcdef".
Fixpoint hex (digits : nat) (z : Z) : string :=
  match digits with O => "" | S n => hex n (z / 16) +:+ hex_digit (z mod 16) end.
Definition calcFileCRC32 (content : string) : string := hex 8 (crc32_ieee content).

Example crc32_check : calcFileCRC32 "123456789" = "cbf43926"%string.
Proof. vm_compute. reflexivity. Qed.

(** ** Data *)

Record FileMeta : Set := { FM_FilePath : string; FM_FileName : string; FM_CRC32 : string; FM_Size : Z; FM_S3Path : string; FM_LocalPath : string; FM_UploadStatus : string }.
Record PartitionBackupMeta : Set := {
  PM_PartitionID : Z; PM_BackupID : string; PM_VersionID : string; PM_SpaceKey : string; PM_Files : list FileMeta; PM_TotalFiles : Z; PM_TotalSize : Z;
  PM_CompletedAt : bool
}.

Inductive SnapshotStatus : Set := SnapshotStatusRunning | SnapshotStatusCompleted | SnapshotStatusFailed.
#[export] Instance snapshot_status_eq_dec : EqDecision SnapshotStatus.
Proof. solve_decision. Defined.
Definition status_code (x : SnapshotStatus) : Z :=
  match x with SnapshotStatusRunning => 0 | SnapshotStatusCompleted => 1 | SnapshotStatusFailed => 2 end.

Record SnapshotTask : Set := {
  T_PartitionID : Z; T_s3PartitionID : Z; T_status : SnapshotStatus; T_spaceKey : string; T_backupID : string; T_versionID : string; T_backupType : string;
  T_sourceClusterName : string; T_errorMessage : string
}.
Definition set_T_end (status : SnapshotStatus) (msg : string) (t : SnapshotTask) : SnapshotTask :=
  {| T_PartitionID := T_PartitionID t; T_s3PartitionID := T_s3PartitionID t; T_status := status; T_spaceKey := T_spaceKey t; T_backupID := T_backupID t;
     T_versionID := T_versionID t; T_backupType := T_backupType t; T_sourceClusterName := T_sourceClusterName t; T_errorMessage := msg |}.

Record shard : Type := {
  disk : gmap string (option string);
  s3 : gmap string string;
  counts : gmap string (gmap string FileRefCount);
  mgrs : gmap string RefCountManager;     (** [refCountMgrs] *)
  heap : list SnapshotTask;               (** the tasks, which [taskStatus] refers to *)
  taskStatus : gmap string nat;
  tries : gmap string nat                 (** calls of the store for each object so far *)
}.
Definition put_shard (d : gmap string (option string)) (o : gmap string string) (c : gmap string (gmap string FileRefCount)) (m : gmap string RefCountManager)
    (h : list SnapshotTask) (n : gmap string nat) (s : shard) : shard :=
  {| disk := d; s3 := o; counts := c; mgrs := m; heap := h; taskStatus := taskStatus s; tries := n |}.
Definition on_disk (f : gmap string (option string) -> gmap string (option string)) (s : shard) : shard :=
  put_shard (f (disk s)) (s3 s) (counts s) (mgrs s) (heap s) (tries s) s.
Definition on_objects (f : gmap string string -> gmap string string) (s : shard) : shard :=
  put_shard (disk s) (f (s3 s)) (counts s) (mgrs s) (heap s) (tries s) s.
Definition on_counts (f : gmap string (gmap string FileRefCount) -> gmap string (gmap string FileRefCount)) (s : shard) : shard :=
  put_shard (disk s) (s3 s) (f (counts s)) (mgrs s) (heap s) (tries s) s.
Definition on_mgrs (f : gmap string RefCountManager -> gmap string RefCountManager) (s : shard) : shard :=
  put_shard (disk s) (s3 s) (counts s) (f (mgrs s)) (heap s) (tries s) s.
Definition on_tasks (f : list SnapshotTask -> list SnapshotTask) (s : shard) : shard :=
  put_shard (disk s) (s3 s) (counts s) (mgrs s) (f (heap s)) (tries s) s.
Definition calls (n : gmap string nat) (object : string) : nat := default 0%nat (n !! object).
Definition tried (object : string) (s : shard) : shard :=
  put_shard (disk s) (s3 s) (counts s) (mgrs s) (heap s) (<[object := S (calls (tries s) object)]> (tries s)) s.

(** Operations of the local file system, and what fails: a removal that fails may leave a part. *)
Inductive fsop : Set := OpWalk (dir : string) | OpOpen (file : string) | OpStat (file : string) | OpTemp (for_object : string) | OpMkdir (dir : string) | OpRemove (dir : string).
Record faults : Type := { down : string -> nat -> bool; fs_fails : fsop -> bool; fs_left : string -> string -> bool }.

(** A computation of the manager; no result when it waits for a lock for ever. *)
Definition H (A : Type) : Type := shard -> option (shard * go A).
Definition hret {A} (r : go A) : H A := fun s => Some (s, r).
Definition hbind {A B} (m : H A) (k : A -> H B) : H B := fun s =>
  match m s with
  | Some (s', Ret a) => k a s'
  | Some (s', Fail e) => Some (s', Fail e)
  | Some (s', Panic p) => Some (s', Panic p)
  | None => None
  end.
Definition hstep (f : shard -> shard) : H unit := fun s => Some (f s, Ret tt).
Notation "'act!' x <- m 'in' k" := (hbind m (fun x => k)) (at level 200, x pattern, m at level 100, k at level 200) : go_scope.
Notation "'act_!' m 'in' k" := (hbind m (fun _ => k)) (at level 200, m at level 100, k at level 200) : go_scope.

(** The error of a call as a value. *)
Definition hcatch {A} (m : H A) : H (option A) := fun s =>
  match m s with
  | Some (s', Ret a) => Some (s', Ret (Some a))
  | Some (s', Fail _) => Some (s', Ret None)
  | Some (s', Panic p) => Some (s', Panic p)
  | None => None
  end.
Definition hfold {A B} (f : B -> A -> H B) : B -> list A -> H B :=
  fix go b xs := match xs with [] => hret (Ret b) | x :: xs' => act! b' <- f b x in go b' xs' end.

(** ** Paths *)

(** [strings.Split(spaceKey, "-")] with its first two parts. *)
Definition BuildObjectPath (clusterName : string) (parts : list string) : string := Join (clusterName :: filter (fun x => x <> ""%string) parts).
Definition BuildBackupPath (clusterName spaceKey versionID : string) (pid : Z) : go string :=
  let parts := RefCount.split_dash spaceKey "" in
  let! dbName := index_at parts 0 in
  let! spaceName := index_at parts 1 in
  Ret (BuildObjectPath clusterName ["backup"; dbName; spaceName; versionID +:+ "/" +:+ pretty pid]%string).

Definition getTaskKey (spaceKey backupID : string) (partitionID : Z) : string := spaceKey +:+ "_" +:+ backupID +:+ "_" +:+ pretty partitionID.

Section Manager.
Context (F : faults) (sched : list string -> list string) (dsched : list FileMeta -> list FileMeta) (now : Z).
Context `{HMeta : !Codec PartitionBackupMeta}.
(** [config.Conf().Global.Name], and [s.clusterName] and [s.bucketName] of the manager. *)
Context (cluster clusterName bucketName : string).

(** ** The object store *)

Definition is_down (object : string) (s : shard) : bool := down F object (calls (tries s) object).
Definition FPutObject (path content : string) : H unit := fun s =>
  if is_down path s then Some (tried path s, Fail (OtherErr "failed to upload file to S3: %v")) else Some (on_objects (<[path := content]>) (tried path s), Ret tt).
Definition FGetObject (path : string) : H string := fun s =>
  if is_down path s then Some (tried path s, Fail (OtherErr "failed to download file %s from S3: %v"))
  else match s3 s !! path with
       | Some c => Some (tried path s, Ret c)
       | None => Some (tried path s, Fail (OtherErr "The specified key does not exist."))
       end.
(** An operation of the local file system: it fails, or has its effect. *)
Definition local (op : fsop) : H unit := hret (if fs_fails F op then Fail (OtherErr "input/output error") else Ret tt).

(** The call, and as many more as are allowed while it fails. *)
Fixpoint attempts {A} (more : nat) (operation : H A) : H A := fun s =>
  match operation s with
  | Some (s', Fail e) => match more with O => Some (s', Fail (OtherErr "operation failed after %d attempts: %v")) | S more' => attempts more' operation s' end
  | x => x
  end.
Definition maxRetries : nat := 3.
Definition retryOperation {A} (operation : H A) : H A := attempts maxRetries operation.

(** ** Reference counts *)

(** The table of a new manager; a failure to read it is only logged. *)
Definition LoadFromS3 (metadataPath : string) : H (gmap string FileRefCount) :=
  act! t <- hcatch (retryOperation (fun s => Some (tried metadataPath s, if is_down metadataPath s then Fail (OtherErr "failed to get reference count metadata from S3: %v")
                                                            else Ret (default ∅ (counts s !! metadataPath))))) in
  hret (Ret (default ∅ t)).

Definition manager_cluster : string :=
  if negb (clusterName =?s "") then clusterName else if negb (cluster =?s "") then cluster else "default-cluster".
Definition metadata_path (spaceKey : string) : string := Join (RefCount.buildMetadataPath manager_cluster spaceKey).

Definition getOrCreateRefCountManager (spaceKey : string) : H RefCountManager := fun s =>
  match mgrs s !! spaceKey with
  | Some rcm => Some (s, Ret rcm)
  | None =>
    if bucketName =?s "" then Some (s, Fail (OtherErr "bucketName is required but not set in PSShardManager"))
    else (act! t <- LoadFromS3 (metadata_path spaceKey) in
          let rcm := RefCount.set_map t RefCount.empty_manager in
          act_! hstep (on_mgrs (<[spaceKey := rcm]>)) in
          hret (Ret rcm)) s
  end.

(** A method of the manager of the space; the table it uploads, if it does, reaches the store. *)
Definition nothing_uploaded (m : RefCountManager) : RefCountManager :=
  {| RefCount.locked := RefCount.locked m; RefCount.refCountMap := RefCount.refCountMap m; RefCount.metadata := None; RefCount.removed := RefCount.removed m |}.
Definition with_manager (spaceKey : string) (method : option error -> RefCountManager -> RefCount.run) : H unit := fun s =>
  match mgrs s !! spaceKey with
  | None => Some (s, Panic NilDeref)
  | Some rcm =>
    match attempts maxRetries (fun s => Some (tried (metadata_path spaceKey) s,
            if is_down (metadata_path spaceKey) s then Fail (OtherErr "failed to upload reference count metadata to S3: %v") else Ret tt)) s with
    | None => None
    | Some (s', r) =>
      match method (match r with Fail e => Some e | _ => None end) (nothing_uploaded rcm) with
      | RefCount.Blocked => None
      | RefCount.Returned rcm' err =>
        let s' := on_mgrs (<[spaceKey := rcm']>) s' in
        let s' := match RefCount.metadata rcm' with Some t => on_counts (<[metadata_path spaceKey := t]>) s' | None => s' end in
        Some (s', match err with Some e => Fail e | None => Ret tt end)
      end
    end
  end.

Definition add_reference (spaceKey crc path versionID : string) (size : Z) : H unit :=
  with_manager spaceKey (fun upload => RefCount.AddReference (RefCount.saveToS3Impl upload) now crc path versionID size).

(** ** Uploading a partition *)

Definition below (dir path : string) : bool := (path =?s dir) || HasPrefix path (dir +:+ "/").

(** The files below a directory, without the lock file. *)
Definition WalkDir (root : string) : H (list string) := act_! local (OpWalk root) in fun s =>
  Some (s, match disk s !! root with
           | None => Fail (OtherErr "no such file or directory")
           | Some _ => Ret (omap (fun x => match x.2 with
                                            | Some _ => if below root x.1 && negb (Base x.1 =?s "LOCK") then Some x.1 else None
                                            | None => None
                                            end) (map_to_list (disk s)))
           end).

(** One file of a partition: the content that is stored already is not uploaded again in an incremental backup. *)
Definition backup_file (spaceKey versionID backupType s3Path filePath : string) : H FileMeta :=
  act_! local (OpOpen filePath) in act_! local (OpStat filePath) in fun s =>
  match disk s !! filePath with
  | Some (Some content) =>
    let fileCRC32 := calcFileCRC32 content in
    let fileSize := Z.of_nat (String.length content) in
    let meta path status := {| FM_FilePath := filePath; FM_FileName := Base filePath; FM_CRC32 := fileCRC32; FM_Size := fileSize; FM_S3Path := path;
                               FM_LocalPath := filePath; FM_UploadStatus := status |} in
    match (if backupType =?s "incremental" then rcm ← mgrs s !! spaceKey; RefCount.GetFileInfo rcm fileCRC32 else None) with
    | Some refInfo =>
      (act_! add_reference spaceKey fileCRC32 (RefCount.S3Path refInfo) versionID fileSize in
       hret (Ret (meta (RefCount.S3Path refInfo) "reused"%string))) s
    | None =>
      let sstS3Path := Join [s3Path; Base filePath] in
      (act_! retryOperation (FPutObject sstS3Path content) in
       act_! add_reference spaceKey fileCRC32 sstS3Path versionID fileSize in
       hret (Ret (meta sstS3Path "uploaded"%string))) s
    end
  | _ => Some (s, Fail (OtherErr "failed to calculate CRC32 for %s: %v"))
  end.

Definition savePartitionMeta (meta : PartitionBackupMeta) (spaceKey versionID : string) (partitionID : Z) : H unit :=
  act_! local (OpTemp versionID) in
  act! path <- hret (BuildBackupPath cluster spaceKey versionID partitionID) in
  retryOperation (FPutObject (path +:+ "/partition_meta.json") (Marshal meta)).

(** The files that were backed up, and the number of the ones that were not. *)
Definition backup_dir (localPath spaceKey versionID backupType : string) (partitionID : Z) (acc : list FileMeta * nat) (path : string) : H (list FileMeta * nat) :=
  act! files <- WalkDir (Join [localPath; "backup"; path]%string) in
  act! dir <- hret (BuildBackupPath cluster spaceKey versionID partitionID) in
  hfold (fun acc file =>
    act! r <- hcatch (backup_file spaceKey versionID backupType (dir +:+ "/" +:+ path) file) in
    hret (Ret match r with Some fm => (acc.1 ++ [fm], acc.2) | None => (acc.1, S acc.2) end)) acc (sched files).

Definition emptied (dir : string) (s : shard) : shard := on_disk (filter (fun x => below dir x.1 = false)) s.
Definition RemoveAll (dir : string) : H unit := fun s =>
  if fs_fails F (OpRemove dir) then Some (on_disk (filter (fun x => below dir x.1 = false \/ fs_left F dir x.1 = true)) s, Fail (OtherErr "input/output error"))
  else Some (emptied dir s, Ret tt).
(** A file in the place of the directory is an error. *)
Definition MkdirAll (dir : string) : H unit := act_! local (OpMkdir dir) in fun s =>
  match disk s !! dir with
  | Some (Some _) => Some (s, Fail (OtherErr "not a directory"))
  | _ => Some (on_disk (<[dir := None]>) s, Ret tt)
  end.

Definition executeShardSnapshot (localPath spaceKey backupID versionID : string) (partitionID : Z) (backupType : string) : H unit :=
  let backupType := if backupType =?s "" then "full"%string else backupType in
  act_! getOrCreateRefCountManager spaceKey in
  act! r <- hfold (backup_dir localPath spaceKey versionID backupType partitionID) ([], 0%nat) ["data"; "bitmap"]%string in
  let meta done := {| PM_PartitionID := partitionID; PM_BackupID := backupID; PM_VersionID := versionID; PM_SpaceKey := spaceKey; PM_Files := r.1;
                      PM_TotalFiles := Z.of_nat (length r.1); PM_TotalSize := foldl (fun n fm => i64 (n + FM_Size fm)) 0 r.1; PM_CompletedAt := done |} in
  if (0 <? r.2)%nat then
    act_! hcatch (savePartitionMeta (meta false) spaceKey versionID partitionID) in
    hret (Fail (OtherErr "encountered %d errors during backup: %v"))
  else
    act_! savePartitionMeta (meta true) spaceKey versionID partitionID in
    act_! hcatch (RemoveAll (Join [localPath; "backup"]%string)) in
    hret (Ret tt).

(** ** Downloading it *)

Definition loadPartitionMeta (spaceKey versionID : string) (partitionID : Z) (sourceClusterName : string) : H PartitionBackupMeta :=
  act! path <- hret (BuildBackupPath sourceClusterName spaceKey versionID partitionID) in
  act_! local (OpTemp versionID) in
  act! jsonData <- retryOperation (FGetObject (path +:+ "/partition_meta.json")) in
  act_! local (OpOpen versionID) in
  hret match Unmarshal jsonData with Some meta => Ret meta | None => Fail (OtherErr "failed to unmarshal partition meta: %v") end.

(** The local file of a file of the backup. *)
Definition local_file (dataDir bitmapDir : string) (fm : FileMeta) : string :=
  if Contains (FM_S3Path fm) "/bitmap/" then Join [bitmapDir; FM_FileName fm]
  else if Contains (FM_S3Path fm) "/data/" then Join [dataDir; FM_FileName fm]
  else if Contains (FM_FilePath fm) "/bitmap/" || Contains (FM_LocalPath fm) "/bitmap/" then Join [bitmapDir; FM_FileName fm]
  else Join [dataDir; FM_FileName fm].

(** The directory of the file is there by then; making it again may fail all the same. *)
Definition restore_file (dataDir bitmapDir : string) (fm : FileMeta) : H unit :=
  let localFilePath := local_file dataDir bitmapDir fm in
  act_! local (OpMkdir localFilePath) in
  act! content <- retryOperation (FGetObject (FM_S3Path fm)) in
  act_! hstep (on_disk (<[localFilePath := Some content]>)) in
  act_! (if 0 <? FM_Size fm then local (OpOpen localFilePath) else hret (Ret tt)) in
  hret (if (0 <? FM_Size fm) && negb (calcFileCRC32 content =?s FM_CRC32 fm) then Fail (OtherErr "failed to stat downloaded file %s: %v") else Ret tt).

Definition restoreShardSnapshot (localPath spaceKey versionID : string) (s3PartitionID : Z) (sourceClusterName : string) : H unit :=
  act! meta <- loadPartitionMeta spaceKey versionID s3PartitionID sourceClusterName in
  if negb (PM_PartitionID meta =? s3PartitionID) || negb (PM_VersionID meta =?s versionID) || negb (PM_SpaceKey meta =?s spaceKey)
  then hret (Fail (OtherErr "partition meta mismatch: expected s3PartitionID=%d versionID=%s spaceKey=%s, got partitionID=%d versionID=%s spaceKey=%s"))
  else
    let dataDir := Join [localPath; "data"]%string in
    let bitmapDir := Join [localPath; "bitmap"]%string in
    act_! MkdirAll localPath in
    act_! RemoveAll dataDir in
    act_! RemoveAll bitmapDir in
    act_! MkdirAll dataDir in
    act_! MkdirAll bitmapDir in
    act! errors <- hfold (fun n fm =>
        act! r <- hcatch (restore_file dataDir bitmapDir fm) in
        hret (Ret match r with Some _ => n | None => S n end)) 0%nat (dsched (filter (fun fm => FM_FileName fm <> "LOCK"%string) (PM_Files meta))) in
    hret (if (0 <? errors)%nat then Fail (OtherErr "encountered %d errors during restore: %v") else Ret tt).

Definition ps_DeleteBackupVersion (order : gmap string FileRefCount -> list string) (deleteErr : string -> option error) (spaceKey versionID : string) : H unit :=
  act! rcm <- getOrCreateRefCountManager spaceKey in
  with_manager spaceKey (fun upload m => RefCount.RemoveVersionReferences (RefCount.saveToS3Impl upload) deleteErr now (order (RefCount.refCountMap m)) versionID m).

(** ** Tasks *)

(** What a partition's engine does: its configuration (the path, if set), the snapshot with its effect on the disk, whether it has closed when asked for the
    [n]-th time, and whether it can be loaded again. *)
Record engine : Type := { e_cfg : go (option string); e_snapshot : go unit; e_files : gmap string (option string) -> gmap string (option string); e_closed : nat -> bool; e_load : go unit }.
(** [s.getPartition], and [GetEngine] of what it gives. *)
Context (getPartition : Z -> option (option engine)).

Definition ps_markTaskCompleted (ref : nat) (s : shard) : shard := on_tasks (alter (set_T_end SnapshotStatusCompleted "") ref) s.
Definition ps_markTaskFailed (ref : nat) (msg : string) (s : shard) : shard := on_tasks (alter (set_T_end SnapshotStatusFailed msg) ref) s.

Definition engine_of (pid : Z) : go engine :=
  match getPartition pid with
  | None => Fail (OtherErr "partition store not found")
  | Some None => Fail (OtherErr "engine not found")
  | Some (Some e) => Ret e
  end.

(** The end of a task: the error or the panic that stopped it, if one has. *)
Definition concluded (ref : nat) (m : H unit) : H unit := fun s =>
  match m s with
  | None => None
  | Some (s', Ret _) => Some (ps_markTaskCompleted ref s', Ret tt)
  | Some (s', Fail e) => Some (ps_markTaskFailed ref (Error e) s', Ret tt)
  | Some (s', Panic _) => Some (ps_markTaskFailed ref "panic: %v" s', Ret tt)
  end.

Definition path_of (cfg : option string) : go string := match cfg with Some p => Ret p | None => Panic NilDeref end.

Definition startShardSnapshot (ref : nat) (t : SnapshotTask) : H unit := concluded ref (
  act! engine <- hret (engine_of (T_PartitionID t)) in
  act! cfg <- hret (e_cfg engine) in
  act_! hret (e_snapshot engine) in
  act_! hstep (on_disk (e_files engine)) in
  act! filePath <- hret (path_of cfg) in
  executeShardSnapshot filePath (T_spaceKey t) (T_backupID t) (T_versionID t) (T_PartitionID t) (T_backupType t)).

(** Polls until the engine has closed, 60 more at most after the first. *)
Fixpoint wait_closed (closed : nat -> bool) (times left : nat) : go unit :=
  if closed times then Ret tt else match left with O => Fail (OtherErr "engine close timeout") | S left' => wait_closed closed (S times) left' end.

(** [defer]: the engine is loaded again, whatever has happened; a panic, of the body or of loading, is recovered after that. *)
Definition reloading (ref : nat) (load : go unit) (m : H unit) : H unit := fun s =>
  match m s with
  | None => None
  | Some (s', r) =>
    let s1 := match r with Ret _ => ps_markTaskCompleted ref s' | Fail e => ps_markTaskFailed ref (Error e) s' | Panic _ => s' end in
    let s2 := match load with Fail e => ps_markTaskFailed ref (Error e) s1 | Panic _ => ps_markTaskFailed ref "panic: %v" s1 | Ret _ => s1 end in
    Some (match r with Panic _ => ps_markTaskFailed ref "panic: %v" s2 | _ => s2 end, Ret tt)
  end.

Definition startShardRestore (ref : nat) (t : SnapshotTask) : H unit := fun s =>
  match (let! engine := engine_of (T_PartitionID t) in let! cfg := e_cfg engine in Ret (engine, cfg)) with
  | Fail e => Some (ps_markTaskFailed ref (Error e) s, Ret tt)
  | Panic _ => Some (ps_markTaskFailed ref "panic: %v" s, Ret tt)
  | Ret (engine, cfg) =>
    reloading ref (e_load engine) (
      act_! hret (wait_closed (e_closed engine) 0 60) in
      act! filePath <- hret (path_of cfg) in
      let s3PartitionID := if T_s3PartitionID t =? 0 then T_PartitionID t else T_s3PartitionID t in
      let source := if T_sourceClusterName t =?s "" then cluster else T_sourceClusterName t in
      restoreShardSnapshot filePath (T_spaceKey t) (T_versionID t) s3PartitionID source) s
  end.

Definition GetTaskStatus (s : shard) (spaceKey backupID : string) (partitionID : Z) : option SnapshotTask :=
  ref ← taskStatus s !! getTaskKey spaceKey backupID partitionID; heap s !! ref.
Definition GetBackupTaskStatus (s : shard) (spaceKey backupID : string) (partitionID : Z) : Z * string * bool :=
  match GetTaskStatus s spaceKey backupID partitionID with
  | None => (0, ""%string, false)
  | Some t => (status_code (T_status t), T_errorMessage t, true)
  end.

Definition on_status (f : gmap string nat -> gmap string nat) (s : shard) : shard :=
  {| disk := disk s; s3 := s3 s; counts := counts s; mgrs := mgrs s; heap := heap s; taskStatus := f (taskStatus s); tries := tries s |}.
Definition registerTask (t : SnapshotTask) (s : shard) : shard * nat :=
  let ref := length (heap s) in
  (on_status (<[getTaskKey (T_spaceKey t) (T_backupID t) (T_PartitionID t) := ref]>) (on_tasks (fun h => h ++ [t]) s), ref).
Definition CleanupTask (spaceKey backupID : string) (partitionID : Z) (s : shard) : shard := on_status (delete (getTaskKey spaceKey backupID partitionID)) s.

Definition is_running (s : shard) (spaceKey backupID : string) (partitionID : Z) : bool :=
  match GetTaskStatus s spaceKey backupID partitionID with Some t => bool_decide (T_status t = SnapshotStatusRunning) | None => false end.

(** Both give the task that a new goroutine is to run. *)
Definition StartPartitionBackup (spaceKey backupID versionID : string) (partitionID : Z) (backupType : string) (s : shard) : shard * go (nat * SnapshotTask) :=
  let backupType := if backupType =?s "" then "full"%string else backupType in
  if negb (backupType =?s "full") && negb (backupType =?s "incremental") then (s, Fail (OtherErr "invalid backup type: %s, must be 'full' or 'incremental'"))
  else if is_running s spaceKey backupID partitionID then (s, Fail (OtherErr "backup task already running for partition %d"))
  else
    let t := {| T_PartitionID := partitionID; T_s3PartitionID := 0; T_status := SnapshotStatusRunning; T_spaceKey := spaceKey; T_backupID := backupID;
                T_versionID := versionID; T_backupType := backupType; T_sourceClusterName := ""; T_errorMessage := "" |} in
    let '(s', ref) := registerTask t s in (s', Ret (ref, t)).

Definition StartPartitionRestore (spaceKey backupID versionID : string) (partitionID s3PartitionID : Z) (sourceClusterName : string) (s : shard) : shard * go (nat * SnapshotTask) :=
  if is_running s spaceKey backupID partitionID then (s, Fail (OtherErr "restore task already running for partition %d"))
  else
    let t := {| T_PartitionID := partitionID; T_s3PartitionID := s3PartitionID; T_status := SnapshotStatusRunning; T_spaceKey := spaceKey; T_backupID := backupID;
                T_versionID := versionID; T_backupType := ""; T_sourceClusterName := sourceClusterName; T_errorMessage := "" |} in
    let '(s', ref) := registerTask t s in (s', Ret (ref, t)).
End Manager.

Lemma hfold_cons {A B} (f : B -> A -> H B) b x xs s : hfold f b (x :: xs) s = (act! b' <- f b x in hfold f b' xs) s.
Proof. done. Qed.
Lemma hbind_ret {A B} (m : H A) (k : A -> H B) s s' a : m s = Some (s', Ret a) -> hbind m k s = k a s'.
Proof. intros E. unfold hbind. by rewrite E. Qed.
Lemma hcatch_ret {A} (m : H A) s s' a : m s = Some (s', Ret a) -> hcatch m s = Some (s', Ret (Some a)).
Proof. intros E. unfold hcatch. by rewrite E. Qed.

(** ** Retries *)

Definition at_try (n : gmap string nat) (s : shard) : shard := put_shard (disk s) (s3 s) (counts s) (mgrs s) (heap s) n s.
Definition next_try (object : string) (n : gmap string nat) : gmap string nat := <[object := S (calls n object)]> n.

Section Retries.
Context (F : faults) (object : string).

(** The call that is made until it succeeds. *)
Lemma attempts_up {A} (f : shard -> shard) (a : A) (op : H A) s k :
  (forall n, exists e, op (at_try n s) = Some (if down F object (calls n object) then (at_try (next_try object n) s, Fail e) else (f (at_try (next_try object n) s), Ret a))) ->
  forall more n, (k <= more)%nat -> down F object (calls n object + k)%nat = false -> exists n', attempts more op (at_try n s) = Some (f (at_try n' s), Ret a).
Proof.
  intros Hop. induction k as [|k IH]; intros more n Hk Hd; destruct (Hop n) as [e He].
  - rewrite Nat.add_0_r in Hd. rewrite Hd in He. exists (next_try object n). destruct more; cbn [attempts]; by rewrite He.
  - destruct more as [|more]; [lia|]. cbn [attempts]. rewrite He. destruct (down F object (calls n object)); [|by eexists]. apply IH; [lia|].
    assert (calls (next_try object n) object = S (calls n object)) as -> by (unfold calls, next_try; by rewrite lookup_insert_eq). by rewrite Nat.add_succ_comm.
Qed.

Lemma at_try_same s : at_try (tries s) s = s.
Proof. by destruct s. Qed.

(** No four calls in a row for the object fail. *)
Context (Hup : forall n, exists k, (k <= maxRetries)%nat /\ down F object (n + k)%nat = false).

Lemma retry_ok {A} (f : shard -> shard) (a : A) (op : H A) s :
  (forall n, exists e, op (at_try n s) = Some (if down F object (calls n object) then (at_try (next_try object n) s, Fail e) else (f (at_try (next_try object n) s), Ret a))) ->
  exists n, retryOperation op s = Some (f (at_try n s), Ret a).
Proof using Hup.
  intros Hop. destruct (Hup (calls (tries s) object)) as (k & Hk & Hd).
  destruct (attempts_up f a op s k Hop maxRetries (tries s) Hk Hd) as [n Hn]. rewrite at_try_same in Hn. by exists n.
Qed.

Lemma put_ok content s : exists n, retryOperation (FPutObject F object content) s = Some (on_objects (<[object := content]>) (at_try n s), Ret tt).
Proof using Hup. apply retry_ok. intros n. eexists. unfold FPutObject, is_down. cbn [tries at_try put_shard]. by destruct (down F object (calls n object)). Qed.

Lemma get_ok content s : s3 s !! object = Some content -> exists n, retryOperation (FGetObject F object) s = Some (at_try n s, Ret content).
Proof using Hup. intros Hc. apply (retry_ok id). intros n. eexists. unfold FGetObject, is_down. cbn [tries s3 at_try put_shard]. rewrite Hc. by destruct (down F object (calls n object)). Qed.
End Retries.

Lemma local_ok F op s : fs_fails F op = false -> local F op s = Some (s, Ret tt).
Proof. intros E. unfold local, hret. by rewrite E. Qed.

(** ** Maps that are filled *)

Section Filled.
Context {V : Type}.
Implicit Types (m : gmap string V) (l : list (string * V)).
Definition filled m l : gmap string V := foldl (fun m x => <[x.1 := x.2]> m) m l.

Lemma filled_other m l k : k ∉ l.*1 -> filled m l !! k = m !! k.
Proof.
  revert m. induction l as [|[k' v] l IH]; intros m Hk; [done|]. cbn in *. apply not_elem_of_cons in Hk as [Hne Hk]. unfold filled in *. cbn.
  rewrite IH by done. by apply lookup_insert_ne.
Qed.

Lemma filled_in m l k v : (k, v) ∈ l -> (forall v', (k, v') ∈ l -> v' = v) -> filled m l !! k = Some v.
Proof.
  revert m. induction l as [|[k' v'] l IH]; intros m Hin Hu; [by apply elem_of_nil in Hin|]. unfold filled in *. cbn.
  destruct (decide (k ∈ l.*1)) as [Hk|Hk].
  - apply list_elem_of_fmap in Hk as ([k2 v2] & Hk & Hin2). cbn in Hk. subst k2. apply IH; [|intros; apply Hu; by right].
    rewrite <- (Hu v2); [done|by right].
  - apply elem_of_cons in Hin as [[= <- <-]|Hin]; [|destruct Hk; by apply (list_elem_of_fmap_2 fst) in Hin].
    rewrite (filled_other (<[k := v]> m) l k Hk). apply lookup_insert_eq.
Qed.
End Filled.

(** ** Paths of files *)

(** An absolute path. *)
Definition abs (names : list string) : string := "/" +:+ String.concat "/" names.

Lemma Split_abs names : Forall plain names -> names <> [] -> Split (abs names) = ""%string :: names.
Proof. intros H1 H2. unfold abs. change ("/" +:+ String.concat "/" names) with (""%string +:+ "/" +:+ String.concat "/" names). rewrite Split_app, Split_concat by done. done. Qed.

Lemma Clean_abs names : Forall plain names -> names <> [] -> Clean (abs names) = abs names.
Proof.
  intros H1 H2. unfold Clean. rewrite Split_abs by done. change (abs names =?s "") with false. change (HasPrefix (abs names) "/") with (String.prefix "" (String.concat "/" names)).
  assert (String.prefix "" (String.concat "/" names) = true) as -> by (by destruct (String.concat "/" names)). cbn [foldl].
  unfold clean_step at 2. cbn. rewrite clean_plain by done. done.
Qed.

Lemma abs_app l1 l2 : l1 <> [] -> l2 <> [] -> abs (l1 ++ l2) = abs l1 +:+ "/" +:+ String.concat "/" l2.
Proof. intros H1 H2. unfold abs. by rewrite concat_app, !app_assoc_string. Qed.

Lemma Join_abs l names : Forall plain l -> Forall plain names -> l <> [] -> names <> [] -> Join (abs l :: names) = abs (l ++ names).
Proof.
  intros H1 H2 H3 H4. change (Join (abs l :: names)) with (Clean (String.concat "/" (abs l :: names))). rewrite <- (Clean_abs (l ++ names)); [|by apply Forall_app|by destruct l].
  f_equal. rewrite abs_app by done. by destruct names.
Qed.

Lemma Base_abs l name : Forall plain l -> plain name -> Base (abs (l ++ [name])) = name.
Proof.
  intros H1 H2. unfold Base. change (abs (l ++ [name]) =?s "") with false. rewrite Split_abs; [|apply Forall_app; split; [done|by constructor]|by destruct l].
  rewrite filter_cons_False by naive_solver. rewrite list_filter_all; [by rewrite last_snoc|]. apply Forall_app. split.
  - eapply Forall_impl; [exact H1|]. by intros x [? _].
  - constructor; [by destruct H2|done].
Qed.

Lemma below_abs a b : Forall plain a -> Forall plain b -> a <> [] -> b <> [] -> below (abs a) (abs b) = true <-> exists r, b = a ++ r.
Proof.
  intros H1 H2 H3 H4. unfold below. rewrite orb_true_iff, string_eqb_eq. split.
  - intros [He|(r & Hr)%prefix_iff].
    + exists []. rewrite app_nil_r. apply (f_equal Split) in He. rewrite !Split_abs in He by done. by injection He.
    + exists (Split r). rewrite app_assoc_string in Hr. apply (f_equal Split) in Hr. rewrite Split_app, !Split_abs in Hr by done. by injection Hr.
  - intros [r ->]. destruct r as [|x r]; [left; by rewrite app_nil_r|]. right. apply prefix_iff. exists (String.concat "/" (x :: r)).
    rewrite abs_app by done. by rewrite app_assoc_string.
Qed.

Lemma abs_inj a b : Forall plain a -> Forall plain b -> a <> [] -> b <> [] -> abs a = abs b -> a = b.
Proof. intros H1 H2 H3 H4 He. apply (f_equal Split) in He. rewrite !Split_abs in He by done. by injection He. Qed.

(** Joining a name to a path of plain segments. *)
Lemma Join_rel l name : Forall plain l -> plain name -> l <> [] -> Join [String.concat "/" l; name] = String.concat "/" (l ++ [name]).
Proof.
  intros H1 H2 H3. rewrite <- (Clean_plain (l ++ [name])); [|apply Forall_app; split; [done|by constructor]|by destruct l]. rewrite concat_app by done.
  unfold Join. destruct (String.concat "/" l =?s "") eqn:E; [|done]. exfalso. apply string_eqb_eq in E. pose proof (Split_concat l H1 H3) as Hs. rewrite E in Hs.
  destruct l as [|x [|y l]]; [done| |discriminate Hs]. injection Hs as <-. apply Forall_cons in H1 as [(H1 & _) _]. done.
Qed.

Lemma split_dash_plain x acc : 45 ∉ bytes_of x -> RefCount.split_dash x acc = [acc +:+ x].
Proof.
  revert acc. induction x as [|c x IH]; intros acc Hx; cbn; [by rewrite string_app_nil|]. cbn in Hx. apply not_elem_of_cons in Hx as [Hc Hx].
  destruct (Ascii.eqb_spec c "-") as [->|_]; [done|]. rewrite IH by done. by rewrite app_assoc_string.
Qed.

Lemma split_dash_app x y acc : 45 ∉ bytes_of x -> RefCount.split_dash (x +:+ "-" +:+ y) acc = (acc +:+ x) :: RefCount.split_dash y "".
Proof.
  revert acc. induction x as [|c x IH]; intros acc Hx; [cbn; by rewrite string_app_nil|]. cbn in Hx. apply not_elem_of_cons in Hx as [Hc Hx].
  change (String c x +:+ "-" +:+ y) with (String c (x +:+ "-" +:+ y)). cbn [RefCount.split_dash]. destruct (Ascii.eqb_spec c "-") as [->|_]; [done|].
  rewrite IH by done. by rewrite app_assoc_string.
Qed.

(** A space and a version of it, with names as the master allows them. *)
Record version_names (cluster db sp ver : string) : Prop := {
  vn_cluster : plain cluster; vn_db : plain db; vn_sp : plain sp; vn_ver : plain ver; vn_db_hyphen : 45 ∉ bytes_of db; vn_sp_hyphen : 45 ∉ bytes_of sp
}.

Definition version_path (cluster db sp ver : string) (pid : Z) : list string := [cluster; "backup"; db; sp; ver; pretty pid]%string.

Lemma pretty_not (z : Z) x : in_s 64 z -> ParseInt x = None -> pretty z <> x.
Proof. intros Hz Hx He. pose proof (ParseInt_FormatInt z Hz) as Hp. unfold FormatInt in Hp. by rewrite He, Hx in Hp. Qed.

Lemma plain_pretty (z : Z) : in_s 64 z -> plain (pretty z).
Proof. intros Hz. split; [by apply FormatInt_nonempty|]. split; [by apply pretty_not|]. split; [by apply pretty_not|]. apply pretty_Z_no_slash. Qed.

Lemma plain_const x : forallb (fun c => negb (c =? 47)) (bytes_of x) && negb (x =?s "") && negb (x =?s ".") && negb (x =?s "..") = true -> plain x.
Proof.
  rewrite !andb_true_iff, !negb_true_iff. intros [[[H H1] H2] H3]. apply plain_checked; [done|..]; by apply string_eqb_neq.
Qed.

Lemma plain_app l x y : Forall plain l -> plain x -> plain y -> Forall plain (l ++ [x; y]).
Proof. intros Hl Hx Hy. apply Forall_app. split; [done|]. apply Forall_cons. split; [done|]. by apply Forall_singleton. Qed.

Section Version.
Context (cluster db sp ver : string) (pid : Z) (Hn : version_names cluster db sp ver) (Hpid : in_s 64 pid).
Notation vp := (version_path cluster db sp ver pid).

Lemma plain_version : Forall plain vp.
Proof. destruct Hn. repeat (constructor; [first [done | by apply plain_const | by apply plain_pretty]|]). constructor. Qed.

Lemma backup_path : BuildBackupPath cluster (db +:+ "-" +:+ sp) ver pid = Ret (String.concat "/" vp).
Proof.
  destruct Hn as [H1 H2 H3 H4 H5 H6]. unfold BuildBackupPath. rewrite split_dash_app, split_dash_plain by done.
  change ("" +:+ db) with db. change ("" +:+ sp) with sp. 
  change (index_at [db; sp] 0) with (Ret db : go string). change (index_at [db; sp] 1) with (Ret sp : go string). cbn [obind]. unfold BuildObjectPath.
  rewrite !filter_cons_True, filter_nil; [| |by destruct H3|by destruct H2|done].
  2: { destruct H4 as (H4 & _). destruct ver; [done|discriminate]. }
  f_equal. change (Join ?l) with (Join l). rewrite <- Join_plain; [|apply plain_version|done]. unfold Join, version_path.
  destruct H1 as (H1 & _). apply string_eqb_neq in H1. by rewrite H1.
Qed.

(** The object of a file. *)
Definition object_path (dir name : string) : string := String.concat "/" (vp ++ [dir; name]).

Lemma object_joined dir name : plain dir -> plain name -> Join [String.concat "/" vp +:+ "/" +:+ dir; name] = object_path dir name.
Proof.
  intros H1 H2. unfold object_path. change [dir; name] with ([dir] ++ [name]). rewrite app_assoc. rewrite <- Join_rel; [| |done|done].
  - f_equal. by rewrite concat_app.
  - apply Forall_app. split; [apply plain_version|by constructor].
Qed.

Lemma object_path_inj d n d' n' : plain d -> plain n -> plain d' -> plain n' -> object_path d n = object_path d' n' -> d = d' /\ n = n'.
Proof.
  intros H1 H2 H3 H4 H. apply (f_equal Split) in H. unfold object_path in H.
  assert (forall a b, plain a -> plain b -> Split (String.concat "/" (vp ++ [a; b])) = vp ++ [a; b]) as Hs.
  { intros a b Ha Hb. apply Split_concat; [|done]. by apply plain_app; [apply plain_version|..]. }
  rewrite !Hs in H by done. by injection H.
Qed.

(** Where a file of the backup is downloaded to. *)
Lemma local_file_of L fm dir name : Forall plain L -> L <> [] -> plain name -> plain dir -> FM_S3Path fm = object_path dir name -> FM_FileName fm = name ->
  db <> "bitmap"%string -> sp <> "bitmap"%string -> ver <> "bitmap"%string -> dir = "data"%string \/ dir = "bitmap"%string ->
  local_file (abs (L ++ ["data"%string])) (abs (L ++ ["bitmap"%string])) fm = abs (L ++ [dir; name]).
Proof.
  intros HL Hne Hname Hdir Hs3 Hfn Hdb Hsp Hver Hor. unfold local_file. rewrite Hs3, Hfn.
  assert (Forall plain (vp ++ [dir; name])) as Hall by (by apply plain_app; [apply plain_version|..]).
  assert (forall d, plain d -> Join [abs (L ++ [d]); name] = abs (L ++ [d; name])) as Hj.
  { intros d Hd. rewrite Join_abs; [by rewrite <- app_assoc|apply Forall_app; split; [done|by constructor]|by constructor|by destruct L|done]. }
  assert (forall x, 47 ∉ bytes_of x -> Contains (object_path dir name) ("/" +:+ x +:+ "/") = true <-> x = "backup"%string \/ x = db \/ x = sp \/ x = ver \/ x = pretty pid \/ x = dir) as Hc.
  { intros x Hx. unfold object_path. rewrite Contains_segment by done. unfold version_path. cbn [app]. split.
    - intros (l1 & l2 & He & H1 & H2). destruct l1 as [|x1 l1]; [done|]. injection He as -> He.
      repeat (destruct l1 as [|? l1]; [injection He as ?; subst; tauto|injection He as -> He]). destruct l2; [done|]. by destruct l1.
    - intros Hx'. assert (exists i, [("backup"%string); db; sp; ver; pretty pid; dir] !! i = Some x) as [i Hi] by (apply list_elem_of_lookup; destruct Hx' as [->|[->|[->|[->|[->| ->]]]]]; repeat (first [by left | right])).
      apply list_elem_of_split_length in Hi as (k1 & k2 & He & _). exists (cluster :: k1), (k2 ++ [name]).
      split; [|split; [done|by destruct k2]]. change (cluster :: "backup"%string :: db :: sp :: ver :: pretty pid :: [dir; name]) with (cluster :: (["backup"%string; db; sp; ver; pretty pid; dir] ++ [name])).
      by rewrite He, <- app_assoc. }
  change "/bitmap/"%string with ("/" +:+ "bitmap" +:+ "/"). change "/data/"%string with ("/" +:+ "data" +:+ "/").
  assert (47 ∉ bytes_of "bitmap") as Hb by (apply plain_const; done). assert (47 ∉ bytes_of "data") as Hd by (apply plain_const; done).
  destruct Hor as [->| ->].
  - assert (Contains (object_path "data" name) ("/" +:+ "bitmap" +:+ "/") = false) as ->.
    { apply not_true_iff_false. intros [?|[?|[?|[?|[Hx|?]]]]]%(Hc _ Hb); try done. by apply (pretty_not pid "bitmap"). }
    rewrite (proj2 (Hc "data"%string Hd)) by tauto. by apply Hj.
  - rewrite (proj2 (Hc "bitmap"%string Hb)) by tauto. by apply Hj.
Qed.
End Version.

(** ** A full backup *)

(** The manager of the space is there and not locked. *)
Definition open_manager (key : string) (s : shard) : Prop := exists m, mgrs s !! key = Some m /\ RefCount.locked m = false.
Definition kept (key : string) (s s' : shard) : Prop := disk s' = disk s /\ heap s' = heap s /\ taskStatus s' = taskStatus s /\ open_manager key s'.

Lemma kept_trans key s1 s2 s3 : kept key s1 s2 -> kept key s2 s3 -> kept key s1 s3.
Proof. intros (H1 & H2 & H3 & _) (H4 & H5 & H6 & H7). split; [congruence|]. split; [congruence|]. split; [congruence|done]. Qed.

Section Backup.
Context (F : faults) (sched : list string -> list string) (now : Z) `{HMeta : !Codec PartitionBackupMeta}.
Context (Hup : forall object n, exists k, (k <= maxRetries)%nat /\ down F object (n + k)%nat = false) (Hfs : forall op, fs_fails F op = false) (Hsched : forall l, sched l ≡ₚ l).
Context (cluster clusterName bucketName db sp ver : string) (pid : Z) (Hn : version_names cluster db sp ver) (Hpid : in_s 64 pid).
Notation key := (db +:+ "-" +:+ sp).
Notation vp := (version_path cluster db sp ver pid).
Notation object := (object_path cluster db sp ver pid).

Lemma add_reference_ok crc path v size s : open_manager key s ->
  exists s', add_reference F now cluster clusterName key crc path v size s = Some (s', Ret tt) /\ kept key s s' /\ s3 s' = s3 s.
Proof.
  intros (m & Hm & Hl). unfold add_reference, with_manager. rewrite Hm.
  set (o := metadata_path cluster clusterName key).
  destruct (retry_ok F o (Hup o) id tt (fun s => Some (tried o s, if is_down F o s then Fail (OtherErr "failed to upload reference count metadata to S3: %v") else Ret tt)) s) as [n Hr].
  { intros n. eexists. unfold is_down. cbn. by destruct (down F o (calls n o)). }
  unfold retryOperation in Hr. rewrite Hr. unfold RefCount.AddReference, RefCount.Lock. change (RefCount.locked (nothing_uploaded m)) with (RefCount.locked m). rewrite Hl.
  cbn. eexists. split; [reflexivity|]. split; [|done]. split; [done|]. split; [done|]. split; [done|]. eexists. split; [apply lookup_insert_eq|done].
Qed.

Definition meta_of (L : list string) (dir name content : string) : FileMeta :=
  {| FM_FilePath := abs (L ++ ["backup"%string; dir; name]); FM_FileName := name; FM_CRC32 := calcFileCRC32 content; FM_Size := Z.of_nat (String.length content);
     FM_S3Path := object dir name; FM_LocalPath := abs (L ++ ["backup"%string; dir; name]); FM_UploadStatus := "uploaded" |}.

Lemma backup_file_full L dir name content backupType s : Forall plain L -> plain dir -> plain name -> backupType <> "incremental"%string -> open_manager key s ->
  disk s !! abs (L ++ ["backup"%string; dir; name]) = Some (Some content) ->
  exists s', backup_file F now cluster clusterName key ver backupType (String.concat "/" vp +:+ "/" +:+ dir) (abs (L ++ ["backup"%string; dir; name])) s =
    Some (s', Ret (meta_of L dir name content)) /\ kept key s s' /\ s3 s' = <[object dir name := content]> (s3 s).
Proof.
  intros HL Hdir Hname Hbt Hopen Hd. unfold backup_file. rewrite !(hbind_ret _ _ _ _ _ (local_ok F _ s (Hfs _))), Hd. apply string_eqb_neq in Hbt. rewrite Hbt.
  assert (Base (abs (L ++ ["backup"%string; dir; name])) = name) as HB.
  { change (L ++ ["backup"%string; dir; name]) with (L ++ (["backup"%string; dir] ++ [name])). rewrite app_assoc. apply Base_abs; [|done].
    apply plain_app; [done|by apply plain_const|done]. }
  rewrite HB, object_joined by done. destruct (put_ok F (object dir name) (Hup _) content s) as [n Hp]. unfold hbind at 1. rewrite Hp.
  set (s1 := on_objects _ _). destruct (add_reference_ok (calcFileCRC32 content) (object dir name) ver (Z.of_nat (String.length content)) s1) as (s2 & Ha & Hk & Hs3); [done|].
  unfold hbind. rewrite Ha. exists s2. split; [done|]. split; [|done]. exact Hk.
Qed.

(** The local files of a directory, without the lock file. *)
Definition holds (d : gmap string (option string)) (dir : list string) (files : gmap string string) : Prop :=
  d !! abs dir = Some None /\
  forall p c, (d !! p = Some (Some c) /\ below (abs dir) p = true /\ Base p <> "LOCK"%string) <-> exists name, files !! name = Some c /\ p = abs (dir ++ [name]).
Definition file_names (files : gmap string string) : Prop := forall name c, files !! name = Some c -> plain name /\ name <> "LOCK"%string.

Lemma walk_files L dir (files : gmap string string) s : Forall plain L -> L <> [] -> plain dir -> holds (disk s) (L ++ ["backup"%string; dir]) files ->
  exists l, WalkDir F (Join [abs L; "backup"; dir]%string) s = Some (s, Ret l) /\
    forall p, p ∈ l <-> exists name c, files !! name = Some c /\ p = abs (L ++ ["backup"%string; dir; name]).
Proof.
  intros HL Hne Hdir [Hroot Hfiles]. unfold WalkDir. rewrite (hbind_ret _ _ _ _ _ (local_ok F _ s (Hfs _))). rewrite Join_abs; [|done|by repeat (constructor; [done || by apply plain_const|])|done|done].
  rewrite Hroot. eexists. split; [reflexivity|]. intros p. rewrite list_elem_of_omap. split.
  - intros ([p' o] & Hin & He). cbn in He. apply elem_of_map_to_list in Hin. destruct o as [c|]; [|done]. case_match eqn:Hc; [|done]. injection He as ->.
    apply andb_true_iff in Hc as [Hb Hl]. apply negb_true_iff, string_eqb_neq in Hl. destruct (proj1 (Hfiles p c)) as (name & Hname & ->); [done|].
    exists name, c. split; [done|]. by rewrite <- app_assoc.
  - intros (name & c & Hname & ->). destruct (proj2 (Hfiles (abs ((L ++ ["backup"%string; dir]) ++ [name])) c)) as (Hd & Hb & Hl); [by exists name|].
    rewrite <- app_assoc in *. exists (abs (L ++ ["backup"%string; dir; name]), Some c). split; [by apply elem_of_map_to_list|]. cbn in *.
    rewrite Hb. apply string_eqb_neq in Hl. by rewrite Hl.
Qed.

(** The paths of a walk as names with their contents. *)
Lemma named_files L dir (files : gmap string string) (l : list string) :
  (forall p, p ∈ l <-> exists name c, files !! name = Some c /\ p = abs (L ++ ["backup"%string; dir; name])) ->
  forall l', l' ≡ₚ l -> exists xs : list (string * string), l' = (fun x => abs (L ++ ["backup"%string; dir; x.1])) <$> xs /\
    Forall (fun x => files !! x.1 = Some x.2) xs.
Proof.
  intros Hl l' Hp. assert (forall p, p ∈ l' -> exists name c, files !! name = Some c /\ p = abs (L ++ ["backup"%string; dir; name])) as Hl' by (intros p; rewrite Hp; apply Hl).
  clear Hp. induction l' as [|p l' IH]; [by exists []|]. destruct (Hl' p) as (name & c & Hc & ->); [by left|]. destruct IH as (xs & -> & Hxs); [intros q Hq; apply Hl'; by right|].
  exists ((name, c) :: xs). split; [done|by constructor].
Qed.

Notation bfile dir backupType := (backup_file F now cluster clusterName key ver backupType (String.concat "/" vp +:+ "/" +:+ dir)).

Lemma backup_files L dir backupType (xs : list (string * string)) : Forall plain L -> plain dir -> backupType <> "incremental"%string -> forall s acc, open_manager key s ->
  Forall (fun x => plain x.1 /\ disk s !! abs (L ++ ["backup"%string; dir; x.1]) = Some (Some x.2)) xs ->
  exists s', hfold (fun acc file =>
      act! r <- hcatch (bfile dir backupType file) in hret (Ret match r with Some fm => (acc.1 ++ [fm], acc.2) | None => (acc.1, S acc.2) end))
      acc ((fun x => abs (L ++ ["backup"%string; dir; x.1])) <$> xs) s =
    Some (s', Ret (acc.1 ++ ((fun x => meta_of L dir x.1 x.2) <$> xs), acc.2)) /\ kept key s s' /\
    s3 s' = filled (s3 s) ((fun x => (object dir x.1, x.2)) <$> xs).
Proof.
  intros HL Hdir Hbt. induction xs as [|[name c] xs IH]; intros s acc Hopen Hxs.
  - exists s. rewrite app_nil_r. destruct acc. split; [done|]. split; [|done]. by split.
  - apply Forall_cons in Hxs as [[Hname Hd] Hxs]. cbn [fst snd] in *. destruct (backup_file_full L dir name c backupType s HL Hdir Hname Hbt Hopen Hd) as (s1 & Hb & Hk1 & Hs1).
    destruct (IH s1 (acc.1 ++ [meta_of L dir name c], acc.2)) as (s2 & Hf & Hk2 & Hs2); [apply Hk1|destruct Hk1 as (-> & _); exact Hxs|].
    exists s2. rewrite fmap_cons, hfold_cons. rewrite (hbind_ret _ _ s s1 (acc.1 ++ [meta_of L dir name c], acc.2)) by (by rewrite (hbind_ret _ _ _ _ _ (hcatch_ret _ _ _ _ Hb))).
    rewrite Hf. cbn [fst snd]. rewrite <- app_assoc.
    split; [done|]. split; [by eapply kept_trans|]. by rewrite Hs2, Hs1.
Qed.

Lemma backup_dir_ok L dir backupType (files : gmap string string) s acc : Forall plain L -> L <> [] -> plain dir -> backupType <> "incremental"%string -> open_manager key s ->
  file_names files -> holds (disk s) (L ++ ["backup"%string; dir]) files ->
  exists s' xs, backup_dir F sched now cluster clusterName (abs L) key ver backupType pid acc dir s =
    Some (s', Ret (acc.1 ++ ((fun x => meta_of L dir x.1 x.2) <$> xs), acc.2)) /\ kept key s s' /\
    s3 s' = filled (s3 s) ((fun x => (object dir x.1, x.2)) <$> xs) /\ forall name c, files !! name = Some c <-> (name, c) ∈ xs.
Proof.
  intros HL Hne Hdir Hbt Hopen Hnames Hh. destruct (walk_files L dir files s HL Hne Hdir Hh) as (l & Hw & Hl).
  destruct (named_files L dir files l Hl (sched l) (Hsched l)) as (xs & Hxs & Hall). unfold backup_dir. unfold hbind at 1. rewrite Hw, backup_path by done.
  cbn [hbind hret]. rewrite Hxs. destruct (backup_files L dir backupType xs HL Hdir Hbt s acc Hopen) as (s' & Hf & Hk & Hs3).
  { eapply Forall_impl; [exact Hall|]. intros [name c] Hc. cbn in *. split; [by eapply Hnames|]. destruct Hh as [_ Hh].
    destruct (proj2 (Hh (abs ((L ++ ["backup"%string; dir]) ++ [name])) c)) as (Hd & _); [by exists name|]. by rewrite <- app_assoc in Hd. }
  exists s', xs. split; [exact Hf|]. split; [done|]. split; [done|]. intros name c. split.
  - intros Hc. assert (abs (L ++ ["backup"%string; dir; name]) ∈ sched l) as Hin by (rewrite Hsched; apply Hl; by exists name, c).
    rewrite Hxs in Hin. apply list_elem_of_fmap in Hin as ([n' c'] & He & Hin). cbn in He. rewrite Forall_forall in Hall. pose proof (Hall _ Hin) as Hc'. cbn in Hc'.
    assert (forall n, plain n -> Forall plain (L ++ ["backup"%string; dir; n])) as Hp3.
    { intros n Hpn. apply Forall_app. split; [done|]. apply Forall_cons. split; [by apply plain_const|]. apply Forall_cons. split; [done|]. by apply Forall_singleton. }
    apply abs_inj in He; [|by apply Hp3; eapply Hnames|by apply Hp3; eapply Hnames|by destruct L..]. apply app_inv_head in He. injection He as ->. congruence.
  - intros Hin. rewrite Forall_forall in Hall. by apply (Hall (name, c)).
Qed.

(** The manager of a space, new or not. *)
Lemma manager_ok s : bucketName <> ""%string -> (forall m, mgrs s !! key = Some m -> RefCount.locked m = false) ->
  exists s' m, getOrCreateRefCountManager F cluster clusterName bucketName key s = Some (s', Ret m) /\ kept key s s' /\ s3 s' = s3 s.
Proof.
  intros Hb Hm. unfold getOrCreateRefCountManager. destruct (mgrs s !! key) as [m|] eqn:Em.
  - exists s, m. split; [done|]. split; [|done]. split; [done|]. split; [done|]. split; [done|]. exists m. split; [done|by apply Hm].
  - apply string_eqb_neq in Hb. rewrite Hb. set (o := metadata_path cluster clusterName key). destruct (retry_ok F o (Hup o) id (default ∅ (counts s !! o)) (fun s => Some (tried o s, if is_down F o s
      then Fail (OtherErr "failed to get reference count metadata from S3: %v") else Ret (default ∅ (counts s !! o)))) s) as [n Hr].
    { intros n. eexists. unfold is_down. cbn. by destruct (down F o (calls n o)). }
    unfold LoadFromS3. unfold hbind at 1 2. rewrite (hcatch_ret _ _ _ _ Hr). eexists _, _. split; [reflexivity|]. split; [|done].
    split; [done|]. split; [done|]. split; [done|]. eexists. split; [apply lookup_insert_eq|done].
Qed.

(** What a backup of a partition leaves in the store. *)
Definition meta_object : string := String.concat "/" vp +:+ "/partition_meta.json".
Definition file_of (D Bm : gmap string string) (dir name c : string) : Prop :=
  dir = "data"%string /\ D !! name = Some c \/ dir = "bitmap"%string /\ Bm !! name = Some c.
Definition stored (o : gmap string string) (L : list string) (D Bm : gmap string string) (meta : PartitionBackupMeta) : Prop :=
  o !! meta_object = Some (Marshal meta) /\ PM_PartitionID meta = pid /\ PM_VersionID meta = ver /\ PM_SpaceKey meta = key /\ PM_CompletedAt meta = true /\
  (forall fm, fm ∈ PM_Files meta <-> exists dir name c, file_of D Bm dir name c /\ fm = meta_of L dir name c) /\
  forall dir name c, file_of D Bm dir name c -> o !! object dir name = Some c.

Lemma meta_object_apart dir name : plain dir -> plain name -> meta_object <> object dir name.
Proof.
  intros Hd Hname H. assert (meta_object = String.concat "/" (vp ++ ["partition_meta.json"%string])) as Hm by (by rewrite concat_app).
  rewrite Hm in H. apply (f_equal Split) in H. unfold object_path in H. rewrite !Split_concat in H; [done|by apply plain_app; [apply plain_version|..]|done| |done].
  apply Forall_app. split; [by apply plain_version|]. apply Forall_singleton. by apply plain_const.
Qed.

(** The objects of a directory. *)
Lemma filled_objects dir (zs : list (string * string)) files name c o : plain dir -> file_names files -> (forall name c, files !! name = Some c <-> (name, c) ∈ zs) ->
  files !! name = Some c -> filled o ((fun x => (object dir x.1, x.2)) <$> zs) !! object dir name = Some c.
Proof.
  intros Hd Hf Hzs Hc. apply filled_in.
  - apply list_elem_of_fmap. exists (name, c). split; [done|]. by apply Hzs.
  - intros c' ([n2 c2] & [= He ->] & Hin%Hzs)%list_elem_of_fmap. apply object_path_inj in He as [_ ->]; [congruence|done..|by eapply Hf|done|by eapply Hf].
Qed.

Lemma filled_elsewhere dir (zs : list (string * string)) files dir' name (o : gmap string string) : plain dir -> plain dir' -> plain name -> dir <> dir' -> file_names files ->
  (forall name c, files !! name = Some c <-> (name, c) ∈ zs) -> filled o ((fun x => (object dir x.1, x.2)) <$> zs) !! object dir' name = o !! object dir' name.
Proof.
  intros Hd Hd' Hname Hne Hf Hzs. apply filled_other. intros ([k v] & He & ([n2 c2] & [= -> ->] & Hin%Hzs)%list_elem_of_fmap)%list_elem_of_fmap. cbn in He.
  apply object_path_inj in He as [He _]; [congruence|done..|]. by eapply Hf.
Qed.

Lemma executeShardSnapshot_full L backupID backupType D Bm s : Forall plain L -> L <> [] -> backupType <> "incremental"%string -> bucketName <> ""%string ->
  (forall m, mgrs s !! key = Some m -> RefCount.locked m = false) -> file_names D -> file_names Bm ->
  holds (disk s) (L ++ ["backup"; "data"]%string) D -> holds (disk s) (L ++ ["backup"; "bitmap"]%string) Bm ->
  exists s' meta, executeShardSnapshot F sched now cluster clusterName bucketName (abs L) key backupID ver pid backupType s = Some (s', Ret tt) /\
    stored (s3 s') L D Bm meta /\ heap s' = heap s /\ taskStatus s' = taskStatus s.
Proof.
  intros HL Hne Hbt Hbucket Hm HD HB Hd Hb. unfold executeShardSnapshot.
  set (bt := if backupType =?s "" then "full"%string else backupType). assert (bt <> "incremental"%string) as Hbt' by (unfold bt; by case_match).
  destruct (manager_ok s Hbucket Hm) as (s0 & m & H0 & K0 & S0). rewrite (hbind_ret _ _ _ _ _ H0).
  destruct (backup_dir_ok L "data" bt D s0 ([], 0%nat) HL Hne ltac:(by apply plain_const) Hbt' ltac:(apply K0) HD ltac:(destruct K0 as (-> & _); exact Hd)) as (s1 & xs & H1 & K1 & S1 & X1).
  destruct (backup_dir_ok L "bitmap" bt Bm s1 ((fun x => meta_of L "data" x.1 x.2) <$> xs, 0%nat) HL Hne ltac:(by apply plain_const) Hbt' ltac:(apply K1) HB
    ltac:(destruct K1 as (-> & _), K0 as (-> & _); exact Hb)) as (s2 & ys & H2 & K2 & S2 & X2).
  cbn [app fst snd] in H1, H2. rewrite (hbind_ret _ _ s0 s2 (((fun x => meta_of L "data" x.1 x.2) <$> xs) ++ ((fun x => meta_of L "bitmap" x.1 x.2) <$> ys), 0%nat)).
  2: { rewrite hfold_cons, (hbind_ret _ _ _ _ _ H1), hfold_cons, (hbind_ret _ _ _ _ _ H2). done. }
  cbn [fst snd]. set (files := _ ++ _). change ((0 <? 0)%nat) with false. cbv iota.
  set (meta := {| PM_PartitionID := pid |}). unfold savePartitionMeta. rewrite backup_path by done.
  destruct (put_ok F meta_object (Hup _) (Marshal meta) s2) as [n Hp].
  rewrite (hbind_ret _ _ s2 (on_objects (<[meta_object := Marshal meta]>) (at_try n s2)) tt) by (rewrite (hbind_ret _ _ _ _ _ (local_ok F _ s2 (Hfs _))); unfold hbind; cbn [hret]; exact Hp).
  unfold RemoveAll. set (s3' := on_objects _ _). rewrite (hbind_ret _ _ s3' (emptied (Join [abs L; "backup"]%string) s3') (Some tt)) by (apply hcatch_ret; by rewrite Hfs).
  eexists _, meta. split; [reflexivity|]. cbn [emptied on_disk put_shard s3 heap taskStatus on_objects at_try s3'].
  split; [|destruct K0 as (_ & E1 & E2 & _), K1 as (_ & E3 & E4 & _), K2 as (_ & E5 & E6 & _); split; congruence].
  split; [apply lookup_insert_eq|]. split; [done|]. split; [done|]. split; [done|]. split; [done|]. split.
  - intros fm. cbn [PM_Files meta]. unfold files. rewrite elem_of_app, !list_elem_of_fmap. split.
    + intros [([name c] & -> & Hin%X1)|([name c] & -> & Hin%X2)]; eexists _, name, c; (split; [|reflexivity]); [by left|by right].
    + intros (dir & name & c & [[-> Hc%X1]|[-> Hc%X2]] & ->); [left|right]; by exists (name, c).
  - intros dir name c Hf. assert (plain dir /\ plain name) as [Hpd Hpn].
    { destruct Hf as [[-> Hc]|[-> Hc]]; (split; [by apply plain_const|]); [by eapply HD|by eapply HB]. }
    rewrite lookup_insert_ne by (by apply meta_object_apart). rewrite S2, S1.
    destruct Hf as [[-> Hc]|[-> Hc]].
    + rewrite (filled_elsewhere "bitmap" ys Bm) by (done || by apply plain_const). by apply (filled_objects "data" xs D); [apply plain_const|..].
    + by apply (filled_objects "bitmap" ys Bm); [apply plain_const|..].
Qed.
End Backup.

(** ** A restore *)

Section Restore.
Context (F : faults) (dsched : list FileMeta -> list FileMeta) `{HMeta : !Codec PartitionBackupMeta}.
Context (Hup : forall object n, exists k, (k <= maxRetries)%nat /\ down F object (n + k)%nat = false) (Hfs : forall op, fs_fails F op = false) (Hdsched : forall l, dsched l ≡ₚ l).
Context (cluster db sp ver : string) (pid : Z) (Hn : version_names cluster db sp ver) (Hpid : in_s 64 pid).
Context (Hdb : db <> "bitmap"%string) (Hsp : sp <> "bitmap"%string) (Hver : ver <> "bitmap"%string).
Notation key := (db +:+ "-" +:+ sp).
Notation object := (object_path cluster db sp ver pid).
Notation meta_ := (meta_of cluster db sp ver pid).

Lemma restore_file_ok L M dir name c s : Forall plain M -> M <> [] -> plain name -> dir = "data"%string \/ dir = "bitmap"%string -> s3 s !! object dir name = Some c ->
  exists n, restore_file F (abs (M ++ ["data"%string])) (abs (M ++ ["bitmap"%string])) (meta_ L dir name c) s =
    Some (on_disk (<[abs (M ++ [dir; name]) := Some c]>) (at_try n s), Ret tt).
Proof.
  intros HM Hne Hname Hdir Hc. destruct (get_ok F _ (Hup _) _ s Hc) as [n Hg]. exists n. unfold restore_file. cbv zeta. rewrite (hbind_ret _ _ _ _ _ (local_ok F _ s (Hfs _))).
  rewrite (local_file_of cluster db sp ver pid Hn Hpid M _ dir name) by (done || (destruct Hdir as [->| ->]; by apply plain_const)).
  cbn [FM_S3Path meta_of]. rewrite (hbind_ret _ _ _ _ _ Hg). unfold local. rewrite Hfs. unfold hbind, hstep, hret. cbn [FM_Size FM_CRC32 meta_of]. destruct (0 <? _); [|done].
  assert ((calcFileCRC32 c =?s calcFileCRC32 c) = true) as -> by (by apply string_eqb_eq). by rewrite andb_false_r.
Qed.

Definition local_entry (M : list string) (x : string * string * string) : string * option string := (abs (M ++ [x.1.1; x.1.2]), Some x.2).

Lemma restore_files L M (xs : list (string * string * string)) : Forall plain M -> M <> [] -> forall s,
  Forall (fun x => plain x.1.2 /\ (x.1.1 = "data"%string \/ x.1.1 = "bitmap"%string) /\ s3 s !! object x.1.1 x.1.2 = Some x.2) xs ->
  exists s', hfold (fun n fm => act! r <- hcatch (restore_file F (abs (M ++ ["data"%string])) (abs (M ++ ["bitmap"%string])) fm) in
                                 hret (Ret match r with Some _ => n | None => S n end)) 0%nat ((fun x => meta_ L x.1.1 x.1.2 x.2) <$> xs) s = Some (s', Ret 0%nat) /\
    disk s' = filled (disk s) (local_entry M <$> xs) /\ s3 s' = s3 s.
Proof.
  intros HM Hne. induction xs as [|[[dir name] c] xs IH]; intros s Hxs; [by exists s|].
  apply Forall_cons in Hxs as [(Hname & Hdir & Hc) Hxs]. cbn [fst snd] in *. destruct (restore_file_ok L M dir name c s HM Hne Hname Hdir Hc) as [n Hr].
  destruct (IH (on_disk (<[abs (M ++ [dir; name]) := Some c]>) (at_try n s))) as (s' & Hf & Hd & Hs3); [exact Hxs|].
  exists s'. rewrite fmap_cons, hfold_cons. cbn [fst snd]. rewrite (hbind_ret _ _ s _ 0%nat) by (by rewrite (hbind_ret _ _ _ _ _ (hcatch_ret _ _ _ _ Hr))).
  rewrite Hf. split; [done|]. by rewrite Hd.
Qed.

(** The files that a backup lists, in any order, as triples. *)
Lemma listed_files L D Bm (l : list FileMeta) : (forall fm, fm ∈ l -> exists dir name c, file_of D Bm dir name c /\ fm = meta_ L dir name c) ->
  exists xs, l = (fun x : string * string * string => meta_ L x.1.1 x.1.2 x.2) <$> xs /\ Forall (fun x => file_of D Bm x.1.1 x.1.2 x.2) xs.
Proof.
  induction l as [|fm l IH]; intros Hl; [by exists []|]. destruct (Hl fm) as (dir & name & c & Hf & ->); [by left|].
  destruct IH as (xs & -> & Hxs); [intros x Hx; apply Hl; by right|]. exists ((dir, name, c) :: xs). split; [done|by constructor].
Qed.

(** The directories before the downloads: there, and empty. *)
Definition prepared (M : list string) (s : shard) : shard :=
  on_disk (fun d => <[abs (M ++ ["bitmap"%string]) := None]> (<[abs (M ++ ["data"%string]) := None]>
     (filter (fun x => below (abs (M ++ ["bitmap"%string])) x.1 = false) (filter (fun x => below (abs (M ++ ["data"%string])) x.1 = false) (<[abs M := None]> d))))) s.

Lemma below_self dir : below dir dir = true.
Proof. unfold below. by rewrite (proj2 (string_eqb_eq dir dir) eq_refl). Qed.

Lemma prepare_ok M s (k : H unit) : (forall c, disk s !! abs M <> Some (Some c)) ->
  (act_! MkdirAll F (abs M) in act_! RemoveAll F (abs (M ++ ["data"%string])) in act_! RemoveAll F (abs (M ++ ["bitmap"%string])) in
   act_! MkdirAll F (abs (M ++ ["data"%string])) in act_! MkdirAll F (abs (M ++ ["bitmap"%string])) in k) s = k (prepared M s).
Proof using Hfs.
  intros HM. assert (forall dir s0, (forall c, disk s0 !! dir <> Some (Some c)) -> MkdirAll F dir s0 = Some (on_disk (<[dir := None]>) s0, Ret tt)) as Hmk.
  { intros dir s0 H0. unfold MkdirAll. rewrite (hbind_ret _ _ _ _ _ (local_ok F _ s0 (Hfs _))). destruct (disk s0 !! dir) as [[c|]|] eqn:E; [by destruct (H0 c)|done..]. }
  assert (forall dir s0, RemoveAll F dir s0 = Some (emptied dir s0, Ret tt)) as Hrm by (intros; unfold RemoveAll; by rewrite Hfs).
  assert (forall dir s0, disk (emptied dir s0) !! dir = None) as Hgone.
  { intros dir s0. apply map_lookup_filter_None. right. intros c _. cbn. by rewrite below_self. }
  assert (forall dir p x s0, disk (emptied dir s0) !! p = Some x -> disk s0 !! p = Some x) as Hsub by (by intros dir p x s0 [? _]%map_lookup_filter_Some).
  rewrite (hbind_ret _ _ _ _ _ (Hmk _ _ HM)), !(hbind_ret _ _ _ _ _ (Hrm _ _)).
  set (s1 := emptied (abs (M ++ ["data"%string])) _). set (s2 := emptied (abs (M ++ ["bitmap"%string])) s1).
  assert (forall c, disk s2 !! abs (M ++ ["data"%string]) <> Some (Some c)) as H2 by (intros c Hc%Hsub; unfold s1 in Hc; by rewrite Hgone in Hc).
  rewrite (hbind_ret _ _ _ _ _ (Hmk _ _ H2)).
  assert (forall c, disk (on_disk (<[abs (M ++ ["data"%string]) := None]>) s2) !! abs (M ++ ["bitmap"%string]) <> Some (Some c)) as H3.
  { intros c Hc. change (<[abs (M ++ ["data"%string]) := None]> (disk s2) !! abs (M ++ ["bitmap"%string]) = Some (Some c)) in Hc.
    apply lookup_insert_Some in Hc as [[_ [=]]|[_ Hc]]. unfold s2 in Hc. by rewrite Hgone in Hc. }
  by rewrite (hbind_ret _ _ _ _ _ (Hmk _ _ H3)).
Qed.

Lemma emptied_dir M s p c : disk (prepared M s) !! p = Some (Some c) ->
  below (abs (M ++ ["data"%string])) p = false /\ below (abs (M ++ ["bitmap"%string])) p = false.
Proof.
  intros H. unfold prepared in H. cbn [disk on_disk put_shard] in H. apply lookup_insert_Some in H as [[_ [=]]|[_ H]]. apply lookup_insert_Some in H as [[_ [=]]|[_ H]].
  apply map_lookup_filter_Some in H as [H Hb]. apply map_lookup_filter_Some in H as [H Hd]. done.
Qed.

(** The directories after the downloads. *)
Lemma restored_dir M (d : gmap string (option string)) (xs : list (string * string * string)) D Bm dir files :
  Forall plain M -> M <> [] -> file_names D -> file_names Bm -> (dir = "data"%string /\ files = D \/ dir = "bitmap"%string /\ files = Bm) ->
  (forall x, x ∈ xs <-> file_of D Bm x.1.1 x.1.2 x.2) -> d !! abs (M ++ [dir]) = Some None ->
  (forall p c, d !! p = Some (Some c) -> below (abs (M ++ [dir])) p = false) -> holds (filled d (local_entry M <$> xs)) (M ++ [dir]) files.
Proof.
  intros HM Hne HD HB Hdir Hxs Hroot Hclean.
  assert (plain "data" /\ plain "bitmap") as [Pd Pb] by (split; by apply plain_const).
  assert (forall x, x ∈ xs -> (x.1.1 = "data"%string \/ x.1.1 = "bitmap"%string) /\ plain x.1.1 /\ plain x.1.2 /\ x.1.2 <> "LOCK"%string) as Hx.
  { intros [[d0 n0] c0] [[He Hc]|[He Hc]]%Hxs; cbn in He, Hc |- *; subst d0; (split; [auto|]); (split; [done|]); [by eapply HD|by eapply HB]. }
  assert (forall d0 n0, plain d0 -> plain n0 -> Forall plain (M ++ [d0; n0])) as Hp by (intros; by apply plain_app).
  assert (plain dir) as Pdir by (destruct Hdir as [[-> _]|[-> _]]; done).
  assert (Forall plain (M ++ [dir])) as Pdirs by (apply Forall_app; split; [done|by apply Forall_singleton]).
  assert (forall p o, (p, o) ∈ local_entry M <$> xs -> exists d0 n0 c0, (d0, n0, c0) ∈ xs /\ p = abs (M ++ [d0; n0]) /\ o = Some c0) as Hkeys.
  { intros p o ([[d0 n0] c0] & [= -> ->] & Hin)%list_elem_of_fmap. by exists d0, n0, c0. }
  assert (forall d0 n0 c0, (d0, n0, c0) ∈ xs -> filled d (local_entry M <$> xs) !! abs (M ++ [d0; n0]) = Some (Some c0)) as Hin.
  { intros d0 n0 c0 H0. apply filled_in; [apply list_elem_of_fmap; by exists (d0, n0, c0)|]. intros o (d1 & n1 & c1 & H1 & He & ->)%Hkeys.
    destruct (Hx _ H0) as (_ & ? & ? & _), (Hx _ H1) as (_ & ? & ? & _). cbn in *. apply abs_inj in He; [|by apply Hp|by apply Hp|by destruct M..].
    apply app_inv_head in He. injection He as -> ->. apply Hxs in H0, H1. unfold file_of in *. cbn in *. destruct H0 as [[-> H0]|[-> H0]], H1 as [[? H1]|[? H1]]; congruence. }
  split.
  - rewrite filled_other; [done|]. intros ([p o] & He & (d0 & n0 & c0 & H0 & -> & ->)%Hkeys)%list_elem_of_fmap. cbn in He. destruct (Hx _ H0) as (_ & ? & ? & _). cbn in *.
    apply abs_inj in He; [|done|by apply Hp|by destruct M..]. apply app_inv_head in He. done.
  - intros p c. split.
    + intros (Hl & Hb & Hlock). destruct (decide (p ∈ (local_entry M <$> xs).*1)) as [Hk|Hk].
      * apply list_elem_of_fmap in Hk as ([p' o] & -> & (d0 & n0 & c0 & H0 & -> & ->)%Hkeys). cbn [fst] in *. rewrite (Hin _ _ _ H0) in Hl. injection Hl as ->.
        destruct (Hx _ H0) as (_ & ? & ? & _). cbn in *. apply below_abs in Hb as [r Hr]; [|done|by apply Hp|by destruct M..].
        rewrite <- app_assoc in Hr. apply app_inv_head in Hr. injection Hr as -> <-. exists n0. rewrite <- app_assoc. split; [|done].
        apply Hxs in H0. unfold file_of in H0. cbn in H0. destruct Hdir as [[-> ->]|[-> ->]], H0 as [[? ?]|[? ?]]; done.
      * rewrite filled_other in Hl by done. by rewrite (Hclean _ _ Hl) in Hb.
    + intros (name & Hc & ->). rewrite <- app_assoc. cbn [app]. assert ((dir, name, c) ∈ xs) as H0 by (apply Hxs; unfold file_of; cbn; destruct Hdir as [[-> ->]|[-> ->]]; auto).
      destruct (Hx _ H0) as (_ & _ & Pn & Hlock). cbn in *. split; [by apply Hin|]. split.
      * apply below_abs; [done|by apply Hp|by destruct M..|]. exists [name]. by rewrite <- app_assoc.
      * change (M ++ [dir; name]) with (M ++ [dir] ++ [name]). rewrite app_assoc, Base_abs by done. done.
Qed.

Lemma listed_exactly L D Bm (xs : list (string * string * string)) : file_names D -> file_names Bm -> Forall (fun x => file_of D Bm x.1.1 x.1.2 x.2) xs ->
  (forall fm, fm ∈ (fun x : string * string * string => meta_ L x.1.1 x.1.2 x.2) <$> xs <-> exists dir name c, file_of D Bm dir name c /\ fm = meta_ L dir name c) ->
  forall x, x ∈ xs <-> file_of D Bm x.1.1 x.1.2 x.2.
Proof.
  intros HD HB Hxs Hfl [[dir name] c]. rewrite Forall_forall in Hxs. split; [intros Hin; by apply (Hxs _ Hin)|]. intros Hf. cbn in Hf.
  assert (meta_ L dir name c ∈ (fun x : string * string * string => meta_ L x.1.1 x.1.2 x.2) <$> xs) as Hin by (apply Hfl; by exists dir, name, c).
  apply list_elem_of_fmap in Hin as ([[d' n'] c'] & He & Hin). pose proof (Hxs _ Hin) as Hf'. cbn in *.
  apply (f_equal FM_S3Path) in He as Ho. apply (f_equal FM_FileName) in He as Hnm. cbn in Ho, Hnm. subst n'.
  assert (plain dir /\ plain d' /\ plain name) as (P1 & P2 & P3).
  { destruct Hf as [[-> Hc]|[-> Hc]], Hf' as [[-> Hc']|[-> Hc']]; (split; [by apply plain_const|split; [by apply plain_const|]]); first [by eapply HD | by eapply HB]. }
  apply object_path_inj in Ho as [-> _]; [|done..]. assert (c = c') as ->; [|done].
  destruct Hf as [[-> Hc]|[-> Hc]], Hf' as [[? Hc']|[? Hc']]; congruence.
Qed.

Lemma restoreShardSnapshot_stored L M D Bm meta s : Forall plain M -> M <> [] -> file_names D -> file_names Bm -> Encodable meta ->
  stored cluster db sp ver pid (s3 s) L D Bm meta -> (forall c, disk s !! abs M <> Some (Some c)) ->
  exists s', restoreShardSnapshot F dsched (abs M) key ver pid cluster s = Some (s', Ret tt) /\
    holds (disk s') (M ++ ["data"%string]) D /\ holds (disk s') (M ++ ["bitmap"%string]) Bm.
Proof.
  intros HM Hne HD HB Henc (Hmeta & Hp & Hv & Hk & _ & Hfiles & Hobj) Hnofile. unfold restoreShardSnapshot, loadPartitionMeta. rewrite backup_path by done.
  destruct (get_ok F _ (Hup _) _ s Hmeta) as [n Hg]. rewrite (hbind_ret _ _ s (at_try n s) meta).
  2: { unfold hbind at 1. cbn [hret]. rewrite (hbind_ret _ _ _ _ _ (local_ok F _ s (Hfs _))), (hbind_ret _ _ _ _ _ Hg), (hbind_ret _ _ _ _ _ (local_ok F _ (at_try n s) (Hfs _))).
       by rewrite Unmarshal_Marshal. }
  rewrite Hp, Hv, Hk, Z.eqb_refl, !(proj2 (string_eqb_eq _ _) eq_refl). cbn [negb orb]. cbv zeta.
  rewrite !Join_abs by (done || (apply Forall_singleton; by apply plain_const)).
  set (fl := dsched _). assert (forall fm, fm ∈ fl <-> exists dir name c, file_of D Bm dir name c /\ fm = meta_ L dir name c) as Hfl.
  { intros fm. unfold fl. rewrite Hdsched, list_elem_of_filter, Hfiles. split; [tauto|]. intros (dir & name & c & Hf & ->). split; [|by exists dir, name, c].
    destruct Hf as [[-> Hc]|[-> Hc]]; [by eapply HD|by eapply HB]. }
  destruct (listed_files L D Bm fl ltac:(intros fm; apply Hfl)) as (xs & Exs & Hxs).
  assert (forall x, x ∈ xs <-> file_of D Bm x.1.1 x.1.2 x.2) as Hiff by (eapply listed_exactly; [done..|]; intros fm; by rewrite <- Exs).
  clearbody fl. subst fl. 
  rewrite prepare_ok by exact Hnofile. set (s1 := prepared M (at_try n s)). destruct (restore_files L M xs HM Hne s1) as (s' & Hf & Hd & _).
  { apply Forall_forall. intros [[dir name] c] Hin. apply Hiff in Hin. cbn in *. split; [|split]; [|destruct Hin as [[? _]|[? _]]; auto|by apply Hobj].
    destruct Hin as [[_ Hc]|[_ Hc]]; [by eapply HD|by eapply HB]. }
  exists s'. split; [by rewrite (hbind_ret _ _ _ _ _ Hf)|]. rewrite Hd.
  assert (forall d, plain d -> Forall plain (M ++ [d])) as HMd by (intros; apply Forall_app; split; [done|by apply Forall_singleton]).
  assert (abs (M ++ ["data"%string]) <> abs (M ++ ["bitmap"%string])) as Hdiff.
  { intros He. apply abs_inj in He; [|by apply HMd, plain_const|by apply HMd, plain_const|by destruct M..]. by apply app_inv_head in He. }
  assert (abs M <> abs (M ++ ["data"%string]) /\ abs M <> abs (M ++ ["bitmap"%string])) as [Hd1 Hd2].
  { split; intros He; (apply abs_inj in He; [|done|by apply HMd, plain_const|done|by destruct M]);
      apply (f_equal length) in He; rewrite length_app in He; cbn in He; lia. }
  split; [apply (restored_dir M _ xs D Bm "data" D HM Hne HD HB ltac:(by left) Hiff)|apply (restored_dir M _ xs D Bm "bitmap" Bm HM Hne HD HB ltac:(by right) Hiff)].
  - cbn. rewrite lookup_insert_ne by done. apply lookup_insert_eq.
  - intros p c Hpc. by apply emptied_dir in Hpc as [? ?].
  - cbn. apply lookup_insert_eq.
  - intros p c Hpc. by apply emptied_dir in Hpc as [? ?].
Qed.
End Restore.

(** ** Backup and restore *)


(** ** Tasks end *)

Definition unlocked (s : shard) : Prop := forall k m, mgrs s !! k = Some m -> RefCount.locked m = false.

(** A computation that returns, whatever the store does, and leaves the tasks alone. *)
Definition returns {A} (m : H A) : Prop :=
  forall s, unlocked s -> exists s' r, m s = Some (s', r) /\ unlocked s' /\ heap s' = heap s /\ taskStatus s' = taskStatus s.

Create HintDb returns.
Lemma returns_ret {A} (r : go A) : returns (hret r).
Proof. intros s Hs. by exists s, r. Qed.
Lemma returns_bind {A B} (m : H A) (k : A -> H B) : returns m -> (forall a, returns (k a)) -> returns (hbind m k).
Proof.
  intros Hm Hk s Hs. destruct (Hm s Hs) as (s1 & r & E & Hs1 & E1 & E2). unfold hbind. rewrite E. destruct r as [a|e|p]; [|by eexists _, _..].
  destruct (Hk a s1 Hs1) as (s2 & r & -> & Hs2 & E3 & E4). eexists _, _. split; [done|]. split; [done|]. split; congruence.
Qed.
Lemma returns_catch {A} (m : H A) : returns m -> returns (hcatch m).
Proof. intros Hm s Hs. destruct (Hm s Hs) as (s1 & r & E & Hs1). unfold hcatch. rewrite E. destruct r; by eexists _, _. Qed.
Lemma returns_fold {A B} (f : B -> A -> H B) xs : (forall b x, returns (f b x)) -> forall b, returns (hfold f b xs).
Proof. intros Hf. induction xs as [|x xs IH]; intros b; [apply returns_ret|]. apply returns_bind; [apply Hf|apply IH]. Qed.
Lemma returns_attempts {A} (op : H A) more : returns op -> returns (attempts more op).
Proof.
  intros Hop. induction more as [|more IH]; intros s Hs; destruct (Hop s Hs) as (s1 & r & E & Hs1 & E1 & E2); cbn [attempts]; rewrite E;
    (destruct r as [a|e|p]; [by eexists _, _| |by eexists _, _]); [by eexists _, _|].
  destruct (IH s1 Hs1) as (s2 & r & -> & Hs2 & E3 & E4). eexists _, _. split; [done|]. split; [done|]. split; congruence.
Qed.
Lemma returns_same {A} (f : shard -> shard) (r : shard -> go A) : (forall s, mgrs (f s) = mgrs s /\ heap (f s) = heap s /\ taskStatus (f s) = taskStatus s) -> returns (fun s => Some (f s, r s)).
Proof. intros Hf s Hs. destruct (Hf s) as (E1 & E2 & E3). eexists _, _. split; [done|]. split; [intros k m; rewrite E1; apply Hs|done]. Qed.
#[export] Hint Resolve returns_ret returns_bind returns_catch returns_fold returns_attempts : returns.

Section Ends.
Context (F : faults) (sched : list string -> list string) (dsched : list FileMeta -> list FileMeta) (now : Z) `{HMeta : !Codec PartitionBackupMeta}.
Context (cluster clusterName bucketName : string).

Lemma returns_put path content : returns (FPutObject F path content).
Proof. intros s Hs. unfold FPutObject. destruct (is_down F path s); by eexists _, _. Qed.
Lemma returns_get path : returns (FGetObject F path).
Proof. intros s Hs. unfold FGetObject. destruct (is_down F path s); [by eexists _, _|]. destruct (s3 s !! path); by eexists _, _. Qed.
Lemma returns_retry {A} (op : H A) : returns op -> returns (retryOperation op).
Proof. apply returns_attempts. Qed.
Lemma returns_step f : (forall s, mgrs (f s) = mgrs s /\ heap (f s) = heap s /\ taskStatus (f s) = taskStatus s) -> returns (hstep f).
Proof. intros Hf. by apply (returns_same f (fun _ => Ret tt)). Qed.
Lemma returns_local op : returns (local F op).
Proof. apply returns_ret. Qed.
Hint Resolve returns_put returns_get returns_retry returns_local : returns.
Lemma returns_walk dir : returns (WalkDir F dir).
Proof. unfold WalkDir. apply returns_bind; [auto with returns|]. intros _. by apply (returns_same id). Qed.
Lemma returns_remove dir : returns (RemoveAll F dir).
Proof. intros s Hs. unfold RemoveAll. case_match; by eexists _, _. Qed.
Lemma returns_mkdir dir : returns (MkdirAll F dir).
Proof. unfold MkdirAll. apply returns_bind; [auto with returns|]. intros _ s Hs. destruct (disk s !! dir) as [[c|]|]; by eexists _, _. Qed.
Hint Resolve returns_walk returns_remove returns_mkdir : returns.

Lemma returns_load path : returns (LoadFromS3 F path).
Proof. unfold LoadFromS3. apply returns_bind; [|auto with returns]. apply returns_catch, returns_retry, returns_same. done. Qed.

Lemma returns_manager key : returns (getOrCreateRefCountManager F cluster clusterName bucketName key).
Proof.
  intros s Hs. unfold getOrCreateRefCountManager. destruct (mgrs s !! key) as [m|]; [by eexists _, _|]. case_match; [by eexists _, _|].
  destruct (returns_load (metadata_path cluster clusterName key) s Hs) as (s1 & r & E & Hs1 & E1 & E2). unfold hbind at 1. rewrite E. destruct r as [t|e|p]; [|by eexists _, _..].
  eexists _, _. split; [reflexivity|]. split; [|done]. intros k m Hm. cbn in Hm. apply lookup_insert_Some in Hm as [[_ <-]|[_ Hm]]; [done|by eapply Hs1].
Qed.

Lemma returns_add_reference key crc path v size : returns (add_reference F now cluster clusterName key crc path v size).
Proof.
  intros s Hs. unfold add_reference, with_manager. destruct (mgrs s !! key) as [m|] eqn:Em; [|by eexists _, _].
  match goal with |- context [attempts maxRetries ?op s] => assert (returns op) as Hop by (by apply returns_same); destruct (returns_attempts op maxRetries Hop s Hs) as (s1 & r & -> & Hs1 & E1 & E2) end.
  unfold RefCount.AddReference, RefCount.Lock. change (RefCount.locked (nothing_uploaded m)) with (RefCount.locked m). rewrite (Hs _ _ Em).
  unfold RefCount.saveToS3Impl, RefCount.RLock. cbn [RefCount.locked RefCount.Unlock RefCount.set_locked RefCount.set_map].
  assert (forall (m' : RefCountManager) (s2 : shard), RefCount.locked m' = false -> mgrs s2 = <[key := m']> (mgrs s1) -> unlocked s2) as Hu.
  { intros m' s2 Hl E k x Hx. rewrite E in Hx. apply lookup_insert_Some in Hx as [[_ <-]|[_ Hx]]; [done|by eapply Hs1]. }
  destruct r as [[]|e|p]; cbn; (eexists _, _; split; [reflexivity|]; split; [|done]); (eapply Hu; [|reflexivity]); reflexivity.
Qed.
Hint Resolve returns_add_reference : returns.

Lemma returns_backup_file key v bt dir file : returns (backup_file F now cluster clusterName key v bt dir file).
Proof.
  unfold backup_file. apply returns_bind; [auto with returns|]. intros _. apply returns_bind; [auto with returns|]. intros _ s Hs. destruct (disk s !! file) as [[content|]|]; [|by eexists _, _..].
  destruct (if bt =?s "incremental" then _ else None) as [r|]; revert s Hs; match goal with |- forall s, _ -> exists s' r, ?m s = _ /\ _ => change (returns m) end; auto 10 with returns.
Qed.

Lemma returns_save meta key v pid : returns (savePartitionMeta F cluster meta key v pid).
Proof. unfold savePartitionMeta. auto with returns. Qed.

Lemma returns_execute path key bid v pid bt : returns (executeShardSnapshot F sched now cluster clusterName bucketName path key bid v pid bt).
Proof.
  unfold executeShardSnapshot. apply returns_bind; [apply returns_manager|]. intros _. apply returns_bind.
  - apply returns_fold. intros acc dir. apply returns_bind; [auto with returns|]. intros files. apply returns_bind; [auto with returns|]. intros d.
    apply returns_fold. intros a file. apply returns_bind; [apply returns_catch, returns_backup_file|auto with returns].
  - intros r. case_match.
    + apply returns_bind; [apply returns_catch, returns_save|auto with returns].
    + apply returns_bind; [apply returns_save|]. auto with returns.
Qed.

Lemma returns_restore path key v pid source : returns (restoreShardSnapshot F dsched path key v pid source).
Proof.
  unfold restoreShardSnapshot, loadPartitionMeta. apply returns_bind; [auto 10 with returns|]. intros meta. case_match; [auto with returns|].
  do 5 (apply returns_bind; [auto with returns|]; intros _). apply returns_bind; [|auto with returns]. apply returns_fold. intros n fm.
  apply returns_bind; [|auto with returns]. apply returns_catch. unfold restore_file. apply returns_bind; [auto with returns|]. intros _. apply returns_bind; [auto with returns|]. intros c.
  apply returns_bind; [by apply returns_step|]. intros _. apply returns_bind; [case_match|]; auto with returns.
Qed.
End Ends.

(** A task that has ended. *)
Definition ended (t : SnapshotTask) : Prop := T_status t = SnapshotStatusCompleted /\ T_errorMessage t = ""%string \/ T_status t = SnapshotStatusFailed.
Definition ends (ref : nat) (m : H unit) : Prop := forall s, unlocked s -> is_Some (heap s !! ref) ->
  exists s' t', m s = Some (s', Ret tt) /\ heap s' !! ref = Some t' /\ ended t' /\ taskStatus s' = taskStatus s.

Lemma marked_failed ref msg s t : heap s !! ref = Some t -> heap (ps_markTaskFailed ref msg s) !! ref = Some (set_T_end SnapshotStatusFailed msg t).
Proof. intros Ht. cbn. by rewrite list_lookup_alter_eq, Ht. Qed.
Lemma marked_completed ref s t : heap s !! ref = Some t -> heap (ps_markTaskCompleted ref s) !! ref = Some (set_T_end SnapshotStatusCompleted "" t).
Proof. intros Ht. cbn. by rewrite list_lookup_alter_eq, Ht. Qed.

Lemma ends_concluded ref m : returns m -> ends ref (concluded ref m).
Proof.
  intros Hm s Hs [t Ht]. destruct (Hm s Hs) as (s1 & r & E & _ & E1 & E2). unfold concluded. rewrite E. rewrite <- E1 in Ht.
  destruct r as [[]|e|p]; (eexists _, _; split; [reflexivity|]; split; [first [by apply marked_completed | by apply marked_failed]|]; split; [|done]); [by left|by right..].
Qed.

Lemma ends_reloading ref load m : returns m -> ends ref (reloading ref load m).
Proof.
  intros Hm s Hs [t Ht]. destruct (Hm s Hs) as (s0 & r & E & _ & E1 & E2). unfold reloading. rewrite E. rewrite <- E1 in Ht.
  assert (forall s2 msg, is_Some (heap s2 !! ref) -> exists t3, heap (ps_markTaskFailed ref msg s2) !! ref = Some t3 /\ ended t3) as Hf.
  { intros s2 msg [t2 H2]. eexists. split; [by apply marked_failed|by right]. }
  set (s1 := match r with Ret _ => ps_markTaskCompleted ref s0 | Fail e => ps_markTaskFailed ref (Error e) s0 | Panic _ => s0 end).
  assert (exists t1, heap s1 !! ref = Some t1 /\ (ended t1 \/ exists p, r = Panic p)) as (t1 & H1 & Hr1).
  { destruct r as [[]|e|p]; unfold s1; [eexists; split; [by apply marked_completed|left; by left]| |by eauto]. destruct (Hf s0 (Error e)) as (t3 & ? & ?); eauto. }
  cbv zeta. set (s2 := match load with Fail e => ps_markTaskFailed ref (Error e) s1 | Panic _ => ps_markTaskFailed ref "panic: %v" s1 | Ret _ => s1 end).
  assert (exists t2, heap s2 !! ref = Some t2 /\ (ended t2 \/ exists p, r = Panic p)) as (t2 & H2 & Hr2).
  { destruct load as [[]|e|p]; unfold s2; [by eauto| |]; [destruct (Hf s1 (Error e)) as (t3 & ? & ?)|destruct (Hf s1 "panic: %v"%string) as (t3 & ? & ?)]; eauto. }
  assert (taskStatus s2 = taskStatus s) as Hst by (rewrite <- E2; unfold s2, s1; by destruct load, r).
  destruct r as [[]|e|p]; [eexists _, t2; split; [done|]; split; [done|]; split; [by destruct Hr2 as [?|[? [=]]]|done]..|].
  destruct (Hf s2 "panic: %v"%string) as (t3 & H3 & He3); [by eexists|]. by eexists _, t3.
Qed.

Section Tasks.
Context (F : faults) (sched : list string -> list string) (dsched : list FileMeta -> list FileMeta) (now : Z) `{HMeta : !Codec PartitionBackupMeta}.
Context (cluster clusterName bucketName : string) (getPartition : Z -> option (option engine)).

Lemma startShardSnapshot_ends ref t : ends ref (startShardSnapshot F sched now cluster clusterName bucketName getPartition ref t).
Proof.
  apply ends_concluded. apply returns_bind; [auto with returns|]. intros e. apply returns_bind; [auto with returns|]. intros cfg.
  apply returns_bind; [auto with returns|]. intros _. apply returns_bind; [by apply returns_step|]. intros _. apply returns_bind; [auto with returns|]. intros path. apply returns_execute.
Qed.

Lemma startShardRestore_ends ref t : ends ref (startShardRestore F dsched cluster getPartition ref t).
Proof.
  intros s Hs Hr. unfold startShardRestore. destruct (_ : go (engine * option string)) as [[e cfg]|e|p].
  - apply ends_reloading; [|done..]. apply returns_bind; [auto with returns|]. intros _. apply returns_bind; [auto with returns|]. intros path. apply returns_restore.
  - destruct Hr as [t0 Ht0]. eexists _, _. split; [reflexivity|]. split; [by apply marked_failed|]. split; [by right|done].
  - destruct Hr as [t0 Ht0]. eexists _, _. split; [reflexivity|]. split; [by apply marked_failed|]. split; [by right|done].
Qed.

(** What the master is told of a task that has ended. *)
Definition reported_end (s : shard) (key bid : string) (pid : Z) : Prop :=
  GetBackupTaskStatus s key bid pid = (1, ""%string, true) \/ exists msg, GetBackupTaskStatus s key bid pid = (2, msg, true).

Lemma ended_reported s ref t key bid pid : taskStatus s !! getTaskKey key bid pid = Some ref -> heap s !! ref = Some t -> ended t -> reported_end s key bid pid.
Proof.
  intros H1 H2 He. unfold reported_end, GetBackupTaskStatus, GetTaskStatus. rewrite H1. cbn. rewrite H2.
  destruct He as [[-> ->]| ->]; [by left|right; by eexists].
Qed.

Lemma registered_task t s : let '(s', ref) := registerTask t s in
  taskStatus s' !! getTaskKey (T_spaceKey t) (T_backupID t) (T_PartitionID t) = Some ref /\ heap s' !! ref = Some t /\ mgrs s' = mgrs s.
Proof. cbn. split; [apply lookup_insert_eq|]. split; [|done]. by rewrite lookup_app_r, Nat.sub_diag by lia. Qed.

End Tasks.

(** ** Concrete runs *)

#[export] Instance file_meta_eq_dec : EqDecision FileMeta.
Proof. solve_decision. Defined.
#[export] Instance file_meta_countable : Countable FileMeta.
Proof.
  refine (inj_countable' (fun f => (FM_FilePath f, FM_FileName f, FM_CRC32 f, FM_Size f, FM_S3Path f, FM_LocalPath f, FM_UploadStatus f))
    (fun x => let '(a, b, c, d, e, f, g) := x in {| FM_FilePath := a; FM_FileName := b; FM_CRC32 := c; FM_Size := d; FM_S3Path := e; FM_LocalPath := f; FM_UploadStatus := g |}) _). by intros [].
Defined.
#[export] Instance partition_meta_eq_dec : EqDecision PartitionBackupMeta.
Proof. solve_decision. Defined.
#[export] Instance partition_meta_countable : Countable PartitionBackupMeta.
Proof.
  refine (inj_countable' (fun m => (PM_PartitionID m, PM_BackupID m, PM_VersionID m, PM_SpaceKey m, PM_Files m, PM_TotalFiles m, PM_TotalSize m, PM_CompletedAt m))
    (fun x => let '(a, b, c, d, e, f, g, h) := x in {| PM_PartitionID := a; PM_BackupID := b; PM_VersionID := c; PM_SpaceKey := d; PM_Files := e; PM_TotalFiles := f;
      PM_TotalSize := g; PM_CompletedAt := h |}) _). by intros [].
Defined.

Definition demo_disk (content : string) : gmap string (option string) :=
  {[ "/e/backup/data"%string := None; "/e/backup/bitmap"%string := None; "/e/backup/data/f"%string := Some content; "/e/backup/bitmap/b"%string := Some "x"%string ]}.
Definition demo_shard (content : string) : shard :=
  {| disk := demo_disk content; s3 := ∅; counts := ∅; mgrs := ∅; heap := []; taskStatus := ∅; tries := ∅ |}.

(** For every object, the first call of every pair fails. *)
Definition flaky : faults := {| down := fun _ n => Nat.even n; fs_fails := fun _ => false; fs_left := fun _ _ => false |}.
Definition broken : faults := {| down := fun _ _ => true; fs_fails := fun _ => true; fs_left := fun _ _ => true |}.

Notation demo_backup backupID ver backupType := (executeShardSnapshot (HMeta := countable_codec) flaky id 5 "c1" "c1" "bucket" "/e" "db-s" backupID ver 7 backupType).
Notation demo_restore ver := (restoreShardSnapshot (HMeta := countable_codec) flaky id "/e" "db-s" ver 7 "c1").
Definition collision : option (shard * go unit) :=
  match demo_backup "u1"%string "v1"%string "full"%string (demo_shard "bbVxcFSz") with
  | Some (s1, Ret _) =>
    match demo_backup "u2"%string "v2"%string "incremental"%string (on_disk (fun _ => demo_disk "KIrpBfBl") s1) with
    | Some (s2, Ret _) => demo_restore "v2"%string s2
    | x => x
    end
  | x => x
  end.

(** Contents are told apart by their checksum alone: an incremental backup of a file whose content has the checksum of one that is stored uploads
    nothing, and its restore, which reports success as the backup does, gives the other content. *)
Theorem incremental_takes_checksum_for_content :
  calcFileCRC32 "bbVxcFSz" = calcFileCRC32 "KIrpBfBl" /\
  exists s1 s2 s3, demo_backup "u1"%string "v1"%string "full"%string (demo_shard "bbVxcFSz") = Some (s1, Ret tt) /\
    demo_backup "u2"%string "v2"%string "incremental"%string (on_disk (fun _ => demo_disk "KIrpBfBl") s1) = Some (s2, Ret tt) /\
    demo_restore "v2"%string s2 = Some (s3, Ret tt) /\ disk s3 !! "/e/data/f"%string = Some (Some "bbVxcFSz"%string).
Proof.
  split; [vm_compute; reflexivity|].
  assert ((fun x => (disk x.1 !! "/e/data/f"%string, x.2)) <$> collision = Some (Some (Some "bbVxcFSz"%string), Ret tt)) as H by (vm_compute; reflexivity).
  unfold collision in H. destruct (demo_backup _ _ _ (demo_shard "bbVxcFSz")) as [[s1 [[]|e|p]]|]; [|by destruct s1..|done].
  exists s1. destruct (demo_backup _ _ _ (on_disk _ s1)) as [[s2 [[]|e|p]]|]; [|by destruct s2..|done].
  exists s2. destruct (demo_restore _ s2) as [[s3 r]|]; [|done]. injection H as Hd ->. by exists s3.
Qed.

(** The directory of a file is guessed from the path of its object: in a database that is called [bitmap], files of the data directory are restored into the
    bitmap directory. *)
Theorem bitmap_database_misplaced cluster sp ver (pid : Z) L M name content : version_names cluster "bitmap" sp ver -> in_s 64 pid -> Forall plain M -> M <> [] -> plain name ->
  local_file (abs (M ++ ["data"%string])) (abs (M ++ ["bitmap"%string])) (meta_of cluster "bitmap" sp ver pid L "data" name content) = abs (M ++ ["bitmap"%string; name]).
Proof.
  intros Hn Hpid HM Hne Hname. unfold local_file. cbn [FM_S3Path FM_FileName meta_of].
  assert (Contains (object_path cluster "bitmap" sp ver pid "data" name) "/bitmap/" = true) as ->.
  { change "/bitmap/"%string with ("/" +:+ "bitmap" +:+ "/"). apply Contains_segment; [apply plain_app; [by apply plain_version|by apply plain_const|done]|by apply plain_const|].
    by exists [cluster; "backup"%string], [sp; ver; pretty pid; "data"%string; name]. }
  rewrite Join_abs; [by rewrite <- app_assoc|apply Forall_app; split; [done|apply Forall_singleton; by apply plain_const]|by apply Forall_singleton|by destruct M|done].
Qed.

Lemma demo_names : version_names "c1" "db" "s" "v1".
Proof. split; first [by apply plain_const | by apply (bool_decide_unpack _); vm_compute]. Qed.

Lemma demo_holds content dir name c : demo_disk content !! abs ["e"; "backup"; dir]%string = Some None ->
  (forall p x, demo_disk content !! p = Some (Some x) -> below (abs ["e"; "backup"; dir]%string) p = true -> p = abs ["e"; "backup"; dir; name]%string /\ x = c) ->
  demo_disk content !! abs ["e"; "backup"; dir; name]%string = Some (Some c) -> below (abs ["e"; "backup"; dir]%string) (abs ["e"; "backup"; dir; name]%string) = true ->
  Base (abs ["e"; "backup"; dir; name]%string) <> "LOCK"%string -> holds (demo_disk content) ["e"; "backup"; dir]%string {[ name := c ]}.
Proof.
  intros H1 H2 H3 H4 H5. split; [done|]. intros p x. split.
  - intros (Hp & Hb & _). destruct (H2 p x Hp Hb) as [-> ->]. exists name. by rewrite lookup_singleton_eq.
  - intros (n & Hn & ->). apply lookup_singleton_Some in Hn as [<- <-]. done.
Qed.

Lemma demo_file content p x : demo_disk content !! p = Some (Some x) -> p = "/e/backup/data/f"%string /\ x = content \/ p = "/e/backup/bitmap/b"%string /\ x = "x"%string.
Proof.
  intros H. unfold demo_disk in H. apply lookup_insert_Some in H as [[_ He]|[_ H]]; [discriminate He|]. apply lookup_insert_Some in H as [[_ He]|[_ H]]; [discriminate He|].
  apply lookup_insert_Some in H as [[<- He]|[_ H]]; [injection He as ->; by left|]. apply lookup_singleton_Some in H as [<- He]. injection He as <-. by right.
Qed.

Lemma demo_no_r : match executeShardSnapshot (HMeta := countable_codec) flaky id 5 "c1" "c1" "bucket" "/e" "db-s" "u1" "v1" 7 "full" (demo_shard "abc") with
  | Some (s', _) => disk s' !! "/r"%string = None
  | None => True
  end.
Proof. vm_compute. reflexivity. Qed.


Lemma bitmap_database_misplaced_witness :
  local_file "/r/data" "/r/bitmap" (meta_of "c1" "bitmap" "s" "v1" 7 ["e"%string] "data" "f" "abc") = "/r/bitmap/f"%string.
Proof.
  apply (bitmap_database_misplaced "c1" "s" "v1" 7 ["e"%string] ["r"%string] "f" "abc").
  - split; first [by apply plain_const | by apply (bool_decide_unpack _); vm_compute].
  - unfold in_s. lia.
  - apply Forall_singleton. by apply plain_const.
  - done.
  - by apply plain_const.
Defined.

Definition demo_engine : engine := {| e_cfg := Ret (Some "/e"%string); e_snapshot := Ret tt; e_files := fun _ => demo_disk "abc"; e_closed := fun _ => false; e_load := Ret tt |}.

