(* ===== verification/DistLock.v ===== *)
(** * The distributed lock (internal/master/store/distlock.go)

    A lock is a directory of etcd: every contender puts a key named after its
    own lease and waits until no key of a smaller revision is left.  The state
    is what etcd keeps for one lock path and where each client stands in
    [Lock]; a step is one etcd request of a client, the expiry of a lease, or a
    write elsewhere in the store.  Any number of clients interleave. *)

From S2P Require Import Prelude.
From S2P Require Import Errors.
Open Scope Z_scope.

(** The part of etcd the lock sees: the store's revision, the live leases, and
    the keys under [path/] - each attached to the lease it is named after - with
    their revisions. *)
Record etcd : Type := { revision : Z; next_lease : Z; leases : gset Z; lock_keys : gmap Z Z }.

Definition init_etcd : etcd := {| revision := 1; next_lease := 1; leases := ∅; lock_keys := ∅ |}.

(** ** Requests *)

(** [client.Grant] *)
Definition Grant_lease (s : etcd) : etcd * Z :=
  ({| revision := revision s; next_lease := next_lease s + 1; leases := {[ next_lease s ]} ∪ leases s; lock_keys := lock_keys s |}, next_lease s).

(** [client.Revoke]: the keys of the lease go with it; a lease that is not
    there is an error. *)
Definition Revoke_lease (s : etcd) (l : Z) : etcd * bool :=
  if decide (l ∈ leases s)
  then ({| revision := revision s + 1; next_lease := next_lease s; leases := leases s ∖ {[ l ]}; lock_keys := delete l (lock_keys s) |}, true)
  else (s, false).

(** [newUniqueEphemeralKV]: put the key if it is not there; the revision of the
    transaction, if it succeeded. *)
Definition newUniqueEphemeralKV (s : etcd) (l : Z) : etcd * option Z :=
  if decide (l ∈ leases s) then
    match lock_keys s !! l with
    | Some _ => (s, None)
    | None => ({| revision := revision s + 1; next_lease := next_lease s; leases := leases s;
                  lock_keys := <[l := revision s + 1]> (lock_keys s) |}, Some (revision s + 1))
    end
  else (s, None).

(** What a failed [newUniqueEphemeralKV] leaves: its transaction may have been
    served all the same ([lost]), and when the context was cancelled the key is
    deleted ([cleaned]). *)
Definition put_failed (s : etcd) (l : Z) (lost cleaned : bool) : etcd :=
  let e := if lost then (newUniqueEphemeralKV s l).1 else s in
  if cleaned then {| revision := revision e + 1; next_lease := next_lease e; leases := leases e; lock_keys := delete l (lock_keys e) |} else e.

(** [Get(path+"/", WithLastRev, WithMaxModRev(rev - 1))] finds nothing. *)
Definition first_in_line (s : etcd) (rev : Z) : bool := forallb (fun kv => rev - 1 <? kv.2) (map_to_list (lock_keys s)).

(** ** Clients *)

Inductive phase : Type :=
| Granted (l : Z)             (** in [lock], the lease is granted *)
| Waiting (l rev : Z)         (** in the loop over [waitOnLastRev] *)
| Locked (l rev : Z)          (** [lock] returned nil, and so did [Lock] *)
| NilWithout (l : Z)          (** [lock] failed, [Lock] returned nil *)
| Errored.                    (** [Lock] returned an error *)

(** [Lock]: after a failed [lock], the result of [Unlock] is returned. *)
Definition Lock_result (lock_failed unlock_ok : bool) (l rev : Z) : phase :=
  if lock_failed then (if unlock_ok then NilWithout l else Errored) else Locked l rev.

Record state : Type := { et : etcd; clients : gmap nat phase }.
Definition init : state := {| et := init_etcd; clients := ∅ |}.

Definition at_phase (s : state) (c : nat) (e : etcd) (p : phase) : state := {| et := e; clients := <[c := p]> (clients s) |}.

(** [revoked], [first], [second]: whether a [Revoke] was served. *)
Inductive step : state -> state -> Prop :=
| s_grant s c e l :
    clients s !! c = None -> Grant_lease (et s) = (e, l) -> step s (at_phase s c e (Granted l))
| s_grant_fails s c :            (* no lease to revoke: [Unlock] fails too *)
    clients s !! c = None -> step s (at_phase s c (et s) (Lock_result true false 0 0))
| s_put s c l e rev :
    clients s !! c = Some (Granted l) -> newUniqueEphemeralKV (et s) l = (e, Some rev) -> step s (at_phase s c e (Waiting l rev))
| s_put_fails s c l (lost cleaned revoked : bool) e' ok :
    clients s !! c = Some (Granted l) ->
    Revoke_lease (put_failed (et s) l lost cleaned) l = (e', ok) ->
    step s (at_phase s c (if revoked then e' else put_failed (et s) l lost cleaned) (Lock_result true (revoked && ok) l 0))
| s_acquire s c l rev :
    clients s !! c = Some (Waiting l rev) -> first_in_line (et s) rev = true -> step s (at_phase s c (et s) (Lock_result false true l rev))
| s_wait_fails s c l rev (first second : bool) e1 ok1 e2 ok2 :   (* [lock] revokes, then [Unlock] does *)
    clients s !! c = Some (Waiting l rev) ->
    Revoke_lease (et s) l = (e1, ok1) -> Revoke_lease (if first then e1 else et s) l = (e2, ok2) ->
    step s (at_phase s c (if second then e2 else if first then e1 else et s) (Lock_result true (second && ok2) l rev))
| s_trylock_fails s c p l (revoked : bool) e ok :                (* [TryLock] gives up: it is busy, or a request failed *)
    clients s !! c = Some p -> (p = Granted l \/ exists rev, p = Waiting l rev) -> Revoke_lease (et s) l = (e, ok) ->
    step s (at_phase s c (if revoked then e else et s) Errored)
| s_unlock s c l rev (revoked : bool) e ok :                     (* when the request is lost the key stays until the lease expires *)
    clients s !! c = Some (Locked l rev) -> Revoke_lease (et s) l = (e, ok) ->
    step s {| et := if revoked then e else et s; clients := delete c (clients s) |}
| s_expire s l e ok :
    Revoke_lease (et s) l = (e, ok) -> step s {| et := e; clients := clients s |}
| s_write s :
    step s {| et := {| revision := revision (et s) + 1; next_lease := next_lease (et s); leases := leases (et s); lock_keys := lock_keys (et s) |};
              clients := clients s |}.

Inductive reachable : state -> Prop :=
| r_init : reachable init
| r_step s s' : reachable s -> step s s' -> reachable s'.

(** ** Mutual exclusion *)

Definition lease_of (p : phase) : option Z :=
  match p with Granted l | Waiting l _ | Locked l _ | NilWithout l => Some l | Errored => None end.
Definition rev_of (p : phase) : option (Z * Z) :=
  match p with Waiting l r | Locked l r => Some (l, r) | _ => None end.

Record etcd_ok (e : etcd) : Prop := {
  eo_rev : forall l r, lock_keys e !! l = Some r -> r <= revision e;
  eo_inj : forall l l' r, lock_keys e !! l = Some r -> lock_keys e !! l' = Some r -> l = l';
  eo_lease : forall l r, lock_keys e !! l = Some r -> l < next_lease e;
  eo_live : forall l, l ∈ leases e -> l < next_lease e
}.

Record lock_inv (s : state) : Prop := {
  li_etcd : etcd_ok (et s);
  li_fresh : forall c p l, clients s !! c = Some p -> lease_of p = Some l -> l < next_lease (et s);
  li_own : forall c c' p p' l, clients s !! c = Some p -> clients s !! c' = Some p' ->
             lease_of p = Some l -> lease_of p' = Some l -> c = c';
  li_rev : forall c p l r r', clients s !! c = Some p -> rev_of p = Some (l, r) -> lock_keys (et s) !! l = Some r' -> r' = r;
  li_past : forall c p l r, clients s !! c = Some p -> rev_of p = Some (l, r) -> r <= revision (et s);
  li_first : forall c l r l' r', clients s !! c = Some (Locked l r) -> lock_keys (et s) !! l' = Some r' -> r <= r'
}.

(** Keys disappear and counters move on. *)
Definition shrinks (e e' : etcd) : Prop :=
  lock_keys e' ⊆ lock_keys e /\ revision e <= revision e' /\ next_lease e <= next_lease e' /\ forall l, l ∈ leases e' -> l < next_lease e'.

Lemma etcd_shrink e e' : etcd_ok e -> shrinks e e' -> etcd_ok e'.
Proof.
  intros [] (Hs & Hr & Hn & Hl). split; [| | |done].
  - intros l r H. eapply lookup_weaken in H; [|exact Hs]. apply eo_rev0 in H. lia.
  - intros l l' r H1 H2. eapply eo_inj0; by eapply lookup_weaken.
  - intros l r H. eapply lookup_weaken in H; [|exact Hs]. apply eo_lease0 in H. lia.
Qed.

Lemma inv_shrink s e : lock_inv s -> shrinks (et s) e -> lock_inv {| et := e; clients := clients s |}.
Proof.
  intros [] Hsh. pose proof (etcd_shrink _ _ li_etcd0 Hsh). destruct Hsh as (Hs & Hr & Hn & Hl).
  split; cbn [et clients]; try done.
  - intros c p l Hc Hp. specialize (li_fresh0 c p l Hc Hp). lia.
  - intros c p l r r' Hc Hp Hk. eapply li_rev0; [done..|]. by eapply lookup_weaken.
  - intros c p l r Hc Hp. specialize (li_past0 c p l r Hc Hp). lia.
  - intros c l r l' r' Hc Hk. eapply li_first0; [done|]. by eapply lookup_weaken.
Qed.

Lemma Revoke_shrinks e l : etcd_ok e -> shrinks e (Revoke_lease e l).1.
Proof.
  intros []. unfold Revoke_lease. case_decide; unfold shrinks; cbn [fst lock_keys revision next_lease leases]; (split_and!; [|lia|lia|]); try done;
    [apply delete_subseteq|set_solver].
Qed.

Lemma inv_revoke s l e ok : lock_inv s -> Revoke_lease (et s) l = (e, ok) -> lock_inv {| et := e; clients := clients s |}.
Proof. intros Hi He. apply inv_shrink; [done|]. pose proof (Revoke_shrinks (et s) l (li_etcd _ Hi)) as H. by rewrite He in H. Qed.

(** The key of a lease no waiting client refers to yet. *)
Lemma inv_put s l :
  lock_inv s -> (forall c p r, clients s !! c = Some p -> rev_of p <> Some (l, r)) ->
  lock_inv {| et := (newUniqueEphemeralKV (et s) l).1; clients := clients s |}.
Proof.
  intros Hi Hl. unfold newUniqueEphemeralKV. destruct (decide (l ∈ leases (et s))) as [Hin|]; [|by destruct s].
  destruct (lock_keys (et s) !! l) eqn:Hk; [by destruct s|]. destruct Hi as [[] ? ? ? ? ?].
  split; cbn [fst et clients lock_keys revision next_lease leases]; [split; cbn [lock_keys revision next_lease leases]|..]; try done.
  - intros l' r [[_ <-]|[_ H]]%lookup_insert_Some; [lia|]. apply eo_rev0 in H. lia.
  - intros l1 l2 r [[<- <-]|[_ H1]]%lookup_insert_Some [[<- E]|[_ H2]]%lookup_insert_Some; try done.
    + apply eo_rev0 in H2. lia.
    + subst r. apply eo_rev0 in H1. lia.
    + by eapply eo_inj0.
  - intros l' r [[<- _]|[_ H]]%lookup_insert_Some; [by apply eo_live0|by eapply eo_lease0].
  - intros c p l' r r' Hc Hp [[<- _]|[_ H]]%lookup_insert_Some; [by destruct (Hl c p r Hc)|by eapply li_rev0].
  - intros c p l' r Hc Hp. specialize (li_past0 c p l' r Hc Hp). lia.
  - intros c l1 r l' r' Hc [[_ <-]|[_ H]]%lookup_insert_Some; [|by eapply li_first0].
    specialize (li_past0 c (Locked l1 r) l1 r Hc eq_refl). lia.
Qed.

Lemma inv_put_failed s l lost cleaned :
  lock_inv s -> (forall c p r, clients s !! c = Some p -> rev_of p <> Some (l, r)) ->
  lock_inv {| et := put_failed (et s) l lost cleaned; clients := clients s |}.
Proof.
  intros Hi Hl. unfold put_failed.
  assert (lock_inv {| et := if lost then (newUniqueEphemeralKV (et s) l).1 else et s; clients := clients s |}) as Hi'.
  { destruct lost; [by apply inv_put|by destruct s]. }
  destruct cleaned; [|done]. apply (inv_shrink _ _ Hi'). unfold shrinks; cbn [et lock_keys revision next_lease leases].
  split_and!; [apply delete_subseteq|lia|lia|]. apply (eo_live _ (li_etcd _ Hi')).
Qed.

(** A client moves to another phase. *)
Lemma inv_phase s c p :
  lock_inv s ->
  (forall l, lease_of p = Some l -> l < next_lease (et s) /\ forall c' p', clients s !! c' = Some p' -> lease_of p' = Some l -> c' = c) ->
  (forall l r, rev_of p = Some (l, r) -> r <= revision (et s) /\ forall r', lock_keys (et s) !! l = Some r' -> r' = r) ->
  (forall l r l' r', p = Locked l r -> lock_keys (et s) !! l' = Some r' -> r <= r') ->
  lock_inv (at_phase s c (et s) p).
Proof.
  intros [] Hlease Hrev Hfirst. split; cbn [at_phase et clients]; try done.
  - intros c' p' l [[_ <-]|[_ H]]%lookup_insert_Some Hp; [by apply Hlease|by eapply li_fresh0].
  - intros c1 c2 p1 p2 l [[<- <-]|[_ H1]]%lookup_insert_Some [[<- <-]|[_ H2]]%lookup_insert_Some Hp1 Hp2; try done.
    + symmetry. by apply (proj2 (Hlease l Hp1) c2 p2).
    + by apply (proj2 (Hlease l Hp2) c1 p1).
    + by eapply li_own0.
  - intros c' p' l r r' [[_ <-]|[_ H]]%lookup_insert_Some Hp Hk; [by apply (proj2 (Hrev l r Hp))|by eapply li_rev0].
  - intros c' p' l r [[_ <-]|[_ H]]%lookup_insert_Some Hp; [by apply (Hrev l r Hp)|by eapply li_past0].
  - intros c' l r l' r' [[_ E]|[_ H]]%lookup_insert_Some Hk; [by eapply Hfirst|by eapply li_first0].
Qed.

(** The client keeps its lease, or drops it. *)
Lemma inv_keep_lease s c p0 p :
  lock_inv s -> clients s !! c = Some p0 -> (lease_of p = lease_of p0 \/ lease_of p = None) ->
  (forall l r, rev_of p = Some (l, r) -> r <= revision (et s) /\ forall r', lock_keys (et s) !! l = Some r' -> r' = r) ->
  (forall l r l' r', p = Locked l r -> lock_keys (et s) !! l' = Some r' -> r <= r') ->
  lock_inv (at_phase s c (et s) p).
Proof.
  intros Hi Hc Hlease. apply inv_phase; [done|]. intros l Hl. destruct Hlease as [E|E]; [|congruence]. rewrite Hl in E. split.
  - by eapply li_fresh.
  - intros c' p' Hc' Hp'. by eapply li_own.
Qed.

Lemma inv_fails s c p0 l rev ok :
  lock_inv s -> clients s !! c = Some p0 -> lease_of p0 = Some l -> lock_inv (at_phase s c (et s) (Lock_result true ok l rev)).
Proof.
  intros Hi Hc Hl. eapply inv_keep_lease; [done..| | |]; unfold Lock_result; destruct ok; try done; [by left|by right].
Qed.

Lemma first_in_line_spec e rev l r : first_in_line e rev = true -> lock_keys e !! l = Some r -> rev <= r.
Proof.
  unfold first_in_line. rewrite forallb_forall. intros H Hk. specialize (H (l, r)). cbn in H.
  apply elem_of_map_to_list, list_elem_of_In in Hk. specialize (H Hk). lia.
Qed.

Lemma granted_no_rev s c l : lock_inv s -> clients s !! c = Some (Granted l) ->
  forall c' p r, clients s !! c' = Some p -> rev_of p <> Some (l, r).
Proof.
  intros Hi Hc c' p r Hp Hr. assert (lease_of p = Some l) as Hl by (destruct p; cbn in *; simplify_eq; done).
  assert (c' = c) as -> by by eapply li_own. rewrite Hc in Hp. simplify_eq.
Qed.

Lemma lock_inv_step s s' : lock_inv s -> step s s' -> lock_inv s'.
Proof.
  intros Hi Hstep. pose proof (li_etcd _ Hi) as Hok. destruct Hstep as
    [s c e l Hc He|s c Hc|s c l e rev Hc He|s c l lost cleaned revoked e' ok Hc He|s c l rev Hc Hf|
     s c l rev first second e1 ok1 e2 ok2 Hc H1 H2|s c p l revoked e ok Hc Hp He|s c l rev revoked e ok Hc He|s l e ok He|s].
  - injection He as <- <-.
    assert (lock_inv {| et := (Grant_lease (et s)).1; clients := clients s |}) as Hi'.
    { apply inv_shrink; [done|]. unfold shrinks; cbn [Grant_lease fst lock_keys revision next_lease leases].
      split_and!; [done|lia|lia|]. intros l [->%elem_of_singleton|Hl]%elem_of_union; [lia|]. apply (eo_live _ Hok) in Hl. lia. }
    refine (inv_phase _ c (Granted (next_lease (et s))) Hi' _ _ _); [|done..]. cbn. intros l [= <-]. split; [lia|].
    intros c' p' Hc' Hp'. apply (li_fresh _ Hi _ _ _ Hc') in Hp'. lia.
  - by apply inv_phase.
  - pose proof (inv_put s l Hi (granted_no_rev s c l Hi Hc)) as Hi'. revert He Hi'. unfold newUniqueEphemeralKV.
    destruct (decide (l ∈ leases (et s))); [|done]. destruct (lock_keys (et s) !! l); [done|]. intros [= <- <-] Hi'.
    refine (inv_keep_lease _ c (Granted l) (Waiting l _) Hi' Hc (or_introl eq_refl) _ _); [|done].
    cbn. intros l' r [= <- <-]. split; [lia|]. rewrite lookup_insert_eq. congruence.
  - pose proof (inv_put_failed s l lost cleaned Hi (granted_no_rev s c l Hi Hc)) as Hi'.
    pose proof (inv_revoke _ l e' ok Hi' He) as Hi''.
    destruct revoked; [by eapply (inv_fails _ c _ l 0 _ Hi'' Hc)|by eapply (inv_fails _ c _ l 0 _ Hi' Hc)].
  - eapply inv_keep_lease; [done..|by left| |]; cbn.
    + intros l' r [= <- <-]. split; [by eapply li_past|]. intros r' Hk. by eapply li_rev.
    + intros l1 r l' r' [= <- <-] Hk. by eapply first_in_line_spec.
  - assert (lock_inv {| et := if first then e1 else et s; clients := clients s |}) as Hi'.
    { destruct first; [by eapply inv_revoke|by destruct s]. }
    pose proof (inv_revoke _ l e2 ok2 Hi' H2) as Hi''.
    destruct second; [by eapply (inv_fails _ c _ l rev _ Hi'' Hc)|by eapply (inv_fails _ c _ l rev _ Hi' Hc)].
  - assert (lease_of p = Some l) as Hl by by destruct Hp as [->|[? ->]]. pose proof (inv_revoke _ l e ok Hi He) as Hi'.
    destruct revoked; [by eapply (inv_fails _ c _ l 0 false Hi' Hc)|by eapply (inv_fails _ c _ l 0 false Hi Hc)].
  - assert (lock_inv {| et := if revoked then e else et s; clients := clients s |}) as [] by (destruct revoked; [by eapply inv_revoke|by destruct s]). split; cbn [et clients] in *; try done.
    + intros c' p l' [_ H]%lookup_delete_Some. by eapply li_fresh0.
    + intros c1 c2 p1 p2 l' [_ H1]%lookup_delete_Some [_ H2]%lookup_delete_Some. by eapply li_own0.
    + intros c' p l' r r' [_ H]%lookup_delete_Some. by eapply li_rev0.
    + intros c' p l' r [_ H]%lookup_delete_Some. by eapply li_past0.
    + intros c' l1 r l' r' [_ H]%lookup_delete_Some. by eapply li_first0.
  - by eapply inv_revoke.
  - apply inv_shrink; [done|]. unfold shrinks; cbn [lock_keys revision next_lease leases]. split_and!; [done|lia|lia|].
    intros l. by apply eo_live.
Qed.

Lemma reachable_inv s : reachable s -> lock_inv s.
Proof.
  induction 1 as [|s s' _ IH Hstep]; [|by eapply lock_inv_step].
  split; cbn; [split; cbn|..]; try (intros; set_solver); try (intros ? ? []%lookup_empty_Some);
    try (intros ? ? ? []%lookup_empty_Some); intros *; intros []%lookup_empty_Some.
Qed.

(** The lock excludes: of the clients whose [lock] succeeded, at most one still
    has its key - however requests of any number of clients interleave, whichever
    of them fail, and whichever leases expire.  (C28) *)
Theorem lock_mutual_exclusion (s : state) (c1 c2 : nat) (l1 r1 l2 r2 : Z) :
  reachable s ->
  clients s !! c1 = Some (Locked l1 r1) -> is_Some (lock_keys (et s) !! l1) ->
  clients s !! c2 = Some (Locked l2 r2) -> is_Some (lock_keys (et s) !! l2) -> c1 = c2.
Proof.
  intros Hr H1 [k1 K1] H2 [k2 K2]. apply reachable_inv in Hr.
  assert (k1 = r1) as -> by by eapply (li_rev _ Hr c1). assert (k2 = r2) as -> by by eapply (li_rev _ Hr c2).
  pose proof (li_first _ Hr _ _ _ _ _ H1 K2). pose proof (li_first _ Hr _ _ _ _ _ H2 K1).
  assert (r1 = r2) as -> by lia. assert (l1 = l2) as -> by by eapply (eo_inj _ (li_etcd _ Hr)).
  by eapply (li_own _ Hr c1 c2).
Qed.

(** ** One client after another *)

(** Client 0 takes the lock. *)
Definition held_state : state :=
  {| et := {| revision := 2; next_lease := 2; leases := {[1]}; lock_keys := {[1 := 2]} |}; clients := {[0%nat := Locked 1 2]} |}.

Lemma held_reachable : reachable held_state.
Proof.
  pose proof (r_step _ _ r_init (s_grant init 0%nat _ _ eq_refl eq_refl)) as H1.
  eapply r_step in H1 as H2; [|eapply (s_put _ 0%nat 1); vm_compute; reflexivity].
  eapply r_step in H2 as H3; [|eapply (s_acquire _ 0%nat 1 2); vm_compute; reflexivity].
  exact H3.
Qed.

Lemma lock_mutual_exclusion_witness :
  reachable held_state /\ forall c l r, clients held_state !! c = Some (Locked l r) -> is_Some (lock_keys (et held_state) !! l) -> c = 0%nat.
Proof.
  split; [exact held_reachable|]. intros c l r Hc Hk.
  exact (lock_mutual_exclusion held_state c 0 l r 1 2 held_reachable Hc Hk eq_refl (ex_intro _ 2 eq_refl)).
Defined.

(** The lock is not always held when [Lock] reports success: client 1's key is
    refused, its lease is revoked, and [Lock] returns nil - while client 0 holds
    the lock. *)
Theorem Lock_nil_without_lock :
  exists s, reachable s /\ clients s !! 0%nat = Some (Locked 1 2) /\ is_Some (lock_keys (et s) !! 1) /\
    clients s !! 1%nat = Some (Lock_result true true 2 0) /\ lock_keys (et s) !! 2 = None.
Proof.
  pose proof (r_step _ _ held_reachable (s_grant held_state 1%nat _ _ eq_refl eq_refl)) as H1.
  eapply r_step in H1 as H2; [|eapply (s_put_fails _ 1%nat 2 false false true); vm_compute; reflexivity].
  eexists. split; [exact H2|]. vm_compute. split_and!; [reflexivity|by eexists|reflexivity|reflexivity].
Qed.
