(* ===== verification/Durability.v ===== *)
(** * Flushing, truncation and recovery of a partition
      (internal/ps/storage/raftstore: store.go, store_raft_job.go,
      raft_state_machine.go; internal/ps/engine/gammacb: writer.go, reader.go)

    A partition applies the committed raft log to its engine.  Two kinds of goroutines
    save the engine: the flush job ([Writer.Flush], with the value of [s.Sn] it
    read) and one for each FLUSH command ([Writer.Commit], with the
    index of the command).  Each dumps the engine and then writes the sequence
    number file.  A third job truncates the raft log by that file.  After a
    crash the engine is what is on disk, and raft applies the log it still has from
    the number in the file.  The engine is an argument: a state and how a command
    changes it.

    The engine keeps its documents in RocksDB, so that parts of its state reach the
    disk at any moment, between dumps and during one, while commands are applied:
    [mix d e d'] says that the disk with content [d] can become [d'] when parts of the engine's state [e]
    are persisted.  What a dump guarantees is that when it ends every part has been persisted as it was at some moment since it
    began; a saver that is dumping carries such a state.

    Not in this model: snapshots that another replica sends (Snapshot.v) and the removal of the
    partition (Node.v). *)

From S2P Require Import Prelude.
Open Scope nat_scope.

(** Applying a sequence of commands twice is as good as once: commands say what
    a document is afterwards, not how it changes. *)
Class ReplaySafe {Engine Cmd : Type} (exec : Engine -> Cmd -> Engine) : Prop :=
  replay_safe : forall l e, fold_left exec l (fold_left exec l e) = fold_left exec l e.

(** Commands that take two states to the same one take a mixture of them there. *)
Class PartsSafe {Engine Cmd : Type} (exec : Engine -> Cmd -> Engine) (mix : Engine -> Engine -> Engine -> Prop) : Prop :=
  parts_safe : forall l d e d', mix d e d' -> fold_left exec l d = fold_left exec l e -> fold_left exec l d' = fold_left exec l d.

Section Partition.
Context {Engine Cmd : Type} (exec : Engine -> Cmd -> Engine) (mix : Engine -> Engine -> Engine -> Prop) (e0 : Engine).
Context (is_flush : Cmd -> bool) (RaftTruncateCount : nat).

(** Where a goroutine that saves the engine stands.  [Waiting] for the lock; [Begun], with the lock in [Flush] and with [wi.running]
    set in [Commit]; in the dump; behind it; [Ending], before [wi.running] is reset. *)
Inductive saver : Type := Idle | Waiting (sn : nat) | Begun (sn : nat) | Dumping (sn : nat) (since : Engine) | Dumped (sn : nat) | Ending.

(** Command [i] is [history !! (i - 1)]; raft has [log], the ones after [truncated]. *)
Record node : Type := {
  history : list Cmd;         (** every command committed *)
  log : list Cmd;
  truncated : nat;            (** the log is gone up to this index *)
  engine : Engine;
  applied : nat;              (** the index of the last command applied *)
  Sn : nat;                   (** [s.Sn], set after a command was applied *)
  disk : Engine;              (** the engine as it is on disk *)
  snfile : nat;               (** the sequence number file *)
  appTruncateIndex : nat;
  truncating : option nat;    (** the index the truncate job is about to truncate to *)
  flushing : saver;           (** the flush job *)
  committing : list saver;    (** the goroutines of [Commit] *)
  running : bool;             (** [wi.running] *)
  leaked : bool               (** a [Commit] that skipped has kept the lock *)
}.

Definition init_node (l : list Cmd) : node :=
  {| history := l; log := l; truncated := 0; engine := e0; applied := 0; Sn := 0; disk := e0; snfile := 0; appTruncateIndex := 0; truncating := None;
     flushing := Idle; committing := []; running := false; leaked := false |}.

(** The engine's lock: [Flush] holds it from before the dump to its return. *)
Definition lock_free (n : node) : bool :=
  negb (leaked n) && match flushing n with Begun _ | Dumping _ _ | Dumped _ => false | _ => true end.

(** ** What each goroutine does *)

Definition append (c : Cmd) (n : node) : node :=
  {| history := history n ++ [c]; log := log n ++ [c]; truncated := truncated n; engine := engine n; applied := applied n; Sn := Sn n; disk := disk n; snfile := snfile n;
     appTruncateIndex := appTruncateIndex n; truncating := truncating n; flushing := flushing n; committing := committing n; running := running n; leaked := leaked n |}.

(** [innerApply]: the command changes the engine, a FLUSH starts [Commit]. *)
Definition innerApply (c : Cmd) (n : node) : node :=
  {| history := history n; log := log n; truncated := truncated n; engine := exec (engine n) c; applied := S (applied n); Sn := Sn n; disk := disk n; snfile := snfile n;
     appTruncateIndex := appTruncateIndex n; truncating := truncating n; flushing := flushing n;
     committing := committing n ++ (if is_flush c then [Waiting (S (applied n))] else []); running := running n; leaked := leaked n |}.

(** [s.Sn = int64(index)] *)
Definition set_sn (n : node) : node :=
  {| history := history n; log := log n; truncated := truncated n; engine := engine n; applied := applied n; Sn := applied n; disk := disk n; snfile := snfile n;
     appTruncateIndex := appTruncateIndex n; truncating := truncating n; flushing := flushing n; committing := committing n; running := running n; leaked := leaked n |}.

Definition with_disk (d : Engine) (sn : nat) (n : node) : node :=
  {| history := history n; log := log n; truncated := truncated n; engine := engine n; applied := applied n; Sn := Sn n; disk := d; snfile := sn;
     appTruncateIndex := appTruncateIndex n; truncating := truncating n; flushing := flushing n; committing := committing n; running := running n; leaked := leaked n |}.
Definition with_flush (f : saver) (n : node) : node :=
  {| history := history n; log := log n; truncated := truncated n; engine := engine n; applied := applied n; Sn := Sn n; disk := disk n; snfile := snfile n;
     appTruncateIndex := appTruncateIndex n; truncating := truncating n; flushing := f; committing := committing n; running := running n; leaked := leaked n |}.
Definition with_commit (i : nat) (c : saver) (r k : bool) (n : node) : node :=
  {| history := history n; log := log n; truncated := truncated n; engine := engine n; applied := applied n; Sn := Sn n; disk := disk n; snfile := snfile n;
     appTruncateIndex := appTruncateIndex n; truncating := truncating n; flushing := flushing n; committing := <[i := c]> (committing n); running := r; leaked := k |}.

(** The flush job reads [s.Sn]; [Flush] takes the lock, dumps, then writes the file. *)
Definition flush_begin (n : node) : node := with_flush (Waiting (Sn n)) n.
Definition flush_lock (sn : nat) (n : node) : node := with_flush (Begun sn) n.
Definition flush_dump (sn : nat) (n : node) : node := with_flush (Dumping sn (engine n)) n.
Definition flush_dumped (sn : nat) (n : node) : node := with_flush (Dumped sn) n.
Definition flush_write (sn : nat) (n : node) : node := with_flush Idle (with_disk (disk n) sn n).
Definition flush_fails (n : node) : node := with_flush Idle n.

(** A goroutine of [Commit] under the lock: when another one is running it returns without releasing it. *)
Definition commit_lock (i sn : nat) (n : node) : node :=
  if running n then with_commit i Idle true true n else with_commit i (Begun sn) true (leaked n) n.
Definition commit_dump (i sn : nat) (n : node) : node := with_commit i (Dumping sn (engine n)) (running n) (leaked n) n.
Definition commit_dumped (i sn : nat) (n : node) : node := with_commit i (Dumped sn) (running n) (leaked n) n.
Definition commit_write (i sn : nat) (n : node) : node := with_commit i Ending (running n) (leaked n) (with_disk (disk n) sn n).
Definition commit_fails (i : nat) (n : node) : node := with_commit i Ending (running n) (leaked n) n.
(** The deferred function. *)
Definition commit_end (i : nat) (n : node) : node := with_commit i Idle false (leaked n) n.

(** The truncate job reads the file ... *)
Definition with_truncating (t : option nat) (n : node) : node :=
  {| history := history n; log := log n; truncated := truncated n; engine := engine n; applied := applied n; Sn := Sn n; disk := disk n; snfile := snfile n;
     appTruncateIndex := appTruncateIndex n; truncating := t; flushing := flushing n; committing := committing n; running := running n; leaked := leaked n |}.
Definition truncate_read (n : node) : node :=
  if (appTruncateIndex n + RaftTruncateCount <? snfile n)%nat then with_truncating (Some (snfile n - RaftTruncateCount)) n else n.
(** ... and has raft drop the commands up to the index; there is nothing to drop up to a smaller one. *)
Definition truncate (i : nat) (n : node) : node :=
  {| history := history n; log := drop (i - truncated n) (log n); truncated := max i (truncated n); engine := engine n; applied := applied n; Sn := Sn n; disk := disk n;
     snfile := snfile n; appTruncateIndex := i; truncating := None; flushing := flushing n; committing := committing n; running := running n; leaked := leaked n |}.

(** A crash and [Start]: the engine is loaded, [Applied] is [ReadSN]. *)
Definition restart (n : node) : node :=
  {| history := history n; log := log n; truncated := truncated n; engine := disk n; applied := snfile n; Sn := 0; disk := disk n; snfile := snfile n;
     appTruncateIndex := snfile n; truncating := None; flushing := Idle; committing := []; running := false; leaked := false |}.

(** When the flush job acts is a matter of time and counts: any moment. *)
Inductive step : node -> node -> Prop :=
| st_append n c : step n (append c n)
| st_apply n c : truncated n <= applied n -> log n !! (applied n - truncated n) = Some c -> step n (innerApply c n)
| st_set_sn n : step n (set_sn n)
| st_persist n d : mix (disk n) (engine n) d -> step n (with_disk d (snfile n) n)
| st_flush_begin n : flushing n = Idle -> Sn n <> 0 -> step n (flush_begin n)
| st_flush_lock n sn : flushing n = Waiting sn -> lock_free n = true -> step n (flush_lock sn n)
| st_flush_dump n sn : flushing n = Begun sn -> step n (flush_dump sn n)
| st_flush_since n sn e e' : flushing n = Dumping sn e -> mix e (engine n) e' -> step n (with_flush (Dumping sn e') n)
| st_flush_dumped n sn : flushing n = Dumping sn (disk n) -> step n (flush_dumped sn n)
| st_flush_write n sn : flushing n = Dumped sn -> step n (flush_write sn n)
| st_flush_fails n : step n (flush_fails n)
| st_commit_lock n i sn : committing n !! i = Some (Waiting sn) -> lock_free n = true -> step n (commit_lock i sn n)
| st_commit_dump n i sn : committing n !! i = Some (Begun sn) -> step n (commit_dump i sn n)
| st_commit_since n i sn e e' : committing n !! i = Some (Dumping sn e) -> mix e (engine n) e' -> step n (with_commit i (Dumping sn e') (running n) (leaked n) n)
| st_commit_dumped n i sn : committing n !! i = Some (Dumping sn (disk n)) -> step n (commit_dumped i sn n)
| st_commit_write n i sn : committing n !! i = Some (Dumped sn) -> step n (commit_write i sn n)
| st_commit_fails n i c : committing n !! i = Some c -> (exists sn, (exists e, c = Dumping sn e) \/ c = Dumped sn) -> step n (commit_fails i n)
| st_commit_end n i : committing n !! i = Some Ending -> lock_free n = true -> step n (commit_end i n)
| st_truncate_read n : lock_free n = true -> step n (truncate_read n)
| st_truncate n i : truncating n = Some i -> step n (truncate i n)
| st_truncate_refused n : step n (with_truncating None n)
| st_crash n : step n (restart n).

(** ** Replaying the log *)

Notation run := (fold_left exec).

(** From [e], applying the log from index [a] on leads to the state after some
    prefix of the log. *)
Definition catches_up (l : list Cmd) (e : Engine) (a : nat) : Prop :=
  exists m, a <= m <= length l /\ run (drop a (take m l)) e = run (take m l) e0.

(** [e] has applied the log up to [a], and it was at [sn] before. *)
Definition behind (l : list Cmd) (e : Engine) (a sn : nat) : Prop :=
  sn <= a <= length l /\ exists y, catches_up l y sn /\ e = run (drop sn (take a l)) y.

Lemma catches_up_later l e a m m' :
  a <= m <= m' -> m' <= length l -> run (drop a (take m l)) e = run (take m l) e0 -> run (drop a (take m' l)) e = run (take m' l) e0.
Proof.
  intros H H' Hrun. assert (take m' l = take m l ++ drop m (take m' l)) as E.
  { rewrite <- (take_drop m (take m' l)) at 1. by rewrite take_take, Nat.min_l by lia. }
  rewrite E at 1 2. rewrite drop_app_le by (rewrite length_take; lia). rewrite !fold_left_app, Hrun. done.
Qed.

Lemma drop_take_app (l : list Cmd) a b c : a <= b <= c -> c <= length l -> drop a (take c l) = drop a (take b l) ++ drop b (take c l).
Proof.
  intros H H'. assert (take c l = take b l ++ drop b (take c l)) as E.
  { rewrite <- (take_drop b (take c l)) at 1. by rewrite take_take, Nat.min_l by lia. }
  rewrite E at 1. by rewrite drop_app_le by (rewrite length_take; lia).
Qed.

Lemma drop_take_S (l : list Cmd) a b c : a <= b -> l !! b = Some c -> drop a (take (S b) l) = drop a (take b l) ++ [c].
Proof.
  intros H Hc. rewrite (take_S_r l b c Hc). pose proof (lookup_lt_Some _ _ _ Hc). by rewrite drop_app_le by (rewrite length_take; lia).
Qed.

Lemma catches_up_append l e a c : catches_up l e a -> catches_up (l ++ [c]) e a.
Proof.
  intros (m & Hm & Hrun). exists m. split; [rewrite length_app; simpl; lia|]. by rewrite !take_app_le by lia.
Qed.

Lemma behind_append l e a sn c : behind l e a sn -> behind (l ++ [c]) e a sn.
Proof.
  intros (H & y & Hy & He). split; [rewrite length_app; simpl; lia|]. exists y. split; [by apply catches_up_append|].
  by rewrite take_app_le by lia.
Qed.

(** Applying the next command. *)
Lemma behind_apply l e a sn c : l !! a = Some c -> behind l e a sn -> behind l (exec e c) (S a) sn.
Proof.
  intros Hc (H & y & Hy & ->). pose proof (lookup_lt_Some _ _ _ Hc). split; [lia|]. exists y. split; [done|].
  rewrite (drop_take_S l sn a c) by (done || lia). by rewrite fold_left_app.
Qed.

Lemma behind_refl l e a : catches_up l e a -> behind l e a a.
Proof.
  intros H. pose proof H as (m & Hm & _). split; [lia|]. exists e. split; [done|]. by rewrite drop_ge by (rewrite length_take; lia).
Qed.

Section Replay.
Context `{Hsafe : !ReplaySafe exec, Hparts : !PartsSafe exec mix}.

(** A state that has passed [sn] since can be taken back to [sn]. *)
Lemma behind_catches_up l e a sn : behind l e a sn -> catches_up l e sn.
Proof.
  intros (H & y & (m & Hm & Hrun) & ->). exists (max m a). split; [lia|].
  rewrite (drop_take_app l sn a (max m a)) by lia. rewrite fold_left_app, replay_safe, <- fold_left_app, <- drop_take_app by lia.
  apply (catches_up_later l y sn m); [lia|lia|done].
Qed.

(** At the index it has reached, a state is on its way to a prefix. *)
Lemma behind_now l e a sn : behind l e a sn -> catches_up l e a.
Proof.
  intros (H & y & (m & Hm & Hrun) & ->). exists (max m a). split; [lia|].
  rewrite <- fold_left_app, <- drop_take_app by lia. apply (catches_up_later l y sn m); [lia|lia|done].
Qed.

(** So can a state parts of which are older. *)
Lemma mixed_catches_up l d e d' a : catches_up l d a -> catches_up l e a -> mix d e d' -> catches_up l d' a.
Proof.
  intros (m & Hm & Hd) (m' & Hm' & He) Hmix. exists (max m m'). split; [lia|].
  apply (catches_up_later l d a m (max m m')) in Hd; [|lia..]. apply (catches_up_later l e a m' (max m m')) in He; [|lia..].
  rewrite <- Hd. apply (parts_safe _ d e); [done|]. by rewrite Hd, He.
Qed.

(** ** The invariant *)

Definition saved (n : node) (p : saver) : Prop :=
  match p with
  | Idle | Ending => True
  | Waiting sn | Begun sn => behind (history n) (engine n) (applied n) sn
  | Dumping sn e => behind (history n) (engine n) (applied n) sn /\ catches_up (history n) e sn
  | Dumped sn => behind (history n) (engine n) (applied n) sn /\ catches_up (history n) (disk n) sn
  end.

Record node_inv (n : node) : Prop := {
  ni_log : log n = drop (truncated n) (history n) /\ truncated n <= length (history n);
  ni_truncating : forall i, truncating n = Some i -> i <= length (history n);
  ni_file : behind (history n) (engine n) (applied n) (snfile n);
  ni_disk : catches_up (history n) (disk n) (snfile n);
  ni_sn : Sn n <> 0 -> behind (history n) (engine n) (applied n) (Sn n);
  ni_flush : saved n (flushing n);
  ni_commit : Forall (saved n) (committing n)
}.

Lemma saved_mono n n' : (forall sn, behind (history n) (engine n) (applied n) sn -> behind (history n') (engine n') (applied n') sn) ->
  (forall e sn, catches_up (history n) e sn -> catches_up (history n') e sn) ->
  (forall sn, behind (history n) (engine n) (applied n) sn -> catches_up (history n) (disk n) sn -> catches_up (history n') (disk n') sn) ->
  forall p, saved n p -> saved n' p.
Proof. intros H1 H2 H3 [|sn|sn|sn e|sn|]; cbn; naive_solver. Qed.

Lemma commit_at n i p : node_inv n -> committing n !! i = Some p -> saved n p.
Proof. intros [_ _ _ _ _ _ H1] H2. exact (proj1 (Forall_lookup _ _) H1 i p H2). Qed.

(** A saver moves on; the disk and the file change. *)
Lemma inv_flush n f : node_inv n -> saved n f -> node_inv (with_flush f n).
Proof. intros []. by split. Qed.
Lemma inv_commit n i c r k : node_inv n -> saved n c -> node_inv (with_commit i c r k n).
Proof. intros [] Hc. split; try done. cbn. by apply Forall_insert. Qed.
Lemma inv_disk n d sn : node_inv n -> behind (history n) (engine n) (applied n) sn -> catches_up (history n) d sn ->
  (forall sn', behind (history n) (engine n) (applied n) sn' -> catches_up (history n) (disk n) sn' -> catches_up (history n) d sn') -> node_inv (with_disk d sn n).
Proof.
  intros [Hl Ht Hf Hd Hs Hfl Hc] Hb Hcu Hkeep. pose proof (saved_mono n (with_disk d sn n) ltac:(done) ltac:(done) Hkeep) as Hm.
  split; try done; cbn; [by apply Hm|]. eapply Forall_impl; [exact Hc|exact Hm].
Qed.
Lemma inv_written n sn : node_inv n -> saved n (Dumped sn) -> node_inv (with_disk (disk n) sn n).
Proof. intros H [Hb Hc]. by apply inv_disk. Qed.

Lemma inv_append n c : node_inv n -> node_inv (append c n).
Proof.
  intros [[Hl Htl] Ht Hf Hd Hs Hfl Hc]. pose proof (fun sn => behind_append (history n) (engine n) (applied n) sn c) as Hb.
  pose proof (fun e sn => catches_up_append (history n) e sn c) as Hcu.
  assert (forall p, saved n p -> saved (append c n) p) as Hm by (apply saved_mono; auto).
  split; cbn; auto.
  - rewrite Hl, length_app, drop_app_le by done. split; [done|lia].
  - intros i Hi. rewrite length_app. specialize (Ht i Hi). lia.
  - eapply Forall_impl; [exact Hc|exact Hm].
Qed.

Lemma inv_apply n c : truncated n <= applied n -> log n !! (applied n - truncated n) = Some c -> node_inv n -> node_inv (innerApply c n).
Proof.
  intros Hle Hc0 [[Hl Htl] Ht Hf Hd Hs Hfl Hc]. rewrite Hl, lookup_drop in Hc0. replace (truncated n + (applied n - truncated n)) with (applied n) in Hc0 by lia.
  pose proof (fun sn => behind_apply (history n) (engine n) (applied n) sn c Hc0) as Hb.
  assert (forall p, saved n p -> saved (innerApply c n) p) as Hm by (apply saved_mono; auto).
  split; cbn; auto. apply Forall_app. split; [eapply Forall_impl; [exact Hc|exact Hm]|].
  destruct (is_flush c); constructor; [|constructor]. cbn. apply behind_refl, (behind_now _ _ _ (snfile n)). by apply Hb.
Qed.

Lemma inv_truncate n i : truncating n = Some i -> node_inv n -> node_inv (truncate i n).
Proof.
  intros Hi [[Hl Htl] Ht Hf Hd Hs Hfl Hc]. specialize (Ht i Hi). split; cbn; try done. rewrite Hl, drop_drop. split; [f_equal|]; lia.
Qed.

Lemma node_inv_step n n' : node_inv n -> step n n' -> node_inv n'.
Proof.
  intros Hi Hstep. pose proof Hi as [Hl Ht Hf Hd Hs Hfl Hc]. pose proof (behind_now _ _ _ _ Hf) as Hnow.
  destruct Hstep as [n c|n c Hle Hlk|n|n d Hmix|n Hp Hsn|n sn Hp _|n sn Hp|n sn e e' Hp Hmix|n sn Hp|n sn Hp|n|n i sn Hp _|n i sn Hp|n i sn e e' Hp Hmix|n i sn Hp|n i sn Hp|n i c Hp _|n i Hp _|n _|n i Hp|n|n];
    try (rewrite Hp in Hfl); try (pose proof (commit_at _ _ _ Hi Hp) as Hco).
  - by apply inv_append.
  - by apply inv_apply.
  - split; try done. intros _. by apply behind_refl.
  - apply inv_disk; [done..| |].
    + apply (mixed_catches_up _ (disk n) (engine n)); [done| |done]. by eapply behind_catches_up.
    + intros sn' Hb Hcu. apply (mixed_catches_up _ (disk n) (engine n)); [done| |done]. by eapply behind_catches_up.
  - apply inv_flush; [done|]. by apply Hs.
  - by apply inv_flush.
  - apply inv_flush; [done|]. split; [done|]. by eapply behind_catches_up.
  - destruct Hfl as [Hb He]. apply inv_flush; [done|]. split; [done|]. eapply mixed_catches_up; [exact He| |done]. by eapply behind_catches_up.
  - by apply inv_flush.
  - apply inv_flush; [by apply inv_written|done].
  - by apply inv_flush.
  - unfold commit_lock. by destruct (running n); apply inv_commit.
  - apply inv_commit; [done|]. split; [done|]. by eapply behind_catches_up.
  - destruct Hco as [Hb He]. apply inv_commit; [done|]. split; [done|]. eapply mixed_catches_up; [exact He| |done]. by eapply behind_catches_up.
  - by apply inv_commit.
  - apply inv_commit; [by apply inv_written|done].
  - by apply inv_commit.
  - by apply inv_commit.
  - unfold truncate_read. destruct (_ <? _) eqn:E; [|done]. split; try done. cbn. intros i [= <-]. destruct Hf as [[? ?] _]. lia.
  - by apply inv_truncate.
  - by split.
  - split; try done; cbn; by apply behind_refl.
Qed.

Lemma init_inv l : node_inv (init_node l).
Proof.
  assert (catches_up l e0 0) as H0 by (exists 0; split; [lia|done]). split; cbn; try done; [split; [done|lia]|by apply behind_refl].
Qed.

Lemma catches_up_all l e a : catches_up l e a -> run (drop a l) e = run l e0.
Proof.
  intros (m & Hm & Hrun). pose proof (catches_up_later l e a m (length l) ltac:(lia) ltac:(lia) Hrun) as H.
  by rewrite !firstn_all in H.
Qed.

(** As long as the log reaches back to the number in the file, a restart recovers everything. *)
Lemma inv_recovers n : node_inv n -> truncated n <= snfile n ->
  run (drop (snfile n - truncated n) (log n)) (disk n) = run (history n) e0 /\ snfile n <= applied n <= length (history n) /\
  (applied n = length (history n) -> engine n = run (history n) e0).
Proof.
  intros [[Hl _] _ Hf Hd _ _ _] Ht. split; [|split].
  - rewrite Hl, drop_drop. replace (truncated n + (snfile n - truncated n)) with (snfile n) by lia. by apply catches_up_all.
  - apply Hf.
  - intros Ha. apply behind_now in Hf. rewrite Ha in Hf. apply catches_up_all in Hf. by rewrite drop_all in Hf.
Qed.
End Replay.

(** ** Runs *)

Inductive reachable : node -> Prop :=
| r_init l : reachable (init_node l)
| r_step n n' : reachable n -> step n n' -> reachable n'.

(** The runs in which the number in the file does not go back. *)
Inductive orderly : node -> Prop :=
| o_init l : orderly (init_node l)
| o_step n n' : orderly n -> step n n' -> snfile n <= snfile n' -> orderly n'.

(** Truncation stays [RaftTruncateCount] commands behind the number in the file. *)
Lemma orderly_tail n : orderly n -> truncated n <= snfile n /\ (0 < truncated n -> truncated n + RaftTruncateCount <= snfile n) /\
  (forall i, truncating n = Some i -> i + RaftTruncateCount <= snfile n).
Proof.
  induction 1 as [l|n n' _ (IH1 & IH2 & IH3) Hstep Hle]; [cbn; split; [lia|split; [lia|done]]|].
  destruct Hstep; try (unfold commit_lock in *; destruct (running n)); try (unfold truncate_read in *; destruct (_ <? _) eqn:E; [apply Nat.ltb_lt in E|]); cbn in *;
    try (split; [lia|split; [lia|]]; try done; intros j Hj; try discriminate; try (injection Hj as <-); try specialize (IH3 _ Hj); lia).
  all: specialize (IH3 _ H); split; [lia|]; split; [lia|done].
Qed.
End Partition.

(** ** Recovery *)

(** Nothing that was committed is lost in the runs in which the number in the file does not go back: after any number of
    crashes, flushes and commits, with parts of the engine reaching the disk at any moment, the commands that raft still has start at or before the
    number in the file, replaying them from that number onto what is on disk gives the state after every command that was ever
    committed, and the running engine has that state once it has applied them all.  For engines that are safe to replay and of which parts
    may be persisted ([ReplaySafe], [PartsSafe]).  (C30) *)
Theorem recovery_complete {Engine Cmd : Type} (exec : Engine -> Cmd -> Engine) (mix : Engine -> Engine -> Engine -> Prop) (e0 : Engine) (is_flush : Cmd -> bool)
    (RaftTruncateCount : nat) (n : node) :
  ReplaySafe exec -> PartsSafe exec mix -> orderly exec mix e0 is_flush RaftTruncateCount n ->
  truncated n <= snfile n /\ log n = drop (truncated n) (history n) /\
  fold_left exec (drop (snfile n - truncated n) (log n)) (disk n) = fold_left exec (history n) e0 /\
  snfile n <= applied n <= length (history n) /\
  (applied n = length (history n) -> engine n = fold_left exec (history n) e0).
Proof.
  intros Hsafe Hparts Ho. assert (node_inv exec e0 n) as Hi.
  { clear -Ho Hsafe Hparts. induction Ho as [l|n n' _ IH Hstep _]; [apply init_inv|by eapply node_inv_step]. }
  pose proof (orderly_tail _ _ _ _ _ n Ho) as (Ht & _). split; [done|]. split; [apply Hi|]. by apply inv_recovers.
Qed.

(** The log a restart needs is there as long as the number in the file does not go back. *)
Theorem truncation_keeps_tail {Engine Cmd : Type} (exec : Engine -> Cmd -> Engine) (mix : Engine -> Engine -> Engine -> Prop) (e0 : Engine) (is_flush : Cmd -> bool) (k : nat) (n : node) :
  orderly exec mix e0 is_flush k n -> truncated n <= snfile (restart n) /\ (0 < truncated n -> truncated n + k <= snfile n).
Proof. intros H. apply orderly_tail in H as (? & ? & _). done. Qed.

(** ** A store of documents *)

(** The commands the writer executes: upserts of documents, a deletion, and
    commands that leave the documents alone (FLUSH among them). *)
Inductive doc_cmd : Type := BULK (docs : list (string * string)) | DELETE (key : string) | FLUSH.

Definition doc_update (m : gmap string string) (u : string * option string) : gmap string string :=
  match u.2 with Some v => <[u.1 := v]> m | None => delete u.1 m end.
Definition updates (c : doc_cmd) : list (string * option string) :=
  match c with BULK docs => map (fun d => (d.1, Some d.2)) docs | DELETE k => [(k, None)] | FLUSH => [] end.
Definition doc_exec (m : gmap string string) (c : doc_cmd) : gmap string string := fold_left doc_update (updates c) m.

(** The last update of a key decides. *)
Fixpoint last_update (us : list (string * option string)) (k : string) : option (option string) :=
  match us with
  | [] => None
  | u :: us' => match last_update us' k with Some r => Some r | None => if decide (u.1 = k) then Some u.2 else None end
  end.

Lemma doc_updates_lookup us m k : fold_left doc_update us m !! k = default (m !! k) (last_update us k).
Proof.
  revert m. induction us as [|[x v] us IH]; intros m; [done|]. cbn [fold_left last_update fst snd]. rewrite IH.
  destruct (last_update us k); [done|]. cbn [default from_option id]. unfold doc_update. cbn [fst snd].
  case_decide as E; [subst; destruct v; cbn; [by rewrite lookup_insert_eq|by rewrite lookup_delete_eq]|].
  destruct v; cbn; [by rewrite lookup_insert_ne|by rewrite lookup_delete_ne].
Qed.

Lemma doc_run l m : fold_left doc_exec l m = fold_left doc_update (concat (map updates l)) m.
Proof. revert m. induction l as [|c l IH]; intros m; [done|]. cbn. by rewrite fold_left_app, IH. Qed.

#[export] Instance doc_replay_safe : ReplaySafe doc_exec.
Proof.
  intros l e. rewrite !doc_run. apply map_eq. intros k. rewrite !doc_updates_lookup. by destruct (last_update _ k).
Qed.

Definition doc_flush (c : doc_cmd) : bool := match c with FLUSH => true | _ => false end.

(** Parts of a store are its documents. *)
Definition doc_mix (d e d' : gmap string string) : Prop := forall k, d' !! k = d !! k \/ d' !! k = e !! k.

#[export] Instance doc_parts_safe : PartsSafe doc_exec doc_mix.
Proof.
  intros l d e d' Hmix. rewrite !doc_run. intros Heq. apply map_eq. intros k. pose proof (f_equal (lookup k) Heq) as Hk. rewrite !doc_updates_lookup in Hk |- *.
  destruct (last_update _ k); [done|]. cbn in *. destruct (Hmix k) as [-> | ->]; congruence.
Qed.

Lemma doc_mix_all (d e : gmap string string) : doc_mix d e e.
Proof. intros k. by right. Qed.

(** ** Runs *)

(** Two writes are flushed by a command; the third reaches the disk before its number does, and is replayed after a crash. *)
Definition demo_log : list doc_cmd := [BULK [("a", "1"); ("b", "1")]; FLUSH; BULK [("a", "2")]; DELETE "b"]%string.

Ltac doc_step H tac := eapply o_step in H; [|tac|vm_compute; lia].

Lemma demo_orderly : exists n, orderly doc_exec doc_mix ∅ doc_flush 1 n /\ truncated n = 1 /\ snfile n = 2 /\ applied n = 2 /\ history n = demo_log /\
  disk n = {[ "a" := "2"; "b" := "1" ]}%string.
Proof.
  pose proof (o_init doc_exec doc_mix ∅ doc_flush 1 demo_log) as H.
  do 2 (doc_step H ltac:(apply st_apply; [vm_compute; lia|reflexivity])).
  doc_step H ltac:(eapply (st_commit_lock _ _ _ _ _ 0); reflexivity).
  doc_step H ltac:(eapply (st_commit_dump _ _ _ _ _ 0); reflexivity).
  doc_step H ltac:(apply st_apply; [vm_compute; lia|reflexivity]).
  doc_step H ltac:(eapply st_persist; apply doc_mix_all).
  doc_step H ltac:(eapply (st_commit_since _ _ _ _ _ 0); [reflexivity|apply doc_mix_all]).
  doc_step H ltac:(apply (st_commit_dumped _ _ _ _ _ 0 2); vm_compute; reflexivity).
  doc_step H ltac:(eapply (st_commit_write _ _ _ _ _ 0); reflexivity).
  doc_step H ltac:(apply st_truncate_read; vm_compute; reflexivity).
  doc_step H ltac:(apply (st_truncate _ _ _ _ _ 1); vm_compute; reflexivity).
  doc_step H ltac:(apply st_crash).
  eexists. split; [exact H|]. by vm_compute.
Qed.

Lemma recovery_complete_witness :
  exists n, orderly doc_exec doc_mix ∅ doc_flush 1 n /\ truncated n = 1 /\ snfile n = 2 /\
    fold_left doc_exec (drop (snfile n - truncated n) (log n)) (disk n) = {[ "a" := "2" ]}%string.
Proof.
  destruct demo_orderly as (n & Ho & Ht & Hs & _ & Hl & _). exists n. split; [exact Ho|]. split; [exact Ht|]. split; [exact Hs|].
  destruct (recovery_complete doc_exec doc_mix ∅ doc_flush 1 n doc_replay_safe doc_parts_safe Ho) as (_ & _ & H & _). rewrite H, Hl. vm_compute. reflexivity.
Defined.

Lemma truncation_keeps_tail_witness :
  exists n, orderly doc_exec doc_mix ∅ doc_flush 1 n /\ truncated n = 1 /\ snfile n = 2 /\ truncated n <= snfile (restart n).
Proof.
  destruct demo_orderly as (n & Ho & Ht & Hs & _). exists n. split; [exact Ho|]. split; [exact Ht|]. split; [exact Hs|].
  exact (proj1 (truncation_keeps_tail doc_exec doc_mix ∅ doc_flush 1 n Ho)).
Defined.

(** The flush job and [Commit] do not exclude each other: a slow [Commit] writes
    its older number over the newer one, after the log was truncated by the newer
    one.  What a restart would replay first is no longer in the log, and no command can be applied any more. *)
Theorem stale_commit_loses_log :
  exists n, reachable doc_exec doc_mix ∅ doc_flush 1 n /\ snfile n = 1 /\ truncated n = 3 /\ length (log n) = 1 /\
    forall n', step doc_exec doc_mix doc_flush 1 (restart n) n' -> applied n' = 1.
Proof.
  pose proof (r_init doc_exec doc_mix ∅ doc_flush 1 [FLUSH; BULK [("a", "1")]; BULK [("a", "2")]; BULK [("b", "2")]]%string) as H.
  eapply r_step in H; [|apply st_apply; [vm_compute; lia|reflexivity]].          (* FLUSH starts the commit of 1 *)
  eapply r_step in H; [|eapply (st_commit_lock _ _ _ _ _ 0); reflexivity].
  eapply r_step in H; [|eapply (st_commit_dump _ _ _ _ _ 0); reflexivity].
  eapply r_step in H; [|apply (st_commit_dumped _ _ _ _ _ 0 1); vm_compute; reflexivity].
  do 3 (eapply r_step in H; [|apply st_apply; [vm_compute; lia|reflexivity]]).
  eapply r_step in H; [|apply st_set_sn].
  eapply r_step in H; [|apply st_flush_begin; [reflexivity|discriminate]].
  eapply r_step in H; [|eapply st_flush_lock; reflexivity].
  eapply r_step in H; [|eapply st_flush_dump; reflexivity].
  eapply r_step in H; [|eapply st_persist; apply doc_mix_all].
  eapply r_step in H; [|apply (st_flush_dumped _ _ _ _ _ 4); vm_compute; reflexivity].
  eapply r_step in H; [|eapply st_flush_write; reflexivity].
  eapply r_step in H; [|apply st_truncate_read; vm_compute; reflexivity].
  eapply r_step in H; [|apply (st_truncate _ _ _ _ _ 3); vm_compute; reflexivity].
  eapply r_step in H; [|eapply (st_commit_write _ _ _ _ _ 0); reflexivity].
  eexists. split; [exact H|]. split; [reflexivity|]. split; [reflexivity|]. split; [reflexivity|].
  intros n' Hstep. inversion Hstep; subst; try reflexivity; cbn in *; try lia; try discriminate; unfold commit_lock, truncate_read in *; by repeat case_match.
Qed.
