(* ===== verification/RaftStore.v ===== *)
(** * The partition store (internal/ps/storage/raftstore: raft_state_machine.go,
      store_writer.go, store_read.go, store.go; internal/entity/partition.go;
      internal/ps/engine/gammacb/writer.go)

    When a partition accepts reads and writes, how it follows raft's membership
    and the progress of its replicas, and the lock of [Writer.Commit].  Raft and
    the engine are arguments. *)

From S2P Require Import Prelude.
From S2P Require Import Errors.
From S2P Require Import Partition.
Open Scope Z_scope.

(** ** Status *)

Definition checkWritable (status : PartitionStatus) : go unit :=
  match status with
  | PA_INVALID => Fail (NewError PARTITION_IS_INVALID None)
  | PA_CLOSED => Fail (NewError PARTITION_IS_CLOSED None)
  | PA_READONLY => Fail (NewError PARTITION_NOT_LEADER None)
  | PA_READWRITE => Ret tt
  | PA_UNKNOW => Fail (NewError INTERNAL_ERROR None)
  end.

Definition checkReadable (readLeader : bool) (status : PartitionStatus) : go unit :=
  if bool_decide (status = PA_CLOSED) then Fail (NewError PARTITION_IS_CLOSED None)
  else if bool_decide (status = PA_INVALID) then Fail (NewError PARTITION_IS_INVALID None)
  else if readLeader && negb (bool_decide (status = PA_READWRITE)) then Fail (NewError PARTITION_NOT_LEADER None)
  else Ret tt.

(** The client type of a search or query that insists on the leader. *)
Definition read_leader (ClientType : string) : bool := ClientType =?s "leader".

(** [HandleLeaderChange] *)
Definition HandleLeaderChange (NodeID leader : Z) : PartitionStatus :=
  if leader =? NodeID then PA_READWRITE else PA_READONLY.

(** Raft's events for a store: [Start] and [ReBuildEngine] set read-only, [Close]
    (if raft could be removed) closes. *)
Inductive event : Set := EStart | ELeader (leader : Z) | EClose (removed : bool) | ERebuild.

Definition on_event (NodeID : Z) (status : PartitionStatus) (e : event) : PartitionStatus :=
  match e with
  | EStart | ERebuild => PA_READONLY
  | ELeader leader => HandleLeaderChange NodeID leader
  | EClose removed => if removed then PA_CLOSED else status
  end.

(** ** CheckResource and Write *)

(** [statfs]: blocks, available blocks and block size; [proc], [cgroup]:
    available and total memory, in bytes and in megabytes.  [low avail total] is
    [float64(avail)/float64(total) <= 1 - resourceLimitRate]. *)
Definition CheckResource (low : Z -> Z -> bool) (statfs : option (Z * Z * Z)) (proc : Z * Z) (cgroup : option (Z * Z)) : bool * option error :=
  match statfs with
  | None => (false, None)
  | Some (Blocks, Bavail, Bsize) =>
    let totalDisk := u64 (Blocks * Bsize) / 1024 / 1024 in
    let availDisk := u64 (Bavail * Bsize) / 1024 / 1024 in
    if low availDisk totalDisk
    then (true, Some (verr PARTITION_RESOURCE_EXHAUSTED "disk space not enough: total [%d]M, avail [%d]M"))
    else
      let availableMemory := proc.1 / 1024 / 1024 in
      let totalMemory := proc.2 / 1024 / 1024 in
      let '(availableMemory, totalMemory) :=
        match cgroup with
        | Some (ca, ct) => if ct <? totalMemory then (ca, ct) else (availableMemory, totalMemory)
        | None => (availableMemory, totalMemory)
        end in
      if low availableMemory totalMemory
      then (true, Some (verr PARTITION_RESOURCE_EXHAUSTED "available memory not enough: total [%d]M, avail [%d]M"))
      else (false, None)
  end.

(** The fields of [Partition] that [Write] works on. *)
Record quota : Set := { AddNum : Z; ResourceExhausted : bool }.

(** [Write]: the new quota, whether the command was submitted to raft, and the
    result.  [submit] is the answer of raft, [check] that of [CheckResource]. *)
Definition Write (status : PartitionStatus) (is_bulk : bool) (docs : Z) (check : bool * option error) (submit : go unit) (q : quota)
    : quota * bool * go unit :=
  match checkWritable status with
  | Ret _ =>
    if is_bulk then
      if ResourceExhausted q then (q, false, Fail (verr PARTITION_RESOURCE_EXHAUSTED "partition %d resource exhausted"))
      else
        let n := i64 (AddNum q + docs) in
        if 50000 <=? n then
          let q' := {| AddNum := 0; ResourceExhausted := check.1 |} in
          if check.1 then (q', false, match check.2 with Some e => Fail e | None => Ret tt end)
          else (q', true, submit)
        else ({| AddNum := n; ResourceExhausted := false |}, true, submit)
    else (q, true, submit)
  | Fail e => (q, false, Fail e)
  | Panic p => (q, false, Panic p)
  end.

(** ** ReplicasStatusChange *)

Section Replicas.
Context (LeaderID leaderCommit raftDiffCount : Z).

(** Commits are uint64: a replica ahead of [leaderCommit] counts as far behind. *)
Definition currentStatus (nodeID Commit : Z) : Z :=
  if (nodeID =? LeaderID) || (u64 (leaderCommit - Commit) <? raftDiffCount) then ReplicasOK else ReplicasNotReady.

Definition status_step (st : bool * gmap Z Z) (r : Z * Z) : bool * gmap Z Z :=
  let '(statusChange, m) := st in
  let s := currentStatus r.1 r.2 in
  match m !! r.1 with
  | Some pStatus => if negb (pStatus =? s) then (true, <[r.1 := s]> m) else (statusChange, m)
  | None => (true, <[r.1 := s]> m)
  end.

Definition prune_step (Replicas : gmap Z Z) (st : bool * gmap Z Z) (nodeID : Z) : bool * gmap Z Z :=
  match Replicas !! nodeID with
  | Some _ => st
  | None => (true, delete nodeID st.2)
  end.

(** [order]: the replicas of raft's status in the order of the iteration;
    [keys]: the keys of [RsStatusMap] as [Range] visits them. *)
Definition ReplicasStatusChange (order : list (Z * Z)) (keys : list Z) (Replicas RsStatusMap : gmap Z Z) : bool * gmap Z Z :=
  fold_left (prune_step Replicas) keys (fold_left status_step order (false, RsStatusMap)).
End Replicas.

(** ** ApplyMemberChange *)

Inductive ConfChange : Set := ConfAddNode | ConfRemoveNode | ConfOther.

(** [NodeID]: of the replica decoded from the context (0 if it does not decode). *)
Definition ApplyMemberChange (t : ConfChange) (PeerID NodeID : Z) (replicas : list Z) : go (list Z) :=
  match t with
  | ConfAddNode => Ret (if existsb (Z.eqb PeerID) replicas then replicas else replicas ++ [NodeID])
  | ConfRemoveNode =>
      if Z.of_nat (length replicas) - 1 <? 0 then Panic MakeSlice
      else Ret (filter (fun r => r <> NodeID) replicas)
  | ConfOther => Ret replicas
  end.

(** ** When writes are accepted *)

(** The status after a run of events is read-write only if the last event that
    counted (a close that raft refused does not) made this node the leader. *)
Lemma readwrite_last NodeID status es :
  fold_left (on_event NodeID) es status = PA_READWRITE ->
  Forall (fun e => e = EClose false) es /\ status = PA_READWRITE \/
  exists pre post, es = pre ++ ELeader NodeID :: post /\ Forall (fun e => e = EClose false) post.
Proof.
  induction es as [|e es IH] using rev_ind; intros H; [by left|]. rewrite fold_left_app in H. cbn in H.
  destruct e as [|leader|[]|]; cbn in H; try discriminate.
  - unfold HandleLeaderChange in H. destruct (Z.eqb_spec leader NodeID) as [->|]; [|done]. right. by exists es, [].
  - destruct (IH H) as [[Hall Hs]|(pre & post & -> & Hpost)].
    + left. split; [|done]. by apply Forall_app_2; [|apply Forall_singleton].
    + right. exists pre, (post ++ [EClose false]). rewrite <- app_assoc. split; [done|]. by apply Forall_app_2; [|apply Forall_singleton].
Qed.

Lemma CheckResource_consistent low statfs proc cgroup :
  let '(exhausted, err) := CheckResource low statfs proc cgroup in
  (exhausted = true <-> is_Some err) /\ forall e, err = Some e -> code_of e = Some PARTITION_RESOURCE_EXHAUSTED.
Proof.
  unfold CheckResource. destruct statfs as [[[b a] z]|]; [|split; [split; [done|by intros [? ?]]|done]].
  destruct (low _ _); [split; [split; [by eexists|done]|by intros e [= <-]]|].
  destruct cgroup as [[ca ct]|]; [destruct (ct <? _)|]; (destruct (low _ _);
    [split; [split; [by eexists|done]|by intros e [= <-]]|split; [split; [done|by intros [? ?]]|done]]).
Qed.

(** A write reaches raft only on a partition whose raft leader is this node,
    since the last start, rebuild or close, and whose resources are not exhausted;
    one that does not is reported as an error, never as done. *)
Theorem write_admission (NodeID : Z) (es : list event) (is_bulk : bool) (docs : Z) (low : Z -> Z -> bool)
    (statfs : option (Z * Z * Z)) (proc : Z * Z) (cgroup : option (Z * Z)) (submit : go unit) (q : quota) :
  let status := fold_left (on_event NodeID) es PA_UNKNOW in
  let check := CheckResource low statfs proc cgroup in
  let '(q', submitted, r) := Write status is_bulk docs check submit q in
  (submitted = true -> r = submit /\ (is_bulk = true -> ResourceExhausted q = false /\ ResourceExhausted q' = false) /\
     exists pre post, es = pre ++ ELeader NodeID :: post /\ Forall (fun e => e = EClose false) post) /\
  (submitted = false -> exists e, r = Fail e).
Proof.
  intros status check. pose proof (readwrite_last NodeID PA_UNKNOW es) as Hlast. fold status in Hlast.
  pose proof (CheckResource_consistent low statfs proc cgroup) as Hcheck. fold check in Hcheck.
  unfold Write. destruct status; cbn; try (by split; [done|intros _; eexists]).
  destruct (Hlast eq_refl) as [[_ ?]|Hl]; [done|]. destruct is_bulk; [|by split].
  destruct (ResourceExhausted q); [by split; [done|intros _; eexists]|].
  destruct check as [b err]. cbn [fst snd]. destruct (50000 <=? _); [destruct b|]; cbn; try by split.
  split; [done|intros _]. destruct Hcheck as [[Hc _] _]. destruct (Hc eq_refl) as [e ->]. by exists e.
Qed.

(** ** The status of the replicas *)

Section Status.
Context (LeaderID leaderCommit raftDiffCount : Z).
Notation current := (currentStatus LeaderID leaderCommit raftDiffCount).
Notation status_step := (status_step LeaderID leaderCommit raftDiffCount).

Lemma status_loop (order : list (Z * Z)) (b : bool) (m : gmap Z Z) :
  NoDup order.*1 ->
  let '(b', m') := fold_left status_step order (b, m) in
  (forall k, m' !! k = match (list_to_map order : gmap Z Z) !! k with Some c => Some (current k c) | None => m !! k end) /\
  (b' = true <-> b = true \/ exists r, r ∈ order /\ m !! r.1 <> Some (current r.1 r.2)).
Proof.
  revert b m. induction order as [|[n c] order IH]; intros b m; cbn [fmap list_fmap fst].
  { intros _. cbn. split; [done|]. split; [by left|]. by intros [?|(r & ?%elem_of_nil & _)]. }
  intros [Hn Hnd]%NoDup_cons. cbn [fold_left].
  assert (exists b1, status_step (b, m) (n, c) = (b1, <[n := current n c]> m) /\ (b1 = true <-> b = true \/ m !! n <> Some (current n c)))
    as (b1 & Hstep & Hb1).
  { unfold RaftStore.status_step. cbn [fst snd]. destruct (m !! n) as [p|] eqn:E.
    - destruct (Z.eqb_spec p (current n c)) as [->|Hne]; cbn [negb].
      + exists b. rewrite insert_id by done. split; [done|]. split; [by left|]. by intros [?|?].
      + exists true. split; [done|]. split; [|done]. right. congruence.
    - exists true. split; [done|]. split; [by right|done]. }
  rewrite Hstep. specialize (IH b1 (<[n := current n c]> m) Hnd).
  destruct (fold_left status_step order (b1, <[n := current n c]> m)) as [b' m']. destruct IH as [Hm Hb]. split.
  - intros k. rewrite Hm. cbn [list_to_map foldr uncurry fst snd]. destruct (decide (n = k)) as [<-|Hne].
    + by rewrite !lookup_insert_eq, not_elem_of_list_to_map_1.
    + by rewrite !lookup_insert_ne.
  - rewrite Hb, Hb1. split.
    + intros [[?|?]|(r & Hr & Hne)]; [by left|right; exists (n, c); split; [by left|done]|].
      right. exists r. split; [by right|]. rewrite lookup_insert_ne in Hne; [done|]. intros ->. apply Hn. by apply list_elem_of_fmap_2.
    + intros [?|(r & [->|Hr]%elem_of_cons & Hne)]; [by left; left|by left; right|]. right. exists r. split; [done|].
      rewrite lookup_insert_ne; [done|]. intros ->. apply Hn. by apply list_elem_of_fmap_2.
Qed.

Lemma prune_loop (Replicas : gmap Z Z) keys (b : bool) (m : gmap Z Z) :
  let '(b', m') := fold_left (prune_step Replicas) keys (b, m) in
  (forall k, m' !! k = if bool_decide (k ∈ keys /\ Replicas !! k = None) then None else m !! k) /\
  (b' = true <-> b = true \/ exists k, k ∈ keys /\ Replicas !! k = None).
Proof.
  revert b m. induction keys as [|n keys IH]; intros b m; cbn [fold_left].
  { split; [|set_solver]. intros k. rewrite bool_decide_false; [done|]. by intros [?%elem_of_nil _]. }
  unfold prune_step at 2. destruct (Replicas !! n) as [c|] eqn:E; [specialize (IH b m)|specialize (IH true (delete n m))];
    cbn [snd]; destruct (fold_left _ keys _) as [b' m']; destruct IH as [Hm Hb]; split.
  - intros k. rewrite Hm. apply f_equal3 with (f := fun (x : bool) (y z : option Z) => if x then y else z); [|done..].
    apply bool_decide_ext. rewrite elem_of_cons. naive_solver.
  - rewrite Hb. split; [intros [?|(k & ? & ?)]; [by left|right; exists k; split; [by right|done]]|].
    intros [?|(k & [->|Hk]%elem_of_cons & Hn)]; [by left|congruence|right; by exists k].
  - intros k. rewrite Hm. destruct (decide (n = k)) as [<-|Hne].
    + rewrite lookup_delete_eq, (bool_decide_true (n ∈ n :: keys /\ _)); [by case_bool_decide|]. split; [by left|done].
    + rewrite lookup_delete_ne by done. apply f_equal3 with (f := fun (x : bool) (y z : option Z) => if x then y else z); [|done..].
      apply bool_decide_ext. rewrite elem_of_cons. naive_solver.
  - rewrite Hb. split; [|by left]. intros _. right. exists n. split; [by left|done].
Qed.
End Status.

(** [ReplicasStatusChange] makes the status map exactly that of raft's current
    replicas - the leader and those less than [raftDiffCount] behind are ready,
    replicas that left are gone - whatever the order of the iterations, and
    reports a change exactly when the map changed. *)
Theorem ReplicasStatusChange_exact (LeaderID leaderCommit raftDiffCount : Z) (order : list (Z * Z)) (keys : list Z) (Replicas RsStatusMap : gmap Z Z) :
  order ≡ₚ map_to_list Replicas ->
  (forall k, k ∈ keys <-> is_Some (RsStatusMap !! k) \/ is_Some (Replicas !! k)) ->
  let '(changed, m) := ReplicasStatusChange LeaderID leaderCommit raftDiffCount order keys Replicas RsStatusMap in
  m = map_imap (fun k c => Some (currentStatus LeaderID leaderCommit raftDiffCount k c)) Replicas /\
  (changed = true <-> m <> RsStatusMap).
Proof.
  intros Ho Hkeys. unfold ReplicasStatusChange.
  assert (NoDup order.*1) as Hnd by (rewrite Ho; apply NoDup_fst_map_to_list).
  assert (list_to_map order = Replicas) as Hlist.
  { rewrite (list_to_map_proper order _ Hnd Ho). apply list_to_map_to_list. }
  pose proof (status_loop LeaderID leaderCommit raftDiffCount order false RsStatusMap Hnd) as H1.
  destruct (fold_left _ order _) as [b1 m1]. destruct H1 as [Hm1 Hb1]. rewrite Hlist in Hm1.
  pose proof (prune_loop Replicas keys b1 m1) as H2. destruct (fold_left _ keys _) as [b m]. destruct H2 as [Hm Hb].
  assert (forall k, m !! k = (fun c => currentStatus LeaderID leaderCommit raftDiffCount k c) <$> Replicas !! k) as Heq.
  { intros k. rewrite Hm, Hm1. destruct (Replicas !! k) as [c|] eqn:E.
    - rewrite bool_decide_false by (by intros [_ ?]). done.
    - destruct (RsStatusMap !! k) eqn:Es; [|by case_bool_decide].
      rewrite bool_decide_true; [done|]. split; [|done]. apply Hkeys. left. by rewrite Es. }
  split; [apply map_eq; intros k; rewrite Heq, map_lookup_imap; by destruct (Replicas !! k)|].
  rewrite Hb, Hb1. split.
  - intros [[?|([n c] & Hr & Hne)]|(k & Hk & Hn)] Hm'; [done|..]; subst RsStatusMap.
    + apply Hne. cbn [fst snd]. rewrite Ho in Hr. apply elem_of_map_to_list in Hr. by rewrite Heq, Hr.
    + apply Hkeys in Hk as [[s Hs]|[s Hs]]; [|congruence]. rewrite Heq, Hn in Hs. done.
  - intros Hne. destruct (decide (Exists (fun r => RsStatusMap !! r.1 <> Some (currentStatus LeaderID leaderCommit raftDiffCount r.1 r.2)) order)) as [He|He].
    { left. right. by apply Exists_exists in He. }
    destruct (decide (Exists (fun k => Replicas !! k = None) keys)) as [Hk|Hk]; [right; by apply Exists_exists in Hk|].
    destruct Hne. apply map_eq. intros k. rewrite Heq. destruct (Replicas !! k) as [c|] eqn:E; cbn [fmap option_fmap option_map].
    + symmetry. apply dec_stable. intros Hn. apply He, Exists_exists. exists (k, c). split; [|done]. rewrite Ho. by apply elem_of_map_to_list.
    + symmetry. apply eq_None_not_Some. intros Hs. apply Hk, Exists_exists. exists k. split; [|done]. apply Hkeys. by left.
Qed.

Lemma ReplicasStatusChange_exact_witness :
  ReplicasStatusChange 1 100 10 [(1, 100); (2, 95); (3, 50)] [1; 2; 3; 4] {[1 := 100; 2 := 95; 3 := 50]} {[1 := ReplicasOK; 4 := ReplicasOK]}
    = (true, {[1 := ReplicasOK; 2 := ReplicasOK; 3 := ReplicasNotReady]}) /\
  ({[1 := ReplicasOK; 2 := ReplicasOK; 3 := ReplicasNotReady]} : gmap Z Z) <> {[1 := ReplicasOK; 4 := ReplicasOK]}.
Proof.
  assert (forall k, k ∈ [1; 2; 3; 4] <-> is_Some (({[1 := ReplicasOK; 4 := ReplicasOK]} : gmap Z Z) !! k) \/
                                         is_Some (({[1 := 100; 2 := 95; 3 := 50]} : gmap Z Z) !! k)) as Hk.
  { intros k. rewrite !elem_of_cons, elem_of_nil, <- !elem_of_dom, !dom_insert_L, !dom_singleton_L. set_solver. }
  assert ([(1, 100); (2, 95); (3, 50)] ≡ₚ map_to_list ({[1 := 100; 2 := 95; 3 := 50]} : gmap Z Z)) as Hp by (apply (bool_decide_unpack _); vm_compute; exact I).
  pose proof (ReplicasStatusChange_exact 1 100 10 _ [1; 2; 3; 4] _ {[1 := ReplicasOK; 4 := ReplicasOK]} Hp Hk) as H.
  destruct (ReplicasStatusChange _ _ _ _ _ _ _) as [b m] eqn:E. vm_compute in E. injection E as <- <-.
  split; [reflexivity|]. exact (proj1 (proj2 H) eq_refl).
Defined.

(** ** Membership *)

(** A member change whose context names the peer keeps the replicas a list of
    distinct nodes and adds or removes exactly that node; removing from no
    replicas panics, and a context that does not decode adds node 0. *)
Theorem ApplyMemberChange_set (PeerID : Z) (replicas : list Z) :
  NoDup replicas ->
  (exists l, ApplyMemberChange ConfAddNode PeerID PeerID replicas = Ret l /\ NoDup l /\ forall r, r ∈ l <-> r = PeerID \/ r ∈ replicas) /\
  (replicas <> [] -> exists l, ApplyMemberChange ConfRemoveNode PeerID PeerID replicas = Ret l /\ NoDup l /\
     forall r, r ∈ l <-> r <> PeerID /\ r ∈ replicas) /\
  ApplyMemberChange ConfRemoveNode PeerID PeerID [] = Panic MakeSlice /\
  (PeerID ∉ replicas -> ApplyMemberChange ConfAddNode PeerID 0 replicas = Ret (replicas ++ [0])).
Proof.
  intros Hnd. assert (existsb (Z.eqb PeerID) replicas = bool_decide (PeerID ∈ replicas)) as Hex.
  { case_bool_decide as Hin.
    - apply existsb_exists. exists PeerID. split; [by apply list_elem_of_In|apply Z.eqb_refl].
    - apply not_true_is_false. rewrite existsb_exists. intros (x & Hx & ->%Z.eqb_eq). by apply Hin, list_elem_of_In. }
  unfold ApplyMemberChange. rewrite Hex. split_and!.
  - case_bool_decide as Hin; [exists replicas; split_and!; [done..|naive_solver]|].
    exists (replicas ++ [PeerID]). split_and!; [done| |].
    + apply NoDup_app. split_and!; [done| |apply NoDup_singleton]. intros r Hr ->%list_elem_of_singleton. done.
    + intros r. rewrite elem_of_app, list_elem_of_singleton. naive_solver.
  - intros Hne. destruct (Z.ltb_spec (Z.of_nat (length replicas) - 1) 0) as [H|_]; [destruct replicas; [done|simpl in H; lia]|].
    eexists. split_and!; [done|by apply NoDup_filter|]. intros r. by rewrite list_elem_of_filter.
  - done.
  - intros Hn. by rewrite bool_decide_false.
Qed.

Lemma ApplyMemberChange_set_witness :
  exists l, ApplyMemberChange ConfAddNode 4 4 [1; 2; 3] = Ret l /\ 4 ∈ l /\ 2 ∈ l.
Proof.
  destruct (ApplyMemberChange_set 4 [1; 2; 3]) as [(l & Hl & _ & Hin) _]; [apply (bool_decide_unpack _); vm_compute; exact I|].
  exists l. split; [exact Hl|]. rewrite !Hin. split; [by left|]. right. right. by left.
Defined.

(** ** The lock of Commit

    The goroutine a FLUSH command starts: it takes the engine's lock, gives up
    if [running] is set - without releasing the lock - and otherwise sets
    [running], releases, dumps, and takes the lock again to reset [running]. *)
Module CommitLock.

Inductive pc : Set :=
| Begin        (** about to take the lock *)
| Holding      (** has it, about to look at [running] *)
| Dumping      (** [running] set, lock released *)
| Finishing    (** about to take the lock in the deferred function *)
| Done.

Record sys : Type := { holder : option nat; running : bool; routines : gmap nat pc }.
Definition idle : sys := {| holder := None; running := false; routines := ∅ |}.

Inductive step : sys -> sys -> Prop :=
| c_spawn s i : routines s !! i = None ->                      (* a FLUSH command is applied *)
    step s {| holder := holder s; running := running s; routines := <[i := Begin]> (routines s) |}
| c_lock s i : routines s !! i = Some Begin -> holder s = None ->
    step s {| holder := Some i; running := running s; routines := <[i := Holding]> (routines s) |}
| c_skip s i : routines s !! i = Some Holding -> running s = true ->
    step s {| holder := holder s; running := running s; routines := <[i := Done]> (routines s) |}
| c_start s i : routines s !! i = Some Holding -> running s = false ->
    step s {| holder := None; running := true; routines := <[i := Dumping]> (routines s) |}
| c_dumped s i : routines s !! i = Some Dumping ->
    step s {| holder := holder s; running := running s; routines := <[i := Finishing]> (routines s) |}
| c_finish s i : routines s !! i = Some Finishing -> holder s = None ->
    step s {| holder := None; running := false; routines := <[i := Done]> (routines s) |}.

Inductive reachable : sys -> Prop :=
| r_idle : reachable idle
| r_step s s' : reachable s -> step s s' -> reachable s'.

Inductive steps : sys -> sys -> Prop :=
| ss_refl s : steps s s
| ss_step s s' s'' : steps s s' -> step s' s'' -> steps s s''.

(** Only the holder is at [Holding]. *)
Lemma holding_holder s i : reachable s -> routines s !! i = Some Holding -> holder s = Some i.
Proof.
  intros Hr. revert i. induction Hr as [|s s' _ IH Hstep]; intros i Hi; [done|].
  destruct Hstep as [s j Hj|s j Hj Hh|s j Hj Hrun|s j Hj Hrun|s j Hj|s j Hj Hh]; cbn in *;
    (destruct (decide (j = i)) as [->|Hne]; [rewrite lookup_insert_eq in Hi; try discriminate; try done|
      rewrite lookup_insert_ne in Hi by done; pose proof (IH i Hi)]); try congruence; try done.
  pose proof (IH j Hj). congruence.
Qed.

(** Between setting [running] and resetting it. *)
Definition busy (s : sys) (i : nat) : Prop := routines s !! i = Some Dumping \/ routines s !! i = Some Finishing.

Lemma busy_insert s h r i j p : busy {| holder := h; running := r; routines := <[j := p]> (routines s) |} i ->
  (i = j /\ (p = Dumping \/ p = Finishing)) \/ (i <> j /\ busy s i).
Proof.
  unfold busy. cbn [routines]. destruct (decide (j = i)) as [->|Hne]; rewrite ?lookup_insert_eq, ?lookup_insert_ne by done; naive_solver.
Qed.

(** [running] is set as long as a goroutine is busy, and only one is. *)
Lemma busy_once s : reachable s -> forall i, busy s i -> running s = true /\ forall k, busy s k -> k = i.
Proof.
  induction 1 as [|s s' _ IH Hstep]; intros i Hi; [by destruct Hi|].
  destruct Hstep as [s j Hj|s j Hj Hh|s j Hj Hrun|s j Hj Hrun|s j Hj|s j Hj Hh].
  1-3: apply busy_insert in Hi as [[_ [? | ?]]|[_ Hi]]; [done..|]; destruct (IH i Hi) as [Hr Hu]; (split; [done|]);
    intros k Hk; apply busy_insert in Hk as [[_ [? | ?]]|[_ Hk]]; [done..|]; by apply Hu.
  - split; [done|]. assert (forall k, ~ busy s k) as Hno by (intros k Hk; destruct (IH k Hk); congruence).
    apply busy_insert in Hi as [[-> _]|[_ Hi]]; [|by destruct (Hno i)]. intros k Hk. apply busy_insert in Hk as [[-> _]|[_ Hk]]; [done|by destruct (Hno k)].
  - assert (busy s j) as Hbj by by left. destruct (IH j Hbj) as [Hr Hu]. split; [done|].
    assert (forall k, busy {| holder := holder s; running := running s; routines := <[j := Finishing]> (routines s) |} k -> k = j) as Hall
      by (intros k [[-> _]|[_ Hk]]%busy_insert; [done|by apply Hu]).
    intros k Hk. by rewrite (Hall k Hk), (Hall i Hi).
  - assert (busy s j) as Hbj by by right. destruct (IH j Hbj) as [_ Hu]. apply busy_insert in Hi as [[_ [? | ?]]|[Hne Hi]]; [done..|]. by destruct Hne; apply Hu.
Qed.

(** The goroutine [j] has returned with the lock while [i] is busy. *)
Definition stuck (i j : nat) (s : sys) : Prop := holder s = Some j /\ routines s !! j = Some Done /\ running s = true /\ busy s i.

Lemma stuck_step i j s s' : reachable s -> stuck i j s -> step s s' -> stuck i j s'.
Proof.
  intros Hr (Hh & Hj & Hrun & Hb) Hstep. assert (i <> j) as Hij by (intros ->; destruct Hb; congruence).
  destruct Hstep as [s x Hx|s x Hx Hn|s x Hx Hrx|s x Hx Hrx|s x Hx|s x Hx Hn]; unfold stuck, busy in *; cbn [holder routines running]; try congruence.
  - rewrite !lookup_insert_ne by (intros ->; destruct Hb; congruence). done.
  - apply holding_holder in Hx as Hx'; [|done]. congruence.
  - rewrite (lookup_insert_ne _ x j) by congruence. split; [done|]. split; [done|]. split; [done|].
    destruct (decide (x = i)) as [->|Hne]; [right; apply lookup_insert_eq|by rewrite lookup_insert_ne].
Qed.

Lemma stuck_forever i j s s' : reachable s -> stuck i j s -> steps s s' -> reachable s' /\ stuck i j s'.
Proof.
  intros Hr Hl Hs. induction Hs as [s|s s' s'' _ IH Hstep]; [done|]. destruct (IH Hr Hl) as [Hr' Hl'].
  split; [by eapply r_step|by eapply stuck_step].
Qed.

(** Two FLUSH commands that overlap lock the engine for good.  Whenever the goroutine [j] of a FLUSH is about to take the lock, which is free, while the
    goroutine [i] of another one is dumping, the system can go on so that for ever after [j], which has returned, holds the lock, [running] is set
    and [i] does not return, since it needs the lock to reset it - and from then on nobody gets the lock, neither commits nor, in the program,
    flushes, [ReadSN] and changes of the mapping.  (C35) *)
Theorem overlapping_commits_deadlock s i j :
  reachable s -> routines s !! i = Some Dumping -> routines s !! j = Some Begin -> holder s = None ->
  exists s', steps s s' /\ forall s'', steps s' s'' ->
    holder s'' = Some j /\ routines s'' !! j = Some Done /\ running s'' = true /\ routines s'' !! i <> Some Done.
Proof.
  intros Hr Hi Hj Hh. destruct (busy_once s Hr i (or_introl Hi)) as [Hrun _]. assert (i <> j) as Hne by congruence.
  pose proof (c_lock s j Hj Hh) as H1. pose proof (r_step _ _ Hr H1) as Hr1.
  match type of H1 with step _ ?s1 => pose proof (c_skip s1 j (lookup_insert_eq _ _ _) Hrun) as H2 end. pose proof (r_step _ _ Hr1 H2) as Hr2.
  eexists. split; [eapply ss_step; [eapply ss_step; [apply ss_refl|exact H1]|exact H2]|].
  intros s'' Hs. eapply (stuck_forever i j) in Hs as [_ (? & ? & ? & Hb)]; [|exact Hr2|].
  - split_and!; [done..|]. destruct Hb; congruence.
  - cbn [holder running routines]. unfold stuck, busy. cbn. rewrite lookup_insert_eq. split_and!; try done. left. by rewrite !lookup_insert_ne.
Qed.

(** The first FLUSH is dumping when the second is applied. *)
Definition two_flushes : sys := {| holder := None; running := true; routines := {[ 1%nat := Begin; 0%nat := Dumping ]} |}.
Lemma two_flushes_reachable : reachable two_flushes.
Proof.
  pose proof r_idle as H.
  eapply r_step in H; [|by apply (c_spawn _ 0%nat)]. eapply r_step in H; [|by apply (c_lock _ 0%nat)].
  eapply r_step in H; [|by apply (c_start _ 0%nat)]. eapply r_step in H; [|by apply (c_spawn _ 1%nat)]. exact H.
Qed.

Lemma overlapping_commits_deadlock_witness :
  exists s', steps two_flushes s' /\ holder s' = Some 1%nat /\ routines s' !! 1%nat = Some Done.
Proof.
  destruct (overlapping_commits_deadlock two_flushes 0 1 two_flushes_reachable) as (s' & Hs & H); [reflexivity|reflexivity|reflexivity|].
  exists s'. split; [exact Hs|]. destruct (H s' (ss_refl s')) as (H1 & H2 & _). split; [exact H1|exact H2].
Defined.
End CommitLock.
