(* ===== verification/DocServer.v ===== *)
(** * Document requests on a partition server (internal/ps/handler_document.go, internal/ps/storage/raftstore/store_writer.go and store_read.go,
      internal/ps/engine/gammacb/writer.go and reader.go)

    From a request for a partition through its admission, raft and the engine to the items of the reply.  The engine behind cgo is a state [E] with
    its calls as arguments, raft an argument that may refuse a command, or lose the answer of one that it applied.  The codes of a
    batch travel as the text of an error and are read back from it; the main results are that each item of the reply says what the engine did with its
    document, and that this holds for the answer of the router, whatever fails. *)

From S2P Require Import Prelude.
From S2P Require Import Text.
From S2P Require Import Errors.
From S2P Require Import Keys.
From S2P Require Import Schema.
From S2P Require Import Partition.
From S2P Require Import Space.
From S2P Require Import Router.
From S2P Require Import Failover.
From S2P Require Import Delivery.
From S2P Require Import DocResp.
From S2P Require Import Store.
From S2P Require Import RaftStore.
Open Scope Z_scope.

(** ** Texts *)

(** [strings.Split] at a one-byte separator. *)
Fixpoint split_at (sep : ascii) (s cur : string) : list string :=
  match s with
  | EmptyString => [cur]
  | String c s' => if Ascii.eqb c sep then cur :: split_at sep s' "" else split_at sep s' (cur +:+ String c "")
  end.
Definition SplitOn (sep : ascii) (s : string) : list string := split_at sep s "".

(** The text of a recovered panic. *)
Definition panic_text (p : panic) : string := match p with NilDeref => "invalid memory address or nil pointer dereference" | _ => "index out of range" end.

(** The protobuf error of an error: that of a [VearchErr], else of [INTERNAL_ERROR]. *)
Definition with_err (e : error) (it : Item) : Item := {| It_Doc := It_Doc it; It_Err := Some e |}.

(** ** Commands *)

Inductive DocCmd : Type := Bulk (docs : list (list Z)) | Delete (key : list Z).
Definition is_bulk (c : DocCmd) : bool := match c with Bulk _ => true | Delete _ => false end.
Definition cmd_docs (c : DocCmd) : Z := match c with Bulk docs => Z.of_nat (length docs) | Delete _ => 0 end.

Section Server.
Context {E : Type} (AddOrUpdateDoc : E -> list Z -> E * Z) (DeleteDoc : E -> list Z -> E * Z).
(** [None] is the nil pointer of an engine that is closed. *)
Context (GetDocByID : option E -> list Z -> Z * list DocField) (GetDocByDocID : option E -> Z -> bool -> Z * list DocField).
Context (Serialize : list DocField -> list Z).

(** ** The writer of the engine *)

(** [gamma.AddOrUpdateDocs]: one call per document; [&buffer[i][0]] of an empty buffer panics, with the documents before it added. *)
Fixpoint AddOrUpdateDocs (e : E) (docs : list (list Z)) : E * go (list Z) :=
  match docs with
  | [] => (e, Ret [])
  | [] :: _ => (e, Panic IndexRange)
  | doc :: docs' =>
    let '(e1, code) := AddOrUpdateDoc e doc in
    let '(e2, codes) := AddOrUpdateDocs e1 docs' in
    (e2, let! l := codes in Ret (code :: l))
  end.

(** The codes as the message of the error [SUCCESS]. *)
Fixpoint codes_text (codes : list Z) : string := match codes with [] => "" | c :: codes' => FormatInt c +:+ "," +:+ codes_text codes' end.

Definition writer_Write (gamma : option E) (cmd : DocCmd) : option E * go unit :=
  match gamma with
  | None => (None, Fail (NewError PARTITION_IS_CLOSED None))
  | Some e =>
    match cmd with
    | Bulk docs =>
      let '(e', resp) := AddOrUpdateDocs e docs in
      (Some e', match resp with
                | Ret codes => Fail (NewError SUCCESS (Some (OtherErr (codes_text codes))))
                | Fail err => Fail err
                | Panic p => Fail (NewError RECOVER (Some (OtherErr (panic_text p))))
                end)
    | Delete [] => (Some e, Fail (NewError RECOVER (Some (OtherErr (panic_text IndexRange)))))
    | Delete key =>
      let '(e', resp) := DeleteDoc e key in
      (Some e', if resp =? 0 then Ret tt
                else if resp =? -1 then Fail (NewError DOCUMENT_NOT_EXIST None)
                else Fail (NewError INTERNAL_ERROR (Some (OtherErr "gamma delete doc err code:[%d]"))))
    end
  end.

(** ** The store of the partition *)

Record part : Type := { pt_status : PartitionStatus; pt_quota : quota; pt_engine : option E; pt_calls : nat }.
Definition set_engine (g : option E) (p : part) : part := {| pt_status := pt_status p; pt_quota := pt_quota p; pt_engine := g; pt_calls := pt_calls p |}.
Definition set_quota (q : quota) (p : part) : part := {| pt_status := pt_status p; pt_quota := q; pt_engine := pt_engine p; pt_calls := pt_calls p |}.
Definition called (p : part) : part := {| pt_status := pt_status p; pt_quota := pt_quota p; pt_engine := pt_engine p; pt_calls := S (pt_calls p) |}.

(** Raft's failures: the error of a submission, and whether the command was applied all the same; what [CheckResource] finds. *)
Context (raft : nat -> option (error * bool)) (check : nat -> bool * option error).

(** [RaftSubmit], with [Apply] on this node. *)
Definition RaftSubmit (cmd : DocCmd) (p : part) : part * go unit :=
  let '(g, r) := writer_Write (pt_engine p) cmd in
  match raft (pt_calls p) with
  | None => (called (set_engine g p), r)
  | Some (err, true) => (called (set_engine g p), Fail err)
  | Some (err, false) => (called p, Fail err)
  end.

Definition store_Write (cmd : DocCmd) (p : part) : part * go unit :=
  let '(p', r) := RaftSubmit cmd p in
  let '(q, submitted, r') := Write (pt_status p) (is_bulk cmd) (cmd_docs cmd) (check (pt_calls p)) r (pt_quota p) in
  (set_quota q (if submitted then p' else p), r').

(** [readerImpl.GetDoc]; [&docID[0]] of an empty key panics. *)
Definition ParseInt32 (s : string) : option Z := z ← ParseInt s; if (- 2 ^ 31 <=? z) && (z <? 2 ^ 31) then Some z else None.
Definition reader_GetDoc (gamma : option E) (doc : Document) (getByDocId next : bool) : go Document :=
  let found (r : Z * list DocField) : go Document :=
    if r.1 =? 0 then Ret {| D_PKey := D_PKey doc; D_Fields := r.2 |} else Fail (NewError DOCUMENT_NOT_EXIST None) in
  if getByDocId then
    match ParseInt32 (D_PKey doc) with
    | None => Fail (verr PRIMARY_KEY_IS_INVALID "key: [%s] convert to int32 failed, err: [%s]")
    | Some docId =>
      if next && (docId <? -1) then Fail (verr PRIMARY_KEY_IS_INVALID "docid: [%s] less than -1 with next as true")
      else if negb next && (docId <? 0) then Fail (verr PRIMARY_KEY_IS_INVALID "docid: [%s] less than 0")
      else found (GetDocByDocID gamma docId next)
    end
  else if D_PKey doc =?s "" then Panic IndexRange
  else found (GetDocByID gamma (bytes_of (D_PKey doc))).

Definition store_GetDocument (p : part) (doc : Document) (getByDocId next : bool) : go Document :=
  check! checkReadable false (pt_status p) in reader_GetDoc (pt_engine p) doc getByDocId next.

(** ** The handlers *)

(** Handlers work on the items of the request in place: the items, and whether the call panics. *)
Definition handled : Type := part * list Item * go unit.

(** [getDocuments] *)
Definition get_error (e : error) : error := match e with VearchErr _ _ => e | OtherErr _ => VearchErr INTERNAL_ERROR "GetDocument failed, key: [%s], err: [%s]" end.
Fixpoint getDocuments (p : part) (getByDocId next : bool) (items : list Item) : list Item * go unit :=
  match items with
  | [] => ([], Ret tt)
  | it :: items' =>
    match It_Doc it with
    | None => (it :: items', Panic NilDeref)
    | Some doc =>
      let rest it' := let '(l, r) := getDocuments p getByDocId next items' in (it' :: l, r) in
      match store_GetDocument p doc getByDocId next with
      | Ret doc' => rest {| It_Doc := Some doc'; It_Err := It_Err it |}
      | Fail e => rest (with_err (get_error e) it)
      | Panic x => (it :: items', Panic x)
      end
    end
  end.

(** The goroutine of [deleteDocs] for one item. *)
Definition delete_item (it : Item) (p : part) : part * Item :=
  match It_Doc it with
  | None => (p, with_err (VearchErr INTERNAL_ERROR (panic_text NilDeref)) it)
  | Some doc =>
    match D_Fields doc with
    | [f] =>
      let '(p', r) := store_Write (Delete (DF_Value f)) p in
      (p', match r with
           | Ret _ => it
           | Fail e => with_err (NewError INTERNAL_ERROR (Some e)) it
           | Panic x => with_err (VearchErr INTERNAL_ERROR (panic_text x)) it
           end)
    | _ => (p, with_err (VearchErr INTERNAL_ERROR "fileds of doc can only have one field [%s] when delete") it)
    end
  end.

(** The goroutines run in the order of [sched], a permutation of the positions. *)
Definition delete_step (st : part * list Item) (i : nat) : part * list Item :=
  match st.2 !! i with
  | Some it => let '(p', it') := delete_item it st.1 in (p', <[i := it']> st.2)
  | None => st
  end.
Definition deleteDocs (sched : list nat) (items : list Item) (p : part) : part * list Item := foldl delete_step (p, items) sched.

Definition estimatedDocSize (doc : Document) : Z :=
  foldl (fun acc f => acc + Z.land (Z.of_nat (String.length (DF_Name f)) + Z.of_nat (length (DF_Value f)) + 2 + 3) (Z.lnot 3)) 0 (D_Fields doc)
  + (28 * Z.of_nat (length (D_Fields doc)) + 12).

Context (CheckVirtualMemExceed : Z -> bool).

(** The goroutine of [bulk] for one item: the bytes of its document and the item. *)
Definition serialize_item (it : Item) : list Z * Item :=
  match It_Doc it with
  | None => ([], with_err (VearchErr INTERNAL_ERROR (panic_text NilDeref)) it)
  | Some doc => (Serialize (D_Fields doc), {| It_Doc := Some {| D_PKey := D_PKey doc; D_Fields := [] |}; It_Err := Some (NewError SUCCESS None) |})
  end.

(** The code of a document, read back from the message. *)
Definition code_info (msg : string) : string := match SplitOn ":" msg with [_; c] => c | _ => msg end.
Definition code_error (code : Z) : option error :=
  if code =? 1 then Some (NewError INTERNAL_ERROR (Some (OtherErr "add doc failed: stored successfully, but not yet in disk index until rebuild")))
  else if negb (code =? 0) then Some (NewError INTERNAL_ERROR (Some (OtherErr "add doc failed, err code %d")))
  else None.

(** [items[i].Err = ...] for every code that is no success. *)
Fixpoint set_codes (msgs : list string) (items : list Item) : list Item * go unit :=
  match msgs with
  | [] => (items, Ret tt)
  | msg :: msgs' =>
    match ParseInt (code_info msg) ≫= code_error with
    | None => match items with
              | [] => set_codes msgs' []
              | it :: items' => let '(l, r) := set_codes msgs' items' in (it :: l, r)
              end
    | Some e => match items with
                | [] => ([], Panic IndexRange)
                | it :: items' => let '(l, r) := set_codes msgs' items' in (with_err e it :: l, r)
                end
    end
  end.

Definition bulk (items : list Item) (p : part) : handled :=
  match items with
  | [] => (p, items, Panic IndexRange)
  | it0 :: _ =>
    match It_Doc it0 with
    | None => (p, items, Panic NilDeref)
    | Some doc0 =>
      if CheckVirtualMemExceed (estimatedDocSize doc0 * Z.of_nat (length items) + 24 * Z.of_nat (length items))
      then (p, with_err (NewError INTERNAL_ERROR (Some (OtherErr "canceled by memory circuit breaker"))) <$> items, Ret tt)
      else
        let docBytes := (serialize_item <$> items).*1 in
        let items := (serialize_item <$> items).*2 in
        let '(p', r) := store_Write (Bulk docBytes) p in
        match r with
        | Ret _ => (p', items, Panic NilDeref)
        | Panic x => (p', items, Panic x)
        | Fail e =>
          match NewError INTERNAL_ERROR (Some e) with
          | VearchErr SUCCESS msg => let '(l, r) := set_codes (SplitOn "," msg) items in (p', l, r)
          | vErr => (p', with_err vErr <$> items, Ret tt)
          end
        end
    end
  end.

(** [deleteByQuery]: the results of the query, if it succeeds, are the fields of each item; the reply is an error, or the keys that were deleted, in order. *)
Definition result_key (fields : list DocField) : list Z :=
  foldl (fun key f => if DF_Name f =?s IdField then DF_Value f else key) [] fields.
Definition delete_candidate (key : list Z) : Item :=
  {| It_Doc := Some {| D_PKey := of_bytes key; D_Fields := [{| DF_Name := "_id"; DF_Type := FT_INT; DF_Value := key; DF_Option := FO_Null |}] |}; It_Err := None |}.
Definition deleteByQuery (results : option (list (list (list DocField)))) (sched : nat -> list nat) (p : part) : part * (error + list string) :=
  match results with
  | None => (p, inl (VearchErr DELETE_BY_QUERY_SERACH_ERR "deleteByQuery search doc failed"))
  | Some [] => (p, inl (VearchErr DELETE_BY_QUERY_SEARCH_ID_IS_0 "deleteByQuery search id is 0"))
  | Some results =>
    let docs := delete_candidate <$> filter (fun key => key <> []) (result_key <$> concat results) in
    if (length docs =? 0)%nat then (p, inl (VearchErr DELETE_BY_QUERY_SEARCH_ID_IS_0 "deleteByQuery document id is empty"))
    else
      let '(p', items) := deleteDocs (sched (length docs)) docs p in
      (p', inr (omap (fun it => match It_Err it, It_Doc it with None, Some doc => Some (D_PKey doc) | _, _ => None end) items))
  end.

(** ** One request *)

(** The methods that work on the items of the request, and any that is not known; [DeleteByQueryHandler] is [deleteByQuery], the searches and the methods that
    only forward to the engine or to raft have no items. *)
Inductive method : Type :=
| GetDocsHandler | GetDocsByPartitionHandler | GetNextDocsByPartitionHandler | DeleteDocsHandler (sched : list nat) | BatchHandler | OtherHandler.

(** Whether the request gets a slot of its queue before its context ends. *)
Inductive slot : Set := Acquired | DeadlineExceeded | Cancelled.

(** [UnaryHandler.execute]: the state, the items, and [req.Err]. *)
Definition execute (found : bool) (sl : slot) (m : method) (items : list Item) (p : part) : part * list Item * option error :=
  match sl with
  | DeadlineExceeded => (p, items, Some (NewError TIMEOUT None))
  | Cancelled => (p, items, Some (NewError PARTITION_SERVER_MEMORYEXCEED None))
  | Acquired =>
    if negb found then (p, items, Some (verr PARTITION_NOT_EXIST "partition not found, partitionId:[%d], nodeID:[%d], node ip:[%s]"))
    else
      let '(p', (items', r)) :=
        match m with
        | GetDocsHandler => (p, getDocuments p false false items)
        | GetDocsByPartitionHandler => (p, getDocuments p true false items)
        | GetNextDocsByPartitionHandler => (p, getDocuments p true true items)
        | DeleteDocsHandler sched => let '(p', l) := deleteDocs sched items p in (p', (l, Ret tt))
        | BatchHandler => let '(p', l, r) := bulk items p in (p', (l, r))
        | OtherHandler => (p, (items, Fail (NewError METHOD_NOT_IMPLEMENT None)))
        end in
      match r with
      | Ret _ => (p', items', None)
      | Fail e => (p', items', Some e)
      | Panic x => (p', items', Some (NewError RECOVER (Some (OtherErr (panic_text x)))))
      end
  end.

(** [UnaryHandler.Execute]: if the deadline passes first, the reply has the error [TIMEOUT] and the items as [seen] by then, and the request goes on. *)
Definition Execute (late : option (list Item)) (found : bool) (sl : slot) (m : method) (items : list Item) (p : part) : part * (list Item * option error) :=
  let '(p', items', err) := execute found sl m items p in
  (p', match late with
       | Some seen => (seen, Some (verr TIMEOUT "request of method[%s] time out[%dms]"))
       | None => (items', err)
       end).

(** ** The codes of a batch *)

Definition free (sep : ascii) (s : string) : Prop := Forall (fun c => c <> sep) (String.list_ascii_of_string s).

Lemma split_at_free sep s cur : free sep s -> split_at sep s cur = [cur +:+ s].
Proof.
  revert cur. induction s as [|c s IH]; intros cur H; cbn [split_at]; [by rewrite string_app_nil|].
  apply Forall_cons in H as [Hc H]. destruct (Ascii.eqb_spec c sep); [done|]. by rewrite IH, app_assoc_string by done.
Qed.

Lemma split_at_app sep s rest cur : free sep s -> split_at sep (s +:+ String sep rest) cur = (cur +:+ s) :: split_at sep rest "".
Proof.
  revert cur. induction s as [|c s IH]; intros cur H.
  - change ("" +:+ String sep rest) with (String sep rest). cbn [split_at]. rewrite Ascii.eqb_refl. by rewrite string_app_nil.
  - change (String c s +:+ String sep rest) with (String c (s +:+ String sep rest)). cbn [split_at]. apply Forall_cons in H as [Hc H]. destruct (Ascii.eqb_spec c sep); [done|]. by rewrite IH, app_assoc_string by done.
Qed.

Lemma digits_free sep s n m : digit sep = None -> parse_digits s n = Some m -> free sep s.
Proof.
  intros Hsep. revert n. induction s as [|c s IH]; intros n H; [constructor|]. cbn [parse_digits] in H. destruct (digit c) as [d|] eqn:Hd; [|done].
  constructor; [congruence|by eapply IH].
Qed.

Lemma FormatInt_free sep z : in_s 64 z -> digit sep = None -> sep <> "-"%char -> free sep (FormatInt z).
Proof.
  intros Hz Hsep Hm. unfold FormatInt.
  assert (forall n : N, free sep (pretty n)) as Hn.
  { intros n. pose proof (parse_N_pretty n) as H. unfold parse_N in H. destruct (pretty n); [done|]. by eapply digits_free. }
  destruct z as [|q|q]; [apply (Hn 0%N)|apply (Hn (N.pos q))|]. constructor; [congruence|apply (Hn (N.pos q))].
Qed.

(** The message of a batch, split: the codes in order, the first after ["success:"], and an empty text. *)
Lemma codes_split codes : Forall (in_s 64) codes -> SplitOn "," (codes_text codes) = (FormatInt <$> codes) ++ [""%string].
Proof.
  unfold SplitOn. induction 1 as [|c codes Hc _ IH]; [done|]. cbn [codes_text fmap list_fmap app].
  change ("," +:+ codes_text codes) with (String "," (codes_text codes)). rewrite split_at_app by (by apply FormatInt_free). by rewrite IH.
Qed.

Lemma split_at_prefix sep pre s cur : free sep pre -> split_at sep (pre +:+ s) cur = split_at sep s (cur +:+ pre).
Proof.
  revert cur. induction pre as [|c pre IH]; intros cur H; [by rewrite string_app_nil|].
  change (String c pre +:+ s) with (String c (pre +:+ s)). cbn [split_at]. apply Forall_cons in H as [Hc H]. destruct (Ascii.eqb_spec c sep); [done|]. by rewrite IH, app_assoc_string by done.
Qed.

Lemma success_text codes : NewError SUCCESS (Some (OtherErr (codes_text codes))) = VearchErr SUCCESS ("success:" +:+ codes_text codes).
Proof.
  unfold NewError. destruct (String.prefix (ErrMsg SUCCESS) (codes_text codes)) eqn:Hp; [|done]. exfalso.
  destruct codes as [|c codes]; [vm_compute in Hp; done|]. cbn [codes_text] in Hp.
  assert (exists a t, FormatInt c = String a t /\ a <> "s"%char) as (a & t & Ht & Ha).
  { unfold FormatInt. destruct c as [|q|q]; [by exists "0"%char, ""%string| |by exists "-"%char, (pretty (N.pos q))].
    destruct (pretty_N_head (N.pos q)) as (a & t & Ht & [d Hd]). exists a, t. split; [exact Ht|]. intros ->. done. }
  rewrite Ht in Hp.
  change (String.prefix (ErrMsg SUCCESS) (String a t +:+ "," +:+ codes_text codes)) with
    (if Ascii.ascii_dec "s" a then String.prefix "uccess" (t +:+ "," +:+ codes_text codes) else false) in Hp. by destruct (Ascii.ascii_dec "s" a).
Qed.

Definition mark (it : Item) (code : Z) : Item := match code_error code with Some e => with_err e it | None => it end.

Lemma code_info_plain s : free ":" s -> code_info s = s.
Proof. intros H. unfold code_info, SplitOn. by rewrite split_at_free. Qed.

Lemma set_codes_plain codes items rest : Forall (in_s 64) codes -> length codes = length items -> rest = [""%string] ->
  set_codes ((FormatInt <$> codes) ++ rest) items = (zip_with mark items codes, Ret tt).
Proof.
  intros Hc. revert items. induction Hc as [|c codes Hc _ IH]; intros [|it items] Hlen ->; try done.
  cbn [fmap list_fmap app set_codes zip_with]. rewrite code_info_plain by (by apply FormatInt_free). rewrite ParseInt_FormatInt by done. cbn [mbind option_bind].
  rewrite IH by (done || (cbn [length] in Hlen; lia)). unfold mark. by destruct (code_error c).
Qed.

Lemma set_codes_message codes items : Forall (in_s 64) codes -> length codes = length items ->
  set_codes (SplitOn "," ("success:" +:+ codes_text codes)) items = (zip_with mark items codes, Ret tt).
Proof.
  intros Hc Hlen. unfold SplitOn. rewrite split_at_prefix by (repeat constructor; done).
  pose proof (codes_split codes Hc) as Hs. unfold SplitOn in Hs. destruct Hc as [|c codes Hc Hcs].
  { destruct items; [|done]. reflexivity. }
  cbn [codes_text fmap list_fmap app] in Hs |- *. change ("," +:+ codes_text codes) with (String "," (codes_text codes)) in *.
  rewrite split_at_app in Hs |- * by (by apply FormatInt_free). injection Hs as Hs. rewrite Hs. destruct items as [|it items]; [done|].
  change ("" +:+ "success:") with "success:"%string. cbn [set_codes zip_with]. assert (code_info ("success:" +:+ FormatInt c) = FormatInt c) as ->.
  { unfold code_info, SplitOn. change ("success:" +:+ FormatInt c) with ("success" +:+ String ":" (FormatInt c)).
    rewrite split_at_app by (repeat constructor; done). by rewrite split_at_free by (by apply FormatInt_free). }
  rewrite ParseInt_FormatInt by done. cbn [mbind option_bind].
  rewrite (set_codes_plain codes items [""%string]) by (done || (cbn [length] in Hlen; lia)). unfold mark. by destruct (code_error c).
Qed.

(** ** What the reply of a batch says *)

Section Answers.
(** The codes of the engine are C ints; the errors of raft and of the check of resources are no successes. *)
Hypothesis code_range : forall e doc, in_s 64 (AddOrUpdateDoc e doc).2.
Hypothesis raft_errors : forall k err applied, raft k = Some (err, applied) -> code_of err <> Some SUCCESS.
Hypothesis check_errors : forall k err, (check k).2 = Some err -> code_of err <> Some SUCCESS.

Lemma AddOrUpdateDocs_codes e docs e' codes : AddOrUpdateDocs e docs = (e', Ret codes) -> length codes = length docs /\ Forall (in_s 64) codes.
Proof.
  revert e codes. induction docs as [|[|b bs] docs IH]; intros e codes H; cbn [AddOrUpdateDocs] in H; [by injection H as <- <-|done|].
  pose proof (code_range e (b :: bs)) as Hc. destruct (AddOrUpdateDoc e (b :: bs)) as [e1 c]. destruct (AddOrUpdateDocs e1 docs) as [e2 [l|?|?]] eqn:El; try done.
  injection H as <- <-. destruct (IH e1 l El) as [Hlen Hl]. split; [cbn [length]; by rewrite Hlen|]. by constructor.
Qed.

(** The engine of [p] was given the documents, in order, and answered with these codes. *)
Definition ran (docs : list (list Z)) (p p' : part) (codes : list Z) : Prop :=
  exists e e', pt_engine p = Some e /\ pt_engine p' = Some e' /\ AddOrUpdateDocs e docs = (e', Ret codes).

Lemma RaftSubmit_bulk docs p p' r : RaftSubmit (Bulk docs) p = (p', r) ->
  (exists codes, ran docs p p' codes /\ r = Fail (NewError SUCCESS (Some (OtherErr (codes_text codes))))) \/
  (exists err, r = Fail err /\ code_of err <> Some SUCCESS).
Proof.
  unfold RaftSubmit, writer_Write. intros H. destruct (raft (pt_calls p)) as [[err [|]]|] eqn:Hr.
  - destruct (match pt_engine p with Some _ => _ | None => _ end) as [g x]. injection H as <- <-. right. exists err. split; [done|]. by eapply raft_errors.
  - destruct (match pt_engine p with Some _ => _ | None => _ end) as [g x]. injection H as <- <-. right. exists err. split; [done|]. by eapply raft_errors.
  - destruct (pt_engine p) as [e|] eqn:He; [|injection H as <- <-; right; by eexists].
    destruct (AddOrUpdateDocs e docs) as [e' [codes|err|x]] eqn:Ha; injection H as <- <-.
    + left. exists codes. split; [|done]. by exists e, e'.
    + exfalso. clear -Ha. revert e Ha. induction docs as [|[|b bs] docs IH]; intros e Ha; cbn [AddOrUpdateDocs] in Ha; try done.
      destruct (AddOrUpdateDoc e (b :: bs)) as [e1 c]. destruct (AddOrUpdateDocs e1 docs) as [e2 [l|?|?]] eqn:El; try done. injection Ha as <- <-. by eapply IH.
    + right. eexists. split; [done|]. unfold NewError. by destruct (String.prefix _ _).
Qed.

(** A batch is answered by the codes of the engine, by an error that is none, or - when the check of resources forgets its error - by nothing. *)
Lemma store_Write_bulk docs p p' r : store_Write (Bulk docs) p = (p', r) ->
  (exists codes, ran docs p p' codes /\ r = Fail (NewError SUCCESS (Some (OtherErr (codes_text codes))))) \/
  (exists err, r = Fail err /\ code_of err <> Some SUCCESS) \/ r = Ret tt.
Proof.
  unfold store_Write. destruct (RaftSubmit (Bulk docs) p) as [p1 r1] eqn:Hs. apply RaftSubmit_bulk in Hs. unfold Write. cbn [is_bulk].
  destruct (checkWritable (pt_status p)) as [[]|err|x] eqn:Hw.
  - destruct (ResourceExhausted (pt_quota p)); [intros [= <- <-]; right; left; by eexists|].
    assert (forall q, (exists codes, ran docs p p1 codes /\ r1 = Fail (NewError SUCCESS (Some (OtherErr (codes_text codes))))) \/ (exists err, r1 = Fail err /\ code_of err <> Some SUCCESS) ->
      (exists codes, ran docs p (set_quota q p1) codes /\ r1 = Fail (NewError SUCCESS (Some (OtherErr (codes_text codes))))) \/ (exists err, r1 = Fail err /\ code_of err <> Some SUCCESS) \/ r1 = Ret tt) as Hq.
    { intros q [(codes & Hrun & ->)|?]; [|by right; left]. left. exists codes. by split. }
    destruct (50000 <=? _); [|intros [= <- <-]; by apply Hq]. destruct (check (pt_calls p)) as [b o] eqn:Hc. cbn [fst snd]. destruct b.
    + intros [= <- <-]. right. destruct o as [err|]; [left|by right]. exists err. split; [done|]. apply (check_errors (pt_calls p)). by rewrite Hc.
    + intros [= <- <-]. by apply Hq.
  - intros [= <- <-]. right. left. exists err. split; [done|]. destruct (pt_status p); try discriminate Hw; by injection Hw as <-.
  - by destruct (pt_status p).
Qed.

Definition fresh (d : Document) : Item := {| It_Doc := Some d; It_Err := None |}.

Lemma refused_not_ok err it : code_of err <> Some SUCCESS -> upsert_ok (with_err err it) = false.
Proof. intros H. unfold upsert_ok, with_err. cbn. destruct err as [c m|m]; [|done]. rewrite bool_decide_false by (cbn in H; congruence). apply andb_false_r. Qed.

Lemma internal_not_success err : code_of err <> Some SUCCESS -> exists c m, NewError INTERNAL_ERROR (Some err) = VearchErr c m /\ c <> SUCCESS.
Proof. intros H. destruct err as [c m|m]; [exists c, m; split; [done|]; cbn in H; congruence|]. unfold NewError. destruct (String.prefix _ _); eexists _, _; by split. Qed.

Lemma code_error_refuses code e it : code_error code = Some e -> upsert_ok (with_err e it) = false.
Proof. unfold code_error. intros H. apply refused_not_ok. destruct (code =? 1); [by injection H as <-|]. destruct (negb (code =? 0)); [by injection H as <-|done]. Qed.

Definition doc_bytes (ds : list Document) : list (list Z) := (fun d => Serialize (D_Fields d)) <$> ds.
Definition cleared (d : Document) : Item := {| It_Doc := Some {| D_PKey := D_PKey d; D_Fields := [] |}; It_Err := Some (NewError SUCCESS None) |}.

Lemma serialize_fresh ds : (serialize_item <$> (fresh <$> ds)).*1 = doc_bytes ds /\ (serialize_item <$> (fresh <$> ds)).*2 = cleared <$> ds.
Proof. induction ds as [|d ds [IH1 IH2]]; [done|]. cbn [fmap list_fmap]. by rewrite IH1, IH2. Qed.

(** The items of a reply have the keys of the request. *)
Definition same_keys (ds : list Document) (items : list Item) : Prop := Forall2 (fun d it => (D_PKey <$> It_Doc it) = Some (D_PKey d)) ds items.

Lemma same_keys_fmap ds (f : Document -> Item) : (forall d, (D_PKey <$> It_Doc (f d)) = Some (D_PKey d)) -> same_keys ds (f <$> ds).
Proof. intros H. apply Forall2_fmap_r, Forall_Forall2_diag, Forall_true. done. Qed.

Lemma same_keys_mark ds items codes : same_keys ds items -> length codes = length items -> same_keys ds (zip_with mark items codes).
Proof.
  intros H. revert codes. induction H as [|d it ds items Hk H IH]; intros [|c codes] Hlen; try discriminate Hlen; [constructor|]. cbn [zip_with]. constructor; [|apply IH; cbn in Hlen; lia].
  unfold mark. by destruct (code_error c).
Qed.

(** A batch of documents: its items keep their keys; the handler returns or panics; and if it returns, an item that is answered with success
    was added by the engine. *)
Lemma bulk_sound ds p p' items r : bulk (fresh <$> ds) p = (p', items, r) ->
  same_keys ds items /\ (forall e, r <> Fail e) /\
  (r = Ret tt -> forall i it, items !! i = Some it -> upsert_ok it = true -> exists codes, ran (doc_bytes ds) p p' codes /\ codes !! i = Some 0).
Proof.
  unfold bulk. destruct ds as [|d0 ds0]; [intros [= <- <- <-]; split; [constructor|by split]|]. remember (d0 :: ds0) as ds eqn:Hds.
  assert (fresh <$> ds = fresh d0 :: (fresh <$> ds0)) as Hcons by by rewrite Hds. rewrite Hcons at 1. cbn [It_Doc fresh]. clear Hcons Hds.
  destruct (CheckVirtualMemExceed _).
  { intros [= <- <- <-]. rewrite <- list_fmap_compose. split; [by apply same_keys_fmap|]. split; [done|]. intros _ i it (d & -> & _)%list_lookup_fmap_Some Hok.
    unfold compose in Hok. by rewrite refused_not_ok in Hok. }
  destruct (serialize_fresh ds) as [-> ->]. destruct (store_Write (Bulk (doc_bytes ds)) p) as [p1 r1] eqn:Hw.
  apply store_Write_bulk in Hw as [(codes & Hrun & ->)|[(err & -> & Herr)| ->]].
  - destruct Hrun as (e & e' & He & He' & Ha) eqn:Hr. clear Hr. destruct (AddOrUpdateDocs_codes _ _ _ _ Ha) as [Hlen Hrange].
    unfold doc_bytes in Hlen. rewrite length_fmap in Hlen. rewrite success_text. cbn [NewError]. rewrite set_codes_message by (done || by rewrite length_fmap).
    intros [= <- <- <-]. split; [apply same_keys_mark; [by apply same_keys_fmap|by rewrite length_fmap]|]. split; [done|]. intros _ i it Hi Hok.
    exists codes. split; [by exists e, e'|]. apply lookup_zip_with_Some in Hi as (it0 & c & -> & _ & Hc). rewrite Hc. f_equal.
    unfold mark in Hok. destruct (code_error c) as [err|] eqn:Ec; [by rewrite (code_error_refuses c) in Hok|].
    unfold code_error in Ec. destruct (c =? 1); [done|]. destruct (Z.eqb_spec c 0); [done|done].
  - destruct (internal_not_success err Herr) as (c & m & -> & Hc). destruct c; try done; intros [= <- <- <-]; rewrite <- list_fmap_compose;
      (split; [by apply same_keys_fmap|]; split; [done|]; intros _ i it (d & -> & _)%list_lookup_fmap_Some Hok; unfold compose in Hok; by rewrite refused_not_ok in Hok).
  - intros [= <- <- <-]. split; [by apply same_keys_fmap|]. by split.
Qed.

(** What the partition server answers to a batch: an error that is no success, or items of which those answered with success were added. *)
Definition answers_truly (ds : list Document) (p p' : part) (items : list Item) (err : option error) : Prop :=
  same_keys ds items /\
  match err with
  | Some e => code_of e <> Some SUCCESS
  | None => forall i it, items !! i = Some it -> upsert_ok it = true -> exists codes, ran (doc_bytes ds) p p' codes /\ codes !! i = Some 0
  end.

Lemma Execute_batch late found sl ds p p' items err : (forall seen, late = Some seen -> same_keys ds seen) ->
  Execute late found sl BatchHandler (fresh <$> ds) p = (p', (items, err)) -> answers_truly ds p p' items err.
Proof.
  intros Hlate H. unfold Execute in H. destruct (execute found sl BatchHandler (fresh <$> ds) p) as [[p1 items1] err1] eqn:He.
  assert (answers_truly ds p p1 items1 err1) as Ht.
  { unfold execute in He. destruct sl; [|injection He as <- <- <-; split; [by apply same_keys_fmap|done]..].
    destruct found; cbn [negb] in He; [|injection He as <- <- <-; split; [by apply same_keys_fmap|done]].
    destruct (bulk (fresh <$> ds) p) as [[p2 items2] r] eqn:Hb. apply bulk_sound in Hb as (Hk & Hf & Hs).
    destruct r as [[]|e|x]; injection He as <- <- <-; [split; [done|by apply Hs]|by destruct (Hf e)|].
    split; [done|]. unfold NewError. by destruct (String.prefix _ _). }
  destruct late as [seen|]; injection H as <- <- <-; [|done]. split; [by apply Hlate|done].
Qed.

(** ** The answer of the router *)

(** The goroutine of one partition: its message with the documents [x_docs], what the cache of the router finds, the nodes marked as faulty, what each attempt at a server returns, and
    the partition on that server before and after it. *)
Record exchange : Type := {
  x_message : PartitionData; x_docs : list Document; x_found : error + Partition; x_faulty : gset Z;
  x_rpc : nat -> Z -> PartitionData -> go PartitionData; x_before : nat -> Z -> part; x_after : nat -> Z -> part
}.
Definition x_reply (space : Space) (x : exchange) : PartitionData := deliver space (x_found x) (x_rpc x) (x_faulty x) (x_message x).

(** A call that returns brings the reply of [UnaryHandler.Execute] on that server; one that fails - the server is gone, the connection breaks, the answer is lost - has no code of success, and
    says nothing about the server. *)
Definition exchanged (space : Space) (x : exchange) : Prop :=
  PD_Items (x_message x) = new_item <$> x_docs x /\
  (forall k n nds reply, normalized space (x_docs x) = Some nds -> x_rpc x k n (set_PD_Items (new_item <$> nds) (x_message x)) = Ret reply ->
     exists late found sl items err, (forall seen, late = Some seen -> same_keys nds seen) /\
       Execute late found sl BatchHandler (fresh <$> nds) (x_before x k n) = (x_after x k n, (items, err)) /\
       PD_Items reply = Some <$> items /\ PD_Err reply = err) /\
  (forall k n d e, x_rpc x k n d = Fail e -> code_of e <> Some SUCCESS).

(** On the leader or on a replica of the partition, the engine was given the documents of the message and has added one of this key: its code was 0. *)
Definition stored_by (space : Space) (x : exchange) (key : string) : Prop :=
  exists partition k n nds codes i d,
    x_found x = inr partition /\ asked (x_faulty x) partition n /\ normalized space (x_docs x) = Some nds /\
    ran (doc_bytes nds) (x_before x k n) (x_after x k n) codes /\ nds !! i = Some d /\ D_PKey d = key /\ codes !! i = Some 0.

Lemma same_keys_reply ds items resp : same_keys ds items -> PD_Items resp = Some <$> items ->
  Forall is_Some (PD_Items resp) /\ item_key <$> PD_Items resp = (fun d => Some (D_PKey d)) <$> ds.
Proof.
  intros Hk ->. split; [apply Forall_fmap, Forall_true; intros it; by eexists|].
  induction Hk as [|d it ds items Hd _ IH]; [done|]. cbn [fmap list_fmap]. rewrite IH. cbn [item_key]. by rewrite Hd.
Qed.

Lemma new_items_keys (ds : list Document) : item_key <$> (new_item <$> ds) = (fun d => Some (D_PKey d)) <$> ds.
Proof. induction ds as [|d ds IH]; [done|]. cbn [fmap list_fmap]. by rewrite IH. Qed.

Lemma normalized_same_keys space (ds nds : list Document) : normalized space ds = Some nds -> (fun d => Some (D_PKey d)) <$> nds = (fun d => Some (D_PKey d)) <$> ds.
Proof. intros H%normalized_keys. induction H as [|d n ds nds Hd _ IH]; [done|]. cbn [fmap list_fmap]. by rewrite IH, Hd. Qed.

(** What arrives for a partition: an error that is no success on items of all documents, or the reply of a server. *)
Lemma exchanged_cases space x : exchanged space x ->
  item_key <$> PD_Items (x_reply space x) = item_key <$> PD_Items (x_message x) /\ Forall is_Some (PD_Items (x_reply space x)) /\
  ((exists e, PD_Err (x_reply space x) = Some e /\ code_of e <> Some SUCCESS) \/
   (PD_Err (x_reply space x) = None /\
    forall it, Some it ∈ PD_Items (x_reply space x) -> upsert_ok it = true -> exists d, d ∈ x_docs x /\ item_key (Some it) = Some (D_PKey d) /\ stored_by space x (D_PKey d))).
Proof.
  intros (Hm & Hrpc & Hfail). unfold x_reply.
  destruct (deliver_cases space (x_found x) (x_rpc x) (x_faulty x) (x_message x) (x_docs x) Hm) as [(e & He & Hcode & Hs & Hk)|(p & k & n & nds & Hf & Ha & Hn & Hr)].
  - split; [done|]. split; [done|]. left. exists e. split; [done|]. destruct Hcode as [->|(k & n & nds & e' & Hk' & ->)]; [done|].
    apply Hfail in Hk'. by destruct (internal_not_success e' Hk') as (c & m & -> & ?); cbn; congruence.
  - set (reply := deliver space (x_found x) (x_rpc x) (x_faulty x) (x_message x)) in *.
    destruct (Hrpc k n nds reply Hn Hr) as (late & fnd & sl & items & err & Hlate & He & Hi & Herr). apply Execute_batch in He as [Hk Ht]; [|done].
    destruct (same_keys_reply nds items reply Hk Hi) as [Hsome Hkeys].
    rewrite Hkeys, Hm, new_items_keys. split; [by apply (normalized_same_keys space)|]. split; [done|].
    destruct err as [e|]; [left; by exists e|]. right. split; [done|]. intros it Hin Hok. rewrite Hi in Hin. apply list_elem_of_fmap in Hin as (it' & [= <-] & Hin).
    apply list_elem_of_lookup in Hin as [j Hj]. destruct (Ht j it Hj Hok) as (codes & Hrun & Hc).
    destruct (Forall2_lookup_r _ _ _ _ _ Hk Hj) as (nd & Hnd & Hkey). destruct (Forall2_lookup_r _ _ _ _ _ (normalized_keys _ _ _ Hn) Hnd) as (d & Hd & Hdk).
    exists d. split; [by eapply list_elem_of_lookup_2|]. rewrite <- Hdk. split; [done|]. by exists p, k, n, nds, codes, j, nd.
Qed.

Lemma exchanged_reply space x : exchanged space x -> reply_to (x_message x) (x_reply space x).
Proof. intros (Hk & Hs & _)%exchanged_cases. split; [done|]. by rewrite Hk. Qed.

(** An item that the router takes for a success comes from a reply without an error. *)
Lemma replied_ok space xs it : Forall (exchanged space) xs -> replied (x_reply space <$> xs) (Some it) -> upsert_ok it = true ->
  exists x d, x ∈ xs /\ d ∈ x_docs x /\ item_key (Some it) = Some (D_PKey d) /\ stored_by space x (D_PKey d).
Proof.
  intros Hxs (resp & resp' & (x & -> & Hx)%list_elem_of_fmap & Hset & Hin) Hok. rewrite Forall_forall in Hxs.
  destruct (exchanged_cases space x (Hxs x Hx)) as (_ & Hsome & [(e & Herr & Hcode)|[Herr Hgood]]).
  - destruct (setPartitionErr_keys _ Hsome) as (d' & Hd' & _ & Hmark). rewrite Hset in Hd'. injection Hd' as <-. specialize (Hmark e Herr Hcode).
    rewrite Forall_forall in Hmark. specialize (Hmark _ Hin). cbn in Hmark. unfold upsert_ok in Hok. rewrite Hmark in Hok.
    destruct e as [c m|m]; [|done]. rewrite bool_decide_false, andb_false_r in Hok by (cbn in Hcode; congruence). done.
  - unfold setPartitionErr in Hset. rewrite Herr in Hset. injection Hset as <-. destruct (Hgood it Hin Hok) as (d & ? & ? & ?). by exists x, d.
Qed.

Lemma new_item_inj (ds ds' : list Document) : new_item <$> ds = new_item <$> ds' -> ds = ds'.
Proof. revert ds'. induction ds as [|d ds IH]; intros [|d' ds'] H; try done. cbn in H. injection H as -> H. by rewrite (IH ds'). Qed.

(** What the answer of an upsert calls stored is stored: whatever happens on the way - partitions that the router does not know, vectors that cannot be normalized, servers that cannot be reached or whose answer is lost, partitions that are
    gone, not the leader or out of resources, commands that raft refuses or whose answer it loses, deadlines, panics, replies in any order - each position of the
    answer holds an item for its document, and if that item reports success, then in the partition where [UpsertByPartitions] sends a document of this key, on the leader or on a replica,
    the engine has added a document of this key.  (C11) *)
Theorem upsert_acknowledged (hash : string -> Z) (uuid : string) (ToInt64E ToTimeE : string -> option Z) (partitions : list Z)
    (r r' : routerRequest) (ds : list Document) (xs : list exchange) :
  routable hash (r_space r) partitions -> r_Err r = None -> r_docs r = Some <$> ds ->
  UpsertByPartitions hash uuid ToInt64E ToTimeE partitions r = Ret r' -> r_Err r' = None ->
  snd <$> map_to_list (r_sendMap r') ≡ₚ x_message <$> xs -> Forall (exchanged (r_space r)) xs ->
  exists items, gather (r_docs r') (x_reply (r_space r) <$> xs) = Ret items /\ length items = length ds /\
    forall i d, ds !! i = Some d ->
      exists it, items !! i = Some (Some it) /\ item_key (Some it) = Some (D_PKey d) /\
        (upsert_ok it = true ->
         exists x d', x ∈ xs /\ d' ∈ ds /\ D_PKey d' = D_PKey d /\
           proper_place hash ToInt64E ToTimeE (r_space r) partitions d' (PD_PartitionID (x_message x)) /\ stored_by (r_space r) x (D_PKey d)).
Proof.
  intros Hok Herr Hdocs Hrun Herr' Hmsgs Hxs. rewrite UpsertByPartitions_scatter in Hrun by done.
  pose proof (scatter_routes uuid _ r r' ds Hdocs Hrun Herr') as Hroute. set (route := upsert_route hash ToInt64E ToTimeE (r_space r) partitions) in *.
  destruct (gathered uuid route r r' ds (x_message <$> xs) (x_reply (r_space r) <$> xs) Hdocs Hroute Hrun Hmsgs) as (items & Hg & Hlen & Hall).
  { apply Forall2_fmap, Forall_Forall2_diag. eapply Forall_impl; [exact Hxs|]. apply exchanged_reply. }
  exists items. split; [done|]. split; [done|]. intros i d Hd. destruct (Hall i d Hd) as (it & Hi & Hkey & Hrep). exists it. split; [done|]. split; [done|].
  intros Hit. destruct (replied_ok (r_space r) xs it Hxs Hrep Hit) as (x & d' & Hx & Hd' & Hkey' & Hst). rewrite Hkey in Hkey'. injection Hkey' as Hkey'.
  exists x, d'. split; [done|]. rewrite Hkey'. destruct (scatter_total uuid route r ds Hdocs Hroute) as (r1 & Hs & _ & _ & _ & Hsent).
  rewrite Hs in Hrun. injection Hrun as <-.
  assert (x_message x ∈ snd <$> map_to_list (r_sendMap r1)) as Hm by (rewrite Hmsgs; by apply list_elem_of_fmap_2).
  apply list_elem_of_fmap in Hm as ([pid m] & Hxm & Hm). cbn in Hxm. apply elem_of_map_to_list in Hm. rewrite Hsent in Hm.
  rewrite Forall_forall in Hxs. destruct (Hxs x Hx) as [Hitems _]. unfold sent in Hm.
  assert (PD_PartitionID m = pid /\ x_docs x = filter (fun d => routes_to route pid d = true) ds) as [Hpid Hxd].
  { destruct (filter _ ds) as [|d1 ds1] eqn:Ef; [done|]. injection Hm as <-. split; [done|]. apply new_item_inj. by rewrite <- Hitems, Hxm. }
  rewrite Hxm, Hpid. rewrite Hxd in Hd'. apply list_elem_of_filter in Hd' as [Hto Hin]. split_and!; [done..| |done].
  apply upsert_route_iff; [done|]. fold route. unfold routes_to in Hto. destruct (route d') as [q|?|?]; [|done..]. apply Z.eqb_eq in Hto. by rewrite Hto.
Qed.

(** A batch on a leader with resources, when nothing fails: the engine is given the documents in order, and each item is marked by the code of its document. *)
Theorem bulk_reply_exact (ds : list Document) (p : part) (e : E) :
  ds <> [] -> pt_status p = PA_READWRITE -> ResourceExhausted (pt_quota p) = false -> (check (pt_calls p)).1 = false ->
  (forall n, CheckVirtualMemExceed n = false) -> raft (pt_calls p) = None -> pt_engine p = Some e -> (forall fields, Serialize fields <> []) ->
  exists p' codes, bulk (fresh <$> ds) p = (p', zip_with mark (cleared <$> ds) codes, Ret tt) /\
    length codes = length ds /\ ran (doc_bytes ds) p p' codes.
Proof.
  intros Hne Hst Hq Hck Hmem Hraft He Hser.
  assert (exists e' codes, AddOrUpdateDocs e (doc_bytes ds) = (e', Ret codes)) as (e' & codes & Ha).
  { clear Hne He. revert e. induction ds as [|d ds' IH]; intros e; [by eexists _, _|].
    change (doc_bytes (d :: ds')) with (Serialize (D_Fields d) :: doc_bytes ds'). specialize (Hser (D_Fields d)) as Hd. destruct (Serialize (D_Fields d)) as [|b bs]; [done|].
    cbn [AddOrUpdateDocs]. destruct (AddOrUpdateDoc e (b :: bs)) as [e1 c]. destruct (IH e1) as (e2 & l & Hl). rewrite Hl. by eexists _, _. }
  destruct (AddOrUpdateDocs_codes _ _ _ _ Ha) as [Hlen Hrange]. unfold doc_bytes in Hlen. rewrite length_fmap in Hlen.
  assert (exists p', store_Write (Bulk (doc_bytes ds)) p = (p', Fail (NewError SUCCESS (Some (OtherErr (codes_text codes))))) /\ pt_engine p' = Some e') as (p' & Hw & He').
  { unfold store_Write, RaftSubmit, writer_Write. rewrite He, Ha, Hraft. unfold Write. rewrite Hst. cbn [checkWritable is_bulk]. rewrite Hq.
    destruct (check (pt_calls p)) as [b o]. cbn in Hck. subst b. cbn [fst]. destruct (50000 <=? _); eexists; split; reflexivity. }
  exists p', codes. split; [|split; [done|by exists e, e']].
  unfold bulk. destruct ds as [|d0 ds0]; [done|]. remember (d0 :: ds0) as ds eqn:Hds.
  assert (fresh <$> ds = fresh d0 :: (fresh <$> ds0)) as Hcons by by rewrite Hds. rewrite Hcons at 1. cbn [It_Doc fresh]. rewrite Hmem.
  destruct (serialize_fresh ds) as [-> ->]. rewrite Hw, success_text. cbn [NewError].
  by rewrite set_codes_message by (done || by rewrite length_fmap).
Qed.
End Answers.

(** ** Deleting *)

Lemma delete_steps sched st i it : i ∉ sched -> st.2 !! i = Some it -> (foldl delete_step st sched).2 !! i = Some it.
Proof.
  revert st. induction sched as [|j sched IH]; intros st Hi Hit; [done|]. apply not_elem_of_cons in Hi as [Hij Hi]. cbn [foldl]. apply IH; [done|].
  unfold delete_step. destruct (st.2 !! j) as [x|]; [|done]. destruct (delete_item x st.1) as [p' x']. cbn [snd]. by rewrite list_lookup_insert_ne.
Qed.

Lemma deleteDocs_length sched items p : length (deleteDocs sched items p).2 = length items.
Proof.
  unfold deleteDocs. revert p items. induction sched as [|j sched IH]; intros p items; [done|]. cbn [foldl]. unfold delete_step at 2. cbn [fst snd].
  destruct (items !! j) as [it|]; [|apply IH]. destruct (delete_item it p) as [q it']. rewrite IH. apply length_insert.
Qed.

(** Every item is treated once, in some state of the partition. *)
Lemma deleteDocs_each sched items p i it : NoDup sched -> i ∈ sched -> items !! i = Some it ->
  exists q, (deleteDocs sched items p).2 !! i = Some (delete_item it q).2.
Proof.
  unfold deleteDocs. intros Hnd Hi. revert p items. induction Hnd as [|j sched Hj Hnd IH]; intros p items Hit; [by apply elem_of_nil in Hi|]. cbn [foldl].
  apply elem_of_cons in Hi as [->|Hi].
  - exists p. apply delete_steps; [done|]. unfold delete_step. cbn [fst snd]. rewrite Hit. destruct (delete_item it p) as [p' it']. cbn [snd].
    rewrite list_lookup_insert_eq; [done|]. by eapply lookup_lt_Some.
  - assert (i <> j) as Hij by congruence.
    destruct (IH Hi (delete_step (p, items) j).1 (delete_step (p, items) j).2) as [q Hq].
    { unfold delete_step. cbn [fst snd]. destruct (items !! j) as [x|]; [|done]. destruct (delete_item x p) as [p' x']. cbn [snd]. by rewrite list_lookup_insert_ne. }
    exists q. by rewrite <- surjective_pairing in Hq.
Qed.

Lemma delete_candidate_result key q : key <> [] -> exists q' r, store_Write (Delete key) q = (q', r) /\
  (match It_Err (delete_item (delete_candidate key) q).2, It_Doc (delete_item (delete_candidate key) q).2 with None, Some doc => Some (D_PKey doc) | _, _ => None end) =
    (if is_ret r then Some (of_bytes key) else None).
Proof.
  intros _. unfold delete_item, delete_candidate. cbn [It_Doc D_Fields DF_Value]. destruct (store_Write (Delete key) q) as [q' r]. exists q', r. split; [done|].
  by destruct r as [[]|e|x].
Qed.

(** The keys that a deletion by query reports are, in the order of the results, those whose deletion was committed: every key that the query finds is submitted once, in
    whatever order the goroutines run, and reported exactly if its command succeeds. *)
Theorem delete_by_query_exact (results : list (list (list DocField))) (sched : nat -> list nat) (p p' : part) (ids : list string) :
  (forall n, sched n ≡ₚ seq 0 n) ->
  deleteByQuery (Some results) sched p = (p', inr ids) ->
  exists runs : list (list Z * part * part * go unit),
    (fun x => x.1.1.1) <$> runs = filter (fun key => key <> []) (result_key <$> concat results) /\
    Forall (fun x => store_Write (Delete x.1.1.1) x.1.1.2 = (x.1.2, x.2)) runs /\
    ids = (fun x => of_bytes x.1.1.1) <$> filter (fun x => is_ret x.2 = true) runs.
Proof.
  intros Hsched. unfold deleteByQuery. destruct results as [|r0 rs]; [done|]. remember (r0 :: rs) as results eqn:Hr. clear Hr r0 rs.
  remember (filter (fun key => key <> []) (result_key <$> concat results)) as keys eqn:Hkeys. rewrite length_fmap. destruct (length keys =? 0)%nat; [done|].
  assert (Forall (fun key => key <> []) keys) as Hne by (rewrite Hkeys; apply Forall_forall; intros key [? _]%list_elem_of_filter; done). clear Hkeys.
  destruct (deleteDocs (sched (length keys)) (delete_candidate <$> keys) p) as [p1 items] eqn:Hd. intros [= <- <-].
  assert (Forall2 (fun key it => exists q, it = (delete_item (delete_candidate key) q).2) keys items) as Hall.
  { assert (length items = length keys) as Hlen.
    { pose proof (deleteDocs_length (sched (length keys)) (delete_candidate <$> keys) p) as Hl. by rewrite Hd, length_fmap in Hl. }
    apply Forall2_same_length_lookup_2; [done|]. intros i key it Hk Hi.
    destruct (deleteDocs_each (sched (length keys)) (delete_candidate <$> keys) p i (delete_candidate key)) as [q Hq].
    - rewrite Hsched. apply NoDup_seq.
    - rewrite Hsched. apply elem_of_seq. apply lookup_lt_Some in Hk. lia.
    - by rewrite list_lookup_fmap, Hk.
    - exists q. rewrite Hd in Hq. cbn [snd] in Hq. congruence. }
  clear Hd. induction Hall as [|key it keys items [q ->] _ IH]; [by exists []|]. apply Forall_cons in Hne as [Hk Hne].
  destruct (IH Hne) as (runs & <- & Hruns & Hids). destruct (delete_candidate_result key q Hk) as (q' & r & Hw & Hres).
  exists ((key, q, q', r) :: runs). split; [done|]. split; [by constructor|]. cbn [omap list_omap]. rewrite Hres, filter_cons. cbn [snd].
  destruct (is_ret r); cbn [decide fmap list_fmap]; [rewrite decide_True by done|rewrite decide_False by done]; cbn [fmap list_fmap]; by rewrite Hids.
Qed.
End Server.

(** ** Concrete runs *)

(** An engine that keeps what it is given. *)
Definition log_add (e : list (list Z)) (doc : list Z) : list (list Z) * Z := (e ++ [doc], 0).
Definition log_delete (e : list (list Z)) (key : list Z) : list (list Z) * Z := (e, if bool_decide (key ∈ e) then 0 else -1).
Definition no_raft_error (_ : nat) : option (error * bool) := None.
Definition enough (_ : nat) : bool * option error := (false, None).
Definition demo_serialize (_ : list DocField) : list Z := [1].
Definition demo_part (n : Z) (log : list (list Z)) (calls : nat) : part (E := list (list Z)) :=
  {| pt_status := PA_READWRITE; pt_quota := {| AddNum := n; ResourceExhausted := false |}; pt_engine := Some log; pt_calls := calls |}.
(** A partition whose leader, node 1, is down; the replica 2 answers. *)
Definition demo_partition (pid : Z) : Partition :=
  {| P_Id := pid; P_Name := ""; P_SpaceId := 7; P_DBId := 1; P_Slot := 0; P_LeaderID := 1; P_Replicas := [1; 2]; P_UpdateTime := 0; P_AddNum := 0;
     P_ResourceExhausted := false; P_Path := ""; P_status := PA_READWRITE; P_ReStatusMap := ∅ |}.
Definition demo_docs (d : PartitionData) : list Document := omap (fun it => it ≫= It_Doc) (PD_Items d).
Definition demo_execute (d : PartitionData) : part (E := list (list Z)) * (list Item * option error) :=
  Execute log_add log_delete (fun _ _ => (0, [])) (fun _ _ _ => (0, [])) demo_serialize no_raft_error enough (fun _ => false) None true Acquired BatchHandler (fresh <$> demo_docs d) (demo_part 0 [] 0).
Definition demo_rpc (k : nat) (n : Z) (d : PartitionData) : go PartitionData :=
  if n =? 2 then Ret {| PD_PartitionID := PD_PartitionID d; PD_MessageID := "m"; PD_Items := Some <$> (demo_execute d).2.1; PD_Payload := NoPayload; PD_Err := (demo_execute d).2.2 |}
  else Fail (OtherErr "dial tcp 10.0.0.1:8081: connect: connection refused").
Definition demo_exchange (pid : Z) (k : string) : exchange (E := list (list Z)) :=
  {| x_message := demo_reply pid (demo_doc k); x_docs := [demo_doc k]; x_found := inr (demo_partition pid); x_faulty := ∅; x_rpc := demo_rpc;
     x_before := fun _ _ => demo_part 0 [] 0; x_after := fun _ _ => (demo_execute (demo_reply pid (demo_doc k))).1 |}.

Lemma log_codes : forall e doc, in_s 64 (log_add e doc).2.
Proof. intros e doc. unfold in_s. cbn. lia. Qed.

Lemma demo_exchanged pid k : exchanged log_add log_delete (fun _ _ => (0, [])) (fun _ _ _ => (0, [])) demo_serialize no_raft_error enough (fun _ => false)
  (demo_space 2 None demo_parts) (demo_exchange pid k).
Proof.
  split; [reflexivity|]. split.
  - intros j n nds reply [= <-]. cbn [x_rpc demo_exchange]. unfold demo_rpc. destruct (n =? 2); [|discriminate]. intros [= <-].
    exists None, true, Acquired, (demo_execute (demo_reply pid (demo_doc k))).2.1, (demo_execute (demo_reply pid (demo_doc k))).2.2.
    split; [discriminate|]. split; [|split; reflexivity]. cbn [x_before x_after demo_exchange].
    change (demo_execute (demo_reply pid (demo_doc k)) = ((demo_execute (demo_reply pid (demo_doc k))).1,
      ((demo_execute (demo_reply pid (demo_doc k))).2.1, (demo_execute (demo_reply pid (demo_doc k))).2.2))).
    by destruct (demo_execute _) as [? [? ?]].
  - intros j n d e. cbn [x_rpc demo_exchange]. unfold demo_rpc. destruct (n =? 2); [discriminate|]. by intros [= <-].
Qed.

Lemma upsert_acknowledged_witness :
  exists x, x ∈ [demo_exchange 5 "b"; demo_exchange 9 "a"] /\ stored_by log_add demo_serialize (demo_space 2 None demo_parts) x "a".
Proof.
  destruct (upsert_acknowledged log_add log_delete (fun _ _ => (0, [])) (fun _ _ _ => (0, [])) demo_serialize no_raft_error enough (fun _ => false)
    log_codes ltac:(discriminate) ltac:(discriminate) demo_hash "m" (fun _ => None) (fun _ => None) [] (demo_request (Some <$> [demo_doc "a"; demo_doc "b"]))
    {| r_md := {[MessageID := "m"]}; r_docs := Some <$> [demo_doc "a"; demo_doc "b"];
       r_space := demo_space 2 None demo_parts;
       r_sendMap := {[9 := demo_reply 9 (demo_doc "a"); 5 := demo_reply 5 (demo_doc "b")]}; r_Err := None |}
    [demo_doc "a"; demo_doc "b"] [demo_exchange 5 "b"; demo_exchange 9 "a"]) as (items & Hg & _ & Hall).
  - split_and!; [exact demo_hash_u32|unfold MaxUint32; simpl; lia..|]. intros _ _. exact demo_slots_ok.
  - reflexivity.
  - reflexivity.
  - vm_compute. reflexivity.
  - reflexivity.
  - vm_compute. solve [apply Permutation_refl|apply perm_swap].
  - constructor; [|constructor; [|constructor]]; apply demo_exchanged.
  - destruct (Hall 0%nat (demo_doc "a") eq_refl) as (it & Hi & _ & Hst). vm_compute in Hg. injection Hg as <-. injection Hi as <-.
    destruct (Hst eq_refl) as (x & d' & Hx & _ & _ & _ & Hs). exists x. split; [exact Hx|exact Hs].
Defined.

Lemma bulk_reply_exact_witness :
  exists p' codes, bulk log_add log_delete demo_serialize no_raft_error enough (fun _ => false) (fresh <$> [demo_doc "a"; demo_doc "b"]) (demo_part 0 [] 0) =
    (p', zip_with mark (cleared <$> [demo_doc "a"; demo_doc "b"]) codes, Ret tt) /\ length codes = 2%nat.
Proof.
  destruct (bulk_reply_exact log_add log_delete demo_serialize no_raft_error enough (fun _ => false) log_codes
    [demo_doc "a"; demo_doc "b"] (demo_part 0 [] 0) []) as (p' & codes & H & Hlen & _); try reflexivity; [discriminate|discriminate|].
  exists p', codes. split; [exact H|exact Hlen].
Defined.

Definition id_field (key : list Z) : DocField := {| DF_Name := "_id"; DF_Type := FT_STRING; DF_Value := key; DF_Option := FO_Null |}.
Lemma delete_by_query_exact_witness :
  exists p' ids, deleteByQuery log_add log_delete no_raft_error enough (Some [[[id_field [97]]; [id_field [98]]]]) (fun n => rev (seq 0 n)) (demo_part 0 [[97]] 0) = (p', inr ids) /\
    ids = ["a"%string] /\ exists runs : list (list Z * part (E := list (list Z)) * part (E := list (list Z)) * go unit), (fun x => x.1.1.1) <$> runs = [[97]; [98]] /\ ids = (fun x => of_bytes x.1.1.1) <$> filter (fun x => is_ret x.2 = true) runs.
Proof.
  assert (exists p', deleteByQuery log_add log_delete no_raft_error enough (Some [[[id_field [97]]; [id_field [98]]]]) (fun n => rev (seq 0 n)) (demo_part 0 [[97]] 0) =
    (p', inr ["a"%string])) as [p' H] by (eexists; vm_compute; reflexivity).
  destruct (delete_by_query_exact log_add log_delete no_raft_error enough
    [[[id_field [97]]; [id_field [98]]]] (fun n => rev (seq 0 n)) (demo_part 0 [[97]] 0) p' ["a"%string]) as (runs & Hk & Hruns & Hids).
  - intros n. symmetry. apply Permutation_rev.
  - exact H.
  - exists p', ["a"%string]. split; [exact H|]. split; [reflexivity|]. exists runs. split; [vm_compute in Hk; exact Hk|exact Hids].
Defined.
