(* ===== verification/Node.v ===== *)
(** * The partitions of a partition server (internal/ps/partition_service.go, internal/ps/handler_admin.go, internal/ps/server.go,
      internal/ps/psutil/meta.go, internal/ps/storage/storebase.go, internal/ps/storage/raftstore/store.go and server.go)

    A server keeps its partition stores in a map, registers each with the raft server and counts in a resolver how many of its partitions need the
    addresses of another node.  Creating, loading and deleting partitions, changing their members, and the handlers around
    these.  The raft library is a class with its documented behaviour; the outcomes of the file system, the engine and the
    queries to the master are arguments, one per call. *)

From S2P Require Import Prelude.
From S2P Require Import Text.
From S2P Require Import Errors.
From S2P Require Import Effects.
From S2P Require Import Keys.
From S2P Require Import Schema.
From S2P Require Import Partition.
From S2P Require Import Space.
From S2P Require Import RaftStore.
Open Scope Z_scope.

(** ** The resolver (raftstore/server.go) *)

Record Replica : Set := { Rep_NodeID : Z; HeartbeatAddr : string; ReplicateAddr : string; Rep_RpcAddr : string }.
Record nodeRef : Set := { refCount : Z; nr_heartbeat : string; nr_replicate : string; nr_rpc : string }.
(** [RaftResolver] is its map of nodes. *)
Notation resolver := (gmap Z nodeRef).

Definition ref_of (count : Z) (r : Replica) : nodeRef :=
  {| refCount := count; nr_heartbeat := HeartbeatAddr r; nr_replicate := ReplicateAddr r; nr_rpc := Rep_RpcAddr r |}.
Definition counted (d : Z) (x : nodeRef) : nodeRef :=
  {| refCount := i32 (refCount x + d); nr_heartbeat := nr_heartbeat x; nr_replicate := nr_replicate x; nr_rpc := nr_rpc x |}.

Definition AddNode (id : Z) (replica : Replica) (r : resolver) : resolver :=
  <[id := counted 1 (default (ref_of 0 replica) (r !! id))]> r.
Definition UpdateNode (id : Z) (replica : Replica) (r : resolver) : resolver :=
  <[id := ref_of (match r !! id with Some x => refCount x | None => 1 end) replica]> r.
Definition ToReplica (id : Z) (r : resolver) : Replica :=
  {| Rep_NodeID := id; HeartbeatAddr := ""; ReplicateAddr := ""; Rep_RpcAddr := match r !! id with Some x => nr_rpc x | None => "" end |}.
Definition DeleteNode (id : Z) (r : resolver) : resolver :=
  match r !! id with
  | None => r
  | Some x => let x' := counted (-1) x in if refCount x' <=? 0 then delete id r else <[id := x']> r
  end.

Inductive SocketType : Set := HeartBeat | Replicate | OtherSocket.
Definition NodeAddress (id : Z) (stype : SocketType) (r : resolver) : go string :=
  match r !! id with
  | None => Fail (verr PARAM_ERROR "cannot get node network information, nodeID=[%d]")
  | Some node =>
    match stype with
    | HeartBeat => Ret (nr_heartbeat node)
    | Replicate => Ret (nr_replicate node)
    | OtherSocket => Fail (verr PARAM_ERROR "unknown socket type[%v]")
    end
  end.

(** ** Raft *)

(** The raft server of the library: which store is the state machine of a group, its leader, and the creation and removal of groups. *)
Class RaftServer (R : Type) : Type := {
  machine : R -> Z -> option nat;
  leader_of : R -> Z -> Z;
  CreateRaft : Z -> nat -> R -> R * go unit;
  RemoveRaft : Z -> R -> R * go unit;
  create_ok : forall id m r r', CreateRaft id m r = (r', Ret tt) -> machine r id = None /\ machine r' id = Some m /\ (forall j, j <> id -> machine r' j = machine r j);
  create_fails : forall id m r r' x, CreateRaft id m r = (r', x) -> x <> Ret tt -> r' = r /\ exists e, x = Fail e;
  remove_ok : forall id r r', RemoveRaft id r = (r', Ret tt) -> machine r' id = None /\ (forall j, j <> id -> machine r' j = machine r j);
  remove_fails : forall id r r' x, RemoveRaft id r = (r', x) -> x <> Ret tt -> r' = r /\ exists e, x = Fail e
}.

(** ** Stores *)

Record pstore : Type := { ps_id : Z; ps_space : Space; ps_replicas : list Z; ps_status : PartitionStatus; ps_engine : bool; ps_exhausted : bool }.
Definition set_status (x : PartitionStatus) (s : pstore) : pstore :=
  {| ps_id := ps_id s; ps_space := ps_space s; ps_replicas := ps_replicas s; ps_status := x; ps_engine := ps_engine s; ps_exhausted := ps_exhausted s |}.
Definition set_open (b : bool) (s : pstore) : pstore :=
  {| ps_id := ps_id s; ps_space := ps_space s; ps_replicas := ps_replicas s; ps_status := ps_status s; ps_engine := b; ps_exhausted := ps_exhausted s |}.
Definition set_exhausted (b : bool) (s : pstore) : pstore :=
  {| ps_id := ps_id s; ps_space := ps_space s; ps_replicas := ps_replicas s; ps_status := ps_status s; ps_engine := ps_engine s; ps_exhausted := b |}.
Definition set_replicas (l : list Z) (s : pstore) : pstore :=
  {| ps_id := ps_id s; ps_space := ps_space s; ps_replicas := l; ps_status := ps_status s; ps_engine := ps_engine s; ps_exhausted := ps_exhausted s |}.

(** The server: its stores, the map of its partitions, raft, the resolver, the directories of partitions (kind and id), their [meta.txt], the
    stores whose directories a goroutine is about to remove, and the number of calls made. *)
Section Node.
Context {R : Type} `{HR : RaftServer R}.
Record node : Type := {
  n_stores : list pstore;
  n_partitions : gmap Z nat;
  n_raft : R;
  n_resolver : resolver;
  n_dirs : gset (string * Z);
  n_meta : gmap Z Space;
  n_doomed : list Z;
  n_calls : nat
}.
Definition put_node (stores : list pstore) (partitions : gmap Z nat) (raft : R) (res : resolver) (dirs : gset (string * Z)) (meta : gmap Z Space) (doomed : list Z) (n : node) : node :=
  {| n_stores := stores; n_partitions := partitions; n_raft := raft; n_resolver := res; n_dirs := dirs; n_meta := meta; n_doomed := doomed; n_calls := n_calls n |}.
Definition on_stores (f : list pstore -> list pstore) (n : node) : node :=
  put_node (f (n_stores n)) (n_partitions n) (n_raft n) (n_resolver n) (n_dirs n) (n_meta n) (n_doomed n) n.
Definition on_partitions (f : gmap Z nat -> gmap Z nat) (n : node) : node :=
  put_node (n_stores n) (f (n_partitions n)) (n_raft n) (n_resolver n) (n_dirs n) (n_meta n) (n_doomed n) n.
Definition on_raft (r : R) (n : node) : node :=
  put_node (n_stores n) (n_partitions n) r (n_resolver n) (n_dirs n) (n_meta n) (n_doomed n) n.
Definition on_resolver (f : resolver -> resolver) (n : node) : node :=
  put_node (n_stores n) (n_partitions n) (n_raft n) (f (n_resolver n)) (n_dirs n) (n_meta n) (n_doomed n) n.
Definition on_dirs (f : gset (string * Z) -> gset (string * Z)) (n : node) : node :=
  put_node (n_stores n) (n_partitions n) (n_raft n) (n_resolver n) (f (n_dirs n)) (n_meta n) (n_doomed n) n.
Definition on_meta (f : gmap Z Space -> gmap Z Space) (n : node) : node :=
  put_node (n_stores n) (n_partitions n) (n_raft n) (n_resolver n) (n_dirs n) (f (n_meta n)) (n_doomed n) n.
Definition on_doomed (f : list Z -> list Z) (n : node) : node :=
  put_node (n_stores n) (n_partitions n) (n_raft n) (n_resolver n) (n_dirs n) (n_meta n) (f (n_doomed n)) n.

Notation P := (SE node).

(** The outcome of the k-th call of the file system or the engine, what [CheckResource] finds, and what the master knows of a node. *)
Context (external : nat -> option error) (resource : nat -> bool * option error).
Context (QueryServer : nat -> Z -> go Replica) (QueryFailServer : nat -> Z -> option (Z * option Replica)).
Definition tick (n : node) : node :=
  {| n_stores := n_stores n; n_partitions := n_partitions n; n_raft := n_raft n; n_resolver := n_resolver n; n_dirs := n_dirs n; n_meta := n_meta n;
     n_doomed := n_doomed n; n_calls := S (n_calls n) |}.
Definition call : P unit := fun n => (tick n, match external (n_calls n) with None => Ret tt | Some e => Fail e end).

(** ** Directories (psutil/meta.go) *)

Definition mkdir (kind : string) (id : Z) : P unit := se_! call in sstep (on_dirs (fun d => {[ (kind, id) ]} ∪ d)).
Definition SavePartitionMeta (id : Z) (space : Space) : P unit := se_! call in sstep (on_meta (<[id := space]>)).
Definition CreatePartitionPaths (space : Space) (id : Z) : P unit :=
  se_! mkdir "data" id in se_! mkdir "raft" id in se_! mkdir "meta" id in SavePartitionMeta id space.
(** The partitions a server reports: the directories of [meta]. *)
Definition GetAllPartitions (n : node) : gset Z := set_map snd (filter (fun d : string * Z => d.1 = "meta"%string) (n_dirs n)).
(** [os.RemoveAll] of one directory; an error is only logged. *)
Definition remove_dir (kind : string) (id : Z) : P unit :=
  slogged (se_! call in se_! sstep (on_dirs (fun d => d ∖ {[ (kind, id) ]})) in if kind =?s "meta" then sstep (on_meta (delete id)) else sret (Ret tt)).
Definition ClearPartition (id : Z) : P unit := se_! remove_dir "data" id in se_! remove_dir "raft" id in remove_dir "meta" id.

(** ** Stores *)

Definition store_at (ref : nat) : P pstore := fun n => (n, match n_stores n !! ref with Some s => Ret s | None => Panic NilDeref end).
Definition upd (ref : nat) (f : pstore -> pstore) : P unit := sstep (on_stores (alter f ref)).

Definition new_store (pid : Z) (space : Space) (p : Partition) : pstore :=
  {| ps_id := pid; ps_space := space; ps_replicas := P_Replicas p; ps_status := P_status p; ps_engine := false; ps_exhausted := P_ResourceExhausted p |}.
(** [CreateStore] with [NewStoreBase]. *)
Definition CreateStore (pid : Z) (space : Space) : P nat :=
  se_! CreatePartitionPaths space pid in
  match GetPartition space pid with
  | None => sret (Fail (verr PARAM_ERROR "can not found partition by id:[%d]"))
  | Some p =>
    se! ref <- sread (fun n => length (n_stores n)) in
    se_! sstep (on_stores (fun l => l ++ [new_store pid space p])) in
    sret (Ret ref)
  end.

(** A step of [Start] after whose failure the engine is closed. *)
Definition or_close {A} (ref : nat) (wrap : error -> error) (m : P A) : P A := fun n =>
  match m n with
  | (n', Fail e) => let '(n2, _) := upd ref (set_open false) n' in (n2, Fail (wrap e))
  | x => x
  end.
Definition start_error (msg : string) (_ : error) : error := verr INTERNAL_ERROR msg.

Definition Start (ref : nat) : P unit :=
  se_! call in                                                         (* gammacb.Build *)
  se_! upd ref (set_open true) in
  se_! or_close ref id call in                                         (* ReadSN *)
  se_! upd ref (set_status PA_READONLY) in
  se_! or_close ref (start_error "start partition[%d] open raft store engine error: %s") call in
  se! s <- store_at ref in
  match GetPartition (ps_space s) (ps_id s) with
  | None => sret (Fail (verr PARAM_ERROR "can not found partition by id:[%d]"))
  | Some _ =>
    match ps_replicas s with
    | [] => sret (Panic IndexRange)
    | _ =>
      se_! or_close ref (start_error "start partition[%d] open raft log error: %s") call in
      or_close ref (start_error "start partition[%d] create raft error: %s") (fun n =>
        let '(r', x) := CreateRaft (ps_id s) ref (n_raft n) in (on_raft r' n, x))
    end
  end.

Definition Close (ref : nat) : P unit :=
  se! s <- store_at ref in
  se_! (fun n => let '(r', x) := RemoveRaft (ps_id s) (n_raft n) in (on_raft r' n, x)) in
  se_! upd ref (set_open false) in
  upd ref (set_status PA_CLOSED).

(** [Destroy]: once the engine is closed, a goroutine removes the directories ([remove_doomed]). *)
Definition Destroy (ref : nat) : P unit :=
  se_! Close ref in se! s <- store_at ref in sstep (on_doomed (fun l => l ++ [ps_id s])).
Definition remove_doomed (pid : Z) : P unit :=
  se_! sstep (on_doomed (filter (fun x => x <> pid))) in
  se_! (se_! call in sstep (on_dirs (fun d => d ∖ {[ ("data"%string, pid) ]}))) in
  se_! (se_! call in sstep (on_dirs (fun d => d ∖ {[ ("raft"%string, pid) ]}))) in
  se_! call in se_! sstep (on_dirs (fun d => d ∖ {[ ("meta"%string, pid) ]})) in sstep (on_meta (delete pid)).

(** ** The server (partition_service.go) *)

Definition find_store (pid : Z) (n : node) : option nat := n_partitions n !! pid.

(** The replica of a record of a failed server: its id and, if it has one, its server. *)
Definition fail_replica (ID : Z) (node : option Replica) : Replica :=
  match node with
  | Some r => {| Rep_NodeID := ID; HeartbeatAddr := HeartbeatAddr r; ReplicateAddr := ReplicateAddr r; Rep_RpcAddr := Rep_RpcAddr r |}
  | None => {| Rep_NodeID := ID; HeartbeatAddr := ""; ReplicateAddr := ""; Rep_RpcAddr := "" |}
  end.
(** The addresses of a replica for a partition that is created: of its server, or of the record of its failure. *)
Definition resolve_new (nodeId : Z) : P unit := fun n =>
  match QueryServer (n_calls n) nodeId with
  | Ret server => (on_resolver (AddNode nodeId server) (tick n), Ret tt)
  | Fail e =>
    match QueryFailServer (n_calls n) nodeId with
    | None => (tick n, Fail e)
    | Some (ID, node) => (on_resolver (AddNode nodeId (fail_replica ID node)) (tick n), Ret tt)
    end
  | Panic x => (tick n, Panic x)
  end.
(** For a partition that is loaded: an unknown server is added without addresses. *)
Definition resolve_loaded (nodeId : Z) : P unit := fun n =>
  match QueryServer (n_calls n) nodeId with
  | Ret server => (on_resolver (AddNode nodeId server) (tick n), Ret tt)
  | Fail _ => (on_resolver (AddNode nodeId {| Rep_NodeID := nodeId; HeartbeatAddr := ""; ReplicateAddr := ""; Rep_RpcAddr := "" |}) (tick n), Ret tt)
  | Panic x => (tick n, Panic x)
  end.
Definition check_resource : P bool := fun n =>
  let '(b, err) := resource (n_calls n) in (tick n, match err with Some e => Fail e | None => Ret b end).

(** The part of [CreatePartition] behind the check of the resources. *)
Definition register_store (pid : Z) (ref : nat) : P unit :=
  se! existing <- sread (find_store pid) in
  se_! match existing with
       | Some _ => slogged (Close ref)
       | None =>
         se_! sstep (on_partitions (<[pid := ref]>)) in
         se! s <- store_at ref in
         se_! sfor resolve_new (ps_replicas s) in
         Start ref
       end in
  sstep (on_partitions (<[pid := ref]>)).
(** [CreatePartition], under the lock of the server. *)
Definition CreatePartition (space : Space) (pid : Z) : P unit :=
  se! ref <- CreateStore pid space in
  se! resourceExhausted <- check_resource in
  if resourceExhausted : bool then sret (Fail (NewError PARTITION_RESOURCE_EXHAUSTED None)) else register_store pid ref.

(** The space of a partition: the loop stops early only after a match behind the first space. *)
Fixpoint space_index (k : nat) (found : option nat) (pid : Z) (spaces : list Space) : option nat :=
  match spaces with
  | [] => found
  | s :: spaces' =>
    let found' := if existsb (fun p => P_Id p =? pid) (S_Partitions s) then Some k else found in
    match found' with Some (S _) => found' | _ => space_index (S k) found' pid spaces' end
  end.

(** The store of a partition that is loaded. *)
Definition start_loaded (ref : nat) : P unit :=
  se! s <- store_at ref in
  se_! sfor resolve_loaded (ps_replicas s) in
  se_! Start ref in
  se! resourceExhausted <- check_resource in
  upd ref (set_exhausted resourceExhausted).
Definition LoadPartition (pid : Z) (spaces : list Space) : P nat :=
  match space_index 0 None pid spaces ≫= (fun i => spaces !! i) with
  | None => sret (Fail (verr PARTITION_NOT_EXIST "cannot found partition_id [%d]"))
  | Some space =>
    se! ref <- CreateStore pid space in
    se_! start_loaded ref in
    se_! sstep (on_partitions (<[pid := ref]>)) in
    sret (Ret ref)
  end.
(** [recoverPartitions]: the goroutines in the order of [sched]; errors are logged. *)
Definition recoverPartitions (sched : list Z) (spaces : list Space) : P unit := sfor (fun pid => slogged (LoadPartition pid spaces)) sched.

Definition DeleteReplica (nodeID id : Z) : P unit :=
  se! p <- sread (find_store id) in
  match p with
  | None => sret (Ret tt)
  | Some ref =>
    se_! sstep (on_partitions (delete id)) in
    se_! sstep (on_resolver (DeleteNode nodeID)) in
    slogged (Destroy ref)
  end.

Definition DeletePartition (id : Z) : P unit :=
  se! p <- sread (find_store id) in
  se_! match p with
       | None => sret (Ret tt)
       | Some ref =>
         se! s <- store_at ref in
         se_! sstep (on_resolver (fun r => foldl (fun r x => DeleteNode x r) r (ps_replicas s))) in
         se_! slogged (Destroy ref) in
         se! s' <- store_at ref in
         if bool_decide (ps_status s' = PA_INVALID) then sstep (on_partitions (delete id)) else sret (Ret tt)
       end in
  sstep (on_partitions (delete id)).

Definition ClosePartitions (order : list Z) : P unit :=
  sfor (fun pid => se! p <- sread (find_store pid) in match p with Some ref => slogged (Close ref) | None => sret (Ret tt) end) order.

(** ** Members (raftstore/raft_state_machine.go, server.go) *)

(** [HandleRaftReplicaEvent]: a node that is not known is looked up. *)
Definition HandleRaftReplicaEvent (del : bool) (replica : Replica) : P unit := fun n =>
  let id := Rep_NodeID replica in
  if del then (on_resolver (DeleteNode id) n, Ret tt)
  else match n_resolver n !! id with
       | Some _ => (on_resolver (AddNode id replica) n, Ret tt)
       | None => resolve_loaded id n
       end.

(** [ApplyMemberChange] of the store [ref], for a change whose context decodes. *)
Definition store_ApplyMemberChange (ref : nat) (t : ConfChange) (replica : Replica) : P unit :=
  se_! match t with
       | ConfAddNode => HandleRaftReplicaEvent false replica
       | ConfRemoveNode => HandleRaftReplicaEvent true replica
       | ConfOther => sret (Ret tt)
       end in
  se! s <- store_at ref in
  se! l <- sret (ApplyMemberChange t (Rep_NodeID replica) (Rep_NodeID replica) (ps_replicas s)) in
  upd ref (set_replicas l).

(** ** Handlers (handler_admin.go) *)

(** Raft's answer to a command or a change of members. *)
Context (raft_answer : nat -> option error) (ErrNotLeader : error) (replica_json : Replica -> string).
Definition submit : P unit := fun n => (tick n, match raft_answer (n_calls n) with None => Ret tt | Some e => Fail e end).

Definition not_found : error := verr PARTITION_NOT_EXIST "partition not found, partitionId:[%d], nodeID:[%d], node ip:[%s]".

Definition CreatePartitionHandler (body : option Space) (pid : Z) : P unit :=
  match body with
  | None => sret (Fail (verr RPC_PARAM_ERROR "json"))
  | Some space =>
    se! p <- sread (find_store pid) in
    match p with
    | Some _ => sret (Fail (NewError PARTITION_EXIST None))
    | None => fun n =>
      match CreatePartition space pid n with
      | (n', Fail e) => let '(n2, _) := DeletePartition pid n' in (n2, Fail e)
      | x => x
      end
    end
  end.

(** A command for the store of a partition: [UpdatePartitionHandler] and [IndexChangePartitionHandler]. *)
Definition CommandHandler {A} (body : option A) (pid : Z) : P unit :=
  match body with
  | None => sret (Fail (verr RPC_PARAM_ERROR "json"))
  | Some _ =>
    se! p <- sread (find_store pid) in
    match p with
    | None => sret (Fail not_found)
    | Some ref => se! s <- store_at ref in se_! sret (checkWritable (ps_status s)) in submit
    end
  end.

Definition ResourceLimitHandler (body : option (option bool)) (pid : Z) : P unit :=
  se! p <- sread (find_store pid) in
  match p with
  | None => sret (Ret tt)
  | Some ref =>
    match body with
    | None => sret (Fail (OtherErr "json"))
    | Some (Some b) => upd ref (set_exhausted b)
    | Some None => se! b <- check_resource in upd ref (set_exhausted b)
    end
  end.

(** [ChangeMemberHandler] on the server [self], once the request is decoded. *)
Definition change_member (self : Z) (t : ConfChange) (nodeID pid : Z) : P unit :=
  se! p <- sread (find_store pid) in
  match p with
  | None => sret (Fail not_found)
  | Some ref => fun n =>
    if negb (leader_of (n_raft n) pid =? self) then (n, Fail (NewError PARTITION_NOT_LEADER None))
    else
      let found := match QueryServer (n_calls n) nodeID, t with
                   | Fail e, ConfRemoveNode => match QueryFailServer (n_calls n) nodeID with Some (_, Some r) => Ret r | _ => Fail e end
                   | x, _ => x
                   end in
      match found with
      | Fail e => (tick n, Fail e)
      | Panic x => (tick n, Panic x)
      | Ret server =>
        (se_! match t with ConfAddNode => sstep (on_resolver (AddNode nodeID server)) | _ => sret (Ret tt) end in
         se_! submit in
         se_! store_ApplyMemberChange ref t server in
         match t with ConfRemoveNode => sstep (on_resolver (DeleteNode nodeID)) | _ => sret (Ret tt) end) (tick n)
      end
  end.

Definition ChangeMemberHandler (self : Z) (body : option (ConfChange * Z)) (pid : Z) : P unit :=
  match body with
  | None => sret (Fail (OtherErr "json"))
  | Some (t, nodeID) => change_member self t nodeID pid
  end.

(** [psErrorChange]: a request that needs the leader is answered with its address. *)
Definition handlePartitionNotLeaderError (pid : Z) : P error := fun n =>
  match find_store pid n with
  | None => (n, Fail not_found)
  | Some _ =>
    let leaderID := leader_of (n_raft n) pid in
    (n, Ret (if leaderID =? 0 then VearchErr PARTITION_NO_LEADER ""
             else VearchErr PARTITION_NOT_LEADER (replica_json (ToReplica leaderID (n_resolver n)))))
  end.
Definition is_not_leader (e : error) : bool := bool_decide (code_of (NewError INTERNAL_ERROR (Some e)) = Some PARTITION_NOT_LEADER) || bool_decide (e = ErrNotLeader).

(** [Chain.Execute]: the error of the reply. *)
Definition admin (stopping needPsErrorChange : bool) (pid : Z) (h : P unit) : P error := fun n =>
  if stopping then (n, Fail (NewError SERVICE_UNAVAILABLE None))
  else match h n with
       | (n', Ret _) => (n', Ret (VearchErr SUCCESS ""))
       | (n', Fail e) => if needPsErrorChange && is_not_leader e then handlePartitionNotLeaderError pid n' else (n', Fail e)
       | (n', Panic x) => (n', Panic x)
       end.

(** ** What an operation on one partition leaves alone *)

(** [n'] differs from [n] only at the partition [pid]: the other partitions, their raft groups and the engines of their stores are the same. *)
Record framed (pid : Z) (n n' : node) : Prop := {
  framed_store : forall ref s, n_stores n !! ref = Some s ->
    exists s', n_stores n' !! ref = Some s' /\ ps_id s' = ps_id s /\ (ps_id s <> pid -> ps_engine s' = ps_engine s);
  framed_other : forall j, j <> pid -> n_partitions n' !! j = n_partitions n !! j /\ machine (n_raft n') j = machine (n_raft n) j
}.
#[local] Instance framed_preorder (pid : Z) : PreOrder (framed pid).
Proof.
  split.
  - intros n. split; [intros ref s Hs; eauto | auto].
  - intros a b c [Sab Oab] [Sbc Obc]. split.
    + intros ref s Hs. destruct (Sab ref s Hs) as (s1 & H1 & I1 & E1). destruct (Sbc ref s1 H1) as (s2 & H2 & I2 & E2).
      exists s2. split; [done|]. split; [congruence|]. intros Hne. rewrite E2, E1 by congruence. done.
    + intros j Hj. destruct (Oab j Hj), (Obc j Hj). split; congruence.
Qed.

(** The store [ref] is one of the partition [pid]. *)
Definition owner (ref : nat) (pid : Z) (n : node) : Prop := exists s, n_stores n !! ref = Some s /\ ps_id s = pid.
Lemma framed_owner (pid pid' : Z) (ref : nat) (n n' : node) : framed pid n n' -> owner ref pid' n -> owner ref pid' n'.
Proof. intros [S _] (s & Hs & Hi). destruct (S ref s Hs) as (s' & H' & I & _). exists s'. split; [done | congruence]. Qed.

Definition keeps {A} (pre : node -> Prop) (pid : Z) (m : P A) : Prop := forall n, pre n -> framed pid n (m n).1.
(** Operations that do not touch the map of partitions. *)
Definition still {A} (m : P A) : Prop := forall n, n_partitions (m n).1 = n_partitions n.

Lemma still_bind {A B} (m : P A) (k : A -> P B) : still m -> (forall a, still (k a)) -> still (sbind m k).
Proof. intros Hm Hk n. unfold sbind. specialize (Hm n). destruct (m n) as [n' [a|e|x]]; cbn in *; [rewrite Hk|..]; done. Qed.
Lemma still_sret {A} (r : go A) : still (sret r).
Proof. done. Qed.
Lemma still_sread {A} (f : node -> A) : still (sread f).
Proof. done. Qed.
Lemma still_logged {A} (m : P A) : still m -> still (slogged m).
Proof. intros Hm n. unfold slogged. specialize (Hm n). destruct (m n) as [n' []]; done. Qed.
Lemma still_for {A} (f : A -> P unit) (xs : list A) : (forall x, still (f x)) -> still (sfor f xs).
Proof. intros Hf. induction xs as [|x xs IH]; cbn [sfor]; [apply still_sret | apply still_bind; [apply Hf | done]]. Qed.
Lemma still_or_close {A} (ref : nat) (w : error -> error) (m : P A) : still m -> still (or_close ref w m).
Proof. intros Hm n. unfold or_close. specialize (Hm n). destruct (m n) as [n' []]; done. Qed.

Section Keeps.
Variables (pre : node -> Prop) (pid : Z).
Hypothesis Hpre : forall n n', framed pid n n' -> pre n -> pre n'.

Lemma keeps_then {A B} (m : P A) (k : A -> P B) : keeps pre pid m -> (forall a, keeps pre pid (k a)) -> keeps pre pid (sbind m k).
Proof using Hpre.
  intros Hm Hk n Hn. unfold sbind. specialize (Hm n Hn). destruct (m n) as [n' [a|e|x]]; cbn in *; [|done..].
  transitivity n'; [done | apply Hk, (Hpre n); done].
Qed.
Lemma keeps_for {A} (f : A -> P unit) (xs : list A) : (forall x, keeps pre pid (f x)) -> keeps pre pid (sfor f xs).
Proof using Hpre. intros Hf. induction xs as [|x xs IH]; cbn [sfor]; [intros n _; reflexivity | apply keeps_then; auto]. Qed.
End Keeps.
Lemma keeps_logged {A} (pre : node -> Prop) (pid : Z) (m : P A) : keeps pre pid m -> keeps pre pid (slogged m).
Proof. intros Hm n Hn. unfold slogged. specialize (Hm n Hn). destruct (m n) as [n' []]; done. Qed.
Lemma keeps_sret {A} (pre : node -> Prop) (pid : Z) (r : go A) : keeps pre pid (sret r).
Proof. intros n _. reflexivity. Qed.
Lemma keeps_sread {A} (pre : node -> Prop) (pid : Z) (f : node -> A) : keeps pre pid (sread f).
Proof. intros n _. reflexivity. Qed.
(** A step that changes neither stores, map nor raft. *)
Lemma keeps_same {A} (pre : node -> Prop) (pid : Z) (m : P A) :
  (forall n, n_stores (m n).1 = n_stores n /\ n_partitions (m n).1 = n_partitions n /\ n_raft (m n).1 = n_raft n) -> keeps pre pid m.
Proof. intros H n _. destruct (H n) as (Hs & Hp & Hr). split; [rewrite Hs; eauto | rewrite Hp, Hr; auto]. Qed.

Lemma still_call : still call.
Proof. done. Qed.
Lemma still_step (f : node -> node) : (forall n, n_partitions (f n) = n_partitions n) -> still (sstep f).
Proof. intros H n. apply H. Qed.
Lemma still_resolve (b : Z) : still (resolve_new b) /\ still (resolve_loaded b).
Proof. split; intros n; unfold resolve_new, resolve_loaded; repeat case_match; done. Qed.
Lemma still_resource : still check_resource.
Proof. intros n. unfold check_resource. destruct (resource (n_calls n)); done. Qed.

Ltac still :=
  repeat first
    [ apply still_bind; [|intros ?] | apply still_sret | apply still_sread | apply still_call | apply still_logged | apply still_or_close
    | apply still_resource | apply still_for; intros ? | apply still_resolve | (apply still_step; intros ?; reflexivity) | (intros ?; reflexivity) | case_match ].
Lemma still_paths (space : Space) (pid : Z) : still (CreatePartitionPaths space pid).
Proof. unfold CreatePartitionPaths, mkdir, SavePartitionMeta. still. Qed.
Lemma still_CreateStore (pid : Z) (space : Space) : still (CreateStore pid space).
Proof. unfold CreateStore. apply still_bind; [apply still_paths|intros _]. still. Qed.
Lemma still_Start (ref : nat) : still (Start ref).
Proof. unfold Start, upd, store_at. still. intros n. destruct (CreateRaft _ _ _); done. Qed.
Lemma still_Close (ref : nat) : still (Close ref).
Proof. unfold Close, upd, store_at. still. intros n. destruct (RemoveRaft _ _); done. Qed.
Lemma still_Destroy (ref : nat) : still (Destroy ref).
Proof. unfold Destroy, store_at. apply still_bind; [apply still_Close|intros _]. still. Qed.

(** ** Every operation on a partition leaves the others alone *)

Definition anywhere (n : node) : Prop := True.
Lemma anywhere_stable (pid : Z) (n n' : node) : framed pid n n' -> anywhere n -> anywhere n'.
Proof. done. Qed.

Lemma keeps_upd (ref : nat) (pid : Z) (f : pstore -> pstore) : (forall s, ps_id (f s) = ps_id s) -> keeps (owner ref pid) pid (upd ref f).
Proof.
  intros Hf n (s0 & Hs0 & Hid). split; [|auto]. cbn. intros ref' s Hs.
  destruct (decide (ref = ref')) as [<-|Hne].
  - rewrite list_lookup_alter, decide_True, Hs by done. cbn. exists (f s). split; [reflexivity|]. split; [apply Hf|]. intros Hc. congruence.
  - rewrite list_lookup_alter, decide_False by done. eauto.
Qed.
Lemma keeps_or_close {A} (ref : nat) (pid : Z) (w : error -> error) (m : P A) : keeps (owner ref pid) pid m -> keeps (owner ref pid) pid (or_close ref w m).
Proof.
  intros Hm n Hn. unfold or_close. specialize (Hm n Hn). destruct (m n) as [n' [a|e|x]]; [done| |done]. cbn in *.
  transitivity n'; [done|]. apply (keeps_upd ref pid (set_open false)); [done | apply (framed_owner pid pid ref n); done].
Qed.
Lemma keeps_store_at (pre : node -> Prop) (ref : nat) (pid : Z) : keeps pre pid (store_at ref).
Proof. intros n _. reflexivity. Qed.

Ltac keeps :=
  repeat first
    [ apply keeps_then; [(apply framed_owner || apply anywhere_stable)| |intros ?] | apply keeps_sret | apply keeps_sread | apply keeps_store_at | apply keeps_logged | apply keeps_or_close
    | (apply keeps_for; [(apply framed_owner || apply anywhere_stable)|intros ?]) | (apply keeps_upd; intros ?; reflexivity) | (apply keeps_same; intros ?; done) | case_match ].

Lemma keeps_resolve (pre : node -> Prop) (pid b : Z) : keeps pre pid (resolve_new b) /\ keeps pre pid (resolve_loaded b).
Proof. split; apply keeps_same; intros n; unfold resolve_new, resolve_loaded; repeat case_match; done. Qed.
Lemma keeps_resource (pre : node -> Prop) (pid : Z) : keeps pre pid check_resource.
Proof. apply keeps_same. intros n. unfold check_resource. destruct (resource (n_calls n)); done. Qed.
Lemma keeps_paths (space : Space) (pid : Z) : keeps anywhere pid (CreatePartitionPaths space pid).
Proof. unfold CreatePartitionPaths, mkdir, SavePartitionMeta. keeps. Qed.
Lemma keeps_raft (f : R -> R * go unit) (ref : nat) (pid : Z) : (forall r j, j <> pid -> machine (f r).1 j = machine r j) ->
  keeps (owner ref pid) pid (fun n => let '(r', x) := f (n_raft n) in (on_raft r' n, x)).
Proof.
  intros Hf n _. specialize (Hf (n_raft n)). destruct (f (n_raft n)) as [r' x]. split; cbn in *; [eauto|]. intros j Hj. split; [done | apply Hf, Hj].
Qed.
Lemma CreateRaft_other (pid : Z) (m : nat) (r : R) (j : Z) : j <> pid -> machine (CreateRaft pid m r).1 j = machine r j.
Proof.
  intros Hj. destruct (CreateRaft pid m r) as [r' x] eqn:E. cbn. destruct x as [[]|e|y].
  - destruct (create_ok pid m r r' E) as (_ & _ & Ho). auto.
  - destruct (create_fails pid m r r' _ E) as [-> _]; done.
  - destruct (create_fails pid m r r' _ E) as [-> _]; done.
Qed.
Lemma RemoveRaft_other (pid : Z) (r : R) (j : Z) : j <> pid -> machine (RemoveRaft pid r).1 j = machine r j.
Proof.
  intros Hj. destruct (RemoveRaft pid r) as [r' x] eqn:E. cbn. destruct x as [[]|e|y].
  - destruct (remove_ok pid r r' E) as (_ & Ho). auto.
  - destruct (remove_fails pid r r' _ E) as [-> _]; done.
  - destruct (remove_fails pid r r' _ E) as [-> _]; done.
Qed.

Lemma keeps_with_store {A} (ref : nat) (pid : Z) (k : pstore -> P A) :
  (forall s, ps_id s = pid -> keeps (owner ref pid) pid (k s)) -> keeps (owner ref pid) pid (sbind (store_at ref) k).
Proof. intros Hk n (s & Hs & Hi). unfold sbind, store_at. rewrite Hs. apply (Hk s Hi). exists s. done. Qed.

Lemma keeps_Start (ref : nat) (pid : Z) : keeps (owner ref pid) pid (Start ref).
Proof.
  unfold Start.
  do 5 (apply keeps_then; [apply framed_owner | keeps | intros _]).
  apply keeps_with_store. intros s Hid. keeps. rewrite Hid. apply keeps_raft. intros r j. apply CreateRaft_other.
Qed.
Lemma keeps_Close (ref : nat) (pid : Z) : keeps (owner ref pid) pid (Close ref).
Proof.
  unfold Close. apply keeps_with_store. intros s Hid. rewrite Hid.
  apply keeps_then; [apply framed_owner | apply keeps_raft; intros r j; apply RemoveRaft_other | intros _]. keeps.
Qed.
Lemma keeps_Destroy (ref : nat) (pid : Z) : keeps (owner ref pid) pid (Destroy ref).
Proof. unfold Destroy. apply keeps_then; [apply framed_owner | apply keeps_Close | intros _]. keeps. Qed.
Lemma keeps_partitions (pre : node -> Prop) (pid : Z) (f : gmap Z nat -> gmap Z nat) :
  (forall m j, j <> pid -> f m !! j = m !! j) -> keeps pre pid (sstep (on_partitions f)).
Proof. intros Hf n _. split; cbn; [eauto | auto]. Qed.

(** [CreateStore]: the new store is the last one. *)
Lemma keeps_CreateStore (pid : Z) (space : Space) : keeps anywhere pid (CreateStore pid space).
Proof.
  unfold CreateStore. apply keeps_then; [apply anywhere_stable | apply keeps_paths | intros _]. keeps.
  intros n _. split; [|auto]. cbn. intros ref s Hs. exists s. split; [|auto]. apply lookup_app_l_Some, Hs.
Qed.
Lemma paths_stores (pid : Z) (space : Space) (n : node) :
  n_stores (CreatePartitionPaths space pid n).1 = n_stores n /\ n_raft (CreatePartitionPaths space pid n).1 = n_raft n /\ n_resolver (CreatePartitionPaths space pid n).1 = n_resolver n.
Proof.
  unfold CreatePartitionPaths, mkdir, SavePartitionMeta, sbind, call, sstep. cbn.
  repeat (destruct (external _); [done|]; cbn). done.
Qed.
Lemma CreateStore_new (pid : Z) (space : Space) (n n' : node) (ref : nat) : CreateStore pid space n = (n', Ret ref) ->
  exists p, GetPartition space pid = Some p /\ ref = length (n_stores n) /\
    n_stores n' = n_stores n ++ [new_store pid space p] /\
    n_raft n' = n_raft n /\ n_resolver n' = n_resolver n.
Proof.
  unfold CreateStore. intros H. destruct (paths_stores pid space n) as (Hs & Hr & Hv). unfold sbind in H at 1.
  destruct (CreatePartitionPaths space pid n) as [n1 [[]|e|x]]; cbn in Hs, Hr, Hv; [|done..].
  destruct (GetPartition space pid) as [p|]; [|done]. unfold sbind, sread, sstep, sret in H. simplify_eq. exists p.
  cbn. rewrite Hs, Hr, Hv. done.
Qed.

(** ** Successful runs *)

Lemma or_close_ret {A} (ref : nat) (w : error -> error) (m : P A) (n n' : node) (a : A) : or_close ref w m n = (n', Ret a) -> m n = (n', Ret a).
Proof. unfold or_close. destruct (m n) as [n1 [x|e|x]]; [done| |done]. by destruct (upd _ _ _). Qed.
Lemma call_ret (n n' : node) (u : unit) : call n = (n', Ret u) -> n' = tick n.
Proof. unfold call. intros H. by simplify_eq. Qed.
Lemma store_at_ret (ref : nat) (n n' : node) (s : pstore) : store_at ref n = (n', Ret s) -> n' = n /\ n_stores n !! ref = Some s.
Proof. unfold store_at. intros H. destruct (n_stores n !! ref); by simplify_eq. Qed.
Ltac runs H :=
  lazymatch type of H with
  | sbind _ _ _ = _ => let n1 := fresh "n" in let a := fresh "a" in let H1 := fresh "Hrun" in apply sbind_ret in H as (n1 & a & H1 & H); runs H1
  | or_close _ _ _ _ = _ => apply or_close_ret in H; runs H
  | call _ = _ => apply call_ret in H; subst
  | store_at _ _ = _ => apply store_at_ret in H as [-> H]
  | upd _ _ _ = _ => unfold upd, sstep in H; simplify_eq
  | sstep _ _ = _ => unfold sstep in H; simplify_eq
  | sread _ _ = _ => unfold sread in H; simplify_eq
  | _ => idtac
  end.

Lemma Start_runs (ref : nat) (n n' : node) (s : pstore) : Start ref n = (n', Ret tt) -> n_stores n !! ref = Some s ->
  machine (n_raft n) (ps_id s) = None /\ machine (n_raft n') (ps_id s) = Some ref /\
  n_stores n' = alter (fun s => set_status PA_READONLY (set_open true s)) ref (n_stores n) /\ n_resolver n' = n_resolver n.
Proof.
  unfold Start. intros H Hs. do 6 runs H. cbn in Hrun. rewrite !list_lookup_alter, !decide_True, Hs in Hrun by done. cbn in Hrun. simplify_eq.
  cbn in H. case_match; [|done]. case_match; [done|]. runs H. apply or_close_ret in H.
  destruct (CreateRaft _ _ _) as [r' x] eqn:Hc. simplify_eq. apply create_ok in Hc as (Hn & Hm & _). cbn in *.
  split; [done|]. split; [done|]. split; [|done]. rewrite list_alter_alter_eq. done.
Qed.

(** ** Served partitions *)

(** A partition of the map is served: its store is open and is the state machine of the partition's raft group. *)
Definition served (n : node) (pid : Z) (ref : nat) : Prop :=
  exists s, n_stores n !! ref = Some s /\ ps_id s = pid /\ ps_engine s = true /\ machine (n_raft n) pid = Some ref.
Definition serving (n : node) : Prop := forall pid ref, find_store pid n = Some ref -> served n pid ref.

(** After an operation on [pid] only [pid] has to be looked at. *)
Lemma framed_serving (pid : Z) (n n' : node) : serving n -> framed pid n n' -> (forall ref, find_store pid n' = Some ref -> served n' pid ref) -> serving n'.
Proof.
  intros Hn [Hst Hoth] Hp j ref Hj. destruct (decide (j = pid)) as [->|Hne]; [auto|].
  destruct (Hoth j Hne) as [Hpj Hmj]. unfold find_store in Hj. rewrite Hpj in Hj.
  destruct (Hn j ref Hj) as (s & Hs & Hid & He & Hm). destruct (Hst ref s Hs) as (s' & Hs' & Hid' & He').
  exists s'. split; [done|]. split; [congruence|]. split; [rewrite He'; congruence | congruence].
Qed.
Lemma serving_owner (n : node) (pid : Z) (ref : nat) : serving n -> find_store pid n = Some ref -> owner ref pid n.
Proof. intros Hn Hf. destruct (Hn pid ref Hf) as (s & Hs & Hi & _). exists s. done. Qed.

Lemma insert_other (pid : Z) (ref : nat) (m : gmap Z nat) (j : Z) : j <> pid -> <[pid := ref]> m !! j = m !! j.
Proof. intros Hj. apply lookup_insert_ne. congruence. Qed.
Lemma delete_other (pid : Z) (m : gmap Z nat) (j : Z) : j <> pid -> delete pid m !! j = m !! j.
Proof. intros Hj. apply lookup_delete_ne. congruence. Qed.

Lemma keeps_register (pid : Z) (ref : nat) : keeps (owner ref pid) pid (register_store pid ref).
Proof.
  unfold register_store. apply keeps_then; [apply framed_owner | apply keeps_sread | intros existing].
  apply keeps_then; [apply framed_owner | | intros _; apply keeps_partitions, insert_other].
  destruct existing as [ref'|]; [apply keeps_logged, keeps_Close|].
  apply keeps_then; [apply framed_owner | apply keeps_partitions, insert_other | intros _].
  apply keeps_then; [apply framed_owner | apply keeps_store_at | intros s].
  apply keeps_then; [apply framed_owner | apply keeps_for; [apply framed_owner | intros r; apply keeps_resolve] | intros _; apply keeps_Start].
Qed.
Lemma CreateStore_owner (pid : Z) (space : Space) (n n' : node) (ref : nat) : CreateStore pid space n = (n', Ret ref) -> owner ref pid n'.
Proof.
  intros H. apply CreateStore_new in H as (p & _ & -> & Hs & _). eexists. rewrite Hs, lookup_app_r, Nat.sub_diag by lia. done.
Qed.
Lemma framed_CreatePartition (pid : Z) (space : Space) (n : node) : framed pid n (CreatePartition space pid n).1.
Proof.
  unfold CreatePartition. unfold sbind at 1. pose proof (keeps_CreateStore pid space n I) as Hc.
  destruct (CreateStore pid space n) as [n1 [ref|e|x]] eqn:Hcs; [|done..]. cbn in Hc. apply CreateStore_owner in Hcs.
  transitivity n1; [done|]. apply (keeps_then (owner ref pid)); [apply framed_owner | apply keeps_resource | | done].
  intros b. destruct b; [apply keeps_sret | apply keeps_register].
Qed.

(** The stores and the map during the resolution of the replicas. *)
Lemma sfor_same {A} (f : A -> P unit) (l : list A) (n n' : node) (x : go unit) :
  (forall a m, n_stores (f a m).1 = n_stores m /\ n_raft (f a m).1 = n_raft m) -> sfor f l n = (n', x) -> n_stores n' = n_stores n /\ n_raft n' = n_raft n.
Proof.
  intros Hf. revert n. induction l as [|a l IH]; intros n; cbn; unfold sret; [intros; by simplify_eq|].
  unfold sbind. destruct (Hf a n) as [Hs Hr]. destruct (f a n) as [n1 [[]|e|y]]; cbn in Hs, Hr; intros H; [|by simplify_eq..].
  destruct (IH _ H) as [-> ->]. done.
Qed.
Lemma resolve_quiet (b : Z) (m : node) : (n_stores (resolve_new b m).1 = n_stores m /\ n_raft (resolve_new b m).1 = n_raft m) /\
  (n_stores (resolve_loaded b m).1 = n_stores m /\ n_raft (resolve_loaded b m).1 = n_raft m).
Proof. unfold resolve_new, resolve_loaded. repeat case_match; done. Qed.
Lemma resolve_adds (l : list Z) (n n' : node) : sfor resolve_new l n = (n', Ret tt) ->
  forall b, b ∈ l \/ is_Some (n_resolver n !! b) -> is_Some (n_resolver n' !! b).
Proof.
  revert n. induction l as [|c l IH]; intros n; cbn; unfold sret; [intros H b Hb; simplify_eq; destruct Hb as [Hb|]; [by apply not_elem_of_nil in Hb | done]|].
  intros H b Hb. apply sbind_ret in H as (n1 & [] & H1 & H2). apply (IH n1 H2).
  assert (exists r, n_resolver n1 = AddNode c r (n_resolver n)) as [r Hr].
  { unfold resolve_new in H1. repeat case_match; simplify_eq; cbn; eauto. }
  rewrite Hr. unfold AddNode. destruct (decide (b = c)) as [->|Hne].
  - right. rewrite lookup_insert_eq. eauto.
  - rewrite lookup_insert_ne by congruence. destruct Hb as [Hb|Hb]; [apply elem_of_cons in Hb as [Hb|Hb]; [done | left; done] | right; done].
Qed.

Lemma register_runs (pid : Z) (ref : nat) (n n' : node) (s : pstore) :
  register_store pid ref n = (n', Ret tt) -> find_store pid n = None -> n_stores n !! ref = Some s -> ps_id s = pid ->
  n_partitions n' = <[pid := ref]> (n_partitions n) /\ machine (n_raft n) pid = None /\ machine (n_raft n') pid = Some ref /\
  n_stores n' = alter (fun s => set_status PA_READONLY (set_open true s)) ref (n_stores n) /\
  forall b, b ∈ ps_replicas s -> is_Some (n_resolver n' !! b).
Proof.
  unfold register_store. intros H Hf Hs Hid. runs H. rewrite Hf in H. apply sbind_ret in H as (n2 & [] & Hm & H). runs H.
  do 2 runs Hm. cbn in Hrun. rewrite Hs in Hrun. injection Hrun as <-. apply sbind_ret in Hm as (n3 & [] & Hr & Hst).
  destruct (sfor_same _ _ _ _ _ (fun b m => proj1 (resolve_quiet b m)) Hr) as [Hs3 Hr3]. pose proof (resolve_adds _ _ _ Hr) as Hadds.
  pose proof (still_Start ref n3) as Hp. rewrite Hst in Hp. pose proof (still_for resolve_new (ps_replicas s) (fun b => proj1 (still_resolve b))) as Hp2.
  specialize (Hp2 (on_partitions (<[ps_id s := ref]>) n0)). rewrite Hr in Hp2. cbn in Hp, Hp2, Hs3, Hr3.
  destruct (Start_runs ref n3 n2 s Hst) as (Hn & Hm' & Hst' & Hres); [by rewrite Hs3|]. cbn.
  split; [rewrite Hp, Hp2; apply insert_insert_eq|]. rewrite <- Hr3, Hst', Hs3, Hres. repeat split; auto.
Qed.

(** After [register_store] the map holds at most a store of [pid] under [pid]. *)
Definition mapped_right (pid : Z) (n : node) : Prop := forall ref, find_store pid n = Some ref -> owner ref pid n.
Lemma register_map (pid : Z) (ref : nat) (n n' : node) (x : go unit) : register_store pid ref n = (n', x) ->
  n_partitions n' = n_partitions n \/ n_partitions n' !! pid = Some ref.
Proof.
  unfold register_store, sread. unfold sbind at 1. unfold sbind at 1. destruct (find_store pid n) as [ref'|] eqn:Hf; intros H.
  - pose proof (still_logged _ (still_Close ref) n) as Hp. destruct (slogged (Close ref) n) as [n1 [[]|e|y]]; unfold sstep in *; cbn in *; simplify_eq; [|auto..].
    right. apply lookup_insert_eq.
  - right. unfold sbind in H at 1. unfold sstep in H at 1.
    assert (Hs : still (se! s <- store_at ref in (se_! sfor resolve_new (ps_replicas s) in Start ref))).
    { apply still_bind; [done | intros s]. apply still_bind; [apply still_for; intros b; apply still_resolve | intros _; apply still_Start]. }
    specialize (Hs (on_partitions (<[pid := ref]>) n)).
    destruct (sbind _ _ (on_partitions (<[pid := ref]>) n)) as [n1 [[]|e|y]]; unfold sstep in *; cbn in *; simplify_eq; [apply lookup_insert_eq | rewrite Hs; apply lookup_insert_eq..].
Qed.
Lemma register_mapped (pid : Z) (ref : nat) (n : node) : owner ref pid n -> mapped_right pid n -> mapped_right pid (register_store pid ref n).1.
Proof.
  intros Ho Hn. pose proof (keeps_register pid ref n Ho) as Hk. pose proof (framed_owner pid pid ref _ _ Hk Ho) as Ho'.
  destruct (register_store pid ref n) as [n' x] eqn:Hreg. pose proof (register_map pid ref n n' x Hreg) as Hcase. cbn in *.
  intros r Hr. unfold find_store in *. destruct Hcase as [Hc|Hc].
  - rewrite Hc in Hr. apply (framed_owner pid pid r n); [done | apply Hn, Hr].
  - rewrite Hc in Hr. simplify_eq. done.
Qed.
Lemma mapped_frame (pid : Z) (n n' : node) : framed pid n n' -> n_partitions n' = n_partitions n -> mapped_right pid n -> mapped_right pid n'.
Proof. intros Hf Hp Hn r Hr. unfold find_store in Hr. rewrite Hp in Hr. apply (framed_owner pid pid r n); [done | apply Hn, Hr]. Qed.
Lemma CreatePartition_mapped (pid : Z) (space : Space) (n : node) : mapped_right pid n -> mapped_right pid (CreatePartition space pid n).1.
Proof.
  intros Hn. unfold CreatePartition. unfold sbind at 1. pose proof (keeps_CreateStore pid space n I) as Hc. pose proof (still_CreateStore pid space n) as Hp.
  destruct (CreateStore pid space n) as [n1 [ref|e|x]] eqn:Hcs; cbn in Hc, Hp; [|by apply (mapped_frame pid n)..].
  apply CreateStore_owner in Hcs. pose proof (mapped_frame pid n n1 Hc Hp Hn) as Hn1.
  pose proof (keeps_resource (owner ref pid) pid n1 Hcs) as Hk. pose proof (still_resource n1) as Hp1. unfold sbind at 1.
  destruct (check_resource n1) as [n2 [b|e|x]]; cbn in Hk, Hp1; [|by apply (mapped_frame pid n1)..].
  pose proof (mapped_frame pid n1 n2 Hk Hp1 Hn1) as Hn2. destruct b; [done|]. apply register_mapped; [|done]. by apply (framed_owner pid pid ref n1).
Qed.

(** [DeletePartition] and [DeleteReplica] take the partition out of the map. *)
Lemma DeletePartition_gone (pid : Z) (n : node) : mapped_right pid n ->
  exists n', DeletePartition pid n = (n', Ret tt) /\ find_store pid n' = None /\ framed pid n n'.
Proof.
  intros Hn. assert (keeps (mapped_right pid) pid (DeletePartition pid)) as Hk.
  { clear Hn n. intros n Hn. unfold DeletePartition, sbind at 1, sread. destruct (find_store pid n) as [ref|] eqn:Hf.
    - apply (keeps_then (owner ref pid)); [apply framed_owner | | intros _; apply keeps_partitions, delete_other | apply Hn, Hf].
      apply keeps_then; [apply framed_owner | apply keeps_store_at | intros s].
      apply keeps_then; [apply framed_owner | by apply keeps_same | intros _].
      apply keeps_then; [apply framed_owner | apply keeps_logged, keeps_Destroy | intros _].
      apply keeps_then; [apply framed_owner | apply keeps_store_at | intros s'].
      destruct (bool_decide _); [apply keeps_partitions, delete_other | apply keeps_sret].
    - apply (keeps_then anywhere); [done | apply keeps_sret | intros _; apply keeps_partitions, delete_other | done]. }
  specialize (Hk n Hn).
  destruct (DeletePartition pid n) as [n' x] eqn:Hd. cbn in Hk. exists n'.
  assert (x = Ret tt /\ find_store pid n' = None) as [-> ->]; [|done].
  unfold DeletePartition, sbind, sread, sstep, sret in Hd. destruct (find_store pid n) as [ref|] eqn:Hf; [|cbn in Hd; simplify_eq; split; [done | apply lookup_delete_eq]].
  destruct (Hn ref Hf) as (s & Hs & Hi). unfold store_at in Hd. rewrite Hs in Hd. cbn in Hd.
  set (n1 := on_resolver _ n) in Hd. assert (owner ref pid n1) as Ho1 by (exists s; done).
  pose proof (keeps_logged _ _ _ (keeps_Destroy ref pid) n1 Ho1) as Hk2. cbn in Hk2.
  pose proof (framed_owner pid pid ref _ _ Hk2 Ho1) as (s2 & Hs2 & _).
  assert (exists m, slogged (Destroy ref) n1 = (m, Ret tt)) as [m Hm].
  { destruct Ho1 as (s0 & Hs0 & Hi0). unfold slogged, Destroy, Close, sbind, store_at. rewrite Hs0. destruct (RemoveRaft _ _) as [r' [[]|e|y]] eqn:Hrm.
    - cbn. rewrite !list_lookup_alter, !decide_True by done. change (n_stores n) with (n_stores n1). rewrite Hs0. cbn. eauto.
    - eauto.
    - destruct (remove_fails _ _ _ _ Hrm) as (_ & e & He); done. }
  rewrite Hm in Hd, Hs2. cbn in Hd, Hs2. rewrite Hs2 in Hd. destruct (bool_decide _); cbn in Hd; simplify_eq; (split; [done | apply lookup_delete_eq]).
Qed.

Lemma unmapped_right (pid : Z) (n : node) : find_store pid n = None -> mapped_right pid n.
Proof. intros H ref Hr. congruence. Qed.
Lemma serving_mapped (pid : Z) (n : node) : serving n -> mapped_right pid n.
Proof. intros Hn ref Hr. by apply serving_owner. Qed.

(** A creation that succeeds. *)
Lemma CreatePartition_ret (space : Space) (pid : Z) (n n' : node) : CreatePartition space pid n = (n', Ret tt) -> find_store pid n = None ->
  exists p ref s, GetPartition space pid = Some p /\ ref = length (n_stores n) /\ n_stores n' = n_stores n ++ [s] /\
    n_partitions n' = <[pid := ref]> (n_partitions n) /\ ps_id s = pid /\ ps_space s = space /\ ps_replicas s = P_Replicas p /\
    ps_status s = PA_READONLY /\ ps_engine s = true /\ machine (n_raft n) pid = None /\ machine (n_raft n') pid = Some ref /\
    forall b, b ∈ ps_replicas s -> is_Some (n_resolver n' !! b).
Proof.
  unfold CreatePartition. intros H Hf. apply sbind_ret in H as (n1 & ref & Hc & H). apply sbind_ret in H as (n2 & b & Hr & H).
  destruct b; [done|]. pose proof (still_CreateStore pid space n) as Hp. rewrite Hc in Hp. cbn in Hp.
  apply CreateStore_new in Hc as (p & Hg & -> & Hs & Hraft & _).
  assert (n_stores n2 = n_stores n1 /\ n_partitions n2 = n_partitions n1 /\ n_raft n2 = n_raft n1) as (Hs2 & Hp2 & Hr2).
  { unfold check_resource in Hr. destruct (resource (n_calls n1)) as [? []]; simplify_eq; done. }
  assert (n_stores n2 !! length (n_stores n) = Some (new_store pid space p)) as Hl.
  { rewrite Hs2, Hs, lookup_app_r, Nat.sub_diag by lia. done. }
  destruct (register_runs pid _ n2 n' (new_store pid space p) H) as (Hmap & Hm & Hm' & Hst & Hres); [unfold find_store; rewrite Hp2, Hp; done | exact Hl | done|].
  exists p, (length (n_stores n)), (set_status PA_READONLY (set_open true (new_store pid space p))). split; [done|]. split; [done|]. split.
  { rewrite Hst, Hs2, Hs, alter_app_r_alt, Nat.sub_diag by lia. cbn. done. }
  split; [by rewrite Hmap, Hp2, Hp|]. cbn. rewrite <- Hraft, <- Hr2. repeat split; done.
Qed.

(** *** The handler of creations *)

(** A request to create a partition on a server.  Where the server has the partition already, it answers PARTITION_EXIST and nothing changes.  Otherwise, if it answers
    success, the server holds exactly one partition more, whose store, the new last one, was made from the request, is read-only with an open engine and is the state
    machine of the partition's raft group, which did not exist before, and the addresses of all its replicas can be resolved; if it
    answers an error, the server holds the partitions it held before.  Either way the other partitions, their raft groups and their stores' engines are as they were.  (C21) *)
Theorem create_partition_exact (space : Space) (pid : Z) (n n' : node) (x : go unit) :
  CreatePartitionHandler (Some space) pid n = (n', x) ->
  (is_Some (find_store pid n) -> n' = n /\ x = Fail (NewError PARTITION_EXIST None)) /\
  (find_store pid n = None ->
   framed pid n n' /\
   match x with
   | Ret _ => exists p s, GetPartition space pid = Some p /\ n_stores n' = n_stores n ++ [s] /\
       n_partitions n' = <[pid := length (n_stores n)]> (n_partitions n) /\ ps_id s = pid /\ ps_space s = space /\ ps_replicas s = P_Replicas p /\
       ps_status s = PA_READONLY /\ ps_engine s = true /\ machine (n_raft n) pid = None /\ machine (n_raft n') pid = Some (length (n_stores n)) /\
       forall b, b ∈ P_Replicas p -> is_Some (n_resolver n' !! b)
   | Fail _ => n_partitions n' = n_partitions n
   | Panic _ => True
   end).
Proof.
  unfold CreatePartitionHandler, sread. unfold sbind at 1. intros H. destruct (find_store pid n) as [ref|] eqn:Hf.
  { split; [|done]. intros _. unfold sret in H. by simplify_eq. }
  split; [intros [? Hs]; done|]. intros _. pose proof (framed_CreatePartition pid space n) as Hk.
  destruct (CreatePartition space pid n) as [n1 [[]|e|y]] eqn:Hc; cbn in Hk; [| |by simplify_eq].
  - simplify_eq. split; [done|]. destruct (CreatePartition_ret space pid n n' Hc Hf) as (p & ref & s & Hg & -> & Hs & Hp & Hi & Hsp & Hrep & Hst & He & Hm & Hm' & Hres).
    exists p, s. rewrite <- Hrep. repeat split; done.
  - destruct (DeletePartition_gone pid n1) as (n2 & Hd & Hg & Hk2).
    { pose proof (CreatePartition_mapped pid space n (unmapped_right pid n Hf)) as Hm. by rewrite Hc in Hm. }
    rewrite Hd in H. simplify_eq. assert (framed pid n n') as Hk3 by (transitivity n1; done). split; [done|].
    apply map_eq. intros j. destruct (decide (j = pid)) as [->|Hj]; [unfold find_store in Hf, Hg; congruence | by apply (framed_other pid n n' Hk3)].
Qed.

(** *** The server over time *)

(** A step of a server that is not stopping: a request (one at a time; a creation that does not panic), the recovery of a partition that is not there yet, a
    change of members that raft applies, the removal of directories. *)
Inductive server_step : node -> node -> Prop :=
| StepCreate body pid n n' x : CreatePartitionHandler body pid n = (n', x) -> (forall y, x <> Panic y) -> server_step n n'
| StepDelete pid n : server_step n (DeletePartition pid n).1
| StepDeleteReplica self pid n : server_step n (DeleteReplica self pid n).1
| StepLoad pid spaces n : find_store pid n = None -> server_step n (LoadPartition pid spaces n).1
| StepCommand {A} (body : option A) pid n : server_step n (CommandHandler body pid n).1
| StepLimit body pid n : server_step n (ResourceLimitHandler body pid n).1
| StepMember self body pid n : server_step n (ChangeMemberHandler self body pid n).1
| StepApply ref t replica n : server_step n (store_ApplyMemberChange ref t replica n).1
| StepRemove pid n : server_step n (remove_doomed pid n).1
| StepClear pid n : server_step n (ClearPartition pid n).1.

(** Operations that change no engine, no map and no raft group. *)
Definition mild {A} (m : P A) : Prop := forall pid pre, keeps pre pid m.
Lemma mild_bind {A B} (m : P A) (k : A -> P B) : mild m -> (forall a, mild (k a)) -> mild (sbind m k).
Proof. intros Hm Hk pid pre n _. apply (keeps_then anywhere pid (anywhere_stable pid)); [apply Hm | intros a; apply Hk | done]. Qed.
Lemma mild_same {A} (m : P A) :
  (forall n, n_stores (m n).1 = n_stores n /\ n_partitions (m n).1 = n_partitions n /\ n_raft (m n).1 = n_raft n) -> mild m.
Proof. intros H pid pre. by apply keeps_same. Qed.
Lemma mild_upd (ref : nat) (f : pstore -> pstore) : (forall s, ps_id (f s) = ps_id s /\ ps_engine (f s) = ps_engine s) -> mild (upd ref f).
Proof.
  intros Hf pid pre n _. split; [|auto]. cbn. intros r s Hs. rewrite list_lookup_alter. destruct (decide (ref = r)) as [->|].
  - rewrite Hs. exists (f s). destruct (Hf s). split; [reflexivity | auto].
  - eauto.
Qed.
Lemma mild_logged {A} (m : P A) : mild m -> mild (slogged m).
Proof. intros Hm pid pre. apply keeps_logged, Hm. Qed.
Ltac mild := repeat first [ apply mild_bind; [|intros ?] | apply mild_logged | (apply mild_upd; done) | (apply mild_same; intros ?; done) | case_match ].
Lemma mild_resource : mild check_resource.
Proof. intros pid pre. apply keeps_resource. Qed.
Lemma mild_command {A} (body : option A) (pid : Z) : mild (CommandHandler body pid).
Proof. unfold CommandHandler, store_at, submit. mild. Qed.
Lemma mild_limit (body : option (option bool)) (pid : Z) : mild (ResourceLimitHandler body pid).
Proof. unfold ResourceLimitHandler. mild. apply mild_resource. Qed.
Lemma mild_event (del : bool) (replica : Replica) : mild (HandleRaftReplicaEvent del replica).
Proof. apply mild_same. intros n. unfold HandleRaftReplicaEvent, resolve_loaded. repeat case_match; done. Qed.
Lemma mild_apply (ref : nat) (t : ConfChange) (replica : Replica) : mild (store_ApplyMemberChange ref t replica).
Proof. unfold store_ApplyMemberChange, store_at. mild; apply mild_event. Qed.
Lemma mild_member (self : Z) (body : option (ConfChange * Z)) (pid : Z) : mild (ChangeMemberHandler self body pid).
Proof.
  destruct body as [[t nodeID]|]; cbn; [|by apply mild_same]. unfold change_member. apply mild_bind; [by apply mild_same | intros [ref|]]; [|by apply mild_same].
  intros p pre n _. destruct (negb _); [reflexivity|].
  assert (Ht : framed p n (tick n)) by (split; [eauto | auto]).
  destruct (match QueryServer (n_calls n) nodeID, t with | Fail e, ConfRemoveNode => _ | x, _ => x end) as [server|e|x]; [|exact Ht..].
  transitivity (tick n); [exact Ht|]. apply (mild_bind _ _) with (pre := anywhere); [mild | intros _ | done].
  apply mild_bind; [by apply mild_same | intros _]. apply mild_bind; [apply mild_apply | intros _]. mild.
Qed.
Lemma mild_remove (pid : Z) : mild (remove_doomed pid) /\ mild (ClearPartition pid).
Proof. unfold remove_doomed, ClearPartition, remove_dir. split; mild. Qed.

Lemma mild_serving {A} (m : P A) (n : node) : mild m -> serving n -> serving (m n).1.
Proof.
  intros Hm Hn pid ref Hf. 
  assert (exists j, j <> pid) as [j Hj] by (exists (pid + 1); lia).
  destruct (Hm j anywhere n I) as [Hst Hoth]. destruct (Hoth pid) as [Hp Hma]; [congruence|].
  unfold find_store in Hf. rewrite Hp in Hf. destruct (Hn pid ref Hf) as (s & Hs & Hi & He & Hmm).
  destruct (Hst ref s Hs) as (s' & Hs' & Hi' & He'). exists s'. rewrite He', Hma by congruence. split; [done|]. split; [congruence | done].
Qed.

(** *** Each step keeps the invariant *)

Lemma create_serving (body : option Space) (pid : Z) (n n' : node) (x : go unit) :
  CreatePartitionHandler body pid n = (n', x) -> (forall y, x <> Panic y) -> serving n -> serving n'.
Proof.
  intros H Hx Hn. destruct body as [space|]; [|cbn in H; unfold sret in H; by simplify_eq].
  unfold CreatePartitionHandler, sread in H. unfold sbind in H at 1. destruct (find_store pid n) as [ref|] eqn:Hf; [unfold sret in H; by simplify_eq|].
  pose proof (framed_CreatePartition pid space n) as Hk. pose proof (CreatePartition_mapped pid space n (unmapped_right pid n Hf)) as Hm.
  destruct (CreatePartition space pid n) as [n1 [[]|e|y]] eqn:Hc; cbn in Hk, Hm; simplify_eq.
  - apply (framed_serving pid n); [done..|]. intros ref Hr.
    destruct (CreatePartition_ret space pid n n' Hc Hf) as (p & r & s & _ & -> & Hs & Hp & Hi & _ & _ & _ & He & _ & Hma & _).
    unfold find_store in Hr. rewrite Hp, lookup_insert_eq in Hr. injection Hr as <-. exists s.
    rewrite Hs, lookup_app_r, Nat.sub_diag by lia. done.
  - destruct (DeletePartition_gone pid n1 Hm) as (n2 & Hd & Hg & Hk2). rewrite Hd in H. simplify_eq.
    apply (framed_serving pid n); [done | transitivity n1; done | intros ref Hr; congruence].
  - by destruct (Hx y).
Qed.
Lemma delete_serving (pid : Z) (n : node) : serving n -> serving (DeletePartition pid n).1.
Proof.
  intros Hn. destruct (DeletePartition_gone pid n (serving_mapped pid n Hn)) as (n' & -> & Hg & Hk).
  apply (framed_serving pid n); [done..|]. intros ref Hr. cbn in Hr. congruence.
Qed.
Lemma delete_replica_serving (self pid : Z) (n : node) : serving n -> serving (DeleteReplica self pid n).1.
Proof.
  intros Hn. unfold DeleteReplica, sread. unfold sbind at 1. destruct (find_store pid n) as [ref|] eqn:Hf; [|done].
  pose proof (serving_owner n pid ref Hn Hf) as Ho.
  assert (still (se_! sstep (on_resolver (DeleteNode self)) in slogged (Destroy ref))) as Hp.
  { apply still_bind; [done | intros _; apply still_logged, still_Destroy]. }
  assert (keeps (owner ref pid) pid (se_! sstep (on_partitions (delete pid)) in (se_! sstep (on_resolver (DeleteNode self)) in slogged (Destroy ref)))) as Hk.
  { apply keeps_then; [apply framed_owner | apply keeps_partitions, delete_other | intros _].
    apply keeps_then; [apply framed_owner | by apply keeps_same | intros _; apply keeps_logged, keeps_Destroy]. }
  apply (framed_serving pid n); [done | by apply Hk|]. intros r Hr. unfold find_store in Hr. unfold sbind at 1 in Hr. cbn [sstep] in Hr.
  rewrite Hp in Hr. cbn in Hr. rewrite lookup_delete_eq in Hr. done.
Qed.

Lemma start_loaded_frame (pid : Z) (ref : nat) : keeps (owner ref pid) pid (start_loaded ref) /\ still (start_loaded ref).
Proof.
  split.
  - apply keeps_then; [apply framed_owner | apply keeps_store_at | intros s].
    apply keeps_then; [apply framed_owner | apply keeps_for; [apply framed_owner | intros b; apply keeps_resolve] | intros _].
    apply keeps_then; [apply framed_owner | apply keeps_Start | intros _].
    apply keeps_then; [apply framed_owner | apply keeps_resource | intros b; by apply keeps_upd].
  - apply still_bind; [done | intros s]. apply still_bind; [apply still_for; intros b; apply still_resolve | intros _].
    apply still_bind; [apply still_Start | intros _]. apply still_bind; [apply still_resource | done].
Qed.
Lemma start_loaded_served (pid : Z) (ref : nat) (n n' : node) : owner ref pid n -> start_loaded ref n = (n', Ret tt) -> served n' pid ref.
Proof.
  intros (s & Hs & Hi) H. unfold start_loaded in H. runs H. rewrite Hs in Hrun. injection Hrun as <-.
  apply sbind_ret in H as (n1 & [] & H1 & H). apply sbind_ret in H as (n2 & [] & H2 & H). apply sbind_ret in H as (n3 & b & H3 & H). runs H.
  destruct (sfor_same _ _ _ _ _ (fun b m => proj2 (resolve_quiet b m)) H1) as [Hs1 Hr1].
  destruct (Start_runs ref n1 n2 s H2) as (_ & Hm & Hst & _); [by rewrite Hs1|].
  assert (n_stores n3 = n_stores n2 /\ n_raft n3 = n_raft n2) as [Hs3 Hr3].
  { unfold check_resource in H3. destruct (resource (n_calls n2)) as [? []]; simplify_eq; done. }
  exists (set_exhausted b (set_status PA_READONLY (set_open true s))). cbn. rewrite Hs3, Hst, Hs1, Hr3, !list_lookup_alter, !decide_True, Hs by done.
  repeat split; done.
Qed.
Lemma load_serving (pid : Z) (spaces : list Space) (n : node) : find_store pid n = None -> serving n -> serving (LoadPartition pid spaces n).1.
Proof.
  intros Hf Hn. unfold LoadPartition. destruct (_ ≫= _) as [space|]; [|done]. unfold sbind at 1.
  pose proof (keeps_CreateStore pid space n I) as Hk. pose proof (still_CreateStore pid space n) as Hp.
  destruct (CreateStore pid space n) as [n1 [ref|e|y]] eqn:Hc; cbn in Hk, Hp.
  2,3: apply (framed_serving pid n); [done..|]; cbn; unfold find_store in *; rewrite Hp, Hf; done.
  apply CreateStore_owner in Hc. destruct (start_loaded_frame pid ref) as [Hk2 Hp2]. specialize (Hk2 n1 Hc). specialize (Hp2 n1).
  unfold sbind at 1. destruct (start_loaded ref n1) as [n2 [[]|e|y]] eqn:Hs; cbn in Hk2, Hp2.
  2,3: apply (framed_serving pid n); [done | transitivity n1; done|]; cbn; unfold find_store in *; rewrite Hp2, Hp, Hf; done.
  apply (start_loaded_served pid ref n1 n2 Hc) in Hs. cbn. apply (framed_serving pid n); [done| |].
  - transitivity n1; [done|]. transitivity n2; [done|]. by apply (keeps_partitions anywhere pid (<[pid := ref]>) (insert_other pid ref)).
  - intros r Hr. unfold find_store in Hr. cbn in Hr. rewrite lookup_insert_eq in Hr. injection Hr as <-. exact Hs.
Qed.

Lemma step_serving (n n' : node) : server_step n n' -> serving n -> serving n'.
Proof.
  destruct 1; eauto using create_serving, delete_serving, delete_replica_serving, load_serving; apply mild_serving.
  - apply mild_command.
  - apply mild_limit.
  - apply mild_member.
  - apply mild_apply.
  - apply mild_remove.
  - apply mild_remove.
Qed.

(** The partitions of a server over any sequence of requests, recoveries, changes of members and removals of directories, errors included, from a server without partitions: every partition in the
    server's map has an open store of that partition, which is the state machine of the partition's raft group, and no two partitions share a store.  (C12) *)
Theorem held_partitions_served (n0 n : node) : n_partitions n0 = ∅ -> rtc server_step n0 n ->
  (forall pid ref, find_store pid n = Some ref -> served n pid ref) /\
  (forall pid pid' ref, find_store pid n = Some ref -> find_store pid' n = Some ref -> pid = pid').
Proof.
  intros H0 Hrun. assert (serving n) as Hn.
  { assert (serving n0) as Hn0 by (intros pid ref Hf; unfold find_store in Hf; rewrite H0, lookup_empty in Hf; done).
    clear H0. induction Hrun as [|a b c Hab _ IH]; [done | apply IH, (step_serving a); done]. }
  split; [exact Hn|]. intros pid pid' ref H1 H2. destruct (Hn _ _ H1) as (s & Hs & Hi & _), (Hn _ _ H2) as (s' & Hs' & Hi' & _). congruence.
Qed.

(** [CreateStore] without failures of the file system. *)
Lemma CreateStore_runs (pid : Z) (space : Space) (p : Partition) (n : node) :
  (forall k, n_calls n <= k < n_calls n + 4 -> external k = None)%nat -> GetPartition space pid = Some p ->
  exists n1, CreateStore pid space n = (n1, Ret (length (n_stores n))) /\ n_stores n1 = n_stores n ++ [new_store pid space p] /\
    n_partitions n1 = n_partitions n /\ n_raft n1 = n_raft n /\ n_calls n1 = (n_calls n + 4)%nat.
Proof.
  intros Hext Hp. unfold CreateStore, CreatePartitionPaths, mkdir, SavePartitionMeta, sbind, call, sstep. cbn.
  do 4 (rewrite Hext by lia; cbn). rewrite Hp. cbn. eexists. split; [reflexivity|]. cbn. split_and!; try done. lia.
Qed.

(** Two requests to create the same partition: the check of the handler is made without the lock of the server, so both can pass it.  When the first has created the partition, the second
    [CreatePartition] succeeds too - the directories can be made and there are resources left -, and the partition that is in the map then is a new store without an engine, which serves nothing:
    if raft removes the group of the partition, the group of the first store is gone; otherwise it runs on with the first store, which the map no longer has.  (C37) *)
Theorem duplicate_create_closes_partition (space : Space) (pid : Z) (p : Partition) (ref : nat) (n : node) :
  serving n -> find_store pid n = Some ref -> GetPartition space pid = Some p ->
  (forall k, n_calls n <= k < n_calls n + 4 -> external k = None)%nat -> resource (n_calls n + 4)%nat = (false, None) ->
  exists n' s, CreatePartition space pid n = (n', Ret tt) /\ find_store pid n' = Some (length (n_stores n)) /\
    n_stores n' !! length (n_stores n) = Some s /\ ps_engine s = false /\ ~ served n' pid (length (n_stores n)) /\
    machine (n_raft n') pid = match (RemoveRaft pid (n_raft n)).2 with Ret _ => None | _ => Some ref end.
Proof.
  intros Hn Hf Hp Hext Hres. destruct (Hn pid ref Hf) as (_ & _ & _ & _ & Hm0).
  destruct (CreateStore_runs pid space p n Hext Hp) as (n1 & Hc & Hs & Hps & Hr & Hk).
  assert (n_stores n1 !! length (n_stores n) = Some (new_store pid space p)) as Hl by (rewrite Hs, lookup_app_r, Nat.sub_diag by lia; done).
  unfold CreatePartition, sbind. rewrite Hc. unfold check_resource. rewrite Hk, Hres. unfold register_store, sbind, sread, find_store. cbn [n_partitions tick].
  rewrite Hps. unfold find_store in Hf. rewrite Hf. unfold slogged, Close, sbind, store_at. cbn [n_stores tick]. rewrite Hl. cbn [ps_id new_store n_raft tick]. rewrite Hr.
  assert (forall m s, n_stores m !! length (n_stores n) = Some s -> ps_engine s = false -> ~ served m pid (length (n_stores n))) as Hserve
    by (intros m s Hm He (s' & Hs' & _ & He' & _); congruence).
  destruct (RemoveRaft pid (n_raft n)) as [r' x] eqn:Erm. cbn [snd]. destruct x as [[]|e|y].
  - eexists _, _. split; [reflexivity|]. apply remove_ok in Erm as [Hm _]. cbn. split; [apply lookup_insert_eq|].
    assert (alter (set_status PA_CLOSED) (length (n_stores n)) (alter (set_open false) (length (n_stores n)) (n_stores n1)) !! length (n_stores n) =
            Some (set_status PA_CLOSED (set_open false (new_store pid space p)))) as Hl' by (rewrite !list_lookup_alter, !decide_True, Hl by done; done).
    split; [exact Hl'|]. split; [done|]. split; [by eapply Hserve|exact Hm].
  - apply remove_fails in Erm as [-> _]; [|done]. eexists _, _. split; [reflexivity|]. cbn. split; [apply lookup_insert_eq|]. split; [exact Hl|]. split; [done|]. split; [by eapply Hserve|exact Hm0].
  - apply remove_fails in Erm as [_ [e He]]; [|done]. discriminate He.
Qed.

(** ** Resolving the nodes of partitions *)

Lemma DeleteNode_twice (id : Z) (r : resolver) (x : nodeRef) : r !! id = Some x -> refCount x = 2 -> DeleteNode id (DeleteNode id r) !! id = None.
Proof.
  intros Hx H2. unfold DeleteNode at 2. rewrite Hx. cbn [counted refCount]. rewrite H2.
  change (i32 (2 + -1)) with 1. cbn. unfold DeleteNode. rewrite lookup_insert_eq. cbn [counted refCount]. rewrite H2.
  change (i32 (i32 (2 + -1) + -1)) with 0. cbn. apply lookup_delete_eq.
Qed.
(** A member is removed on the leader: raft's event and the handler both count the node down. *)
Lemma removal_counts_twice (self nodeID pid : Z) (n n' : node) :
  (forall k r, QueryServer k nodeID = Ret r -> Rep_NodeID r = nodeID) ->
  (forall k i r, QueryFailServer k nodeID = Some (i, Some r) -> Rep_NodeID r = nodeID) ->
  change_member self ConfRemoveNode nodeID pid n = (n', Ret tt) ->
  n_resolver n' = DeleteNode nodeID (DeleteNode nodeID (n_resolver n)) /\
  exists ref f, find_store pid n = Some ref /\ n_stores n' = alter (set_replicas f) ref (n_stores n).
Proof.
  intros Hq Hfq H. unfold change_member in H. runs H. destruct (find_store pid n0) as [ref|] eqn:Hf; [|done].
  destruct (negb _); [done|]. set (found := match QueryServer _ _ with Ret _ => _ | Fail _ => _ | Panic _ => _ end) in H.
  assert (forall r, found = Ret r -> Rep_NodeID r = nodeID) as Hid.
  { intros r. unfold found. destruct (QueryServer (n_calls n0) nodeID) as [r0|e|y] eqn:Eq; [intros; simplify_eq; eauto | | done].
    destruct (QueryFailServer (n_calls n0) nodeID) as [[i [r0|]]|] eqn:Ef; intros; simplify_eq; eauto. }
  destruct found as [server|e|y]; [|done..]. specialize (Hid server eq_refl).
  apply sbind_ret in H as (n1 & [] & H1 & H). apply sbind_ret in H as (n2 & [] & H2 & H). apply sbind_ret in H as (n3 & [] & H3 & H). runs H.
  unfold sret in H1. unfold submit in H2. destruct (raft_answer _); [done|]. simplify_eq.
  apply sbind_ret in H3 as (m1 & [] & E1 & H3). apply sbind_ret in H3 as (m2 & s & E2 & H3). apply sbind_ret in H3 as (m3 & l & E3 & H3).
  runs H3. runs E2. unfold HandleRaftReplicaEvent in E1. unfold sret in E3. simplify_eq.
  cbn. split; [done | eauto].
Qed.

(** Removing a member of one partition can cut another one off: the server counts, per node, how many of its partitions need the node's addresses, but the leader that removes a member counts the node down twice, once when raft applies
    the change and once in the handler.  Of two partitions with a replica on the node, both created that way (a count of two), the removal from one leaves
    the other with a replica on a node whose addresses no socket type can be resolved any more.  (C38) *)
Theorem removed_member_unresolvable (self nodeID pid other : Z) (n n' : node) (x : nodeRef) (ref : nat) (s : pstore) :
  (forall k r, QueryServer k nodeID = Ret r -> Rep_NodeID r = nodeID) ->
  (forall k i r, QueryFailServer k nodeID = Some (i, Some r) -> Rep_NodeID r = nodeID) ->
  serving n -> other <> pid -> find_store other n = Some ref -> n_stores n !! ref = Some s -> nodeID ∈ ps_replicas s ->
  n_resolver n !! nodeID = Some x -> refCount x = 2 ->
  ChangeMemberHandler self (Some (ConfRemoveNode, nodeID)) pid n = (n', Ret tt) ->
  n_stores n' !! ref = Some s /\ forall stype, exists e, NodeAddress nodeID stype (n_resolver n') = Fail e.
Proof.
  intros Hq Hfq Hn Hne Hf Hs Hin Hx H2 H. destruct (removal_counts_twice self nodeID pid n n' Hq Hfq H) as (Hr & ref' & l & Hf' & Hst).
  split.
  - rewrite Hst, list_lookup_alter, decide_False; [done|]. intros ->.
    destruct (Hn _ _ Hf) as (s1 & H1 & I1 & _), (Hn _ _ Hf') as (s2 & Hs2 & I2 & _). congruence.
  - intros stype. unfold NodeAddress. rewrite Hr, (DeleteNode_twice nodeID _ x Hx H2). eauto.
Qed.

(** A creation that the resources do not allow, though every call of the file system succeeds, leaves the directories of the partition: the server reports the partition, and a
    request to delete it changes nothing. *)
Theorem refused_create_reported (space : Space) (pid : Z) (p : Partition) (n : node) :
  (forall k, external k = None) -> (forall k, (resource k).1 = true \/ is_Some (resource k).2) -> find_store pid n = None -> GetPartition space pid = Some p ->
  exists n' e, CreatePartitionHandler (Some space) pid n = (n', Fail e) /\ pid ∈ GetAllPartitions n' /\ pid ∈ GetAllPartitions (DeletePartition pid n').1.
Proof.
  intros He Hres Hf Hg. unfold CreatePartitionHandler, sread. unfold sbind at 1. rewrite Hf.
  assert (exists n1, CreateStore pid space n = (n1, Ret (length (n_stores n))) /\ n_partitions n1 = n_partitions n /\ ("meta"%string, pid) ∈ n_dirs n1) as (n1 & Hc & Hp & Hd).
  { unfold CreateStore, CreatePartitionPaths, mkdir, SavePartitionMeta, call, sbind, sread, sstep, sret. cbn. rewrite !He, Hg. cbn.
    eexists. split; [reflexivity|]. cbn. split; [done | set_solver]. }
  assert (exists n2 e, CreatePartition space pid n = (n2, Fail e) /\ n_partitions n2 = n_partitions n1 /\ n_dirs n2 = n_dirs n1) as (n2 & e & Hcp & Hp2 & Hd2).
  { unfold CreatePartition, check_resource. unfold sbind at 1. rewrite Hc. unfold sbind, sret. specialize (Hres (n_calls n1)).
    destruct (resource (n_calls n1)) as [[] [e|]]; cbn in Hres; [eexists _, _; split; [reflexivity | done]..|]. destruct Hres as [|[]]; done. }
  assert (forall m, find_store pid m = None -> ("meta"%string, pid) ∈ n_dirs m -> DeletePartition pid m = ((DeletePartition pid m).1, Ret tt) /\
            find_store pid (DeletePartition pid m).1 = None /\ ("meta"%string, pid) ∈ n_dirs (DeletePartition pid m).1) as Hdel.
  { intros m Hm Hdm. unfold DeletePartition, sbind, sread. rewrite Hm. cbn. split; [done|]. split; [apply lookup_delete_eq | done]. }
  assert (forall m, ("meta"%string, pid) ∈ n_dirs m -> pid ∈ GetAllPartitions m) as Hall.
  { intros m Hm. unfold GetAllPartitions. apply elem_of_map. exists ("meta"%string, pid). split; [done|]. apply elem_of_filter. done. }
  rewrite Hcp. destruct (Hdel n2) as (Hd3 & Hf3 & Hm3); [unfold find_store in *; congruence | congruence|].
  rewrite Hd3. eexists _, e. split; [done|]. split; [by apply Hall|]. apply Hall, Hdel; done.
Qed.
End Node.

(** ** A small server *)

(** A raft server that keeps its groups in a map. *)
#[local] Instance demo_raft : RaftServer (gmap Z nat).
Proof.
  refine {| machine r id := r !! id; leader_of _ _ := 1;
            CreateRaft id m r := match r !! id with Some _ => (r, Fail (OtherErr "exists")) | None => (<[id := m]> r, Ret tt) end;
            RemoveRaft id r := (delete id r, Ret tt) |}.
  - intros id m r r' H. destruct (r !! id) eqn:E; simplify_eq. split; [done|]. split; [apply lookup_insert_eq|]. intros j Hj. apply lookup_insert_ne. congruence.
  - intros id m r r' x H Hx. destruct (r !! id); simplify_eq. eauto.
  - intros id r r' H. simplify_eq. split; [apply lookup_delete_eq|]. intros j Hj. apply lookup_delete_ne. congruence.
  - intros id r r' x H Hx. simplify_eq.
Defined.
Definition demo_partition (id : Z) : Partition :=
  {| P_Id := id; P_Name := ""; P_SpaceId := 1; P_DBId := 1; P_Slot := 0; P_LeaderID := 1; P_Replicas := [1; 2]; P_UpdateTime := 0; P_AddNum := 0;
     P_ResourceExhausted := false; P_Path := ""; P_status := PA_UNKNOW; P_ReStatusMap := ∅ |}.
(** Two partitions on the nodes 1 and 2. *)
Definition demo_node_space : Space :=
  {| S_Id := 1; S_Desc := ""; S_Name := "s"; S_ResourceName := ""; S_Version := 1; S_DBId := 1; S_Enabled := None; S_Partitions := [demo_partition 7; demo_partition 8];
     S_PartitionNum := 2; S_ReplicaNum := 2; S_Fields := ""; S_Indexes := []; S_PartitionRule := None; S_SpaceProperties := ∅; S_RefreshInterval := None;
     S_PartitionName := None; S_PartitionOperatorType := None; S_EnableIdCache := None; S_EnableRealtime := None |}.
Definition demo_server (_ : nat) (id : Z) : go Replica := Ret {| Rep_NodeID := id; HeartbeatAddr := "h"; ReplicateAddr := "r"; Rep_RpcAddr := "p" |}.
Definition no_fail (_ : nat) (_ : Z) : option (Z * option Replica) := None.
Definition all_ok (_ : nat) : option error := None.
Definition enough (_ : nat) : bool * option error := (false, None).
Definition empty_node : node :=
  {| n_stores := []; n_partitions := ∅; n_raft := (∅ : gmap Z nat); n_resolver := ∅; n_dirs := ∅; n_meta := ∅; n_doomed := []; n_calls := 0 |}.
Definition demo_create (pid : Z) (n : node) : node * go unit := CreatePartitionHandler all_ok enough demo_server no_fail (Some demo_node_space) pid n.
Definition demo_one : node := (demo_create 7 empty_node).1.
Definition demo_two : node := (demo_create 8 demo_one).1.
Lemma demo_created : demo_create 7 empty_node = (demo_one, Ret tt) /\ demo_create 8 demo_one = (demo_two, Ret tt).
Proof. split; vm_compute; reflexivity. Qed.

Lemma create_partition_exact_witness : n_partitions demo_one = {[7 := 0%nat]} /\ machine (n_raft demo_one) 7 = Some 0%nat /\ is_Some (n_resolver demo_one !! 2).
Proof.
  destruct (create_partition_exact all_ok enough demo_server no_fail demo_node_space 7 empty_node demo_one (Ret tt)) as [_ H]; [exact (proj1 demo_created)|].
  destruct (H eq_refl) as (_ & p & s & Hp & Hs & Hm & _ & _ & _ & _ & _ & _ & Hma & Hres).
  split; [rewrite Hm; vm_compute; reflexivity|]. split; [exact Hma|]. apply Hres.
  vm_compute in Hp. injection Hp as <-. right. left.
Defined.

Notation demo_step := (server_step all_ok enough demo_server no_fail all_ok).
Lemma demo_steps : rtc demo_step empty_node demo_two.
Proof.
  apply rtc_l with demo_one; [|apply rtc_once].
  - apply (StepCreate _ _ _ _ _ (Some demo_node_space) 7 empty_node demo_one (Ret tt)); [exact (proj1 demo_created) | done].
  - apply (StepCreate _ _ _ _ _ (Some demo_node_space) 8 demo_one demo_two (Ret tt)); [exact (proj2 demo_created) | done].
Qed.
Lemma demo_serving : serving demo_two.
Proof.
  intros pid ref Hf. assert (pid = 7 /\ ref = 0%nat \/ pid = 8 /\ ref = 1%nat) as [[-> ->]|[-> ->]].
  { assert (n_partitions demo_two = <[8 := 1%nat]> {[7 := 0%nat]}) as He by (vm_compute; reflexivity). unfold find_store in Hf. rewrite He in Hf.
    apply lookup_insert_Some in Hf as [[<- <-]|[_ Hf]]; [by right | apply lookup_singleton_Some in Hf as [<- <-]; by left]. }
  - eexists. split; [vm_compute; reflexivity|]. split; [reflexivity|]. split; reflexivity.
  - eexists. split; [vm_compute; reflexivity|]. split; [reflexivity|]. split; reflexivity.
Qed.

Lemma held_partitions_served_witness : served demo_two 7 0 /\ served demo_two 8 1.
Proof.
  destruct (held_partitions_served all_ok enough demo_server no_fail all_ok empty_node demo_two eq_refl demo_steps) as [H _].
  split; apply H; vm_compute; reflexivity.
Defined.

Lemma duplicate_create_closes_partition_witness :
  exists n', CreatePartition all_ok enough demo_server no_fail demo_node_space 7 demo_two = (n', Ret tt) /\ ~ served n' 7 2 /\ machine (n_raft n') 7 = None.
Proof.
  destruct (duplicate_create_closes_partition all_ok enough demo_server no_fail demo_node_space 7 (demo_partition 7) 0 demo_two demo_serving)
    as (n' & s & Hc & _ & _ & _ & Hs & Hm); [vm_compute; reflexivity|vm_compute; reflexivity|reflexivity|reflexivity|].
  exists n'. split; [exact Hc|]. split; [exact Hs|]. exact Hm.
Defined.

Lemma removed_member_unresolvable_witness :
  exists n', ChangeMemberHandler demo_server no_fail all_ok 1 (Some (ConfRemoveNode, 2)) 7 demo_two = (n', Ret tt) /\
    exists e, NodeAddress 2 HeartBeat (n_resolver n') = Fail e.
Proof.
  destruct (ChangeMemberHandler demo_server no_fail all_ok 1 (Some (ConfRemoveNode, 2)) 7 demo_two) as [n' x] eqn:E.
  assert (x = Ret tt) as -> by (transitivity (ChangeMemberHandler demo_server no_fail all_ok 1 (Some (ConfRemoveNode, 2)) 7 demo_two).2; [by rewrite E | vm_compute; reflexivity]).
  exists n'. split; [reflexivity|].
  destruct (removed_member_unresolvable demo_server no_fail all_ok 1 2 7 8 demo_two n'
    {| refCount := 2; nr_heartbeat := "h"; nr_replicate := "r"; nr_rpc := "p" |} 1 (set_status PA_READONLY (set_open true (new_store 8 demo_node_space (demo_partition 8))))) as [_ H].
  - intros k r Hr. injection Hr as <-. reflexivity.
  - done.
  - exact demo_serving.
  - done.
  - vm_compute. reflexivity.
  - vm_compute. reflexivity.
  - right. left.
  - vm_compute. reflexivity.
  - reflexivity.
  - exact E.
  - exact (H HeartBeat).
Defined.

Lemma refused_create_reported_witness :
  exists n' e, CreatePartitionHandler all_ok (fun _ => (true, None)) demo_server no_fail (Some demo_node_space) 7 empty_node = (n', Fail e) /\ 7 ∈ GetAllPartitions n'.
Proof.
  destruct (refused_create_reported all_ok (fun _ => (true, None)) demo_server no_fail demo_node_space 7 (demo_partition 7) empty_node) as (n' & e & H & Hin & _).
  - reflexivity.
  - intros k. by left.
  - reflexivity.
  - vm_compute. reflexivity.
  - exists n', e. split; [exact H | exact Hin].
Defined.
