(* ===== verification/Snapshot.v ===== *)
(** * Snapshots of a partition (internal/ps/engine/gammacb/snapshot.go, internal/ps/storage/raftstore/store_raft_snapshot.go,
      internal/pkg/fileutil/fileutil.go)

    A replica that is too far behind is sent a backup of the leader's engine: [NewSnapshot] makes the backup and lists its files, [Next] cuts
    them into messages, [ApplySnapshot] of the follower writes them and moves them into place, and the store rebuilds its engine on
    them.  Paths are lists of segments; a directory of the leader is a tree in the order of [os.ReadDir].  The engine, the
    transport of the messages and the failures of the file system are arguments. *)

From S2P Require Import Prelude.
From S2P Require Import Text.
From S2P Require Import Errors.
From S2P Require Import Keys.
From S2P Require Import Effects.
From S2P Require Import Store.
Open Scope Z_scope.

Notation path := (list string).

(** ** The leader *)

Inductive fnode : Type := File (data : list Z) | Dir (entries : list (string * fnode)).

(** The files below a directory, with their contents, in the order of [GetAllFileNames]. *)
Fixpoint files_below (dir : path) (x : fnode) : list (path * list Z) :=
  match x with
  | File data => [(dir, data)]
  | Dir entries => (fix go l := match l with [] => [] | (name, y) :: l' => files_below (dir ++ [name]) y ++ go l' end) entries
  end.
Definition GetAllFileNames (dir : path) (entries : list (string * fnode)) : list path := (files_below dir (Dir entries)).*1.

(** [os.Stat] and [os.Open]: the content of a file, or a directory. *)
Fixpoint find_entry (name : string) (entries : list (string * fnode)) : option fnode :=
  match entries with [] => None | (n, x) :: l => if n =?s name then Some x else find_entry name l end.
Fixpoint stat (x : fnode) (p : path) : option fnode :=
  match p, x with
  | [], _ => Some x
  | name :: p', Dir entries => find_entry name entries ≫= (fun y => stat y p')
  | _ :: _, File _ => None
  end.

Definition buf_size : Z := 1024000 * 10.

Inductive SnapshotStatus : Set := Running | Finish.
Record SnapshotMsg : Type := { FileName : path; Data : list Z; Status : SnapshotStatus }.
Definition note (s : SnapshotStatus) : SnapshotMsg := {| FileName := []; Data := []; Status := s |}.

(** [GammaSnapshot]; the reader is the rest of the file it is at. *)
Record GammaSnapshot : Type := { g_sn : Z; g_index : nat; g_files : list path; g_reader : option (list Z); g_size : Z }.
Definition at_file (index : nat) (reader : option (list Z)) (size : Z) (g : GammaSnapshot) : GammaSnapshot :=
  {| g_sn := g_sn g; g_index := index; g_files := g_files g; g_reader := reader; g_size := size |}.

(** What a call of [Next] returns: a message, the last one with [io.EOF]. *)
Inductive next : Type := Message (m : SnapshotMsg) | Last (m : SnapshotMsg).

(** [g.reader.Read] into a buffer of [n] bytes: the bytes read, and the buffer; a read may be [short].  Opening, reading and closing a file of the backup do not fail on the leader; there an
    error would only end the transfer. *)
Section Leader.
Context (fs : path -> option fnode) (short : list Z -> Z -> Z).

Definition read_buffer (rest : list Z) (n : Z) : list Z * list Z :=
  let k := Z.to_nat (short rest n) in (drop k rest, take k rest ++ replicate (Z.to_nat n - k) 0).

Definition send_chunk (g : GammaSnapshot) (rest : list Z) : GammaSnapshot * go next :=
  let n := Z.min buf_size (g_size g) in
  let '(rest', byteData) := read_buffer rest n in
  let size := g_size g - (Z.of_nat (length rest) - Z.of_nat (length rest')) in
  (at_file (g_index g) (if size =? 0 then None else Some rest') size g,
   match g_files g !! (g_index g - 1)%nat with
   | None => Panic IndexRange
   | Some name => Ret (Message {| FileName := name; Data := byteData; Status := Running |})
   end).

Definition Next (g : GammaSnapshot) : GammaSnapshot * go next :=
  if (length (g_files g) <=? g_index g)%nat && (g_size g =? 0) then (g, Ret (Last (note Finish)))
  else
    match g_reader g with
    | Some rest => send_chunk g rest
    | None =>
      match g_files g !! g_index g with
      | None => (g, Panic IndexRange)
      | Some filePath =>
        let g := at_file (S (g_index g)) None (g_size g) g in
        match fs filePath with
        | None => (g, Panic NilDeref)
        | Some (Dir _) => (g, Ret (Message (note Running)))
        | Some (File data) => let g := at_file (g_index g) (Some data) (Z.of_nat (length data)) g in send_chunk g data
        end
      end
    end.

(** The messages up to the last one; at most [fuel] of them. *)
Fixpoint send (fuel : nat) (g : GammaSnapshot) : option (list SnapshotMsg) :=
  match fuel with
  | O => None
  | S fuel' =>
    match Next g with
    | (_, Ret (Last m)) => Some [m]
    | (g', Ret (Message m)) => (m ::.) <$> send fuel' g'
    | _ => None
    end
  end.
End Leader.

(** [NewSnapshot]: [backup] is the engine's answer, [made] the directory it has made, [base] the file with the sequence number of the engine. *)
Definition indexSn : string := "sn".
Fixpoint add_entry (name : string) (x : fnode) (entries : list (string * fnode)) : list (string * fnode) :=
  match entries with
  | [] => [(name, x)]
  | (n, y) :: l => if String.ltb name n then (name, x) :: entries else (n, y) :: add_entry name x l
  end.
Section NewSnapshot.
Context (write_error : option error).
Definition NewSnapshot (dir : path) (backup : option error) (made : option (list (string * fnode))) (base : option (list Z)) :
    list (string * fnode) * go GammaSnapshot :=
  match backup with
  | Some e => (default [] made, Fail e)
  | None =>
    match made with
    | None => ([], Fail (OtherErr "not exist"))
    | Some entries =>
      let fresh := bool_decide (find_entry indexSn entries = None) in
      match (if fresh then write_error else None) with
      | Some e => (entries, Fail e)
      | None =>
        let entries := if fresh then add_entry indexSn (File (default (bytes_of "0") base)) entries else entries in
        let b := match find_entry indexSn entries with Some (File data) => of_bytes data | _ => "0"%string end in
        (entries,
         match ParseInt b with
         | None => Fail (OtherErr "strconv.ParseInt")
         | Some sn =>
           if sn <? 0 then Fail (verr INTERNAL_ERROR "read sn:[%d] less than zero")
           else Ret {| g_sn := sn; g_index := 0; g_files := GetAllFileNames (dir ++ ["backup"%string]) entries; g_reader := None; g_size := 0 |}
         end)
      end
    end
  end.
End NewSnapshot.

(** ** The follower *)

(** Files and directories, and the number of calls made. *)
Record disk : Type := { d_files : gmap path (list Z); d_dirs : gset path; d_calls : nat }.
Definition on_files (f : gmap path (list Z) -> gmap path (list Z)) (d : disk) : disk := {| d_files := f (d_files d); d_dirs := d_dirs d; d_calls := d_calls d |}.
Definition on_dirs (f : gset path -> gset path) (d : disk) : disk := {| d_files := d_files d; d_dirs := f (d_dirs d); d_calls := d_calls d |}.

(** Below a directory, or the directory itself. *)
Fixpoint strip (dir p : path) : option path :=
  match dir, p with
  | [], _ => Some p
  | a :: dir', b :: p' => if a =?s b then strip dir' p' else None
  | _ :: _, [] => None
  end.
Definition under (dir p : path) : bool := bool_decide (is_Some (strip dir p)).
Fixpoint parents (p : path) : list path := match p with [] => [[]] | a :: p' => [] :: ((a ::.) <$> parents p') end.
Definition exists_at (p : path) (d : disk) : bool := bool_decide (p ∈ d_dirs d) || bool_decide (is_Some (d_files d !! p)).
Definition removed (p : path) (d : disk) : disk :=
  on_dirs (filter (fun q => under p q = false)) (on_files (filter (fun '(q, _) => under p q = false)) d).
Definition moved_files (src dst : path) (m : gmap path (list Z)) : gmap path (list Z) :=
  filter (fun '(q, _) => under src q = false) m ∪ list_to_map (omap (fun '(q, x) => (fun rel => (dst ++ rel, x)) <$> strip src q) (map_to_list m)).
Definition moved (src dst : path) (d : disk) : disk :=
  on_dirs (fun s => filter (fun q => under src q = false) s ∪ list_to_set (omap (fun q => (dst ++.) <$> strip src q) (elements s))) (on_files (moved_files src dst) d).
(** [os.ReadDir], without the order. *)
Definition names_in (dir : path) (d : disk) : list string :=
  remove_dups (omap (fun q => strip dir q ≫= head) ((map_to_list (d_files d)).*1 ++ elements (d_dirs d))).

Section Follower.
Context (fault : nat -> option error).
Definition call : SE disk unit := fun d =>
  ({| d_files := d_files d; d_dirs := d_dirs d; d_calls := S (d_calls d) |}, match fault (d_calls d) with None => Ret tt | Some e => Fail e end).
Definition op (f : disk -> disk) : SE disk unit := se_! call in sstep f.

Definition MkdirAll (p : path) : SE disk unit := op (on_dirs (fun s => list_to_set (parents p) ∪ s)).
(** Append to a file that is created if it does not exist. *)
Definition append_file (p : path) (data : list Z) : SE disk unit := op (on_files (fun m => <[p := default [] (m !! p) ++ data]> m)).

(** What the iterator of raft returns: a message that decodes, one that does not, an error, or neither message nor error. *)
Inductive delivery : Type := Deliver (m : SnapshotMsg) | Garbled (e : error) | Broken (e : error) | Nothing.

(** The loop of [ApplySnapshot]; [out] says whether a file is open.  The end of the list is an iterator that never returns. *)
Definition write_message (out : bool) (m : SnapshotMsg) : SE disk unit :=
  se_! (if out then call else sret (Ret tt)) in
  let fileDir := take (length (FileName m) - 1) (FileName m) in
  se! found <- sread (exists_at fileDir) in
  se_! (if found : bool then sret (Ret tt) else MkdirAll fileDir) in
  se_! call in
  append_file (FileName m) (Data m).
Fixpoint receive (out : bool) (iter : list delivery) (d : disk) : disk * option (go unit) :=
  match iter with
  | [] => (d, None)
  | Broken e :: _ => (d, Some (Fail e))
  | Nothing :: iter' => receive out iter' d
  | Garbled e :: _ => (d, Some (Fail e))
  | Deliver m :: iter' =>
    match Status m with
    | Finish => let '(d', r) := (if out then call else sret (Ret tt)) d in (d', Some r)
    | Running =>
      match Data m with
      | [] => receive out iter' d
      | _ => match write_message out m d with
             | (d', Ret _) => receive true iter' d'
             | (d', r) => (d', Some r)
             end
      end
    end
  end.

Definition move_entry (dir : path) (name : string) : SE disk unit :=
  let srcPath := dir ++ ["backup"%string; name] in
  let dstPath := dir ++ [name] in
  se! found <- sread (exists_at dstPath) in
  se_! (if found : bool then op (removed dstPath) else sret (Ret tt)) in
  op (moved srcPath dstPath).
Definition install (dir : path) : SE disk unit :=
  let backupPath := dir ++ ["backup"%string] in
  se! found <- sread (exists_at backupPath) in
  if negb found then sret (Fail (OtherErr "backup directory doesn't exist: %v"))
  else
    se_! call in
    se! files <- sread (names_in backupPath) in
    se_! sfor (move_entry dir) files in
    slogged (op (removed backupPath)).
Definition ApplySnapshot (dir : path) (iter : list delivery) (d : disk) : disk * option (go unit) :=
  match receive false iter d with
  | (d', Some (Ret _)) => let '(d2, r) := install dir d' in (d2, Some r)
  | x => x
  end.

(** [Store.ApplySnapshot], once the engine is closed: [rebuild] is [ReBuildEngine]. *)
Definition store_ApplySnapshot (rebuild : SE disk unit) (dir : path) (iter : list delivery) (d : disk) : disk * option (go unit) :=
  match op (removed dir) d with
  | (d1, Ret _) =>
    match ApplySnapshot dir iter d1 with
    | (d2, None) => (d2, None)
    | (d2, Some (Panic x)) => (d2, Some (Panic x))
    | (d2, Some _) => let '(d3, r) := rebuild d2 in (d3, Some r)
    end
  | (d1, r) => (d1, Some r)
  end.
End Follower.

(** ** Trees *)

Lemma fnode_induction (P : fnode -> Prop) :
  (forall data, P (File data)) -> (forall entries, Forall (fun e => P e.2) entries -> P (Dir entries)) -> forall x, P x.
Proof.
  intros HF HD. fix IH 1. intros [data|entries]; [apply HF|]. apply HD. induction entries as [|[n y] l IHl]; constructor; [apply IH | exact IHl].
Qed.

(** The names in a directory differ. *)
Inductive wf : fnode -> Prop :=
| wf_file data : wf (File data)
| wf_dir entries : NoDup entries.*1 -> Forall (fun e => wf e.2) entries -> wf (Dir entries).

Lemma files_below_dir (dir : path) (entries : list (string * fnode)) :
  files_below dir (Dir entries) = entries ≫= (fun e => files_below (dir ++ [e.1]) e.2).
Proof. cbn. induction entries as [|[n y] l IH]; [done|]. cbn. by rewrite IH. Qed.
Lemma find_entry_elem (name : string) (y : fnode) (entries : list (string * fnode)) :
  NoDup entries.*1 -> (name, y) ∈ entries <-> find_entry name entries = Some y.
Proof.
  induction entries as [|[n x] l IH]; intros Hnd; cbn; [split; [intros H; by apply not_elem_of_nil in H | done]|].
  apply NoDup_cons in Hnd as [Hn Hnd]. rewrite elem_of_cons. destruct (n =?s name) eqn:E.
  - apply string_eqb_eq in E as ->. split; [|intros [= ->]; by left]. intros [[= ->]|Hin]; [done|]. destruct Hn. apply list_elem_of_fmap. by exists (name, y).
  - apply string_eqb_neq in E. rewrite <- (IH Hnd). split; [intros [[= ? ?]|?]; [congruence | done] | by right].
Qed.

(** The files below a directory are those that [stat] finds. *)
Lemma files_below_stat (x : fnode) (dir p : path) (data : list Z) : wf x ->
  (p, data) ∈ files_below dir x <-> exists rel, p = dir ++ rel /\ stat x rel = Some (File data).
Proof.
  intros Hwf. revert dir p. induction x as [content|entries IH] using fnode_induction; intros dir p.
  - cbn. rewrite list_elem_of_singleton. split.
    + intros [= -> ->]. exists []. by rewrite app_nil_r.
    + intros ([|a rel] & -> & H); cbn in H; [|done]. injection H as ->. by rewrite app_nil_r.
  - inversion Hwf as [|? Hnd Hall]; subst. rewrite files_below_dir, list_elem_of_bind. rewrite Forall_forall in IH, Hall. split.
    + intros ([n y] & Hin & Hy). cbn in Hin. apply (IH (n, y) Hy (Hall _ Hy)) in Hin as (rel & -> & Hst). exists (n :: rel).
      split; [by rewrite <- app_assoc|]. cbn. apply (find_entry_elem n y entries Hnd) in Hy as ->. done.
    + intros ([|n rel] & -> & Hst); cbn in Hst; [done|]. destruct (find_entry n entries) as [y|] eqn:Ef; [|done]. cbn in Hst.
      apply (find_entry_elem n y entries Hnd) in Ef. exists (n, y). split; [|done]. apply (IH (n, y) Ef (Hall _ Ef)).
      exists rel. split; [by rewrite <- app_assoc | done].
Qed.
Lemma files_below_prefix (x : fnode) (dir p : path) : p ∈ (files_below dir x).*1 -> exists rel, p = dir ++ rel.
Proof.
  revert dir. induction x as [content|entries IH] using fnode_induction; intros dir.
  - cbn. rewrite list_elem_of_singleton. intros ->. exists []. by rewrite app_nil_r.
  - rewrite files_below_dir, list_elem_of_fmap. intros ([q data] & -> & Hin). apply list_elem_of_bind in Hin as ([n y] & Hin & Hy). cbn in Hin.
    rewrite Forall_forall in IH. destruct (IH (n, y) Hy (dir ++ [n])) as [rel Hrel]; [apply list_elem_of_fmap; by exists (q, data)|].
    exists (n :: rel). cbn in *. by rewrite Hrel, <- app_assoc.
Qed.
Lemma files_below_nodup (x : fnode) (dir : path) : wf x -> NoDup (files_below dir x).*1.
Proof.
  intros Hwf. revert dir. induction x as [content|entries IH] using fnode_induction; intros dir; [apply NoDup_singleton|].
  inversion Hwf as [|? Hnd Hall]; subst. rewrite files_below_dir. clear Hwf.
  induction entries as [|[n y] l IHl]; [apply NoDup_nil_2|]. cbn in *. apply NoDup_cons in Hnd as [Hn Hnd]. apply Forall_cons in IH as [IHy IH], Hall as [Hwy Hall].
  rewrite fmap_app. apply NoDup_app. split; [by apply IHy|]. split; [|by apply IHl]. intros p Hp Hq.
  apply files_below_prefix in Hp as [rel ->]. apply list_elem_of_fmap in Hq as ([q data] & Hpq & Hq). cbn in Hpq.
  apply list_elem_of_bind in Hq as ([n' y'] & Hq & Hin). cbn in Hq. destruct (files_below_prefix y' (dir ++ [n']) q) as [rel' Hrel].
  { apply list_elem_of_fmap. by exists (q, data). }
  rewrite <- Hpq, <- !app_assoc in Hrel. apply app_inv_head in Hrel. injection Hrel as -> _. apply Hn, list_elem_of_fmap. by exists (n', y').
Qed.

(** ** The messages of a snapshot *)

Definition part_of (p : path) (data : list Z) : SnapshotMsg := {| FileName := p; Data := data; Status := Running |}.
(** A file as the pieces it is sent in: an empty file is one empty piece. *)
Definition pieces (data : list Z) (parts : list (list Z)) : Prop := concat parts = data /\ (data = [] -> parts = [[]]) /\ (data <> [] -> Forall (fun x => x <> []) parts).
(** The messages for a list of files. *)
Inductive spells : list (path * list Z) -> list SnapshotMsg -> Prop :=
| spells_nil : spells [] [note Finish]
| spells_cons p data files parts msgs : pieces data parts -> spells files msgs -> spells ((p, data) :: files) ((part_of p <$> parts) ++ msgs).

(** Every file takes at most one message more than it has bytes. *)
Definition send_bound (files : list (path * list Z)) : nat := sum_list ((fun f => S (length f.2)) <$> files) + 1.

Section Sending.
Context (fs : path -> option fnode) (short : list Z -> Z -> Z).
Hypothesis full_reads : forall rest n, 0 <= n <= Z.of_nat (length rest) -> short rest n = n.

Lemma read_full (rest : list Z) (n : Z) : 0 <= n <= Z.of_nat (length rest) -> read_buffer short rest n = (drop (Z.to_nat n) rest, take (Z.to_nat n) rest).
Proof. intros Hn. unfold read_buffer. rewrite full_reads by done. rewrite Nat.sub_diag. cbn. by rewrite app_nil_r. Qed.

(** A file that is open, up to its end. *)
Lemma send_open (rest : list Z) (g : GammaSnapshot) (p : path) (fuel : nat) (msgs : list SnapshotMsg) :
  rest <> [] -> g_files g !! (g_index g - 1)%nat = Some p -> g_reader g = Some rest -> g_size g = Z.of_nat (length rest) ->
  (forall k, (fuel <= k)%nat -> send fs short k (at_file (g_index g) None 0 g) = Some msgs) ->
  exists parts, concat parts = rest /\ Forall (fun x => x <> []) parts /\
    forall k, (length rest + fuel <= k)%nat -> send fs short k g = Some ((part_of p <$> parts) ++ msgs).
Proof.
  remember (length rest) as len eqn:Hlen. revert rest g Hlen. induction (lt_wf len) as [len _ IH]. intros rest g Hlen Hne Hp Hr Hs Hend.
  set (n := Z.min buf_size (g_size g)).
  assert (0 < n <= Z.of_nat (length rest)) as Hn by (unfold n, buf_size; destruct rest; [done|]; cbn [length] in *; lia).
  assert (Next fs short g = (at_file (g_index g) (if g_size g - n =? 0 then None else Some (drop (Z.to_nat n) rest)) (g_size g - n) g,
                             Ret (Message (part_of p (take (Z.to_nat n) rest))))) as HN.
  { unfold Next. rewrite (proj2 (Z.eqb_neq (g_size g) 0)) by lia. rewrite andb_false_r, Hr. unfold send_chunk. fold n.
    rewrite read_full by lia. rewrite length_drop, Hp. replace (Z.of_nat (length rest) - Z.of_nat (length rest - Z.to_nat n)) with n by lia. done. }
  destruct (Z.eqb_spec (g_size g - n) 0) as [Hz|Hz].
  - exists [rest]. split; [cbn; apply app_nil_r|]. split; [by repeat constructor|]. intros [|k] Hk; [lia|]. cbn [send]. rewrite HN, Hz.
    rewrite Hend by lia. cbn. rewrite take_ge by lia. done.
  - destruct (IH (length (drop (Z.to_nat n) rest))) with (rest := drop (Z.to_nat n) rest) (g := at_file (g_index g) (Some (drop (Z.to_nat n) rest)) (g_size g - n) g)
      as (parts & Hc & Hall & Hk); cbn; [rewrite length_drop; lia | done | | done | done | rewrite length_drop; lia | exact Hend|].
    { intros E. apply (f_equal length) in E. rewrite length_drop in E. cbn in E. lia. }
    exists (take (Z.to_nat n) rest :: parts). cbn. rewrite Hc, take_drop. split; [done|]. split.
    { constructor; [|done]. intros E. apply (f_equal length) in E. rewrite length_take in E. cbn in E. lia. }
    intros [|k] Hle; [lia|]. cbn [send]. rewrite HN. rewrite length_drop in Hk. rewrite Hk by lia. done.
Qed.

(** All files that are left. *)
Lemma send_files (files : list (path * list Z)) (g : GammaSnapshot) (done : list path) :
  g_files g = done ++ files.*1 -> g_index g = length done -> g_reader g = None -> g_size g = 0 ->
  Forall (fun f => fs f.1 = Some (File f.2)) files ->
  exists msgs, spells files msgs /\ forall k, (send_bound files <= k)%nat -> send fs short k g = Some msgs.
Proof.
  revert g done. induction files as [|[p data] files IH]; intros g done Hf Hi Hr Hs Hall.
  - exists [note Finish]. split; [constructor|]. intros [|k] Hk; [cbn in Hk; lia|]. cbn. unfold Next. rewrite Hf, Hi, Hs. cbn [fmap list_fmap]. rewrite app_nil_r.
    rewrite (proj2 (Nat.leb_le _ _)) by lia. done.
  - apply Forall_cons in Hall as [Hd Hall]. cbn in Hd.
    destruct (IH (at_file (S (g_index g)) None 0 g) (done ++ [p])) as (msgs & Hsp & Hk); cbn; [rewrite Hf, <- app_assoc; done | rewrite Hi, length_app; cbn; lia | done..|].
    assert (g_files g !! g_index g = Some p) as Hp by (rewrite Hf, Hi, lookup_app_r, Nat.sub_diag by lia; done).
    assert (Next fs short g = send_chunk short (at_file (S (g_index g)) (Some data) (Z.of_nat (length data)) g) data) as HN.
    { unfold Next. rewrite Hr, Hp, Hd. rewrite (proj2 (Nat.leb_gt _ _)); [done|]. rewrite Hf, Hi, length_app. cbn. lia. }
    destruct data as [|b bs].
    + exists ((part_of p <$> [[]]) ++ msgs). split; [constructor; [repeat split; done | done]|]. intros [|k] Hle; [unfold send_bound in Hle; cbn in Hle; lia|].
      cbn [send]. rewrite HN. unfold send_chunk. cbn [at_file g_size g_index g_files length]. rewrite read_full by (unfold buf_size; cbn [length]; lia). cbn. rewrite Nat.sub_0_r, Hp.
      rewrite Hk by (unfold send_bound in *; cbn in Hle; lia). done.
    + destruct (send_open (b :: bs) (at_file (S (g_index g)) (Some (b :: bs)) (Z.of_nat (length (b :: bs))) g) p (send_bound files) msgs) as (parts & Hc & Hne & Hsend);
        [done | cbn; by rewrite Nat.sub_0_r | done | done | exact Hk|].
      exists ((part_of p <$> parts) ++ msgs). split; [constructor; [repeat split; done | done]|]. intros k Hle.
      assert (send fs short k g = send fs short k (at_file (S (g_index g)) (Some (b :: bs)) (Z.of_nat (length (b :: bs))) g)) as ->.
      { destruct k as [|k]; [done|]. cbn [send]. rewrite HN. unfold Next. cbn [at_file g_size g_reader]. rewrite (proj2 (Z.eqb_neq _ 0)) by (cbn; lia). rewrite andb_false_r. done. }
      apply Hsend. unfold send_bound in *. cbn in *. lia.
Qed.
End Sending.

(** ** Receiving them *)

Definition dir_of (p : path) : path := take (length p - 1) p.
(** The disk after more files were written. *)
Record grown (d d' : disk) : Prop := { grown_dirs : d_dirs d ⊆ d_dirs d'; grown_files : forall q, is_Some (d_files d !! q) -> is_Some (d_files d' !! q) }.
#[local] Instance grown_preorder : PreOrder grown.
Proof.
  split; [intros d; split; auto|]. intros a b c [D1 F1] [D2 F2]. split; [set_solver | auto].
Qed.
Lemma grown_exists (p : path) (d d' : disk) : grown d d' -> exists_at p d = true -> exists_at p d' = true.
Proof. intros [D F]. unfold exists_at. rewrite !orb_true_iff, !bool_decide_eq_true. intros [H|H]; [left; set_solver | right; auto]. Qed.

Section Receiving.
Context (fault : nat -> option error).
Hypothesis no_fault : forall k, fault k = None.

Lemma op_ok (f : disk -> disk) (d : disk) : exists d1, d_files d1 = d_files d /\ d_dirs d1 = d_dirs d /\ op fault f d = (f d1, Ret tt).
Proof. unfold op, sbind, call, sstep. rewrite no_fault. eexists. split; [|split; [|reflexivity]]; done. Qed.
Lemma fs_call_ok (d : disk) : exists d1, d_files d1 = d_files d /\ d_dirs d1 = d_dirs d /\ call fault d = (d1, Ret tt).
Proof. unfold call. rewrite no_fault. eexists. split; [|split; [|reflexivity]]; done. Qed.

Lemma write_message_ok (out : bool) (p : path) (data : list Z) (d : disk) : exists d', write_message fault out (part_of p data) d = (d', Ret tt) /\
  d_files d' = <[p := default [] (d_files d !! p) ++ data]> (d_files d) /\ d_dirs d ⊆ d_dirs d' /\ exists_at (dir_of p) d' = true /\
  (forall q, q ∈ d_dirs d' -> q ∈ d_dirs d \/ q ∈ parents (dir_of p)).
Proof.
  unfold write_message. cbn [part_of FileName Data].
  assert (exists d1, (if out then call fault else sret (Ret tt)) d = (d1, Ret tt) /\ d_files d1 = d_files d /\ d_dirs d1 = d_dirs d) as (d1 & H1 & F1 & D1).
  { destruct out; [destruct (fs_call_ok d) as (d1 & ? & ? & ?) | exists d]; eauto. }
  unfold sbind at 1. rewrite H1. unfold sbind at 1, sread. fold (dir_of p).
  assert (exists d2, (if exists_at (dir_of p) d1 then sret (Ret tt) else MkdirAll fault (dir_of p)) d1 = (d2, Ret tt) /\ d_files d2 = d_files d /\ d_dirs d ⊆ d_dirs d2 /\
            exists_at (dir_of p) d2 = true /\ (forall q, q ∈ d_dirs d2 -> q ∈ d_dirs d \/ q ∈ parents (dir_of p))) as (d2 & H2 & F2 & D2 & X2 & N2).
  { destruct (exists_at (dir_of p) d1) eqn:X; [exists d1; rewrite F1, D1; repeat split; auto|]. unfold MkdirAll.
    destruct (op_ok (on_dirs (fun s => list_to_set (parents (dir_of p)) ∪ s)) d1) as (d2 & F2 & D2 & ->). eexists. split; [reflexivity|]. cbn. rewrite F2, D2, F1, D1.
    split; [done|]. split; [set_solver|]. split; [|intros q [Hq%elem_of_list_to_set|Hq]%elem_of_union; auto]. unfold exists_at. cbn. apply orb_true_iff. left. apply bool_decide_eq_true. apply elem_of_union_l, elem_of_list_to_set.
    clear. induction (dir_of p) as [|a l IH]; [by left|]. right. apply list_elem_of_fmap. by exists l. }
  unfold sbind at 1. rewrite H2. unfold sbind at 1. destruct (fs_call_ok d2) as (d3 & F3 & D3 & ->). unfold append_file.
  match goal with |- context [op fault ?f d3] => destruct (op_ok f d3) as (d4 & F4 & D4 & H4); rewrite H4 end.
  eexists. split; [reflexivity|]. cbn. rewrite F4, D4, F3, D3, F2. split; [done|]. split; [done|]. split; [|done].
  revert X2. unfold exists_at. cbn. rewrite F4, D4, F3, D3, F2, !orb_true_iff, !bool_decide_eq_true. intros [X|X]; [by left|]. right.
  rewrite lookup_insert. case_decide; [eauto | done].
Qed.

(** The pieces of one file that is not empty. *)
Lemma receive_parts (p : path) (parts : list (list Z)) (iter : list delivery) (out : bool) (d : disk) : Forall (fun x => x <> []) parts ->
  exists d' out', receive fault out ((Deliver <$> (part_of p <$> parts)) ++ iter) d = receive fault out' iter d' /\ grown d d' /\
    (parts <> [] -> exists_at (dir_of p) d' = true) /\ (forall q, q ∈ d_dirs d' -> q ∈ d_dirs d \/ q ∈ parents (dir_of p)) /\
    d_files d' !! p = match parts with [] => d_files d !! p | _ => Some (default [] (d_files d !! p) ++ concat parts) end /\
    (forall q, q <> p -> d_files d' !! q = d_files d !! q).
Proof.
  revert out d. induction parts as [|x parts IH]; intros out d Hall; [exists d, out; repeat split; auto|].
  apply Forall_cons in Hall as [Hx Hall]. destruct x as [|b bs]; [done|].
  destruct (write_message_ok out p (b :: bs) d) as (d1 & Hw & F1 & D1 & X1 & N1).
  assert (grown d d1) as G1. { split; [done|]. intros q Hq. rewrite F1, lookup_insert. case_decide; eauto. }
  destruct (IH true d1 Hall) as (d' & out' & Hr & G & _ & N & Hp & Hq). exists d', out'.
  split; [cbn -[write_message]; by rewrite Hw|]. split; [transitivity d1; done|]. split; [intros _; by apply (grown_exists _ d1)|]. split; [intros q Hqd; destruct (N q Hqd); auto|]. split.
  - rewrite Hp, F1, lookup_insert_eq. destruct parts as [|y parts]; [cbn; by rewrite app_nil_r | cbn; by rewrite <- app_assoc].
  - intros q Hne. rewrite Hq, F1 by done. by apply lookup_insert_ne.
Qed.

Definition stored (data : list Z) : option (list Z) := match data with [] => None | _ => Some data end.

(** All files: those that are not empty are there afterwards. *)
Lemma receive_files (files : list (path * list Z)) (msgs : list SnapshotMsg) (out : bool) (d : disk) :
  spells files msgs -> NoDup files.*1 -> (forall p, p ∈ files.*1 -> d_files d !! p = None) ->
  exists d', receive fault out (Deliver <$> msgs) d = (d', Some (Ret tt)) /\ grown d d' /\
    (forall p data, (p, data) ∈ files -> d_files d' !! p = stored data /\ (data <> [] -> exists_at (dir_of p) d' = true)) /\
    (forall q, q ∉ files.*1 -> d_files d' !! q = d_files d !! q) /\
    (forall q, q ∈ d_dirs d' -> q ∈ d_dirs d \/ exists p, p ∈ files.*1 /\ q ∈ parents (dir_of p)).
Proof.
  intros Hsp. revert out d. induction Hsp as [|p data files parts msgs (Hc & He & Hne) _ IH]; intros out d Hnd Hfree.
  - cbn. assert (exists d1, (if out then call fault else sret (Ret tt)) d = (d1, Ret tt) /\ d_files d1 = d_files d /\ d_dirs d1 = d_dirs d) as (d1 & H1 & F1 & D1).
    { destruct out; [destruct (fs_call_ok d) as (d1 & ? & ? & ?) | exists d]; eauto. }
    rewrite H1. exists d1. split; [done|]. split; [split; [by rewrite D1 | by rewrite F1]|]. split; [intros ? ? H; by apply not_elem_of_nil in H|].
    rewrite F1, D1. auto.
  - cbn in Hnd. apply NoDup_cons in Hnd as [Hp Hnd].
    assert (exists d1 out1, receive fault out (Deliver <$> ((part_of p <$> parts) ++ msgs)) d = receive fault out1 (Deliver <$> msgs) d1 /\ grown d d1 /\
              d_files d1 !! p = stored data /\ (data <> [] -> exists_at (dir_of p) d1 = true) /\ (forall q, q <> p -> d_files d1 !! q = d_files d !! q) /\
              (forall q, q ∈ d_dirs d1 -> q ∈ d_dirs d \/ q ∈ parents (dir_of p))) as (d1 & out1 & Hr & G1 & F1 & X1 & Q1 & N1).
    { rewrite fmap_app. destruct data as [|b bs].
      - rewrite (He eq_refl). exists d, out. cbn. split; [done|]. split; [done|]. split; [apply Hfree; by left|]. auto.
      - destruct (receive_parts p parts (Deliver <$> msgs) out d) as (d1 & out1 & Hr & G1 & X1 & N1 & F1 & Q1); [by apply Hne|].
        exists d1, out1. split; [done|]. split; [done|]. assert (parts <> []) as Hparts by (intros ->; done).
        split; [|split; [auto | split; done]]. rewrite F1, (Hfree p) by (by left). destruct parts; [done|]. cbn [default]. cbn in Hc. cbn. by rewrite Hc. }
    rewrite Hr. destruct (IH out1 d1 Hnd) as (d' & Hrec & G & Hin & Hout & N).
    { intros q Hq. rewrite Q1 by (intros ->; done). apply Hfree. by right. }
    exists d'. split; [done|]. split; [transitivity d1; done|]. split; [|split].
    + intros q x Hq. apply elem_of_cons in Hq as [[= -> ->]|Hq]; [|by apply Hin]. rewrite (Hout p) by done. split; [done|]. intros Hx. apply (grown_exists _ d1); auto.
    + intros q Hq. apply not_elem_of_cons in Hq as [Hqp Hq]. rewrite Hout, Q1; done.
    + intros q Hq. destruct (N q Hq) as [Hq1|(p1 & Hp1 & Hq1)]; [destruct (N1 q Hq1); [by left | right; exists p; split; [by left | done]] | right; exists p1; split; [by right | done]].
Qed.
End Receiving.

(** ** Moving them into place *)

Lemma strip_app (dir rel : path) : strip dir (dir ++ rel) = Some rel.
Proof. induction dir as [|a dir IH]; [done|]. cbn. by rewrite (proj2 (string_eqb_eq a a) eq_refl). Qed.
Lemma strip_Some (dir p rel : path) : strip dir p = Some rel <-> p = dir ++ rel.
Proof.
  split; [|intros ->; apply strip_app]. revert p. induction dir as [|a dir IH]; intros p; cbn; [congruence|].
  destruct p as [|b p]; [done|]. destruct (a =?s b) eqn:E; [|done]. apply string_eqb_eq in E as ->. intros H. by rewrite (IH p H).
Qed.
Lemma under_false (dir p : path) : under dir p = false <-> forall rel, p <> dir ++ rel.
Proof.
  unfold under. rewrite bool_decide_eq_false. split.
  - intros H rel ->. apply H. rewrite strip_app. eauto.
  - intros H [rel Hrel]. apply strip_Some in Hrel. by apply (H rel).
Qed.
Lemma under_app (dir rel : path) : under dir (dir ++ rel) = true.
Proof. unfold under. apply bool_decide_eq_true. rewrite strip_app. eauto. Qed.

Lemma outside_lookup (p q : path) (m : gmap path (list Z)) : filter (fun '(k, _) => under p k = false) m !! q = if under p q then None else m !! q.
Proof.
  destruct (under p q) eqn:E.
  - apply map_lookup_filter_None. right. intros x _. by rewrite E.
  - destruct (m !! q) as [x|] eqn:Eq; [apply map_lookup_filter_Some; done | apply map_lookup_filter_None; by left].
Qed.
Lemma removed_files (p q : path) (d : disk) : d_files (removed p d) !! q = if under p q then None else d_files d !! q.
Proof. apply outside_lookup. Qed.
(** A move to where nothing is. *)
Lemma moved_lookup (src dst : path) (m : gmap path (list Z)) (q : path) :
  under src dst = false -> under dst src = false -> (forall rel, m !! (dst ++ rel) = None) ->
  moved_files src dst m !! q = match strip dst q with Some rel => m !! (src ++ rel) | None => if under src q then None else m !! q end.
Proof.
  intros H1 H2 Hfree. unfold moved_files. set (l := omap _ _).
  assert (forall k x, (k, x) ∈ l <-> exists rel, k = dst ++ rel /\ m !! (src ++ rel) = Some x) as Hl.
  { intros k x. unfold l. rewrite list_elem_of_omap. split.
    - intros ([q0 x0] & Hin & He). apply elem_of_map_to_list in Hin. destruct (strip src q0) as [rel|] eqn:Es; [|done]. cbn in He. injection He as <- <-.
      apply strip_Some in Es as ->. eauto.
    - intros (rel & -> & Hm). exists (src ++ rel, x). split; [by apply elem_of_map_to_list|]. by rewrite strip_app. }
  assert (NoDup l.*1) as Hnd.
  { unfold l. pose proof (NoDup_fst_map_to_list m) as Hnd. revert Hnd. clear. induction (map_to_list m) as [|[q0 x0] l IH]; [intros; apply NoDup_nil_2|]. cbn.
    intros [Hq0 Hnd]%NoDup_cons. destruct (strip src q0) as [rel|] eqn:Es; cbn; [|by apply IH]. apply NoDup_cons. split; [|by apply IH].
    intros Hin. apply Hq0. apply list_elem_of_fmap in Hin as ([k x] & Hk & Hin). cbn in Hk. subst k. apply list_elem_of_omap in Hin as ([q1 x1] & Hin & He).
    destruct (strip src q1) as [rel1|] eqn:Es1; [|done]. cbn in He. injection He as He _. apply app_inv_head in He as ->.
    apply strip_Some in Es as ->, Es1 as ->. apply list_elem_of_fmap. by exists (src ++ rel, x1). }
  assert (forall k, (list_to_map l : gmap path (list Z)) !! k = strip dst k ≫= (fun rel => m !! (src ++ rel))) as Hlook.
  { intros k. destruct ((list_to_map l : gmap path (list Z)) !! k) as [x|] eqn:E.
    - apply elem_of_list_to_map_2, Hl in E as (rel & -> & Hm). by rewrite strip_app.
    - destruct (strip dst k) as [rel|] eqn:Es; [|done]. apply strip_Some in Es as ->. cbn. destruct (m !! (src ++ rel)) as [x|] eqn:Em; [|done].
      assert ((list_to_map l : gmap path (list Z)) !! (dst ++ rel) = Some x) as He; [|congruence]. apply elem_of_list_to_map_1; [done|]. apply Hl. eauto. }
  rewrite lookup_union, Hlook, outside_lookup. destruct (strip dst q) as [rel|] eqn:Es; cbn.
  - apply strip_Some in Es as ->. rewrite Hfree. destruct (under src (dst ++ rel)); by destruct (m !! _).
  - destruct (under src q); [done|]. by destruct (m !! q).
Qed.

Section Installing.
Context (fault : nat -> option error) (dir : path) (content : path -> option (list Z)).
Hypothesis no_fault : forall k, fault k = None.

(** The files below [dir] once the entries [moved] were moved: [content] is what is in the backup, by paths relative to it. *)
Definition placed (names : list string) (d0 d : disk) : Prop :=
  (forall rel, d_files d !! (dir ++ rel) =
     match rel with
     | [] => None
     | n :: rel' => if bool_decide (n = "backup"%string)
                    then match rel' with [] => None | name :: _ => if bool_decide (name ∈ names) then None else content rel' end
                    else if bool_decide (n ∈ names) then content rel else None
     end) /\
  (forall q, under dir q = false -> d_files d !! q = d_files d0 !! q).

Lemma move_entry_ok (name : string) (names : list string) (d0 d : disk) : name <> "backup"%string -> name ∉ names -> placed names d0 d ->
  exists d', move_entry fault dir name d = (d', Ret tt) /\ placed (name :: names) d0 d'.
Proof.
  intros Hb Hname [Hin Hout]. unfold move_entry. unfold sbind at 1, sread.
  assert (forall rel, d_files d !! (dir ++ name :: rel) = None) as Hfree by (intros rel; rewrite Hin, !bool_decide_false by done; done).
  assert (exists d1, (if exists_at (dir ++ [name]) d then op fault (removed (dir ++ [name])) else sret (Ret tt)) d = (d1, Ret tt) /\ forall q, d_files d1 !! q = d_files d !! q) as (d1 & H1 & F1).
  { destruct (exists_at _ d); [|by exists d]. destruct (op_ok fault no_fault (removed (dir ++ [name])) d) as (d1 & F1 & _ & ->). eexists. split; [reflexivity|]. intros q.
    rewrite removed_files, F1. destruct (under (dir ++ [name]) q) eqn:E; [|done]. apply bool_decide_eq_true in E as [rel E]. apply strip_Some in E as ->.
    rewrite <- app_assoc. symmetry. apply Hfree. }
  unfold sbind at 1. rewrite H1. destruct (op_ok fault no_fault (moved (dir ++ ["backup"%string; name]) (dir ++ [name])) d1) as (d2 & F2 & _ & ->).
  eexists. split; [reflexivity|].
  assert (forall q, d_files (moved (dir ++ ["backup"%string; name]) (dir ++ [name]) d2) !! q =
            match strip (dir ++ [name]) q with Some rel => d_files d !! ((dir ++ ["backup"%string; name]) ++ rel) | None => if under (dir ++ ["backup"%string; name]) q then None else d_files d !! q end) as Hlook.
  { intros q. cbn [moved on_dirs on_files d_files]. rewrite moved_lookup, F2, !F1.
    - destruct (strip (dir ++ [name]) q); [by rewrite F1 | done].
    - apply under_false. intros rel H. rewrite <- app_assoc in H. apply app_inv_head in H. injection H as H _. done.
    - apply under_false. intros rel H. rewrite <- app_assoc in H. apply app_inv_head in H. injection H as H _. done.
    - intros rel. rewrite F2, F1, <- app_assoc. apply Hfree. }
  split.
  - intros rel. rewrite Hlook. destruct (strip (dir ++ [name]) (dir ++ rel)) as [r|] eqn:Es.
    + apply strip_Some in Es. rewrite <- app_assoc in Es. apply app_inv_head in Es as ->. cbn [app]. rewrite <- app_assoc. cbn [app]. rewrite Hin.
      rewrite (bool_decide_true ("backup"%string = "backup"%string)) by done. rewrite (bool_decide_false (name ∈ names)) by done.
      rewrite (bool_decide_false (name = "backup"%string)) by done. by rewrite (bool_decide_true (name ∈ name :: names)) by (by left).
    + destruct (under (dir ++ ["backup"%string; name]) (dir ++ rel)) eqn:Eu.
      * apply bool_decide_eq_true in Eu as [r Eu]. apply strip_Some in Eu. rewrite <- app_assoc in Eu. apply app_inv_head in Eu as ->. cbn [app].
        rewrite (bool_decide_true ("backup"%string = "backup"%string)) by done. by rewrite (bool_decide_true (name ∈ name :: names)) by (by left).
      * rewrite Hin. destruct rel as [|n rel']; [done|]. destruct (decide (n = "backup"%string)) as [->|Hn].
        -- rewrite !bool_decide_true by done. destruct rel' as [|n' rel'']; [done|]. destruct (decide (n' = name)) as [->|Hn'].
           ++ exfalso. apply (proj1 (under_false _ _) Eu rel''). by rewrite <- app_assoc.
           ++ by rewrite (bool_decide_ext (n' ∈ name :: names) (n' ∈ names)) by (rewrite elem_of_cons; naive_solver).
        -- rewrite !(bool_decide_false (n = "backup"%string)) by done. destruct (decide (n = name)) as [->|Hn'].
           ++ exfalso. assert (strip (dir ++ [name]) (dir ++ name :: rel') = Some rel') as He by (apply strip_Some; by rewrite <- app_assoc). congruence.
           ++ by rewrite (bool_decide_ext (n ∈ name :: names) (n ∈ names)) by (rewrite elem_of_cons; naive_solver).
  - intros q Hq. rewrite Hlook. destruct (strip (dir ++ [name]) q) as [r|] eqn:Es.
    + apply strip_Some in Es as ->. exfalso. apply (proj1 (under_false _ _) Hq (name :: r)). by rewrite <- app_assoc.
    + destruct (under (dir ++ ["backup"%string; name]) q) eqn:Eu; [|by apply Hout]. apply bool_decide_eq_true in Eu as [r Eu]. apply strip_Some in Eu as ->.
      exfalso. apply (proj1 (under_false _ _) Hq ("backup"%string :: name :: r)). by rewrite <- app_assoc.
Qed.
Lemma move_entries_ok (todo names : list string) (d0 d : disk) : "backup"%string ∉ todo -> NoDup todo -> (forall n, n ∈ todo -> n ∉ names) -> placed names d0 d ->
  exists d', sfor (move_entry fault dir) todo d = (d', Ret tt) /\ placed (rev todo ++ names) d0 d'.
Proof.
  revert names d. induction todo as [|n todo IH]; intros names d Hb Hnd Hdis Hpl; [by exists d|].
  apply not_elem_of_cons in Hb as [Hb1 Hb2]. apply NoDup_cons in Hnd as [Hn Hnd].
  destruct (move_entry_ok n names d0 d) as (d1 & H1 & P1); [congruence | apply Hdis; by left | done|].
  cbn [sfor]. unfold sbind. rewrite H1. destruct (IH (n :: names) d1) as (d' & H' & P'); [done..| |done|].
  - intros m Hm Hin. apply elem_of_cons in Hin as [->|Hin]; [done | apply (Hdis m); [by right | done]].
  - exists d'. split; [done|]. cbn. by rewrite <- app_assoc.
Qed.

Lemma names_in_file (p : path) (d : disk) (n : string) (rel : path) : is_Some (d_files d !! (p ++ n :: rel)) -> n ∈ names_in p d.
Proof.
  intros [x Hx]. unfold names_in. apply elem_of_remove_dups, list_elem_of_omap. exists (p ++ n :: rel). rewrite strip_app. split; [|done].
  apply elem_of_app. left. apply list_elem_of_fmap. exists (p ++ n :: rel, x). split; [done | by apply elem_of_map_to_list].
Qed.
Lemma names_in_elem (p : path) (d : disk) (n : string) : n ∈ names_in p d -> exists rel, is_Some (d_files d !! (p ++ n :: rel)) \/ p ++ n :: rel ∈ d_dirs d.
Proof.
  unfold names_in. intros Hn. apply elem_of_remove_dups, list_elem_of_omap in Hn as (q & Hq & Hs). destruct (strip p q) as [[|m rel]|] eqn:E; cbn in Hs; [done| |done].
  injection Hs as ->. apply strip_Some in E as ->. exists rel. apply elem_of_app in Hq as [Hq|Hq]; [left | right; by apply elem_of_elements].
  apply list_elem_of_fmap in Hq as ([k x] & -> & Hq). apply elem_of_map_to_list in Hq. eauto.
Qed.

(** Everything in the backup is moved. *)
Lemma install_ok (d0 d : disk) : placed [] d0 d -> exists_at (dir ++ ["backup"%string]) d = true -> "backup"%string ∉ names_in (dir ++ ["backup"%string]) d ->
  (forall rel, content ("backup"%string :: rel) = None) -> content [] = None ->
  exists d', install fault dir d = (d', Ret tt) /\ (forall rel, d_files d' !! (dir ++ rel) = content rel) /\ (forall q, under dir q = false -> d_files d' !! q = d_files d0 !! q).
Proof.
  intros Hpl Hex Hb Hcb Hc0. unfold install. unfold sbind at 1, sread. rewrite Hex. cbn [negb]. unfold sbind at 1.
  destruct (fs_call_ok fault no_fault d) as (d1 & F1 & D1 & ->). unfold sbind at 1.
  assert (names_in (dir ++ ["backup"%string]) d1 = names_in (dir ++ ["backup"%string]) d) as -> by (unfold names_in; by rewrite F1, D1).
  set (names := names_in (dir ++ ["backup"%string]) d) in *.
  destruct (move_entries_ok names [] d0 d1) as (d2 & H2 & [Hin Hout]); [done | apply NoDup_remove_dups | intros n _; apply not_elem_of_nil | destruct Hpl as [P1 P2]; split; rewrite F1; done|].
  unfold sbind at 1. rewrite H2. unfold slogged. destruct (op_ok fault no_fault (removed (dir ++ ["backup"%string])) d2) as (d3 & F3 & _ & ->).
  eexists. split; [reflexivity|]. split.
  - intros rel. rewrite removed_files, F3. destruct (under (dir ++ ["backup"%string]) (dir ++ rel)) eqn:E.
    + apply bool_decide_eq_true in E as [r E]. apply strip_Some in E. rewrite <- app_assoc in E. apply app_inv_head in E as ->. symmetry. apply Hcb.
    + rewrite Hin. destruct rel as [|n rel]; [done|]. destruct (decide (n = "backup"%string)) as [->|Hn].
      { exfalso. apply (proj1 (under_false _ _) E rel). by rewrite <- app_assoc. }
      rewrite (bool_decide_false (n = "backup"%string)) by done. destruct (bool_decide (n ∈ rev names ++ [])) eqn:Em; [done|]. apply bool_decide_eq_false in Em.
      destruct (content (n :: rel)) as [x|] eqn:Ec; [|done]. exfalso. apply Em. rewrite app_nil_r, <- Permutation_rev. apply (names_in_file _ d n rel).
      rewrite <- app_assoc. cbn [app]. destruct Hpl as [P1 _]. rewrite P1. rewrite (bool_decide_true ("backup"%string = "backup"%string)) by done. cbn. rewrite Ec. eauto.
  - intros q Hq. rewrite removed_files, F3. destruct (under (dir ++ ["backup"%string]) q) eqn:E; [|by apply Hout].
    apply bool_decide_eq_true in E as [r E]. apply strip_Some in E as ->. exfalso. apply (proj1 (under_false _ _) Hq ("backup"%string :: r)). by rewrite <- app_assoc.
Qed.
End Installing.

(** ** From the leader to the follower *)

Definition leader_fs (dir : path) (entries : list (string * fnode)) (p : path) : option fnode := strip (dir ++ ["backup"%string]) p ≫= stat (Dir entries).
Definition snapshot_of (sn : Z) (dir : path) (entries : list (string * fnode)) : GammaSnapshot :=
  {| g_sn := sn; g_index := 0; g_files := GetAllFileNames (dir ++ ["backup"%string]) entries; g_reader := None; g_size := 0 |}.
Definition content_of (entries : list (string * fnode)) (rel : path) : option (list Z) :=
  match stat (Dir entries) rel with Some (File data) => stored data | _ => None end.

Lemma parents_prefix (q p : path) : q ∈ parents p -> exists rel, p = q ++ rel.
Proof.
  revert q. induction p as [|a p IH]; intros q; cbn; [rewrite list_elem_of_singleton; intros ->; by exists []|].
  rewrite elem_of_cons. intros [->|Hq]; [by exists (a :: p)|]. apply list_elem_of_fmap in Hq as (q' & -> & Hq). destruct (IH q' Hq) as [rel ->]. by exists rel.
Qed.
Lemma dir_of_prefix (p : path) : exists rel, p = dir_of p ++ rel.
Proof. exists (drop (length p - 1) p). unfold dir_of. by rewrite take_drop. Qed.
Lemma stat_head (entries : list (string * fnode)) (n : string) (rel : path) : is_Some (stat (Dir entries) (n :: rel)) -> n ∈ entries.*1.
Proof.
  cbn. destruct (find_entry n entries) as [y|] eqn:E; [|intros [? H]; done]. intros _. clear rel. induction entries as [|[m z] l IH]; [done|].
  cbn in *. destruct (m =?s n) eqn:Em; [apply string_eqb_eq in Em as ->; by left | right; by apply IH].
Qed.

(** What is received, before it is moved. *)
Lemma received_placed (fault : nat -> option error) (dir : path) (entries : list (string * fnode)) (msgs : list SnapshotMsg) (d : disk) :
  (forall k, fault k = None) -> wf (Dir entries) -> "backup"%string ∉ entries.*1 -> (exists b bs, find_entry indexSn entries = Some (File (b :: bs))) ->
  spells (files_below (dir ++ ["backup"%string]) (Dir entries)) msgs -> (forall q, under dir q = true -> d_files d !! q = None /\ q ∉ d_dirs d) ->
  exists d', receive fault false (Deliver <$> msgs) d = (d', Some (Ret tt)) /\ placed dir (content_of entries) [] d d' /\
    exists_at (dir ++ ["backup"%string]) d' = true /\ "backup"%string ∉ names_in (dir ++ ["backup"%string]) d'.
Proof.
  intros Hf Hwf Hb (b & bs & Hsn) Hsp Hempty. set (base := dir ++ ["backup"%string]) in *.
  assert (forall rel, under dir (base ++ rel) = true) as Hunder by (intros rel; unfold base; rewrite <- app_assoc; apply under_app).
  assert (forall p, p ∈ (files_below base (Dir entries)).*1 -> exists n rel, p = base ++ n :: rel /\ n ∈ entries.*1) as Hhead.
  { intros p Hp. apply list_elem_of_fmap in Hp as ([p' x] & -> & Hp). apply (files_below_stat _ _ _ _ Hwf) in Hp as ([|n rel] & -> & Hst); [done|].
    exists n, rel. split; [done|]. apply (stat_head _ n rel). by rewrite Hst. }
  destruct (receive_files fault Hf (files_below base (Dir entries)) msgs false d Hsp (files_below_nodup _ _ Hwf)) as (d' & Hr & G & Hin & Hout & Hdirs).
  { intros p Hp. destruct (Hhead p Hp) as (n & rel & -> & _). by apply Hempty. }
  exists d'. split; [done|].
  assert (forall rel, d_files d' !! (base ++ rel) = content_of entries rel) as Hbase.
  { intros rel. unfold content_of. destruct (stat (Dir entries) rel) as [[x|es]|] eqn:Est.
    - apply Hin. apply (files_below_stat _ _ _ _ Hwf). eauto.
    - rewrite Hout; [by apply Hempty|]. intros Hp. apply list_elem_of_fmap in Hp as ([p' x] & Hp' & Hp). cbn in Hp'. subst p'.
      apply (files_below_stat _ _ _ _ Hwf) in Hp as (rel' & He & Hst). apply app_inv_head in He as <-. congruence.
    - rewrite Hout; [by apply Hempty|]. intros Hp. apply list_elem_of_fmap in Hp as ([p' x] & Hp' & Hp). cbn in Hp'. subst p'.
      apply (files_below_stat _ _ _ _ Hwf) in Hp as (rel' & He & Hst). apply app_inv_head in He as <-. congruence. }
  split; [split|split].
  - intros rel. destruct (strip base (dir ++ rel)) as [r|] eqn:Es.
    + apply strip_Some in Es. rewrite Es, Hbase. unfold base in Es. rewrite <- app_assoc in Es. apply app_inv_head in Es as ->. cbn [app].
      rewrite bool_decide_true by done. destruct r as [|n r]; [done|]. by rewrite bool_decide_false by (apply not_elem_of_nil).
    + rewrite Hout.
      * destruct (Hempty (dir ++ rel)) as [-> _]; [apply under_app|]. destruct rel as [|n rel]; [done|]. destruct (decide (n = "backup"%string)) as [->|Hn].
        -- exfalso. assert (strip base (dir ++ "backup"%string :: rel) = Some rel) as He by (apply strip_Some; unfold base; by rewrite <- app_assoc). congruence.
        -- rewrite (bool_decide_false (n = "backup"%string)) by done. by rewrite bool_decide_false by (apply not_elem_of_nil).
      * intros Hp. destruct (Hhead _ Hp) as (n & r & He & _). rewrite He, strip_app in Es. done.
  - intros q Hq. apply Hout. intros Hp. destruct (Hhead _ Hp) as (n & r & -> & _). by rewrite Hunder in Hq.
  - destruct (Hin (base ++ [indexSn]) (b :: bs)) as [_ Hx]; [apply (files_below_stat _ _ _ _ Hwf); exists [indexSn]; split; [done|]; cbn; by rewrite Hsn|].
    specialize (Hx ltac:(done)). unfold dir_of in Hx. rewrite length_app in Hx. cbn in Hx. by rewrite Nat.add_sub, take_app_length in Hx.
  - intros Hn. apply names_in_elem in Hn as (rel & [Hn|Hn]).
    + rewrite Hbase in Hn. unfold content_of in Hn. destruct (stat (Dir entries) ("backup"%string :: rel)) as [x|] eqn:Est; [|by destruct Hn].
      apply Hb, (stat_head _ _ rel). rewrite Est. eauto.
    + destruct (Hdirs _ Hn) as [Hn'|(p & Hp & Hq)]; [by apply Hempty in Hn'|]. destruct (Hhead p Hp) as (n & r & -> & Hne).
      apply parents_prefix in Hq as [r1 Hq]. destruct (dir_of_prefix (base ++ n :: r)) as [r2 Hq2]. rewrite Hq, <- !app_assoc in Hq2. apply app_inv_head in Hq2. cbn in Hq2. congruence.
Qed.

Lemma find_entry_add (name n : string) (x : fnode) (entries : list (string * fnode)) : find_entry name entries = None ->
  find_entry n (add_entry name x entries) = if name =?s n then Some x else find_entry n entries.
Proof.
  induction entries as [|[m y] l IH]; intros Hn; cbn; [done|]. cbn in Hn. destruct (m =?s name) eqn:E; [done|].
  destruct (String.ltb name m); [done|]. cbn. destruct (m =?s n) eqn:Em; [|by apply IH].
  apply string_eqb_eq in Em as ->. destruct (name =?s n) eqn:En; [|done]. apply string_eqb_eq in En as ->. by rewrite (proj2 (string_eqb_eq n n) eq_refl) in E.
Qed.
Lemma add_entry_perm (name : string) (x : fnode) (entries : list (string * fnode)) : add_entry name x entries ≡ₚ (name, x) :: entries.
Proof. induction entries as [|[m y] l IH]; cbn; [done|]. destruct (String.ltb name m); [done|]. rewrite IH. apply Permutation_swap. Qed.
Lemma find_entry_none (name : string) (entries : list (string * fnode)) : find_entry name entries = None -> name ∉ entries.*1.
Proof.
  induction entries as [|[m y] l IH]; cbn; intros H; [apply not_elem_of_nil|]. destruct (m =?s name) eqn:E; [done|].
  apply string_eqb_neq in E. apply not_elem_of_cons. split; [congruence | auto].
Qed.

(** A snapshot that was made lists the files of the backup, which has a sequence number. *)
Lemma NewSnapshot_ready (werr : option error) (dir : path) (made entries : list (string * fnode)) (base : option (list Z)) (g : GammaSnapshot) :
  NewSnapshot werr dir None (Some made) base = (entries, Ret g) -> wf (Dir made) -> "backup"%string ∉ made.*1 -> (forall es, find_entry indexSn made <> Some (Dir es)) ->
  g = snapshot_of (g_sn g) dir entries /\ wf (Dir entries) /\ "backup"%string ∉ entries.*1 /\ exists b bs, find_entry indexSn entries = Some (File (b :: bs)).
Proof.
  unfold NewSnapshot. intros H Hwf Hb Hnd. destruct (if bool_decide _ then werr else None); [done|].
  set (es := if bool_decide _ then _ else _) in H. injection H as <- H.
  assert (wf (Dir es) /\ "backup"%string ∉ es.*1 /\ exists data, find_entry indexSn es = Some (File data)) as (Hw & Hb' & data & Hd).
  { unfold es. destruct (find_entry indexSn made) as [y|] eqn:E.
    - rewrite bool_decide_false by done. split; [done|]. split; [done|]. rewrite E. destruct y as [data|l]; [eauto | by destruct (Hnd l)].
    - rewrite bool_decide_true by done. pose proof (add_entry_perm indexSn (File (default (bytes_of "0") base)) made) as Hperm.
      inversion Hwf as [|? Hn Hall]; subst. split; [|split].
      + constructor; [rewrite Hperm; cbn; apply NoDup_cons; split; [by apply find_entry_none | done]|]. rewrite Hperm. constructor; [constructor | done].
      + rewrite Hperm. cbn. apply not_elem_of_cons. done.
      + eexists. rewrite find_entry_add by done. by rewrite (proj2 (string_eqb_eq indexSn indexSn) eq_refl). }
  rewrite Hd in H. destruct (ParseInt (of_bytes data)) as [z|] eqn:Ep; [|done]. destruct (z <? 0); [done|]. injection H as <-.
  split; [done|]. split; [done|]. split; [done|]. destruct data as [|b bs]; [done | eauto].
Qed.

(** A snapshot sent from a leader to a follower with the same path, when neither's file system fails and reads fill their buffer: the leader's calls of [Next] end, with at most one message more per file than it has bytes, and the
    follower that receives those messages, having removed its own data whatever it was, rebuilds its engine on exactly the files of the leader's backup, each with its
    content and at its place - except for empty files, which are not created.  (C15) *)
Theorem snapshot_roundtrip (fault : nat -> option error) (short : list Z -> Z -> Z) (rebuild : SE disk unit) (dir : path) (made entries : list (string * fnode)) (base : option (list Z)) (g : GammaSnapshot) (d : disk) (fuel : nat) :
  (forall k, fault k = None) -> (forall rest n, 0 <= n <= Z.of_nat (length rest) -> short rest n = n) ->
  NewSnapshot None dir None (Some made) base = (entries, Ret g) -> wf (Dir made) -> "backup"%string ∉ made.*1 -> (forall es, find_entry indexSn made <> Some (Dir es)) ->
  (send_bound (files_below (dir ++ ["backup"%string]) (Dir entries)) <= fuel)%nat ->
  exists msgs d', send (leader_fs dir entries) short fuel g = Some msgs /\
    store_ApplySnapshot fault rebuild dir (Deliver <$> msgs) d = (let '(d3, r) := rebuild d' in (d3, Some r)) /\
    (forall rel, d_files d' !! (dir ++ rel) = content_of entries rel) /\ (forall q, under dir q = false -> d_files d' !! q = d_files d !! q).
Proof.
  intros Hf Hfull Hnew Hwf0 Hb0 Hdir Hfuel. destruct (NewSnapshot_ready None dir made entries base g Hnew Hwf0 Hb0 Hdir) as (Hg & Hwf & Hb & Hsn). rewrite Hg.
  clear base Hnew Hg Hwf0 Hb0 Hdir. set (base := dir ++ ["backup"%string]) in *. set (sn := g_sn g).
  destruct (send_files (leader_fs dir entries) short Hfull (files_below base (Dir entries)) (snapshot_of sn dir entries) []) as (msgs & Hsp & Hsend); [done..| |].
  { apply Forall_forall. intros [p x] Hp. apply (files_below_stat _ _ _ _ Hwf) in Hp as (rel & -> & Hst). cbn -[stat]. unfold leader_fs. fold base. by rewrite strip_app. }
  unfold store_ApplySnapshot. destruct (op_ok fault Hf (removed dir) d) as (d0 & F0 & D0 & ->).
  destruct (received_placed fault dir entries msgs (removed dir d0) Hf Hwf Hb Hsn Hsp) as (d1 & Hr & Hpl & Hex & Hnames).
  { intros q Hq. rewrite removed_files, Hq. split; [done|]. cbn. rewrite elem_of_filter. intros [H _]. congruence. }
  destruct (install_ok fault dir (content_of entries) Hf (removed dir d0) d1 Hpl Hex Hnames) as (d2 & Hi & Hin & Hout).
  { intros rel. unfold content_of. destruct (stat (Dir entries) ("backup"%string :: rel)) as [x|] eqn:Est; [|done]. exfalso. apply Hb, (stat_head _ _ rel). rewrite Est. eauto. }
  { done. }
  exists msgs, d2. split; [by apply Hsend|]. split; [unfold ApplySnapshot; rewrite Hr, Hi; done|]. split; [done|].
  intros q Hq. rewrite (Hout q Hq), removed_files, Hq, F0. done.
Qed.

(** A snapshot that breaks off at once: the follower has removed its data and received nothing, and reports what rebuilding the engine reports, which knows nothing of the failure. *)
Theorem broken_snapshot_reported (fault : nat -> option error) (rebuild : SE disk unit) (dir : path) (e : error) (iter : list delivery) (d : disk) :
  (forall k, fault k = None) ->
  exists d', store_ApplySnapshot fault rebuild dir (Broken e :: iter) d = (let '(d3, r) := rebuild d' in (d3, Some r)) /\
    forall q, d_files d' !! q = if under dir q then None else d_files d !! q.
Proof.
  intros Hf. unfold store_ApplySnapshot. destruct (op_ok fault Hf (removed dir) d) as (d0 & F0 & _ & ->). cbn.
  exists (removed dir d0). split; [done|]. intros q. by rewrite removed_files, F0.
Qed.

Definition demo_backup : list (string * fnode) := [("data"%string, Dir [("x"%string, File [1; 2; 3])]); ("empty"%string, File [])].
Definition demo_sent : list (string * fnode) * go GammaSnapshot := NewSnapshot None ["p"%string] None (Some demo_backup) (Some [55]).
(** The backup of a leader at the command 7, and a follower with an old file. *)
Definition demo_disk : disk := {| d_files := {[ ["p"; "old"]%string := [9] ]}; d_dirs := {[ [] ; ["p"%string] ]}; d_calls := 0 |}.

Lemma snapshot_roundtrip_witness :
  exists msgs d', send (leader_fs ["p"%string] demo_sent.1) (fun _ n => n) 20 (snapshot_of 7 ["p"%string] demo_sent.1) = Some msgs /\
    store_ApplySnapshot (fun _ => None) (sret (Ret tt)) ["p"%string] (Deliver <$> msgs) demo_disk = (d', Some (Ret tt)) /\
    d_files d' !! ["p"; "data"; "x"]%string = Some [1; 2; 3] /\ d_files d' !! ["p"; "sn"]%string = Some [55] /\
    d_files d' !! ["p"; "old"]%string = None /\ d_files d' !! ["p"; "empty"]%string = None.
Proof.
  destruct (snapshot_roundtrip (fun _ => None) (fun _ n => n) (sret (Ret tt)) ["p"%string] demo_backup demo_sent.1 (Some [55]) (snapshot_of 7 ["p"%string] demo_sent.1) demo_disk 20)
    as (msgs & d' & Hs & Ha & Hin & _).
  - reflexivity.
  - intros rest n _. reflexivity.
  - vm_compute. reflexivity.
  - repeat constructor; set_solver.
  - set_solver.
  - done.
  - vm_compute. lia.
  - exists msgs, d'. split; [exact Hs|]. split; [exact Ha|].
    split; [exact (Hin ["data"; "x"]%string)|]. split; [exact (Hin ["sn"]%string)|]. split; [exact (Hin ["old"]%string) | exact (Hin ["empty"]%string)].
Defined.

Lemma broken_snapshot_reported_witness :
  exists d', store_ApplySnapshot (fun _ => None) (sret (Ret tt)) ["p"%string] [Broken (OtherErr "reset")] demo_disk = (d', Some (Ret tt)) /\ d_files d' !! ["p"; "old"]%string = None.
Proof.
  destruct (broken_snapshot_reported (fun _ => None) (sret (Ret tt)) ["p"%string] (OtherErr "reset") [] demo_disk) as (d' & H & Hq); [reflexivity|].
  exists d'. split; [exact H|]. rewrite Hq. vm_compute. reflexivity.
Defined.
