(* ===== verification/Engine.v ===== *)
(** * Closing an engine under load (internal/ps/engine/gammacb/gamma.go, reader.go, writer.go; internal/pkg/atomic/atomic_int64.go)

    An engine of the C++ library is a pointer that the calls of a partition share.  [Close] takes the pointer away and lets a goroutine wait until
    no call is counted before it frees the engine; [Load] puts a new engine in its place.  Reads, writes and searches count themselves before they read the pointer; the calls
    that go through [getEnginePtr] do not.  The goroutines of these calls, in any number and interleaving, as a step relation. *)

From S2P Require Import Prelude.
Open Scope nat_scope.

(** What the goroutines share: the pointer (engines are numbered as they are made), the number of engines, those freed, the counter and the flag. *)
Record gammaEngine : Type := { gamma : option nat; made : nat; freed : list nat; counter : nat; hasClosed : bool }.
Definition set_gamma (p : option nat) (e : gammaEngine) : gammaEngine :=
  {| gamma := p; made := made e; freed := freed e; counter := counter e; hasClosed := hasClosed e |}.
Definition count (f : nat -> nat) (e : gammaEngine) : gammaEngine :=
  {| gamma := gamma e; made := made e; freed := freed e; counter := f (counter e); hasClosed := hasClosed e |}.
Definition set_closed (b : bool) (e : gammaEngine) : gammaEngine :=
  {| gamma := gamma e; made := made e; freed := freed e; counter := counter e; hasClosed := b |}.
Definition free (p : nat) (e : gammaEngine) : gammaEngine :=
  {| gamma := gamma e; made := made e; freed := p :: freed e; counter := counter e; hasClosed := hasClosed e |}.
Definition make (e : gammaEngine) : gammaEngine :=
  {| gamma := gamma e; made := S (made e); freed := freed e; counter := counter e; hasClosed := hasClosed e |}.

(** Where a goroutine stands. *)
Inductive thread : Set :=
(** a read, write or search: before [counter.Incr], before the pointer is read, where it is read again after the check ([rereads]; [GetDoc] reads it there first), in the library, before [counter.Decr] *)
| CEnter (rereads : bool) | CIn (rereads : bool) | CChecked | CUse (p : option nat) | CLeave
(** [GetDoc], which reads the pointer without a check: before [counter.Incr] *)
| GEnter
(** a call that goes through [getEnginePtr] *)
| UEnter | UUse (p : nat)
(** [Close]: before it starts, with the pointer it read, its goroutine while it waits, while it frees, before it sets the flag *)
| KStart | KRead (p : option nat) | KWait (p : nat) | KFree (p : nat) | KMark
(** [Load]: before it starts, counted, with a loaded engine, before it resets the flag, before [counter.Decr] *)
| LEnter | LIn | LLoaded (q : nat) | LSet | LLeave
| Finished.

(** What the library answers to [Load]: it makes no engine, or one that does not load, or one that does. *)
Inductive answer : Set := NoEngine | NotLoaded | Loaded.
(** One step of a goroutine.  The last component is a call of [Close] that it makes. *)
Definition act (ok : answer) (t : thread) (e : gammaEngine) : option (gammaEngine * thread * list thread) :=
  match t with
  | CEnter r => Some (count S e, CIn r, [])
  | CIn r =>
    match gamma e with
    | None => Some (e, CLeave, [])
    | Some p => Some (e, if r then CChecked else CUse (Some p), [])
    end
  | CChecked => Some (e, CUse (gamma e), [])
  | CUse _ => Some (e, CLeave, [])
  | CLeave => Some (count pred e, Finished, [])
  | GEnter => Some (count S e, CChecked, [])
  | UEnter => if hasClosed e then Some (e, Finished, []) else Some (e, match gamma e with None => Finished | Some p => UUse p end, [])
  | UUse _ => Some (e, Finished, [])
  | KStart => Some (e, KRead (gamma e), [])
  | KRead p => Some (set_gamma None e, match p with None => Finished | Some p => KWait p end, [])
  | KWait p => if counter e =? 0 then Some (e, KFree p, []) else None
  | KFree p => Some (free p e, KMark, [])
  | KMark => Some (set_closed true e, Finished, [])
  | LEnter => Some (count S e, LIn, [])
  | LIn =>
    match ok with
    | NoEngine => Some (e, LLeave, [])
    | NotLoaded => Some (make e, LLeave, [KStart])
    | Loaded => Some (make e, LLoaded (made e), [])
    end
  | LLoaded q => Some (set_gamma (Some q) e, LSet, [])
  | LSet => Some (set_closed false e, LLeave, [])
  | LLeave => Some (count pred e, Finished, [])
  | Finished => None
  end.

Definition request (t : thread) : Prop := t = UEnter \/ t = KStart \/ t = LEnter \/ t = GEnter \/ exists r, t = CEnter r.
Definition system : Type := gammaEngine * list thread.
Inductive step : system -> system -> Prop :=
| step_request e ts t : request t -> step (e, ts) (e, ts ++ [t])
| step_act ok e e' l1 t t' l2 new : act ok t e = Some (e', t', new) -> step (e, l1 ++ t :: l2) (e', l1 ++ t' :: l2 ++ new).
(** A partition whose engine was just made. *)
Definition opened : system := ({| gamma := Some 0; made := 1; freed := []; counter := 0; hasClosed := false |}, []).

(** ** The invariant *)

Definition counted (t : thread) : bool :=
  match t with CIn _ | CChecked | CUse _ | CLeave | LIn | LLoaded _ | LSet | LLeave => true | _ => false end.
Definition n_counted (ts : list thread) : nat := length (List.filter counted ts).
Definition loading (t : thread) : option nat := match t with LLoaded q => Some q | _ => None end.
(** An engine that [Close] has taken out of the pointer, and one that it frees. *)
Definition taken (t : thread) : option nat := match t with KWait p | KFree p => Some p | _ => None end.
Definition freeing (t : thread) : option nat := match t with KFree p => Some p | _ => None end.
(** The engines a goroutine knows. *)
Definition known (t : thread) : option nat :=
  match t with CUse p => p | UUse p | KWait p | KFree p => Some p | KRead p => p | _ => None end.
Definition in_use (t : thread) : option nat := match t with CUse p => p | _ => None end.

(** What holds of one goroutine, and of two. *)
Record local (e : gammaEngine) (t : thread) : Prop := {
  local_known : forall p, known t = Some p -> p < made e;
  local_loading : forall q, loading t = Some q -> q < made e /\ q ∉ freed e /\ gamma e <> Some q;
  local_taken : forall p, taken t = Some p -> gamma e <> Some p;
  local_in_use : forall p, in_use t = Some p -> p ∉ freed e
}.
Definition apart (t u : thread) : Prop :=
  (forall p, freeing t = Some p -> in_use u <> Some p) /\ (forall q, loading t = Some q -> known u <> Some q /\ loading u <> Some q).
Definition compat (t u : thread) : Prop := apart t u /\ apart u t.
Definition sane (e : gammaEngine) : Prop := (forall p, gamma e = Some p -> p < made e /\ p ∉ freed e) /\ (forall p, p ∈ freed e -> p < made e).

Fixpoint pairwise (ts : list thread) : Prop := match ts with [] => True | t :: l => Forall (compat t) l /\ pairwise l end.
Record inv (s : system) : Prop := {
  inv_count : counter s.1 = n_counted s.2;
  inv_sane : sane s.1;
  inv_local : Forall (local s.1) s.2;
  inv_pairs : pairwise s.2
}.

Lemma n_counted_app (l1 l2 : list thread) : n_counted (l1 ++ l2) = n_counted l1 + n_counted l2.
Proof. unfold n_counted. by rewrite List.filter_app, length_app. Qed.
Lemma n_counted_cons (t : thread) (l : list thread) : n_counted (t :: l) = (if counted t then 1 else 0) + n_counted l.
Proof. unfold n_counted. cbn. by destruct (counted t). Qed.
Lemma idle_in_use (l : list thread) (u : thread) : n_counted l = 0 -> u ∈ l -> in_use u = None.
Proof.
  intros H0 Hu. apply list_elem_of_split in Hu as (l1 & l2 & ->). rewrite n_counted_app, n_counted_cons in H0. destruct u; try done. cbn in H0. lia.
Qed.

Lemma compat_sym (t u : thread) : compat t u -> compat u t.
Proof. intros [? ?]. by split. Qed.
(** The order of the goroutines does not matter. *)
Lemma pairwise_perm (ts ts' : list thread) : ts ≡ₚ ts' -> pairwise ts -> pairwise ts'.
Proof.
  induction 1 as [|t l l' Hp IH|t u l|]; cbn; [done|..|auto].
  - intros [Ht Hl]. split; [|auto]. by rewrite <- Hp.
  - rewrite !Forall_cons. intros [[H1 H2] [H3 H4]]. split; [split; [by apply compat_sym | done] | done].
Qed.
Lemma inv_perm (e : gammaEngine) (ts ts' : list thread) : ts ≡ₚ ts' -> inv (e, ts) -> inv (e, ts').
Proof.
  intros Hp [Ic Is Il Ip]. cbn in *. split; cbn; [|done|by rewrite <- Hp|by apply (pairwise_perm ts)].
  rewrite Ic. unfold n_counted. clear -Hp. induction Hp; cbn; repeat case_match; cbn; congruence.
Qed.

(** Goroutines that know no engine. *)
Definition plain (t : thread) : Prop := known t = None /\ loading t = None.
Lemma plain_parts (t : thread) : plain t -> taken t = None /\ in_use t = None /\ freeing t = None.
Proof. intros [K L]. by destruct t. Qed.
Lemma plain_local (e : gammaEngine) (t : thread) : plain t -> local e t.
Proof. intros Hp. destruct (plain_parts t Hp) as (T & U & _). destruct Hp as [K L]. split; intros p; rewrite ?K, ?L, ?T, ?U; done. Qed.
Lemma plain_compat (t u : thread) : plain t -> compat t u.
Proof.
  intros Hp. destruct (plain_parts t Hp) as (T & U & F). destruct Hp as [K L]. split; split; intros p; rewrite ?F, ?U, ?K, ?L; done.
Qed.

(** A step of one goroutine: it is enough to look at the goroutine and at the engine. *)
Lemma inv_replace (e e' : gammaEngine) (t t' : thread) (l : list thread) :
  inv (e, t :: l) -> counter e' + (if counted t then 1 else 0) = counter e + (if counted t' then 1 else 0) -> sane e' -> local e' t' ->
  (forall u, u ∈ l -> local e u -> compat t u -> local e' u /\ compat t' u) -> inv (e', t' :: l).
Proof.
  intros [Ic Is Il [Icp Ip]] Hc Hs Hl Hall. cbn [fst snd] in *. apply Forall_cons in Il as [_ Il]. rewrite n_counted_cons in Ic.
  split; cbn [fst snd pairwise]; [rewrite n_counted_cons; lia | done | constructor; [done|] | split; [|done]]; rewrite Forall_forall in *; intros u Hu; apply Hall; auto.
Qed.

(** Engines that stay, or are taken out of the pointer. *)
Lemma local_weaken (e e' : gammaEngine) (u : thread) : made e <= made e' -> freed e' = freed e -> (gamma e' = gamma e \/ gamma e' = None) -> local e u -> local e' u.
Proof.
  intros Hm Hf Hg [K L T U]. split; intros p Hp; rewrite ?Hf.
  - specialize (K p Hp). lia.
  - destruct (L p Hp) as (? & ? & ?). repeat split; [lia | done | destruct Hg; congruence].
  - specialize (T p Hp). destruct Hg; congruence.
  - auto.
Qed.
Lemma sane_weaken (e e' : gammaEngine) : made e <= made e' -> freed e' = freed e -> (gamma e' = gamma e \/ gamma e' = None) -> sane e -> sane e'.
Proof.
  intros Hm Hf Hg [G F]. split; intros p Hp; rewrite ?Hf in *.
  - destruct (G p) as [? ?]; [destruct Hg; congruence|]. split; [lia | done].
  - specialize (F p Hp). lia.
Qed.
(** A goroutine that reads the pointer, or keeps the engine it knows. *)
Lemma knows_local (e : gammaEngine) (t : thread) (p : nat) : known t = Some p -> loading t = None -> p < made e -> (taken t = Some p -> gamma e <> Some p) -> (in_use t = Some p -> p ∉ freed e) -> local e t.
Proof.
  intros K L Hp T U. split; intros q Hq.
  - congruence.
  - congruence.
  - assert (q = p) as -> by (destruct t; cbn in *; congruence). auto.
  - assert (q = p) as -> by (destruct t; cbn in *; congruence). auto.
Qed.
Lemma knows_compat (t u : thread) (p : nat) : known t = Some p -> loading t = None -> loading u <> Some p -> (freeing t = Some p -> in_use u <> Some p) ->
  (in_use t = Some p -> freeing u <> Some p) -> compat t u.
Proof.
  intros K L Lu F U. split; split; intros q Hq.
  - assert (q = p) as -> by (destruct t; cbn in *; congruence). auto.
  - congruence.
  - intros Hin. assert (q = p) as -> by (destruct t; cbn in *; congruence). by apply U.
  - split; congruence.
Qed.

Lemma read_compat (e : gammaEngine) (t u : thread) (p : nat) : gamma e = Some p -> known t = Some p -> loading t = None -> freeing t = None -> local e u -> compat t u.
Proof.
  intros Hg K L F [_ Lu Tu _]. apply (knows_compat t u p); try done.
  - intros E. by destruct (Lu p E) as (_ & _ & ?).
  - by rewrite F.
  - intros _ E. apply (Tu p); [by destruct u | done].
Qed.

Lemma inv_act (ok : answer) (t t' : thread) (e e' : gammaEngine) (new l : list thread) : act ok t e = Some (e', t', new) -> inv (e, t :: l) -> inv (e', t' :: l).
Proof.
  intros Hact Hinv. pose proof (inv_count _ Hinv) as Ic. pose proof (inv_sane _ Hinv) as Is. pose proof (inv_local _ Hinv) as Il. cbn [fst snd] in Ic, Is, Il.
  rewrite n_counted_cons in Ic. apply Forall_cons in Il as [It Il]. rewrite Forall_forall in Il.
  apply (inv_replace e e' t t' l Hinv).
  - destruct t; cbn in Hact; repeat case_match; simplify_eq; cbn; try lia; cbn in Ic; lia.
  - destruct t; cbn in Hact; repeat case_match; simplify_eq; try done; try (apply (sane_weaken e); cbn; auto; done).
    + destruct Is as [G F]. split; cbn; intros q Hq; [|apply elem_of_cons in Hq as [->|Hq]; [by apply (local_known _ _ It) | auto]].
      destruct (G q Hq). split; [done|]. apply not_elem_of_cons. split; [|done]. intros ->. by apply (local_taken _ _ It p).
    + destruct Is as [G F], (local_loading _ _ It q eq_refl) as (? & ? & ?). split; cbn; [intros p [= <-]|]; auto.
  - destruct t; cbn in Hact; repeat case_match; simplify_eq; try (by apply plain_local).
    + apply (knows_local _ _ n); try done; [by apply (proj1 Is)|]. intros _. by apply (proj1 Is).
    + destruct (gamma e') as [p|] eqn:Eg; [|by apply plain_local]. apply (knows_local _ _ p); try done; [by apply (proj1 Is)|]. intros _. by apply (proj1 Is).
    + apply (knows_local _ _ n); try done. by apply (proj1 Is).
    + destruct (gamma e') as [p|] eqn:Eg; [|by apply plain_local]. apply (knows_local _ _ p); try done. by apply (proj1 Is).
    + apply (knows_local _ _ n); try done. by apply (local_known _ _ It).
    + apply (knows_local _ _ p); try done; [by apply (local_known _ _ It)|]. intros _. by apply (local_taken _ _ It).
    + split; cbn; intros q Hq; try done. injection Hq as <-. destruct Is as [G F]. split; [lia|]. split; [intros Hf; specialize (F _ Hf); lia|]. intros Hg. destruct (G _ Hg). lia.
  - intros u Hu Lu Cu.
    destruct t; cbn in Hact; repeat case_match; simplify_eq;
      try (split; [first [exact Lu | apply (local_weaken e); cbn; auto; done] | by apply plain_compat]).
    + split; [done|]. by apply (read_compat e' _ u n).
    + split; [done|]. destruct (gamma e') as [p|] eqn:Eg; [by apply (read_compat e' _ u p) | by apply plain_compat].
    + split; [done|]. by apply (read_compat e' _ u n).
    + split; [done|]. destruct (gamma e') as [p|] eqn:Eg; [by apply (read_compat e' _ u p) | by apply plain_compat].
    + split; [apply (local_weaken e); cbn; auto; done|]. destruct Cu as [_ [_ Cl]]. apply (knows_compat _ u n); try done. intros Hl. by destruct (Cl n Hl).
    + split; [done|]. destruct Cu as [_ [_ Cl]]. apply (knows_compat _ u p); try done; [intros Hl; by destruct (Cl p Hl)|]. intros _.
      rewrite (idle_in_use l u); [done| |done]. apply Nat.eqb_eq in H0. lia.
    + split; [|by apply plain_compat]. destruct Lu as [K L T U], Cu as [[Cf _] [_ Cl]]. split; cbn; try done.
      * intros q Hq. destruct (L q Hq) as (? & ? & ?). split; [done|]. split; [|done]. apply not_elem_of_cons. split; [|done]. intros ->. by destruct (Cl p Hq).
      * intros q Hq. apply not_elem_of_cons. split; [|by apply U]. intros ->. by apply (Cf p).
    + split; [apply (local_weaken e); cbn; auto; lia|]. destruct Lu as [K L T U]. split; split; intros q Hq; cbn in *; try done.
      * injection Hq as <-. split; intros E; [specialize (K _ E); lia | destruct (L _ E); lia].
      * destruct (L q Hq) as [? _]. split; [done|]. intros [= E]. lia.
    + split; [|by apply plain_compat]. destruct Lu as [K L T U], Cu as [[_ Cl] _]. destruct (Cl q eq_refl) as [Ck Cll]. split; cbn; try done.
      * intros p Hp. destruct (L p Hp) as (? & ? & ?). repeat split; try done. congruence.
      * intros p Hp. assert (known u = Some p) as Hk by (destruct u; cbn in *; congruence). congruence.
Qed.

Lemma inv_opened : inv opened.
Proof. split; cbn; [done| |constructor|done]. split; cbn; [intros p [= <-]; split; [lia | apply not_elem_of_nil] | intros p Hp; by apply not_elem_of_nil in Hp]. Qed.
(** A request adds a goroutine that knows no engine. *)
Lemma inv_request (e : gammaEngine) (ts : list thread) (t : thread) : counted t = false -> plain t -> inv (e, ts) -> inv (e, t :: ts).
Proof.
  intros Hc Hp [Ic Is Il Ip]. split; cbn [fst snd pairwise] in *; [rewrite n_counted_cons, Hc; done | done | constructor; [by apply plain_local | done]|].
  split; [|done]. apply Forall_forall. intros u _. by apply plain_compat.
Qed.
Lemma inv_step (s s' : system) : step s s' -> inv s -> inv s'.
Proof.
  intros Hstep Hinv. destruct Hstep as [e ts t Hreq|ok e e' l1 t t' l2 new Hact].
  - apply (inv_perm e (t :: ts)); [apply Permutation_cons_append|]. apply inv_request; [..|done]; destruct Hreq as [->|[->|[->|[->|[r ->]]]]]; done.
  - assert (inv (e', t' :: l1 ++ l2)) as H1.
    { apply (inv_act ok t t' e e' new (l1 ++ l2) Hact). apply (inv_perm e (l1 ++ t :: l2)); [symmetry; apply Permutation_middle | done]. }
    assert (new = [] \/ new = [KStart]) as [->| ->] by (destruct t; cbn in Hact; repeat case_match; simplify_eq; auto).
    + apply (inv_perm e' (t' :: l1 ++ l2)); [rewrite app_nil_r; apply Permutation_middle | done].
    + apply (inv_perm e' (KStart :: t' :: l1 ++ l2)); [|by apply inv_request]. rewrite Permutation_middle, (app_comm_cons l2 [KStart] t').
      rewrite (app_assoc l1 (t' :: l2)). apply Permutation_cons_append.
Qed.

(** No read, write or search is ever inside an engine that was freed, for any interleaving of any number of calls, of closings, also several at a time, and of loads that fail or succeed: [Close] frees an engine only after
    every counted call that could have read its pointer has ended.  (C16) *)
Theorem counted_calls_safe (s : system) (i p : nat) : rtc step opened s -> s.2 !! i = Some (CUse (Some p)) -> p ∉ freed s.1.
Proof.
  intros Hrun Hi. assert (inv s) as Hinv.
  { clear Hi. assert (inv opened) as H0 by apply inv_opened. induction Hrun as [|a b c Hab _ IH]; [done | apply IH, (inv_step a); done]. }
  pose proof (inv_local _ Hinv) as Hl. rewrite Forall_lookup in Hl. by apply (local_in_use _ _ (Hl i _ Hi)).
Qed.

(** ** Interleavings *)

Inductive event : Set := Request (t : thread) | Act (i : nat) (ok : answer).
Definition requestb (t : thread) : bool := match t with UEnter | KStart | LEnter | GEnter | CEnter _ => true | _ => false end.
Definition exec (s : system) (ev : event) : option system :=
  match ev with
  | Request t => if requestb t then Some (s.1, s.2 ++ [t]) else None
  | Act i ok => t ← s.2 !! i; '(e', t', new) ← act ok t s.1; Some (e', take i s.2 ++ t' :: drop (S i) s.2 ++ new)
  end.
Definition run (evs : list event) (s : system) : option system := foldl (fun s ev => s ≫= (fun s => exec s ev)) (Some s) evs.

Lemma exec_step (s s' : system) (ev : event) : exec s ev = Some s' -> step s s'.
Proof.
  destruct s as [e ts]. destruct ev as [t|i ok]; cbn.
  - destruct (requestb t) eqn:E; [|done]. intros [= <-]. apply step_request. destruct t; try done; unfold request; eauto 7.
  - destruct (ts !! i) as [t|] eqn:Et; [|done]. cbn. destruct (act ok t e) as [[[e' t'] new]|] eqn:Ea; [|done]. cbn. intros [= <-].
    rewrite <- (take_drop_middle ts i t Et) at 1. by apply (step_act ok).
Qed.
Lemma run_steps (evs : list event) (s s' : system) : run evs s = Some s' -> rtc step s s'.
Proof.
  unfold run. assert (forall o, foldl (fun s ev => s ≫= (fun s => exec s ev)) o evs = Some s' -> exists s0, o = Some s0 /\ rtc step s0 s') as H.
  { induction evs as [|ev evs IH]; intros o; cbn; [intros ->; eauto using rtc_refl|]. intros H. destruct (IH _ H) as (s1 & H1 & Hr).
    destruct o as [s0|]; [|done]. cbn in H1. exists s0. split; [done|]. eapply rtc_l; [by apply (exec_step _ _ ev) | done]. }
  intros Hrun. destruct (H _ Hrun) as (s0 & [= <-] & Hr). done.
Qed.

(** What counting does not cover: a call through [getEnginePtr] (a change of indexes, the configuration, a backup, the status) can be inside an engine that is freed meanwhile; two closings at a time, since the
    pointer is read and reset in two steps, free the same engine twice; and a search, which reads the pointer again after its check, can pass nil to the library.  (C39) *)
Theorem uncounted_calls_unsafe :
  (exists s i p, rtc step opened s /\ s.2 !! i = Some (UUse p) /\ p ∈ freed s.1) /\
  (exists s p, rtc step opened s /\ freed s.1 = [p; p]) /\
  (exists s i, rtc step opened s /\ s.2 !! i = Some (CUse None)).
Proof.
  split; [|split].
  - assert (exists s, run [Request UEnter; Request KStart; Act 0 Loaded; Act 1 Loaded; Act 1 Loaded; Act 1 Loaded; Act 1 Loaded] opened = Some s /\ s.2 !! 0 = Some (UUse 0) /\ freed s.1 = [0]) as (s & Hr & Ht & Hf)
      by (eexists; split; [vm_compute; reflexivity | done]).
    exists s, 0, 0. split; [by apply run_steps in Hr|]. split; [done|]. rewrite Hf. by left.
  - assert (exists s, run [Request KStart; Request KStart; Act 0 Loaded; Act 1 Loaded; Act 0 Loaded; Act 1 Loaded; Act 0 Loaded; Act 1 Loaded; Act 0 Loaded; Act 1 Loaded] opened = Some s /\ freed s.1 = [0; 0]) as (s & Hr & Hf)
      by (eexists; split; [vm_compute; reflexivity | done]).
    exists s, 0. split; [by apply run_steps in Hr | done].
  - assert (exists s, run [Request (CEnter true); Act 0 Loaded; Act 0 Loaded; Request KStart; Act 1 Loaded; Act 1 Loaded; Act 0 Loaded] opened = Some s /\ s.2 !! 0 = Some (CUse None)) as (s & Hr & Ht)
      by (eexists; split; [vm_compute; reflexivity | done]).
    exists s, 0. split; [by apply run_steps in Hr | done].
Qed.

(** A write while the engine is closed: it holds up the closing. *)
Lemma counted_calls_safe_witness : exists s, rtc step opened s /\ s.2 !! 0 = Some (CUse (Some 0)) /\ s.2 !! 1 = Some (KWait 0) /\ 0 ∉ freed s.1.
Proof.
  destruct (run [Request (CEnter false); Act 0 Loaded; Act 0 Loaded; Request KStart; Act 1 Loaded; Act 1 Loaded] opened) as [s|] eqn:E; [|vm_compute in E; discriminate E].
  assert (s.2 = [CUse (Some 0); KWait 0]) as Hs by (vm_compute in E; injection E as <-; reflexivity).
  exists s. split; [exact (run_steps _ _ _ E)|]. rewrite Hs. split; [reflexivity|]. split; [reflexivity|].
  apply (counted_calls_safe s 0 0); [exact (run_steps _ _ _ E) | rewrite Hs; reflexivity].
Defined.
