(* ===== verification/Gamma.v ===== *)
(** * The engine of a partition: its table, and changes of schema and indexes (internal/ps/engine/gammacb/gamma.go, util.go;
      internal/ps/storage/raftstore/raft_state_machine.go, store_writer.go; internal/ps/storage/storebase.go)

    How the table of the C++ engine is made from a space, and how the commands of the raft log change the space and the indexes of a partition.  The space of
    the engine and the space of the store are pointers that may be the same, so spaces are objects of a small heap.  The C++ engine is
    a class: what it calls its indexes, and that a call that succeeds adds or removes the one it names. *)

From S2P Require Import Prelude.
From S2P Require Import Text.
From S2P Require Import Errors.
From S2P Require Import Keys.
From S2P Require Import Schema.
From S2P Require Import Partition.
From S2P Require Import Space.
From S2P Require Import Floats.
From S2P Require Import SortOrder.
From S2P Require Import Mapping.
From S2P Require Import Indexes.
From S2P Require Import SpaceUpdate.
From S2P Require Import Configs.
From S2P Require Import Effects.
Open Scope Z_scope.

(** ** The table of a space (util.go) *)

Inductive DataType : Set := D_INT | D_LONG | D_FLOAT | D_DOUBLE | D_STRING | D_STRINGARRAY.
Record FieldInfo : Set := { FI_Name : string; FI_DataType : DataType; FI_IsIndex : bool; FI_IndexType : Z }.
Record VectorInfo : Set := { VI_Name : string; VI_Dimension : Z; VI_StoreType : string; VI_StoreParam : string; VI_IsIndex : bool }.
Record IndexInfo : Set := { II_Name : string; II_Type : string; II_FieldName : string; II_FieldNames : list string; II_Params : string }.
Record Table : Set := {
  T_TableName : string; T_RefreshInterval : Z; T_EnableIdCache : bool; T_EnableRealtime : bool;
  T_Indexes : list IndexInfo; T_Fields : list FieldInfo; T_VectorsInfos : list VectorInfo
}.

(** The numbers of the options in the protocol. *)
Definition option_number (o : FieldOption) : Z :=
  match o with FO_Null => 0 | FO_Index => 1 | FO_Scalar => 2 | FO_Inverted => 3 | FO_InvertedList => 4 | FO_Bitmap => 5 | FO_Composite => 6 end.

Definition buildFieldInfo (name : string) (dataType : DataType) (option : FieldOption) : FieldInfo :=
  let isIndex := 0 <? option_number option in
  {| FI_Name := name; FI_DataType := dataType; FI_IsIndex := isIndex; FI_IndexType := if isIndex then option_number option else 0 |}.
Definition index_info (idx : Index) : IndexInfo :=
  {| II_Name := Index_Name idx; II_Type := Index_Type idx; II_FieldName := FieldName idx; II_FieldNames := FieldNames idx; II_Params := Params idx |}.
(** The index of a property of the older format. *)
Definition legacy_info (e : string * SpaceProperties) : option IndexInfo :=
  (fun idx => {| II_Name := Index_Name idx; II_Type := Index_Type idx; II_FieldName := e.1; II_FieldNames := []; II_Params := Params idx |}) <$> SP_Index e.2.

(** The type of a field in the engine, if it is no vector. *)
Definition data_type (t : FieldType) : option DataType :=
  match t with
  | FT_STRING => Some D_STRING | FT_STRINGARRAY => Some D_STRINGARRAY | FT_FLOAT => Some D_FLOAT | FT_DOUBLE => Some D_DOUBLE
  | FT_DATE | FT_LONG => Some D_LONG | FT_INT => Some D_INT | FT_VECTOR | FT_BOOL => None
  end.
Definition id_info : FieldInfo := {| FI_Name := "_id"; FI_DataType := D_STRING; FI_IsIndex := false; FI_IndexType := 0 |}.
Definition add_field (acc : list FieldInfo * list VectorInfo) (e : string * DocumentMapping) : go (list FieldInfo * list VectorInfo) :=
  match Doc_Field e.2 with
  | None => Panic NilDeref
  | Some f =>
    match data_type (FM_Type f) with
    | Some d => Ret (acc.1 ++ [buildFieldInfo e.1 d (FM_Option f)], acc.2)
    | None =>
      if bool_decide (FM_Type f = FT_VECTOR)
      then Ret (acc.1, acc.2 ++ [{| VI_Name := e.1; VI_Dimension := i32 (FM_Dimension f); VI_StoreType := FM_StoreType f; VI_StoreParam := FM_StoreParam f; VI_IsIndex := true |}])
      else Fail (verr PARAM_ERROR "space invalid field type: %s")
    end
  end.

(** [SortRangeField] ranges over the fields by descending name. *)
Definition by_name (l : list (string * DocumentMapping)) : list (string * DocumentMapping) :=
  merge_sort (fun a b => Is_true (negb (String.ltb a.1 b.1))) l.

Section Table.
Context (ord : gmap string SpaceProperties -> list (string * SpaceProperties)).
Definition mapping2Table (space : Space) (pid : Z) (m : IndexMapping) : go Table :=
  let indexes := match S_Indexes space with
                 | [] => omap legacy_info (ord (S_SpaceProperties space))
                 | idxs => index_info <$> idxs
                 end in
  let! acc := ofold add_field ([id_info], []) (by_name (map_to_list (IM_fieldCacher m))) in
  match acc.2 with
  | [] => Fail (verr PARAM_ERROR "create table has no vector field")
  | _ => Ret {| T_TableName := S_Name space +:+ "-" +:+ pretty pid; T_RefreshInterval := default DefaultRefreshInterval (S_RefreshInterval space);
                T_EnableIdCache := default DefaultEnableIdCache (S_EnableIdCache space); T_EnableRealtime := default false (S_EnableRealtime space);
                T_Indexes := indexes; T_Fields := acc.1; T_VectorsInfos := acc.2 |}
  end.

Lemma add_fields_run (l : list (string * DocumentMapping)) (acc acc' : list FieldInfo * list VectorInfo) : ofold add_field acc l = Ret acc' ->
  (FI_Name <$> acc'.1) ++ (VI_Name <$> acc'.2) ≡ₚ ((FI_Name <$> acc.1) ++ (VI_Name <$> acc.2)) ++ l.*1 /\
  Forall (fun e => exists f, Doc_Field e.2 = Some f /\ FM_Type f <> FT_BOOL) l.
Proof.
  revert acc. induction l as [|[n d] l IH]; intros acc H; cbn [ofold] in H.
  { simplify_eq. cbn. rewrite app_nil_r. by split; [|constructor]. }
  inv_ret.
  apply IH in H as [Hp Hf]. unfold add_field in Hm. cbn [fst snd] in Hm. destruct (Doc_Field d) as [f|] eqn:Ed; [|done].
  destruct (data_type (FM_Type f)) as [t|] eqn:Et; [|case_bool_decide as Hv; [|done]]; simplify_eq; cbn [fst snd] in *; rewrite Hp, fmap_app; cbn.
  - split; [rewrite <- !(assoc_L (++)); cbn; by rewrite (Permutation_middle (VI_Name <$> _)) | constructor; [|done]]. exists f. split; [done|]. cbn in *. by intros Hb; rewrite Hb in Et.
  - split; [by rewrite <- !(assoc_L (++)) | constructor; [|done]]. exists f. split; [done|]. cbn in *. by rewrite Hv.
Qed.

(** The table of a space has exactly the fields of its mapping, after the key [_id]: each is a scalar field or a vector, at least one is a vector, and none is boolean (the master accepts boolean fields, and
    the mapping has a type for them, but no partition of such a space can be made). *)
Theorem table_fields_exact (space : Space) (pid : Z) (m : IndexMapping) (t : Table) : mapping2Table space pid m = Ret t ->
  (FI_Name <$> T_Fields t) ++ (VI_Name <$> T_VectorsInfos t) ≡ₚ "_id"%string :: (map_to_list (IM_fieldCacher m)).*1 /\ T_VectorsInfos t <> [] /\
  forall n d, IM_fieldCacher m !! n = Some d -> exists f, Doc_Field d = Some f /\ FM_Type f <> FT_BOOL.
Proof.
  unfold mapping2Table. intros H. inv_ret. destruct a as [fs vs]. cbn [snd] in H. assert (vs <> []) as Hne by by destruct vs.
  assert (T_Fields t = fs /\ T_VectorsInfos t = vs) as [-> ->] by (destruct vs; [done|]; by simplify_eq).
  apply add_fields_run in Hm as [Hp Hf]. cbn in Hp. assert (by_name (map_to_list (IM_fieldCacher m)) ≡ₚ map_to_list (IM_fieldCacher m)) as Hperm by apply merge_sort_Permutation.
  rewrite Hperm in Hp, Hf. split; [done|]. split; [done|]. intros n d Hd. rewrite Forall_forall in Hf. apply (Hf (n, d)). by apply elem_of_map_to_list.
Qed.
End Table.

(** ** The engine of a partition (gamma.go) *)

(** The C++ engine: the names of its indexes, the creation of a table, the loading of its data, and the calls that add and remove an index; a status other than 0 is an error. *)
Class GammaAPI (E : Type) : Type := {
  names : E -> gset string;
  CreateTable : E -> Table -> E * Z;
  LoadData : E -> E * Z;
  AddFieldIndexWithParams : E -> string -> list string -> string -> string -> E * Z;
  RemoveFieldIndex : E -> string -> E * Z;
  add_ok : forall e name fields type params e', AddFieldIndexWithParams e name fields type params = (e', 0) -> names e' = {[ name ]} ∪ names e;
  add_fails : forall e name fields type params e' c, AddFieldIndexWithParams e name fields type params = (e', c) -> c <> 0 -> names e' = names e;
  remove_ok : forall e name e', RemoveFieldIndex e name = (e', 0) -> names e' = names e ∖ {[ name ]};
  remove_fails : forall e name e' c, RemoveFieldIndex e name = (e', c) -> c <> 0 -> names e' = names e
}.

Section Gamma.
Context {E : Type} `{HG : GammaAPI E}.
Context (ord : gmap string SpaceProperties -> list (string * SpaceProperties)).
Context (unmarshal_fields : string -> go (list Field)) (unmarshal_array : string -> go (list json)) (decode_field : json -> go field_tmp).

(** A partition: the objects of its spaces, the engine with its space, mapping and pointer, the space of the store, the file [meta.txt], and the number of calls to the file system. *)
Record gstore : Type := {
  g_heap : list Space; g_space : nat; g_mapping : IndexMapping; g_engine : option E; g_closed : bool;
  g_base : nat; g_meta : option Space; g_calls : nat
}.
Definition put_g (heap : list Space) (space : nat) (m : IndexMapping) (e : option E) (base : nat) (meta : option Space) (s : gstore) : gstore :=
  {| g_heap := heap; g_space := space; g_mapping := m; g_engine := e; g_closed := g_closed s; g_base := base; g_meta := meta; g_calls := g_calls s |}.
Definition set_engine (e : E) (s : gstore) : gstore := put_g (g_heap s) (g_space s) (g_mapping s) (Some e) (g_base s) (g_meta s) s.
(** An assignment to a field of the object the engine points to. *)
Definition on_engine_space (f : Space -> Space) (s : gstore) : gstore := put_g (alter f (g_space s) (g_heap s)) (g_space s) (g_mapping s) (g_engine s) (g_base s) (g_meta s) s.
Definition new_object (x : Space) (s : gstore) : gstore := put_g (g_heap s ++ [x]) (g_space s) (g_mapping s) (g_engine s) (g_base s) (g_meta s) s.
Definition SetSpace (ref : nat) (s : gstore) : gstore := put_g (g_heap s) (g_space s) (g_mapping s) (g_engine s) ref (g_meta s) s.
(** [GetSpace] of the engine and of the store. *)
Definition engine_space (s : gstore) : option Space := g_heap s !! g_space s.
Definition base_space (s : gstore) : option Space := g_heap s !! g_base s.

(** [New], once the library has made an engine; [saved]: whether the directory had files. *)
Definition New (space : Space) (pid : Z) (e : E) (saved : bool) : go (E * IndexMapping) :=
  let! m := Space2Mapping unmarshal_array decode_field (S_Fields space) in
  let! table := mapping2Table ord space pid m in
  let '(e1, code) := CreateTable e table in
  if negb (code =? 0) then Fail (verr PARAM_ERROR "create engine table err:[%s]")
  else if saved then
    let '(e2, code) := LoadData e1 in
    if negb (code =? 0) then Fail (verr INTERNAL_ERROR "load data err code:[%d]") else Ret (e2, m)
  else Ret (e1, m).

Definition deref (ref : nat) : SE gstore Space := fun s => (s, match g_heap s !! ref with Some x => Ret x | None => Panic NilDeref end).
Definition getEnginePtr : SE gstore E := fun s =>
  (s, if g_closed s then Fail (verr PARTITION_IS_CLOSED "engine is closed, partition:[%d]")
      else match g_engine s with None => Fail (verr INTERNAL_ERROR "engine pointer is nil, partition:[%d]") | Some e => Ret e end).

(** *** Fields *)

Definition check_field (updated : gmap string SpaceProperties) (e : string * SpaceProperties) : go unit :=
  match updated !! e.1 with
  | None => Fail (verr PARAM_ERROR "field removal not supported for field:[%s]")
  | Some p => guard_err (negb (bool_decide (SP_FieldType e.2 = SP_FieldType p))) (verr PARAM_ERROR "field type change not supported for field:[%s]")
  end.
Definition UpdateMapping (ref : nat) : SE gstore unit :=
  se! space <- (fun s => deref (g_space s) s) in
  se! updatedSpace <- deref ref in
  se! current <- sret (match UnmarshalPropertyJSON unmarshal_fields (S_Fields space) with Fail e => Fail (verr PARAM_ERROR "unmarshal current space properties:[%s] has err:[%s]") | x => x end) in
  se! updated <- sret (match UnmarshalPropertyJSON unmarshal_fields (S_Fields updatedSpace) with Fail e => Fail (verr PARAM_ERROR "unmarshal updated space properties:[%s] has err:[%s]") | x => x end) in
  se_! sret (ofold (fun _ e => check_field updated e) tt (ord current)) in
  se_! sret (guard_err (existsb (fun e => bool_decide (current !! e.1 = None)) (ord updated)) (verr PARAM_ERROR "field addition not supported for field:[%s]")) in
  se! newIndexMapping <- sret (match Space2Mapping unmarshal_array decode_field (S_Fields updatedSpace) with Fail e => Fail (verr INTERNAL_ERROR "failed to create new index mapping: %v") | x => x end) in
  sstep (fun s => put_g (g_heap s) ref newIndexMapping (g_engine s) (g_base s) (g_meta s) s).

(** *** Indexes *)

Definition addFieldIndex (idx : option Index) : SE gstore unit :=
  se! e <- getEnginePtr in
  match idx with
  | None => sret (Fail (verr PARAM_ERROR "addFieldIndex: index or index.Name is empty"))
  | Some idx =>
    if Index_Name idx =?s "" then sret (Fail (verr PARAM_ERROR "addFieldIndex: index or index.Name is empty"))
    else
      let fieldNames := match FieldNames idx with [] => if FieldName idx =?s "" then [] else [FieldName idx] | l => l end in
      match fieldNames with
      | [] => sret (Fail (verr PARAM_ERROR "addFieldIndex: index [%s] has no fields"))
      | _ =>
        let indexType := if Index_Type idx =?s "" then "SCALAR"%string else Index_Type idx in
        let '(e', code) := AddFieldIndexWithParams e (Index_Name idx) fieldNames indexType (Params idx) in
        se_! sstep (set_engine e') in
        sret (guard_err (negb (code =? 0)) (verr INTERNAL_ERROR "add field index failed: %s"))
      end
  end.
Definition removeFieldIndex (indexName : string) : SE gstore unit :=
  se! e <- getEnginePtr in
  if indexName =?s "" then sret (Fail (verr PARAM_ERROR "removeFieldIndex: indexName is empty"))
  else
    let '(e', code) := RemoveFieldIndex e indexName in
    se_! sstep (set_engine e') in
    sret (guard_err (negb (code =? 0)) (verr INTERNAL_ERROR "remove field index failed: %s")).

(** The indexes that are not in the list yet. *)
Fixpoint append_new (have : gset string) (l : list Index) (indexes : list (option Index)) : list Index :=
  match indexes with
  | [] => l
  | None :: indexes' => append_new have l indexes'
  | Some idx :: indexes' =>
    if (Index_Name idx =?s "") || bool_decide (Index_Name idx ∈ have) then append_new have l indexes'
    else append_new ({[ Index_Name idx ]} ∪ have) (l ++ [idx]) indexes'
  end.
Definition appendSpaceIndexes (indexes : list (option Index)) (x : Space) : Space :=
  set_S_Indexes (append_new (list_to_set (Index_Name <$> S_Indexes x)) (S_Indexes x) indexes) x.
Definition removeSpaceIndex (name : string) (x : Space) : Space :=
  set_S_Indexes (List.filter (fun idx => negb (Index_Name idx =?s name)) (S_Indexes x)) x.

(** An error that is wrapped. *)
Definition wrapped {A} (msg : string) (m : SE gstore A) : SE gstore A := fun s => match m s with (s', Fail _) => (s', Fail (verr INTERNAL_ERROR msg)) | x => x end.
Definition AddIndexes (indexes : list (option Index)) : SE gstore unit :=
  se_! sfor (fun idx => wrapped "failed to add index %s: %v" (addFieldIndex idx)) indexes in
  sstep (on_engine_space (appendSpaceIndexes indexes)).
Definition RemoveIndex (indexName : string) : SE gstore unit :=
  se_! wrapped "failed to remove index %s: %v" (removeFieldIndex indexName) in
  sstep (on_engine_space (removeSpaceIndex indexName)).

(** ** Commands of the raft log (raft_state_machine.go) *)

(** The payloads after decoding, where that succeeds. *)
Inductive IndexChange : Type := ADD_INDEX (indexes : option (list (option Index))) | REMOVE_INDEX (name : string) | UnknownChange.
Inductive RaftCommand : Type := UPDATESPACE (space : option Space) | INDEXCHANGE (ic : option IndexChange).

(** The outcome of the k-th write of [meta.txt]. *)
Context (save : nat -> option error).
Definition SavePartitionMeta (x : Space) : SE gstore unit := fun s =>
  let s' := {| g_heap := g_heap s; g_space := g_space s; g_mapping := g_mapping s; g_engine := g_engine s; g_closed := g_closed s; g_base := g_base s; g_meta := g_meta s; g_calls := S (g_calls s) |} in
  match save (g_calls s) with
  | Some e => (s', Fail e)
  | None => (put_g (g_heap s') (g_space s') (g_mapping s') (g_engine s') (g_base s') (Some x) s', Ret tt)
  end.

(** The error of the response; an error of [SavePartitionMeta] is dropped. *)
Definition updateSchemaBySpace (space : option Space) : SE gstore unit :=
  match space with
  | None => sret (Fail (OtherErr "json"))
  | Some x =>
    se! ref <- sread (fun s => length (g_heap s)) in
    se_! sstep (new_object x) in
    se_! UpdateMapping ref in
    fun s => match SavePartitionMeta x s with
             | (s', Fail _) => (s', Ret tt)
             | (s', _) => (SetSpace ref s', Ret tt)
             end
  end.

(** The JSON of a space gives an equal space back. *)
Definition applyIndexChange (ic : option IndexChange) : SE gstore unit :=
  se_! match ic with
       | None => sret (Fail (OtherErr "index change command is nil"))
       | Some (ADD_INDEX None) => sret (Fail (OtherErr "unmarshal index change indexes: %v"))
       | Some (ADD_INDEX (Some indexes)) => AddIndexes indexes
       | Some (REMOVE_INDEX name) => RemoveIndex name
       | Some UnknownChange => sret (Fail (OtherErr "unsupported index change op[%d]"))
       end in
  se! engineSpace <- (fun s => deref (g_space s) s) in
  se_! SavePartitionMeta engineSpace in
  se! ref <- sread (fun s => length (g_heap s)) in
  se_! sstep (new_object engineSpace) in
  sstep (SetSpace ref).

(** The two commands of [innerApply] that change the space. *)
Definition apply_change (c : RaftCommand) : SE gstore unit :=
  match c with UPDATESPACE space => updateSchemaBySpace space | INDEXCHANGE ic => applyIndexChange ic end.

(** ** The indexes of a partition *)

Definition index_names (x : Space) : gset string := list_to_set (Index_Name <$> S_Indexes x).

Lemma set_engine_same (s : gstore) (e : E) : g_engine s = Some e -> set_engine e s = s.
Proof. destruct s. cbn. intros ->. done. Qed.

Lemma addFieldIndex_run (idx : option Index) (s : gstore) (e : E) : g_engine s = Some e -> g_closed s = false ->
  exists e' r, addFieldIndex idx s = (set_engine e' s, r) /\
    (r = Ret tt /\ (exists i, idx = Some i /\ Index_Name i <> ""%string /\ names e' = {[ Index_Name i ]} ∪ names e) \/ (exists err, r = Fail err) /\ names e' = names e).
Proof.
  intros He Hc. unfold addFieldIndex, sbind, getEnginePtr, sret. rewrite Hc, He.
  destruct idx as [i|]; [|exists e; eexists; rewrite set_engine_same by done; split; [reflexivity|]; right; eauto].
  destruct (Index_Name i =?s "") eqn:En; [exists e; eexists; rewrite set_engine_same by done; split; [reflexivity|]; right; eauto|].
  destruct (match FieldNames i with [] => _ | _ => _ end) as [|f fs]; [exists e; eexists; rewrite set_engine_same by done; split; [reflexivity|]; right; eauto|].
  destruct (AddFieldIndexWithParams _ _ _ _ _) as [e' code] eqn:Ea. exists e'. eexists. split; [reflexivity|]. destruct (Z.eqb_spec code 0) as [->|Hne]; cbn.
  - left. split; [done|]. exists i. split; [done|]. split; [by apply string_eqb_neq | by apply add_ok in Ea].
  - right. split; [eauto | by apply add_fails in Ea].
Qed.
Lemma removeFieldIndex_run (name : string) (s : gstore) (e : E) : g_engine s = Some e -> g_closed s = false ->
  exists e' r, removeFieldIndex name s = (set_engine e' s, r) /\ (r = Ret tt /\ names e' = names e ∖ {[ name ]} \/ (exists err, r = Fail err) /\ names e' = names e).
Proof.
  intros He Hc. unfold removeFieldIndex, sbind, getEnginePtr, sret. rewrite Hc, He.
  destruct (name =?s "") eqn:En; [exists e; eexists; rewrite set_engine_same by done; split; [reflexivity|]; right; eauto|].
  destruct (RemoveFieldIndex _ _) as [e' code] eqn:Ea. exists e'. eexists. split; [reflexivity|]. destruct (Z.eqb_spec code 0) as [->|Hne]; cbn.
  - left. split; [done | by apply remove_ok in Ea].
  - right. split; [eauto | by apply remove_fails in Ea].
Qed.

(** Adding a list of indexes to the engine: all of them, or those before the one that fails. *)
Lemma add_all_run (l : list (option Index)) (s : gstore) (e : E) : g_engine s = Some e -> g_closed s = false ->
  exists e' r, sfor (fun idx => wrapped "failed to add index %s: %v" (addFieldIndex idx)) l s = (set_engine e' s, r) /\
    (r = Ret tt /\ Forall (fun idx => exists i, idx = Some i /\ Index_Name i <> ""%string) l /\ names e' = list_to_set (Index_Name <$> omap id l) ∪ names e \/
     (exists err, r = Fail err) /\ ((length l <= 1)%nat -> names e' = names e)).
Proof.
  revert s e. induction l as [|idx l IH]; intros s e He Hc.
  - exists e, (Ret tt). rewrite set_engine_same by done. split; [done|]. left. split; [done|]. split; [constructor | cbn; set_solver].
  - cbn [sfor]. unfold sbind, wrapped. destruct (addFieldIndex_run idx s e He Hc) as (e1 & r1 & -> & [[-> (i & -> & Hi & Hn)]|[[err ->] Hn]]).
    + destruct (IH (set_engine e1 s) e1 eq_refl Hc) as (e2 & r2 & H2 & Hr). unfold wrapped in H2. rewrite H2. exists e2, r2. split; [done|].
      destruct Hr as [(-> & Hall & Hn2)|[Hf Hn2]].
      * left. split; [done|]. split; [constructor; eauto|]. rewrite Hn2, Hn. cbn. set_solver.
      * right. split; [done|]. cbn. intros Hlen. destruct l; [|cbn in Hlen; lia]. exfalso. cbn in H2. unfold sret in H2. destruct Hf as [err ->]. injection H2. discriminate.
    + exists e1. eexists. split; [reflexivity|]. right. split; [eauto | done].
Qed.

Lemma append_new_names (l : list (option Index)) (have : gset string) (acc : list Index) :
  have = list_to_set (Index_Name <$> acc) -> Forall (fun idx => exists i, idx = Some i /\ Index_Name i <> ""%string) l ->
  (list_to_set (Index_Name <$> append_new have acc l) : gset string) = list_to_set (Index_Name <$> omap id l) ∪ have.
Proof.
  revert have acc. induction l as [|idx l IH]; intros have acc Hh Hall; cbn; [rewrite Hh; set_solver|].
  apply Forall_cons in Hall as [(i & -> & Hi) Hall]. rewrite (proj2 (string_eqb_neq _ _) Hi). cbn. destruct (bool_decide (Index_Name i ∈ have)) eqn:Eb.
  - apply bool_decide_eq_true in Eb. rewrite IH by done. cbn. set_solver.
  - rewrite IH; [cbn; set_solver| |done]. rewrite fmap_app, list_to_set_app_L, Hh. cbn. set_solver.
Qed.
Lemma remove_names (name : string) (l : list Index) :
  (list_to_set (Index_Name <$> List.filter (fun idx => negb (Index_Name idx =?s name)) l) : gset string) = list_to_set (Index_Name <$> l) ∖ {[ name ]}.
Proof.
  induction l as [|i l IH]; cbn; [set_solver|]. destruct (Index_Name i =?s name) eqn:En; cbn.
  - apply string_eqb_eq in En. rewrite IH. set_solver.
  - apply string_eqb_neq in En. rewrite IH. set_solver.
Qed.

(** The engine, the store and the file have equal spaces, and the engine has exactly the indexes of that space. *)
Record agree (x : Space) (s : gstore) : Prop := {
  agree_engine : engine_space s = Some x;
  agree_base : base_space s = Some x;
  agree_meta : g_meta s = Some x;
  agree_names : exists e, g_engine s = Some e /\ g_closed s = false /\ names e = index_names x
}.

Lemma agree_object (x y : Space) (s : gstore) : agree x s -> agree x (new_object y s).
Proof. intros [He Hb Hm Hn]. split; [by apply lookup_app_l_Some|by apply lookup_app_l_Some|done|done]. Qed.
Lemma new_object_last (y : Space) (s : gstore) : g_heap (new_object y s) !! length (g_heap s) = Some y.
Proof. cbn. rewrite lookup_app_r, Nat.sub_diag by lia. done. Qed.

(** [UpdateMapping] changes nothing but the space and the mapping of the engine, and these only if it succeeds. *)
Lemma UpdateMapping_run (ref : nat) (s s' : gstore) (r : go unit) : UpdateMapping ref s = (s', r) ->
  (exists m, r = Ret tt /\ s' = put_g (g_heap s) ref m (g_engine s) (g_base s) (g_meta s) s) \/ (r <> Ret tt /\ s' = s).
Proof.
  unfold UpdateMapping, deref, sret, sstep, sbind. intros H. repeat (case_match; simplify_eq; try (right; split; [congruence | reflexivity]; fail)). left. eauto.
Qed.

(** What a command that succeeds makes of the space. *)
Definition spec_apply (c : RaftCommand) (x : Space) : Space :=
  match c with
  | UPDATESPACE (Some y) => y
  | INDEXCHANGE (Some (ADD_INDEX (Some l))) => appendSpaceIndexes l x
  | INDEXCHANGE (Some (REMOVE_INDEX n)) => removeSpaceIndex n x
  | _ => x
  end.
(** A space that is pushed names the indexes there are; of several indexes, either all can be added or the command is not one of them. *)
Definition fits (c : RaftCommand) (x : Space) (r : go unit) : Prop :=
  match c with
  | UPDATESPACE (Some y) => index_names y = index_names x
  | INDEXCHANGE (Some (ADD_INDEX (Some l))) => r = Ret tt \/ (length l <= 1)%nat
  | _ => True
  end.

(** After a space was pushed, the engine and the store share it. *)
Lemma pushed_shared (y : Space) (s s' : gstore) : apply_change (UPDATESPACE (Some y)) s = (s', Ret tt) -> save (g_calls s) = None ->
  g_base s' = g_space s' /\ g_heap s' !! g_space s' = Some y /\ g_engine s' = g_engine s /\ g_closed s' = g_closed s /\ g_meta s' = Some y /\ g_calls s' = S (g_calls s).
Proof.
  intros H Hs. cbn in H. cbv beta iota delta [sbind sread sstep] in H. destruct (UpdateMapping (length (g_heap s)) (new_object y s)) as [s1 r1] eqn:Hu.
  apply UpdateMapping_run in Hu as [(m & -> & ->)|[Hne ->]]; [|by destruct r1 as [[]|?|?]].
  unfold SavePartitionMeta in H. cbn in H. rewrite Hs in H. simplify_eq. cbn. repeat split; try done. apply new_object_last.
Qed.

(** A change of the indexes whose [meta.txt] cannot be written fails, but after a space was pushed the store shows it: the comment of [applyIndexChange] says that the store has an
    object of its own, as after a push, while the push gives the engine and the store the same object.  The file keeps the index, so it comes back when the server restarts. *)
Theorem failed_removal_visible (y : Space) (s s1 s2 : gstore) (r : go unit) (name : string) (e e' : E) (err : error) :
  g_engine s = Some e -> g_closed s = false -> apply_change (UPDATESPACE (Some y)) s = (s1, Ret tt) ->
  save (g_calls s) = None -> save (S (g_calls s)) = Some err -> name <> ""%string -> RemoveFieldIndex e name = (e', 0) ->
  apply_change (INDEXCHANGE (Some (REMOVE_INDEX name))) s1 = (s2, r) ->
  r = Fail err /\ base_space s2 = Some (removeSpaceIndex name y) /\ g_meta s2 = Some y.
Proof.
  intros He Hc Hp Hs1 Hs2 Hn Hr H. destruct (pushed_shared _ _ _ Hp Hs1) as (Hb & Hh & He1 & Hc1 & Hm & Hk). rewrite He in He1. rewrite Hc in Hc1.
  cbn in H. unfold applyIndexChange, RemoveIndex in H.
  rewrite (sbind_run _ _ s1 (on_engine_space (removeSpaceIndex name) (set_engine e' s1)) tt) in H.
  - unfold sbind, deref, SavePartitionMeta in H. cbn in H. rewrite list_lookup_alter, decide_True, Hh, Hk, Hs2 in H by done. cbn in H. simplify_eq.
    split; [done|]. split; [|done]. unfold base_space. cbn. rewrite Hb, list_lookup_alter, decide_True, Hh by done. done.
  - rewrite (sbind_run _ _ s1 (set_engine e' s1) tt); [done|]. unfold wrapped, removeFieldIndex, sbind, getEnginePtr. rewrite Hc1, He1, (proj2 (string_eqb_neq _ _) Hn), Hr. done.
Qed.

Hypothesis saved : forall k, save k = None.

Lemma SavePartitionMeta_ok (x : Space) (s : gstore) : exists s', SavePartitionMeta x s = (s', Ret tt) /\ g_heap s' = g_heap s /\ g_space s' = g_space s /\ g_engine s' = g_engine s /\
  g_closed s' = g_closed s /\ g_base s' = g_base s /\ g_meta s' = Some x.
Proof. unfold SavePartitionMeta. rewrite saved. eexists. split; [reflexivity|]. cbn. done. Qed.

(** The end of [applyIndexChange]: what the engine has is written and given to the store. *)
Lemma publish_agree (x : Space) (s : gstore) (e : E) : engine_space s = Some x -> g_engine s = Some e -> g_closed s = false -> names e = index_names x ->
  exists s', (se! engineSpace <- (fun s => deref (g_space s) s) in
              se_! SavePartitionMeta engineSpace in
              se! ref <- sread (fun s => length (g_heap s)) in
              se_! sstep (new_object engineSpace) in
              sstep (SetSpace ref)) s = (s', Ret tt) /\ agree x s'.
Proof.
  intros Hs He Hc Hn. unfold sbind at 1, deref. unfold engine_space in Hs. rewrite Hs. unfold sbind at 1.
  destruct (SavePartitionMeta_ok x s) as (s1 & -> & Hh & Hsp & Hen & Hcl & Hba & Hme). eexists. split; [reflexivity|].
  split; cbn; unfold engine_space, base_space; cbn.
  - rewrite Hsp, Hh. by apply lookup_app_l_Some.
  - rewrite lookup_app_r, Nat.sub_diag by lia. done.
  - done.
  - exists e. rewrite Hen, Hcl. done.
Qed.

Lemma engine_space_alter (f : Space -> Space) (x : Space) (s : gstore) : engine_space s = Some x -> engine_space (on_engine_space f s) = Some (f x).
Proof. unfold engine_space. cbn. intros H. rewrite list_lookup_alter, decide_True, H by done. done. Qed.

Lemma command_agree (c : RaftCommand) (x : Space) (s s' : gstore) (r : go unit) :
  agree x s -> apply_change c s = (s', r) -> (forall y, r <> Panic y) -> fits c x r -> agree (if is_ret r then spec_apply c x else x) s'.
Proof.
  intros Ha H Hp Hfit. pose proof Ha as [Hes Hbs Hms (e & He & Hc & Hn)]. destruct c as [[y|]|[[[l|]|name|]|]]; cbn in H, Hfit; unfold sret in H; try (by simplify_eq).
  - cbv beta iota delta [sbind sread sstep] in H.
    destruct (UpdateMapping (length (g_heap s)) (new_object y s)) as [s1 r1] eqn:Hu. apply UpdateMapping_run in Hu as [(m & -> & ->)|[Hne ->]].
    + destruct (SavePartitionMeta_ok y (put_g (g_heap (new_object y s)) (length (g_heap s)) m (g_engine (new_object y s)) (g_base (new_object y s)) (g_meta (new_object y s)) (new_object y s)))
        as (s2 & Hs2 & Hh & Hsp & Hen & Hcl & Hba & Hme). rewrite Hs2 in H. simplify_eq. cbn in *.
      split; unfold engine_space, base_space; cbn; rewrite ?Hsp, ?Hh, ?Hen, ?Hcl, ?Hme; try done.
      * rewrite lookup_app_r, Nat.sub_diag by lia. done.
      * rewrite lookup_app_r, Nat.sub_diag by lia. done.
      * exists e. rewrite Hfit. done.
    + assert (r = r1 /\ s' = new_object y s) as [-> ->] by (destruct r1 as [[]|?|?]; [done | by simplify_eq..]). destruct r1 as [[]|?|?]; [done | by apply agree_object..].
  - destruct (add_all_run l s e He Hc) as (e' & r1 & H1 & Hr). unfold applyIndexChange, AddIndexes in H.
    destruct Hr as [(-> & Hall & Hne)|[[err ->] Hne]].
    + rewrite (sbind_run _ _ s (on_engine_space (appendSpaceIndexes l) (set_engine e' s)) tt) in H by (by rewrite (sbind_run _ _ _ _ _ H1)). destruct (publish_agree (appendSpaceIndexes l x) (on_engine_space (appendSpaceIndexes l) (set_engine e' s)) e') as (s2 & H2 & Ha2);
        [by apply engine_space_alter | done | done | | rewrite H2 in H; by simplify_eq].
      rewrite Hne, Hn. unfold index_names. cbn. by rewrite append_new_names.
    + rewrite (sbind_fail _ _ s (set_engine e' s) err) in H by (by rewrite (sbind_fail _ _ _ _ _ H1)). simplify_eq. destruct Hfit as [?|Hlen]; [done|]. split; try done. exists e'. cbn. rewrite (Hne Hlen). done.
  - destruct (removeFieldIndex_run name s e He Hc) as (e' & r1 & H1 & Hr). unfold applyIndexChange, RemoveIndex in H.
    destruct Hr as [(-> & Hne)|[[err ->] Hne]].
    + rewrite (sbind_run _ _ s (on_engine_space (removeSpaceIndex name) (set_engine e' s)) tt) in H by (by rewrite (sbind_run _ _ s (set_engine e' s) tt) by (unfold wrapped; by rewrite H1)).
      destruct (publish_agree (removeSpaceIndex name x) (on_engine_space (removeSpaceIndex name) (set_engine e' s)) e') as (s2 & H2 & Ha2);
        [by apply engine_space_alter | done | done | | rewrite H2 in H; by simplify_eq].
      rewrite Hne, Hn. unfold index_names. cbn. by rewrite remove_names.
    + rewrite (sbind_fail _ _ s (set_engine e' s) (verr INTERNAL_ERROR "failed to remove index %s: %v")) in H by (apply sbind_fail; unfold wrapped; by rewrite H1).
      simplify_eq. split; try done. exists e'. cbn. rewrite Hne. done.
Qed.

(** The commands of a log in turn, with their responses; and what they make of the space if those that failed are left out. *)
Fixpoint apply_log (cs : list RaftCommand) (s : gstore) : gstore * list (go unit) :=
  match cs with
  | [] => (s, [])
  | c :: cs' => let '(s1, r) := apply_change c s in let '(s2, rs) := apply_log cs' s1 in (s2, r :: rs)
  end.
Fixpoint spec_log (crs : list (RaftCommand * go unit)) (x : Space) : Space :=
  match crs with [] => x | (c, r) :: crs' => spec_log crs' (if is_ret r then spec_apply c x else x) end.
Fixpoint all_fit (crs : list (RaftCommand * go unit)) (x : Space) : Prop :=
  match crs with
  | [] => True
  | (c, r) :: crs' => fits c x r /\ (forall y, r <> Panic y) /\ all_fit crs' (if is_ret r then spec_apply c x else x)
  end.


(** ** Fields *)

Hypothesis Hord : forall m, ord m ≡ₚ map_to_list m.
Lemma check_fields_ret (updated : gmap string SpaceProperties) (l : list (string * SpaceProperties)) : ofold (fun _ e => check_field updated e) tt l = Ret tt ->
  Forall (fun e => exists p, updated !! e.1 = Some p /\ SP_FieldType p = SP_FieldType e.2) l.
Proof.
  induction l as [|[f q] l IH]; [constructor|]. cbn [ofold]. intros H. inv_ret. destruct a. constructor; [|auto]. unfold check_field in Hm. cbn in *.
  destruct (updated !! f) as [p|]; [|done]. apply guard_err_ret, negb_false_iff, bool_decide_eq_true in Hm. eauto.
Qed.
Lemma check_fields_total (updated : gmap string SpaceProperties) (l : list (string * SpaceProperties)) :
  ofold (fun _ e => check_field updated e) tt l = Ret tt \/ exists e, ofold (fun _ e => check_field updated e) tt l = Fail e.
Proof.
  induction l as [|[g q] l IH]; [by left|]. cbn [ofold]. unfold check_field at 1 3. cbn [fst snd].
  destruct (updated !! g) as [p|]; [|right; eexists; reflexivity]. destruct (negb _); [right; eexists; reflexivity | exact IH].
Qed.
(** An accepted space has the fields of the current one, with their types. *)
Lemma UpdateMapping_fields (ref : nat) (s s' : gstore) (x y : Space) : UpdateMapping ref s = (s', Ret tt) -> engine_space s = Some x -> g_heap s !! ref = Some y ->
  exists current updated, UnmarshalPropertyJSON unmarshal_fields (S_Fields x) = Ret current /\ UnmarshalPropertyJSON unmarshal_fields (S_Fields y) = Ret updated /\
    forall f, SP_FieldType <$> updated !! f = SP_FieldType <$> current !! f.
Proof using Hord.
  unfold engine_space, UpdateMapping, deref, sret, sstep, sbind. intros H Hx Hy. rewrite Hx in H. cbn in H. rewrite Hy in H.
  destruct (UnmarshalPropertyJSON unmarshal_fields (S_Fields x)) as [current|?|?]; [|done..].
  destruct (UnmarshalPropertyJSON unmarshal_fields (S_Fields y)) as [updated|?|?]; [|done..].
  destruct (ofold _ tt (ord current)) as [[]|?|?] eqn:Hf; [|done..]. destruct (guard_err _ _) as [[]|?|?] eqn:Hadd; [|done..].
  exists current, updated. split; [done|]. split; [done|]. apply check_fields_ret in Hf. apply guard_err_ret in Hadd. rewrite Forall_forall in Hf. intros f.
  destruct (current !! f) as [q|] eqn:Ec.
  - destruct (Hf (f, q)) as (p & Hp & Ht); [by rewrite Hord, elem_of_map_to_list|]. cbn in Hp, Ht. rewrite Hp. cbn. by rewrite Ht.
  - destruct (updated !! f) as [p|] eqn:Eu; [|done]. exfalso. assert (existsb (fun e => bool_decide (current !! e.1 = None)) (ord updated) = true) as Hex; [|congruence].
    apply existsb_exists. exists (f, p). split; [apply list_elem_of_In; by rewrite Hord, elem_of_map_to_list | by apply bool_decide_eq_true].
Qed.

(** A space with a field more than the partition has is never accepted, though the master's update of a space merges new fields into the schema it sends to the partitions: the response is an
    error and nothing is changed.  (C40) *)
Theorem field_addition_refused (x y : Space) (s s' : gstore) (r : go unit) (current updated : gmap string SpaceProperties) (f : string) :
  agree x s -> UnmarshalPropertyJSON unmarshal_fields (S_Fields x) = Ret current -> UnmarshalPropertyJSON unmarshal_fields (S_Fields y) = Ret updated ->
  is_Some (updated !! f) -> current !! f = None -> (forall p, Space2Mapping unmarshal_array decode_field (S_Fields y) <> Panic p) ->
  apply_change (UPDATESPACE (Some y)) s = (s', r) -> (exists e, r = Fail e) /\ agree x s'.
Proof using Hord.
  intros Ha Hx Hy [q Hq] Hn Hmap H. cbn in H. cbv beta iota delta [sbind sread sstep] in H.
  destruct (UpdateMapping (length (g_heap s)) (new_object y s)) as [s1 r1] eqn:Hu. pose proof (UpdateMapping_run _ _ _ _ Hu) as [(m & -> & ->)|[Hne ->]].
  - exfalso. destruct (UpdateMapping_fields _ _ _ x y Hu) as (c & u & Hc & Hup & Hf); [by apply agree_engine, agree_object | apply new_object_last|].
    specialize (Hf f). rewrite Hx in Hc. rewrite Hy in Hup. simplify_eq. rewrite Hq, Hn in Hf. done.
  - assert (exists e, r1 = Fail e) as [e ->]; [|simplify_eq; split; [eauto | by apply agree_object]].
    pose proof (agree_engine _ _ (agree_object x y s Ha)) as He. unfold engine_space in He. cbn in He.
    unfold UpdateMapping, deref, sret, sstep, sbind in Hu. cbn in Hu. rewrite He in Hu. rewrite lookup_app_r, Nat.sub_diag in Hu by lia. cbn in Hu. rewrite Hx, Hy in Hu.
    destruct (check_fields_total updated (ord current)) as [Hck|[e Hck]]; rewrite Hck in Hu; [|simplify_eq; eauto]. destruct (existsb _ _); cbn in Hu; [simplify_eq; eauto|].
    destruct (Space2Mapping _ _ _) as [m|e|p]; [by simplify_eq | simplify_eq; eauto | by destruct (Hmap p)].
Qed.
End Gamma.

(** ** Concrete runs *)

(** An engine that is the set of its indexes and refuses an index it has, and the removal of one it has not. *)
#[global, program] Instance set_engine_api : GammaAPI (gset string) := {
  names e := e;
  CreateTable e t := (list_to_set (II_Name <$> T_Indexes t), 0);
  LoadData e := (e, 0);
  AddFieldIndexWithParams e name _ _ _ := if decide (name ∈ e) then (e, 1) else ({[ name ]} ∪ e, 0);
  RemoveFieldIndex e name := if decide (name ∈ e) then (e ∖ {[ name ]}, 0) else (e, 1)
}.
Next Obligation. intros e name fields type params e' H. cbn in H. case_decide; by simplify_eq. Qed.
Next Obligation. intros e name fields type params e' c H Hc. cbn in H. case_decide; by simplify_eq. Qed.
Next Obligation. intros e name e' H. cbn in H. case_decide; by simplify_eq. Qed.
Next Obligation. intros e name e' c H Hc. cbn in H. case_decide; by simplify_eq. Qed.

Definition schema_docs (s : string) : go (list json) := let! l := demo_schema s in Ret ((fun f => JObject [("name", JString (F_Name f))]) <$> l).
Definition schema_decode (d : json) : go field_tmp :=
  match d, demo_schema "new" with
  | JObject [(_, JString n)], Ret l =>
    match List.find (fun f => F_Name f =?s n) l with
    | Some f => Ret {| T_Name := Some (F_Name f); T_Type := F_Type f; T_Index := F_Index f; T_Format := F_Format f;
                       T_Dimension := F_Dimension f; T_StoreType := F_StoreType f; T_StoreParam := "" |}
    | None => Fail (OtherErr "json")
    end
  | _, _ => Fail (OtherErr "json")
  end.

Definition demo_mapping : IndexMapping := {| IM_DocumentMapping := Document [] None; IM_fieldCacher := ∅ |}.
Definition demo_gstore : gstore (E := gset string) :=
  {| g_heap := [demo_two; demo_two]; g_space := 0; g_mapping := demo_mapping; g_engine := Some {[ "vi"; "pair" ]}%string; g_closed := false; g_base := 1; g_meta := Some demo_two; g_calls := 0 |}.
Definition age_index : Index := {| Index_Name := "by_age"; Index_Type := "SCALAR"; FieldName := "age"; FieldNames := []; Params := "" |}.
Definition demo_change (save : nat -> option error) := apply_change (E := gset string) demo_order demo_schema schema_docs schema_decode save.
Definition demo_log : list RaftCommand :=
  [INDEXCHANGE (Some (ADD_INDEX (Some [Some age_index]))); INDEXCHANGE (Some (REMOVE_INDEX "pair")); INDEXCHANGE (Some (REMOVE_INDEX "pair")); UPDATESPACE None].

Lemma demo_agree : agree demo_two demo_gstore.
Proof. split; try reflexivity. exists {[ "vi"; "pair" ]}%string. split; [reflexivity|]. split; [reflexivity|]. apply (bool_decide_unpack _). vm_compute. exact I. Qed.


Definition demo_wider : Space := set_S_Schema "new" ∅ demo_two.
Definition has_zip (schema : string) : option bool := match UnmarshalPropertyJSON demo_schema schema with Ret m => Some (bool_decide (is_Some (m !! "zip"%string))) | _ => None end.
Lemma demo_zip : has_zip (S_Fields demo_two) = Some false /\ has_zip (S_Fields demo_wider) = Some true.
Proof. vm_compute. done. Qed.
Lemma field_addition_refused_witness : exists s e, demo_change (fun _ => None) (UPDATESPACE (Some demo_wider)) demo_gstore = (s, Fail e) /\ agree demo_two s.
Proof.
  destruct (demo_change (fun _ => None) (UPDATESPACE (Some demo_wider)) demo_gstore) as [s r] eqn:H. destruct demo_zip as [Ho Hw]. unfold has_zip in Ho, Hw.
  destruct (UnmarshalPropertyJSON demo_schema (S_Fields demo_two)) as [op| |] eqn:Eo; [|discriminate Ho..].
  destruct (UnmarshalPropertyJSON demo_schema (S_Fields demo_wider)) as [np| |] eqn:En; [|discriminate Hw..].
  injection Ho as Ho. injection Hw as Hw. apply bool_decide_eq_false in Ho. apply bool_decide_eq_true in Hw. apply eq_None_not_Some in Ho.
  assert (is_ret (Space2Mapping schema_docs schema_decode (S_Fields demo_wider)) = true) as Hm by (vm_compute; reflexivity).
  destruct (field_addition_refused demo_order demo_schema schema_docs schema_decode (fun _ => None) (fun m => Permutation_refl _) demo_two demo_wider demo_gstore s r op np "zip"
    demo_agree Eo En Hw Ho) as [[e ->] Ha]; [|exact H|exists s, e; split; [reflexivity | exact Ha]].
  intros p Hp. rewrite Hp in Hm. discriminate Hm.
Defined.

Definition fails_second (k : nat) : option error := if (k =? 1)%nat then Some (OtherErr "no space left on device") else None.
Lemma failed_removal_visible_witness : exists s1 s2, demo_change fails_second (UPDATESPACE (Some demo_two)) demo_gstore = (s1, Ret tt) /\
  demo_change fails_second (INDEXCHANGE (Some (REMOVE_INDEX "pair"))) s1 = (s2, Fail (OtherErr "no space left on device")) /\
  base_space s2 = Some (set_S_Indexes [vec_index] demo_two) /\ g_meta s2 = Some demo_two.
Proof.
  destruct (demo_change fails_second (UPDATESPACE (Some demo_two)) demo_gstore) as [s1 r1] eqn:H1.
  assert (r1 = Ret tt) as -> by (assert (r1 = (demo_change fails_second (UPDATESPACE (Some demo_two)) demo_gstore).2) as -> by (by rewrite H1); vm_compute; reflexivity).
  destruct (demo_change fails_second (INDEXCHANGE (Some (REMOVE_INDEX "pair"))) s1) as [s2 r2] eqn:H2. exists s1, s2. split; [reflexivity|].
  destruct (failed_removal_visible demo_order demo_schema schema_docs schema_decode fails_second demo_two demo_gstore s1 s2 r2 "pair"
    {[ "vi"; "pair" ]}%string ({[ "vi"; "pair" ]} ∖ {[ "pair" ]})%string (OtherErr "no space left on device")) as (-> & Hb & Hm); [reflexivity|reflexivity|exact H1|reflexivity|reflexivity|discriminate|vm_compute; reflexivity|exact H2|].
  split; [exact H2|]. split; [exact Hb | exact Hm].
Defined.

Lemma table_fields_exact_witness : exists m t, Space2Mapping schema_docs schema_decode "old" = Ret m /\ mapping2Table demo_order demo_two 5 m = Ret t /\
  (FI_Name <$> T_Fields t) ++ (VI_Name <$> T_VectorsInfos t) ≡ₚ ["_id"; "age"; "city"; "vec"]%string.
Proof.
  destruct (Space2Mapping schema_docs schema_decode "old") as [m| |] eqn:Em; [|vm_compute in Em; discriminate Em..].
  destruct (mapping2Table demo_order demo_two 5 m) as [t| |] eqn:Et; [|vm_compute in Em; injection Em as <-; vm_compute in Et; discriminate Et..].
  exists m, t. split; [reflexivity|]. split; [exact Et|]. destruct (table_fields_exact demo_order demo_two 5 m t Et) as [Hp _]. rewrite Hp.
  vm_compute in Em. injection Em as <-. apply (bool_decide_unpack _). vm_compute. exact I.
Defined.
