(* ===== verification/Dispatch.v ===== *)
(** * Operations on all partitions of a space (internal/client/client.go, internal/router/document/doc_service.go, doc_http.go)

    Flushing a space, merging and rebuilding its indexes and deleting by query: the handler checks the request and finds the space, the service makes one message per
    partition, one goroutine per partition sends it to the leader or to all replicas, and the replies are counted or collected.  Goroutines end in any order.  The caches of the
    client and the partition servers are arguments. *)

From S2P Require Import Prelude.
From S2P Require Import Text.
From S2P Require Import Errors.
From S2P Require Import Names.
From S2P Require Import Schema.
From S2P Require Import Partition.
From S2P Require Import Space.
From S2P Require Import Router.
From S2P Require Import DocResp.
From S2P Require Import Filters.
From S2P Require Import Query.
From S2P Require Import Auth.
Open Scope Z_scope.

(** The parts of a reply that the router reads; [rp_ids] is [DelByQueryResponse.IdsStr]. *)
Record reply : Type := { rp_Err : option error; rp_ids : option (list string) }.
Definition err_reply (e : error) : reply := {| rp_Err := Some e; rp_ids := None |}.

(** The field [Msg]. *)
Definition Err_Msg (e : error) : string := match e with VearchErr _ m => m | OtherErr m => m end.

Definition HandlerType : string := "type".
Definition FlushHandler : string := "FlushHandler".
Definition ForceMergeHandler : string := "ForceMergeHandler".
Definition RebuildIndexHandler : string := "RebuildIndexHandler".
Definition DeleteByQueryHandler : string := "DeleteByQueryHandler".

Section Dispatch.
(** The caches; the servers a connection can be made to, and what they reply; the orders in which goroutines end. *)
Context (aliases : gmap string Alias) (SpaceByCache : string -> string -> go Space) (PartitionByCache : string -> Z -> error + Partition).
Context (connected : Z -> bool) (remote : string -> Z -> PartitionData -> error + reply).
Context (arrive : list (Z * PartitionData) -> list (Z * PartitionData)) (finish : Z -> list Z -> list Z).

(** [GetOrCreateRPCClient] and [rpcClient.Execute]; the method is in the metadata of the context. *)
Definition rpc_Execute (method : string) (nodeID : Z) (d : PartitionData) : error + reply :=
  if connected nodeID then remote method nodeID d else inl (NewError CREATE_RPCCLIENT_FAILED None).

(** ** One partition *)

Definition LeaderFlushExecute (partition : Partition) (d : PartitionData) : reply :=
  match rpc_Execute FlushHandler (P_LeaderID partition) d with
  | inl err => err_reply (NewError SUCCESS (Some err))
  | inr r => r
  end.

(** The goroutines of the replicas share one reply: what the last of them to end left in it, and whether any has sent it. *)
Definition replica_step (method : string) (d : PartitionData) (st : option error * bool) (nodeId : Z) : option error * bool :=
  match rpc_Execute method nodeId d with
  | inl err => (Some (NewError INTERNAL_ERROR (Some err)), st.2)
  | inr r => (rp_Err r, true)
  end.
Definition replicas_execute (method : string) (partition : Partition) (d : PartitionData) : reply :=
  let '(err, any) := foldl (replica_step method d) (None, false) (finish (P_Id partition) (P_Replicas partition)) in
  {| rp_Err := if any then err else None; rp_ids := None |}.
Definition ReplicaForceMergeExecute : Partition -> PartitionData -> reply := replicas_execute ForceMergeHandler.
Definition ReplicaRebuildIndexExecute : Partition -> PartitionData -> reply := replicas_execute RebuildIndexHandler.

(** ** All partitions *)

(** A panic is recovered and sent as an error. *)
Definition goroutine {A} (space : Space) (run : Partition -> PartitionData -> A) (panicked : reply -> A) (e : Z * PartitionData) : A :=
  match PartitionByCache (S_Name space) e.1 with
  | inl _ => panicked (err_reply (VearchErr RECOVER "[Recover] partitionID: [%v], err: [%v]"))
  | inr partition => run partition e.2
  end.

Record SearchStatus : Set := { Total : Z; Failed : Z; Successful : Z; Status_Msg : string }.
Definition count_reply (s : SearchStatus) (r : reply) : SearchStatus :=
  match rp_Err r with
  | None => {| Total := Total s; Failed := Failed s; Successful := i32 (Successful s + 1); Status_Msg := Status_Msg s |}
  | Some e => {| Total := Total s; Failed := i32 (Failed s + 1); Successful := Successful s; Status_Msg := Status_Msg s +:+ Err_Msg e |}
  end.
Definition count_replies (total : nat) (rs : list reply) : SearchStatus :=
  foldl count_reply {| Total := i32 (Z.of_nat total); Failed := 0; Successful := 0; Status_Msg := "" |} rs.
Definition execute_all (run : Partition -> PartitionData -> reply) (r : routerRequest) : SearchStatus :=
  count_replies (size (r_sendMap r)) (goroutine (r_space r) run id <$> arrive (map_to_list (r_sendMap r))).

Definition FlushExecute : routerRequest -> SearchStatus := execute_all LeaderFlushExecute.
Definition ForceMergeExecute : routerRequest -> SearchStatus := execute_all ReplicaForceMergeExecute.
Definition RebuildIndexExecute : routerRequest -> SearchStatus := execute_all ReplicaRebuildIndexExecute.

(** A leader that cannot be asked sends nothing. *)
Definition delete_partition (partition : Partition) (d : PartitionData) : option reply :=
  match rpc_Execute DeleteByQueryHandler (P_LeaderID partition) d with
  | inl _ => None
  | inr r => Some r
  end.
Definition collected (r : reply) : list string := match rp_Err r, rp_ids r with None, Some ids => ids | _, _ => [] end.
Definition DelByQueryeExecute (r : routerRequest) : Z * list string :=
  let ids := concat (collected <$> omap (goroutine (r_space r) delete_partition Some) (arrive (map_to_list (r_sendMap r)))) in
  (i32 (Z.of_nat (length ids)), ids).

(** ** The service *)

Definition setErrHead (err : error) : error := match err with VearchErr _ _ => err | OtherErr _ => NewError INTERNAL_ERROR (Some err) end.
Definition newOkHead : error := NewError SUCCESS None.

(** [getSpace]: the name may be an alias. *)
Definition getSpace (db name : string) : go (string * Space) :=
  let name' := match aliases !! name with Some a => Alias_SpaceName a | None => name end in
  let! s := SpaceByCache db name' in Ret (name', s).

(** [SetMsgID], [SetMethod], [SetHead] and [SetSpace]. *)
Definition new_request (id method db name : string) : go routerRequest :=
  let! s := SpaceByCache db name in
  Ret {| r_md := {[ MessageID := id; HandlerType := method ]}; r_docs := []; r_space := s; r_sendMap := ∅; r_Err := None |}.

(** [deleteByQuery] leaves the head nil, which its reader takes for success too. *)
Definition service {A} (request : go routerRequest) (execute : routerRequest -> A) : go (error * option A) :=
  match request with
  | Ret r => match r_Err r with Some e => Ret (setErrHead e, None) | None => Ret (newOkHead, Some (execute r)) end
  | Fail e => Ret (setErrHead e, None)
  | Panic p => Panic p
  end.

Context (uuid : string).
Definition flush (id db name : string) : go (error * option SearchStatus) :=
  service (let! r := new_request id FlushHandler db name in Ret (CommonByPartitions uuid 0 r)) FlushExecute.
Definition forceMerge (id db name : string) (pid : Z) : go (error * option SearchStatus) :=
  service (let! r := new_request id ForceMergeHandler db name in Ret (CommonByPartitions uuid pid r)) ForceMergeExecute.
Definition rebuildIndex (id db name : string) (args : IndexRequest) : go (error * option SearchStatus) :=
  service (let! r := new_request id RebuildIndexHandler db name in Ret (CommonSetByPartitions uuid args r)) RebuildIndexExecute.
Definition deleteByQuery (id db name : string) (q : Query.QueryRequest) : go (error * option (Z * list string)) :=
  service (let! r := new_request id DeleteByQueryHandler db name in
           Ret (QueryByPartitions uuid {| Q_PartitionId := QR_PartitionId q; Q_PartitionNames := QR_PartitionNames q |} r)) DelByQueryeExecute.

(** ** The handlers *)

Definition failed {A B} (id : string) (mk : error -> ErrRequest) (m : go A) (k : A -> go (Response B)) : go (Response B) :=
  match m with Ret a => k a | Fail e => Ret (JsonError id (mk e)) | Panic p => Panic p end.

(** A partition that is named belongs to the space. *)
Definition check_partition (pid : Z) (s : Space) : go unit :=
  guard_err ((0 <? pid) && negb (existsb (fun p => P_Id p =? pid) (S_Partitions s))) (verr PARAM_ERROR "partition_id %d not belong to space %s").

(** The body of an index request: database, space, partition. *)
Record index_body : Type := { ib_DbName : string; ib_SpaceName : string; ib_PartitionId : Z }.

Definition handleIndexFlush (id : string) (body : go index_body) : go (Response (option SearchStatus)) :=
  failed id NewErrBadRequest body (fun b =>
  failed id NewErrInternal (getSpace (ib_DbName b) (ib_SpaceName b)) (fun '(name, _) =>
  let! resp := flush id (ib_DbName b) name in Ret (JsonSuccess id resp.2))).
Definition handleIndexForceMerge (id : string) (body : go index_body) : go (Response (option SearchStatus)) :=
  failed id NewErrBadRequest body (fun b =>
  failed id NewErrInternal (getSpace (ib_DbName b) (ib_SpaceName b)) (fun '(name, s) =>
  failed id NewErrBadRequest (check_partition (ib_PartitionId b) s) (fun _ =>
  let! resp := forceMerge id (ib_DbName b) name (ib_PartitionId b) in Ret (JsonSuccess id resp.2)))).
Definition handleIndexRebuild (id : string) (body : go index_body) : go (Response (option SearchStatus)) :=
  failed id NewErrBadRequest body (fun b =>
  failed id NewErrInternal (getSpace (ib_DbName b) (ib_SpaceName b)) (fun '(name, s) =>
  failed id NewErrBadRequest (check_partition (ib_PartitionId b) s) (fun _ =>
  let! resp := rebuildIndex id (ib_DbName b) name {| IR_PartitionId := ib_PartitionId b |} in Ret (JsonSuccess id resp.2)))).

(** What the parser reads of a space from the cache. *)
Definition rspace (s : Space) : RSpace :=
  {| RS_Fields := S_Fields s; RS_SpaceProperties := Some (S_SpaceProperties s); RS_Indexes := S_Indexes s; RS_PartitionRule := S_PartitionRule s |}.

(** The checks on document ids and filters: fewer than 500 ids and no filter, or a filter. *)
Definition check_delete (q : Query.QueryRequest) (ids : list string) : go unit :=
  let filtered := negb (bool_decide (QR_TermFilters q = [])) || negb (bool_decide (QR_RangeFilters q = [])) in
  match ids with
  | [] => guard_err (negb filtered) (NewError DELETE_INVALID_PARAMS_SHOULD_HAVE_ONE_OF_DOCUMENT_IDS_OR_FILTER None)
  | _ =>
    check! guard_err filtered (NewError DELETE_INVALID_PARAMS_BOTH_DOCUMENT_IDS_AND_VECTOR None) in
    guard_err (500 <=? Z.of_nat (length ids)) (NewError DELETE_INVALID_PARAMS_LENGTH_OF_DOCUMENT_IDS_BEYOND_500 None)
  end.

Context (D : decoders).
Definition handleDocumentDelete (id : string) (body : go (string * string * SearchDocumentRequest)) : go (Response (Z * list string)) :=
  failed id NewErrBadRequest body (fun '(db, name, searchDoc) =>
  failed id NewErrInternal (getSpace db name) (fun '(name, s) =>
  failed id NewErrBadRequest (queryRequestToPb D searchDoc (rspace s) true) (fun args =>
  failed id NewErrBadRequest (check_delete args (default [] (SD_DocumentIds searchDoc))) (fun _ =>
  let! resp := deleteByQuery id db name args in
  let '(num, ids) := default (0, []) resp.2 in
  failed id NewErrUnprocessable (deleteByQueryResult (Some resp.1) num (Some ids)) (fun result => Ret (JsonSuccess id result)))))).

(** ** Messages *)

Definition message (id : string) (pl : payload) (pid : Z) : PartitionData :=
  {| PD_PartitionID := pid; PD_MessageID := id; PD_Items := []; PD_Payload := pl; PD_Err := None |}.

Lemma broadcast_sent (pl : payload) (keep : Partition -> bool) (r : routerRequest) :
  let r' := broadcast uuid pl keep r in
  r_space r' = r_space r /\ r_Err r' = r_Err r /\
  forall pid, r_sendMap r' !! pid = if bool_decide (pid ∈ P_Id <$> filter (fun p => keep p = true) (S_Partitions (r_space r))) then Some (message (GetMsgID uuid r).1 pl pid) else None.
Proof.
  unfold broadcast. pose proof (broadcast_loop uuid pl keep (S_Partitions (r_space r)) r ∅) as Hb. destruct (fold_left _ _ _) as [r' m']. destruct Hb as [Hs Hm].
  cbn. destruct Hs as (Hd & Hsp & He & _). split; [done|]. split; [done|]. intros pid. by rewrite Hm, lookup_empty.
Qed.

Hypothesis arrive_all : forall l, arrive l ≡ₚ l.
Hypothesis finish_all : forall pid l, finish pid l ≡ₚ l.

(** ** Counting *)

Definition ok_reply (r : reply) : bool := bool_decide (rp_Err r = None).

Lemma count_replies_from (rs : list reply) (s : SearchStatus) : 0 <= Failed s -> 0 <= Successful s -> Failed s + Successful s + Z.of_nat (length rs) < 2 ^ 31 ->
  let s' := foldl count_reply s rs in
  Total s' = Total s /\ Failed s' + Successful s' = Failed s + Successful s + Z.of_nat (length rs) /\ Failed s <= Failed s' /\ (Failed s' = Failed s <-> forallb ok_reply rs = true).
Proof.
  revert s. induction rs as [|r rs IH]; intros s Hf Hs Hb; [cbn; lia|]. cbn [foldl length] in *. rewrite Nat2Z.inj_succ in *.
  assert (forall z, 0 <= z < 2 ^ 31 -> i32 z = z) as Hi by (intros z Hz; apply wrap_s_id; unfold in_s; lia).
  assert (count_reply s r = if ok_reply r then {| Total := Total s; Failed := Failed s; Successful := Successful s + 1; Status_Msg := Status_Msg s |}
    else {| Total := Total s; Failed := Failed s + 1; Successful := Successful s; Status_Msg := Status_Msg s +:+ default "" (Err_Msg <$> rp_Err r) |}) as ->
    by (unfold count_reply, ok_reply; destruct (rp_Err r); cbn; by rewrite Hi by lia).
  cbn [forallb]. destruct (ok_reply r); cbn [andb].
  - destruct (IH {| Total := Total s; Failed := Failed s; Successful := Successful s + 1; Status_Msg := Status_Msg s |}) as (H1 & H2 & H3 & H4); cbn in *; [lia|lia|lia|].
    split; [done|]. split; [lia|]. split; [lia | done].
  - destruct (IH {| Total := Total s; Failed := Failed s + 1; Successful := Successful s; Status_Msg := Status_Msg s +:+ default "" (Err_Msg <$> rp_Err r) |}) as (H1 & H2 & H3 & H4); cbn in *; [lia|lia|lia|].
    split; [done|]. split; [lia|]. split; [lia|]. split; [intros; exfalso; lia | done].
Qed.

Lemma count_replies_successful (rs : list reply) (s : SearchStatus) : 0 <= Failed s -> 0 <= Successful s -> Failed s + Successful s + Z.of_nat (length rs) < 2 ^ 31 ->
  Successful (foldl count_reply s rs) = Successful s + Z.of_nat (length (filter (fun r => rp_Err r = None) rs)).
Proof.
  revert s. induction rs as [|r rs IH]; intros s Hf Hs Hb; [cbn; lia|]. cbn [foldl length] in *. rewrite Nat2Z.inj_succ in *.
  assert (forall z, 0 <= z < 2 ^ 31 -> i32 z = z) as Hi by (intros z Hz; apply wrap_s_id; unfold in_s; lia).
  rewrite filter_cons. unfold count_reply at 2. destruct (rp_Err r) as [e|].
  - rewrite decide_False by done. rewrite IH; cbn [Failed Successful]; [done|rewrite ?Hi by lia; lia..].
  - rewrite decide_True by done. rewrite IH; cbn [Failed Successful length]; rewrite ?Hi by lia; lia.
Qed.

(** All partitions are counted, and none as failed exactly if every goroutine ended without an error. *)
Lemma execute_all_spec (run : Partition -> PartitionData -> reply) (r : routerRequest) : Z.of_nat (size (r_sendMap r)) < 2 ^ 31 ->
  let sh := execute_all run r in
  Total sh = Z.of_nat (size (r_sendMap r)) /\ Failed sh + Successful sh = Total sh /\
  (Failed sh = 0 <-> forall pid d, r_sendMap r !! pid = Some d -> rp_Err (goroutine (r_space r) run id (pid, d)) = None).
Proof using arrive_all.
  intros Hb. set (rs := goroutine (r_space r) run id <$> arrive (map_to_list (r_sendMap r))).
  assert (length rs = size (r_sendMap r)) as Hl by (unfold rs; by rewrite length_fmap, arrive_all, length_map_to_list).
  destruct (count_replies_from rs {| Total := i32 (Z.of_nat (size (r_sendMap r))); Failed := 0; Successful := 0; Status_Msg := "" |}) as (H1 & H2 & _ & H4); cbn; [lia|lia|lia|].
  unfold execute_all, count_replies. fold rs. cbn in H1, H2. assert (i32 (Z.of_nat (size (r_sendMap r))) = Z.of_nat (size (r_sendMap r))) as Hi by (apply wrap_s_id; [lia | unfold in_s; lia]).
  rewrite Hi in H1, H2, H4 |- *. split; [done|]. split; [lia|]. rewrite H4, forallb_forall. unfold rs. split.
  - intros H pid d Hpid. specialize (H (goroutine (r_space r) run id (pid, d))). apply bool_decide_eq_true in H; [done|].
    apply list_elem_of_In, list_elem_of_fmap. exists (pid, d). split; [done|]. by rewrite arrive_all, elem_of_map_to_list.
  - intros H x Hx. apply list_elem_of_In, list_elem_of_fmap in Hx as ([pid d] & -> & Hin). rewrite arrive_all, elem_of_map_to_list in Hin.
    by apply bool_decide_eq_true, H.
Qed.

Lemma filter_true {A} (l : list A) : filter (fun _ => true = true) l = l.
Proof. induction l as [|x l IH]; [done|]. rewrite filter_cons_True by done. by f_equal. Qed.

(** The request of an operation on all partitions of a space. *)
Definition all_request (id method : string) (s : Space) : routerRequest :=
  CommonByPartitions uuid 0 {| r_md := {[ MessageID := id; HandlerType := method ]}; r_docs := []; r_space := s; r_sendMap := ∅; r_Err := None |}.
Lemma all_request_sent (id method : string) (s : Space) : let r := all_request id method s in
  r_space r = s /\ r_Err r = None /\ Z.of_nat (size (r_sendMap r)) <= Z.of_nat (length (S_Partitions s)) /\
  forall pid d, r_sendMap r !! pid = Some d <-> pid ∈ P_Id <$> S_Partitions s /\ d = message id NoPayload pid.
Proof.
  unfold all_request, CommonByPartitions. cbn [r_Err Z.eqb negb].
  destruct (broadcast_sent NoPayload (fun _ => true) {| r_md := {[ MessageID := id; HandlerType := method ]}; r_docs := []; r_space := s; r_sendMap := ∅; r_Err := None |}) as (Hs & He & Hm).
  cbn [r_space r_Err] in *. set (m := r_sendMap _) in *. unfold GetMsgID in Hm. cbn [r_md] in Hm. rewrite lookup_insert_eq in Hm. cbn [fst] in Hm.
  rewrite (filter_true (S_Partitions s)) in Hm. assert (forall pid d, m !! pid = Some d <-> pid ∈ P_Id <$> S_Partitions s /\ d = message id NoPayload pid) as Hiff.
  { intros pid d. rewrite Hm. case_bool_decide; split; [intros [= <-]; done | intros [_ ->]; done | done | intros [? _]; done]. }
  split; [done|]. split; [done|]. split; [|exact Hiff]. rewrite <- length_map_to_list, <- (length_fmap fst), <- (length_fmap P_Id (S_Partitions s)).
  apply Nat2Z.inj_le, submseteq_length, NoDup_submseteq; [apply NoDup_fst_map_to_list|]. intros pid Hp. apply list_elem_of_fmap in Hp as ([q d] & -> & Hin). apply elem_of_map_to_list in Hin. by apply Hiff in Hin as [? _].
Qed.

Lemma getSpace_ret (db n name : string) (s : Space) : getSpace db n = Ret (name, s) -> SpaceByCache db name = Ret s.
Proof. unfold getSpace. intros H. inv_ret. by simplify_eq. Qed.

Lemma all_request_list (id method : string) (s : Space) :
  map_to_list (r_sendMap (all_request id method s)) ≡ₚ (fun pid => (pid, message id NoPayload pid)) <$> remove_dups (P_Id <$> S_Partitions s).
Proof.
  destruct (all_request_sent id method s) as (_ & _ & _ & Hm). apply NoDup_Permutation; [apply NoDup_map_to_list| |].
  - apply NoDup_fmap_2; [intros x y [= ->]; done|apply NoDup_remove_dups].
  - intros [pid d]. rewrite elem_of_map_to_list, Hm. split.
    + intros [Hin ->]. apply list_elem_of_fmap. exists pid. split; [done|]. apply elem_of_remove_dups. exact Hin.
    + intros (q & [= -> ->] & Hin)%list_elem_of_fmap. split; [exact (proj1 (elem_of_remove_dups _ _) Hin)|done].
Qed.

(** A partition whose leader has flushed it without an error. *)
Definition flushed (id : string) (s : Space) (pid : Z) : Prop :=
  exists partition r, PartitionByCache (S_Name s) pid = inr partition /\ rpc_Execute FlushHandler (P_LeaderID partition) (message id NoPayload pid) = inr r /\ rp_Err r = None.

Lemma flushed_iff (id : string) (s : Space) (pid : Z) :
  rp_Err (goroutine s LeaderFlushExecute (fun r => r) (pid, message id NoPayload pid)) = None <-> flushed id s pid.
Proof.
  unfold goroutine, flushed, LeaderFlushExecute. cbn [fst snd]. destruct (PartitionByCache (S_Name s) pid) as [e|q]; [split; [done|by intros (? & ? & ? & _)]|].
  destruct (rpc_Execute FlushHandler (P_LeaderID q) (message id NoPayload pid)) as [e|rep] eqn:Hr; split.
  - done.
  - intros (q' & rep & [= <-] & Hrep & _). congruence.
  - intros He. by exists q, rep.
  - intros (q' & rep' & [= <-] & Hrep & He). congruence.
Qed.

(** The reply to a request to flush a space counts every partition once: the successful ones are exactly those whose leader has flushed it without an error, the failed ones all others, in whatever order the partitions end.  (C8) *)
Theorem flush_acknowledged (id : string) (b : index_body) (name : string) (s : Space) :
  getSpace (ib_DbName b) (ib_SpaceName b) = Ret (name, s) -> Z.of_nat (length (S_Partitions s)) < 2 ^ 31 ->
  exists sh good bad, handleIndexFlush id (Ret b) = Ret (JsonSuccess id (Some sh)) /\
    good ++ bad ≡ₚ remove_dups (P_Id <$> S_Partitions s) /\
    (forall pid, pid ∈ good -> flushed id s pid) /\ (forall pid, pid ∈ bad -> ~ flushed id s pid) /\
    Total sh = Z.of_nat (length (good ++ bad)) /\ Successful sh = Z.of_nat (length good) /\ Failed sh = Z.of_nat (length bad).
Proof using arrive_all.
  intros Hs Hlen. unfold handleIndexFlush, failed. rewrite Hs. apply getSpace_ret in Hs. unfold flush, new_request. rewrite Hs. cbn [obind].
  destruct (all_request_sent id FlushHandler s) as (Hsp & He & Hsz & Hm'). fold (all_request id FlushHandler s). unfold service. rewrite He. cbn [obind snd].
  set (pids := remove_dups (P_Id <$> S_Partitions s)).
  set (ok := fun pid => rp_Err (goroutine s LeaderFlushExecute (fun r => r) (pid, message id NoPayload pid)) = None).
  eexists _, (filter ok pids), (filter (fun pid => ~ ok pid) pids). split; [reflexivity|].
  assert (filter ok pids ++ filter (fun pid => ~ ok pid) pids ≡ₚ pids) as Hperm by apply filter_app_complement.
  destruct (execute_all_spec LeaderFlushExecute (all_request id FlushHandler s)) as (Htotal & Hsum & _); [lia|]. unfold FlushExecute.
  assert (Z.of_nat (size (r_sendMap (all_request id FlushHandler s))) = Z.of_nat (length pids)) as Hsize
    by (rewrite <- length_map_to_list, all_request_list, length_fmap; done).
  assert (Successful (execute_all LeaderFlushExecute (all_request id FlushHandler s)) = Z.of_nat (length (filter ok pids))) as Hgood.
  { unfold execute_all, count_replies. rewrite count_replies_successful; cbn [Failed Successful]; [|lia|lia|rewrite length_fmap, arrive_all, length_map_to_list; lia].
    rewrite Z.add_0_l, Hsp, arrive_all, all_request_list, <- list_fmap_compose. fold pids. f_equal. clear. induction pids as [|pid l IH]; [done|].
    cbn [fmap list_fmap]. rewrite !filter_cons.
    destruct (decide (ok pid)) as [Hok|Hok]; [rewrite decide_True by exact Hok|rewrite decide_False by exact Hok]; cbn [length]; [f_equal|]; exact IH. }
  split; [exact Hperm|]. split; [intros pid [H _]%list_elem_of_filter; by apply flushed_iff|].
  split; [intros pid [H _]%list_elem_of_filter; by rewrite <- flushed_iff|].
  rewrite Hperm. split; [lia|]. split; [done|]. pose proof (Permutation_length Hperm) as Hl. rewrite length_app in Hl. lia.
Qed.

(** The reply of a partition to an operation on its replicas: without an error if no replica replied at all; otherwise what the replica that ended last left in the shared reply. *)
Lemma replicas_unreachable (method : string) (q : Partition) (d : PartitionData) : (forall n, n ∈ P_Replicas q -> connected n = false) -> rp_Err (replicas_execute method q d) = None.
Proof using finish_all.
  intros H. unfold replicas_execute. assert (forall l e, (forall n, n ∈ l -> connected n = false) -> (foldl (replica_step method d) (e, false) l).2 = false) as Hf.
  { induction l as [|n l IH]; intros e Hl; [done|]. cbn [foldl]. unfold replica_step at 2, rpc_Execute. rewrite (Hl n) by (by left). apply IH. intros k Hk. apply Hl. by right. }
  specialize (Hf (finish (P_Id q) (P_Replicas q)) None). destruct (foldl _ _ _) as [err any]. cbn [snd] in Hf. rewrite Hf; [done|]. intros n Hn. apply H. by rewrite finish_all in Hn.
Qed.

(** Merging indexes when no server can be reached: the reply says that every partition was merged.  An error of a replica is written into the reply that the replicas share but only replicas that replied send it. *)
Theorem merge_failures_hidden (id : string) (b : index_body) (name : string) (s : Space) :
  getSpace (ib_DbName b) (ib_SpaceName b) = Ret (name, s) -> Z.of_nat (length (S_Partitions s)) < 2 ^ 31 -> ib_PartitionId b = 0 ->
  (forall p, p ∈ S_Partitions s -> exists q, PartitionByCache (S_Name s) (P_Id p) = inr q) -> (forall n, connected n = false) ->
  exists sh, handleIndexForceMerge id (Ret b) = Ret (JsonSuccess id (Some sh)) /\ Failed sh = 0 /\ Successful sh = Total sh.
Proof using arrive_all finish_all.
  intros Hs Hlen Hz Hc Hn. unfold handleIndexForceMerge, failed. rewrite Hs, Hz. unfold check_partition. cbn [Z.ltb Z.compare andb guard_err]. apply getSpace_ret in Hs. unfold forceMerge, new_request. rewrite Hs. cbn [obind].
  destruct (all_request_sent id ForceMergeHandler s) as (Hsp & He & Hsz & Hm'). fold (all_request id ForceMergeHandler s). unfold service. rewrite He. cbn [obind snd].
  eexists. split; [reflexivity|]. destruct (execute_all_spec ReplicaForceMergeExecute (all_request id ForceMergeHandler s)) as (_ & Hsum & Hiff); [lia|]. unfold ForceMergeExecute.
  assert (Failed (execute_all ReplicaForceMergeExecute (all_request id ForceMergeHandler s)) = 0) as H0; [|split; [done | lia]]. apply Hiff. intros pid d Hd. apply Hm' in Hd as [Hin ->]. rewrite Hsp.
  apply list_elem_of_fmap in Hin as (p & -> & Hp). destruct (Hc p Hp) as [q Hq]. unfold goroutine. cbn [fst snd]. rewrite Hq. by apply replicas_unreachable.
Qed.

(** ** Deleting by query *)

Definition query_of (args : Query.QueryRequest) : Router.QueryRequest := {| Q_PartitionId := QR_PartitionId args; Q_PartitionNames := QR_PartitionNames args |}.
(** The partitions a query is sent to. *)
Definition targeted (args : Query.QueryRequest) (s : Space) (pid : Z) : Prop :=
  if QR_PartitionId args =? 0 then exists p, p ∈ S_Partitions s /\ P_Id p = pid /\ (QR_PartitionNames args = [] \/ P_Name p ∈ QR_PartitionNames args)
  else pid = u32 (QR_PartitionId args).

Definition delete_request (id : string) (s : Space) (args : Query.QueryRequest) : routerRequest :=
  QueryByPartitions uuid (query_of args) {| r_md := {[ MessageID := id; HandlerType := DeleteByQueryHandler ]}; r_docs := []; r_space := s; r_sendMap := ∅; r_Err := None |}.
Lemma delete_request_sent (id : string) (s : Space) (args : Query.QueryRequest) : let r := delete_request id s args in
  r_space r = s /\ r_Err r = None /\ forall pid d, r_sendMap r !! pid = Some d <-> targeted args s pid /\ d = message id (QueryPayload (query_of args)) pid.
Proof.
  set (r0 := {| r_md := {[ MessageID := id; HandlerType := DeleteByQueryHandler ]}; r_docs := []; r_space := s; r_sendMap := ∅; r_Err := None |}).
  assert (GetMsgID uuid r0 = (id, r0)) as Hid by (unfold GetMsgID, r0; cbn [r_md]; by rewrite lookup_insert_eq).
  unfold delete_request, QueryByPartitions, targeted. fold r0. cbn [r_Err r0 query_of Q_PartitionId Q_PartitionNames]. destruct (QR_PartitionId args =? 0); cbn [negb].
  - destruct (broadcast_sent (QueryPayload (query_of args)) (named (QR_PartitionNames args)) r0) as (Hs & He & Hm). split; [done|]. split; [done|].
    intros pid d. rewrite Hm, Hid, <- elem_of_named. cbn [r_space r0 fst]. case_bool_decide; split; [intros [= <-]; done | intros [_ ->]; done | done | intros [? _]; done].
  - unfold send_one. rewrite Hid. cbn. split; [done|]. split; [done|]. intros pid d. rewrite lookup_singleton_Some. split; [intros [<- <-]; done | intros [-> ->]; done].
Qed.

Lemma elem_of_concat {A} (x : A) (ls : list (list A)) : x ∈ concat ls <-> exists l, l ∈ ls /\ x ∈ l.
Proof. rewrite list_elem_of_In, in_concat. by setoid_rewrite list_elem_of_In. Qed.

(** What the leader of a partition reports as deleted, if it can be asked and reports no error. *)
Definition deleted_by (id : string) (s : Space) (args : Query.QueryRequest) (pid : Z) (k : string) : Prop :=
  exists partition r ids, PartitionByCache (S_Name s) pid = inr partition /\
    rpc_Execute DeleteByQueryHandler (P_LeaderID partition) (message id (QueryPayload (query_of args)) pid) = inr r /\ rp_Err r = None /\ rp_ids r = Some ids /\ k ∈ ids.

(** A request to delete documents that passes the checks is always answered with success: with exactly the ids that the leaders of the partitions it concerns report as deleted, in any order of arrival.  A partition that is unknown,
    cannot be reached or fails adds nothing, and the client is not told.  (C9) *)
Theorem delete_collected (id db n name : string) (s : Space) (doc : SearchDocumentRequest) (args : Query.QueryRequest) :
  getSpace db n = Ret (name, s) -> queryRequestToPb D doc (rspace s) true = Ret args -> check_delete args (default [] (SD_DocumentIds doc)) = Ret tt ->
  exists ids, handleDocumentDelete id (Ret (db, n, doc)) = Ret (JsonSuccess id (i32 (Z.of_nat (length ids)), ids)) /\
    forall k, k ∈ ids <-> exists pid, targeted args s pid /\ deleted_by id s args pid k.
Proof using arrive_all.
  intros Hs Hq Hc. unfold handleDocumentDelete, failed. rewrite Hs, Hq, Hc. apply getSpace_ret in Hs. unfold deleteByQuery, new_request. rewrite Hs. cbn [obind].
  destruct (delete_request_sent id s args) as (Hsp & He & Hm). fold (query_of args). fold (delete_request id s args). unfold service. rewrite He. cbn [obind fst snd default DelByQueryeExecute].
  eexists. split; [reflexivity|]. intros k. rewrite Hsp. etransitivity; [apply elem_of_concat|]. setoid_rewrite list_elem_of_fmap. setoid_rewrite list_elem_of_omap. unfold deleted_by. split.
  - intros (l & (r & -> & ([pid d] & Hin & Hg)) & Hk). rewrite arrive_all, elem_of_map_to_list in Hin. apply Hm in Hin as [Ht ->]. exists pid. split; [done|]. unfold goroutine in Hg. cbn [fst snd] in Hg.
    destruct (PartitionByCache (S_Name s) pid) as [e|q]; [simplify_eq; by apply not_elem_of_nil in Hk|]. unfold delete_partition in Hg.
    destruct (rpc_Execute _ _ _) as [e|r'] eqn:Hrpc; [done|]. injection Hg as ->. unfold collected in Hk.
    destruct (rp_Err r) eqn:Er; [by apply not_elem_of_nil in Hk|]. destruct (rp_ids r) as [ids|] eqn:Ei; [|by apply not_elem_of_nil in Hk]. exists q, r, ids. done.
  - intros (pid & Ht & q & r & ids & Hp & Hrpc & Hr & Hi & Hk). exists ids. split; [|done]. exists r. split; [unfold collected; by rewrite Hr, Hi|].
    exists (pid, message id (QueryPayload (query_of args)) pid). split; [rewrite arrive_all, elem_of_map_to_list; by apply Hm|].
    unfold goroutine, delete_partition. cbn [fst snd]. by rewrite Hp, Hrpc.
Qed.
End Dispatch.

(** ** Concrete runs *)

(** A space with two partitions and an alias; every partition has the leader 1 and the replicas 1 and 2. *)
Definition wide_space : Space := demo_space 2 None [new_partition 5 "" 7 1 0; new_partition 9 "" 7 1 2147483647].
Definition wide_aliases : gmap string Alias := {[ "a"%string := {| Alias_Name := "a"; Alias_DbName := "db"; Alias_SpaceName := "s" |} ]}.
Definition wide_lookup (db name : string) : go Space := if name =?s "s" then Ret wide_space else Fail (OtherErr "no space").
Definition wide_partition (name : string) (pid : Z) : error + Partition :=
  inr {| P_Id := pid; P_Name := ""; P_SpaceId := 7; P_DBId := 1; P_Slot := 0; P_LeaderID := 1; P_Replicas := [1; 2]; P_UpdateTime := 0; P_AddNum := 0;
         P_ResourceExhausted := false; P_Path := ""; P_status := PA_READWRITE; P_ReStatusMap := ∅ |}.
(** Partition 9 fails, partition 5 deletes one document. *)
Definition wide_remote (method : string) (node : Z) (d : PartitionData) : error + reply :=
  if PD_PartitionID d =? 9 then inr (err_reply (verr PARTITION_IS_CLOSED "closed")) else inr {| rp_Err := None; rp_ids := Some ["k1"%string] |}.
Definition wide_body : index_body := {| ib_DbName := "db"; ib_SpaceName := "a"; ib_PartitionId := 0 |}.
Definition delete_doc : SearchDocumentRequest :=
  {| SD_Limit := 0; SD_Fields := []; SD_Filters := None; SD_Vectors := []; SD_Sort := None; SD_IndexParams := None; SD_L2Sqrt := false; SD_VectorValue := false; SD_IsBruteSearch := 0;
     SD_LoadBalance := ""; SD_DocumentIds := Some ["k1"; "k2"]%string; SD_PartitionId := None; SD_Next := None; SD_Ranker := None; SD_PageSize := 0; SD_PageNum := 0; SD_Offset := 0;
     SD_PartitionNames := [] |}.

Lemma flush_acknowledged_witness : exists sh,
  handleIndexFlush wide_aliases wide_lookup wide_partition (fun _ => true) wide_remote id "u" "r1" (Ret wide_body) = Ret (JsonSuccess "r1" (Some sh)) /\ Failed sh <> 0 /\ Total sh = 2.
Proof.
  destruct (flush_acknowledged wide_aliases wide_lookup wide_partition (fun _ => true) wide_remote id "u" (fun l => Permutation_refl l) "r1" wide_body "s" wide_space) as (sh & good & bad & Hr & Hperm & Hgood & _ & Ht & _ & Hf);
    [reflexivity | cbn; lia|].
  exists sh. split; [exact Hr|]. split.
  - intros H0. assert (9 ∈ good ++ bad) as Hin by (rewrite Hperm; by right; left). destruct bad as [|x bad]; [|simpl in Hf; lia].
    rewrite app_nil_r in Hin. destruct (Hgood 9 Hin) as (q & r & _ & Hrpc & Herr). cbn in Hrpc. injection Hrpc as <-. discriminate Herr.
  - rewrite Ht, Hperm. reflexivity.
Defined.

Lemma merge_failures_hidden_witness : exists sh,
  handleIndexForceMerge wide_aliases wide_lookup wide_partition (fun _ => false) wide_remote id (fun _ l => l) "u" "r1" (Ret wide_body) = Ret (JsonSuccess "r1" (Some sh)) /\ Failed sh = 0 /\ Successful sh = Total sh.
Proof.
  apply (merge_failures_hidden wide_aliases wide_lookup wide_partition (fun _ => false) wide_remote id (fun _ l => l) "u" (fun l => Permutation_refl l) (fun _ l => Permutation_refl l) "r1" wide_body "s" wide_space);
    [reflexivity | cbn; lia | reflexivity | intros p _; eexists; reflexivity | reflexivity].
Defined.

Lemma delete_collected_witness : exists ids,
  handleDocumentDelete wide_aliases wide_lookup wide_partition (fun _ => true) wide_remote id "u" demo_decoders "r1" (Ret ("db", "a", delete_doc)%string) = Ret (JsonSuccess "r1" (i32 (Z.of_nat (length ids)), ids)) /\
  "k1"%string ∈ ids /\ "k2"%string ∉ ids.
Proof.
  destruct (queryRequestToPb demo_decoders delete_doc (rspace wide_space) true) as [args| |] eqn:Eq; [|vm_compute in Eq; discriminate Eq..].
  assert (check_delete args (default [] (SD_DocumentIds delete_doc)) = Ret tt) as Hc by (vm_compute in Eq; injection Eq as <-; vm_compute; reflexivity).
  destruct (delete_collected wide_aliases wide_lookup wide_partition (fun _ => true) wide_remote id "u" demo_decoders (fun l => Permutation_refl l) "r1" "db" "a" "s" wide_space delete_doc args eq_refl Eq Hc) as (ids & Hr & Hk).
  exists ids. split; [exact Hr|]. split.
  - apply Hk. exists 5. split; [vm_compute in Eq; injection Eq as <-; exists (new_partition 5 "" 7 1 0); repeat split; [by left | by left]|].
    do 3 eexists. split; [reflexivity|]. split; [reflexivity|]. split; [reflexivity|]. split; [reflexivity|]. by left.
  - intros H2. destruct (proj1 (Hk _) H2) as (pid & _ & q & r & l & _ & Hrpc & Herr & Hl & Hin). unfold rpc_Execute, wide_remote in Hrpc. cbn in Hrpc.
    destruct (pid =? 9); injection Hrpc as <-; [discriminate Herr|]. injection Hl as <-. apply list_elem_of_singleton in Hin. discriminate Hin.
Defined.
